(* ===== verification/_CoqProject ===== *)
-Q . S2P
Prelude.v
Lists.v
Codec.v
Vocab.v
Interfaces.v
Scheduler.v
WarmPool.v
Worker.v
Supervisor.v
Cancel.v
Wire.v
Bridge.v
Ring.v
Text.v
Paths.v
Lines.v
Utf8.v
Store.v
FileState.v
Bookmarks.v
FileTables.v
FileCopy.v
FileWalk.v
FileApp.v
FileIpc.v
PluginWire.v
Plugin.v
PluginHost.v
PluginProc.v
PluginInstall.v
Auth.v
Stack.v
Chunk.v
KnowText.v
KnowIndex.v
KnowSearch.v
KnowDaemon.v
Policy.v
Consent.v
AuditLog.v
AgtSession.v
AgtSandbox.v
AgtClient.v
Units.v
StackBar.v
Sensors.v
Monitor.v
KnowAuto.v
Applets.v
Doctor.v
McpServers.v
Markdown.v
Bluetooth.v
