(* ===== verification/Prelude.v ===== *)
(** * sy: a verification library for the desktop and agent environment

    [sy] is a Rust workspace: an inference plane that schedules requests for a
    neural processor onto worker processes, an IPC layer, a knowledge indexer,
    an agent daemon with a permission gate, a file manager with plugins, a
    clipboard of stacked items, a phone key, a system monitor, and the bar and
    applets of the desktop. This library models the parts that carry its own
    logic as executable definitions and proves what they promise. File names
    below are relative to [src/crates].

    ** Parts and how they interact

    A client sends an IPC v1 request (Wire) to a daemon's socket. The bridge
    (Bridge) routes it by method; a run or batch is registered for cancellation
    (Cancel) and admitted to the scheduler (Scheduler), whose dispatcher hands
    one request at a time to the supervisor (Supervisor). The supervisor keeps
    one worker process (Worker) per workload kind alive, and touches the warm
    pool (WarmPool). The monitor (Sensors, Monitor) pushes what it samples into
    the history ring (Ring). The knowledge daemon (KnowDaemon) decides when an
    indexing pass (KnowIndex) runs; a pass cuts files into records (KnowText)
    by way of the chunker (Chunk), and a search (KnowSearch) reads what the
    passes left. The agent daemon runs sessions (AgtSession) of a sandboxed
    agent (AgtSandbox), asks the permission gate (Policy), which waits for
    consent tokens (Consent) and writes the audit log (AuditLog); AgtClient is
    what looks at it. The file manager's reducer (FileApp) works on its state
    (FileState, Bookmarks, FileTables); its daemon (FileIpc) copies (FileCopy),
    lists and trashes (FileWalk); its plugins are found (Plugin), talked to
    (PluginWire), supervised (PluginProc), served (PluginHost) and installed
    (PluginInstall).

    *** Shared ground

    - [Prelude]: results, machine integers, clocks, shared tactics and hints.
    - [Lists], [Codec], [Text], [Paths], [Lines], [Utf8], [Store]: the stable
      sort, list searches, concrete codecs for the witnesses, texts as code
      points, [std::path], [str::lines] and [str::parse], UTF-8, and a store of
      files with its file operations. They model what the source uses of the
      standard library.
    - [Vocab]: priority classes, workload kinds, inputs and outputs, error codes
      ([sy-core/src/priority.rs], [workload.rs], [error.rs]).
    - [Interfaces]: what the scheduler and the cancellation registry need of a
      bounded channel and of a cancellation token store, as classes of
      operations with laws, and an instance of each, so that the laws can hold.
      The concrete ones are [crossbeam] and [tokio_util].

    *** The inference plane and the IPC layer

    - [Scheduler] ([sy-aiplane/src/aiplane/scheduler.rs], [error.rs]): [Disp] is
      the dispatcher thread with its queues, tokens and clock; [step] is every
      move of the thread, of the callers and of the environment; [drain] runs the
      thread alone; [escape_tick] and [hard_escape_loop] are the watchdog.
    - [WarmPool] ([warm_pool.rs]): [Pool], [touch] and [warm_kinds].
    - [Worker] ([worker_ipc.rs], [worker/runner.rs]): module [WorkerIpc] is the
      line protocol, module [Worker] the process, [Proc] with a [step] for each
      thread.
    - [Supervisor] ([supervisor/mod.rs], [child.rs], [health.rs]): every
      operation in a state monad [M] over the class [World] of clock, processes
      and sockets; the actions taken are logged. [Sim] is a world made of a
      [Worker] process for the witnesses.
    - [Cancel] ([sy-ipc/src/cancel.rs]): [Reg] with [register], [cancel] and
      [drop_guard], and [dispatch_with_cancel] over its polls.
    - [Wire] ([sy-ipc/src/envelope.rs], [blocking.rs], [stream.rs],
      [server.rs]): JSON values, the strict parser, frames and one connection.
    - [Bridge] ([sy-aiplane/src/aiplane/ipc.rs], [sy-ipc/src/aiplane.rs],
      [reserved.rs]): the two translations between the legacy vocabulary and v1,
      [route], and the handlers as a response with the list of their effects.

    *** The file manager and its plugins ([sy-filemanager/src])

    - [FileState], [Bookmarks], [FileTables] ([file/state], [bookmarks.rs],
      [keymap.rs], [fs/mounts.rs], [dnd.rs]): selection, panes, operations,
      layout, pinned and recent directories, key bindings, mounts, drags.
    - [FileApp] ([file/app.rs]): [update], the reducer; [deliver] runs the tasks
      it asks for.
    - [FileCopy], [FileWalk] ([file/fs]): the copy loops with their conflict
      policies, one level of a directory, the trash.
    - [FileIpc] ([file/ipc.rs]): the [file.] methods over the shared state.
    - [PluginWire], [Plugin], [PluginHost], [PluginProc], [PluginInstall]
      ([plugin/], [plugin_bridge.rs], and [sy-plugin-pdk], [sy-plugin-git],
      [sy-plugin-code]): base64 and both framings; manifests, the handshake and
      the registry; the host functions behind their permission checks; the actor
      of one plugin process; the swap of an installed tree.

    *** Knowledge ([sy-knowledge/src/knowledge])

    - [Chunk], [KnowText] ([chunk.rs], [extract.rs], [normalize.rs],
      [pipeline/], [sparse.rs]): from a file to records.
    - [KnowIndex] ([sources.rs], [manifest.rs], [state.rs], [cli.rs]): the
      sources, the index on disk and the pass, over the class of a vector store.
    - [KnowDaemon] ([daemon.rs], [transcribe.rs], [qdrant.rs]): the loop, with
      the thread that acts on [Pause] and [Cancel] while a pass runs.
    - [KnowSearch] ([query.rs], [calibrate.rs], [eval.rs], and the search
      requests of [daemon.rs]): filters, expansion, ranking and its confidence.
    - [KnowAuto] ([repair.rs], [auto_mcp.rs], [auto.rs], [autoconfig.rs]): the
      repair of the store's files, the entry in each agent's configuration, the
      plan of automatic configuration.

    *** Agents ([sy-agent/src/agt])

    - [Policy] ([policy/schema.rs], [policy/resolver.rs], [permission.rs],
      [daemon.rs], [audit/mod.rs]): [load], [decide_tool] ([Resolver::decide]),
      [resolve_permission], [handle_permission].
    - [Consent] ([policy/consent.rs], [daemon.rs]): [Store], [issue],
      [decide_token], [cleanup_expired], [handle_approve], and [step].
    - [AuditLog] ([audit/jsonl.rs]): [emit_jsonl], [rotate] and [rotate_steps].
    - [AgtSession] ([protocol.rs], [wire.rs], [session.rs], [acp.rs]): requests
      and events, a session with its subscribers, a turn of the agent.
    - [AgtSandbox] ([sandbox/], [acp.rs], [policy/grant.rs], [policy/cli.rs]):
      the profile, the command line around the agent and the layers on it.
    - [AgtClient] ([daemon.rs], [client.rs], [inspector.rs], [waybar.rs],
      [menu.rs], [proc_scan.rs], [launcher.rs]).

    *** The desktop

    - [Stack], [StackBar] ([sy-desktop-shell/src/stack]): the stack of items
      with its caps and payloads; the bar with its popups, and the tools.
    - [Auth] ([sy-auth/src/syauth.rs]): what the phone key reports and how it is
      shown, the pairing requests, the notifications across polls.
    - [Units] ([src/supervision]): the units that are written, linked
      and removed, and the plan of [sy apply].
    - [Sensors], [Monitor], [Ring] ([sy-monitor/src/mon], [sy-core/src/mon]):
      the readers of [/proc] and [/sys], the aggregator and its tick, the popup,
      and the history ring as the bytes of its file.
    - [Applets] ([sy-desktop-shell/src]: [polkit.rs], [silent.rs], [notif.rs],
      [net.rs], [wifi.rs], [wwan.rs]): the PolicyKit dialog and its helper, the
      silent hours, the notifications, the network menus.
    - [Doctor] ([src/doctor], [src/crash], [sy-monitor/src/mon/doctor.rs],
      [sy-filemanager/src/file/doctor.rs]): the health checks over the record of
      what a host answers, their reports and exit codes, and the crash records.
    - [McpServers] (the four [mcp.rs]): the JSON-RPC loop they share and the tools
      of the monitor, the stack, the file manager and the knowledge plane.
    - [Markdown] ([sy-plugin-md/src/render.rs]): the blocks of a preview from the
      parser's events, and the writing of its pixels.
    - [Bluetooth] ([sy-desktop-shell/src/bt.rs]): the tile, the menu, a scan and
      pairing.

    ** What the theorems show

    - Scheduling: no request is lost, doubled or answered twice, whatever the
      interleaving; classes are first-in first-out; a polling pass is never
      overtaken; a quiet dispatcher drains in strict priority order; admission on
      every branch; the watchdog fires when and only when it should.
    - Workers and supervision: every connection is answered once with a matching
      reply; cancel, run and shutdown on every outcome, each of which ends; and
      two defects: batches run under the nil id and cannot be cancelled, and
      restart bookkeeping never survives a respawn.
    - IPC: framing, the legacy vocabulary and responses round trip; the strict
      parser; connections are served in order; what is advertised is what is
      handled; handlers release what they take; the cancellation registry does
      not leak and cancels exactly.
    - Ring: it refines a bounded queue across reopening, and a crash inside a
      push shows the rows before or after it.
    - Chunker: it ends, its chunks fit the embedder, and no text is lost.
    - Gate: which calls are allowed, exactly; audit before asking; an approval
      wakes only its own handler and only in time; the audit log keeps all but
      the batches behind ten archives, and a crash in a rotation loses none else.
    - Agents: a subscriber's tail has no gap; a turn keeps the agent to itself
      until it ends; every layer of the sandbox keeps to its profile.
    - File manager: the reducer keeps its state well formed and listings settle
      on the directory shown; a copy never overwrites what it was not told to,
      and is whole or absent.
    - Plugins: frames survive any chunking; a host call stays within its grant;
      requests are conserved, and answered only by their own answers; a swap
      installs or restores.
    - Knowledge: the index owns the points of the store, a pass that ends brings
      it up to date with the sources, passes run only when allowed and a due one
      does run; a search answers the best rows and leaves agents' records out;
      the repair converges and keeps sound segments; the entry written into a
      configuration is the one read back.
    - Desktop: the stack keeps the newest within its caps and its payloads match
      its items; popups are tracked; applying units converges; the monitor's
      history serves its ticks; the helper of PolicyKit hears answers only; a
      doctor's exit code is the worst of what its checks found.
    - MCP: requests are answered once and in order; the metric suggested is at the
      least edit distance; a text pushed is the text got; answers are bounded.
    - Where a doc comment and the code disagree, a theorem says what the code
      does (the select of the dispatcher, the rebuild of a live ring, the
      unparsable policy, the first matching option, the forgotten token, and the
      closed examples at the end of the files).

    ** Conventions, fuel and parameters

    Fallible code returns [result]; [u32] and [u64] are [Z] with their wrap
    written out; instants are nanoseconds in [Z]; floats are their bits, or
    [spec_float] where the code computes with them. Loops that wait on the clock
    ([Supervisor]) take [turns deadline interval] turns of fuel, enough because
    every turn sleeps at least the interval, and the theorems state that the
    operation finishes; [Chunk] takes one turn more than the pieces (or
    characters) it walks, [chunks_fit_embedder] shows it is enough; [drain]
    takes six turns per waiting request and four more. Where a later file uses
    fuel it is the length of what the loop consumes, plus one.

    Third-party code is a parameter: [serde_json], [toml] and [serde_yaml]
    (classes and arguments), [globset], [sha2], [zstd], UUIDs, [crossbeam]
    channels, [tokio_util] tokens, the vector store, the models, PDF and XML
    readers, [minisign], Landlock and seccomp, NetworkManager. Clocks, processes,
    sockets, signals, the notification and the consent channel enter as inputs of
    the operations that read them; each class of laws has an instance, so that
    the laws can hold.

    ** Not modelled

    The workloads' tensor code and the models (numerical kernels of libraries);
    drawing ([view] functions of the windows, styling, themes, images), which
    builds widgets of a library and keeps no state (the pixels of a Markdown
    preview excepted); log formatting, tracing and
    metrics text; the tokio codecs and client, journald and D-Bus plumbing,
    which only call libraries; argument parsing, which [clap] derives; start-up
    glue of the daemons, which spawns the parts modelled here. Input and output
    errors appear where the code branches on them. [PROJECT.json] lists every
    part with what of it is modelled. *)

From stdpp Require Export base tactics gmap strings list fin_maps sorting.
From Stdlib Require Export ZArith Lia.

#[export] Set Default Goal Selector "!".
(** The notations of the components' monads. *)
Declare Scope sy_scope.
Delimit Scope sy_scope with sy.

(** ** Results of fallible code *)

(** Rust's [Result<A, E>]. *)
Inductive result (A E : Type) : Type :=
| Ok (a : A)
| Err (e : E).
Arguments Ok {A E} a.
Arguments Err {A E} e.

(** [Result::is_ok]. *)
Definition is_ok {A E} (r : result A E) : bool :=
  match r with Ok _ => true | Err _ => false end.

(** The [?] operator: the rest of the function runs only on [Ok]. *)
Definition rbind {A B E} (r : result A E) (k : A → result B E) : result B E :=
  match r with Ok a => k a | Err e => Err e end.

Notation "'try' x <- r ; k" := (rbind r (fun x => k))
  (at level 60, x pattern, r at next level, right associativity) : sy_scope.

(** ** Machine integers and time

    A [u32], [u64] or [usize] value is a [Z] kept in range by the code that
    computes it; the operations below are the ones the source names. Instants
    and durations are counted in nanoseconds. *)

Definition U32_MOD : Z := 2 ^ 32.
Definition U64_MOD : Z := 2 ^ 64.
Definition u32_range (x : Z) : Prop := (0 <= x < U32_MOD)%Z.
Definition u64_range (x : Z) : Prop := (0 <= x < U64_MOD)%Z.

(** [u64::wrapping_add]. *)
Definition wrapping_add64 (a b : Z) : Z := ((a + b) mod U64_MOD)%Z.

Definition Instant : Type := Z.
Definition Duration : Type := Z.
Definition from_millis (n : Z) : Duration := (n * 1000000)%Z.
Definition from_secs (n : Z) : Duration := (n * 1000000000)%Z.
(** [Instant::saturating_duration_since] (and [elapsed], whose argument is
    never later than now). *)
Definition saturating_since (now t : Instant) : Duration := Z.max 0 (now - t).

Lemma wrapping_add64_small (a b : Z) :
  (0 <= a + b < U64_MOD)%Z → wrapping_add64 a b = (a + b)%Z.
Proof. intros H. unfold wrapping_add64. by apply Z.mod_small. Qed.

Lemma wrapping_add64_range (a b : Z) : u64_range (wrapping_add64 a b).
Proof. unfold u64_range, wrapping_add64. apply Z.mod_pos_bound. done. Qed.

(** ** Automation *)

Create HintDb sy.
#[export] Hint Resolve wrapping_add64_range : sy.
#[export] Hint Constructors Forall NoDup : sy.

(** Case analysis on the scrutinee of the first [match] or [if] found in the
    goal, keeping the equation. *)
Ltac split_match :=
  match goal with
  | |- context [match ?x with _ => _ end] => destruct x eqn:?
  end.

(** ** Lists *)

Section lists.
Context {A : Type}.
Implicit Types (l k : list A).

Lemma NoDup_take n l : NoDup l → NoDup (take n l).
Proof.
  rewrite <- (take_drop n l) at 1. by intros [? _]%NoDup_app.
Qed.

End lists.
