(* ===== verification/Lists.v ===== *)
(** * Lists

    What the later components share about lists: the stable sort of
    [slice::sort_by], [Iterator::position], and the search over a counted range
    that a [for] loop with an early return is. *)

From S2P Require Import Prelude.
Local Open Scope list_scope.

Module Lists.

(** ** Stable sorting *)

Section sort.
Context {A : Type} (le : A → A → bool).
Implicit Types (l : list A).

(** [x] goes before the first element it is not after. *)
Fixpoint insert_by (x : A) l : list A :=
  match l with
  | [] => [x]
  | y :: l' => if le x y then x :: l else y :: insert_by x l'
  end.

(** [slice::sort_by]: stable, since an element is put before its later equals. *)
Definition sort_by l : list A := foldr insert_by [] l.

Lemma insert_by_Permutation x l : insert_by x l ≡ₚ x :: l.
Proof.
  induction l as [|y l IH]; simpl; [done|]. destruct (le x y); [done|].
  rewrite IH. by constructor.
Qed.

Lemma sort_by_Permutation l : sort_by l ≡ₚ l.
Proof. induction l as [|x l IH]; simpl; [done|]. by rewrite insert_by_Permutation, IH. Qed.

Lemma elem_of_sort_by x l : x ∈ sort_by l ↔ x ∈ l.
Proof. by rewrite sort_by_Permutation. Qed.

Lemma length_sort_by l : length (sort_by l) = length l.
Proof. apply Permutation_length, sort_by_Permutation. Qed.

Lemma sort_by_nil l : sort_by l = [] ↔ l = [].
Proof. rewrite <- !length_zero_iff_nil. by rewrite length_sort_by. Qed.

Context (le_total : ∀ x y, le x y = true ∨ le y x = true)
        (le_trans : ∀ x y z, le x y = true → le y z = true → le x z = true).

Lemma insert_by_sorted x l :
  StronglySorted (λ a b, le a b = true) l →
  StronglySorted (λ a b, le a b = true) (insert_by x l).
Proof.
  induction 1 as [|y l Hs IH Hf]; simpl; [repeat constructor|].
  destruct (le x y) eqn:E.
  - constructor; [by constructor|]. constructor; [done|].
    eapply Forall_impl; [exact Hf|]. simpl. eauto.
  - constructor; [done|]. rewrite insert_by_Permutation. constructor; [|done].
    destruct (le_total x y); congruence.
Qed.

Lemma sort_by_sorted l : StronglySorted (λ a b, le a b = true) (sort_by l).
Proof. induction l; simpl; [constructor|]. by apply insert_by_sorted. Qed.

(** The elements of a class whose members are all equal under [le] keep their
    order. *)
Lemma insert_by_filter (P : A → Prop) `{!∀ x, Decision (P x)} x l :
  (∀ a b, P a → P b → le a b = true) →
  filter P (insert_by x l) = filter P (x :: l).
Proof.
  intros HP. induction l as [|y l IH]; [done|]. cbn [insert_by].
  destruct (le x y) eqn:E; [done|].
  rewrite !filter_cons in *. rewrite IH.
  destruct (decide (P x)) as [Hx|]; [|done]. destruct (decide (P y)) as [Hy|]; [|done].
  rewrite (HP x y Hx Hy) in E. done.
Qed.

Lemma sort_by_stable (P : A → Prop) `{!∀ x, Decision (P x)} l :
  (∀ a b, P a → P b → le a b = true) → filter P (sort_by l) = filter P l.
Proof.
  intros HP. induction l as [|x l IH]; [done|]. cbn [sort_by foldr].
  rewrite insert_by_filter by done. rewrite !filter_cons. fold (sort_by l). by rewrite IH.
Qed.

(** Where the last element of a list is sorted to: after its equals. *)
Lemma sort_by_snoc l x :
  ∃ a b, sort_by (l ++ [x]) = a ++ x :: b ∧ a ≡ₚ filter (λ y, le y x = true) l ∧ b ≡ₚ filter (λ y, le y x = false) l.
Proof.
  induction l as [|y l (a & b & E & Ha & Hb)]; [by exists [], []|].
  cbn [app sort_by foldr]. fold (sort_by (l ++ [x])). rewrite E. clear E. rewrite !filter_cons.
  assert (Forall (λ z, le z x = true) a) as Hax.
  { rewrite Ha. apply Forall_forall. by intros z [? _]%list_elem_of_filter. }
  destruct (le y x) eqn:Ey.
  - rewrite decide_True, decide_False by done.
    assert (∃ a', insert_by y (a ++ x :: b) = a' ++ x :: b ∧ a' ≡ₚ y :: a) as (a' & -> & Ha').
    { clear Ha Hax Hb. induction a as [|z a (a' & E & Ha')]; cbn [app insert_by]; [rewrite Ey; by exists [y]|].
      destruct (le y z); [by exists (y :: z :: a)|]. rewrite E. exists (z :: a'). split; [done|].
      rewrite Ha'. by constructor. }
    exists a', b. split_and!; [done|by rewrite Ha', Ha|done].
  - rewrite decide_False, decide_True by done. exists a, (insert_by y b). split_and!; [|done|by rewrite insert_by_Permutation, Hb].
    clear Ha Hb. induction Hax as [|z a Hz Hax IH]; cbn [app insert_by]; [by rewrite Ey|].
    destruct (le y z) eqn:Ez; [|by rewrite IH]. by rewrite (le_trans _ _ _ Ez Hz) in Ey.
Qed.

End sort.

Lemma elem_of_concat {A} (x : A) (ls : list (list A)) : x ∈ concat ls ↔ ∃ l, x ∈ l ∧ l ∈ ls.
Proof.
  induction ls as [|l ls IH]; cbn [concat].
  - split; [by intros ?%not_elem_of_nil|]. by intros (? & _ & ?%not_elem_of_nil).
  - rewrite elem_of_app, IH. split.
    + intros [H|(l' & H & Hl)]; [exists l|exists l']; split; try done; [apply list_elem_of_here|by apply list_elem_of_further].
    + intros (l' & H & [->|Hl]%elem_of_cons); [by left|right; by exists l'].
Qed.
Lemma filter_ext_elem {A} (P Q : A → Prop) `{!∀ x, Decision (P x), !∀ x, Decision (Q x)} (l : list A) :
  (∀ x, x ∈ l → P x ↔ Q x) → filter P l = filter Q l.
Proof.
  induction l as [|x l IH]; intros HPQ; [done|]. rewrite !filter_cons.
  pose proof (HPQ x (list_elem_of_here _ _)). rewrite IH by (intros; apply HPQ; by apply list_elem_of_further).
  by destruct (decide (P x)), (decide (Q x)); try tauto.
Qed.

(** Sorting by a key that a map keeps. *)
Lemma sort_by_map {A B} (f : A → B) (le : A → A → bool) (le' : B → B → bool) l :
  (∀ a b, le a b = le' (f a) (f b)) → map f (sort_by le l) = sort_by le' (map f l).
Proof.
  intros H. induction l as [|x l IH]; [done|]. cbn [sort_by foldr map]. fold (sort_by le l) (sort_by le' (map f l)).
  rewrite <- IH. generalize (sort_by le l) as m. induction m as [|y m IHm]; [done|]. cbn [insert_by map].
  rewrite <- H. destruct (le x y); [done|]. cbn [map]. by rewrite IHm.
Qed.

(** ** Positions *)

(** [Iterator::position]. *)
Definition position {A} (f : A → bool) (l : list A) : option nat :=
  fst <$> list_find (λ x, f x = true) l.

Lemma position_Some {A} (f : A → bool) l i :
  position f l = Some i → ∃ x, l !! i = Some x ∧ f x = true.
Proof.
  unfold position. intros ([j x] & E & ->)%fmap_Some. apply list_find_Some in E. naive_solver.
Qed.

Lemma position_lt {A} (f : A → bool) l i : position f l = Some i → i < length l.
Proof. intros (x & Hx & _)%position_Some. by eapply lookup_lt_Some. Qed.

(** ** Counted search *)

(** [for i in n .. n + p { if let Some(x) = f(i) { return x } }]: the first
    success among [p] consecutive numbers. *)
Fixpoint first_in {A} (f : Z → option A) (p : positive) (n : Z) : option A :=
  match p with
  | xH => f n
  | xO q => match first_in f q n with Some x => Some x | None => first_in f q (n + Zpos q)%Z end
  | xI q =>
      match f n with
      | Some x => Some x
      | None =>
          match first_in f q (n + 1)%Z with
          | Some x => Some x
          | None => first_in f q (n + 1 + Zpos q)%Z
          end
      end
  end.

Lemma first_in_None {A} (f : Z → option A) p n :
  first_in f p n = None → ∀ j, (n <= j < n + Zpos p)%Z → f j = None.
Proof.
  revert n. induction p as [p IH|p IH|]; cbn [first_in]; intros n H j Hj.
  - destruct (f n) eqn:E0; [done|]. destruct (first_in f p (n + 1)) eqn:E1; [done|].
    specialize (IH _ E1) as H1. specialize (IH _ H).
    destruct (decide (j = n)) as [->|]; [done|].
    destruct (decide (j < n + 1 + Zpos p)%Z); [apply H1|apply IH]; lia.
  - destruct (first_in f p n) eqn:E1; [done|].
    specialize (IH _ E1) as H1. specialize (IH _ H).
    destruct (decide (j < n + Zpos p)%Z); [apply H1|apply IH]; lia.
  - assert (j = n) as -> by lia. done.
Qed.

Lemma first_in_Some {A} (f : Z → option A) p n x :
  first_in f p n = Some x → ∃ i, (n <= i < n + Zpos p)%Z ∧ f i = Some x
    ∧ ∀ j, (n <= j < i)%Z → f j = None.
Proof.
  revert n. induction p as [p IH|p IH|]; cbn [first_in]; intros n H.
  - destruct (f n) eqn:E0.
    { exists n. split; [lia|]. split; [congruence|]. intros. lia. }
    destruct (first_in f p (n + 1)) eqn:E1.
    + simplify_eq. destruct (IH _ E1) as (i & ? & ? & Hj). exists i. split; [lia|].
      split; [done|]. intros j ?. destruct (decide (j = n)) as [->|]; [done|]. apply Hj. lia.
    + pose proof (first_in_None _ _ _ E1) as Hnone. destruct (IH _ H) as (i & ? & ? & Hj). exists i.
      split; [lia|]. split; [done|]. intros j ?. destruct (decide (j = n)) as [->|]; [done|].
      destruct (decide (j < n + 1 + Zpos p)%Z); [apply Hnone|apply Hj]; lia.
  - destruct (first_in f p n) eqn:E1.
    + simplify_eq. destruct (IH _ E1) as (i & ? & ? & Hj). exists i. split; [lia|]. done.
    + pose proof (first_in_None _ _ _ E1) as Hnone. destruct (IH _ H) as (i & ? & ? & Hj). exists i.
      split; [lia|]. split; [done|]. intros j ?.
      destruct (decide (j < n + Zpos p)%Z); [apply Hnone|apply Hj]; lia.
  - exists n. split; [lia|]. split; [done|]. intros. lia.
Qed.

Lemma filter_all {A} (f : A → bool) l : Forall (λ x, f x = true) l → List.filter f l = l.
Proof. induction 1 as [|x l Hx Hl IH]; [done|]. cbn [List.filter]. by rewrite Hx, IH. Qed.

End Lists.
