(* ===== verification/Codec.v ===== *)
(** * Codecs

    Concrete prefix codecs on lists of numbers. The witnesses use them where a
    theorem takes a third-party serialiser and its reader as arguments. *)

From S2P Require Import Prelude.
Local Open Scope list_scope.

Module Codec.

Record codec (A : Type) : Type := mkCodec {
  ser : A → list Z;
  de : list Z → option (A * list Z);
  de_ser : ∀ x r, de (ser x ++ r) = Some (x, r);
}.
Arguments mkCodec {A}. Arguments ser {A}. Arguments de {A}. Arguments de_ser {A}.

Definition num : codec Z.
Proof.
  refine (mkCodec (λ n, [n]) (λ l, match l with n :: r => Some (n, r) | [] => None end) _). done.
Defined.

Definition pair_codec {A B} (a : codec A) (b : codec B) : codec (A * B).
Proof.
  refine (mkCodec (λ x, ser a x.1 ++ ser b x.2)
    (λ l, '(x, r) ← de a l; '(y, r) ← de b r; Some (x, y, r)) _).
  intros [x y] r. simpl. rewrite <- app_assoc, (de_ser a). simpl. by rewrite (de_ser b).
Defined.

Fixpoint de_times {A} (d : list Z → option (A * list Z)) (n : nat) (l : list Z)
    : option (list A * list Z) :=
  match n with
  | 0 => Some ([], l)
  | S n => '(x, r) ← d l; '(xs, r) ← de_times d n r; Some (x :: xs, r)
  end.

Lemma de_times_ser {A} (a : codec A) xs r :
  de_times (de a) (length xs) (concat (map (ser a) xs) ++ r) = Some (xs, r).
Proof.
  induction xs as [|x xs IH]; [done|]. cbn [length map concat de_times].
  rewrite <- app_assoc, (de_ser a). simpl. by rewrite IH.
Qed.

Definition list_codec {A} (a : codec A) : codec (list A).
Proof.
  refine (mkCodec (λ xs, Z.of_nat (length xs) :: concat (map (ser a) xs))
    (λ l, match l with n :: r => de_times (de a) (Z.to_nat n) r | [] => None end) _).
  intros xs r. simpl. rewrite Nat2Z.id. apply de_times_ser.
Defined.

Definition opt_codec {A} (a : codec A) : codec (option A).
Proof.
  refine (mkCodec (λ x, match x with Some y => 1%Z :: ser a y | None => [0%Z] end)
    (λ l, match l with
          | n :: r => if (n =? 0)%Z then Some (None, r) else '(x, r) ← de a r; Some (Some x, r)
          | [] => None
          end) _).
  intros [x|] r; simpl; [|done]. by rewrite (de_ser a).
Defined.

(** A codec of [B] from one of [A] and an isomorphism. *)
Definition iso_codec {A B} (a : codec A) (f : B → A) (g : A → B) (fg : ∀ x, g (f x) = x) : codec B.
Proof.
  refine (mkCodec (λ x, ser a (f x)) (λ l, '(x, r) ← de a l; Some (g x, r)) _).
  intros x r. rewrite (de_ser a). simpl. by rewrite fg.
Defined.

(** Reading exactly one value. *)
Definition read_all {A} (a : codec A) (l : list Z) : option A :=
  match de a l with Some (x, []) => Some x | _ => None end.

Lemma read_all_ser {A} (a : codec A) x : read_all a (ser a x) = Some x.
Proof. unfold read_all. rewrite <- (app_nil_r (ser a x)). by rewrite (de_ser a). Qed.

Definition text_codec : codec (list Z) := list_codec num.

(** The value of a fallible computation that succeeds, with a default. *)
Definition ok_or {A E} (d : A) (r : result A E) : A := match r with Ok a => a | Err _ => d end.
Lemma ok_or_eq {A E} (d : A) (r : result A E) : is_ok r = true → r = Ok (ok_or d r).
Proof. by destruct r. Qed.

End Codec.
