(* ===== verification/Vocab.v ===== *)
(** * Vocabulary shared by the planes

    [crates/sy-core/src/priority.rs] and the ser/de-free part of
    [crates/sy-core/src/workload.rs]: the four QoS classes, the workload kinds,
    the error codes of [crates/sy-core/src/error.rs], their wire names with the parsers that read them back, and the health
    records the supervisor and the workers exchange. *)

From S2P Require Import Prelude.
Local Open Scope string_scope.

Module Priority.

Inductive Priority : Type := Realtime | Interactive | Background | Batch.

#[export] Instance Priority_eq_dec : EqDecision Priority.
Proof. solve_decision. Defined.

(** [Priority::ALL], highest class first. *)
Definition ALL : list Priority := [Realtime; Interactive; Background; Batch].

Definition as_str (p : Priority) : string :=
  match p with
  | Realtime => "Realtime"
  | Interactive => "Interactive"
  | Background => "Background"
  | Batch => "Batch"
  end.

(** [FromStr]: the first class of [ALL] whose wire name is [s]. *)
Definition from_str (s : string) : option Priority :=
  find (fun p => String.eqb s (as_str p)) ALL.

(** Position in [ALL]: the smaller, the higher the class. *)
Definition rank (p : Priority) : nat :=
  match p with Realtime => 0 | Interactive => 1 | Background => 2 | Batch => 3 end.

Lemma rank_inj p q : rank p = rank q → p = q.
Proof. by destruct p, q. Qed.

Lemma rank_lookup p : ALL !! rank p = Some p.
Proof. by destruct p. Qed.

End Priority.

Module Workload.

Inductive WorkloadKind : Type :=
| Embed | Rerank | Vad | Stt | Tts | Ocr | Clip | Denoise | EyeTrack.

#[export] Instance WorkloadKind_eq_dec : EqDecision WorkloadKind.
Proof. solve_decision. Defined.

(** [WorkloadKind::ALL]. *)
Definition KINDS : list WorkloadKind :=
  [Embed; Rerank; Vad; Stt; Tts; Ocr; Clip; Denoise; EyeTrack].

Definition kind_str (k : WorkloadKind) : string :=
  match k with
  | Embed => "embed"
  | Rerank => "rerank"
  | Vad => "vad"
  | Stt => "stt"
  | Tts => "tts"
  | Ocr => "ocr"
  | Clip => "clip"
  | Denoise => "denoise"
  | EyeTrack => "eye-track"
  end.

(** [FromStr]: the first kind of [ALL] whose wire name is [s]. *)
Definition kind_from_str (s : string) : option WorkloadKind :=
  find (fun k => String.eqb s (kind_str k)) KINDS.

Definition kind_index (k : WorkloadKind) : positive :=
  match k with
  | Embed => 1 | Rerank => 2 | Vad => 3 | Stt => 4 | Tts => 5
  | Ocr => 6 | Clip => 7 | Denoise => 8 | EyeTrack => 9
  end%positive.

#[export] Instance WorkloadKind_countable : Countable WorkloadKind.
Proof.
  refine (inj_countable' kind_index
    (fun p => match p with
      | 1 => Embed | 2 => Rerank | 3 => Vad | 4 => Stt | 5 => Tts
      | 6 => Ocr | 7 => Clip | 8 => Denoise | _ => EyeTrack end%positive) _).
  by intros [].
Defined.

(** Typed inputs and outputs. Float payloads are carried as their bit
    patterns: no operation modelled here computes with them. *)
Inductive WorkloadInput : Type :=
| InText (text : string)
| InTextPair (a b : string)
| InAudio (pcm : list Z) (sr : Z)
| InImage (bytes : list Z).

Record SpeechSpan : Type := mkSpan { start_ms : Z; end_ms : Z; prob : Z }.

Inductive WorkloadOutput : Type :=
| OutVector (vector : list Z)
| OutScore (score : Z)
| OutText (text : string)
| OutSpans (spans : list SpeechSpan)
| OutBytes (bytes : list Z).

(** Coarse lifecycle phase of a worker. *)
Inductive WorkloadState : Type :=
| NotPrepared
| Loading
| Ready (backend : string)
| Failed (reason : string)
| Unavailable.

Definition is_ready (s : WorkloadState) : bool :=
  match s with Ready _ => true | _ => false end.

Lemma kind_str_inj k1 k2 : kind_str k1 = kind_str k2 → k1 = k2.
Proof. by destruct k1, k2. Qed.

#[export] Instance kind_str_Inj : Inj (=) (=) kind_str.
Proof. intros k1 k2. apply kind_str_inj. Qed.

Lemma kind_in_KINDS k : k ∈ KINDS.
Proof. destruct k; unfold KINDS; set_solver. Qed.

End Workload.

(** [crates/sy-core/src/error.rs]: the wire-stable error codes. *)
Module ErrorCode.

Inductive ErrorCode : Type :=
| Overloaded | Cancelled | Timeout | PolicyDenied | ConsentRequired
| IncompatibleSchema | NotReady | NpuUnavailable | Internal | BadRequest.

#[export] Instance ErrorCode_eq_dec : EqDecision ErrorCode.
Proof. solve_decision. Defined.

(** [ErrorCode::ALL]. *)
Definition CODES : list ErrorCode :=
  [Overloaded; Cancelled; Timeout; PolicyDenied; ConsentRequired;
   IncompatibleSchema; NotReady; NpuUnavailable; Internal; BadRequest].

Definition code_str (c : ErrorCode) : string :=
  match c with
  | Overloaded => "Overloaded"
  | Cancelled => "Cancelled"
  | Timeout => "Timeout"
  | PolicyDenied => "PolicyDenied"
  | ConsentRequired => "ConsentRequired"
  | IncompatibleSchema => "IncompatibleSchema"
  | NotReady => "NotReady"
  | NpuUnavailable => "NpuUnavailable"
  | Internal => "Internal"
  | BadRequest => "BadRequest"
  end.

Definition exit_code (c : ErrorCode) : Z :=
  match c with
  | Internal | Timeout | Cancelled => 1
  | BadRequest | IncompatibleSchema => 2
  | NotReady | NpuUnavailable => 4
  | Overloaded => 5
  | ConsentRequired => 6
  | PolicyDenied => 7
  end%Z.

(** [FromStr]: the first code of [ALL] whose wire name is [s]. *)
Definition code_from_str (s : string) : option ErrorCode :=
  find (fun c => String.eqb s (code_str c)) CODES.

End ErrorCode.

(** ** Wire names and their parsers *)

Section wire_names.
Context {K : Type} (name : K → string) (all : list K).
Hypothesis name_inj : ∀ a b, name a = name b → a = b.
Hypothesis all_complete : ∀ a, a ∈ all.

(** Looking a wire name up in the complete list of constructors succeeds
    exactly on the name of the constructor returned. *)
Lemma find_name_iff s a :
  find (fun x => String.eqb s (name x)) all = Some a ↔ s = name a.
Proof.
  split.
  - intros [_ H]%find_some. by apply String.eqb_eq.
  - intros ->. destruct (find _ all) as [b|] eqn:E.
    + apply find_some in E as [_ E%String.eqb_eq].
      by rewrite (name_inj _ _ E).
    + exfalso. specialize (all_complete a).
      apply list_elem_of_In in all_complete.
      apply (find_none _ _ E) in all_complete.
      by rewrite String.eqb_refl in all_complete.
Qed.

End wire_names.

(** Wire names of the priority classes, the workload kinds and the error
    codes parse back: [from_str] accepts exactly the canonical spelling of a
    constructor and returns that constructor, for every string. *)
Theorem wire_names_round_trip :
  (∀ s p, Priority.from_str s = Some p ↔ s = Priority.as_str p) ∧
  (∀ s k, Workload.kind_from_str s = Some k ↔ s = Workload.kind_str k) ∧
  (∀ s c, ErrorCode.code_from_str s = Some c ↔ s = ErrorCode.code_str c).
Proof.
  split_and!; intros; apply find_name_iff.
  - by intros [] [].
  - intros []; unfold Priority.ALL; set_solver.
  - apply Workload.kind_str_inj.
  - apply Workload.kind_in_KINDS.
  - by intros [] [].
  - intros []; unfold ErrorCode.CODES; set_solver.
Qed.
