(* ===== verification/Interfaces.v ===== *)
(** * Interfaces to code outside the repository

    The planes are built over a few third-party primitives: bounded MPMC
    channels ([crossbeam_channel]) and cancellation tokens
    ([tokio_util::sync::CancellationToken]). Neither is defined here: each is a
    class of operations with a class of laws stating its documented behaviour,
    and every component that uses one is generic in it. The instances at the
    end show that the laws can hold; they are used by the witnesses only. *)

From S2P Require Import Prelude.

(** ** Bounded channels *)

(** What [try_send] reports. *)
Inductive TrySend (C : Type) : Type :=
| Sent (c : C)
| SendFull
| SendDisconnected.
Arguments Sent {C} c.
Arguments SendFull {C}.
Arguments SendDisconnected {C}.

(** [bounded(cap)], [try_send], [try_recv], and the two ways an endpoint goes
    away. [ch_contents] is the queued messages, oldest first. *)
Class ChannelOps (C A : Type) : Type := {
  ch_bounded : nat → C;
  ch_contents : C → list A;
  ch_capacity : C → nat;
  ch_tx_alive : C → bool;
  ch_rx_alive : C → bool;
  ch_try_send : C → A → TrySend C;
  ch_try_recv : C → option (A * C);
  ch_drop_tx : C → C;
  ch_drop_rx : C → C;
}.

(** The documented behaviour: FIFO, at most [cap] messages, [Disconnected]
    when the receivers are gone, [Full] when the buffer is. *)
Class ChannelLaws (C A : Type) `{!ChannelOps C A} : Prop := {
  ch_bounded_spec n :
    ch_contents (ch_bounded (C := C) n) = [] ∧ ch_capacity (ch_bounded (C := C) n) = n ∧
    ch_tx_alive (ch_bounded (C := C) n) = true ∧ ch_rx_alive (ch_bounded (C := C) n) = true;
  ch_try_send_spec c a :
    match ch_try_send c a with
    | Sent c' =>
        ch_rx_alive c = true ∧ length (ch_contents c) < ch_capacity c ∧
        ch_contents c' = ch_contents c ++ [a] ∧ ch_capacity c' = ch_capacity c ∧
        ch_tx_alive c' = ch_tx_alive c ∧ ch_rx_alive c' = ch_rx_alive c
    | SendFull => ch_rx_alive c = true ∧ ch_capacity c <= length (ch_contents c)
    | SendDisconnected => ch_rx_alive c = false
    end;
  ch_try_recv_spec c :
    match ch_try_recv c with
    | Some (a, c') =>
        ch_contents c = a :: ch_contents c' ∧ ch_capacity c' = ch_capacity c ∧
        ch_tx_alive c' = ch_tx_alive c ∧ ch_rx_alive c' = ch_rx_alive c
    | None => ch_contents c = []
    end;
  ch_drop_tx_spec c :
    ch_contents (ch_drop_tx c) = ch_contents c ∧ ch_capacity (ch_drop_tx c) = ch_capacity c ∧
    ch_tx_alive (ch_drop_tx c) = false ∧ ch_rx_alive (ch_drop_tx c) = ch_rx_alive c;
  ch_drop_rx_spec c :
    ch_capacity (ch_drop_rx c) = ch_capacity c ∧
    ch_tx_alive (ch_drop_rx c) = ch_tx_alive c ∧ ch_rx_alive (ch_drop_rx c) = false;
}.

Section channel_facts.
Context {C A : Type} `{ChannelLaws C A}.

(** [recv] in a [select!] is ready when a message is there or no sender is. *)
Definition ch_recv_ready (c : C) : bool :=
  match ch_contents (A := A) c with [] => negb (ch_tx_alive (A := A) c) | _ => true end.

(** [Receiver::is_empty] and [Receiver::len]. *)
Definition ch_is_empty (c : C) : bool :=
  match ch_contents (A := A) c with [] => true | _ => false end.
Definition ch_len (c : C) : nat := length (ch_contents (A := A) c).

Lemma ch_try_recv_Some c a c' :
  ch_try_recv c = Some (a, c') →
  ch_contents c = a :: ch_contents c' ∧ ch_capacity (A := A) c' = ch_capacity (A := A) c ∧
  ch_tx_alive (A := A) c' = ch_tx_alive (A := A) c ∧ ch_rx_alive (A := A) c' = ch_rx_alive (A := A) c.
Proof. intros E. pose proof (ch_try_recv_spec c) as L. by rewrite E in L. Qed.

Lemma ch_try_recv_None c : ch_try_recv c = None → ch_contents (A := A) c = [].
Proof. intros E. pose proof (ch_try_recv_spec c) as L. by rewrite E in L. Qed.

Lemma ch_try_recv_nil c : ch_contents (A := A) c = [] → ch_try_recv c = None.
Proof.
  intros E. pose proof (ch_try_recv_spec c) as L.
  destruct (ch_try_recv c) as [[a c']|]; [|done]. by rewrite E in L; destruct L.
Qed.

Lemma ch_try_send_Sent c a c' :
  ch_try_send c a = Sent c' →
  ch_rx_alive (A := A) c = true ∧ length (ch_contents (A := A) c) < ch_capacity (A := A) c ∧
  ch_contents c' = ch_contents c ++ [a] ∧ ch_capacity (A := A) c' = ch_capacity (A := A) c ∧
  ch_tx_alive (A := A) c' = ch_tx_alive (A := A) c ∧ ch_rx_alive (A := A) c' = ch_rx_alive (A := A) c.
Proof. intros E. pose proof (ch_try_send_spec c a) as L. by rewrite E in L. Qed.

End channel_facts.

(** ** Cancellation tokens *)

(** A store of tokens: [CancellationToken::new], [cancel], [is_cancelled].
    Clones of a token are the same [T]: they share one flag. *)
Class TokenOps (S T : Type) : Type := {
  tok_live : S → T → Prop;          (* the token has been created *)
  tok_new : S → T * S;
  tok_cancel : S → T → S;
  tok_cancelled : S → T → bool;
}.

Class TokenLaws (S T : Type) `{!TokenOps S T} : Prop := {
  tok_new_fresh s : ¬ tok_live s (tok_new s).1;
  tok_new_live s t : tok_live (tok_new s).2 t ↔ t = (tok_new s).1 ∨ tok_live s t;
  tok_new_flag s : tok_cancelled (tok_new s).2 (tok_new s).1 = false;
  tok_new_other s t :
    t ≠ (tok_new s).1 → tok_cancelled (tok_new s).2 t = tok_cancelled s t;
  tok_cancel_live s t t' : tok_live (tok_cancel s t) t' ↔ tok_live s t';
  tok_cancel_self s t : tok_cancelled (tok_cancel s t) t = true;
  tok_cancel_other s t t' :
    t' ≠ t → tok_cancelled (tok_cancel s t) t' = tok_cancelled s t';
}.

(** ** Instances *)

(** A bounded queue as a list. *)
Record ListChan (A : Type) : Type := mkListChan {
  lc_items : list A; lc_cap : nat; lc_tx : bool; lc_rx : bool;
}.
Arguments mkListChan {A} _ _ _ _.
Arguments lc_items {A} _.
Arguments lc_cap {A} _.
Arguments lc_tx {A} _.
Arguments lc_rx {A} _.

#[export] Instance list_chan_ops A : ChannelOps (ListChan A) A := {|
  ch_bounded n := mkListChan [] n true true;
  ch_contents := lc_items;
  ch_capacity := lc_cap;
  ch_tx_alive := lc_tx;
  ch_rx_alive := lc_rx;
  ch_try_send c a :=
    if negb (lc_rx c) then SendDisconnected
    else if length (lc_items c) <? lc_cap c
         then Sent (mkListChan (lc_items c ++ [a]) (lc_cap c) (lc_tx c) (lc_rx c))
         else SendFull;
  ch_try_recv c :=
    match lc_items c with
    | [] => None
    | a :: l => Some (a, mkListChan l (lc_cap c) (lc_tx c) (lc_rx c))
    end;
  ch_drop_tx c := mkListChan (lc_items c) (lc_cap c) false (lc_rx c);
  ch_drop_rx c := mkListChan (lc_items c) (lc_cap c) (lc_tx c) false;
|}.

#[export] Instance list_chan_laws A : ChannelLaws (ListChan A) A.
Proof.
  split; try done.
  - intros [l n tx rx] a; cbn -[Nat.ltb]. destruct rx; [|done]. cbn -[Nat.ltb].
    destruct (Nat.ltb_spec (length l) n); cbn; split_and?; done || lia.
  - by intros [[|a l] n tx rx].
Qed.

(** Tokens as numbers, with the set of those cancelled. *)
Record NatTokens : Type := mkNatTokens { nt_next : nat; nt_cancelled : gset nat }.

#[export] Instance nat_token_ops : TokenOps NatTokens nat := {|
  tok_live s t := t < nt_next s;
  tok_new s := (nt_next s, mkNatTokens (S (nt_next s)) (nt_cancelled s ∖ {[nt_next s]}));
  tok_cancel s t := mkNatTokens (nt_next s) ({[t]} ∪ nt_cancelled s);
  tok_cancelled s t := bool_decide (t ∈ nt_cancelled s);
|}.

#[export] Instance nat_token_laws : TokenLaws NatTokens nat.
Proof.
  split; simpl; intros; try lia.
  - apply bool_decide_eq_false. set_solver.
  - apply bool_decide_ext. set_solver.
  - apply bool_decide_eq_true. set_solver.
  - apply bool_decide_ext. set_solver.
Qed.
