(* ===== verification/Scheduler.v ===== *)
(** * The four-class strict-priority scheduler

    [crates/sy-aiplane/src/aiplane/scheduler.rs] with the error vocabulary of
    [aiplane/error.rs]. [Scheduler] holds the queues, the admission policy and
    the dispatcher thread as a step relation whose steps are the individual
    channel operations, so that callers, the dispatcher and the watchdog
    interleave as the threads do. *)

From S2P Require Import Prelude Vocab Interfaces.
Import Priority Workload.
Local Open Scope string_scope.
Local Open Scope list_scope.

Module Scheduler.

(** ** Constants and policy *)

Definition CAP_REALTIME : nat := 4.
Definition CAP_INTERACTIVE : nat := 32.
Definition CAP_BACKGROUND : nat := 256.
Definition CAP_BATCH : nat := 4096.
Definition OVERLOADED_RETRY_AFTER_MS : Z := 200.
Definition HARD_ESCAPE_THRESHOLD : Duration := from_millis 200.
Definition HARD_ESCAPE_TICK : Duration := from_millis 50.

Definition queue_cap (class : Priority) : nat :=
  match class with
  | Realtime => CAP_REALTIME
  | Interactive => CAP_INTERACTIVE
  | Background => CAP_BACKGROUND
  | Batch => CAP_BATCH
  end.

Inductive TimeoutAction : Type := Reject | Delay.
Record ModelQueuePolicy : Type := { timeout_action : TimeoutAction }.

Definition policy (class : Priority) : ModelQueuePolicy :=
  match class with
  | Realtime | Interactive => {| timeout_action := Reject |}
  | Background | Batch => {| timeout_action := Delay |}
  end.

(** [AiplaneError]; the [anyhow] chain of a workload failure is its text. *)
Inductive AiplaneError : Type :=
| Overloaded (class : Priority) (queue_depth : nat) (retry_after : Z)
| Cancelled
| WorkloadFailed (msg : string).

Definition wire_code (e : AiplaneError) : ErrorCode.ErrorCode :=
  match e with
  | Overloaded _ _ _ => ErrorCode.Overloaded
  | Cancelled => ErrorCode.Cancelled
  | WorkloadFailed _ => ErrorCode.Internal
  end.

Definition retry_after_ms (e : AiplaneError) : option Z :=
  match e with Overloaded _ _ ms => Some ms | _ => None end.

(** ** Requests and queues *)

(** [Request]. [rq_respond] names the one-shot channel the answer travels on;
    [rq_cancel] is the token, an abstract [T]. *)
Record Request (T : Type) : Type := mkRequest {
  rq_id : N;
  rq_workload : WorkloadKind;
  rq_inputs : list WorkloadInput;
  rq_class : Priority;
  rq_queued_at : Instant;
  rq_deadline : option Instant;
  rq_cancel : T;
  rq_respond : N;
}.
Arguments mkRequest {T} _ _ _ _ _ _ _ _.
Arguments rq_id {T} _.
Arguments rq_workload {T} _.
Arguments rq_inputs {T} _.
Arguments rq_class {T} _.
Arguments rq_queued_at {T} _.
Arguments rq_deadline {T} _.
Arguments rq_cancel {T} _.
Arguments rq_respond {T} _.

(** [Request::new], given the clock reading and a fresh one-shot channel. *)
Definition Request_new {T} (now : Instant) (chan id : N) (workload : WorkloadKind)
    (inputs : list WorkloadInput) (class : Priority) (deadline : option Instant)
    (cancel : T) : Request T :=
  mkRequest id workload inputs class now deadline cancel chan.

(** The four channels, whose sender halves are [Scheduler] and whose receiver
    halves are [Dispatcher]. *)
Record Queues (C : Type) : Type := mkQueues {
  q_realtime : C; q_interactive : C; q_background : C; q_batch : C;
}.
Arguments mkQueues {C} _ _ _ _.
Arguments q_realtime {C} _.
Arguments q_interactive {C} _.
Arguments q_background {C} _.
Arguments q_batch {C} _.

Definition sender_for {C} (qs : Queues C) (class : Priority) : C :=
  match class with
  | Realtime => q_realtime qs
  | Interactive => q_interactive qs
  | Background => q_background qs
  | Batch => q_batch qs
  end.

(** Writing one of the four channels back after an operation on it. *)
Definition set_queue {C} (qs : Queues C) (class : Priority) (c : C) : Queues C :=
  match class with
  | Realtime => mkQueues c (q_interactive qs) (q_background qs) (q_batch qs)
  | Interactive => mkQueues (q_realtime qs) c (q_background qs) (q_batch qs)
  | Background => mkQueues (q_realtime qs) (q_interactive qs) c (q_batch qs)
  | Batch => mkQueues (q_realtime qs) (q_interactive qs) (q_background qs) c
  end.

Record InflightInfo : Type := mkInflight {
  if_request_id : N;
  if_workload : WorkloadKind;
  if_class : Priority;
  if_started_at : Instant;
}.

(** Metric samples the dispatcher emits. *)
Inductive Metric : Type :=
| GaugeQueueDepth (class : Priority) (kind : WorkloadKind) (depth : nat)
| CounterErrors (kind : WorkloadKind) (reason : string)
| CounterCompleted (kind : WorkloadKind)
| HistLatency (kind : WorkloadKind) (latency : Duration).

(** What [admit] does: queue the request, refuse it, or block the caller. *)
Inductive Admission (C : Type) : Type :=
| Accepted (qs : Queues C)
| Refused (e : AiplaneError)
| Blocked.
Arguments Accepted {C} qs.
Arguments Refused {C} e.
Arguments Blocked {C}.

(** Where the dispatcher thread stands: about to [try_recv] a class, parked
    in [select!], inside [run_one] between taking and answering a request, or
    returned. *)
Inductive Pc (T : Type) : Type :=
| Polling (class : Priority)
| Parked
| Running (req : Request T) (started : Instant)
| Stopped.
Arguments Polling {T} class.
Arguments Parked {T}.
Arguments Running {T} req started.
Arguments Stopped {T}.

(** The class the drain polls after this one finds nothing. *)
Definition below (p : Priority) : option Priority :=
  match p with
  | Realtime => Some Interactive
  | Interactive => Some Background
  | Background => Some Batch
  | Batch => None
  end.

Abbreviation Answer := (result (list WorkloadOutput) AiplaneError).

Section dispatcher.
Context {C TS T : Type} `{!ChannelOps C (Request T)} `{!TokenOps TS T}.

(** [Scheduler::new]: four bounded channels. *)
Definition new : Queues C :=
  mkQueues (ch_bounded CAP_REALTIME) (ch_bounded CAP_INTERACTIVE)
    (ch_bounded CAP_BACKGROUND) (ch_bounded CAP_BATCH).

Definition dispatcher_gone (class : Priority) : AiplaneError :=
  WorkloadFailed ("scheduler dispatcher gone — no receiver for " ++ as_str class)%string.

(** [Scheduler::admit]. [Delay] uses the blocking [send], which waits exactly
    while [try_send] reports a full buffer. *)
Definition sched_admit (qs : Queues C) (req : Request T) : Admission C :=
  let class := rq_class req in
  let sent := ch_try_send (sender_for qs class) req in
  match timeout_action (policy class) with
  | Reject =>
      match sent with
      | Sent c' => Accepted (set_queue qs class c')
      | SendFull => Refused (Overloaded class (queue_cap class) OVERLOADED_RETRY_AFTER_MS)
      | SendDisconnected => Refused (dispatcher_gone class)
      end
  | Delay =>
      match sent with
      | Sent c' => Accepted (set_queue qs class c')
      | SendFull => Blocked
      | SendDisconnected => Refused (dispatcher_gone class)
      end
  end.

(** [Scheduler::queue_depths]. *)
Definition queue_depths (qs : Queues C) : list (Priority * nat) :=
  map (fun p => (p, ch_len (A := Request T) (sender_for qs p))) ALL.

(** The shared state of the dispatcher thread and its observers. The last
    three fields are history: what was ever admitted, what was ever taken off
    a queue (with whether its token had tripped by then), and how much had
    been admitted when the current polling pass began. *)
Record Disp : Type := mkDisp {
  d_queues : Queues C;
  d_tokens : TS;
  d_now : Instant;
  d_pc : Pc T;
  d_inflight : option InflightInfo;
  d_answers : list (N * Answer);
  d_calls : list (Request T);
  d_metrics : list Metric;
  h_admitted : list (Request T);
  h_pulled : list (Request T * bool);
  h_pass : nat;
}.

(** [publish_queue_depths]. *)
Definition publish_queue_depths (qs : Queues C) (kind : WorkloadKind) : list Metric :=
  map (fun p => GaugeQueueDepth p kind (ch_len (A := Request T) (sender_for qs p))) ALL.

(** [run_one] up to the backend call: [qs] are the queues after [req] left
    them. A tripped token is answered at once; otherwise the inflight slot is
    filled and the backend is called. *)
Definition run_begin (d : Disp) (qs : Queues C) (req : Request T) : Disp :=
  let depths := publish_queue_depths qs (rq_workload req) in
  if tok_cancelled (d_tokens d) (rq_cancel req) then
    mkDisp qs (d_tokens d) (d_now d) (Polling Realtime) (d_inflight d)
      (d_answers d ++ [(rq_respond req, Err Cancelled)]) (d_calls d)
      (d_metrics d ++ depths ++ [CounterErrors (rq_workload req) "cancelled"])
      (h_admitted d) (h_pulled d ++ [(req, true)]) (length (h_admitted d))
  else
    mkDisp qs (d_tokens d) (d_now d) (Running req (d_now d))
      (Some (mkInflight (rq_id req) (rq_workload req) (rq_class req) (d_now d)))
      (d_answers d) (d_calls d ++ [req]) (d_metrics d ++ depths)
      (h_admitted d) (h_pulled d ++ [(req, false)]) (h_pass d).

(** [run_one] from the backend's answer on. *)
Definition run_finish (d : Disp) (outcome : result (list WorkloadOutput) string) : Disp :=
  match d_pc d with
  | Running req started =>
      let kind := rq_workload req in
      let counter := match outcome with
        | Ok _ => CounterCompleted kind
        | Err _ => CounterErrors kind "failed"
        end in
      let reply := match outcome with
        | Ok out => Ok out
        | Err msg => Err (WorkloadFailed msg)
        end in
      mkDisp (d_queues d) (d_tokens d) (d_now d) (Polling Realtime) None
        (d_answers d ++ [(rq_respond req, reply)]) (d_calls d)
        (d_metrics d ++ [HistLatency kind (saturating_since (d_now d) started); counter])
        (h_admitted d) (h_pulled d) (length (h_admitted d))
  | _ => d
  end.

Definition set_pc (d : Disp) (pc : Pc T) : Disp :=
  mkDisp (d_queues d) (d_tokens d) (d_now d) pc (d_inflight d) (d_answers d)
    (d_calls d) (d_metrics d) (h_admitted d) (h_pulled d) (h_pass d).

(** One [try_recv] of the drain in [run_dispatcher]. *)
Definition poll_step (d : Disp) : Disp :=
  match d_pc d with
  | Polling p =>
      match ch_try_recv (sender_for (d_queues d) p) with
      | Some (req, c') => run_begin d (set_queue (d_queues d) p c') req
      | None => set_pc d (match below p with Some p' => Polling p' | None => Parked end)
      end
  | _ => d
  end.

(** The [select!]: any arm whose channel has a message, or has lost its
    senders, may be the one taken. [None]: the arm is not ready. *)
Definition select_arm (d : Disp) (p : Priority) : option Disp :=
  match d_pc d with
  | Parked =>
      match ch_try_recv (sender_for (d_queues d) p) with
      | Some (req, c') => Some (run_begin d (set_queue (d_queues d) p c') req)
      | None =>
          if ch_tx_alive (A := Request T) (sender_for (d_queues d) p) then None
          else Some (set_pc d Stopped)
      end
  | _ => None
  end.

(** Steps of the callers and of the environment. *)
Definition client_admit (d : Disp) (qs : Queues C) (req : Request T) : Disp :=
  mkDisp qs (d_tokens d) (d_now d) (d_pc d) (d_inflight d) (d_answers d) (d_calls d)
    (d_metrics d) (h_admitted d ++ [req]) (h_pulled d) (h_pass d).
Definition client_tokens (d : Disp) (ts : TS) : Disp :=
  mkDisp (d_queues d) ts (d_now d) (d_pc d) (d_inflight d) (d_answers d) (d_calls d)
    (d_metrics d) (h_admitted d) (h_pulled d) (h_pass d).
Definition client_clock (d : Disp) (now : Instant) : Disp :=
  mkDisp (d_queues d) (d_tokens d) now (d_pc d) (d_inflight d) (d_answers d) (d_calls d)
    (d_metrics d) (h_admitted d) (h_pulled d) (h_pass d).
(** Dropping the [Scheduler] drops its senders in field order. *)
Definition client_drop (d : Disp) (p : Priority) : Disp :=
  mkDisp (set_queue (d_queues d) p (ch_drop_tx (A := Request T) (sender_for (d_queues d) p)))
    (d_tokens d) (d_now d) (d_pc d) (d_inflight d) (d_answers d) (d_calls d)
    (d_metrics d) (h_admitted d) (h_pulled d) (h_pass d).

Definition all_senders (d : Disp) : Prop :=
  ∀ p, ch_tx_alive (A := Request T) (sender_for (d_queues d) p) = true.

Inductive step : Disp → Disp → Prop :=
| step_admit d qs req :
    all_senders d → sched_admit (d_queues d) req = Accepted qs →
    rq_respond req ∉ rq_respond <$> h_admitted d →
    step d (client_admit d qs req)
| step_tokens d ts :
    (∀ t, tok_cancelled (d_tokens d) t = true → tok_cancelled ts t = true) →
    step d (client_tokens d ts)
| step_clock d now : (d_now d <= now)%Z → step d (client_clock d now)
| step_drop d p :
    (∀ q, rank q < rank p → ch_tx_alive (A := Request T) (sender_for (d_queues d) q) = false) →
    step d (client_drop d p)
| step_poll d p : d_pc d = Polling p → step d (poll_step d)
| step_select d p d' : select_arm d p = Some d' → step d d'
| step_finish d req t outcome : d_pc d = Running req t → step d (run_finish d outcome).

Definition init (ts : TS) (now : Instant) : Disp :=
  mkDisp new ts now (Polling Realtime) None [] [] [] [] [] 0.

Definition reachable (d : Disp) : Prop := ∃ ts now, rtc step (init ts now) d.

(** The drain of a quiet dispatcher, with [fuel] requests at most: no caller
    runs, and the backend answers with [backend]. *)
Fixpoint drain (backend : Request T → result (list WorkloadOutput) string)
    (fuel : nat) (d : Disp) : Disp :=
  match fuel with
  | O => d
  | S fuel' =>
      match d_pc d with
      | Polling _ => drain backend fuel' (poll_step d)
      | Running req _ => drain backend fuel' (run_finish d (backend req))
      | _ => d
      end
  end.

End dispatcher.
Arguments Disp _ _ _ : clear implicits.

(** ** Lemmas on the queues *)
Lemma sender_set_queue {C} (qs : Queues C) p q (c : C) :
  sender_for (set_queue qs p c) q = if decide (p = q) then c else sender_for qs q.
Proof. by destruct p, q. Qed.

Lemma sender_set_queue_eq {C} (qs : Queues C) p (c : C) :
  sender_for (set_queue qs p c) p = c.
Proof. by destruct p. Qed.

Lemma sender_set_queue_ne {C} (qs : Queues C) p q (c : C) :
  p ≠ q → sender_for (set_queue qs p c) q = sender_for qs q.
Proof. by destruct p, q. Qed.

Lemma below_rank p p' q : below p = Some p' → rank q < rank p' → q = p ∨ rank q < rank p.
Proof. destruct p, p', q; simpl; intros; simplify_eq; auto; lia. Qed.

Lemma below_None p q : below p = None → q = p ∨ rank q < rank p.
Proof. destruct p, q; simpl; intros; simplify_eq; auto; lia. Qed.

#[export] Hint Rewrite @sender_set_queue_eq : sy.

Section invariant.
Context {C TS T : Type} `{!ChannelOps C (Request T)} `{!ChannelLaws C (Request T)}
  `{!TokenOps TS T}.
Implicit Types (d : Disp C TS T) (r : Request T).

Abbreviation of_class p l := (filter (fun r => rq_class r = p) l).
Abbreviation contents d p := (ch_contents (A := Request T) (sender_for (d_queues d) p)).

(** The request being run, if any. *)
Definition running d : list (Request T * bool) :=
  match d_pc d with Running r _ => [(r, false)] | _ => [] end.

(** An answer matches the pulled request it belongs to: sent on its channel,
    and [Cancelled] exactly when the token had tripped at pickup. *)
Definition answers_match (rb : Request T * bool) (a : N * Answer) : Prop :=
  a.1 = rq_respond rb.1 ∧ (rb.2 = true ↔ a.2 = Err Cancelled).

(** Everything of class [q] waiting now arrived after the pass began. *)
Definition arrived_in_pass d (q : Priority) : Prop :=
  ∃ pre, of_class q (drop (h_pass d) (h_admitted d)) = pre ++ contents d q.

Record inv d : Prop := {
  inv_fifo p : of_class p (h_admitted d) = of_class p (h_pulled d).*1 ++ contents d p;
  inv_cap p : ch_capacity (A := Request T) (sender_for (d_queues d) p) = queue_cap p ∧
              length (contents d p) <= queue_cap p;
  inv_answers : ∃ settled, h_pulled d = settled ++ running d ∧
                           Forall2 answers_match settled (d_answers d);
  inv_calls : d_calls d = (filter (fun rb => rb.2 = false) (h_pulled d)).*1;
  inv_inflight : d_inflight d =
    match d_pc d with
    | Running r t => Some (mkInflight (rq_id r) (rq_workload r) (rq_class r) t)
    | _ => None
    end;
  inv_pass : h_pass d <= length (h_admitted d);
  inv_seen q : match d_pc d with
               | Polling p => rank q < rank p → arrived_in_pass d q
               | Parked => arrived_in_pass d q
               | _ => True
               end;
  inv_respond : NoDup (rq_respond <$> h_admitted d);
}.

Lemma sched_inv_init ts now : inv (init ts now).
Proof.
  assert (Hb : ∀ p, ch_contents (A := Request T) (sender_for (new (C := C) (T := T)) p) = [] ∧
    ch_capacity (A := Request T) (sender_for (new (C := C) (T := T)) p) = queue_cap p).
  { intros []; simpl;
      match goal with |- context [ch_bounded ?n] =>
        pose proof (ch_bounded_spec (C := C) (A := Request T) n) as (? & ? & _ & _) end; done. }
  split; unfold init; simpl; try done.
  - intros p. by rewrite (proj1 (Hb p)).
  - intros p. destruct (Hb p) as [-> ->]. simpl. split; [done|lia].
  - by exists [].
  - intros q Hq. lia.
  - constructor.
Qed.

(** Taking a request off the queue of class [p]. *)
Lemma pulled_fifo d p r c' q :
  inv d → ch_try_recv (sender_for (d_queues d) p) = Some (r, c') →
  of_class q (h_admitted d) =
    of_class q ((h_pulled d).*1 ++ [r]) ++
    ch_contents (A := Request T) (sender_for (set_queue (d_queues d) p c') q).
Proof.
  intros I E. apply ch_try_recv_Some in E as (E & _).
  pose proof (inv_fifo d I) as F.
  assert (Hr : rq_class r = p).
  { assert (r ∈ of_class p (h_admitted d)) as [? _]%list_elem_of_filter; [|done].
    rewrite F, E. set_solver. }
  rewrite filter_app, sender_set_queue. case_decide as Hpq; subst.
  - rewrite filter_cons_True by done. by rewrite F, E, <- app_assoc.
  - rewrite filter_cons_False by done. by rewrite F, app_nil_r.
Qed.

Lemma pulled_cap d p r c' q :
  inv d → ch_try_recv (sender_for (d_queues d) p) = Some (r, c') →
  ch_capacity (A := Request T) (sender_for (set_queue (d_queues d) p c') q) = queue_cap q ∧
  length (ch_contents (A := Request T) (sender_for (set_queue (d_queues d) p c') q)) <= queue_cap q.
Proof.
  intros I E. apply ch_try_recv_Some in E as (E & Ec & _).
  rewrite sender_set_queue. case_decide; subst; [|apply (inv_cap d I)].
  destruct (inv_cap d I q) as [Hc Hl]. rewrite E in Hl. simpl in Hl.
  rewrite Ec, Hc. split; [done|lia].
Qed.

Lemma inv_run_begin d p r c' :
  inv d → running d = [] → d_inflight d = None →
  ch_try_recv (sender_for (d_queues d) p) = Some (r, c') →
  inv (run_begin d (set_queue (d_queues d) p c') r).
Proof.
  intros I Hrun Hinf E. destruct (inv_answers d I) as (settled & Hs & Ha).
  rewrite Hrun, app_nil_r in Hs. subst settled.
  unfold run_begin. destruct (tok_cancelled _ _) eqn:Etok; split; simpl.
  all: try (intros q; rewrite fmap_app; simpl; by eapply pulled_fifo).
  all: try (intros q; by eapply pulled_cap).
  all: try apply (inv_respond d I).
  all: try (rewrite filter_app, fmap_app, (inv_calls d I); simpl; by rewrite ?app_nil_r).
  all: try (by apply (inv_pass d I)).
  - eexists. split; [symmetry; apply app_nil_r|].
    apply Forall2_app; [done|]. by repeat constructor.
  - done.
  - done.
  - intros q Hq. lia.
  - by exists (h_pulled d).
  - done.
  - done.
Qed.

Lemma inv_run_finish d r t outcome :
  inv d → d_pc d = Running r t → inv (run_finish d outcome).
Proof.
  intros I Hpc. destruct (inv_answers d I) as (settled & Hs & Ha).
  unfold running in Hs. unfold run_finish. rewrite Hpc in *. split; simpl.
  - apply (inv_fifo d I).
  - apply (inv_cap d I).
  - exists (h_pulled d). split; [by rewrite app_nil_r|].
    rewrite Hs. apply Forall2_app; [done|]. repeat constructor; simpl; by destruct outcome.
  - apply (inv_calls d I).
  - done.
  - done.
  - intros q Hq. lia.
  - apply (inv_respond d I).
Qed.

(** Moving on from a class found empty. *)
Lemma inv_poll_miss d p :
  inv d → d_pc d = Polling p → ch_try_recv (sender_for (d_queues d) p) = None →
  inv (set_pc d (match below p with Some p' => Polling p' | None => Parked end)).
Proof.
  intros I Hpc E. apply ch_try_recv_None in E.
  pose proof (inv_inflight d I) as Hinf. pose proof (inv_answers d I) as Ha.
  pose proof (inv_seen d I) as Hsn. unfold running in Ha. rewrite Hpc in *.
  assert (Hnew : ∀ q, q = p ∨ rank q < rank p → arrived_in_pass d q).
  { intros q [->|Hq]; [|by apply Hsn]. unfold arrived_in_pass. rewrite E.
    eexists. by rewrite app_nil_r. }
  split; simpl.
  - apply (inv_fifo d I).
  - apply (inv_cap d I).
  - unfold running; simpl. by destruct (below p).
  - apply (inv_calls d I).
  - by destruct (below p).
  - apply (inv_pass d I).
  - intros q. destruct (below p) as [p'|] eqn:Eb.
    + intros Hq. apply Hnew. by eapply below_rank.
    + apply Hnew. by apply below_None.
  - apply (inv_respond d I).
Qed.

Lemma admitted_channel (qs qs' : Queues C) r :
  sched_admit qs r = Accepted qs' →
  ∃ c', ch_try_send (sender_for qs (rq_class r)) r = Sent c' ∧
        qs' = set_queue qs (rq_class r) c'.
Proof.
  unfold sched_admit. destruct (timeout_action _);
    destruct (ch_try_send _ _) as [c'| |]; intros; simplify_eq; eauto.
Qed.

Lemma inv_admit d qs' r :
  inv d → sched_admit (d_queues d) r = Accepted qs' →
  rq_respond r ∉ rq_respond <$> h_admitted d → inv (client_admit d qs' r).
Proof.
  intros I (c' & Es & ->)%admitted_channel Hfresh.
  apply ch_try_send_Sent in Es as (_ & Hlt & Ec & Ecap & _).
  assert (Hcont : ∀ q, ch_contents (A := Request T)
      (sender_for (set_queue (d_queues d) (rq_class r) c') q) =
      contents d q ++ of_class q [r]).
  { intros q. rewrite sender_set_queue. case_decide; subst.
    - by rewrite filter_cons_True.
    - by rewrite filter_cons_False, app_nil_r. }
  assert (Hseen : ∀ q, arrived_in_pass d q →
      arrived_in_pass (client_admit d (set_queue (d_queues d) (rq_class r) c') r) q).
  { intros q [pre Hpre]. exists pre. simpl. rewrite Hcont.
    rewrite drop_app_le by apply (inv_pass d I). by rewrite filter_app, Hpre, app_assoc. }
  split; simpl.
  - intros p. by rewrite filter_app, (inv_fifo d I), Hcont, app_assoc.
  - intros p. rewrite sender_set_queue. case_decide; subst; [|apply (inv_cap d I)].
    destruct (inv_cap d I (rq_class r)) as [Hc Hl].
    rewrite Ecap, Ec, Hc, length_app in *. simpl. split; [done|lia].
  - apply (inv_answers d I).
  - apply (inv_calls d I).
  - apply (inv_inflight d I).
  - rewrite length_app. pose proof (inv_pass d I). lia.
  - intros q. pose proof (inv_seen d I q). destruct (d_pc d); naive_solver.
  - rewrite fmap_app. apply NoDup_app. split_and!; [apply (inv_respond d I)| |apply NoDup_singleton].
    intros x Hx. set_solver.
Qed.

Lemma sched_inv_drop d p : inv d → inv (client_drop d p).
Proof.
  intros I.
  assert (Hc : ∀ q, ch_contents (A := Request T) (sender_for (d_queues (client_drop d p)) q) = contents d q ∧
    ch_capacity (A := Request T) (sender_for (d_queues (client_drop d p)) q) =
    ch_capacity (A := Request T) (sender_for (d_queues d) q)).
  { intros q. simpl. rewrite sender_set_queue. case_decide; subst; [|done].
    by pose proof (ch_drop_tx_spec (A := Request T) (sender_for (d_queues d) q)) as (? & ? & _). }
  assert (Hseen : ∀ q, arrived_in_pass d q → arrived_in_pass (client_drop d p) q).
  { intros q [pre Hpre]. exists pre. by rewrite (proj1 (Hc q)). }
  split.
  - intros q. rewrite (proj1 (Hc q)). apply (inv_fifo d I).
  - intros q. destruct (Hc q) as [-> ->]. apply (inv_cap d I).
  - apply (inv_answers d I).
  - apply (inv_calls d I).
  - apply (inv_inflight d I).
  - apply (inv_pass d I).
  - intros q. pose proof (inv_seen d I q). simpl. destruct (d_pc d); naive_solver.
  - apply (inv_respond d I).
Qed.

(** Changing only the clock or the tokens. *)
Lemma sched_inv_frame d d' :
  inv d → d_queues d' = d_queues d → d_pc d' = d_pc d → d_inflight d' = d_inflight d →
  d_answers d' = d_answers d → d_calls d' = d_calls d → h_admitted d' = h_admitted d →
  h_pulled d' = h_pulled d → h_pass d' = h_pass d → inv d'.
Proof.
  intros [] Eq Epc Einf Ea Ec Ead Ep Eps.
  split; unfold running, arrived_in_pass in *; rewrite ?Eq, ?Epc, ?Einf, ?Ea, ?Ec, ?Ead, ?Ep, ?Eps; done.
Qed.

Lemma polling_idle d p : inv d → d_pc d = Polling p → running d = [] ∧ d_inflight d = None.
Proof. intros I E. unfold running. rewrite (inv_inflight d I), E. done. Qed.

Lemma parked_idle d : inv d → d_pc d = Parked → running d = [] ∧ d_inflight d = None.
Proof. intros I E. unfold running. rewrite (inv_inflight d I), E. done. Qed.

Lemma inv_poll d p : inv d → d_pc d = Polling p → inv (poll_step d).
Proof.
  intros I Hpc. destruct (polling_idle d p I Hpc). unfold poll_step. rewrite Hpc.
  destruct (ch_try_recv _) as [[r c']|] eqn:E.
  - by apply inv_run_begin.
  - by apply inv_poll_miss.
Qed.

Lemma inv_select d p d' : inv d → select_arm d p = Some d' → inv d'.
Proof.
  intros I. unfold select_arm. destruct (d_pc d) eqn:Hpc; try done.
  destruct (parked_idle d I Hpc).
  destruct (ch_try_recv _) as [[r c']|] eqn:E.
  - intros [= <-]. by apply inv_run_begin.
  - destruct (ch_tx_alive _); [done|]. intros [= <-].
    destruct (inv_answers d I) as (settled & Hs & Ha). unfold running in *. rewrite Hpc in *.
    destruct I. split; simpl; eauto.
Qed.

Lemma sched_inv_step d d' : inv d → step d d' → inv d'.
Proof.
  intros I. destruct 1.
  - by apply inv_admit.
  - by apply (sched_inv_frame d).
  - by apply (sched_inv_frame d).
  - by apply sched_inv_drop.
  - by eapply inv_poll.
  - by eapply inv_select.
  - by eapply inv_run_finish.
Qed.

Lemma sched_inv_reachable d : reachable d → inv d.
Proof.
  intros (ts & now & Hr).
  remember (init ts now) as d0 eqn:E0. assert (inv d0) as I by (subst; apply sched_inv_init).
  clear E0. induction Hr; eauto using sched_inv_step.
Qed.

(** ** What the invariant gives *)

(** The requests waiting, highest class first, oldest first in a class. *)
Definition waiting d : list (Request T) :=
  contents d Realtime ++ contents d Interactive ++ contents d Background ++ contents d Batch.

Lemma classes_partition (l : list (Request T)) :
  l ≡ₚ of_class Realtime l ++ of_class Interactive l ++
       of_class Background l ++ of_class Batch l.
Proof.
  induction l as [|r l IH]; [done|]. rewrite !filter_cons.
  destruct (rq_class r) eqn:E; repeat (case_decide; try congruence); simpl;
    rewrite IH at 1; solve_Permutation.
Qed.

Lemma admitted_conserved d : inv d → h_admitted d ≡ₚ (h_pulled d).*1 ++ waiting d.
Proof.
  intros I. rewrite (classes_partition (h_admitted d)), !(inv_fifo d I).
  rewrite (classes_partition (h_pulled d).*1) at 5. unfold waiting. solve_Permutation.
Qed.

Lemma answers_match_ids settled answers :
  Forall2 answers_match settled answers → answers.*1 = rq_respond <$> settled.*1.
Proof. induction 1 as [|rb a ? ? [E _] _ IH]; [done|]. csimpl. by rewrite E, IH. Qed.

Lemma answers_settled d :
  inv d → ∃ settled, h_pulled d = settled ++ running d ∧
                     (d_answers d).*1 = rq_respond <$> settled.*1.
Proof.
  intros I. destruct (inv_answers d I) as (settled & Hs & Ha).
  eauto using answers_match_ids.
Qed.

Lemma answers_unique d : inv d → NoDup (d_answers d).*1.
Proof.
  intros I. destruct (answers_settled d I) as (settled & Hs & ->).
  pose proof (inv_respond d I) as Hnd.
  rewrite (admitted_conserved d I), Hs, !fmap_app in Hnd.
  by apply NoDup_app in Hnd as [[? _]%NoDup_app _].
Qed.

(** ** The drain *)
Lemma drain_polling backend fuel d p :
  d_pc d = Polling p → drain backend (S fuel) d = drain backend fuel (poll_step d).
Proof. intros Hpc. simpl. by rewrite Hpc. Qed.

Lemma drain_running backend fuel d r t :
  d_pc d = Running r t →
  drain backend (S fuel) d = drain backend fuel (run_finish d (backend r)).
Proof. intros Hpc. simpl. by rewrite Hpc. Qed.

Lemma drain_miss backend fuel d p :
  d_pc d = Polling p → contents d p = [] →
  drain backend (S fuel) d =
  drain backend fuel (set_pc d (match below p with Some p' => Polling p' | None => Parked end)).
Proof.
  intros Hpc Hc. rewrite (drain_polling _ _ _ _ Hpc). unfold poll_step.
  by rewrite Hpc, ch_try_recv_nil.
Qed.

(** The reply a quiet run gives to [r]. *)
Definition reply_for (backend : Request T → result (list WorkloadOutput) string)
    (ts : TS) r : N * Answer :=
  (rq_respond r,
   if tok_cancelled ts (rq_cancel r) then Err Cancelled
   else match backend r with Ok out => Ok out | Err msg => Err (WorkloadFailed msg) end).

(** Serving the request found by the poll. *)
Lemma drain_hit backend fuel d p r l :
  d_pc d = Polling p → contents d p = r :: l →
  ∃ d', drain backend (S (S fuel)) d =
          drain backend (if tok_cancelled (d_tokens d) (rq_cancel r) then S fuel else fuel) d' ∧
        d_pc d' = Polling Realtime ∧ d_tokens d' = d_tokens d ∧
        d_answers d' = d_answers d ++ [reply_for backend (d_tokens d) r] ∧
        ∀ q, contents d' q = if decide (p = q) then l else contents d q.
Proof.
  intros Hpc Hc.
  destruct (ch_try_recv (sender_for (d_queues d) p)) as [[r0 c']|] eqn:E;
    [|apply ch_try_recv_None in E; congruence].
  pose proof (ch_try_recv_Some _ _ _ E) as (E' & _). rewrite E' in Hc. simplify_eq.
  set (d1 := run_begin d (set_queue (d_queues d) p c') r).
  assert (Hpoll : poll_step d = d1) by (unfold poll_step; by rewrite Hpc, E).
  assert (Hq : ∀ q, contents d1 q = if decide (p = q) then ch_contents c' else contents d q).
  { intros q. unfold d1, run_begin. destruct (tok_cancelled _ _); simpl;
      rewrite sender_set_queue; by case_decide. }
  rewrite (drain_polling _ _ _ _ Hpc), Hpoll. unfold reply_for.
  destruct (tok_cancelled _ _) eqn:Et.
  - exists d1. unfold d1, run_begin in *. by rewrite Et in *.
  - exists (run_finish d1 (backend r)).
    assert (Hr : d_pc d1 = Running r (d_now d)) by (unfold d1, run_begin; by rewrite Et).
    rewrite (drain_running _ _ _ _ _ Hr). split; [done|].
    unfold run_finish. rewrite Hr. simpl. split_and!; [done| | |done].
    + unfold d1, run_begin. by rewrite Et.
    + unfold d1, run_begin. rewrite Et. simpl. by destruct (backend r).
Qed.

(** The drain serves the waiting requests in order and then parks. *)
Definition drain_serves backend (f : nat) d : Prop :=
  d_pc (drain backend f d) = Parked ∧ waiting (drain backend f d) = [] ∧
  d_answers (drain backend f d) =
    d_answers d ++ map (reply_for backend (d_tokens d)) (waiting d).

Lemma waiting_first d d1 p r l :
  contents d p = r :: l → (∀ q, rank q < rank p → contents d q = []) →
  (∀ q, contents d1 q = if decide (p = q) then l else contents d q) →
  waiting d = r :: waiting d1.
Proof.
  intros Hc Habove Hc1. unfold waiting. rewrite !Hc1.
  pose proof (Habove Realtime) as A0. pose proof (Habove Interactive) as A1.
  pose proof (Habove Background) as A2.
  destruct p; simpl in *; rewrite ?Hc; simpl; try done;
    rewrite ?(A0 ltac:(lia)), ?(A1 ltac:(lia)), ?(A2 ltac:(lia)); done.
Qed.

(** Starting the poll at class [p] with nothing waiting above it. *)
Definition serves_from backend n p : Prop := ∀ d f,
  d_pc d = Polling p → (∀ q, rank q < rank p → contents d q = []) →
  length (waiting d) = n → 6 * n + 4 - rank p <= f → drain_serves backend f d.

Lemma drain_serve_first backend n d p r l f :
  serves_from backend n Realtime → d_pc d = Polling p → contents d p = r :: l →
  (∀ q, rank q < rank p → contents d q = []) → length (waiting d) = S n →
  6 * n + 6 <= f → drain_serves backend f d.
Proof.
  intros IH Hp Hc Habove Hlen Hf. destruct f as [|[|f]]; [lia|lia|].
  destruct (drain_hit backend f d p r l Hp Hc) as (d1 & Ed & Hp1 & Ht1 & Ha1 & Hc1).
  pose proof (waiting_first d d1 p r l Hc Habove Hc1) as Hw.
  rewrite Hw in Hlen. simpl in Hlen. unfold drain_serves. rewrite Ed.
  destruct (IH d1 (if tok_cancelled (d_tokens d) (rq_cancel r) then S f else f))
    as (? & ? & ->); [done|intros q Hq; simpl in Hq; lia|lia|
                      simpl; destruct (tok_cancelled _ _); lia|].
  split_and!; try done. by rewrite Ha1, Ht1, Hw, <- app_assoc.
Qed.

Lemma drain_serves_miss backend f d p :
  d_pc d = Polling p → contents d p = [] →
  drain_serves backend f
    (set_pc d (match below p with Some p' => Polling p' | None => Parked end)) →
  drain_serves backend (S f) d.
Proof. intros Hpc Hc. unfold drain_serves. by rewrite (drain_miss _ _ _ _ Hpc Hc). Qed.

Lemma drain_serves_idle backend f d :
  d_pc d = Parked → waiting d = [] → drain_serves backend f d.
Proof.
  intros Hpc Hw. unfold drain_serves.
  destruct f; simpl; rewrite ?Hpc, ?Hw, ?app_nil_r; done.
Qed.

Lemma serves_from_next backend n p :
  serves_from backend n Realtime →
  (∀ p', below p = Some p' → serves_from backend (S n) p') → serves_from backend (S n) p.
Proof.
  intros IH Hnext d f Hpc Habove Hlen Hf.
  destruct (contents d p) as [|r l] eqn:E.
  - destruct f as [|f]; [destruct p; simpl in *; lia|].
    eapply drain_serves_miss; [done..|].
    destruct (below p) as [p'|] eqn:Eb.
    + apply (Hnext p' eq_refl); try done.
      * intros q Hq. destruct (below_rank _ _ _ Eb Hq) as [->|?]; [done|by apply Habove].
      * destruct p, p'; simpl in *; simplify_eq; lia.
    + exfalso. assert (∀ q, contents d q = []) as H0.
      { intros q. destruct (below_None p q Eb) as [->|?]; [done|by apply Habove]. }
      unfold waiting in Hlen. by rewrite !H0 in Hlen.
  - eapply drain_serve_first; try done. destruct p; simpl in *; lia.
Qed.

Lemma drain_all backend n : serves_from backend n Realtime.
Proof.
  induction n as [|n IH].
  - intros d f Hpc _ Hn Hf. apply nil_length_inv in Hn. pose proof Hn as Hw. unfold waiting in Hn.
    apply app_nil in Hn as [H1 [H2 [H3 H4]%app_nil]%app_nil]. simpl in Hf.
    do 4 (destruct f as [|f]; [lia|]; eapply drain_serves_miss; [done..|]; simpl).
    by apply drain_serves_idle.
  - do 4 (apply serves_from_next; [done|intros ? [= <-]]).
Qed.

End invariant.

(** ** The cross-class hard escape *)

Section hard_escape.

(** What the watchdog reads on one tick of [hard_escape_loop]: whether it is
    the last holder of the inflight slot, the slot, the clock, and which of
    the three higher queues are empty. *)
Record Observation : Type := mkObs {
  ob_orphan : bool;
  ob_inflight : option InflightInfo;
  ob_now : Instant;
  ob_realtime_empty : bool;
  ob_interactive_empty : bool;
  ob_background_empty : bool;
}.

(** [preempt]: a strictly higher class is waiting. *)
Definition preempt (o : Observation) (class : Priority) : bool :=
  match class with
  | Realtime => false
  | Interactive => negb (ob_realtime_empty o)
  | Background => negb (ob_realtime_empty o) || negb (ob_interactive_empty o)
  | Batch => negb (ob_realtime_empty o) || negb (ob_interactive_empty o)
             || negb (ob_background_empty o)
  end.

(** One turn of the loop: return, continue, or cancel an inflight request. *)
Inductive Tick : Type :=
| TickExit
| TickContinue
| TickCancel (info : InflightInfo).

Definition escape_tick (last_cancelled : option N) (o : Observation) : Tick :=
  if ob_orphan o then TickExit else
  match ob_inflight o with
  | None => TickContinue
  | Some info =>
      if bool_decide (Some (if_request_id info) = last_cancelled) then TickContinue
      else if (saturating_since (ob_now o) (if_started_at info) <? HARD_ESCAPE_THRESHOLD)%Z
      then TickContinue
      else if preempt o (if_class info) then TickCancel info else TickContinue
  end.

(** [hard_escape_loop] over the observations of its successive ticks: the
    [aiplane.cancel] calls it makes, in order. *)
Fixpoint hard_escape_loop (last_cancelled : option N) (obs : list Observation)
    : list InflightInfo :=
  match obs with
  | [] => []
  | o :: obs' =>
      match escape_tick last_cancelled o with
      | TickExit => []
      | TickContinue => hard_escape_loop last_cancelled obs'
      | TickCancel info => info :: hard_escape_loop (Some (if_request_id info)) obs'
      end
  end.

(** The ids seen in the slot, in order. *)
Definition seen_ids (obs : list Observation) : list N :=
  omap (fun o => if_request_id <$> ob_inflight o) obs.

(** No id comes back once another has been seen: what a dispatcher that runs
    each request once shows its watchdog. *)
Inductive contiguous : list N → Prop :=
| contiguous_nil : contiguous []
| contiguous_same x l : contiguous (x :: l) → contiguous (x :: x :: l)
| contiguous_new x l : x ∉ l → contiguous l → contiguous (x :: l).

(** Whether class [q] has a request waiting, in the watchdog's view. *)
Definition waiting_class (o : Observation) (q : Priority) : bool :=
  match q with
  | Realtime => negb (ob_realtime_empty o)
  | Interactive => negb (ob_interactive_empty o)
  | Background => negb (ob_background_empty o)
  | Batch => false
  end.

Lemma preempt_iff o class :
  preempt o class = true ↔ ∃ q, rank q < rank class ∧ waiting_class o q = true.
Proof.
  split.
  - destruct class; simpl; intros H; rewrite ?orb_true_iff in H; try done.
    + exists Realtime. simpl. auto with lia.
    + destruct H; [exists Realtime | exists Interactive]; simpl; auto with lia.
    + destruct H as [[]|]; [exists Realtime | exists Interactive | exists Background];
        simpl; auto with lia.
  - intros (q & Hq & Hw). destruct class, q; simpl in *; try lia; try done;
      rewrite Hw, ?orb_true_r; done.
Qed.

Lemma contiguous_tail x l : contiguous (x :: l) → contiguous l.
Proof. by inversion_clear 1. Qed.

Lemma contiguous_other x y l : contiguous (x :: y :: l) → x ≠ y → x ∉ y :: l.
Proof. inversion_clear 1; done. Qed.

Lemma escape_ids last obs i :
  i ∈ if_request_id <$> hard_escape_loop last obs → i ∈ seen_ids obs.
Proof.
  revert last. induction obs as [|o obs IH]; intros last; simpl; [done|].
  unfold seen_ids. unfold escape_tick. simpl.
  destruct (ob_orphan o); [set_solver|].
  destruct (ob_inflight o) as [info|]; simpl; [|apply IH].
  assert (∀ l', i ∈ if_request_id <$> hard_escape_loop l' obs → i ∈ seen_ids obs) as IH'
    by (intros; eauto).
  repeat case_match; simplify_eq; unfold seen_ids in *; set_solver.
Qed.

Lemma escape_not_last x obs l :
  contiguous (x :: l) → seen_ids obs = l →
  x ∉ if_request_id <$> hard_escape_loop (Some x) obs.
Proof.
  revert l. induction obs as [|o obs IH]; intros l Hc El; simpl; [set_solver|].
  unfold seen_ids in El. simpl in El. unfold escape_tick.
  destruct (ob_orphan o); [set_solver|].
  destruct (ob_inflight o) as [info|]; simpl in El; [|by eapply IH].
  case_bool_decide as Hx.
  - apply (IH (seen_ids obs)); [|done]. injection Hx as <-. subst l. by eapply contiguous_tail.
  - assert (x ∉ if_request_id info :: seen_ids obs) as Hnot.
    { subst l. apply contiguous_other; [done|]. congruence. }
    apply not_elem_of_cons in Hnot as [? Hnot].
    assert (∀ last, x ∉ if_request_id <$> hard_escape_loop last obs) as Hrest.
    { intros last Hin. by apply escape_ids in Hin. }
    repeat case_match; simplify_eq; csimpl; rewrite ?not_elem_of_cons; auto.
Qed.

End hard_escape.

(** ** Properties *)

Section properties.
Context {C TS T : Type} `{!ChannelOps C (Request T)} `{!ChannelLaws C (Request T)}
  `{!TokenOps TS T}.
Implicit Types (d : Disp C TS T) (r : Request T).

Abbreviation of_class p l := (filter (fun r => rq_class r = p) l).
Abbreviation contents d p := (ch_contents (A := Request T) (sender_for (d_queues d) p)).

(** C1. In every state the threads can reach, no request is lost, duplicated
    or answered twice: what was admitted is exactly what was pulled plus what
    waits; each class is served first-in first-out; every pulled request but
    the one being run has been answered, in the order it was pulled; and no
    one-shot channel is used twice. *)
Theorem dispatch_exactly_once d :
  reachable d →
  h_admitted d ≡ₚ (h_pulled d).*1 ++ waiting d ∧
  (∀ p, of_class p (h_admitted d) = of_class p (h_pulled d).*1 ++ contents d p) ∧
  (∃ settled, h_pulled d = settled ++ running d ∧
              (d_answers d).*1 = rq_respond <$> settled.*1) ∧
  NoDup (d_answers d).*1.
Proof.
  intros I%sched_inv_reachable. split_and!;
    [by apply admitted_conserved | by apply inv_fifo | by apply answers_settled
    | by apply answers_unique].
Qed.

(** C16. Admission on every branch, for queues with the capacities [Scheduler::new]
    gives them: while the dispatcher lives, a request with room goes to the back
    of its own class's queue and no other queue changes; with the class at its
    cap, Realtime and Interactive are refused with [Overloaded] carrying that
    cap and the 200 ms hint, Background and Batch block; with the dispatcher
    gone every class is refused. *)
Theorem admission_spec (qs : Queues C) r :
  (∀ p, ch_capacity (A := Request T) (sender_for qs p) = queue_cap p) →
  let class := rq_class r in
  let queued p := ch_contents (A := Request T) (sender_for qs p) in
  let verdict := sched_admit qs r in
  if ch_rx_alive (A := Request T) (sender_for qs class) then
    if decide (length (queued class) < queue_cap class) then
      ∃ qs', verdict = Accepted qs' ∧
        ∀ p, ch_contents (A := Request T) (sender_for qs' p) = queued p ++ of_class p [r]
    else verdict = match class with
                   | Realtime | Interactive => Refused (Overloaded class (queue_cap class) 200)
                   | Background | Batch => Blocked
                   end
  else verdict = Refused (dispatcher_gone class).
Proof.
  intros Hcap. cbv zeta. unfold sched_admit. pose proof (Hcap (rq_class r)) as Hc.
  pose proof (ch_try_send_spec (sender_for qs (rq_class r)) r) as L.
  destruct (ch_try_send _ r) as [c'| |].
  - destruct L as (-> & Hlt & Ec & _). rewrite decide_True by lia.
    exists (set_queue qs (rq_class r) c').
    split; [by destruct (timeout_action _)|].
    intros p. rewrite sender_set_queue. case_decide as Hp; subst.
    + by rewrite filter_cons_True.
    + by rewrite filter_cons_False, app_nil_r.
  - destruct L as [-> Hfull]. rewrite decide_False by lia.
    by destruct (rq_class r).
  - rewrite L. by destruct (timeout_action _).
Qed.

(** Strict priority within a polling pass: when the drain serves class
    [p], anything waiting in a higher class arrived after the pass began. *)
Theorem poll_no_overtake d p q w :
  reachable d → d_pc d = Polling p → rank q < rank p →
  w ∈ contents d q → w ∈ drop (h_pass d) (h_admitted d).
Proof.
  intros I%sched_inv_reachable Hpc Hq Hw. pose proof (inv_seen d I q) as Hs.
  rewrite Hpc in Hs. destruct (Hs Hq) as [pre Hpre].
  assert (w ∈ of_class q (drop (h_pass d) (h_admitted d))) as Hin by (rewrite Hpre; set_solver).
  by apply list_elem_of_filter in Hin as [_ ?].
Qed.

(** C7. A quiet dispatcher drains: with no caller running, six turns per
    waiting request plus four leave every queue empty and the thread parked,
    and the replies are those of the waiting requests in strict priority
    order, first-in first-out in a class: [Cancelled] where the token has
    tripped, the backend's outcome otherwise. *)
Theorem drain_total backend d fuel :
  d_pc d = Polling Realtime → 6 * length (waiting d) + 4 <= fuel →
  d_pc (drain backend fuel d) = Parked ∧ waiting (drain backend fuel d) = [] ∧
  d_answers (drain backend fuel d) =
    d_answers d ++ map (reply_for backend (d_tokens d)) (waiting d).
Proof.
  intros Hpc Hf. apply (drain_all backend (length (waiting d)) d fuel); try done.
  - intros q Hq. simpl in Hq. lia.
  - simpl. lia.
Qed.

Lemma tokens_monotone d d' t :
  step d d' → tok_cancelled (d_tokens d) t = true → tok_cancelled (d_tokens d') t = true.
Proof.
  destruct 1 as [ | | | | d p | d p d' E | d r t0 out E]; simpl; auto.
  - unfold poll_step. destruct (d_pc d); try done.
    destruct (ch_try_recv _) as [[]|]; [|done]. unfold run_begin. by case_match.
  - unfold select_arm in E. destruct (d_pc d); try done.
    destruct (ch_try_recv _) as [[]|].
    + injection E as <-. unfold run_begin. by case_match.
    + destruct (ch_tx_alive _); [done|]. by injection E as <-.
  - unfold run_finish. by rewrite E.
Qed.

Lemma run_begin_calls d qs r0 r :
  tok_cancelled (d_tokens d) (rq_cancel r) = true →
  r ∈ d_calls (run_begin d qs r0) → r ∈ d_calls d.
Proof.
  intros Ht. unfold run_begin. destruct (tok_cancelled _ (rq_cancel r0)) eqn:E; simpl; [done|].
  rewrite elem_of_app, list_elem_of_singleton. intros [ | ->]; congruence.
Qed.

Lemma step_calls d d' r :
  step d d' → tok_cancelled (d_tokens d) (rq_cancel r) = true →
  r ∈ d_calls d' → r ∈ d_calls d.
Proof.
  destruct 1 as [ | | | | d p | d p d' E | d r0 t0 out E]; simpl; auto; intros Ht.
  - unfold poll_step. destruct (d_pc d); try done.
    destruct (ch_try_recv _) as [[]|]; [|done]. by apply run_begin_calls.
  - unfold select_arm in E. destruct (d_pc d); try done.
    destruct (ch_try_recv _) as [[]|].
    + injection E as <-. by apply run_begin_calls.
    + destruct (ch_tx_alive _); [done|]. by injection E as <-.
  - unfold run_finish. by rewrite E.
Qed.

(** Cancelling before pickup is final: once a request's token has tripped,
    no run of the threads hands that request to the backend. *)
Theorem cancelled_never_called d d' r :
  rtc step d d' → tok_cancelled (d_tokens d) (rq_cancel r) = true →
  r ∈ d_calls d' → r ∈ d_calls d.
Proof.
  induction 1 as [|d1 d2 d3 Hs _ IH]; [done|]. intros Ht Hr.
  eapply step_calls; [done..|]. apply IH; [|done]. by eapply tokens_monotone.
Qed.

End properties.

(** The watchdog cancels exactly what it should on a tick it does not exit
    on: the inflight request, if it is not the one cancelled last, has been
    running for at least 200 ms, and a strictly higher class is waiting. *)
Theorem hard_escape_fires_iff last o info :
  ob_orphan o = false →
  escape_tick last o = TickCancel info ↔
  ob_inflight o = Some info ∧ last ≠ Some (if_request_id info) ∧
  (HARD_ESCAPE_THRESHOLD <= saturating_since (ob_now o) (if_started_at info))%Z ∧
  ∃ q, rank q < rank (if_class info) ∧ waiting_class o q = true.
Proof.
  intros Ho. rewrite <- preempt_iff. unfold escape_tick. rewrite Ho.
  destruct (ob_inflight o) as [i|]; [|by split; [|intros [? _]]].
  case_bool_decide as Hl; [split; [done|]; intros ([= ->] & Hn & _); by destruct Hn|].
  destruct (Z.ltb_spec (saturating_since (ob_now o) (if_started_at i)) HARD_ESCAPE_THRESHOLD).
  - split; [done|]. intros ([= ->] & _ & ? & _). lia.
  - destruct (preempt o (if_class i)) eqn:E; split; try done.
    + intros [= ->]. split_and!; [done|congruence|lia|done].
    + by intros ([= ->] & _).
    + intros ([= ->] & _ & _ & Hp). congruence.
Qed.

(** Each request is cancelled at most once by the watchdog, over any
    number of ticks, when the dispatcher does not run an id again after
    another one. *)
Theorem hard_escape_at_most_once obs :
  contiguous (seen_ids obs) →
  NoDup (if_request_id <$> hard_escape_loop None obs).
Proof.
  intros Hc. generalize (@None N). revert Hc.
  induction obs as [|o obs IH]; intros Hc last; simpl; [constructor|].
  assert (contiguous (seen_ids obs)) as Hc'.
  { unfold seen_ids in *. simpl in Hc. destruct (ob_inflight o); simpl in Hc; [by eapply contiguous_tail|done]. }
  destruct (escape_tick last o) as [| |info] eqn:E; [constructor|by apply IH|].
  csimpl. constructor; [|by apply IH].
  assert (ob_inflight o = Some info) as Ei.
  { unfold escape_tick in E. repeat case_match; simplify_eq. done. }
  unfold seen_ids in Hc. simpl in Hc. rewrite Ei in Hc.
  exact (escape_not_last _ obs _ Hc eq_refl).
Qed.

(** ** Concrete runs *)

Section runs.

Abbreviation LDisp := (Disp (ListChan (Request nat)) NatTokens nat).

(** Two live tokens; token 1 has tripped. *)
Definition run_tokens : NatTokens := mkNatTokens 2 {[ 1 ]}.
Definition run_start : LDisp := init run_tokens 0%Z.

Definition run_request (chan : N) (class : Priority) (cancel : nat) : Request nat :=
  Request_new 0%Z chan chan Embed [InText "hello"] class None cancel.

(** The queues after a successful admission. *)
Definition admitted_queues (d : LDisp) (r : Request nat) : Queues (ListChan (Request nat)) :=
  match sched_admit (d_queues d) r with Accepted qs => qs | _ => d_queues d end.
Definition admit_event (r : Request nat) (d : LDisp) : LDisp :=
  client_admit d (admitted_queues d r) r.
Definition select_event (p : Priority) (d : LDisp) : LDisp :=
  default d (select_arm d p).

Lemma run_rtc_snoc (d d' d'' : LDisp) : rtc step d d' → step d' d'' → rtc step d d''.
Proof. intros. by eapply rtc_r. Qed.

Lemma select_event_step p (d : LDisp) : is_Some (select_arm d p) → step d (select_event p d).
Proof. intros [d' E]. apply (step_select _ p). unfold select_event. by rewrite E. Qed.

(** Park first, then two arrivals: both are there when the thread wakes. *)
Definition run_parked : LDisp :=
  poll_step (poll_step (poll_step (poll_step run_start))).
Definition run_two_waiting : LDisp :=
  admit_event (run_request 2%N Realtime 0) (admit_event (run_request 1%N Batch 0) run_parked).

Ltac run_poll := eapply run_rtc_snoc; [|eapply step_poll; reflexivity].
Ltac run_admit :=
  eapply run_rtc_snoc;
  [|apply step_admit; [intros []; reflexivity | reflexivity
    | apply (bool_decide_unpack _); vm_compute; exact I]].

Lemma run_parked_reachable : rtc step run_start run_parked.
Proof. unfold run_parked. do 4 run_poll. constructor. Qed.

Lemma run_two_waiting_reachable : rtc step run_start run_two_waiting.
Proof.
  unfold run_two_waiting, admit_event. do 2 run_admit. apply run_parked_reachable.
Qed.

(** The pass has moved past Realtime when a Realtime request arrives. *)
Definition run_late_arrival : LDisp :=
  admit_event (run_request 2%N Realtime 0)
    (admit_event (run_request 1%N Interactive 0) (poll_step run_start)).

Lemma run_late_arrival_reachable : rtc step run_start run_late_arrival.
Proof.
  unfold run_late_arrival, admit_event. do 2 run_admit. run_poll. constructor.
Qed.

(** A request whose token has tripped, admitted, polled and answered. *)
Definition run_cancelled : LDisp :=
  poll_step (admit_event (run_request 1%N Realtime 1) run_start).

Lemma run_cancelled_reachable : rtc step run_start run_cancelled.
Proof. unfold run_cancelled, admit_event. run_poll. run_admit. constructor. Qed.

(** The scheduler's senders going away one after the other, with a Batch
    request still queued. *)
Definition run_stranded : LDisp :=
  select_event Realtime (client_drop (admit_event (run_request 1%N Batch 0) run_parked) Realtime).

Lemma run_stranded_reachable : rtc step run_start run_stranded.
Proof.
  unfold run_stranded, admit_event.
  eapply run_rtc_snoc; [|apply select_event_step; by eexists].
  eapply run_rtc_snoc; [|apply step_drop; simpl; intros; lia].
  run_admit. apply run_parked_reachable.
Qed.

Lemma run_reachable (d : LDisp) : rtc step run_start d → reachable d.
Proof. by exists run_tokens, 0%Z. Qed.

Definition run_obs (now : Instant) (rt_empty : bool) : Observation :=
  mkObs false (Some (mkInflight 7%N Embed Batch 0%Z)) now rt_empty true true.

End runs.

Lemma dispatch_exactly_once_witness :
  reachable run_cancelled ∧ (d_answers run_cancelled).*1 = [1%N] ∧
  NoDup (d_answers run_cancelled).*1.
Proof.
  split; [apply run_reachable, run_cancelled_reachable|]. split; [reflexivity|].
  destruct (dispatch_exactly_once run_cancelled) as (_ & _ & _ & Hd);
    [apply run_reachable, run_cancelled_reachable|exact Hd].
Defined.

Lemma admission_spec_witness :
  (∀ p, ch_capacity (A := Request nat) (sender_for (d_queues run_start) p) = queue_cap p) ∧
  ∃ qs', sched_admit (d_queues run_start) (run_request 1%N Realtime 0) = Accepted qs'.
Proof.
  assert (H : ∀ p, ch_capacity (A := Request nat) (sender_for (d_queues run_start) p) = queue_cap p)
    by (intros []; reflexivity).
  split; [exact H|].
  destruct (admission_spec (d_queues run_start) (run_request 1%N Realtime 0) H) as (qs' & Hq & _).
  by exists qs'.
Defined.

Lemma poll_no_overtake_witness :
  reachable run_late_arrival ∧ d_pc run_late_arrival = Polling Interactive ∧
  run_request 2%N Realtime 0 ∈ drop (h_pass run_late_arrival) (h_admitted run_late_arrival).
Proof.
  split; [apply run_reachable, run_late_arrival_reachable|]. split; [reflexivity|].
  apply (poll_no_overtake run_late_arrival Interactive Realtime).
  - apply run_reachable, run_late_arrival_reachable.
  - reflexivity.
  - simpl. lia.
  - apply list_elem_of_singleton. reflexivity.
Defined.

Lemma drain_total_witness :
  d_pc run_cancelled = Polling Realtime ∧
  d_pc (drain (λ _, Ok []) 4 run_cancelled) = Parked.
Proof.
  split; [reflexivity|].
  destruct (drain_total (λ _, Ok []) run_cancelled 4) as [H _];
    [reflexivity | apply Nat.leb_le; reflexivity | exact H].
Defined.

Lemma cancelled_never_called_witness :
  tok_cancelled (d_tokens run_start) (rq_cancel (run_request 1%N Realtime 1)) = true ∧
  run_request 1%N Realtime 1 ∉ d_calls run_cancelled.
Proof.
  split; [reflexivity|]. intros H.
  apply (cancelled_never_called run_start run_cancelled) in H;
    [by apply not_elem_of_nil in H | apply run_cancelled_reachable | reflexivity].
Defined.

Lemma hard_escape_fires_iff_witness :
  ob_orphan (run_obs (from_millis 200) false) = false ∧
  escape_tick None (run_obs (from_millis 200) false) = TickCancel (mkInflight 7%N Embed Batch 0%Z).
Proof.
  split; [reflexivity|]. apply hard_escape_fires_iff; [reflexivity|].
  split_and!; [reflexivity | done | vm_compute; done |].
  exists Realtime. split; [simpl; lia | reflexivity].
Defined.

Lemma hard_escape_at_most_once_witness :
  let obs := [run_obs (from_millis 200) false; run_obs (from_millis 250) false] in
  contiguous (seen_ids obs) ∧ NoDup (if_request_id <$> hard_escape_loop None obs).
Proof.
  cbv zeta. assert (H : contiguous (seen_ids
    [run_obs (from_millis 200) false; run_obs (from_millis 250) false])).
  { apply contiguous_same, contiguous_new; [apply not_elem_of_nil | constructor]. }
  split; [exact H | by apply hard_escape_at_most_once].
Defined.

(** The [select!] of a parked dispatcher is not priority ordered: with a
    Batch and a Realtime request both waiting, the Batch arm may be the one
    taken, and the Batch request is then handed to the backend first. *)
Theorem select_can_invert_priority :
  reachable run_two_waiting ∧ d_pc run_two_waiting = Parked ∧
  rq_class <$> waiting run_two_waiting = [Realtime; Batch] ∧
  step run_two_waiting (select_event Batch run_two_waiting) ∧
  rq_class <$> d_calls (select_event Batch run_two_waiting) = [Batch].
Proof.
  split; [apply run_reachable, run_two_waiting_reachable|].
  do 2 (split; [reflexivity|]). split; [|reflexivity].
  apply select_event_step. by eexists.
Qed.

(** One closed channel is enough for the dispatcher to return: while the
    scheduler's senders are dropped in turn, the thread can stop with a
    request still queued and that request's sender still alive. *)
Theorem select_can_strand_request :
  reachable run_stranded ∧ d_pc run_stranded = Stopped ∧
  rq_class <$> waiting run_stranded = [Batch] ∧
  ch_tx_alive (A := Request nat) (sender_for (d_queues run_stranded) Batch) = true ∧
  ∀ d, step run_stranded d → d_pc d = Stopped.
Proof.
  split; [apply run_reachable, run_stranded_reachable|].
  do 3 (split; [reflexivity|]).
  intros d Hs. remember run_stranded as d0 eqn:E0.
  assert (d_pc d0 = Stopped) as Hpc by (subst; reflexivity). clear E0.
  destruct Hs as [ | | | | d p E | d p d' E | d r t out E]; try done; try congruence.
  unfold select_arm in E. by rewrite Hpc in E.
Qed.

End Scheduler.
