(* ===== verification/WarmPool.v ===== *)
(** * The warm pool

    [crates/sy-aiplane/src/aiplane/warm_pool.rs]: which workloads count as warm.
    The pool is a function of the touches it has seen; the reference at the end
    reads the answer off the touch history directly. *)

From S2P Require Import Prelude Vocab.
Import Workload.
Local Open Scope list_scope.

Module WarmPool.

Definition LRU_MAX : nat := 3.
Definition TTL_WARM_DURATION : Duration := from_secs (15 * 60).

Inductive Tier : Type := AlwaysWarm | Ttl | Lru.

#[export] Instance Tier_eq_dec : EqDecision Tier.
Proof. solve_decision. Defined.

Definition tier_for (kind : WorkloadKind) : Tier :=
  match kind with
  | Vad | EyeTrack => AlwaysWarm
  | Stt | Embed => Ttl
  | Rerank | Ocr | Clip | Tts | Denoise => Lru
  end.

(** [WarmPool]; the clock is an argument of the operations that read it. [lru]
    is the ring buffer, most recently touched first. *)
Record Pool : Type := mkPool {
  ttl_last_touched : gmap WorkloadKind Instant;
  lru : list WorkloadKind;
  ttl_duration : Duration;
  max_lru : nat;
}.

(** [WarmPool::with_clock]. *)
Definition with_clock : Pool := mkPool ∅ [] TTL_WARM_DURATION LRU_MAX.

(** [VecDeque::pop_back]. *)
Definition pop_back {A} (l : list A) : option A * list A := (last l, removelast l).

(** [WarmPool::touch], with the clock reading [now]: the kind that fell out of
    the LRU window, and the pool after. *)
Definition touch (now : Instant) (p : Pool) (kind : WorkloadKind) : option WorkloadKind * Pool :=
  match tier_for kind with
  | AlwaysWarm => (None, p)
  | Ttl => (None, mkPool (<[kind := now]> (ttl_last_touched p)) (lru p) (ttl_duration p) (max_lru p))
  | Lru =>
      let q := kind :: filter (fun k => k ≠ kind) (lru p) in
      if max_lru p <? length q then
        let (out, q') := pop_back q in
        (out, mkPool (ttl_last_touched p) q' (ttl_duration p) (max_lru p))
      else (None, mkPool (ttl_last_touched p) q (ttl_duration p) (max_lru p))
  end.

(** [Vec::dedup]: drops an element equal to the one kept before it. *)
Fixpoint dedup (l : list WorkloadKind) : list WorkloadKind :=
  match l with
  | x :: (y :: _) as l' => if decide (x = y) then dedup l' else x :: dedup l'
  | _ => l
  end.

Definition name_le (a b : WorkloadKind) : Prop := String.le (kind_str a) (kind_str b).

(** [WarmPool::warm_kinds]. *)
Definition warm_kinds (now : Instant) (p : Pool) : list WorkloadKind :=
  let fresh := filter (fun kt => saturating_since now kt.2 < ttl_duration p)%Z
                 (map_to_list (ttl_last_touched p)) in
  let out := [Vad; EyeTrack] ++ fresh.*1 ++ lru p in
  dedup (merge_sort name_le out).

(** [WarmPool::warm_model_names]. *)
Definition warm_model_names (now : Instant) (p : Pool) : list string :=
  kind_str <$> warm_kinds now p.

(** ** The history reference *)

(** The pool after a history of touches, latest first. *)
Fixpoint pool_after (hist : list (Instant * WorkloadKind)) : Pool :=
  match hist with
  | [] => with_clock
  | (t, k) :: hist' => (touch t (pool_after hist') k).2
  end.

(** The last time [k] was touched. *)
Fixpoint last_touch (k : WorkloadKind) (hist : list (Instant * WorkloadKind)) : option Instant :=
  match hist with
  | [] => None
  | (t, k') :: hist' => if decide (k' = k) then Some t else last_touch k hist'
  end.

(** The elements of [l] before the first [k]. *)
Fixpoint before (k : WorkloadKind) (l : list WorkloadKind) : list WorkloadKind :=
  match l with
  | [] => []
  | x :: l' => if decide (x = k) then [] else x :: before k l'
  end.

(** The LRU-tier touches of a history, latest first. *)
Definition lru_touches (hist : list (Instant * WorkloadKind)) : list WorkloadKind :=
  filter (fun k => tier_for k = Lru) hist.*2.

(** What warm means: always-warm kinds are; a TTL kind is for 15 minutes after
    its last touch; an LRU kind is while fewer than three other LRU kinds have
    been touched since. *)
Definition warm_spec (now : Instant) (hist : list (Instant * WorkloadKind)) (k : WorkloadKind) : Prop :=
  match tier_for k with
  | AlwaysWarm => True
  | Ttl => ∃ t, last_touch k hist = Some t ∧ (saturating_since now t < from_secs 900)%Z
  | Lru => k ∈ lru_touches hist ∧
           size (list_to_set (before k (lru_touches hist)) : gset WorkloadKind) < 3
  end.

(** Distinct LRU kinds by recency, unbounded. *)
Fixpoint recency (l : list WorkloadKind) : list WorkloadKind :=
  match l with
  | [] => []
  | x :: l' => x :: filter (fun k => k ≠ x) (recency l')
  end.

(** ** Recency *)
Lemma elem_of_recency k l : k ∈ recency l ↔ k ∈ l.
Proof.
  induction l as [|x l IH]; [done|]. simpl.
  rewrite !elem_of_cons, list_elem_of_filter, IH. destruct (decide (k = x)); naive_solver.
Qed.

Lemma recency_NoDup l : NoDup (recency l).
Proof.
  induction l as [|x l IH]; simpl; constructor; [|by apply NoDup_filter].
  rewrite list_elem_of_filter. naive_solver.
Qed.

Lemma before_filter k x l :
  x ≠ k → before k (filter (fun y => y ≠ x) l) = filter (fun y => y ≠ x) (before k l).
Proof.
  intros Hx. induction l as [|y l IH]; [done|].
  destruct (decide (y = x)) as [->|Hy].
  - rewrite filter_cons_False by auto. simpl. rewrite decide_False, filter_cons_False by auto. done.
  - rewrite filter_cons_True by done. simpl. case_decide; [done|].
    by rewrite filter_cons_True, IH.
Qed.

Lemma before_recency k l :
  (list_to_set (before k (recency l)) : gset WorkloadKind) = list_to_set (before k l).
Proof.
  apply set_eq. intros y. rewrite !elem_of_list_to_set.
  induction l as [|x l IH]; [done|]. simpl. case_decide as Hx; [done|].
  rewrite before_filter by done. rewrite !elem_of_cons, list_elem_of_filter, <- IH.
  destruct (decide (y = x)); naive_solver.
Qed.

Lemma before_incl k l y : y ∈ before k l → y ∈ l.
Proof.
  induction l as [|x l IH]; simpl; [done|]. case_decide; [by intros ?%not_elem_of_nil|].
  rewrite !elem_of_cons. naive_solver.
Qed.

Lemma before_NoDup k l : NoDup l → NoDup (before k l).
Proof.
  induction 1 as [|x l Hx _ IH]; simpl; [constructor|]. case_decide; constructor; [|done].
  intros Hin. by apply before_incl in Hin.
Qed.

Lemma elem_of_take_before k n l : k ∈ take n l ↔ k ∈ l ∧ length (before k l) < n.
Proof.
  revert n. induction l as [|x l IH]; intros n.
  - rewrite take_nil. set_solver.
  - destruct n as [|n]; simpl; [rewrite elem_of_nil; naive_solver lia|].
    case_decide; subst; simpl; rewrite !elem_of_cons, ?IH; [naive_solver lia|].
    split; [intros [?|[??]]; [congruence|]; split; [by right|lia]|].
    intros [[?|?] ?]; [congruence|]. right. split; [done|lia].
Qed.

Lemma filter_ne_id (x : WorkloadKind) (l : list WorkloadKind) : x ∉ l → filter (fun y => y ≠ x) l = l.
Proof.
  induction l as [|y l IH]; [done|]. rewrite not_elem_of_cons. intros [? ?].
  by rewrite filter_cons_True, IH by congruence.
Qed.

Lemma take_filter_take (x : WorkloadKind) n (l : list WorkloadKind) :
  NoDup l →
  take n (filter (fun y => y ≠ x) (take (S n) l)) = take n (filter (fun y => y ≠ x) l).
Proof.
  intros Hl. revert n. induction Hl as [|y l Hy Hl IH]; intros n; [done|].
  cbn [take]. rewrite !filter_cons. case_decide as Hxy.
  - destruct n as [|n]; [done|]. simpl. by rewrite IH.
  - assert (y = x) as -> by (by destruct (decide (y = x))).
    rewrite !filter_ne_id; [by rewrite take_take, Nat.min_id|done|].
    intros Hin. by apply elem_of_take_before in Hin as [? _].
Qed.

(** ** The pool against its history *)

(** One LRU touch: the window after it and the kind that left it. *)
Lemma touch_lru now p kind :
  tier_for kind = Lru → length (lru p) <= max_lru p → NoDup (lru p) →
  let q := kind :: filter (fun k => k ≠ kind) (lru p) in
  lru (touch now p kind).2 = take (max_lru p) q ∧
  (touch now p kind).1 = q !! max_lru p.
Proof.
  intros Hk Hlen Hnd. cbv zeta. unfold touch. rewrite Hk.
  set (q := kind :: filter (fun k => k ≠ kind) (lru p)).
  assert (length q <= S (max_lru p)) as Hq.
  { unfold q. simpl. pose proof (length_filter (fun k => k ≠ kind) (lru p)). lia. }
  clearbody q. destruct (Nat.ltb_spec (max_lru p) (length q)) as [Hlt|Hge]; simpl.
  - destruct (exists_last (l := q)) as (q' & e & ->); [by intros ->; simpl in Hlt; lia|].
    rewrite length_app in Hlt, Hq. simpl in Hlt, Hq. assert (length q' = max_lru p) as Hq' by lia.
    rewrite List.removelast_last, last_snoc, take_app_le, take_ge by lia. split; [done|].
    by rewrite lookup_app_r, Hq', Nat.sub_diag by lia.
  - rewrite take_ge by lia. split; [done|]. symmetry. by apply lookup_ge_None.
Qed.

Lemma touch_params now p kind :
  max_lru (touch now p kind).2 = max_lru p ∧ ttl_duration (touch now p kind).2 = ttl_duration p.
Proof. unfold touch. destruct (tier_for kind); try case_match; done. Qed.

Lemma pool_after_params hist :
  max_lru (pool_after hist) = LRU_MAX ∧ ttl_duration (pool_after hist) = TTL_WARM_DURATION.
Proof.
  induction hist as [|[t k] hist [IH1 IH2]]; [done|]. simpl.
  by destruct (touch_params t (pool_after hist) k) as [-> ->].
Qed.

Lemma pool_after_lru hist :
  lru (pool_after hist) = take LRU_MAX (recency (lru_touches hist)).
Proof.
  induction hist as [|[t k] hist IH]; [done|]. unfold lru_touches in *. csimpl.
  destruct (decide (tier_for k = Lru)) as [Hk|Hk].
  - rewrite filter_cons_True by done. simpl.
    destruct (pool_after_params hist) as [Hm _].
    destruct (touch_lru t (pool_after hist) k) as [-> _]; [done| | |].
    + rewrite IH, Hm, length_take. lia.
    + rewrite IH. apply NoDup_take, recency_NoDup.
    + rewrite Hm, IH. unfold LRU_MAX. simpl. f_equal. rewrite take_filter_take by apply recency_NoDup. done.
  - rewrite filter_cons_False by done. rewrite <- IH. unfold touch.
    by destruct (tier_for k).
Qed.

Lemma touch_ttl now p kind :
  ttl_last_touched (touch now p kind).2 =
  if decide (tier_for kind = Ttl) then <[kind := now]> (ttl_last_touched p)
  else ttl_last_touched p.
Proof. unfold touch. destruct (tier_for kind); try case_match; done. Qed.

Lemma pool_after_ttl hist k :
  ttl_last_touched (pool_after hist) !! k =
  if decide (tier_for k = Ttl) then last_touch k hist else None.
Proof.
  induction hist as [|[t k'] hist IH]; simpl; [by case_decide|]. rewrite touch_ttl.
  destruct (decide (k' = k)) as [->|Hne].
  - case_decide; [by rewrite lookup_insert_eq|done].
  - destruct (decide (tier_for k' = Ttl)); [by rewrite lookup_insert_ne|done].
Qed.

(** ** Sorting and deduplication *)

#[export] Instance name_le_trans : Transitive name_le.
Proof. intros a b c. unfold name_le. apply (transitivity (R := String.le)). Qed.
#[export] Instance name_le_total : Total name_le.
Proof. intros a b. unfold name_le. apply (total String.le). Qed.

Definition name_lt (a b : WorkloadKind) : Prop := name_le a b ∧ a ≠ b.

Lemma dedup_cons2 a b l :
  dedup (a :: b :: l) = if decide (a = b) then dedup (b :: l) else a :: dedup (b :: l).
Proof. done. Qed.

Lemma elem_of_dedup x l : x ∈ dedup l ↔ x ∈ l.
Proof.
  induction l as [|a [|b l] IH]; [done..|]. rewrite dedup_cons2.
  case_decide; subst; rewrite ?(elem_of_cons _ _ a), ?IH; [|done].
  rewrite !elem_of_cons. naive_solver.
Qed.

Lemma dedup_sorted l : StronglySorted name_le l → StronglySorted name_lt (dedup l).
Proof.
  induction 1 as [|a l Hl IH Ha]; [constructor|].
  destruct l as [|b l]; [repeat constructor|]. rewrite dedup_cons2. case_decide as Hab; [done|].
  constructor; [done|]. apply Forall_forall. intros x Hx. rewrite elem_of_dedup in Hx.
  rewrite Forall_forall in Ha. split; [by apply Ha|]. intros <-.
  apply StronglySorted_inv in Hl as [_ Hb]. rewrite Forall_forall in Hb.
  apply elem_of_cons in Hx as [?|Hx]; [done|]. specialize (Hb a Hx).
  specialize (Ha b (list_elem_of_here b l)).
  apply Hab, kind_str_inj. by apply (anti_symm String.le).
Qed.

(** The warm set, for every history of touches: [warm_kinds] lists, without
    repetition and in strict order of name, exactly the always-warm kinds, the
    TTL kinds touched less than 15 minutes ago, and the LRU kinds since whose
    last touch fewer than three distinct LRU kinds were touched. *)
Theorem warm_kinds_spec now hist :
  StronglySorted name_lt (warm_kinds now (pool_after hist)) ∧
  ∀ k, k ∈ warm_kinds now (pool_after hist) ↔ warm_spec now hist k.
Proof.
  unfold warm_kinds. split; [apply dedup_sorted, StronglySorted_merge_sort; apply _|].
  intros k. rewrite elem_of_dedup, merge_sort_Permutation, !elem_of_app.
  rewrite list_elem_of_fmap, pool_after_lru, elem_of_take_before, elem_of_recency.
  destruct (pool_after_params hist) as [_ ->].
  rewrite <- (size_list_to_set (C := gset WorkloadKind) (before k (recency _)))
    by apply before_NoDup, recency_NoDup.
  rewrite before_recency.
  assert (Hlru : k ∈ lru_touches hist → tier_for k = Lru) by (by intros [??]%list_elem_of_filter).
  assert (Httl : (∃ y : WorkloadKind * Instant, k = y.1 ∧ y ∈ filter
      (fun kt => (saturating_since now kt.2 < TTL_WARM_DURATION)%Z)
      (map_to_list (ttl_last_touched (pool_after hist)))) ↔
      tier_for k = Ttl ∧ ∃ t, last_touch k hist = Some t ∧
        (saturating_since now t < from_secs 900)%Z).
  { split.
    - intros ([k' t] & -> & [Ht E%elem_of_map_to_list]%list_elem_of_filter).
      simpl in *. rewrite pool_after_ttl in E. case_decide; [|done]. eauto.
    - intros (Hk & t & Et & Ht). exists (k, t). split; [done|].
      apply list_elem_of_filter. split; [done|]. apply elem_of_map_to_list.
      by rewrite pool_after_ttl, decide_True. }
  rewrite Httl. unfold warm_spec.
  assert (k ∈ [Vad; EyeTrack] ↔ tier_for k = AlwaysWarm) as -> by (destruct k; set_solver).
  destruct (tier_for k) eqn:Ek; naive_solver.
Qed.

(** [touch] reports the eviction: the kind it returns is exactly the one
    whose last place in the warm window the touch took. *)
Theorem touch_reports_eviction now hist kind e :
  (touch now (pool_after hist) kind).1 = Some e ↔
  e ∈ lru (pool_after hist) ∧ e ∉ lru (touch now (pool_after hist) kind).2.
Proof.
  destruct (decide (tier_for kind = Lru)) as [Hk|Hk]; cycle 1.
  { unfold touch. destruct (tier_for kind); naive_solver. }
  destruct (pool_after_params hist) as [Hm _].
  assert (NoDup (lru (pool_after hist))) as Hnd.
  { rewrite pool_after_lru. apply NoDup_take, recency_NoDup. }
  assert (length (lru (pool_after hist)) <= LRU_MAX) as Hlen.
  { rewrite pool_after_lru, length_take. lia. }
  destruct (touch_lru now (pool_after hist) kind) as [-> ->]; [done|by rewrite Hm|done|].
  rewrite Hm in *. unfold LRU_MAX in *. set (l := lru (pool_after hist)) in *. simpl.
  set (f := filter (fun k => k ≠ kind) l) in *.
  assert (NoDup f) as Hnf by (by apply NoDup_filter).
  assert (∀ x, x ∈ f ↔ x ≠ kind ∧ x ∈ l) as Hf by (intros x; unfold f; by rewrite list_elem_of_filter).
  assert (length f <= 3) as Hlf by (pose proof (length_filter (fun k => k ≠ kind) l); unfold f; lia).
  rewrite elem_of_cons. split.
  - intros He. assert (e ∈ f) as Hef by (by eapply list_elem_of_lookup_2).
    apply Hf in Hef as [? ?]. split; [done|]. intros [?|Hin]; [done|].
    apply list_elem_of_lookup in Hin as [i Hi]. apply lookup_take_Some in Hi as [Hi ?].
    pose proof (NoDup_lookup f i 2 e Hnf Hi He). lia.
  - intros [He Hnot]. assert (e ∈ f) as Hef by (apply Hf; naive_solver).
    apply list_elem_of_lookup in Hef as [i Hi].
    destruct (decide (i < 2)).
    + exfalso. apply Hnot. right. apply list_elem_of_lookup. exists i.
      by rewrite lookup_take_lt.
    + pose proof (lookup_lt_Some _ _ _ Hi). by assert (i = 2) as -> by lia.
Qed.

End WarmPool.
