(* ===== verification/Worker.v ===== *)
(** * The worker process

    [crates/sy-aiplane/src/aiplane/worker_ipc.rs] (the wire types and the
    connection handler) and [aiplane/worker/runner.rs] (the serve loop, the
    loader thread and the one-shot inference threads). The threads of one
    worker share its state, its inflight slot and its shutdown flag; they
    interleave as the steps of [Worker.step]. *)

From S2P Require Import Prelude Vocab.
From Stdlib Require Import SpecFloat.
Import Workload.
Local Open Scope string_scope.
Local Open Scope list_scope.

(** ** The wire *)

Module WorkerIpc.

(** A [Ulid]; the zero ULID is the untracked sentinel. *)
Abbreviation Ulid := N.
Definition Ulid_nil : Ulid := 0%N.

Inductive WorkerReq : Type :=
| Health
| RunBatch (request_id : Ulid) (inputs : list WorkloadInput)
| Cancel (request_id : Ulid)
| Shutdown.

(** [WorkerHealth]; [ema_ms] is an [f64]. *)
Record WorkerHealth : Type := mkHealth {
  wh_kind : option WorkloadKind;
  wh_state : WorkloadState;
  wh_model_stem : string;
  wh_pid : Z;
  wh_ready_at_unix : Z;
  wh_ema_ms : spec_float;
  wh_calls : Z;
  wh_errors : Z;
  wh_inflight_request_id : option Ulid;
}.

Inductive WorkerResp : Type :=
| RHealth (h : WorkerHealth)
| RRunBatch (outputs : list WorkloadOutput)
| RError (msg : string)
| RCancelAck
| RShutdownAck.

Inductive WorkerIpcError : Type :=
| WorkerDown
| Wire (msg : string).

(** [Display] of [WorkerIpcError]. *)
Definition ipc_error_str (e : WorkerIpcError) : string :=
  match e with
  | WorkerDown => "sy-aiplane worker not reachable"
  | Wire e => "worker ipc: " ++ e
  end%string.

Section codec.
(** [serde_json] on the two message types, and [str::trim]. *)
Context (req_from_json : string → option WorkerReq) (trim : string → string).
Context (resp_from_json : string → result WorkerResp string).

(** What the server side does with one connection. *)
Inductive ConnAction : Type :=
| ConnDrop
| ConnReply (resp : WorkerResp)
| ConnForward (req : WorkerReq).

(** [handle_conn], given the outcome of reading a line. *)
Definition handle_conn (line : option string) : ConnAction :=
  match line with
  | None => ConnDrop
  | Some l =>
      let trimmed := trim l in
      if String.eqb trimmed "" then ConnDrop
      else match req_from_json trimmed with
           | None => ConnReply (RError ("malformed request: " ++ trimmed)%string)
           | Some req => ConnForward req
           end
  end.

(** [request] on the client side, given whether the socket accepted, the
    outcome of writing the request and that of reading one line. *)
Definition request (connected : bool) (written : result unit string)
    (read : result string string) : result WorkerResp WorkerIpcError :=
  if connected then
    match written, read with
    | Err e, _ => Err (Wire e)
    | Ok _, Err e => Err (Wire e)
    | Ok _, Ok buf =>
        if String.eqb (trim buf) "" then
          Err (Wire "worker closed connection without responding")
        else match resp_from_json (trim buf) with
             | Ok resp => Ok resp
             | Err e => Err (Wire e)
             end
    end
  else Err WorkerDown.

End codec.

End WorkerIpc.

(** ** The process *)

Module Worker.
Import WorkerIpc.

(** Binary64, as [f64]. *)
Definition f64_mul := SFmul 53 1024.
Definition f64_add := SFadd 53 1024.
Definition F64_0_2 : spec_float := S754_finite false 7205759403792794 (-55).
Definition F64_0_8 : spec_float := S754_finite false 7205759403792794 (-53).
(** [== 0.0]. *)
Definition f64_is_zero (x : spec_float) : bool := SFeqb x (S754_zero false).

Record InternalState : Type := mkInternal {
  is_kind : WorkloadKind;
  is_model_stem : string;
  is_pid : Z;
  is_workload_state : WorkloadState;
  is_ready_at_unix : Z;
  is_ema_ms : spec_float;
  is_calls : Z;
  is_errors : Z;
}.

Definition to_health (s : InternalState) (inflight : option Ulid) : WorkerHealth :=
  mkHealth (Some (is_kind s)) (is_workload_state s) (is_model_stem s) (is_pid s)
    (is_ready_at_unix s) (is_ema_ms s) (is_calls s) (is_errors s) inflight.

(** [build_workload]: the kinds that have a worker. *)
Definition build_workload (kind : WorkloadKind) : result WorkloadKind string :=
  match kind with
  | Embed | Rerank | Vad | Stt | Ocr => Ok kind
  | Tts | Clip | Denoise | EyeTrack =>
      Err ("worker: " ++ kind_str kind ++ " not implemented yet — supervisor should not spawn it")%string
  end.

Definition set_phase (s : InternalState) (p : WorkloadState) : InternalState :=
  mkInternal (is_kind s) (is_model_stem s) (is_pid s) p (is_ready_at_unix s)
    (is_ema_ms s) (is_calls s) (is_errors s).
Definition set_ready_at (s : InternalState) (t : Z) : InternalState :=
  mkInternal (is_kind s) (is_model_stem s) (is_pid s) (is_workload_state s) t
    (is_ema_ms s) (is_calls s) (is_errors s).
Definition count_call (s : InternalState) (elapsed_ms : spec_float) : InternalState :=
  mkInternal (is_kind s) (is_model_stem s) (is_pid s) (is_workload_state s) (is_ready_at_unix s)
    (if f64_is_zero (is_ema_ms s) then elapsed_ms
     else f64_add (f64_mul F64_0_2 elapsed_ms) (f64_mul F64_0_8 (is_ema_ms s)))
    (is_calls s + 1) (is_errors s).
Definition count_error (s : InternalState) : InternalState :=
  mkInternal (is_kind s) (is_model_stem s) (is_pid s) (is_workload_state s) (is_ready_at_unix s)
    (is_ema_ms s) (is_calls s) (is_errors s + 1).

(** The state [run] starts from. *)
Definition initial_state (kind : WorkloadKind) (stem : string) (pid : Z) : InternalState :=
  mkInternal kind stem pid NotPrepared 0 (S754_zero false) 0 0.

(** The gate of [run_batch]: the reply when the worker is not ready. *)
Definition gate (phase : WorkloadState) : option WorkerResp :=
  match phase with
  | Ready _ => None
  | Loading => Some (RError "worker still loading")
  | Failed reason => Some (RError ("worker load failed: " ++ reason)%string)
  | NotPrepared => Some (RError "worker not prepared (model file missing)")
  | Unavailable => Some (RError "worker unavailable")
  end.

Section format.
(** Decimal rendering of a [usize]. *)
Context (dec : nat → string).

(** [run_batch] from the backend's answer on. *)
Definition finish_batch (s : InternalState) (n : nat) (elapsed_ms : spec_float)
    (res : result (list WorkloadOutput) string) : WorkerResp * InternalState :=
  match res with
  | Ok outputs =>
      if decide (length outputs = n) then (RRunBatch outputs, count_call s elapsed_ms)
      else (RError ("run_batch returned " ++ dec (length outputs) ++ " outputs for " ++
                    dec n ++ " inputs")%string, count_error s)
  | Err e => (RError e, count_error s)
  end.

End format.

(** [dispatch]: the requests the serve loop answers itself. *)
Definition dispatch (req : WorkerReq) (s : InternalState) (inflight : option Ulid) : WorkerResp :=
  match req with
  | Health => RHealth (to_health s inflight)
  | Shutdown => RShutdownAck
  | RunBatch _ _ | Cancel _ =>
      RError "internal: RunBatch/Cancel must route through serve_loop"
  end.

(** A thread of [spawn_run_batch]: spawned; inflight slot set; inside the
    backend with the number of inputs; holding the reply, slot still set;
    slot cleared, about to write. *)
Inductive RunPc : Type :=
| Spawned (request_id : Ulid) (inputs : list WorkloadInput)
| Marked (inputs : list WorkloadInput)
| Computing (inputs : list WorkloadInput)
| Computed (resp : WorkerResp)
| Cleared (resp : WorkerResp).

(** The loader thread. *)
Inductive LoaderPc : Type := LoadPending | LoadRunning | LoadDone.

(** One worker process. Connections are numbered; [h_requests] remembers what
    each asked, [h_try_cancel] the [try_cancel] calls made, [h_runs] how many
    backend calls came back. [p_exited]: the process has called [_exit].
    [p_recv]: the serve loop is inside [recv_timeout], rather than about to read
    the shutdown flag. *)
Record Proc : Type := mkProc {
  p_state : InternalState;
  p_inflight : option Ulid;
  p_shutdown : bool;
  p_loader : LoaderPc;
  p_threads : gmap N RunPc;
  p_replies : list (N * WorkerResp);
  p_exited : bool;
  h_requests : gmap N WorkerReq;
  h_try_cancel : list Ulid;
  h_runs : nat;
  p_recv : bool;
}.

Definition with_thread (p : Proc) (conn : N) (pc : RunPc) : Proc :=
  mkProc (p_state p) (p_inflight p) (p_shutdown p) (p_loader p) (<[conn := pc]> (p_threads p))
    (p_replies p) (p_exited p) (h_requests p) (h_try_cancel p) (h_runs p) (p_recv p).
Definition with_reply (p : Proc) (conn : N) (resp : WorkerResp) : Proc :=
  mkProc (p_state p) (p_inflight p) (p_shutdown p) (p_loader p) (p_threads p)
    (p_replies p ++ [(conn, resp)]) (p_exited p) (h_requests p) (h_try_cancel p) (h_runs p) (p_recv p).
Definition with_inflight (p : Proc) (i : option Ulid) : Proc :=
  mkProc (p_state p) i (p_shutdown p) (p_loader p) (p_threads p)
    (p_replies p) (p_exited p) (h_requests p) (h_try_cancel p) (h_runs p) (p_recv p).
Definition with_shutdown (p : Proc) : Proc :=
  mkProc (p_state p) (p_inflight p) true (p_loader p) (p_threads p)
    (p_replies p) (p_exited p) (h_requests p) (h_try_cancel p) (h_runs p) (p_recv p).
Definition with_loader (p : Proc) (s : InternalState) (l : LoaderPc) : Proc :=
  mkProc s (p_inflight p) (p_shutdown p) l (p_threads p)
    (p_replies p) (p_exited p) (h_requests p) (h_try_cancel p) (h_runs p) (p_recv p).

(** Entering and leaving [recv_timeout]. *)
Definition with_recv (p : Proc) (recv : bool) : Proc :=
  mkProc (p_state p) (p_inflight p) (p_shutdown p) (p_loader p) (p_threads p)
    (p_replies p) (p_exited p) (h_requests p) (h_try_cancel p) (h_runs p) recv.

(** One turn of [serve_loop] on a request that came in on [conn]. *)
Definition serve (p : Proc) (conn : N) (req : WorkerReq) : Proc :=
  let p := mkProc (p_state p) (p_inflight p) (p_shutdown p) (p_loader p) (p_threads p)
             (p_replies p) (p_exited p) (<[conn := req]> (h_requests p)) (h_try_cancel p) (h_runs p) false in
  match req with
  | RunBatch request_id inputs => with_thread p conn (Spawned request_id inputs)
  | Cancel request_id =>
      let p :=
        if decide (p_inflight p = Some request_id) then
          mkProc (p_state p) (p_inflight p) (p_shutdown p) (p_loader p) (p_threads p)
            (p_replies p) (p_exited p) (h_requests p) (h_try_cancel p ++ [request_id]) (h_runs p) (p_recv p)
        else p in
      with_reply p conn RCancelAck
  | Health | Shutdown =>
      let p' := with_reply p conn (dispatch req (p_state p) (p_inflight p)) in
      match req with Shutdown => with_shutdown p' | _ => p' end
  end.

(** Leaving [serve_loop] and the process: [_exit] takes the other threads
    with it. *)
Definition exit_process (p : Proc) : Proc :=
  mkProc (p_state p) (p_inflight p) (p_shutdown p) (p_loader p) (p_threads p)
    (p_replies p) true (h_requests p) (h_try_cancel p) (h_runs p) (p_recv p).

(** One step of the loader thread; [res] is what [load] reports, with the
    backend name of [health], and [now] the Unix clock. *)
Definition loader_step (p : Proc) (res : result string string) (now : Z) : Proc :=
  match p_loader p with
  | LoadPending => with_loader p (set_phase (p_state p) Loading) LoadRunning
  | LoadRunning =>
      match res with
      | Ok backend =>
          let backend := if String.eqb backend "" then "unknown" else backend in
          with_loader p (set_ready_at (set_phase (p_state p) (Ready backend)) now) LoadDone
      | Err reason => with_loader p (set_phase (p_state p) (Failed reason)) LoadDone
      end
  | LoadDone => p
  end.

(** One step of the inference thread of [conn]; [res] and [elapsed_ms] are
    what the backend returns and how long it took. *)
Definition thread_step (dec : nat → string) (p : Proc) (conn : N)
    (res : result (list WorkloadOutput) string) (elapsed_ms : spec_float) : Proc :=
  match p_threads p !! conn with
  | None => p
  | Some (Spawned i inputs) => with_thread (with_inflight p (Some i)) conn (Marked inputs)
  | Some (Marked inputs) =>
      match gate (is_workload_state (p_state p)) with
      | Some resp => with_thread p conn (Computed resp)
      | None => with_thread p conn (Computing inputs)
      end
  | Some (Computing inputs) =>
      let (resp, s) := finish_batch dec (p_state p) (length inputs) elapsed_ms res in
      mkProc s (p_inflight p) (p_shutdown p) (p_loader p)
        (<[conn := Computed resp]> (p_threads p)) (p_replies p) (p_exited p)
        (h_requests p) (h_try_cancel p) (S (h_runs p)) (p_recv p)
  | Some (Computed resp) => with_thread (with_inflight p None) conn (Cleared resp)
  | Some (Cleared resp) =>
      let p' := with_reply p conn resp in
      mkProc (p_state p') (p_inflight p') (p_shutdown p') (p_loader p')
        (delete conn (p_threads p')) (p_replies p') (p_exited p')
        (h_requests p') (h_try_cancel p') (h_runs p') (p_recv p')
  end.

Inductive step (dec : nat → string) : Proc → Proc → Prop :=
| step_recv p :
    p_exited p = false → p_recv p = false → p_shutdown p = false →
    step dec p (with_recv p true)
| step_timeout p :
    p_exited p = false → p_recv p = true → step dec p (with_recv p false)
| step_serve p conn req :
    p_exited p = false → p_recv p = true → h_requests p !! conn = None →
    step dec p (serve p conn req)
| step_loader p res now : p_exited p = false → step dec p (loader_step p res now)
| step_thread p conn res ms :
    p_exited p = false → is_Some (p_threads p !! conn) →
    step dec p (thread_step dec p conn res ms)
| step_signal p : p_exited p = false → step dec p (with_shutdown p)
| step_exit p :
    p_exited p = false → p_recv p = false → p_shutdown p = true → step dec p (exit_process p).

Definition init (kind : WorkloadKind) (stem : string) (pid : Z) : Proc :=
  mkProc (initial_state kind stem pid) None false LoadPending ∅ [] false ∅ [] 0 false.

Definition reachable (dec : nat → string) (p : Proc) : Prop :=
  ∃ kind stem pid, rtc (step dec) (init kind stem pid) p.

(** ** The invariant *)

(** The reply a request may get. *)
Definition reply_matches (req : WorkerReq) (resp : WorkerResp) : Prop :=
  match req, resp with
  | Health, RHealth _ | Cancel _, RCancelAck | Shutdown, RShutdownAck => True
  | RunBatch _ inputs, RRunBatch outputs => length outputs = length inputs
  | RunBatch _ _, RError _ => True
  | _, _ => False
  end.

(** The inflight slot is this thread's to hold. *)
Definition holds_slot (pc : RunPc) : bool :=
  match pc with Marked _ | Computing _ | Computed _ => true | _ => false end.

(** A thread working on [RunBatch i inputs]. *)
Definition thread_ok (i : Ulid) (inputs : list WorkloadInput) (pc : RunPc) : Prop :=
  match pc with
  | Spawned i' inputs' => i' = i ∧ inputs' = inputs
  | Marked inputs' | Computing inputs' => inputs' = inputs
  | Computed resp | Cleared resp => reply_matches (RunBatch i inputs) resp
  end.

Record inv (p : Proc) : Prop := {
  inv_served c : is_Some (h_requests p !! c) ↔ c ∈ (p_replies p).*1 ∨ is_Some (p_threads p !! c);
  inv_once : NoDup (p_replies p).*1;
  inv_open c : c ∈ (p_replies p).*1 → p_threads p !! c = None;
  inv_reply c resp : (c, resp) ∈ p_replies p →
    ∃ req, h_requests p !! c = Some req ∧ reply_matches req resp;
  inv_thread c pc : p_threads p !! c = Some pc →
    ∃ i inputs, h_requests p !! c = Some (RunBatch i inputs) ∧ thread_ok i inputs pc;
  inv_slot i : p_inflight p = Some i → ∃ c inputs pc,
    h_requests p !! c = Some (RunBatch i inputs) ∧ p_threads p !! c = Some pc ∧ holds_slot pc = true;
  inv_cancel i : i ∈ h_try_cancel p → ∃ c inputs, h_requests p !! c = Some (RunBatch i inputs);
  inv_count : (is_calls (p_state p) + is_errors (p_state p))%Z = Z.of_nat (h_runs p);
}.

Lemma worker_inv_init kind stem pid : inv (init kind stem pid).
Proof.
  split; simpl; try done.
  - intros c. rewrite !lookup_empty. split; [by intros []|].
    intros [?%not_elem_of_nil|[]]; done.
  - constructor.
  - by intros c ? ?%not_elem_of_nil.
  - by intros i ?%not_elem_of_nil.
Qed.

(** Changing neither the connections nor the threads. *)
Lemma worker_inv_frame p p' :
  inv p → h_requests p' = h_requests p → p_replies p' = p_replies p →
  p_threads p' = p_threads p → p_inflight p' = p_inflight p →
  h_try_cancel p' = h_try_cancel p → h_runs p' = h_runs p →
  (is_calls (p_state p') + is_errors (p_state p'))%Z =
  (is_calls (p_state p) + is_errors (p_state p))%Z → inv p'.
Proof.
  intros [] E1 E2 E3 E4 E5 E6 E7.
  split; rewrite ?E1, ?E2, ?E3, ?E4, ?E5, ?E6, ?E7; done.
Qed.

Lemma keys_snoc (l : list (N * WorkerResp)) c resp : (l ++ [(c, resp)]).*1 = l.*1 ++ [c].
Proof. by rewrite fmap_app. Qed.

(** A served request that is answered on the spot. *)
Lemma inv_answer p c req resp cancelled :
  inv p → h_requests p !! c = None → reply_matches req resp →
  (∀ i, i ∈ cancelled → p_inflight p = Some i) →
  inv (mkProc (p_state p) (p_inflight p) (p_shutdown p) (p_loader p) (p_threads p)
    (p_replies p ++ [(c, resp)]) (p_exited p) (<[c := req]> (h_requests p))
    (h_try_cancel p ++ cancelled) (h_runs p) false).
Proof.
  intros I Hc Hr Hcan.
  assert (c ∉ (p_replies p).*1 ∧ p_threads p !! c = None) as [Hnr Hnt].
  { pose proof (inv_served p I c) as Hs. rewrite Hc in Hs. split.
    - intros Hin. destruct (proj2 Hs (or_introl Hin)) as [? [=]].
    - apply eq_None_not_Some. intros Hin. destruct (proj2 Hs (or_intror Hin)) as [? [=]]. }
  assert (Hkeep : ∀ c' req', h_requests p !! c' = Some req' →
    <[c := req]> (h_requests p) !! c' = Some req').
  { intros c' req' E. rewrite lookup_insert_ne; [done|]. congruence. }
  split; simpl.
  - intros c'. rewrite keys_snoc, elem_of_app, list_elem_of_singleton.
    destruct (decide (c' = c)) as [->|Hne].
    + rewrite lookup_insert_eq. naive_solver.
    + rewrite lookup_insert_ne by done. rewrite (inv_served p I c'). naive_solver.
  - rewrite keys_snoc. apply NoDup_app. split_and!; [apply (inv_once p I)| |apply NoDup_singleton].
    intros x Hx ?%list_elem_of_singleton. by subst.
  - intros c'. rewrite keys_snoc, elem_of_app, list_elem_of_singleton.
    intros [?| ->]; [by apply (inv_open p I)|done].
  - intros c' r'. rewrite elem_of_app, list_elem_of_singleton. intros [Hin|[= -> ->]].
    + destruct (inv_reply p I _ _ Hin) as (req' & ? & ?). eauto.
    + exists req. by rewrite lookup_insert_eq.
  - intros c' pc E. destruct (inv_thread p I _ _ E) as (i & ins & ? & ?). eauto 6.
  - intros i E. destruct (inv_slot p I i E) as (c' & ins & pc & ? & ? & ?). eauto 8.
  - intros i. rewrite elem_of_app. intros [Hin|Hin].
    + destruct (inv_cancel p I i Hin) as (c' & ins & ?). eauto.
    + destruct (inv_slot p I i (Hcan i Hin)) as (c' & ins & pc & ? & ? & ?). eauto.
  - apply (inv_count p I).
Qed.

(** Replacing the program counter of a running thread. *)
Lemma inv_move p c pc pc' inflight s runs recv i inputs :
  inv p → p_threads p !! c = Some pc →
  h_requests p !! c = Some (RunBatch i inputs) → thread_ok i inputs pc' →
  (inflight = p_inflight p ∧ (holds_slot pc = true → holds_slot pc' = true) ∨
   inflight = None ∨ inflight = Some i ∧ holds_slot pc' = true) →
  (is_calls s + is_errors s)%Z = Z.of_nat runs →
  inv (mkProc s inflight (p_shutdown p) (p_loader p) (<[c := pc']> (p_threads p))
    (p_replies p) (p_exited p) (h_requests p) (h_try_cancel p) runs recv).
Proof.
  intros I Hc Hreq Hok Hslot Hcount. split; simpl; try apply I; try done.
  - intros c'. rewrite (inv_served p I c'). destruct (decide (c' = c)) as [->|].
    + rewrite lookup_insert_eq, Hc. naive_solver.
    + by rewrite lookup_insert_ne.
  - intros c' Hin. pose proof (inv_open p I c' Hin). rewrite lookup_insert_ne; [done|congruence].
  - intros c' pc1. destruct (decide (c' = c)) as [->|].
    + rewrite lookup_insert_eq. intros [= <-]. eauto.
    + rewrite lookup_insert_ne by done. apply (inv_thread p I).
  - intros i' ->. destruct Hslot as [[E Hh]|[?|[[= ->] Hh]]]; [|done|].
    + destruct (inv_slot p I i' (eq_sym E)) as (c' & ins & pc1 & ? & Hpc1 & ?).
      exists c', ins. destruct (decide (c' = c)) as [->|].
      * exists pc'. rewrite lookup_insert_eq. naive_solver.
      * exists pc1. by rewrite lookup_insert_ne.
    + exists c, inputs, pc'. by rewrite lookup_insert_eq.
Qed.

Lemma inv_serve p c req :
  inv p → h_requests p !! c = None → inv (serve p c req).
Proof.
  intros I Hc. unfold serve. destruct req as [ |i inputs|i|].
  - rewrite <- (app_nil_r (h_try_cancel p)).
    apply (inv_answer p c Health (RHealth (to_health (p_state p) (p_inflight p))) []); try done.
    by intros ? ?%not_elem_of_nil.
  - assert (p_threads p !! c = None ∧ c ∉ (p_replies p).*1) as [Ht Hr].
    { pose proof (inv_served p I c) as Hs. rewrite Hc in Hs. split.
      - apply eq_None_not_Some. intros Hin. destruct (proj2 Hs (or_intror Hin)) as [? [=]].
      - intros Hin. destruct (proj2 Hs (or_introl Hin)) as [? [=]]. }
    assert (Hne : ∀ c' req', h_requests p !! c' = Some req' → c ≠ c') by congruence.
    split; simpl; try apply I.
    + intros c'. destruct (decide (c' = c)) as [->|].
      * rewrite !lookup_insert_eq. naive_solver.
      * rewrite !lookup_insert_ne by done. apply (inv_served p I).
    + intros c' Hin. rewrite lookup_insert_ne by congruence. by apply (inv_open p I).
    + intros c' r Hin. destruct (inv_reply p I _ _ Hin) as (req & E & ?).
      exists req. by rewrite lookup_insert_ne by eauto.
    + intros c' pc. destruct (decide (c' = c)) as [->|].
      * rewrite !lookup_insert_eq. intros [= <-]. by exists i, inputs.
      * rewrite !lookup_insert_ne by done. apply (inv_thread p I).
    + intros i' E. destruct (inv_slot p I i' E) as (c' & ins & pc & E1 & E2 & ?).
      exists c', ins, pc. by rewrite !lookup_insert_ne by eauto.
    + intros i' Hin. destruct (inv_cancel p I i' Hin) as (c' & ins & E).
      exists c', ins. by rewrite lookup_insert_ne by eauto.
  - simpl. case_decide as Hi.
    + apply (inv_answer p c (Cancel i) RCancelAck [i]); try done.
      by intros ? ->%list_elem_of_singleton.
    + unfold with_reply. simpl. rewrite <- (app_nil_r (h_try_cancel p)).
      apply (inv_answer p c (Cancel i)); try done. by intros ? ?%not_elem_of_nil.
  - eapply (worker_inv_frame (mkProc _ _ _ _ _ _ _ _ (h_try_cancel p ++ []) _ _));
      [apply (inv_answer p c Shutdown RShutdownAck []); try done; by intros ? ?%not_elem_of_nil|..];
      simpl; rewrite ?app_nil_r; done.
Qed.

Lemma gate_reply phase resp i inputs :
  gate phase = Some resp → reply_matches (RunBatch i inputs) resp.
Proof. by destruct phase; simpl; intros [= <-]. Qed.

Lemma finish_batch_spec dec s inputs ms res resp s' i :
  finish_batch dec s (length inputs) ms res = (resp, s') →
  reply_matches (RunBatch i inputs) resp ∧
  (is_calls s' + is_errors s' = is_calls s + is_errors s + 1)%Z.
Proof.
  unfold finish_batch. destruct res; [case_decide|]; intros [= <- <-]; simpl; split; done || lia.
Qed.

Lemma inv_thread_step dec p c res ms :
  inv p → inv (thread_step dec p c res ms).
Proof.
  intros I. unfold thread_step. destruct (p_threads p !! c) as [pc|] eqn:Hc; [|done].
  destruct (inv_thread p I c pc Hc) as (i & inputs & Hreq & Hok).
  destruct pc as [i' ins|ins|ins|resp|resp]; simpl in Hok; destruct_and?; subst.
  - eapply (inv_move p); try done; [auto|apply (inv_count p I)].
  - destruct (gate _) as [resp|] eqn:Eg.
    + eapply (inv_move p); try done; [by eapply gate_reply|auto|apply (inv_count p I)].
    + eapply (inv_move p); try done; [auto|apply (inv_count p I)].
  - destruct (finish_batch _ _ _ _ _) as [resp s] eqn:Ef.
    destruct (finish_batch_spec _ _ _ _ _ _ _ i Ef) as [Hr Hn].
    eapply (inv_move p); try done; [auto|]. pose proof (inv_count p I). lia.
  - eapply (inv_move p); try done; [auto|apply (inv_count p I)].
  - assert (c ∉ (p_replies p).*1) as Hnr.
    { intros Hin. pose proof (inv_open p I c Hin). congruence. }
    split; simpl; try apply I.
    + intros c'. rewrite (inv_served p I c'), keys_snoc, elem_of_app, list_elem_of_singleton.
      destruct (decide (c' = c)) as [->|].
      * rewrite lookup_delete_eq, Hc. naive_solver.
      * rewrite lookup_delete_ne by done. naive_solver.
    + rewrite keys_snoc. apply NoDup_app.
      split_and!; [apply (inv_once p I)| |apply NoDup_singleton].
      intros x Hx ?%list_elem_of_singleton. by subst.
    + intros c'. rewrite keys_snoc, elem_of_app, list_elem_of_singleton.
      destruct (decide (c' = c)) as [->|]; [by rewrite lookup_delete_eq|].
      rewrite lookup_delete_ne by done. intros [?|?]; [by apply (inv_open p I)|done].
    + intros c' r. rewrite elem_of_app, list_elem_of_singleton. intros [?|[= -> ->]].
      * by apply (inv_reply p I).
      * eauto.
    + intros c' pc. rewrite lookup_delete_Some. intros [_ ?]. by apply (inv_thread p I).
    + intros i' E. destruct (inv_slot p I i' E) as (c' & ins & pc & E1 & E2 & E3).
      exists c', ins, pc. rewrite lookup_delete_ne; [done|]. intros ->.
      rewrite Hc in E2. by simplify_eq.
Qed.

Lemma worker_inv_step dec p p' : inv p → step dec p p' → inv p'.
Proof.
  intros I. destruct 1 as [p|p|p c req|p res now|p c res ms|p|p].
  - by apply (worker_inv_frame p).
  - by apply (worker_inv_frame p).
  - by apply inv_serve.
  - unfold loader_step. destruct (p_loader p); [|destruct res|done]; by apply (worker_inv_frame p).
  - by apply inv_thread_step.
  - by apply (worker_inv_frame p).
  - by apply (worker_inv_frame p).
Qed.

Lemma worker_inv_reachable dec p : reachable dec p → inv p.
Proof.
  intros (kind & stem & pid & Hr).
  remember (init kind stem pid) as p0 eqn:E0. assert (inv p0) as I by (subst; apply worker_inv_init).
  clear E0. induction Hr; eauto using worker_inv_step.
Qed.

(** ** Properties *)

(** C8. The worker answers each connection at most once and with the reply its
    request calls for: a request served is either answered or held by one
    inference thread, a [RunBatch] reply carries as many outputs as there were
    inputs, and the call and error counters add up to the backend calls made. *)
Theorem worker_answers dec p :
  reachable dec p →
  NoDup (p_replies p).*1 ∧
  (∀ c resp, (c, resp) ∈ p_replies p →
     ∃ req, h_requests p !! c = Some req ∧ reply_matches req resp) ∧
  (∀ c, is_Some (h_requests p !! c) ↔ c ∈ (p_replies p).*1 ∨ is_Some (p_threads p !! c)) ∧
  (∀ c, c ∈ (p_replies p).*1 → p_threads p !! c = None) ∧
  (is_calls (p_state p) + is_errors (p_state p))%Z = Z.of_nat (h_runs p).
Proof. intros I%worker_inv_reachable. destruct I. done. Qed.

(** Cancellation reaches the right batch only: the inflight slot always
    names a batch whose thread is between marking and clearing it, and
    [try_cancel] is only ever called for an id some [RunBatch] was sent with. *)
Theorem worker_cancel_targets dec p :
  reachable dec p →
  (∀ i, p_inflight p = Some i → ∃ c inputs pc,
     h_requests p !! c = Some (RunBatch i inputs) ∧ p_threads p !! c = Some pc ∧
     holds_slot pc = true) ∧
  (∀ i, i ∈ h_try_cancel p → ∃ c inputs, h_requests p !! c = Some (RunBatch i inputs)).
Proof. intros I%worker_inv_reachable. destruct I. done. Qed.

(** ** Concrete runs *)

Section runs.

Definition run_dec (n : nat) : string := "0".
Definition run_worker : Proc := init Embed "e5" 42.
Definition run_thread (p : Proc) (c : N) : Proc :=
  thread_step run_dec p c (Ok [OutText "x"]) (S754_zero false).

Lemma run_snoc (p p' p'' : Proc) :
  rtc (step run_dec) p p' → step run_dec p' p'' → rtc (step run_dec) p p''.
Proof. intros. by eapply rtc_r. Qed.

(** A ready worker with one batch on connection 1, taken through its thread. *)
Definition run_ready : Proc :=
  loader_step (loader_step run_worker (Ok "npu") 5) (Ok "npu") 5.
Definition run_request (p : Proc) (c : N) (req : WorkerReq) : Proc :=
  serve (with_recv p true) c req.
Definition run_batched : Proc := run_request run_ready 1 (RunBatch 7 [InText "a"]).
Definition run_cancelling : Proc :=
  run_request (run_thread (run_thread run_batched 1) 1) 2 (Cancel 7).
Definition run_answered : Proc :=
  run_thread (run_thread (run_thread run_cancelling 1) 1) 1.

Ltac run_loader := eapply run_snoc; [|eapply step_loader; reflexivity].
Ltac run_serve :=
  eapply run_snoc; [|eapply step_serve; reflexivity];
  eapply run_snoc; [|eapply step_recv; reflexivity].
Ltac run_threads := eapply run_snoc; [|eapply step_thread; [reflexivity | by eexists]].

Lemma run_answered_reachable : reachable run_dec run_answered.
Proof.
  exists Embed, "e5", 42%Z. unfold run_answered, run_cancelling, run_batched, run_ready, run_request.
  do 3 run_threads. run_serve. do 2 run_threads. run_serve. do 2 run_loader. constructor.
Qed.

(** Two overlapping batches: the first to end clears the slot of both. *)
Definition run_overlap : Proc :=
  let p := run_request (run_request run_ready 1 (RunBatch 7 [InText "a"])) 2 (RunBatch 8 [InText "b"]) in
  let p := run_thread (run_thread (run_thread (run_thread p 1) 1) 2) 2 in
  run_thread (run_thread p 1) 1.

Lemma run_overlap_reachable : reachable run_dec run_overlap.
Proof.
  exists Embed, "e5", 42%Z. unfold run_overlap, run_ready, run_request.
  do 6 run_threads. do 2 run_serve. do 2 run_loader. constructor.
Qed.

(** A shutdown arriving while the batch is in the backend. *)
Definition run_shutdown : Proc :=
  exit_process (run_request (run_thread (run_thread run_batched 1) 1) 2 Shutdown).

Lemma run_shutdown_reachable : reachable run_dec run_shutdown.
Proof.
  exists Embed, "e5", 42%Z. unfold run_shutdown, run_batched, run_ready, run_request.
  eapply run_snoc; [|apply step_exit; reflexivity].
  run_serve. do 2 run_threads. run_serve. do 2 run_loader. constructor.
Qed.

End runs.

Lemma worker_answers_witness :
  reachable run_dec run_answered ∧ (p_replies run_answered).*1 = [2%N; 1%N] ∧
  (is_calls (p_state run_answered) + is_errors (p_state run_answered))%Z = 1%Z.
Proof.
  split; [apply run_answered_reachable|]. split; [reflexivity|].
  destruct (worker_answers run_dec run_answered) as (_ & _ & _ & _ & H);
    [apply run_answered_reachable | exact H].
Defined.

Lemma worker_cancel_targets_witness :
  reachable run_dec run_answered ∧ h_try_cancel run_answered = [7%N] ∧
  ∃ c inputs, h_requests run_answered !! c = Some (RunBatch 7 inputs).
Proof.
  split; [apply run_answered_reachable|]. split; [reflexivity|].
  destruct (worker_cancel_targets run_dec run_answered) as [_ H];
    [apply run_answered_reachable | apply H; apply list_elem_of_singleton; reflexivity].
Defined.

(** The slot is one for all batches: with two overlapping batches the first
    to finish clears it, and the worker then reports nothing in flight, and
    ignores a cancel, while the other is still in the backend. *)
Theorem overlap_loses_slot :
  reachable run_dec run_overlap ∧ p_inflight run_overlap = None ∧
  p_threads run_overlap !! 2%N = Some (Computing [InText "b"]) ∧
  h_try_cancel (run_request run_overlap 3 (Cancel 8)) = [].
Proof. split; [apply run_overlap_reachable|]. done. Qed.

(** Shutdown does not wait for the batch in flight: the process can
    acknowledge a [Shutdown] and exit while a batch is in the backend, which
    is then never answered. *)
Theorem shutdown_drops_batch :
  reachable run_dec run_shutdown ∧ p_exited run_shutdown = true ∧
  p_threads run_shutdown !! 1%N = Some (Computing [InText "a"]) ∧
  (p_replies run_shutdown) = [(2%N, RShutdownAck)] ∧
  ∀ p, ¬ step run_dec run_shutdown p.
Proof.
  split; [apply run_shutdown_reachable|]. do 3 (split; [reflexivity|]).
  intros p Hs. remember run_shutdown as p0 eqn:E0.
  assert (p_exited p0 = true) as Hx by (subst; reflexivity). clear E0.
  destruct Hs; congruence.
Qed.

End Worker.
