(* ===== verification/Supervisor.v ===== *)
(** * The worker supervisor

    [crates/sy-aiplane/src/aiplane/supervisor/mod.rs] with
    [supervisor/health.rs], [supervisor/child.rs] (the [Child] and [ChildSpawn]
    traits) and the socket path of [aiplane/config.rs]. The operating system is
    the class [World]: processes, sockets and the clock. Every operation is a
    state transformer over the world and the supervisor; its loops carry fuel
    computed from their deadlines, and running out of it is [None]. *)

From S2P Require Import Prelude Vocab WarmPool Worker.
Import Workload WorkerIpc.
Local Open Scope string_scope.
Local Open Scope list_scope.

(** ** The operating system *)

(** What the supervisor asks of the system: the clock, sleeping, the
    [ChildSpawn] and [Child] traits on process handles [H], one request to a
    worker socket, and whether a socket exists. *)
Class World (W H : Type) : Type := {
  w_now : W → Instant * W;
  w_sleep : Duration → W → W;
  w_spawn : WorkloadKind → string → W → result H string * W;
  w_is_alive : H → W → bool * W;
  w_terminate : H → W → W;
  w_request : string → WorkerReq → Duration → W → result WorkerResp WorkerIpcError * W;
  w_path_exists : string → W → bool * W;
  w_clock : W → Instant;
  w_dead : H → W → Prop;
}.

(** The clock does not go back and the dead stay dead. *)
Definition evolves {W H} `{!World W H} (w w' : W) : Prop :=
  (w_clock (H := H) w <= w_clock (H := H) w')%Z ∧ ∀ h : H, w_dead h w → w_dead h w'.

Class WorldLaws (W H : Type) `{!World W H} : Prop := {
  w_now_spec w : evolves (H := H) w (w_now (H := H) w).2 ∧
    (w_clock (H := H) w <= (w_now (H := H) w).1 <= w_clock (H := H) (w_now (H := H) w).2)%Z;
  w_sleep_spec d w : evolves (H := H) w (w_sleep (H := H) d w) ∧
    (w_clock (H := H) w + d <= w_clock (H := H) (w_sleep (H := H) d w))%Z;
  w_spawn_spec k s w : evolves (H := H) w (w_spawn k s w).2;
  w_is_alive_spec (h : H) w : evolves (H := H) w (w_is_alive h w).2 ∧
    ((w_is_alive h w).1 = false → w_dead h (w_is_alive h w).2) ∧
    (w_dead h w → (w_is_alive h w).1 = false);
  w_terminate_spec (h : H) w : evolves (H := H) w (w_terminate h w) ∧ w_dead h (w_terminate h w);
  w_request_spec s r d w : evolves (H := H) w (w_request (H := H) s r d w).2;
  w_path_exists_spec s w : evolves (H := H) w (w_path_exists (H := H) s w).2;
}.

Module Supervisor.

(** ** Constants and the restart policy *)

Definition HEALTH_PROBE_TIMEOUT : Duration := from_secs 2.
Definition HEALTH_POLL_INTERVAL : Duration := from_secs 1.
Definition SOCKET_BIND_DEADLINE : Duration := from_secs 5.
Definition SOCKET_BIND_POLL : Duration := from_millis 20.
Definition RUN_BATCH_TIMEOUT : Duration := from_secs 900.
Definition WORKER_RAISE_DEADLINE : Duration := from_secs 900.
Definition CANCEL_YIELD_DEADLINE : Duration := from_millis 500.
Definition CANCEL_POLL_INTERVAL : Duration := from_millis 25.
Definition SHUTDOWN_POLL : Duration := from_millis 100.

Definition BASE_BACKOFF : Duration := from_secs 1.
Definition MAX_BACKOFF : Duration := from_secs 60.

(** [health::backoff_for_attempt]. *)
Definition backoff_for_attempt (attempt : Z) : Duration :=
  if (attempt =? 0)%Z then 0%Z
  else Z.min (BASE_BACKOFF * Z.shiftl 1 (Z.min attempt 6)) MAX_BACKOFF.

(** [config::worker_socket_path] under the runtime directory. *)
Definition worker_socket_path (runtime_dir : string) (kind : WorkloadKind) : string :=
  (runtime_dir ++ "/sy-aiplane-worker-" ++ kind_str kind ++ ".sock")%string.

(** The errors of the operations, by the site that raises them. *)
Inductive SupError : Type :=
| SpawnWorker (msg : string)
| SocketNotBound
| FailedToLoad (reason : string)
| ModelNotPrepared
| UnexpectedResp (resp : WorkerResp)
| SocketDisappeared
| HealthProbe (msg : string)
| NotReadyInTime
| WorkerSaid (msg : string)
| BatchIpc (e : WorkerIpcError)
| CancelSend (e : WorkerIpcError)
| DidNotYield.

(** What the supervisor did to the world, for the theorems. *)
Inductive Action (H : Type) : Type :=
| ASpawn (kind : WorkloadKind) (res : result H string)
| ATerminate (h : H)
| ARequest (socket : string) (req : WorkerReq) (res : result WorkerResp WorkerIpcError).
Arguments ASpawn {H} kind res.
Arguments ATerminate {H} h.
Arguments ARequest {H} socket req res.

(** [ManagedChild]. *)
Record Managed (H : Type) : Type := mkManaged {
  mc_handle : H;
  mc_socket_path : string;
  mc_last_health : option WorkerHealth;
  mc_last_health_at : option Instant;
  mc_restart_attempts : Z;
  mc_backoff_until : option Instant;
}.
Arguments mkManaged {H} _ _ _ _ _ _.
Arguments mc_handle {H} _.
Arguments mc_socket_path {H} _.
Arguments mc_last_health {H} _.
Arguments mc_last_health_at {H} _.
Arguments mc_restart_attempts {H} _.
Arguments mc_backoff_until {H} _.

(** The world, the supervisor's fields, the [sy_models_warm] gauge, and the
    log of actions. *)
Record St (W H : Type) : Type := mkSt {
  st_world : W;
  st_children : gmap WorkloadKind (Managed H);
  st_pool : WarmPool.Pool;
  st_gauge : gmap WorkloadKind bool;
  st_log : list (Action H);
}.
Arguments mkSt {W H} _ _ _ _ _.
Arguments st_world {W H} _.
Arguments st_children {W H} _.
Arguments st_pool {W H} _.
Arguments st_gauge {W H} _.
Arguments st_log {W H} _.

(** State transformers; [None] is a loop out of fuel. [E] adds the errors. *)
Definition M (W H A : Type) : Type := St W H → option (A * St W H).
Abbreviation E W H A := (M W H (result A SupError)).

Definition ret {W H A} (a : A) : M W H A := fun s => Some (a, s).
Definition bind {W H A B} (m : M W H A) (k : A → M W H B) : M W H B := fun s =>
  match m s with Some (a, s') => k a s' | None => None end.
Definition ebind {W H A B} (m : E W H A) (k : A → E W H B) : E W H B :=
  bind m (fun r => match r with Ok a => k a | Err e => ret (Err e) end).

Notation "'do' x <- m ; k" := (bind m (fun x => k))
  (at level 60, x pattern, m at next level, right associativity) : sy_scope.
Notation "'do!' x <- m ; k" := (ebind m (fun x => k))
  (at level 60, x pattern, m at next level, right associativity) : sy_scope.
Local Open Scope sy_scope.

(** How many turns a polling loop can take before its deadline. *)
Definition turns (deadline interval : Duration) : nat := Z.to_nat (deadline / interval) + 2.

Section operations.
Context {W H : Type} `{!World W H}.
(** The runtime directory, and the order in which the children map is walked. *)
Context (runtime_dir : string) (hash_order : gmap WorkloadKind (Managed H) → list WorkloadKind).

(** ** The state and the system calls *)

Definition get : M W H (St W H) := fun s => Some (s, s).
Definition set_world (w : W) (s : St W H) : St W H :=
  mkSt w (st_children s) (st_pool s) (st_gauge s) (st_log s).
Definition set_children (cs : gmap WorkloadKind (Managed H)) (s : St W H) : St W H :=
  mkSt (st_world s) cs (st_pool s) (st_gauge s) (st_log s).
Definition set_pool (p : WarmPool.Pool) (s : St W H) : St W H :=
  mkSt (st_world s) (st_children s) p (st_gauge s) (st_log s).
Definition set_gauge (g : gmap WorkloadKind bool) (s : St W H) : St W H :=
  mkSt (st_world s) (st_children s) (st_pool s) g (st_log s).
Definition log (a : Action H) (s : St W H) : St W H :=
  mkSt (st_world s) (st_children s) (st_pool s) (st_gauge s) (st_log s ++ [a]).
Definition modify (f : St W H → St W H) : M W H unit := fun s => Some (tt, f s).

(** Running a system call. *)
Definition sys {A} (f : W → A * W) : M W H A := fun s =>
  Some ((f (st_world s)).1, set_world (f (st_world s)).2 s).

Definition now : M W H Instant := sys (w_now (H := H)).
Definition sleep (d : Duration) : M W H unit := sys (fun w => (tt, w_sleep (H := H) d w)).
Definition is_alive (h : H) : M W H bool := sys (w_is_alive h).
Definition path_exists (p : string) : M W H bool := sys (w_path_exists (H := H) p).
Definition spawn_child (kind : WorkloadKind) (socket : string) : M W H (result H string) :=
  do r <- sys (w_spawn kind socket); do _ <- modify (log (ASpawn kind r)); ret r.
Definition terminate (h : H) : M W H unit :=
  do _ <- sys (fun w => (tt, w_terminate h w)); modify (log (ATerminate h)).
Definition worker_request (socket : string) (req : WorkerReq) (timeout : Duration)
    : M W H (result WorkerResp WorkerIpcError) :=
  do r <- sys (w_request (H := H) socket req timeout);
  do _ <- modify (log (ARequest socket req r)); ret r.

(** ** The operations *)

Definition socket_for (kind : WorkloadKind) : M W H string :=
  do s <- get;
  ret (match st_children s !! kind with
       | Some mc => mc_socket_path mc
       | None => worker_socket_path runtime_dir kind
       end).

(** [wait_for_socket]. *)
Fixpoint wait_for_socket_loop (fuel : nat) (path : string) (deadline : Duration)
    (start : Instant) : E W H unit :=
  match fuel with
  | O => fun _ => None
  | S fuel' =>
      do t <- now;
      if (t - start <? deadline)%Z then
        do e <- path_exists path;
        if e then ret (Ok tt)
        else do _ <- sleep SOCKET_BIND_POLL; wait_for_socket_loop fuel' path deadline start
      else ret (Err SocketNotBound)
  end.
Definition wait_for_socket (path : string) (deadline : Duration) : E W H unit :=
  do start <- now;
  wait_for_socket_loop (turns deadline SOCKET_BIND_POLL) path deadline start.

(** The tail of [ensure_spawned], once a spawn is needed. *)
Definition respawn (kind : WorkloadKind) : E W H unit :=
  do s <- get;
  do _ <- modify (set_children (delete kind (st_children s)));
  let socket := worker_socket_path runtime_dir kind in
  do r <- spawn_child kind socket;
  match r with
  | Err msg => ret (Err (SpawnWorker msg))
  | Ok handle =>
      do! _ <- wait_for_socket socket SOCKET_BIND_DEADLINE;
      do s <- get;
      do _ <- modify (set_children (<[kind := mkManaged handle socket None None 0 None]> (st_children s)));
      ret (Ok tt)
  end.

Definition ensure_spawned (kind : WorkloadKind) : E W H unit :=
  do s <- get;
  match st_children s !! kind with
  | Some mc =>
      do alive <- is_alive (mc_handle mc);
      if alive then ret (Ok tt) else respawn kind
  | None => respawn kind
  end.

Definition record_health (kind : WorkloadKind) (h : WorkerHealth) : M W H unit :=
  do s <- get;
  match st_children s !! kind with
  | None => ret tt
  | Some mc =>
      do t <- now;
      let mc' := if is_ready (wh_state h)
                 then mkManaged (mc_handle mc) (mc_socket_path mc) (Some h) (Some t) 0 None
                 else mkManaged (mc_handle mc) (mc_socket_path mc) (Some h) (Some t)
                        (mc_restart_attempts mc) (mc_backoff_until mc) in
      do s <- get;
      modify (set_children (<[kind := mc']> (st_children s)))
  end.

(** [wait_for_ready]. [tail]: what follows the match on the probe. *)
Fixpoint wait_for_ready_loop (fuel : nat) (kind : WorkloadKind) (deadline : Duration)
    (start : Instant) : E W H WorkerHealth :=
  match fuel with
  | O => fun _ => None
  | S fuel' =>
      let tail :=
        do t <- now;
        if (deadline <=? t - start)%Z then ret (Err NotReadyInTime)
        else do _ <- sleep HEALTH_POLL_INTERVAL; wait_for_ready_loop fuel' kind deadline start in
      do socket <- socket_for kind;
      do r <- worker_request socket Health HEALTH_PROBE_TIMEOUT;
      match r with
      | Ok (RHealth h) =>
          do _ <- record_health kind h;
          match wh_state h with
          | Ready _ => ret (Ok h)
          | Failed reason => ret (Err (FailedToLoad reason))
          | NotPrepared => ret (Err ModelNotPrepared)
          | Loading | Unavailable => tail
          end
      | Ok other => ret (Err (UnexpectedResp other))
      | Err WorkerDown =>
          do t <- now;
          if (t - start <? deadline)%Z then tail else ret (Err SocketDisappeared)
      | Err (Wire msg) => ret (Err (HealthProbe msg))
      end
  end.
Definition wait_for_ready (kind : WorkloadKind) (deadline : Duration) : E W H WorkerHealth :=
  do start <- now;
  wait_for_ready_loop (turns deadline HEALTH_POLL_INTERVAL) kind deadline start.

(** [publish_warm_gauge]: one sample per kind. *)
Definition publish_warm_gauge : M W H unit :=
  do t <- now;
  do s <- get;
  let warm := WarmPool.warm_kinds t (st_pool s) in
  modify (set_gauge (foldr (fun k g => <[k := bool_decide (k ∈ warm)]> g) (st_gauge s) KINDS)).

(** [warm_pool.touch(kind)]. *)
Definition touch_pool (kind : WorkloadKind) : M W H unit :=
  do t <- now;
  do s <- get;
  modify (set_pool (WarmPool.touch t (st_pool s) kind).2).

(** [warm_models]. *)
Definition warm_models : M W H (list string) :=
  do t <- now;
  do s <- get;
  ret (WarmPool.warm_model_names t (st_pool s)).

Definition ensure (kind : WorkloadKind) (ready_deadline : Duration) : E W H WorkerHealth :=
  do! _ <- ensure_spawned kind;
  do _ <- touch_pool kind;
  do _ <- publish_warm_gauge;
  wait_for_ready kind ready_deadline.

Definition run_batch (kind : WorkloadKind) (inputs : list WorkloadInput) : E W H (list WorkloadOutput) :=
  do! _ <- ensure kind WORKER_RAISE_DEADLINE;
  do socket <- socket_for kind;
  do r <- worker_request socket (RunBatch Ulid_nil inputs) RUN_BATCH_TIMEOUT;
  ret (match r with
       | Ok (RRunBatch outputs) => Ok outputs
       | Ok (RError msg) => Err (WorkerSaid msg)
       | Ok other => Err (UnexpectedResp other)
       | Err e => Err (BatchIpc e)
       end).

(** [escalate_to_kill]. *)
Definition escalate_to_kill (kind : WorkloadKind) : M W H unit :=
  do s <- get;
  do _ <- match st_children s !! kind with
          | Some mc => terminate (mc_handle mc)
          | None => ret tt
          end;
  do _ <- ensure_spawned kind; ret tt.

(** The polling of [cancel]: [true] when the worker was seen to yield. *)
Fixpoint cancel_loop (fuel : nat) (kind : WorkloadKind) (socket : string) (request_id : Ulid)
    (start : Instant) : M W H bool :=
  match fuel with
  | O => fun _ => None
  | S fuel' =>
      do t <- now;
      if (t - start <? CANCEL_YIELD_DEADLINE)%Z then
        do r <- worker_request socket Health HEALTH_PROBE_TIMEOUT;
        match r with
        | Ok (RHealth h) =>
            if decide (wh_inflight_request_id h ≠ Some request_id) then
              do _ <- record_health kind h; ret true
            else
              do _ <- sleep CANCEL_POLL_INTERVAL; cancel_loop fuel' kind socket request_id start
        | _ => ret false
        end
      else ret false
  end.

Definition cancel (kind : WorkloadKind) (request_id : Ulid) : E W H unit :=
  do socket <- socket_for kind;
  do r <- worker_request socket (Cancel request_id) HEALTH_PROBE_TIMEOUT;
  match r with
  | Ok RCancelAck =>
      do start <- now;
      do yielded <- cancel_loop (turns CANCEL_YIELD_DEADLINE CANCEL_POLL_INTERVAL)
                      kind socket request_id start;
      if yielded : bool then ret (Ok tt)
      else do _ <- escalate_to_kill kind; ret (Err DidNotYield)
  | Ok other => ret (Err (UnexpectedResp other))
  | Err e => ret (Err (CancelSend e))
  end.

(** [all_health]. *)
Definition all_health : M W H (gmap WorkloadKind (option WorkerHealth)) :=
  do s <- get; ret (mc_last_health <$> st_children s).

(** The marking pass of [reap_and_restart] over the children. *)
Fixpoint reap_scan (kinds : list WorkloadKind) : M W H (list WorkloadKind) :=
  match kinds with
  | [] => ret []
  | kind :: kinds' =>
      do s <- get;
      match st_children s !! kind with
      | None => reap_scan kinds'
      | Some mc =>
          do alive <- is_alive (mc_handle mc);
          if alive : bool then reap_scan kinds' else
          do waiting <- match mc_backoff_until mc with
                        | Some until => do t <- now; ret (t <? until)%Z
                        | None => ret false
                        end;
          if waiting : bool then reap_scan kinds' else
          do t <- now;
          let attempts := (mc_restart_attempts mc + 1)%Z in
          let mc' := mkManaged (mc_handle mc) (mc_socket_path mc) (mc_last_health mc)
                       (mc_last_health_at mc) attempts
                       (Some (t + backoff_for_attempt attempts))%Z in
          do s <- get;
          do _ <- modify (set_children (<[kind := mc']> (st_children s)));
          do rest <- reap_scan kinds';
          ret (kind :: rest)
      end
  end.

(** [for kind in ks { f kind }]. *)
Fixpoint for_each (f : WorkloadKind → M W H unit) (ks : list WorkloadKind) : M W H unit :=
  match ks with
  | [] => ret tt
  | k :: ks' => do _ <- f k; for_each f ks'
  end.

Definition reap_and_restart : M W H unit :=
  do s <- get;
  do to_respawn <- reap_scan (hash_order (st_children s));
  for_each (fun kind => do _ <- ensure_spawned kind; ret tt) to_respawn.

Definition probe_child (kind : WorkloadKind) : M W H unit :=
  do socket <- socket_for kind;
  do r <- worker_request socket Health HEALTH_PROBE_TIMEOUT;
  match r with Ok (RHealth h) => record_health kind h | _ => ret tt end.

Definition poll_once : M W H unit :=
  do s <- get;
  do _ <- for_each probe_child (hash_order (st_children s));
  reap_and_restart.

(** [children.values().any(is_alive)], stopping at the first live one. *)
Fixpoint any_alive (ks : list WorkloadKind) : M W H bool :=
  match ks with
  | [] => ret false
  | k :: ks' =>
      do s <- get;
      match st_children s !! k with
      | None => any_alive ks'
      | Some mc => do a <- is_alive (mc_handle mc); if a : bool then ret true else any_alive ks'
      end
  end.

(** The wait of [shutdown]: [true] when every child was seen dead. *)
Fixpoint shutdown_wait (fuel : nat) (deadline : Duration) (start : Instant) : M W H bool :=
  match fuel with
  | O => fun _ => None
  | S fuel' =>
      do t <- now;
      if (t - start <? deadline)%Z then
        do s <- get;
        do a <- any_alive (hash_order (st_children s));
        if a : bool then do _ <- sleep SHUTDOWN_POLL; shutdown_wait fuel' deadline start
        else ret true
      else ret false
  end.

Definition kill_if_alive (k : WorkloadKind) : M W H unit :=
  do s <- get;
  match st_children s !! k with
  | None => ret tt
  | Some mc => do a <- is_alive (mc_handle mc); if a : bool then terminate (mc_handle mc) else ret tt
  end.

Definition shutdown (deadline : Duration) : M W H unit :=
  do s <- get;
  let kinds := hash_order (st_children s) in
  do _ <- modify (set_gauge (foldr (fun k g => <[k := false]> g) (st_gauge s) KINDS));
  do _ <- for_each (fun k =>
            do socket <- socket_for k;
            do _ <- worker_request socket Shutdown HEALTH_PROBE_TIMEOUT; ret tt) kinds;
  do start <- now;
  do gone <- shutdown_wait (turns deadline SHUTDOWN_POLL) deadline start;
  if gone : bool then ret tt
  else do s <- get; for_each kill_if_alive (hash_order (st_children s)).

(** [Supervisor::with_spawn], and the calls its owner makes. *)
Definition with_spawn (w : W) : St W H := mkSt w ∅ WarmPool.with_clock ∅ [].

Inductive Op : Type :=
| OpEnsure (kind : WorkloadKind) (deadline : Duration)
| OpRunBatch (kind : WorkloadKind) (inputs : list WorkloadInput)
| OpCancel (kind : WorkloadKind) (request_id : Ulid)
| OpPollOnce
| OpShutdown (deadline : Duration).

Definition exec (op : Op) : M W H unit :=
  match op with
  | OpEnsure k d => do _ <- ensure k d; ret tt
  | OpRunBatch k ins => do _ <- run_batch k ins; ret tt
  | OpCancel k i => do _ <- cancel k i; ret tt
  | OpPollOnce => poll_once
  | OpShutdown d => shutdown d
  end.

Fixpoint exec_all (ops : list Op) : M W H unit :=
  match ops with
  | [] => ret tt
  | op :: ops' => do _ <- exec op; exec_all ops'
  end.

End operations.

Create HintDb kept.

(** ** Total-correctness triples *)

(** [m] finishes from [s] with a result that satisfies [Q]. *)
Definition wp {W H A} (m : M W H A) (Q : A → St W H → Prop) (s : St W H) : Prop :=
  match m s with Some (a, s') => Q a s' | None => False end.

Section triples.
Context {W H : Type} `{!World W H}.
Implicit Types (s : St W H).

Lemma wp_mono {A} (m : M W H A) (P Q : A → St W H → Prop) s :
  wp m P s → (∀ a s', P a s' → Q a s') → wp m Q s.
Proof. unfold wp. destruct (m s) as [[]|]; auto. Qed.

Lemma wp_bind {A B} (m : M W H A) (k : A → M W H B) Q s :
  wp m (λ a s', wp (k a) Q s') s → wp (bind m k) Q s.
Proof. unfold wp, bind. by destruct (m s) as [[]|]. Qed.

Lemma wp_ebind {A B} (m : E W H A) (k : A → E W H B) Q s :
  wp m (λ r s', match r with Ok a => wp (k a) Q s' | Err e => Q (Err e) s' end) s →
  wp (ebind m k) Q s.
Proof.
  intros Hm. apply wp_bind. eapply wp_mono; [exact Hm|].
  intros [a|e] s' Ha; [exact Ha|exact Ha].
Qed.

Lemma wp_ret {A} (a : A) (Q : A → St W H → Prop) s : Q a s → wp (ret a) Q s.
Proof. done. Qed.

Lemma wp_get (Q : St W H → St W H → Prop) s : Q s s → wp get Q s.
Proof. done. Qed.

Lemma wp_modify f (Q : unit → St W H → Prop) s : Q tt (f s) → wp (modify f) Q s.
Proof. done. Qed.

Lemma wp_sys {A} (f : W → A * W) (Q : A → St W H → Prop) s :
  Q (f (st_world s)).1 (set_world (f (st_world s)).2 s) → wp (sys f) Q s.
Proof. done. Qed.

Lemma wp_and {A} (m : M W H A) (P Q : A → St W H → Prop) s :
  wp m P s → wp m Q s → wp m (λ a s', P a s' ∧ Q a s') s.
Proof. unfold wp. by destruct (m s) as [[]|]. Qed.

Lemma wp_some {A} (m : M W H A) Q s :
  wp m Q s → ∃ a s', m s = Some (a, s') ∧ Q a s'.
Proof. unfold wp. destruct (m s) as [[a s']|]; [|done]. eauto. Qed.

End triples.

(** Stepping through the program text. *)
Ltac wp_step :=
  match goal with
  | |- wp (bind _ _) _ _ => apply wp_bind
  | |- wp (ebind _ _) _ _ => apply wp_ebind
  | |- wp (ret _) _ _ => apply wp_ret
  | |- wp get _ _ => apply wp_get
  | |- wp (modify _) _ _ => apply wp_modify
  | |- wp (sys _) _ _ => apply wp_sys
  end.
(** Chaining the steps of a preorder found in the context. *)
Ltac chain := cbv beta in *; repeat first [eassumption | etrans; [eassumption|]].
Ltac wp_steps := repeat wp_step; cbv beta.

(** ** What every operation keeps *)

Section kept.
Context {W H : Type} `{!World W H} `{!WorldLaws W H}.
Context (runtime_dir : string) (hash_order : gmap WorkloadKind (Managed H) → list WorkloadKind).
Implicit Types (s : St W H).

#[export] Instance evolves_refl : Reflexive (evolves (W := W) (H := H)).
Proof. split; [lia|done]. Qed.
#[export] Instance evolves_trans : Transitive (evolves (W := W) (H := H)).
Proof. intros w1 w2 w3 [? ?] [? ?]. split; [lia|auto]. Qed.

Abbreviation clock s := (w_clock (H := H) (st_world s)).
Abbreviation dead h s := (w_dead h (st_world s)).

(** Any [RunBatch] goes out under the nil id. *)
Definition nil_batch (a : Action H) : Prop :=
  match a with ARequest _ (RunBatch i _) _ => i = Ulid_nil | _ => True end.

(** Each child either carries no restart bookkeeping or, for the kinds of
    [X], is dead. *)
Definition fresh_but (X : list WorkloadKind) s : Prop := ∀ k mc,
  st_children s !! k = Some mc →
  (mc_restart_attempts mc = 0%Z ∧ mc_backoff_until mc = None) ∨ (k ∈ X ∧ dead (mc_handle mc) s).

(** From [s] to [s']: time passed, the log grew by unidentified batches only,
    and no restart bookkeeping appeared. *)
Record keeps s s' : Prop := {
  keeps_world : evolves (H := H) (st_world s) (st_world s');
  keeps_log : ∃ acts, st_log s' = st_log s ++ acts ∧ Forall nil_batch acts;
  keeps_fresh X : fresh_but X s → fresh_but X s';
}.

#[export] Instance keeps_refl : Reflexive keeps.
Proof. intros s. split; [done| |done]. exists []. by rewrite app_nil_r. Qed.
#[export] Instance keeps_trans : Transitive keeps.
Proof.
  intros s1 s2 s3 [? (l1 & E1 & ?) ?] [? (l2 & E2 & ?) ?]. split; [by etrans| |auto].
  exists (l1 ++ l2). rewrite E2, E1, app_assoc. split; [done|by apply Forall_app].
Qed.

Lemma keeps_set_world s w : evolves (H := H) (st_world s) w → keeps s (set_world w s).
Proof.
  intros Hw. split; [done| |].
  - exists []. by rewrite app_nil_r.
  - intros X HX k mc E. destruct (HX k mc E) as [?|[? ?]]; [by left|]. right.
    split; [done|]. by apply Hw.
Qed.

Lemma keeps_log_action s a : nil_batch a → keeps s (log a s).
Proof. intros Ha. split; [done| |done]. exists [a]. split; [done|by repeat constructor]. Qed.

Lemma keeps_delete s k : keeps s (set_children (delete k (st_children s)) s).
Proof.
  split; [done| |].
  - exists []. by rewrite app_nil_r.
  - intros X HX k' mc. simpl. rewrite lookup_delete_Some. intros [_ E]. by apply HX.
Qed.

Lemma keeps_insert s k mc :
  (mc_restart_attempts mc = 0%Z ∧ mc_backoff_until mc = None ∨
   ∃ mc0, st_children s !! k = Some mc0 ∧ mc_handle mc = mc_handle mc0 ∧
          mc_restart_attempts mc = mc_restart_attempts mc0 ∧
          mc_backoff_until mc = mc_backoff_until mc0) →
  keeps s (set_children (<[k := mc]> (st_children s)) s).
Proof.
  intros Hmc. split; [done| |].
  - exists []. by rewrite app_nil_r.
  - intros X HX k' mc'. simpl. destruct (decide (k' = k)) as [->|].
    + rewrite lookup_insert_eq. intros [= <-]. destruct Hmc as [?|(mc0 & E & E1 & E2 & E3)]; [by left|].
      rewrite E1, E2, E3. by apply HX.
    + rewrite lookup_insert_ne by done. apply HX.
Qed.

Lemma wp_now Q s :
  (∀ t s', (clock s <= t <= clock s')%Z → keeps s s' → st_children s' = st_children s →
           st_log s' = st_log s → Q t s') → wp now Q s.
Proof.
  intros HQ. apply wp_sys. destruct (w_now_spec (H := H) (st_world s)).
  apply HQ; try done. by apply keeps_set_world.
Qed.

Lemma wp_sleep d Q s :
  (∀ s', (clock s + d <= clock s')%Z → keeps s s' → st_children s' = st_children s →
         st_log s' = st_log s → Q tt s') → wp (sleep d) Q s.
Proof.
  intros HQ. apply wp_sys. destruct (w_sleep_spec (H := H) d (st_world s)).
  apply HQ; try done. by apply keeps_set_world.
Qed.

Lemma wp_is_alive h Q s :
  (∀ a s', (a = false → dead h s') → keeps s s' → st_children s' = st_children s →
           st_log s' = st_log s → (dead h s → a = false) → Q a s') → wp (is_alive h) Q s.
Proof.
  intros HQ. apply wp_sys. destruct (w_is_alive_spec h (st_world s)) as (? & ? & ?).
  apply HQ; try done. by apply keeps_set_world.
Qed.

Lemma wp_path_exists p Q s :
  (∀ a s', keeps s s' → st_children s' = st_children s → st_log s' = st_log s → Q a s') →
  wp (path_exists p) Q s.
Proof.
  intros HQ. apply wp_sys. apply HQ; try done.
  apply keeps_set_world, (w_path_exists_spec (H := H)).
Qed.

Lemma wp_worker_request sock req d Q s :
  nil_batch (ARequest sock req (Err WorkerDown)) →
  (∀ r s', keeps s s' → st_children s' = st_children s →
           st_log s' = st_log s ++ [ARequest sock req r] → Q r s') →
  wp (worker_request sock req d) Q s.
Proof.
  intros Hn HQ. unfold worker_request. wp_steps. apply HQ; try done.
  etrans; [apply keeps_set_world, (w_request_spec (H := H))|]. by apply keeps_log_action.
Qed.

Lemma wp_spawn_child kind sock Q s :
  (∀ r s', keeps s s' → st_children s' = st_children s →
           st_log s' = st_log s ++ [ASpawn kind r] → Q r s') →
  wp (spawn_child kind sock) Q s.
Proof.
  intros HQ. unfold spawn_child. wp_steps. apply HQ; try done.
  etrans; [apply keeps_set_world, w_spawn_spec|]. by apply keeps_log_action.
Qed.

Lemma wp_terminate h Q s :
  (∀ s', dead h s' → keeps s s' → st_children s' = st_children s →
         st_log s' = st_log s ++ [ATerminate h] → Q tt s') → wp (terminate h) Q s.
Proof.
  intros HQ. unfold terminate. wp_steps.
  destruct (w_terminate_spec h (st_world s)). apply HQ; try done.
  etrans; [by apply keeps_set_world|]. by apply keeps_log_action.
Qed.

(** ** Fuel *)

Definition fuel_ok (fuel : nat) (deadline poll : Duration) (start : Instant) s : Prop :=
  1 <= fuel ∧ (deadline <= clock s - start + (Z.of_nat fuel - 1) * poll)%Z.

Lemma fuel_ok_turns d p start s :
  (0 < p)%Z → (start <= clock s)%Z → fuel_ok (turns d p) d p start s.
Proof.
  intros Hp Hs. unfold turns. split; [lia|].
  pose proof (Z.mul_succ_div_gt d p Hp).
  assert (d / p <= Z.of_nat (Z.to_nat (d / p)))%Z by lia. nia.
Qed.

Lemma fuel_ok_next f d p start t s s' :
  fuel_ok (S f) d p start s → (0 < p)%Z → (clock s <= t)%Z → (t - start < d)%Z →
  (t + p <= clock s')%Z → fuel_ok f d p start s'.
Proof. intros [_ Hd] Hp Ht Hlt Hs. assert (f ≠ 0) by nia. split; [lia|nia]. Qed.

Lemma fuel_ok_not_0 d p start s : ¬ fuel_ok 0 d p start s.
Proof. intros [? _]. lia. Qed.

(** [Q] holds of every final state the operation keeps. *)
Definition kept {A} (m : M W H A) : Prop := ∀ s, wp m (λ _ s', keeps s s') s.

Lemma kept_ret {A} (a : A) : kept (ret a).
Proof. intros s. apply wp_ret. reflexivity. Qed.
Lemma kept_bind {A B} (m : M W H A) (k : A → M W H B) :
  kept m → (∀ a, kept (k a)) → kept (bind m k).
Proof.
  intros Hm Hk s. apply wp_bind. eapply wp_mono; [apply Hm|]. intros a s1 H1.
  eapply wp_mono; [apply Hk|]. intros b s2 H2. chain.
Qed.

Lemma kept_ebind {A B} (m : E W H A) (k : A → E W H B) :
  kept m → (∀ a, kept (k a)) → kept (ebind m k).
Proof. intros Hm Hk. apply kept_bind; [done|]. intros [a|e]; [apply Hk|]. apply kept_ret. Qed.

Lemma kept_get : kept get.
Proof. intros s. apply wp_get. reflexivity. Qed.
Lemma kept_now : kept now.
Proof. intros s. apply wp_now. auto. Qed.
Lemma kept_is_alive h : kept (is_alive h).
Proof. intros s. apply wp_is_alive. auto. Qed.
Lemma kept_worker_request sock req d :
  nil_batch (ARequest sock req (Err WorkerDown)) → kept (worker_request sock req d).
Proof. intros ? s. apply wp_worker_request; auto. Qed.
Lemma kept_terminate h : kept (terminate h).
Proof. intros s. apply wp_terminate. auto. Qed.
Lemma kept_set_pool f : kept (do s <- get; modify (set_pool (f s)))%sy.
Proof.
  intros s. unfold wp, bind, get, modify. split; [done| |done]. exists []. by rewrite app_nil_r.
Qed.
Lemma kept_set_gauge f : kept (do s <- get; modify (set_gauge (f s)))%sy.
Proof.
  intros s. unfold wp, bind, get, modify. split; [done| |done]. exists []. by rewrite app_nil_r.
Qed.

(** ** Spawning *)

(** [respawn] drops the old record first: afterwards the kind is either not
    managed, or managed by a fresh record. *)
Definition managed_afresh (k : WorkloadKind) s : Prop :=
  ∀ mc, st_children s !! k = Some mc →
  mc_restart_attempts mc = 0%Z ∧ mc_backoff_until mc = None.

Lemma fresh_but_done k X s : fresh_but (k :: X) s → managed_afresh k s → fresh_but X s.
Proof.
  intros HX Hk k' mc E. destruct (HX k' mc E) as [?|[[->|?]%elem_of_cons ?]]; [by left| |by right].
  left. by apply Hk.
Qed.

Lemma wp_wait_for_socket_children path d s :
  wp (wait_for_socket path d) (λ _ s', keeps s s' ∧ st_children s' = st_children s) s.
Proof.
  unfold wait_for_socket. apply wp_bind, wp_now. intros t s1 Ht K1 E1 _.
  assert (Hf : fuel_ok (turns d SOCKET_BIND_POLL) d SOCKET_BIND_POLL t s1)
    by (apply fuel_ok_turns; done || lia).
  revert Hf. clear Ht. generalize (turns d SOCKET_BIND_POLL). intros fuel Hf.
  rewrite <- E1.
  assert (Hg : wp (wait_for_socket_loop fuel path d t)
    (λ _ s', keeps s1 s' ∧ st_children s' = st_children s1) s1).
  { clear K1 E1. revert s1 Hf. induction fuel as [|fuel IH]; intros s1 Hf;
      [by apply fuel_ok_not_0 in Hf|].
    simpl. apply wp_bind, wp_now. intros t' s2 Ht K2 E2 _.
    destruct (Z.ltb_spec (t' - t) d); [|by apply wp_ret].
    apply wp_bind, wp_path_exists. intros e s3 K3 E3 _.
    destruct e; [apply wp_ret; split; [chain|congruence]|].
    apply wp_bind, wp_sleep. intros s4 Hs K4 E4 _.
    pose proof (proj1 (keeps_world _ _ K3)).
    eapply wp_mono; [apply IH, (fuel_ok_next _ _ _ _ t' s1); done || lia|].
    intros ? s5 [K5 E5]. split; [chain|congruence]. }
  eapply wp_mono; [exact Hg|]. intros ? s2 [K2 E2]. split; [chain|done].
Qed.

Lemma wp_respawn k s :
  wp (respawn runtime_dir k) (λ r s',
    keeps s s' ∧ managed_afresh k s' ∧
    (∀ k', k' ≠ k → st_children s' !! k' = st_children s !! k') ∧
    match r with Ok _ => is_Some (st_children s' !! k) | Err _ => st_children s' !! k = None end) s.
Proof.
  unfold respawn. apply wp_bind, wp_get, wp_bind, wp_modify, wp_bind, wp_spawn_child.
  intros r s1 K1 E1 _. simpl in E1. pose proof (keeps_delete s k) as K0.
  destruct r as [h|msg].
  - apply wp_ebind. eapply wp_mono; [apply wp_wait_for_socket_children|].
    intros [[]|e] s2 [K2 E2].
    + apply wp_bind, wp_get, wp_bind, wp_modify, wp_ret.
      assert (K3 := keeps_insert s2 k
        (mkManaged h (worker_socket_path runtime_dir k) None None 0 None) (or_introl (conj eq_refl eq_refl))).
      split; [chain|]. simpl. split_and!.
      * intros mc. simpl. rewrite lookup_insert_eq. by intros [= <-].
      * intros k' Hk. by rewrite lookup_insert_ne, E2, E1, lookup_delete_ne by done.
      * by rewrite lookup_insert_eq.
    + split; [chain|]. rewrite E2, E1. unfold managed_afresh. rewrite E2, E1.
      split_and!; [|intros; by rewrite lookup_delete_ne|by rewrite lookup_delete_eq].
      intros mc. by rewrite lookup_delete_eq.
  - apply wp_ret. unfold managed_afresh. rewrite E1.
    split_and!; [chain| |intros; by rewrite lookup_delete_ne|by rewrite lookup_delete_eq].
    intros mc. by rewrite lookup_delete_eq.
Qed.

(** [ensure_spawned]: nothing happens to a live child; otherwise at most one
    spawn, and on failure the kind is no longer managed. *)
Lemma wp_ensure_spawned k s :
  wp (ensure_spawned runtime_dir k) (λ r s',
    keeps s s' ∧ (∀ X, fresh_but (k :: X) s → fresh_but X s') ∧
    (∀ k', k' ≠ k → st_children s' !! k' = st_children s !! k') ∧
    match r with Ok _ => is_Some (st_children s' !! k) | Err _ => st_children s' !! k = None end) s.
Proof.
  unfold ensure_spawned. apply wp_bind, wp_get. cbv beta.
  destruct (st_children s !! k) as [mc|] eqn:Ek.
  - apply wp_bind, wp_is_alive. intros a s1 Ha K1 E1 _ Hd. destruct a.
    + apply wp_ret. rewrite E1, Ek. split_and!; [done| |done|by eexists].
      intros X HX. apply (fresh_but_done k); [by apply K1|].
      intros mc' E'. rewrite E1, Ek in E'. injection E' as <-.
      destruct (HX k mc Ek) as [?|[_ Hdead]]; [done|]. by specialize (Hd Hdead).
    + eapply wp_mono; [apply wp_respawn|]. intros r s2 (K2 & Hf & Ho & Hr).
      rewrite E1 in Ho. split_and!; [chain| |done|done].
      intros X HX. apply (fresh_but_done k); [|done]. by apply K2, K1.
  - eapply wp_mono; [apply wp_respawn|]. intros r s2 (K2 & Hf & Ho & Hr).
    split_and!; [done| |done|done]. intros X HX. apply (fresh_but_done k); [|done]. by apply K2.
Qed.

Lemma kept_ensure_spawned k : kept (ensure_spawned runtime_dir k).
Proof. intros s. eapply wp_mono; [apply wp_ensure_spawned|]. by intros ?? (? & _). Qed.

Lemma kept_socket_for k : kept (socket_for runtime_dir k).
Proof. apply kept_bind; [apply kept_get|]. intros. apply kept_ret. Qed.

Lemma kept_record_health k h : kept (record_health k h).
Proof.
  intros s. unfold record_health. apply wp_bind, wp_get. cbv beta.
  destruct (st_children s !! k) as [mc|] eqn:Ek; [|by apply wp_ret].
  apply wp_bind, wp_now. intros t s1 _ K1 E1 _.
  apply wp_bind, wp_get, wp_modify. etrans; [exact K1|]. apply keeps_insert.
  destruct (is_ready _); [by left|]. right. exists mc. by rewrite E1.
Qed.

Lemma record_health_keys k h s :
  wp (record_health k h) (λ _ s', st_log s' = st_log s ∧
    ∀ k', mc_handle <$> st_children s' !! k' = mc_handle <$> st_children s !! k') s.
Proof.
  unfold record_health. apply wp_bind, wp_get. cbv beta.
  destruct (st_children s !! k) as [mc|] eqn:Ek; [|by apply wp_ret].
  apply wp_bind, wp_now. intros t s1 _ K1 E1 El.
  apply wp_bind, wp_get, wp_modify. split; [done|]. intros k'. simpl. rewrite E1.
  destruct (decide (k' = k)) as [->|]; [|by rewrite lookup_insert_ne].
  rewrite lookup_insert_eq, Ek. simpl. by destruct (is_ready _).
Qed.

(** ** The other operations keep the same things *)

Hint Extern 1 (nil_batch _) => done : kept.
Hint Resolve kept_ret kept_get kept_now kept_is_alive kept_terminate kept_worker_request
  kept_ensure_spawned kept_socket_for kept_record_health : kept.
Ltac kept_step :=
  match goal with
  | |- kept (bind _ _) => apply kept_bind
  | |- kept (ebind _ _) => apply kept_ebind
  | |- kept (if ?b then _ else _) => destruct b
  | |- kept (match ?x with _ => _ end) => destruct x
  | |- ∀ _, _ => intros ?
  end.
Ltac kept_auto := repeat kept_step; try done; auto with kept.

(** The last action was a probe that found the worker ready. *)
Definition probed_ready (h : WorkerHealth) s : Prop :=
  is_ready (wh_state h) = true ∧
  ∃ sock, last (st_log s) = Some (ARequest sock Health (Ok (RHealth h))).

Lemma wp_wait_for_ready_loop fuel k d start s :
  fuel_ok fuel d HEALTH_POLL_INTERVAL start s →
  wp (wait_for_ready_loop runtime_dir fuel k d start) (λ r s', keeps s s' ∧
    match r with Ok h => probed_ready h s' | Err _ => True end) s.
Proof.
  revert s. induction fuel as [|fuel IH]; intros s Hf; [by apply fuel_ok_not_0 in Hf|].
  set (Q := λ (r : result WorkerHealth SupError) s', keeps s s' ∧
    match r with Ok h => probed_ready h s' | Err _ => True end).
  simpl. set (tail := bind now _).
  assert (Htail : ∀ s1, keeps s s1 → wp tail Q s1).
  { intros s1 K1. unfold tail. apply wp_bind, wp_now. intros t s2 Ht K2 _ _.
    destruct (Z.leb_spec d (t - start)); [apply wp_ret; split; [chain|done]|].
    apply wp_bind, wp_sleep. intros s3 Hs K3 _ _.
    pose proof (proj1 (keeps_world _ _ K1)).
    eapply wp_mono; [apply IH, (fuel_ok_next _ _ _ _ t s); done || lia|].
    intros r s4 [K4 Hr]. split; [chain|done]. }
  clearbody tail.
  apply wp_bind. eapply wp_mono; [apply kept_socket_for|]. intros sock s1 K1.
  apply wp_bind, wp_worker_request; [done|]. intros r s2 K2 _ L2.
  assert (K02 : keeps s s2) by chain.
  destruct r as [[h|outs|msg| |]|[|msg]];
    try (apply wp_ret; split; [exact K02|done]).
  - apply wp_bind.
    eapply wp_mono; [apply wp_and; [apply kept_record_health|apply record_health_keys]|].
    intros ? s3 [K3 [L3 _]]. assert (K03 : keeps s s3) by chain.
    destruct (wh_state h) eqn:Eh; try (by apply Htail); apply wp_ret; split; try done.
    split; [by rewrite Eh|]. exists sock. by rewrite L3, L2, last_snoc.
  - apply wp_bind, wp_now. intros t s3 _ K3 _ _. assert (K03 : keeps s s3) by chain.
    destruct (t - start <? d)%Z; [by apply Htail|]. by apply wp_ret.
Qed.

Lemma wp_wait_for_ready k d s :
  wp (wait_for_ready runtime_dir k d) (λ r s', keeps s s' ∧
    match r with Ok h => probed_ready h s' | Err _ => True end) s.
Proof.
  unfold wait_for_ready. apply wp_bind, wp_now. intros t s1 Ht K1 _ _.
  eapply wp_mono; [apply wp_wait_for_ready_loop, fuel_ok_turns; done || lia|].
  intros r s2 [K2 Hr]. split; [chain|done].
Qed.

Lemma kept_touch_pool k : kept (touch_pool k).
Proof. apply kept_bind; [apply kept_now|]. intros t. apply kept_set_pool. Qed.

Lemma kept_publish_warm_gauge : kept publish_warm_gauge.
Proof. apply kept_bind; [apply kept_now|]. intros t. apply kept_set_gauge. Qed.

Lemma kept_wait_for_ready k d : kept (wait_for_ready runtime_dir k d).
Proof. intros s. eapply wp_mono; [apply wp_wait_for_ready|]. by intros ?? [? _]. Qed.

Hint Resolve kept_touch_pool kept_publish_warm_gauge kept_wait_for_ready : kept.

Lemma kept_ensure k d : kept (ensure runtime_dir k d).
Proof. unfold ensure. kept_auto. Qed.

Lemma wp_ensure k d s :
  wp (ensure runtime_dir k d) (λ r s', keeps s s' ∧
    match r with Ok h => probed_ready h s' | Err _ => True end) s.
Proof.
  unfold ensure. apply wp_ebind. eapply wp_mono; [apply kept_ensure_spawned|].
  intros [[]|e] s1 K1; [|done]. apply wp_bind. eapply wp_mono; [apply kept_touch_pool|].
  intros ? s2 K2. apply wp_bind. eapply wp_mono; [apply kept_publish_warm_gauge|].
  intros ? s3 K3. eapply wp_mono; [apply wp_wait_for_ready|]. intros r s4 [K4 Hr].
  split; [chain|done].
Qed.

Lemma kept_run_batch k ins : kept (run_batch runtime_dir k ins).
Proof.
  unfold run_batch. apply kept_ebind; [apply kept_ensure|]. intros _. kept_auto.
Qed.

Lemma kept_escalate k : kept (escalate_to_kill runtime_dir k).
Proof. unfold escalate_to_kill. kept_auto. Qed.

Lemma wp_cancel_loop fuel k sock i start s :
  fuel_ok fuel CANCEL_YIELD_DEADLINE CANCEL_POLL_INTERVAL start s →
  wp (cancel_loop fuel k sock i start) (λ y s', keeps s s' ∧
    ∃ acts, st_log s' = st_log s ++ acts ∧
      Forall (λ a, ∃ r, a = ARequest sock Health r) acts ∧
      (∀ k', mc_handle <$> st_children s' !! k' = mc_handle <$> st_children s !! k') ∧
      (y = true → ∃ h, last acts = Some (ARequest sock Health (Ok (RHealth h))) ∧
                       wh_inflight_request_id h ≠ Some i)) s.
Proof.
  revert s. induction fuel as [|fuel IH]; intros s Hf; [by apply fuel_ok_not_0 in Hf|].
  simpl. apply wp_bind, wp_now. intros t s1 Ht K1 C1 L1.
  destruct (Z.ltb_spec (t - start) CANCEL_YIELD_DEADLINE); cycle 1.
  { apply wp_ret. split; [done|]. exists []. rewrite app_nil_r, C1, L1. split_and!; done. }
  apply wp_bind, wp_worker_request; [done|]. intros r s2 K2 C2 L2.
  assert (Hstop : wp (ret (A := bool) false) (λ y s', keeps s s' ∧
    ∃ acts, st_log s' = st_log s ++ acts ∧ Forall (λ a, ∃ r, a = ARequest sock Health r) acts ∧
      (∀ k', mc_handle <$> st_children s' !! k' = mc_handle <$> st_children s !! k') ∧
      (y = true → ∃ h, last acts = Some (ARequest sock Health (Ok (RHealth h))) ∧
                       wh_inflight_request_id h ≠ Some i)) s2).
  { apply wp_ret. split; [chain|]. exists [ARequest sock Health r].
    rewrite L2, L1, C2, C1. split_and!; try done. repeat constructor. by exists r. }
  destruct r as [[h|outs|msg| |]|e]; try exact Hstop. clear Hstop.
  case_decide as Hh.
  - apply wp_bind. eapply wp_mono; [apply wp_and; [apply kept_record_health|apply record_health_keys]|].
    intros ? s3 [K3 [L3 C3]]. apply wp_ret. split; [chain|].
    exists [ARequest sock Health (Ok (RHealth h))]. rewrite L3, L2, L1. split_and!; try done.
    + repeat constructor. by eexists.
    + intros k'. by rewrite C3, C2, C1.
    + intros _. by exists h.
  - apply wp_bind, wp_sleep. intros s3 Hs K3 C3 L3.
    pose proof (proj1 (keeps_world _ _ K2)).
    eapply wp_mono; [apply IH, (fuel_ok_next _ _ _ _ t s); done || lia|].
    intros y s4 (K4 & acts & L4 & Hall & C4 & Hy). split; [chain|].
    exists (ARequest sock Health (Ok (RHealth h)) :: acts).
    rewrite L4, L3, L2, L1, <- app_assoc. split_and!; try done.
    + constructor; [by eexists|done].
    + intros k'. by rewrite C4, C3, C2, C1.
    + intros Ey. destruct (Hy Ey) as (h' & Hl & ?). exists h'. split; [|done].
      by destruct acts.
Qed.

Lemma kept_for_each f ks : (∀ k, kept (f k)) → kept (for_each f ks).
Proof. intros Hf. induction ks; simpl; kept_auto. Qed.

(** The marking pass touches dead children only. *)
Lemma wp_reap_scan ks X s :
  fresh_but X s →
  wp (reap_scan ks) (λ L s', evolves (H := H) (st_world s) (st_world s') ∧
    st_log s' = st_log s ∧ fresh_but (L ++ X) s') s.
Proof.
  revert X s. induction ks as [|k ks IH]; intros X s HX; [by apply wp_ret|].
  simpl. apply wp_bind, wp_get. cbv beta. destruct (st_children s !! k) as [mc|] eqn:Ek; [|by apply IH].
  apply wp_bind, wp_is_alive. intros a s1 Ha K1 C1 L1 _. cbv beta. destruct a.
  { eapply wp_mono; [apply IH; by apply K1|]. intros L s2 (? & ? & ?).
    split_and!; [etrans; [apply K1|done]|congruence|done]. }
  apply wp_bind. eapply (wp_mono _ (λ _ s2, keeps s1 s2 ∧ st_children s2 = st_children s1 ∧ st_log s2 = st_log s1)).
  { destruct (mc_backoff_until mc).
    - apply wp_bind, wp_now. intros t s2 _ K2 C2 L2. by apply wp_ret.
    - apply wp_ret. done. }
  intros waiting s2 (K2 & C2 & L2). cbv beta.
  assert (K02 : keeps s s2) by chain. destruct waiting.
  { eapply wp_mono; [apply IH; by apply K02|]. intros L s3 (? & ? & ?).
    split_and!; [etrans; [apply K02|done]|congruence|done]. }
  apply wp_bind, wp_now. intros t s3 _ K3 C3 L3. assert (K03 : keeps s s3) by chain.
  apply wp_bind, wp_get, wp_bind, wp_modify, wp_bind.
  eapply wp_mono; [apply (IH (k :: X))|].
  - intros k' mc'. simpl. destruct (decide (k' = k)) as [->|Hne].
    + rewrite lookup_insert_eq. intros [= <-]. right. split; [left|]. simpl.
      apply (keeps_world _ _ K3), (keeps_world _ _ K2). auto.
    + rewrite lookup_insert_ne by done. intros E. destruct (keeps_fresh _ _ K03 X HX k' mc' E) as [?|[? ?]].
      * by left.
      * right. split; [by right|done].
  - intros L s4 (? & ? & HL). apply wp_ret. split_and!.
    + etrans; [apply K03|done].
    + simpl in *. congruence.
    + intros k' mc' E. destruct (HL k' mc' E) as [?|[Hin ?]]; [by left|]. right. split; [|done].
      set_solver.
Qed.

Lemma wp_reap_and_restart s :
  fresh_but [] s →
  wp (reap_and_restart runtime_dir hash_order) (λ _ s', fresh_but [] s' ∧
    ∃ acts, st_log s' = st_log s ++ acts ∧ Forall nil_batch acts) s.
Proof.
  intros Hs. unfold reap_and_restart. apply wp_bind, wp_get, wp_bind.
  eapply wp_mono; [by apply wp_reap_scan|]. intros L s1 (_ & L1 & H1). rewrite app_nil_r in H1.
  rewrite <- L1. clear L1 Hs. revert s1 H1. induction L as [|k L IH]; intros s1 H1.
  { split; [done|]. exists []. by rewrite app_nil_r. }
  simpl. apply wp_bind, wp_bind. eapply wp_mono; [apply wp_ensure_spawned|].
  intros r s2 (K2 & Hf & _ & _). apply wp_ret. cbv beta.
  eapply wp_mono; [apply IH, Hf, H1|]. intros ? s3 (? & l3 & L3 & ?). split; [done|].
  destruct (keeps_log _ _ K2) as (l2 & L2 & ?). exists (l2 ++ l3).
  rewrite L3, L2, app_assoc. split; [done|by apply Forall_app].
Qed.

Lemma kept_probe_child k : kept (probe_child runtime_dir k).
Proof. unfold probe_child. kept_auto. Qed.

Lemma kept_cancel k i : kept (cancel runtime_dir k i).
Proof.
  unfold cancel. apply kept_bind; [apply kept_socket_for|]. intros sock.
  apply kept_bind; [by apply kept_worker_request|]. intros r. kept_step; [|kept_auto].
  destruct a; try apply kept_ret. intros s. apply wp_bind, wp_now. intros t s1 Ht K1 _ _.
  apply wp_bind. eapply wp_mono; [apply wp_cancel_loop, fuel_ok_turns; done || lia|].
  intros y s2 [K2 _]. cbv beta. destruct y; [apply wp_ret; chain|].
  apply wp_bind. eapply wp_mono; [apply kept_escalate|]. intros ? s3 K3. apply wp_ret. chain.
Qed.

(** ** Shutdown *)
Lemma wp_any_alive ks s :
  wp (any_alive ks) (λ a s', keeps s s' ∧ st_children s' = st_children s ∧
    (a = false → ∀ k mc, k ∈ ks → st_children s' !! k = Some mc → dead (mc_handle mc) s')) s.
Proof.
  revert s. induction ks as [|k ks IH]; intros s.
  { apply wp_ret. split_and!; [done..|]. by intros _ k mc ?%not_elem_of_nil. }
  simpl. apply wp_bind, wp_get. cbv beta. destruct (st_children s !! k) as [mc|] eqn:Ek.
  - apply wp_bind, wp_is_alive. intros a s1 Ha K1 C1 _ _. cbv beta. destruct a; [by apply wp_ret|].
    eapply wp_mono; [apply IH|]. intros a s2 (K2 & C2 & H2). split_and!; [chain|congruence|].
    intros Ea k' mc' [->|Hk]%elem_of_cons E; [|by eapply H2].
    assert (mc' = mc) as -> by congruence. apply (keeps_world _ _ K2). auto.
  - eapply wp_mono; [apply IH|]. intros a s2 (K2 & C2 & H2). split_and!; [done..|].
    intros Ea k' mc' [->|Hk]%elem_of_cons E; [congruence|by eapply H2].
Qed.

Lemma wp_kill_if_alive k s :
  wp (kill_if_alive k) (λ _ s', keeps s s' ∧ st_children s' = st_children s ∧
    ∀ mc, st_children s' !! k = Some mc → dead (mc_handle mc) s') s.
Proof.
  unfold kill_if_alive. apply wp_bind, wp_get. cbv beta.
  destruct (st_children s !! k) as [mc|] eqn:Ek; [|apply wp_ret; by split_and!; [| |congruence]].
  apply wp_bind, wp_is_alive. intros a s1 Ha K1 C1 _ _. cbv beta. destruct a.
  - apply wp_terminate. intros s2 Hd K2 C2 _. split_and!; [chain|congruence|].
    intros mc' E. by assert (mc' = mc) as -> by congruence.
  - apply wp_ret. split_and!; [done..|]. intros mc' E.
    assert (mc' = mc) as -> by congruence. auto.
Qed.

Lemma wp_kill_all ks s :
  wp (for_each kill_if_alive ks) (λ _ s', keeps s s' ∧ st_children s' = st_children s ∧
    ∀ k mc, k ∈ ks → st_children s' !! k = Some mc → dead (mc_handle mc) s') s.
Proof.
  revert s. induction ks as [|k ks IH]; intros s.
  { apply wp_ret. split_and!; [done..|]. by intros k mc ?%not_elem_of_nil. }
  simpl. apply wp_bind. eapply wp_mono; [apply wp_kill_if_alive|].
  intros ? s1 (K1 & C1 & H1). eapply wp_mono; [apply IH|]. intros ? s2 (K2 & C2 & H2).
  split_and!; [chain|congruence|]. intros k' mc [->|Hk]%elem_of_cons E; [|by eapply H2].
  apply (keeps_world _ _ K2), H1. congruence.
Qed.

Lemma wp_shutdown_wait fuel d start s :
  (∀ m k, k ∈ hash_order m ↔ is_Some (m !! k)) →
  fuel_ok fuel d SHUTDOWN_POLL start s →
  wp (shutdown_wait hash_order fuel d start) (λ gone s', keeps s s' ∧
    (gone = true → ∀ k mc, st_children s' !! k = Some mc → dead (mc_handle mc) s')) s.
Proof.
  intros Hord. revert s. induction fuel as [|fuel IH]; intros s Hf; [by apply fuel_ok_not_0 in Hf|].
  simpl. apply wp_bind, wp_now. intros t s1 Ht K1 _ _.
  destruct (Z.ltb_spec (t - start) d); [|by apply wp_ret].
  apply wp_bind, wp_get, wp_bind. eapply wp_mono; [apply wp_any_alive|].
  intros a s2 (K2 & C2 & H2). cbv beta. destruct a.
  - apply wp_bind, wp_sleep. intros s3 Hs K3 _ _. pose proof (proj1 (keeps_world _ _ K2)).
    eapply wp_mono; [apply IH, (fuel_ok_next _ _ _ _ t s); done || lia|].
    intros g s4 [K4 H4]. split; [chain|done].
  - apply wp_ret. split; [chain|]. intros _ k mc E. apply (H2 eq_refl k); [|done].
    apply Hord. rewrite <- C2. by eexists.
Qed.

Lemma wp_shutdown d s :
  (∀ m k, k ∈ hash_order m ↔ is_Some (m !! k)) →
  wp (shutdown runtime_dir hash_order d) (λ _ s', keeps s s' ∧
    ∀ k mc, st_children s' !! k = Some mc → dead (mc_handle mc) s') s.
Proof.
  intros Hord. unfold shutdown. apply wp_bind, wp_get. cbv beta zeta.
  match goal with |- wp (bind (modify (set_gauge ?g)) _) _ _ => assert (K1 : keeps s (set_gauge g s)) end.
  { split; [done| |done]. exists []. by rewrite app_nil_r. }
  apply wp_bind, wp_modify, wp_bind. eapply wp_mono; [apply kept_for_each; kept_auto|].
  intros ? s2 K2. apply wp_bind, wp_now. intros t s3 Ht K3 _ _. apply wp_bind.
  eapply wp_mono; [apply wp_shutdown_wait, fuel_ok_turns; done || lia|].
  intros gone s4 [K4 H4]. cbv beta. destruct gone; [apply wp_ret; split; [chain|by apply H4]|].
  apply wp_bind, wp_get. eapply wp_mono; [apply wp_kill_all|].
  intros ? s5 (K5 & C5 & H5). split; [chain|]. intros k mc E. apply (H5 k); [|done].
  apply Hord. rewrite <- C5. by eexists.
Qed.

Lemma wp_exec op s :
  (∀ m k, k ∈ hash_order m ↔ is_Some (m !! k)) → fresh_but [] s →
  wp (exec runtime_dir hash_order op) (λ _ s', fresh_but [] s' ∧
    ∃ acts, st_log s' = st_log s ++ acts ∧ Forall nil_batch acts) s.
Proof.
  intros Hord Hs.
  assert (Hk : ∀ m : M W H unit, kept m → wp m (λ _ s', fresh_but [] s' ∧
    ∃ acts, st_log s' = st_log s ++ acts ∧ Forall nil_batch acts) s).
  { intros m Hm. eapply wp_mono; [apply Hm|]. intros ? s' K. split; [by apply K|apply K]. }
  destruct op as [k d|k ins|k i| |d]; simpl.
  - apply Hk, kept_bind; [apply kept_ensure|intros; apply kept_ret].
  - apply Hk, kept_bind; [apply kept_run_batch|intros; apply kept_ret].
  - apply Hk, kept_bind; [apply kept_cancel|intros; apply kept_ret].
  - unfold poll_once. apply wp_bind, wp_get, wp_bind.
    eapply wp_mono; [apply kept_for_each, kept_probe_child|]. intros ? s1 K1.
    eapply wp_mono; [apply wp_reap_and_restart; by apply K1|].
    intros ? s2 (? & l2 & L2 & ?). split; [done|]. destruct (keeps_log _ _ K1) as (l1 & L1 & ?).
    exists (l1 ++ l2). rewrite L2, L1, app_assoc. split; [done|by apply Forall_app].
  - apply Hk. intros s'. eapply wp_mono; [by apply wp_shutdown|]. by intros ?? [? _].
Qed.

End kept.

(** ** Properties *)

Section properties.
Context {W H : Type} `{!World W H} `{!WorldLaws W H}.
Context (runtime_dir : string).
Implicit Types (s : St W H).

(** [cancel] on every outcome: it returns [Ok] only when a health reply
    showed another id, or none, in flight, and then it has terminated nobody;
    when the worker does not yield it terminates the child the kind had, which
    is dead when [cancel] returns; any other error terminates nobody. *)
Theorem cancel_outcome k i s :
  ∃ r s' acts, cancel runtime_dir k i s = Some (r, s') ∧ st_log s' = st_log s ++ acts ∧
    match r with
    | Ok _ => (∀ h, ATerminate h ∉ acts) ∧
        ∃ sock h, last acts = Some (ARequest sock Health (Ok (RHealth h))) ∧
                  wh_inflight_request_id h ≠ Some i
    | Err DidNotYield => ∀ mc, st_children s !! k = Some mc →
        ATerminate (mc_handle mc) ∈ acts ∧ w_dead (mc_handle mc) (st_world s')
    | Err _ => ∀ h, ATerminate h ∉ acts
    end.
Proof.
  cut (wp (cancel runtime_dir k i) (λ r s', ∃ acts, st_log s' = st_log s ++ acts ∧
    match r with
    | Ok _ => (∀ h, ATerminate h ∉ acts) ∧
        ∃ sock h, last acts = Some (ARequest sock Health (Ok (RHealth h))) ∧
                  wh_inflight_request_id h ≠ Some i
    | Err DidNotYield => ∀ mc, st_children s !! k = Some mc →
        ATerminate (mc_handle mc) ∈ acts ∧ w_dead (mc_handle mc) (st_world s')
    | Err _ => ∀ h, ATerminate h ∉ acts
    end) s).
  { intros (r & s' & E & acts & ?)%wp_some. eauto. }
  unfold cancel. apply wp_bind. unfold socket_for at 1. apply wp_bind, wp_get, wp_ret.
  set (sock := match st_children s !! k with Some _ => _ | None => _ end).
  apply wp_bind, wp_worker_request; [done|]. intros r s1 K1 C1 L1.
  assert (Hother : ∀ h : H, ATerminate h ∉ [ARequest sock (Cancel i) r]) by set_solver.
  destruct r as [[h|outs|msg| |]|e]; try (apply wp_ret; eauto).
  apply wp_bind, wp_now. intros t s2 Ht K2 C2 L2. apply wp_bind.
  eapply wp_mono; [apply wp_cancel_loop, fuel_ok_turns; done || lia|].
  intros y s3 (K3 & acts & L3 & Hacts & C3 & Hy). cbv beta.
  assert (Hnt : ∀ h, ATerminate h ∉ ARequest sock (Cancel i) (Ok RCancelAck) :: acts).
  { intros h [?|Hin]%elem_of_cons; [done|].
    rewrite Forall_forall in Hacts. by destruct (Hacts _ Hin) as [? [=]]. }
  rewrite L2, L1, <- app_assoc in L3. destruct y.
  - apply wp_ret. eexists. split; [exact L3|]. split; [exact Hnt|].
    destruct (Hy eq_refl) as (h & Hl & ?). exists sock, h. split; [|done]. by destruct acts.
  - apply wp_bind. unfold escalate_to_kill. apply wp_bind, wp_get, wp_bind. cbv beta.
    destruct (st_children s3 !! k) as [mc|] eqn:Ek.
    + apply wp_terminate. intros s4 Hd K4 C4 L4. apply wp_bind.
      eapply wp_mono; [apply kept_ensure_spawned|]. intros ? s5 K5. apply wp_ret, wp_ret.
      destruct (keeps_log _ _ K5) as (l5 & L5 & _). eexists.
      split; [rewrite L5, L4, L3, <- !app_assoc; reflexivity|].
      intros mc' Ek'. assert (mc_handle mc' = mc_handle mc) as ->.
      { pose proof (C3 k) as Ck. rewrite Ek, C2, C1, Ek' in Ck. by injection Ck. }
      split; [set_solver|]. by apply (keeps_world _ _ K5).
    + apply wp_ret, wp_bind. eapply wp_mono; [apply kept_ensure_spawned|].
      intros ? s5 K5. apply wp_ret, wp_ret. destruct (keeps_log _ _ K5) as (l5 & L5 & _).
      eexists. split; [rewrite L5, L3, <- !app_assoc; reflexivity|].
      intros mc' Ek'. pose proof (C3 k) as Ck. rewrite Ek, C2, C1, Ek' in Ck. done.
Qed.

(** A batch goes to a ready worker and its reply comes back unchanged:
    [run_batch] always finishes, and outputs are returned only as the worker's
    answer to this very batch, sent right after a probe that found the worker
    ready. *)
Theorem run_batch_outcome k ins s :
  ∃ r s', run_batch runtime_dir k ins s = Some (r, s') ∧
    match r with
    | Ok outs => ∃ pre sock h sock', is_ready (wh_state h) = true ∧
        st_log s' = pre ++ [ARequest sock Health (Ok (RHealth h));
                            ARequest sock' (RunBatch Ulid_nil ins) (Ok (RRunBatch outs))]
    | Err _ => True
    end.
Proof.
  apply wp_some. unfold run_batch. apply wp_ebind.
  eapply wp_mono; [apply wp_ensure|].
  intros [h|e] s1 [K1 Hr]; [|done].
  destruct Hr as (Hh & sock & [pre L1]%last_Some). apply wp_bind. unfold socket_for.
  apply wp_bind, wp_get, wp_ret, wp_bind, wp_worker_request; [done|].
  intros r s2 K2 _ L2. apply wp_ret. rewrite L2, L1, <- app_assoc.
  destruct r as [[h'|outs|msg| |]|e]; try done; by repeat eexists.
Qed.

(** A batch the supervisor started cannot be cancelled by its request id:
    every batch runs under the nil id, so against an answering worker that has
    served only such batches, [cancel] with any real id is acknowledged, sees a
    different id in flight at once, and returns [Ok] having signalled nobody. *)
Theorem cancel_cannot_reach_batch k i s :
  i ≠ Ulid_nil →
  (∀ w, ((w_now (H := H) (w_now (H := H) w).2).1 - (w_now (H := H) w).1 < CANCEL_YIELD_DEADLINE)%Z) →
  (∀ sock d w, (w_request (H := H) sock (Cancel i) d w).1 = Ok RCancelAck) →
  (∀ sock d w, ∃ dec p, Worker.reachable dec p ∧
     (∀ c j ins, Worker.h_requests p !! c = Some (RunBatch j ins) → j = Ulid_nil) ∧
     (w_request (H := H) sock Health d w).1 =
       Ok (RHealth (Worker.to_health (Worker.p_state p) (Worker.p_inflight p)))) →
  ∃ s' sock h, cancel runtime_dir k i s = Some (Ok tt, s') ∧
    st_log s' = st_log s ++ [ARequest sock (Cancel i) (Ok RCancelAck);
                             ARequest sock Health (Ok (RHealth h))] ∧
    ∀ k', mc_handle <$> st_children s' !! k' = mc_handle <$> st_children s !! k'.
Proof.
  intros Hi Hclock Hcancel Hhealth.
  cut (wp (cancel runtime_dir k i) (λ r s', r = Ok tt ∧ ∃ sock h,
    st_log s' = st_log s ++ [ARequest sock (Cancel i) (Ok RCancelAck);
                             ARequest sock Health (Ok (RHealth h))] ∧
    ∀ k', mc_handle <$> st_children s' !! k' = mc_handle <$> st_children s !! k') s).
  { intros (r & s' & E & -> & sock & h & ? & ?)%wp_some. eauto 7. }
  unfold cancel, worker_request, now. unfold socket_for at 1.
  apply wp_bind, wp_bind, wp_get, wp_ret.
  set (sock := match st_children s !! k with Some _ => _ | None => _ end).
  apply wp_bind, wp_bind, wp_sys, wp_bind, wp_modify, wp_ret. rewrite Hcancel.
  apply wp_bind, wp_sys, wp_bind. change (turns _ _) with 22. cbn [cancel_loop].
  apply wp_bind, wp_sys. cbn [st_world set_world log]. set (w0 := (w_request _ _ _ _).2).
  match goal with |- context [(?a <? CANCEL_YIELD_DEADLINE)%Z] =>
    assert ((a <? CANCEL_YIELD_DEADLINE)%Z = true) as -> by (apply Z.ltb_lt, Hclock) end.
  unfold worker_request. apply wp_bind, wp_bind, wp_sys, wp_bind, wp_modify, wp_ret.
  destruct (Hhealth sock HEALTH_PROBE_TIMEOUT (w_now (H := H) (w_now (H := H) w0).2).2)
    as (dec & p & Hp & Hnil & E). simpl. rewrite E.
  rewrite decide_True; cycle 1.
  { simpl. intros Hin. apply Hi. destruct (Worker.inv_slot p (Worker.worker_inv_reachable dec p Hp) i Hin)
      as (c & ins & ? & Hreq & _). by eapply Hnil. }
  apply wp_bind. eapply wp_mono; [apply record_health_keys|]. intros ? s' [L C]. apply wp_ret, wp_ret.
  split; [done|]. eexists sock, _. rewrite L. simpl. split; [by rewrite <- app_assoc|exact C].
Qed.

Section walking.
Context (hash_order : gmap WorkloadKind (Managed H) → list WorkloadKind).
Hypothesis hash_order_keys : ∀ m k, k ∈ hash_order m ↔ is_Some (m !! k).

(** Over any sequence of calls the supervisor finishes every one of them,
    every [RunBatch] it sends carries the nil id, and no managed child ever
    carries restart bookkeeping between calls: the attempt counter is zero and
    no backoff is pending, however often its worker died. *)
Theorem supervisor_forgets_restarts ops w :
  ∃ s', exec_all runtime_dir hash_order ops (with_spawn w) = Some (tt, s') ∧
    (∀ k mc, st_children s' !! k = Some mc →
       mc_restart_attempts mc = 0%Z ∧ mc_backoff_until mc = None) ∧
    Forall nil_batch (st_log s').
Proof.
  assert (Hs : ∀ s, fresh_but [] s → Forall nil_batch (st_log s) →
    wp (exec_all runtime_dir hash_order ops) (λ _ s', fresh_but [] s' ∧ Forall nil_batch (st_log s')) s).
  { induction ops as [|op ops IH]; intros s H1 H2; [done|]. simpl. apply wp_bind.
    eapply wp_mono; [by apply wp_exec|]. intros ? s1 (? & l & E & ?).
    apply IH; [done|]. rewrite E. by apply Forall_app. }
  destruct (wp_some _ _ _ (Hs (with_spawn w) ltac:(done) ltac:(constructor))) as ([] & s' & E & H1 & H2).
  exists s'. split_and!; [done| |done]. intros k mc Ek. by destruct (H1 k mc Ek) as [?|[?%not_elem_of_nil _]].
Qed.


End walking.

End properties.

(** ** A simulated system *)

Section simulation.

(** A clock that moves when slept on, processes numbered in order of spawning,
    and workers that are all [worker]. *)
Record Sim : Type := mkSim { sim_clock : Instant; sim_next : nat; sim_dead : gset nat }.

(** A worker with a batch of the supervisor in its backend. *)
Definition sim_worker : Worker.Proc :=
  Worker.run_thread (Worker.run_thread
    (Worker.run_request Worker.run_ready 1 (RunBatch Ulid_nil [InText "a"])) 1) 1.

Lemma sim_worker_reachable : Worker.reachable Worker.run_dec sim_worker.
Proof.
  exists Embed, "e5", 42%Z. unfold sim_worker, Worker.run_request, Worker.run_ready.
  do 2 (eapply Worker.run_snoc; [|eapply Worker.step_thread; [reflexivity|by eexists]]).
  eapply Worker.run_snoc; [|eapply Worker.step_serve; reflexivity].
  eapply Worker.run_snoc; [|eapply Worker.step_recv; reflexivity].
  do 2 (eapply Worker.run_snoc; [|eapply Worker.step_loader; reflexivity]). constructor.
Qed.

Definition sim_answer (req : WorkerReq) : WorkerResp :=
  match req with
  | Health => RHealth (Worker.to_health (Worker.p_state sim_worker) (Worker.p_inflight sim_worker))
  | RunBatch _ _ => RRunBatch []
  | Cancel _ => RCancelAck
  | Shutdown => RShutdownAck
  end.

#[export] Instance sim_world : World Sim nat := {|
  w_now w := (sim_clock w, w);
  w_sleep d w := mkSim (sim_clock w + Z.max 0 d)%Z (sim_next w) (sim_dead w);
  w_spawn _ _ w := (Ok (sim_next w), mkSim (sim_clock w) (S (sim_next w)) (sim_dead w));
  w_is_alive h w := (bool_decide (h ∉ sim_dead w), w);
  w_terminate h w := mkSim (sim_clock w) (sim_next w) ({[h]} ∪ sim_dead w);
  w_request _ req _ w := (Ok (sim_answer req), w);
  w_path_exists _ w := (true, w);
  w_clock := sim_clock;
  w_dead h w := h ∈ sim_dead w;
|}.

#[export] Instance sim_laws : WorldLaws Sim nat.
Proof.
  split; simpl; intros; unfold evolves; simpl; split_and?; try done; try lia; try set_solver.
  - intros Hd. apply bool_decide_eq_false in Hd. by apply dec_stable.
  - intros Hd. apply bool_decide_eq_false. intros Hn. by apply Hn.
Qed.

Definition sim_order (m : gmap WorkloadKind (Managed nat)) : list WorkloadKind := (map_to_list m).*1.

Lemma sim_order_keys m k : k ∈ sim_order m ↔ is_Some (m !! k).
Proof.
  unfold sim_order. rewrite list_elem_of_fmap. split.
  - intros ([k' mc] & -> & ?%elem_of_map_to_list). by eexists.
  - intros [mc ?]. exists (k, mc). split; [done|]. by apply elem_of_map_to_list.
Qed.

(** One managed child of each of two kinds, one of them dead. *)
Definition sim_start : St Sim nat :=
  mkSt (mkSim 0%Z 2 {[1]})
    {[ Embed := mkManaged 0 "sock" None None 0%Z None; Stt := mkManaged 1 "sock2" None None 0%Z None ]}
    WarmPool.with_clock ∅ [].

End simulation.

Lemma supervisor_forgets_restarts_witness :
  (∀ m k, k ∈ sim_order m ↔ is_Some (m !! k)) ∧
  ∃ s', exec_all "/run" sim_order [OpEnsure Embed (from_secs 1); OpPollOnce]
          (with_spawn (mkSim 0%Z 0 ∅)) = Some (tt, s') ∧ Forall nil_batch (st_log s').
Proof.
  split; [exact sim_order_keys|].
  destruct (supervisor_forgets_restarts "/run" sim_order sim_order_keys
    [OpEnsure Embed (from_secs 1); OpPollOnce] (mkSim 0%Z 0 ∅)) as (s' & E & _ & Hl).
  exists s'. split; [exact E | exact Hl].
Defined.

Lemma cancel_outcome_witness :
  ∃ r s' acts, cancel "/run" Embed 7%N sim_start = Some (r, s') ∧ st_log s' = acts.
Proof.
  destruct (cancel_outcome "/run" Embed 7%N sim_start) as (r & s' & acts & E & L & _).
  exists r, s', acts. split; [exact E | exact L].
Defined.

Lemma run_batch_outcome_witness :
  ∃ s', run_batch "/run" Embed [InText "a"] sim_start = Some (Ok [], s').
Proof.
  destruct (run_batch_outcome "/run" Embed [InText "a"] sim_start) as (r & s' & E & _).
  exists s'. rewrite E. vm_compute in E. injection E as <- _. reflexivity.
Defined.


Lemma cancel_cannot_reach_batch_witness :
  Worker.p_inflight sim_worker = Some Ulid_nil ∧
  ∃ s', cancel "/run" Embed 7%N sim_start = Some (Ok tt, s').
Proof.
  split; [reflexivity|].
  destruct (cancel_cannot_reach_batch "/run" Embed 7%N sim_start) as (s' & _ & _ & E & _).
  - done.
  - intros w. simpl. rewrite Z.sub_diag. reflexivity.
  - reflexivity.
  - intros sock d w. exists Worker.run_dec, sim_worker.
    split; [apply sim_worker_reachable|]. split; [|reflexivity].
    intros c j ins Hc. change (Worker.h_requests sim_worker) with
      ({[ 1%N := RunBatch Ulid_nil [InText "a"] ]} : gmap N WorkerReq) in Hc.
    apply lookup_singleton_Some in Hc as [_ Hc]. by injection Hc.
  - exists s'. exact E.
Defined.

(** The first restart waits two seconds, not the documented one. *)
Theorem backoff_starts_at_two_seconds :
  backoff_for_attempt 1 = from_secs 2 ∧ backoff_for_attempt 2 = from_secs 4 ∧
  ∀ n, (6 <= n)%Z → backoff_for_attempt n = from_secs 60.
Proof.
  split_and!; [done..|]. intros n Hn. unfold backoff_for_attempt.
  destruct (Z.eqb_spec n 0); [lia|]. by rewrite (Z.min_r n 6) by lia.
Qed.

End Supervisor.
