(* ===== verification/Cancel.v ===== *)
(** * The cancellation registry

    [crates/sy-ipc/src/cancel.rs]: the map from request ids to cancellation
    tokens, the RAII guards that keep entries alive, and
    [dispatch_with_cancel]. Generic in the token store of [Interfaces]. *)

From S2P Require Import Prelude Interfaces.

Module Cancel.

(** [RegEntry]. *)
Record RegEntry (T : Type) : Type := mkEntry { re_token : T; re_epoch : Z }.
Arguments mkEntry {T} _ _.
Arguments re_token {T} _.
Arguments re_epoch {T} _.

(** [CancelGuard]. *)
Record CancelGuard (T : Type) : Type := mkGuard { g_id : N; g_epoch : Z; g_token : T }.
Arguments mkGuard {T} _ _ _.
Arguments g_id {T} _.
Arguments g_epoch {T} _.
Arguments g_token {T} _.

(** [CancelRegistry] with the token store and the guards still alive, each
    under a name of its own. *)
Record Reg (TS T : Type) : Type := mkReg {
  r_inner : gmap N (RegEntry T);
  r_tokens : TS;
  r_guards : gmap N (CancelGuard T);
}.
Arguments mkReg {TS T} _ _ _.
Arguments r_inner {TS T} _.
Arguments r_tokens {TS T} _.
Arguments r_guards {TS T} _.

(** [Dispatched]. *)
Inductive Dispatched (R : Type) : Type :=
| Completed (r : R)
| Cancelled.
Arguments Completed {R} r.
Arguments Cancelled {R}.

Section registry.
Context {TS T : Type} `{!TokenOps TS T}.

(** [CancelRegistry::new]. *)
Definition new (ts : TS) : Reg TS T := mkReg ∅ ts ∅.

(** [CancelRegistry::register]; the guard goes under the name [gid]. *)
Definition register (r : Reg TS T) (gid id : N) : CancelGuard T * Reg TS T :=
  let (token, ts) := tok_new (r_tokens r) in
  let epoch := match r_inner r !! id with
               | Some e => wrapping_add64 (re_epoch e) 1
               | None => 0%Z
               end in
  let guard := mkGuard id epoch token in
  (guard, mkReg (<[id := mkEntry token epoch]> (r_inner r)) ts (<[gid := guard]> (r_guards r))).

(** [CancelRegistry::cancel]. *)
Definition cancel (r : Reg TS T) (id : N) : bool * Reg TS T :=
  match r_inner r !! id with
  | Some e => (true, mkReg (r_inner r) (tok_cancel (r_tokens r) (re_token e)) (r_guards r))
  | None => (false, r)
  end.

(** [CancelGuard::drop]. *)
Definition drop_guard (r : Reg TS T) (gid : N) : Reg TS T :=
  match r_guards r !! gid with
  | None => r
  | Some g =>
      let inner := match r_inner r !! g_id g with
                   | Some e => if (re_epoch e =? g_epoch g)%Z then delete (g_id g) (r_inner r)
                               else r_inner r
                   | None => r_inner r
                   end in
      mkReg inner (r_tokens r) (delete gid (r_guards r))
  end.

(** One poll of the biased [select!]: whether the token was tripped when the
    first branch looked, what the worker returned if it was ready, and whether
    the token was tripped by the second look. *)
Record Poll (R : Type) : Type := mkPoll {
  po_cancelled : bool; po_ready : option R; po_cancelled_after : bool;
}.
Arguments mkPoll {R} _ _ _.
Arguments po_cancelled {R} _.
Arguments po_ready {R} _.
Arguments po_cancelled_after {R} _.

(** [dispatch_with_cancel] over its polls; [None] while pending. *)
Fixpoint dispatch_with_cancel {R} (polls : list (Poll R)) : option (Dispatched R) :=
  match polls with
  | [] => None
  | p :: polls' =>
      if po_cancelled p then Some Cancelled
      else match po_ready p with
           | Some r => Some (if po_cancelled_after p then Cancelled else Completed r)
           | None => dispatch_with_cancel polls'
           end
  end.

(** What the server does with the registry. *)
Inductive step : Reg TS T → Reg TS T → Prop :=
| step_register r gid id :
    r_guards r !! gid = None → step r (register r gid id).2
| step_cancel r id : step r (cancel r id).2
| step_drop r gid : step r (drop_guard r gid).

(** The same, under the rule that an id is not registered again while a guard
    for it is alive. *)
Inductive step_unique : Reg TS T → Reg TS T → Prop :=
| unique_register r gid id :
    r_guards r !! gid = None →
    (∀ gid' g, r_guards r !! gid' = Some g → g_id g ≠ id) →
    step_unique r (register r gid id).2
| unique_cancel r id : step_unique r (cancel r id).2
| unique_drop r gid : step_unique r (drop_guard r gid).

Definition reachable (r : Reg TS T) : Prop := ∃ ts, rtc step (new ts) r.
Definition reachable_unique (r : Reg TS T) : Prop := ∃ ts, rtc step_unique (new ts) r.

End registry.
Arguments mkPoll {R} _ _ _.
Arguments po_cancelled {R} _.
Arguments po_ready {R} _.
Arguments po_cancelled_after {R} _.

Section invariants.
Context {TS T : Type} `{!TokenOps TS T} `{!TokenLaws TS T}.
Implicit Types (r : Reg TS T).

(** The guard an entry was made for. *)
Definition entry_guard (id : N) (e : RegEntry T) (g : CancelGuard T) : Prop :=
  g_id g = id ∧ g_epoch g = re_epoch e ∧ g_token g = re_token e.

(** Every entry belongs to a guard still alive, and tokens are not shared. *)
Record inv r : Prop := {
  inv_owned id e : r_inner r !! id = Some e →
    ∃ gid g, r_guards r !! gid = Some g ∧ entry_guard id e g;
  inv_live gid g : r_guards r !! gid = Some g → tok_live (r_tokens r) (g_token g);
  inv_tokens gid1 gid2 g1 g2 : r_guards r !! gid1 = Some g1 → r_guards r !! gid2 = Some g2 →
    g_token g1 = g_token g2 → gid1 = gid2;
}.

Lemma register_eq r gid id :
  ∃ epoch, register r gid id =
    (mkGuard id epoch (tok_new (r_tokens r)).1,
     mkReg (<[id := mkEntry (tok_new (r_tokens r)).1 epoch]> (r_inner r)) (tok_new (r_tokens r)).2
       (<[gid := mkGuard id epoch (tok_new (r_tokens r)).1]> (r_guards r))).
Proof. unfold register. destruct (tok_new (r_tokens r)). by eexists. Qed.

Lemma inv_register r gid id :
  inv r → r_guards r !! gid = None → inv (register r gid id).2.
Proof.
  intros I Hg. destruct (register_eq r gid id) as [epoch ->].
  set (g := mkGuard id epoch (tok_new (r_tokens r)).1).
  assert (Hfresh : ∀ gid' g', r_guards r !! gid' = Some g' → g_token g' ≠ g_token g).
  { intros gid' g' E Et. apply (tok_new_fresh (r_tokens r)). change ((tok_new _).1) with (g_token g).
    rewrite <- Et. by eapply inv_live. }
  split; simpl.
  - intros id' e. destruct (decide (id' = id)) as [->|Hne].
    + rewrite lookup_insert_eq. intros [= <-]. exists gid, g. by rewrite lookup_insert_eq.
    + rewrite lookup_insert_ne by done. intros E.
      destruct (inv_owned r I id' e E) as (gid' & g' & Eg & ?).
      exists gid', g'. rewrite lookup_insert_ne; [done|congruence].
  - intros gid' g'. rewrite tok_new_live. destruct (decide (gid' = gid)) as [->|Hne].
    + rewrite lookup_insert_eq. intros [= <-]. by left.
    + rewrite lookup_insert_ne by done. intros E. right. by eapply inv_live.
  - intros gid1 gid2 g1 g2.
    destruct (decide (gid1 = gid)) as [->|], (decide (gid2 = gid)) as [->|];
      rewrite ?lookup_insert_eq, ?lookup_insert_ne by done; intros E1 E2 Et; simplify_eq; try done.
    + by destruct (Hfresh _ _ E2).
    + by destruct (Hfresh _ _ E1).
    + by eapply (inv_tokens r I).
Qed.

Lemma inv_cancel r id : inv r → inv (cancel r id).2.
Proof.
  intros I. unfold cancel. destruct (r_inner r !! id); [|done].
  split; simpl; try apply I. intros gid g E. apply tok_cancel_live. by eapply inv_live.
Qed.

Lemma reg_inv_drop r gid : inv r → inv (drop_guard r gid).
Proof.
  intros I. unfold drop_guard. destruct (r_guards r !! gid) as [g|] eqn:Eg; [|done].
  split; simpl.
  - intros id e Hid.
    assert (r_inner r !! id = Some e ∧ (id = g_id g → re_epoch e ≠ g_epoch g)) as [E Hep].
    { destruct (r_inner r !! g_id g) as [e0|] eqn:E0; [|split; [done|congruence]].
      destruct (Z.eqb_spec (re_epoch e0) (g_epoch g)) as [|Hne].
      - apply lookup_delete_Some in Hid as [? ?]. split; [done|congruence].
      - split; [done|]. intros ->. congruence. }
    destruct (inv_owned r I id e E) as (gid' & g' & Eg' & Hi & He & Ht).
    exists gid', g'. rewrite lookup_delete_ne; [done|]. intros <-.
    assert (g' = g) as -> by congruence. by destruct Hep.
  - intros gid' g' [_ E]%lookup_delete_Some. by eapply inv_live.
  - intros gid1 gid2 g1 g2 [_ E1]%lookup_delete_Some [_ E2]%lookup_delete_Some.
    by eapply (inv_tokens r I).
Qed.

Lemma inv_new ts : inv (new ts).
Proof. split; simpl; intros *; by rewrite lookup_empty. Qed.

(** With ids registered one guard at a time, the entries are exactly the live
    guards'. *)
Record exact r : Prop := {
  ex_inv : inv r;
  ex_entry gid g : r_guards r !! gid = Some g →
    r_inner r !! g_id g = Some (mkEntry (g_token g) (g_epoch g));
  ex_unique gid1 gid2 g1 g2 : r_guards r !! gid1 = Some g1 → r_guards r !! gid2 = Some g2 →
    g_id g1 = g_id g2 → gid1 = gid2;
}.

Lemma exact_step r r' : exact r → step_unique r r' → exact r'.
Proof.
  intros X. destruct 1 as [r gid id Hg Hid|r id|r gid].
  - pose proof (inv_register r gid id (ex_inv r X) Hg) as I. revert I.
    destruct (register_eq r gid id) as [epoch ->]. simpl. intros I. split; [done| |]; simpl.
    + intros gid' g'. destruct (decide (gid' = gid)) as [->|].
      * rewrite lookup_insert_eq. intros [= <-]. simpl. by rewrite lookup_insert_eq.
      * rewrite lookup_insert_ne by done. intros E.
        rewrite lookup_insert_ne by (intros Heq; by destruct (Hid _ _ E)).
        by eapply (ex_entry r X).
    + intros gid1 gid2 g1 g2.
      destruct (decide (gid1 = gid)) as [->|], (decide (gid2 = gid)) as [->|];
        rewrite ?lookup_insert_eq, ?lookup_insert_ne by done; intros E1 E2 Et; simplify_eq/=; try done.
      * by destruct (Hid _ _ E2).
      * by destruct (Hid _ _ E1).
      * by eapply (ex_unique r X).
  - pose proof (inv_cancel r id (ex_inv r X)) as I. revert I. unfold cancel.
    destruct (r_inner r !! id); [|done]. intros I. split; [done|..]; apply X.
  - pose proof (reg_inv_drop r gid (ex_inv r X)) as I. revert I. unfold drop_guard.
    destruct (r_guards r !! gid) as [g|] eqn:Eg; [|done]. intros I. split; [done| |]; simpl.
    + intros gid' g' [Hne E]%lookup_delete_Some.
      rewrite (ex_entry r X gid g Eg). simpl. rewrite Z.eqb_refl.
      rewrite lookup_delete_ne; [by eapply (ex_entry r X)|].
      intros Heq. apply Hne. by eapply (ex_unique r X).
    + intros gid1 gid2 g1 g2 [_ E1]%lookup_delete_Some [_ E2]%lookup_delete_Some.
      by eapply (ex_unique r X).
Qed.

Lemma exact_new ts : exact (new ts).
Proof. split; [apply inv_new| |]; simpl; intros *; by rewrite lookup_empty. Qed.

Lemma exact_reachable r : reachable_unique r → exact r.
Proof.
  intros (ts & Hr). remember (new ts) as r0 eqn:E0.
  assert (exact r0) as X by (subst; apply exact_new). clear E0.
  induction Hr; eauto using exact_step.
Qed.

Lemma reg_inv_reachable r : reachable r → inv r.
Proof.
  intros (ts & Hr). remember (new ts) as r0 eqn:E0.
  assert (inv r0) as I by (subst; apply inv_new). clear E0.
  induction Hr as [|? ? ? Hs]; [done|]. destruct Hs; eauto using inv_register, inv_cancel, reg_inv_drop.
Qed.

(** ** Properties *)

(** C15. The registry does not leak: whatever the order of registrations,
    cancels and drops, every entry belongs to a guard that is still alive and
    carries that guard's token and epoch; with no guard alive it is empty. *)
Theorem registry_no_leak r :
  reachable r →
  (∀ id e, r_inner r !! id = Some e →
     ∃ gid g, r_guards r !! gid = Some g ∧ g_id g = id ∧ g_epoch g = re_epoch e ∧
              g_token g = re_token e) ∧
  (r_guards r = ∅ → r_inner r = ∅).
Proof.
  intros I%reg_inv_reachable. split; [apply (inv_owned r I)|].
  intros E0. apply map_empty. intros id. destruct (r_inner r !! id) as [e|] eqn:E; [|done].
  destruct (inv_owned r I id e E) as (gid & g & Eg & _). by rewrite E0, lookup_empty in Eg.
Qed.

(** Cancelling is exact when an id is not registered again while a guard
    for it lives: [cancel id] reports a hit exactly when such a guard is alive,
    trips the token of that guard, and of no guard with another id. *)
Theorem cancel_exact r id :
  reachable_unique r →
  ((cancel r id).1 = true ↔ ∃ gid g, r_guards r !! gid = Some g ∧ g_id g = id) ∧
  (∀ gid g, r_guards r !! gid = Some g →
     tok_cancelled (r_tokens (cancel r id).2) (g_token g) =
     if decide (g_id g = id) then true else tok_cancelled (r_tokens r) (g_token g)).
Proof.
  intros X%exact_reachable. unfold cancel.
  destruct (r_inner r !! id) as [e|] eqn:E; simpl.
  - destruct (inv_owned r (ex_inv r X) id e E) as (gid0 & g0 & Eg0 & Hi & _ & Ht).
    split; [naive_solver|]. intros gid g Eg. case_decide as Hid.
    + pose proof (ex_entry r X gid g Eg) as E'. rewrite Hid, E in E'. injection E' as ->.
      apply tok_cancel_self.
    + apply tok_cancel_other. rewrite <- Ht. intros Heq.
      assert (gid = gid0) as -> by by eapply (inv_tokens r (ex_inv r X)). congruence.
  - split.
    + split; [done|]. intros (gid & g & Eg & <-).
      pose proof (ex_entry r X gid g Eg). congruence.
    + intros gid g Eg. case_decide as Hid; [|done].
      pose proof (ex_entry r X gid g Eg). congruence.
Qed.

End invariants.

(** [dispatch_with_cancel] never completes a cancelled request: with a
    token that stays tripped, the outcome is [Completed] only if the token was
    still clear when the worker's result was taken, and [Cancelled] only if it
    was tripped. *)
Theorem dispatch_outcome {R} (polls : list (Poll R)) out :
  Forall (λ p, po_cancelled p = true → po_cancelled_after p = true) polls →
  dispatch_with_cancel polls = Some out →
  ∃ pre p, prefix (pre ++ [p]) polls ∧ Forall (λ q, po_cancelled q = false) pre ∧
    match out with
    | Completed r => po_ready p = Some r ∧ po_cancelled p = false ∧ po_cancelled_after p = false
    | Cancelled => po_cancelled_after p = true
    end.
Proof.
  induction polls as [|p polls IH]; intros Hm E; [done|]. apply Forall_cons in Hm as [Hp Hm].
  simpl in E. destruct (po_cancelled p) eqn:Ec.
  - injection E as <-. exists [], p. split; [by exists polls|]. split; [constructor|auto].
  - destruct (po_ready p) as [r|] eqn:Er.
    + injection E as <-. exists [], p. split; [by exists polls|]. split; [constructor|].
      by destruct (po_cancelled_after p).
    + destruct (IH Hm E) as (pre & p' & Hpre & Hall & Ho).
      exists (p :: pre), p'. split; [by apply prefix_cons|]. split; [by constructor|done].
Qed.

(** ** Concrete runs *)

Section runs.

Abbreviation NReg := (Reg NatTokens nat).

Definition run_new : NReg := new (mkNatTokens 0 ∅).
Definition run_one : NReg := (register run_new 1%N 7%N).2.
(** A guard from a first registration of id 7 outlives a second one, and a
    third then reuses its epoch. *)
Definition run_aba : NReg :=
  (register (drop_guard (register run_one 2%N 7%N).2 2%N) 3%N 7%N).2.

Lemma run_one_reachable : reachable_unique run_one.
Proof.
  exists (mkNatTokens 0 ∅). eapply rtc_l; [|constructor].
  apply (unique_register run_new 1%N 7%N); [done|]. intros gid g. unfold run_new. simpl.
  by rewrite lookup_empty.
Qed.

Lemma run_aba_reachable : reachable (drop_guard run_aba 1%N).
Proof.
  exists (mkNatTokens 0 ∅).
  eapply rtc_l; [apply (step_register _ 1%N 7%N); reflexivity|].
  eapply rtc_l; [apply (step_register _ 2%N 7%N); reflexivity|].
  eapply rtc_l; [apply (step_drop _ 2%N)|].
  eapply rtc_l; [apply (step_register _ 3%N 7%N); reflexivity|].
  eapply rtc_l; [apply (step_drop _ 1%N)|]. constructor.
Qed.

End runs.

Lemma registry_no_leak_witness :
  reachable (drop_guard run_aba 1%N) ∧
  (r_guards (drop_guard run_aba 1%N) = ∅ → r_inner (drop_guard run_aba 1%N) = ∅).
Proof.
  split; [apply run_aba_reachable|].
  destruct (registry_no_leak (drop_guard run_aba 1%N)) as [_ H];
    [apply run_aba_reachable | exact H].
Defined.

Lemma cancel_exact_witness :
  reachable_unique run_one ∧ (cancel run_one 7%N).1 = true.
Proof.
  split; [apply run_one_reachable|].
  destruct (cancel_exact run_one 7%N) as [[_ H] _]; [apply run_one_reachable|].
  apply H. exists 1%N, (mkGuard 7%N 0%Z 0). split; reflexivity.
Defined.

Lemma dispatch_outcome_witness :
  let polls := [mkPoll false None false; mkPoll false (Some 5) true] in
  dispatch_with_cancel polls = Some Cancelled ∧
  ∃ pre p, prefix (pre ++ [p]) polls ∧ po_cancelled_after p = true.
Proof.
  cbv zeta. split; [reflexivity|].
  destruct (dispatch_outcome [mkPoll false None false; mkPoll false (Some 5) true] Cancelled)
    as (pre & p & Hp & _ & Ho); [repeat constructor; done | reflexivity |].
  exists pre, p. split; [exact Hp | exact Ho].
Defined.

(** Epochs are not monotonic per id: they restart at zero once an entry is
    removed, so a guard left from an earlier registration can evict a live
    one's entry. Here guard 3 for id 7 is alive, the stale guard 1 is dropped,
    and a cancel of id 7 no longer finds anything. *)
Theorem stale_guard_evicts_live_entry :
  reachable (drop_guard run_aba 1%N) ∧
  r_guards (drop_guard run_aba 1%N) !! 3%N = Some (mkGuard 7%N 0%Z 2) ∧
  (cancel run_aba 7%N).1 = true ∧ (cancel (drop_guard run_aba 1%N) 7%N).1 = false.
Proof. split; [apply run_aba_reachable|]. done. Qed.

End Cancel.
