(* ===== verification/Wire.v ===== *)
(** * IPC v1 on the wire

    [crates/sy-ipc/src]: the envelope and its strict parser ([envelope.rs]),
    the blocking frame codec ([blocking.rs], and the copy of it in
    [crates/sy-aiplane/src/aiplane/ipc.rs]), the stream events ([stream.rs]),
    peer admission and the connection loop ([server.rs]). JSON text is
    [serde_json]'s business: its values are [json], and typed values enter and
    leave them through the class [Serde]. *)

From S2P Require Import Prelude Vocab.
Local Open Scope string_scope.
Local Open Scope list_scope.

Module Wire.

(** ** JSON values *)

(** [serde_json::Value]; floats by their bits. *)
Inductive json : Type :=
| JNull
| JBool (b : bool)
| JNum (n : Z)
| JFloat (bits : Z)
| JStr (s : string)
| JArr (l : list json)
| JObj (m : list (string * json)).

(** [Map::get]. *)
Fixpoint assoc (k : string) (m : list (string * json)) : option json :=
  match m with
  | [] => None
  | (k', v) :: m' => if String.eqb k' k then Some v else assoc k m'
  end.

(** [Value::get] with a string index. *)
Definition jget (k : string) (v : json) : option json :=
  match v with JObj m => assoc k m | _ => None end.

(** [Value::as_u64]. *)
Definition as_u64 (v : json) : option Z :=
  match v with
  | JNum n => if ((0 <=? n) && (n <? U64_MOD))%Z then Some n else None
  | _ => None
  end.

(** [Value::as_i64], [Value::as_str], [Value::as_array] and [Value::as_bool]. *)
Definition json_i64 (v : json) : option Z :=
  match v with
  | JNum n => if ((- 2 ^ 63 <=? n) && (n <? 2 ^ 63))%Z then Some n else None
  | _ => None
  end.
Definition json_str (v : json) : option string := match v with JStr s => Some s | _ => None end.
Definition json_arr (v : json) : option (list json) := match v with JArr l => Some l | _ => None end.
Definition json_bool (v : json) : option bool := match v with JBool b => Some b | _ => None end.

(** [Serialize] and [Deserialize] of a type through [Value]. *)
Class Serde (A : Type) : Type := {
  to_json : A → json;
  of_json : json → result A string;
}.

(** The values whose JSON reads back: all but the non-finite floats, which
    [serde_json] writes as [null]. *)
Class SerdeLaws (A : Type) `{!Serde A} (ok : A → Prop) : Prop := {
  of_to_json a : ok a → of_json (to_json a) = Ok a;
  to_json_not_null a : ok a → to_json a ≠ JNull;
}.

#[export] Instance serde_string : Serde string := {|
  to_json := JStr;
  of_json v := match v with JStr s => Ok s | _ => Err "invalid type: expected a string" end;
|}.

#[export] Instance serde_nat : Serde nat := {|
  to_json n := JNum (Z.of_nat n);
  of_json v := match v with
               | JNum n => if (0 <=? n)%Z then Ok (Z.to_nat n) else Err "invalid value: negative"
               | _ => Err "invalid type: expected usize"
               end;
|}.

#[export] Instance serde_string_laws : SerdeLaws string (λ _, True).
Proof. by split. Qed.

#[export] Instance serde_nat_laws : SerdeLaws nat (λ _, True).
Proof.
  split; [|done]. intros n _. simpl. destruct (Z.leb_spec 0 (Z.of_nat n)); [|lia].
  by rewrite Nat2Z.id.
Qed.

(** [Option<A>] as [null] or the value. *)
#[export] Instance serde_option {A} `{!Serde A} : Serde (option A) := {|
  to_json o := match o with Some a => to_json a | None => JNull end;
  of_json v := match v with
               | JNull => Ok None
               | _ => match of_json v with Ok a => Ok (Some a) | Err e => Err e end
               end;
|}.

Lemma of_to_json_option {A} `{!Serde A} (ok : A → Prop) `{!SerdeLaws A ok} (o : option A) :
  (∀ a, o = Some a → ok a) → of_json (to_json o) = Ok o.
Proof.
  destruct o as [a|]; [|done]. intros Ho. specialize (Ho a eq_refl). simpl.
  pose proof (to_json_not_null a Ho). rewrite (of_to_json a Ho). by destruct (to_json a).
Qed.

(** A derived [Deserialize] of a struct with [n] fields takes an object, or an
    array of the fields in order; [struct_field] is field [i] named [k]. *)
Definition struct_shape (n : nat) (v : json) : result unit string :=
  match v with
  | JObj _ => Ok tt
  | JArr l => if (length l <=? n)%nat then Ok tt else Err "invalid length"
  | _ => Err "invalid type: expected struct"
  end.
Definition struct_field (i : nat) (k : string) (v : json) : option json :=
  match v with JArr l => l !! i | _ => jget k v end.

(** A required field, and one with [#[serde(default)]]. *)
Definition field {A} `{!Serde A} (i : nat) (k : string) (v : json) : result A string :=
  match struct_field i k v with
  | Some f => of_json f
  | None => Err ("missing field `" ++ k ++ "`")%string
  end.
Definition field_default {A} `{!Serde A} (i : nat) (k : string) (d : A) (v : json) : result A string :=
  match struct_field i k v with Some f => of_json f | None => Ok d end.

(** ** The envelope *)

Definition SCHEMA_VERSION : Z := 1.

Record BlobRef : Type := mkBlob { blob_kind : string; blob_len : Z; blob_sha256 : string }.

Record Request : Type := mkRequest {
  schema_version : Z;
  request_id : N;
  trace_id : option string;
  parent_span_id : option string;
  deadline_ms : option Z;
  priority : Priority.Priority;
  method : string;
  params : json;
}.

Record ErrorBody : Type := mkErrorBody {
  err_code : ErrorCode.ErrorCode;
  err_message : string;
  err_retry_after_ms : option Z;
  err_details : json;
}.

Inductive Response : Type :=
| ROk (schema_version : Z) (request_id : N) (result : json) (blob : option BlobRef)
| RErr (schema_version : Z) (request_id : N) (error : ErrorBody).

Inductive ParseRequestError : Type :=
| IncompatibleSchema (got : option Z)
| BadRequest (msg : string).

(** [u32::try_from(n).ok()]. *)
Definition u32_of (n : Z) : option Z := if (n <? U32_MOD)%Z then Some n else None.

(** [parse_request_strict]. [from_slice] is the JSON parser, [from_value] the
    derived decoder of [Request]. *)
Definition parse_request_strict (from_slice : list Z → result json string)
    (from_value : json → result Request string) (bytes : list Z)
    : result Request ParseRequestError :=
  match from_slice bytes with
  | Err e => Err (BadRequest e)
  | Ok (JObj m as v) =>
      match assoc "schema_version" m with
      | None => Err (IncompatibleSchema None)
      | Some sv =>
          match as_u64 sv with
          | None => Err (IncompatibleSchema None)
          | Some n =>
              if negb (n =? SCHEMA_VERSION)%Z then Err (IncompatibleSchema (u32_of n))
              else match from_value v with Ok r => Ok r | Err e => Err (BadRequest e) end
          end
      end
  | Ok _ => Err (BadRequest "request must be a JSON object")
  end.

(** [blocking::build_request], given a fresh id. *)
Definition build_request (fresh : N) (method : string) (params : json)
    (priority : Priority.Priority) (deadline_ms : option Z) (request_id : option N)
    (trace_id parent_span_id : option string) : Request :=
  mkRequest SCHEMA_VERSION (default fresh request_id) trace_id parent_span_id deadline_ms
    priority method params.

(** ** Frames *)

(** The four bytes of [u32::to_be_bytes], and back. *)
Definition to_be_bytes (n : Z) : list Z :=
  [Z.land (Z.shiftr n 24) 255; Z.land (Z.shiftr n 16) 255;
   Z.land (Z.shiftr n 8) 255; Z.land n 255].
Definition from_be_bytes (b : list Z) : Z :=
  foldl (λ acc x, Z.lor (Z.shiftl acc 8) x) 0%Z b.

Inductive IoError : Type := InvalidData | UnexpectedEof.

(** [write_frame]: the bytes appended to the stream. *)
Definition write_frame (payload : list Z) : result (list Z) IoError :=
  let len := Z.of_nat (length payload) in
  if (len <? U32_MOD)%Z then Ok (to_be_bytes len ++ payload) else Err InvalidData.

(** [Read::read_exact]. *)
Definition read_exact (n : nat) (r : list Z) : result (list Z * list Z) IoError :=
  if (n <=? length r)%nat then Ok (take n r, drop n r) else Err UnexpectedEof.

(** [read_frame]: the payload and what is left of the stream. *)
Definition read_frame (r : list Z) : result (list Z * list Z) IoError :=
  match read_exact 4 r with
  | Err e => Err e
  | Ok (header, r') => read_exact (Z.to_nat (from_be_bytes header)) r'
  end.

(** The same two in [aiplane/ipc.rs]. *)
Definition write_v1_frame (payload : list Z) : result (list Z) IoError :=
  let len := Z.of_nat (length payload) in
  if (len <? U32_MOD)%Z then Ok (to_be_bytes len ++ payload) else Err InvalidData.
Definition read_v1_frame (r : list Z) : result (list Z * list Z) IoError :=
  match read_exact 4 r with
  | Err e => Err e
  | Ok (header, r') => read_exact (Z.to_nat (from_be_bytes header)) r'
  end.

(** A run of frames written one after the other, and reading [n] of them. *)
Fixpoint write_frames (ps : list (list Z)) : result (list Z) IoError :=
  match ps with
  | [] => Ok []
  | p :: ps' =>
      match write_frame p, write_frames ps' with
      | Ok a, Ok b => Ok (a ++ b)
      | Err e, _ => Err e
      | _, Err e => Err e
      end
  end.
Fixpoint read_frames (n : nat) (r : list Z) : result (list (list Z) * list Z) IoError :=
  match n with
  | O => Ok ([], r)
  | S n' =>
      match read_frame r with
      | Err e => Err e
      | Ok (p, r') =>
          match read_frames n' r' with
          | Ok (ps, rest) => Ok (p :: ps, rest)
          | Err e => Err e
          end
      end
  end.

(** ** Stream events *)

Definition KIND_CLOSED : string := "closed".

Record Event : Type := mkEvent {
  ev_schema_version : Z; ev_request_id : N; ev_kind : string; ev_params : json;
}.

Definition Event_closed (request_id : N) : Event :=
  mkEvent SCHEMA_VERSION request_id KIND_CLOSED (JObj []).
Definition is_closed (e : Event) : bool := String.eqb (ev_kind e) KIND_CLOSED.

(** ** The server *)

Record PeerCredentials : Type := mkPeer { peer_pid : option Z; peer_uid : Z; peer_gid : Z }.

(** [SameEuidAuthorizer::authorize]. *)
Definition authorize (euid : Z) (credentials : option PeerCredentials) : bool :=
  match credentials with Some peer => (peer_uid peer =? euid)%Z | None => false end.

Section server.
Context {S : Type} (handle : Request → S → Response * S).

(** [serve_connection]: [decoded] is what the codec yields, [sink] whether
    each send succeeds. The result is the responses handed to the sink, the
    [sy_ipc_errors_total] increments, and the handler's state. *)
Fixpoint serve_connection (decoded : list (result Request string)) (sink : list bool) (s : S)
    : list Response * list (string * ErrorCode.ErrorCode) * S :=
  match decoded with
  | [] | Err _ :: _ => ([], [], s)
  | Ok req :: decoded' =>
      let (resp, s') := handle req s in
      let counted := match resp with
                     | RErr _ _ e => [(method req, err_code e)]
                     | ROk _ _ _ _ => []
                     end in
      match sink with
      | true :: sink' =>
          let '(resps, errs, s'') := serve_connection decoded' sink' s' in
          (resp :: resps, counted ++ errs, s'')
      | _ => ([resp], counted, s')
      end
  end.

(** [Server::serve] on one accepted connection. *)
Definition serve_accepted (authorized : bool) (decoded : list (result Request string))
    (sink : list bool) (s : S) : list Response * list (string * ErrorCode.ErrorCode) * S :=
  if authorized then serve_connection decoded sink s else ([], [], s).

(** The handler run on requests in order. *)
Fixpoint handle_all (reqs : list Request) (s : S) : list Response * S :=
  match reqs with
  | [] => ([], s)
  | r :: reqs' =>
      let (resp, s') := handle r s in
      let (resps, s'') := handle_all reqs' s' in (resp :: resps, s'')
  end.

(** The requests before the first decode error. *)
Fixpoint well_formed_prefix (decoded : list (result Request string)) : list Request :=
  match decoded with
  | Ok r :: decoded' => r :: well_formed_prefix decoded'
  | _ => []
  end.

Definition error_of (req : Request) (resp : Response) : option (string * ErrorCode.ErrorCode) :=
  match resp with RErr _ _ e => Some (method req, err_code e) | ROk _ _ _ _ => None end.

End server.

(** ** Lemmas *)
Lemma land_low_shift a b k : (0 <= k)%Z → (0 <= b < 2 ^ k)%Z → Z.land (Z.shiftl a k) b = 0%Z.
Proof.
  intros Hk Hb. apply Z.bits_inj'. intros i Hi. rewrite Z.land_spec, Z.bits_0.
  destruct (decide (i < k)%Z).
  - by rewrite Z.shiftl_spec_low by lia.
  - rewrite <- (Z.mod_small b (2 ^ k)) by lia.
    rewrite Z.mod_pow2_bits_high by lia. apply andb_false_r.
Qed.

Lemma lor_shift8 a b : (0 <= b < 256)%Z → Z.lor (Z.shiftl a 8) b = (a * 256 + b)%Z.
Proof.
  intros Hb. rewrite <- Z.add_nocarry_lor by (apply land_low_shift; lia).
  by rewrite Z.shiftl_mul_pow2 by lia.
Qed.

Lemma byte_of_spec n k : (0 <= k)%Z → Z.land (Z.shiftr n k) 255 = ((n / 2 ^ k) mod 256)%Z.
Proof.
  intros Hk. change 255%Z with (Z.ones 8). by rewrite Z.land_ones, Z.shiftr_div_pow2 by lia.
Qed.

Lemma to_from_be_bytes n : (0 <= n < U32_MOD)%Z → from_be_bytes (to_be_bytes n) = n.
Proof.
  unfold U32_MOD. intros Hn. unfold from_be_bytes, to_be_bytes. cbn [foldl].
  rewrite <- (Z.shiftr_0_r n) at 4. rewrite !byte_of_spec by lia.
  rewrite !lor_shift8 by (apply Z.mod_pos_bound; lia).
  change (2 ^ 0)%Z with 1%Z. rewrite Z.div_1_r.
  change (2 ^ 24)%Z with (256 * (256 * 256))%Z. change (2 ^ 16)%Z with (256 * 256)%Z.
  change (2 ^ 8)%Z with 256%Z. change (2 ^ 32)%Z with 4294967296%Z in Hn.
  rewrite <- !Z.div_div by lia.
  assert (n / 256 / 256 / 256 < 256)%Z by (repeat (apply Z.div_lt_upper_bound; [lia|]); lia).
  assert (0 <= n / 256 / 256 / 256)%Z by (repeat (apply Z.div_pos; [|lia]); lia).
  rewrite (Z.mod_small (n / 256 / 256 / 256) 256) by lia.
  pose proof (Z.div_mod (n / 256 / 256) 256). pose proof (Z.div_mod (n / 256) 256).
  pose proof (Z.div_mod n 256). lia.
Qed.

Lemma to_be_bytes_length n : length (to_be_bytes n) = 4.
Proof. done. Qed.

Lemma read_exact_app a b : read_exact (length a) (a ++ b) = Ok (a, b).
Proof.
  unfold read_exact. destruct (Nat.leb_spec (length a) (length (a ++ b))) as [|H].
  - by rewrite take_app_length, drop_app_length.
  - rewrite length_app in H. lia.
Qed.

Lemma read_write_frame p w rest :
  write_frame p = Ok w → read_frame (w ++ rest) = Ok (p, rest).
Proof.
  unfold write_frame. destruct (Z.ltb_spec (Z.of_nat (length p)) U32_MOD); [|done].
  intros E. assert (w = to_be_bytes (Z.of_nat (length p)) ++ p) as -> by congruence.
  unfold read_frame. rewrite <- app_assoc.
  rewrite <- (to_be_bytes_length (Z.of_nat (length p))), read_exact_app.
  rewrite to_from_be_bytes, Nat2Z.id by lia. apply read_exact_app.
Qed.

(** ** Properties *)

(** Framing: any run of frames that could be written reads back, frame by
    frame, as the payloads that went in, whatever follows on the stream; a
    stream cut short in the middle of a frame is an error, not a short frame. *)
Theorem frames_round_trip ps w rest :
  write_frames ps = Ok w →
  read_frames (length ps) (w ++ rest) = Ok (ps, rest) ∧
  ∀ p q w', ps = [p] → w = w' ++ q → q ≠ [] → read_frame w' = Err UnexpectedEof.
Proof.
  intros E. split.
  - revert w E. induction ps as [|p ps IH]; intros w E; [by injection E as <-|].
    simpl in E. destruct (write_frame p) as [a|] eqn:Ep; [|done].
    destruct (write_frames ps) as [b|] eqn:Eb; [|done]. injection E as <-.
    cbn [read_frames length]. rewrite <- app_assoc, (read_write_frame _ _ _ Ep), (IH b eq_refl). done.
  - intros p q w' -> -> Hq. simpl in E. unfold write_frame in E.
    destruct (Z.ltb_spec (Z.of_nat (length p)) U32_MOD) as [Hp|]; [|done].
    assert (to_be_bytes (Z.of_nat (length p)) ++ p = w' ++ q) as E'.
    { rewrite app_nil_r in E. congruence. }
    clear E. rename E' into E.
    assert (Hlen : length w' + length q = 4 + length p).
    { rewrite <- length_app, <- E. done. }
    assert (0 < length q) as Hq0 by (destruct q; simpl; [done|lia]).
    unfold read_frame, read_exact. destruct (Nat.leb_spec 4 (length w')) as [H4|]; [|done].
    rewrite length_drop.
    assert (take 4 w' = to_be_bytes (Z.of_nat (length p))) as ->.
    { rewrite <- (take_app_le w' q 4) by lia. by rewrite <- E. }
    rewrite to_from_be_bytes, Nat2Z.id by lia.
    by destruct (Nat.leb_spec (length p) (length w' - 4)); [lia|].
Qed.

(** The two frame codecs in the tree agree byte for byte. *)
Theorem frame_codecs_agree p r :
  write_v1_frame p = write_frame p ∧ read_v1_frame r = read_frame r.
Proof. done. Qed.

(** The strict parser never lets a foreign schema through: [Ok] means the
    bytes were an object whose [schema_version] is the integer 1 and which the
    decoder accepted; a missing, null or non-integer version is
    [IncompatibleSchema] without a number, another version is reported when it
    fits in 32 bits, and everything else is [BadRequest]. *)
Theorem parse_request_strict_spec from_slice from_value bytes :
  match from_slice bytes with
  | Ok (JObj m) =>
      match as_u64 <$> assoc "schema_version" m with
      | Some (Some n) =>
          if decide (n = 1)%Z then
            match from_value (JObj m) with
            | Ok r => parse_request_strict from_slice from_value bytes = Ok r
            | Err e => parse_request_strict from_slice from_value bytes = Err (BadRequest e)
            end
          else parse_request_strict from_slice from_value bytes =
                 Err (IncompatibleSchema (if decide (n < 2 ^ 32)%Z then Some n else None))
      | _ => parse_request_strict from_slice from_value bytes = Err (IncompatibleSchema None)
      end
  | _ => ∃ e, parse_request_strict from_slice from_value bytes = Err (BadRequest e)
  end.
Proof.
  unfold parse_request_strict. destruct (from_slice bytes) as [[]|]; try by eexists.
  destruct (assoc "schema_version" m) as [sv|]; simpl; [|done].
  destruct (as_u64 sv) as [n|]; [|done]. unfold SCHEMA_VERSION.
  destruct (Z.eqb_spec n 1) as [->|]; simpl.
  - by destruct (from_value (JObj m)).
  - rewrite decide_False by done. unfold u32_of, U32_MOD.
    destruct (Z.ltb_spec n (2 ^ 32)); [by rewrite decide_True|by rewrite decide_False by lia].
Qed.

(** One connection is served in order: the responses are a prefix of what
    the handler answers to the requests before the first undecodable frame,
    all of them when the sink takes every send, each under the id and method it
    answers; the error counter moves once per error response handed over; and
    a peer of another user, or of none known, is served nothing. *)
Theorem serve_connection_in_order {S} (handle : Request → S → Response * S)
    euid creds decoded sink s :
  let '(resps, errs, _) := serve_accepted handle (authorize euid creds) decoded sink s in
  let reqs := well_formed_prefix decoded in
  resps `prefix_of` (handle_all handle reqs s).1 ∧
  errs = omap (λ rr, error_of rr.1 rr.2) (zip reqs resps) ∧
  (peer_uid <$> creds ≠ Some euid → resps = []) ∧
  (peer_uid <$> creds = Some euid → sink = replicate (length reqs) true →
   resps = (handle_all handle reqs s).1).
Proof.
  unfold serve_accepted. destruct (authorize euid creds) eqn:Ea; cycle 1.
  { assert (peer_uid <$> creds ≠ Some euid) as Hne.
    { destruct creds as [c|]; [|done]. simpl in *. intros [= E]. apply Z.eqb_neq in Ea. lia. }
    split_and!; try done; [apply prefix_nil|]. by destruct (well_formed_prefix decoded). }
  assert (peer_uid <$> creds = Some euid) as ->.
  { destruct creds as [c|]; [|done]. simpl in *. f_equal. by apply Z.eqb_eq. }
  clear Ea creds.
  revert sink s. induction decoded as [|[req|e] decoded IH]; intros sink s; simpl.
  - by split_and!.
  - destruct (handle req s) as [resp s'] eqn:Eh.
    destruct (handle_all handle (well_formed_prefix decoded) s') as [all s2] eqn:Eall.
    destruct sink as [|[|] sink]; simpl.
    + split_and!; try done; [by apply prefix_cons, prefix_nil|].
      destruct (well_formed_prefix decoded); by destruct resp.
    + specialize (IH sink s'). rewrite Eall in IH.
      destruct (serve_connection handle decoded sink s') as [[resps errs] s3]. simpl in *.
      destruct IH as (Hp & He & _ & Hall). split_and!; try done.
      * by apply prefix_cons.
      * rewrite He. by destruct resp.
      * intros _ [= Hs]. f_equal. by apply Hall.
    + split_and!; try done; [by apply prefix_cons, prefix_nil|].
      destruct (well_formed_prefix decoded); by destruct resp.
  - by split_and!.
Qed.

Lemma frames_round_trip_witness :
  let ps := [[1; 2; 3]; []; [255]]%Z in
  ∃ w, write_frames ps = Ok w ∧ read_frames 3 (w ++ [9])%Z = Ok (ps, [9]%Z).
Proof.
  cbv zeta. eexists. split; [vm_compute; reflexivity|].
  refine (proj1 (frames_round_trip [[1; 2; 3]; []; [255]]%Z _ [9]%Z _)). vm_compute. reflexivity.
Defined.

End Wire.
