(* ===== verification/Bridge.v ===== *)
(** * The IPC bridge of the knowledge and aiplane daemons

    The server half of [crates/sy-aiplane/src/aiplane/ipc.rs], the reserved
    methods of [crates/sy-ipc/src/reserved.rs] and the legacy payloads of
    [crates/sy-ipc/src/aiplane.rs]: translating between the legacy [Op]/[Req]
    values and v1 methods, deciding who answers a request, and the
    [aiplane.run], [aiplane.batch] and [aiplane.cancel] handlers. What a handler
    awaits comes in as an argument; what it does goes out as a list of effects
    in order, the drops of its guards included. *)

From S2P Require Import Prelude Vocab Interfaces Scheduler Cancel Wire.
Import Priority Workload Wire.
Local Open Scope string_scope.
Local Open Scope list_scope.

Module Bridge.

(** ** Legacy payloads *)

Inductive Op : Type :=
| RefreshSources | IndexNow | FullResync | ReloadSchedule | RescanDiscovery
| Pause | Resume | TogglePause | OpCancel | OpShutdown.

(** [SearchFilter]; dates are ISO-8601 text. *)
Record SearchFilter : Type := mkFilter {
  sf_date_from : option string;
  sf_date_to : option string;
  sf_from : list string;
  sf_kind : list string;
  sf_include_sources : list string;
  sf_exclude_sources : list string;
  sf_exclude_kinds : list string;
}.

(** An [f32] by its bits. *)
Record F32 : Type := mkF32 { f32_bits : Z }.

Inductive Req : Type :=
| Run (workload : WorkloadKind) (input : WorkloadInput)
| Search (query : string) (limit : nat) (prefix : option string) (priority : Priority)
    (filter : option SearchFilter) (abstain_threshold : option F32)
| SearchRerank (query : string) (limit : nat) (prefix : option string) (candidates : nat)
    (priority : Priority) (filter : option SearchFilter) (abstain_threshold : option F32)
| GetChunk (chunk_id : string).

Definition default_search_priority : Priority := Interactive.
(** [1.0]. *)
Definition default_search_confidence : F32 := mkF32 1065353216.

Record HitRow : Type := mkHit {
  hit_score : F32; hit_chunk_id : string; hit_file_path : string; hit_chunk_index : Z;
  hit_chunk_text : string; hit_embed_score : option F32;
}.
Record ChunkRow : Type := mkChunk {
  ch_chunk_id : string; ch_file_path : string; ch_chunk_index : Z;
  ch_kind : option string; ch_source_name : option string; ch_text : string;
}.

Inductive Resp : Type :=
| RespRun (output : WorkloadOutput)
| RespSearch (hits : list HitRow) (confidence : F32) (abstained : bool)
| RespChunk (chunk : option ChunkRow)
| RespError (msg : string).

(** ** Methods *)

Definition M_REFRESH_SOURCES := "knowledge.refresh_sources".
Definition M_INDEX_NOW := "knowledge.index_now".
Definition M_FULL_RESYNC := "knowledge.full_resync".
Definition M_RELOAD_SCHEDULE := "knowledge.reload_schedule".
Definition M_RESCAN_DISCOVERY := "knowledge.rescan_discovery".
Definition M_PAUSE := "knowledge.pause".
Definition M_RESUME := "knowledge.resume".
Definition M_TOGGLE_PAUSE := "knowledge.toggle_pause".
Definition M_CANCEL := "knowledge.cancel".
Definition M_SHUTDOWN := "knowledge.shutdown".
Definition M_RUN := "knowledge.run".
Definition M_SEARCH := "knowledge.search".
Definition M_SEARCH_RERANK := "knowledge.search_rerank".
Definition M_GET_CHUNK := "knowledge.get_chunk".
Definition M_AIPLANE_RUN := "aiplane.run".
Definition M_AIPLANE_BATCH := "aiplane.batch".
Definition M_AIPLANE_CANCEL := "aiplane.cancel".
Definition M_AIPLANE_STATUS := "aiplane.status".

Definition AIPLANE_METHODS : list string :=
  [M_AIPLANE_BATCH; M_AIPLANE_CANCEL; M_AIPLANE_RUN; M_AIPLANE_STATUS].

Definition KNOWLEDGE_METHODS : list string :=
  [M_CANCEL; M_FULL_RESYNC; M_GET_CHUNK; M_INDEX_NOW; M_PAUSE; M_REFRESH_SOURCES;
   M_RELOAD_SCHEDULE; M_RESCAN_DISCOVERY; M_RESUME; M_RUN; M_SEARCH; M_SEARCH_RERANK;
   M_SHUTDOWN; M_TOGGLE_PAUSE].

Definition op_to_v1 (op : Op) : string * json :=
  (match op with
   | RefreshSources => M_REFRESH_SOURCES
   | IndexNow => M_INDEX_NOW
   | FullResync => M_FULL_RESYNC
   | ReloadSchedule => M_RELOAD_SCHEDULE
   | RescanDiscovery => M_RESCAN_DISCOVERY
   | Pause => M_PAUSE
   | Resume => M_RESUME
   | TogglePause => M_TOGGLE_PAUSE
   | OpCancel => M_CANCEL
   | OpShutdown => M_SHUTDOWN
   end, JObj []).

(** [try_method_to_op]; the arms of the match in order. *)
Definition try_method_to_op (method : string) (_params : json) : option Op :=
  if String.eqb method M_REFRESH_SOURCES then Some RefreshSources
  else if String.eqb method M_INDEX_NOW then Some IndexNow
  else if String.eqb method M_FULL_RESYNC then Some FullResync
  else if String.eqb method M_RELOAD_SCHEDULE then Some ReloadSchedule
  else if String.eqb method M_RESCAN_DISCOVERY then Some RescanDiscovery
  else if String.eqb method M_PAUSE then Some Pause
  else if String.eqb method M_RESUME then Some Resume
  else if String.eqb method M_TOGGLE_PAUSE then Some TogglePause
  else if String.eqb method M_CANCEL then Some OpCancel
  else if String.eqb method M_SHUTDOWN then Some OpShutdown
  else None.

Local Open Scope sy_scope.

Section translation.
(** The derived JSON forms of the payload types. *)
Context `{!Serde WorkloadKind} `{!Serde WorkloadInput} `{!Serde WorkloadOutput}.
Context `{!Serde SearchFilter} `{!Serde F32} `{!Serde HitRow} `{!Serde ChunkRow}.

Definition req_to_v1 (req : Req) : string * json :=
  match req with
  | Run workload input =>
      (M_RUN, JObj [("workload", to_json workload); ("input", to_json input)])
  | Search query limit prefix _ filter abstain_threshold =>
      (M_SEARCH, JObj [("query", to_json query); ("limit", to_json limit);
         ("prefix", to_json prefix); ("filter", to_json filter);
         ("abstain_threshold", to_json abstain_threshold)])
  | SearchRerank query limit prefix candidates _ filter abstain_threshold =>
      (M_SEARCH_RERANK, JObj [("query", to_json query); ("limit", to_json limit);
         ("prefix", to_json prefix); ("candidates", to_json candidates);
         ("filter", to_json filter); ("abstain_threshold", to_json abstain_threshold)])
  | GetChunk chunk_id => (M_GET_CHUNK, JObj [("chunk_id", to_json chunk_id)])
  end.

(** [try_method_to_req], with the params structs it derives decoders for. *)
Definition try_method_to_req (method : string) (params : json) : result (option Req) string :=
  if String.eqb method M_RUN then
    try _ <- struct_shape 2 params;
    try workload <- field 0 "workload" params;
    try input <- field 1 "input" params;
    Ok (Some (Run workload input))
  else if String.eqb method M_SEARCH then
    try _ <- struct_shape 5 params;
    try query <- field 0 "query" params;
    try limit <- field 1 "limit" params;
    try prefix <- field_default 2 "prefix" None params;
    try filter <- field_default 3 "filter" None params;
    try abstain_threshold <- field_default 4 "abstain_threshold" None params;
    Ok (Some (Search query limit prefix default_search_priority filter abstain_threshold))
  else if String.eqb method M_SEARCH_RERANK then
    try _ <- struct_shape 6 params;
    try query <- field 0 "query" params;
    try limit <- field 1 "limit" params;
    try prefix <- field_default 2 "prefix" None params;
    try candidates <- field 3 "candidates" params;
    try filter <- field_default 4 "filter" None params;
    try abstain_threshold <- field_default 5 "abstain_threshold" None params;
    Ok (Some (SearchRerank query limit prefix candidates default_search_priority filter
                abstain_threshold))
  else if String.eqb method M_GET_CHUNK then
    try _ <- struct_shape 1 params;
    try chunk_id <- field 0 "chunk_id" params;
    Ok (Some (GetChunk chunk_id))
  else Ok None.

(** The restamping of [KnowledgeBridge::handle]. *)
Definition restamp (p : Priority) (req : Req) : Req :=
  match req with
  | Search q l pre _ f a => Search q l pre p f a
  | SearchRerank q l pre c _ f a => SearchRerank q l pre c p f a
  | Run _ _ | GetChunk _ => req
  end.

(** ** Responses *)

Definition v1_ok_empty (request_id : N) : Response :=
  ROk SCHEMA_VERSION request_id (JObj []) None.

Definition v1_err (request_id : N) (code : ErrorCode.ErrorCode) (message : string) : Response :=
  RErr SCHEMA_VERSION request_id (mkErrorBody code message None JNull).

(** [Display] of [AiplaneError]; [dec] renders integers. *)
Definition aiplane_error_str (dec : Z → string) (e : Scheduler.AiplaneError) : string :=
  match e with
  | Scheduler.Overloaded class depth ms =>
      "queue overloaded for class=" ++ as_str class ++ " depth=" ++ dec (Z.of_nat depth)
        ++ " retry_after=" ++ dec ms ++ "ms"
  | Scheduler.Cancelled => "cancelled"
  | Scheduler.WorkloadFailed e => "workload failed: " ++ e
  end%string.

Definition aiplane_error_to_v1 (dec : Z → string) (request_id : N) (err : Scheduler.AiplaneError)
    : Response :=
  let details := match err with
    | Scheduler.Overloaded class queue_depth _ =>
        JObj [("class", JStr (as_str class)); ("queue_depth", to_json queue_depth)]
    | _ => JNull
    end in
  RErr SCHEMA_VERSION request_id
    (mkErrorBody (Scheduler.wire_code err) (aiplane_error_str dec err)
       (Scheduler.retry_after_ms err) details).

Definition legacy_resp_to_v1 (request_id : N) (resp : Resp) : Response :=
  match resp with
  | RespRun output => ROk SCHEMA_VERSION request_id (JObj [("output", to_json output)]) None
  | RespSearch hits confidence abstained =>
      ROk SCHEMA_VERSION request_id
        (JObj [("hits", JArr (map to_json hits)); ("confidence", to_json confidence);
               ("abstained", JBool abstained)]) None
  | RespChunk chunk => ROk SCHEMA_VERSION request_id (JObj [("chunk", to_json chunk)]) None
  | RespError msg => v1_err request_id ErrorCode.Internal msg
  end.

(** Decoding a JSON array element by element. *)
Fixpoint list_of_json {A} `{!Serde A} (l : list json) : result (list A) string :=
  match l with
  | [] => Ok []
  | v :: l' => try a <- of_json v; try rest <- list_of_json l'; Ok (a :: rest)
  end.
Definition vec_of_json {A} `{!Serde A} (v : json) : result (list A) string :=
  match v with JArr l => list_of_json l | _ => Err "invalid type: expected a sequence" end.

(** [v1_response_to_legacy], the client's side. *)
Definition v1_response_to_legacy (method : string) (v1 : Response) : result Resp string :=
  match v1 with
  | ROk _ _ result _ =>
      if String.eqb method M_RUN then
        try output <- of_json (default JNull (jget "output" result)); Ok (RespRun output)
      else if String.eqb method M_SEARCH || String.eqb method M_SEARCH_RERANK then
        try hits <- vec_of_json (default JNull (jget "hits" result));
        let confidence := match jget "confidence" result with
          | Some v => match of_json v with Ok f => f | Err _ => default_search_confidence end
          | None => default_search_confidence
          end in
        let abstained := match jget "abstained" result with Some (JBool b) => b | _ => false end in
        Ok (RespSearch hits confidence abstained)
      else if String.eqb method M_GET_CHUNK then
        try chunk <- of_json (default JNull (jget "chunk" result)); Ok (RespChunk chunk)
      else Ok (RespRun (OutText ""))
  | RErr _ _ error =>
      Ok (RespError (ErrorCode.code_str (err_code error) ++ ": " ++ err_message error))
  end.

(** [decode_batch_outputs]. *)
Definition decode_batch_outputs (dec : Z → string) (result : json) (expected : nat)
    : Prelude.result (list WorkloadOutput) Scheduler.AiplaneError :=
  match vec_of_json (default (JArr []) (jget "outputs" result)) with
  | Err e => Err (Scheduler.WorkloadFailed ("aiplane.batch outputs: " ++ e))
  | Ok outputs =>
      if decide (length outputs = expected) then Ok outputs
      else Err (Scheduler.WorkloadFailed ("aiplane.batch returned " ++ dec (Z.of_nat (length outputs))
                  ++ " outputs for " ++ dec (Z.of_nat expected) ++ " inputs"))
  end%string.

End translation.

(** ** Who answers *)

Inductive BridgeMode : Type := Knowledge | Aiplane.
#[export] Instance BridgeMode_eq_dec : EqDecision BridgeMode.
Proof. solve_decision. Defined.

(** [SYSTEM_METHODS]. *)
Definition SYSTEM_METHODS : list string :=
  ["system.describe"; "system.health"; "system.cancel"; "system.mon.snapshot";
   "system.mon.subscribe"; "system.mon.history"].

(** The methods [SystemMethods::try_handle] answers. *)
Inductive SystemMethod : Type := Describe | HealthProbe | SystemCancel.
Definition try_handle (method : string) : option SystemMethod :=
  if String.eqb method "system.describe" then Some Describe
  else if String.eqb method "system.health" then Some HealthProbe
  else if String.eqb method "system.cancel" then Some SystemCancel
  else None.

(** The domain methods a bridge hands to [SystemMethods::new]. *)
Definition advertised (mode : BridgeMode) (aiplane_enabled : bool) : list string :=
  (if decide (mode = Knowledge) then KNOWLEDGE_METHODS else []) ++
  (if aiplane_enabled then AIPLANE_METHODS else []).

(** [Vec::dedup] on strings. *)
Fixpoint dedup_strings (l : list string) : list string :=
  match l with
  | x :: (y :: _) as l' => if String.eqb x y then dedup_strings l' else x :: dedup_strings l'
  | _ => l
  end.

(** [SystemMethods::describe_methods]. *)
Definition describe_methods (daemon_methods : list string) : list string :=
  dedup_strings (merge_sort String.le (SYSTEM_METHODS ++ daemon_methods)).

(** What [KnowledgeBridge::handle] does with a request: answer it from a
    handler of its own, forward an op, hand a legacy request to the worker, or
    refuse. *)
Inductive Route : Type :=
| ToSystem (m : SystemMethod) (trip_daemon_cancel : bool)
| ToAiplaneStatus
| ToAiplaneRun
| ToAiplaneBatch
| ToAiplaneCancel
| ToOps (op : Op)
| ToReqs (req : Req)
| RefuseOtherPlane
| RefuseUnknown
| RefuseParams (e : string).

Section routing.
Context `{!Serde WorkloadKind} `{!Serde WorkloadInput} `{!Serde SearchFilter} `{!Serde F32}.

Definition route (mode : BridgeMode) (aiplane_enabled : bool) (req : Request) : Route :=
  if String.eqb (method req) "system.cancel" then ToSystem SystemCancel true
  else match try_handle (method req) with
  | Some m => ToSystem m false
  | None =>
      if (bool_decide (mode = Aiplane) && negb (String.prefix "aiplane." (method req)))
         || (negb aiplane_enabled && String.prefix "aiplane." (method req))
      then RefuseOtherPlane
      else if String.eqb (method req) M_AIPLANE_STATUS then ToAiplaneStatus
      else if String.eqb (method req) M_AIPLANE_RUN then ToAiplaneRun
      else if String.eqb (method req) M_AIPLANE_BATCH then ToAiplaneBatch
      else if String.eqb (method req) M_AIPLANE_CANCEL then ToAiplaneCancel
      else match try_method_to_op (method req) (params req) with
      | Some op => ToOps op
      | None =>
          match try_method_to_req (method req) (params req) with
          | Ok (Some r) => ToReqs (restamp (priority req) r)
          | Ok None => RefuseUnknown
          | Err e => RefuseParams e
          end
      end
  end.

(** The refusals' responses. *)
Definition refuse (req : Request) (r : Route) : option Response :=
  match r with
  | RefuseOtherPlane =>
      Some (v1_err (request_id req) ErrorCode.BadRequest "method belongs to another plane")
  | RefuseUnknown =>
      Some (v1_err (request_id req) ErrorCode.BadRequest ("unknown method: " ++ method req))
  | RefuseParams e =>
      Some (v1_err (request_id req) ErrorCode.BadRequest ("bad params: " ++ e))
  | _ => None
  end%string.

(** The bridge has a handler for the method. *)
Definition handled (r : Route) : bool :=
  match r with RefuseOtherPlane | RefuseUnknown => false | _ => true end.

End routing.

(** [serve_one_connection]'s test of the first byte: a legacy line-JSON caller. *)
Definition looks_legacy (b : Z) : bool :=
  ((b =? 123) || (b =? 91) || (b =? 32) || (b =? 9) || (b =? 10) || (b =? 12) || (b =? 13))%Z.

(** ** The aiplane handlers *)

(** What a handler does to the bridge, in order. *)
Inductive Effect : Type :=
| ERegister (id : N)
| EInsertKind (id : N) (kind : WorkloadKind)
| ESleep (ms : nat)
| EAdmit (id : N) (kind : WorkloadKind) (inputs : list WorkloadInput) (class : Priority)
| EDropGuard (id : N)
| ERemoveKind (id : N)
| ECancelToken (id : N)
| EWorkerCancel (kind : WorkloadKind) (id : N).

(** How the wait for the scheduler's answer ends. *)
Inductive Outcome : Type :=
| OutCancelled
| OutReply (r : Scheduler.Answer)
| OutDropped.

(** What the handler meets at its suspension points: the token tripping during
    the sleep, the check after it, the admission, and the final wait. *)
Record Await : Type := mkAwait {
  aw_sleep_cancelled : bool;
  aw_cancelled : bool;
  aw_admit : result unit Scheduler.AiplaneError;
  aw_outcome : Outcome;
}.

Section handlers.
Context `{!Serde WorkloadKind} `{!Serde WorkloadInput} `{!Serde WorkloadOutput} `{!Serde N}.
Context (dec : Z → string).

(** [AiplaneRunParams], [AiplaneBatchParams] and [AiplaneCancelParams]. *)
Definition run_params (v : json) : result (WorkloadKind * WorkloadInput * option nat) string :=
  try _ <- struct_shape 3 v;
  try workload <- field 0 "workload" v;
  try input <- field 1 "input" v;
  try sleep_ms <- field_default 2 "sleep_ms" None v;
  Ok (workload, input, sleep_ms).
Definition batch_params_of (v : json) : result (WorkloadKind * list WorkloadInput * option nat) string :=
  try _ <- struct_shape 3 v;
  try workload <- field 0 "workload" v;
  try inputs <- match struct_field 1 "inputs" v with
                | Some l => vec_of_json l
                | None => Err "missing field `inputs`"
                end;
  try sleep_ms <- field_default 2 "sleep_ms" None v;
  Ok (workload, inputs, sleep_ms).
Definition cancel_params (v : json) : result (N * option WorkloadKind) string :=
  try _ <- struct_shape 2 v;
  try target <- field 0 "target_request_id" v;
  try workload <- field_default 1 "workload" None v;
  Ok (target, workload).

Definition sleep_effect (ms : option nat) : list Effect :=
  match ms with Some n => [ESleep n] | None => [] end.
Definition slept_through (ms : option nat) (aw : Await) : bool :=
  match ms with Some _ => aw_sleep_cancelled aw | None => false end.

(** [handle_aiplane_run]. Returning drops [_inflight], then [guard], unless
    the guard was dropped before. *)
Definition handle_aiplane_run (req : Request) (aw : Await) : Response * list Effect :=
  let id := request_id req in
  match run_params (params req) with
  | Err e => (v1_err id ErrorCode.BadRequest ("aiplane.run params: " ++ e)%string, [])
  | Ok (workload, input, sleep_ms) =>
      let entered := [ERegister id; EInsertKind id workload] ++ sleep_effect sleep_ms in
      let released := [ERemoveKind id; EDropGuard id] in
      let cancelled := v1_err id ErrorCode.Cancelled "aiplane.run cancelled" in
      if slept_through sleep_ms aw then (cancelled, entered ++ released)
      else if aw_cancelled aw then (cancelled, entered ++ released)
      else
        let admitted := entered ++ [EAdmit id workload [input] (priority req)] in
        match aw_admit aw with
        | Err e => (aiplane_error_to_v1 dec id e, admitted ++ released)
        | Ok _ =>
            match aw_outcome aw with
            | OutCancelled => (cancelled, admitted ++ released)
            | OutReply (Ok outputs) =>
                (match last outputs with
                 | Some output => ROk SCHEMA_VERSION id (JObj [("output", to_json output)]) None
                 | None => v1_err id ErrorCode.Internal "aiplane.run: backend returned no output"
                 end, admitted ++ [EDropGuard id; ERemoveKind id])
            | OutReply (Err e) =>
                (aiplane_error_to_v1 dec id e, admitted ++ [EDropGuard id; ERemoveKind id])
            | OutDropped =>
                (v1_err id ErrorCode.Internal "aiplane dispatcher dropped response oneshot",
                 admitted ++ [EDropGuard id; ERemoveKind id])
            end
        end
  end.

(** [handle_aiplane_batch]. *)
Definition handle_aiplane_batch (req : Request) (aw : Await) : Response * list Effect :=
  let id := request_id req in
  match batch_params_of (params req) with
  | Err e => (v1_err id ErrorCode.BadRequest ("aiplane.batch params: " ++ e)%string, [])
  | Ok (workload, inputs, sleep_ms) =>
      let entered := [ERegister id; EInsertKind id workload] ++ sleep_effect sleep_ms in
      let released := [ERemoveKind id; EDropGuard id] in
      let cancelled := v1_err id ErrorCode.Cancelled "aiplane.batch cancelled" in
      if slept_through sleep_ms aw then (cancelled, entered ++ released)
      else if aw_cancelled aw then (cancelled, entered ++ released)
      else
        let admitted := entered ++ [EAdmit id workload inputs (priority req)] in
        match aw_admit aw with
        | Err e => (aiplane_error_to_v1 dec id e, admitted ++ released)
        | Ok _ =>
            match aw_outcome aw with
            | OutCancelled => (cancelled, admitted ++ released)
            | OutReply (Ok outputs) =>
                (ROk SCHEMA_VERSION id (JObj [("outputs", JArr (map to_json outputs))]) None,
                 admitted ++ [EDropGuard id; ERemoveKind id])
            | OutReply (Err e) =>
                (aiplane_error_to_v1 dec id e, admitted ++ [EDropGuard id; ERemoveKind id])
            | OutDropped =>
                (v1_err id ErrorCode.Internal "aiplane dispatcher dropped response oneshot",
                 admitted ++ [EDropGuard id; ERemoveKind id])
            end
        end
  end.

(** [handle_aiplane_cancel]: [inflight] is the registry as read, [cancelled]
    what [CancelRegistry::cancel] returned, [worker_cancel] the backend. *)
Definition handle_aiplane_cancel (req : Request) (inflight : gmap N WorkloadKind)
    (cancelled : bool) (worker_cancel : WorkloadKind → N → result unit string)
    : Response * list Effect :=
  let id := request_id req in
  match cancel_params (params req) with
  | Err e => (v1_err id ErrorCode.BadRequest ("aiplane.cancel params: " ++ e)%string, [])
  | Ok (target, named) =>
      let resolved := match named with Some k => Some k | None => inflight !! target end in
      let '(error, fired) := match resolved with
        | Some k => (match worker_cancel k target with Ok _ => None | Err e => Some e end,
                     [EWorkerCancel k target])
        | None => (None, [])
        end in
      (ROk SCHEMA_VERSION id
         (JObj [("target_request_id", to_json target); ("cancelled", JBool cancelled);
                ("worker_cancel_error", to_json error)]) None,
       ECancelToken target :: fired)
  end.

End handlers.

(** The effects on [inflight_kinds]. *)
Definition apply_kind (m : gmap N WorkloadKind) (e : Effect) : gmap N WorkloadKind :=
  match e with
  | EInsertKind id k => <[id := k]> m
  | ERemoveKind id => delete id m
  | _ => m
  end.
Definition apply_kinds (es : list Effect) (m : gmap N WorkloadKind) : gmap N WorkloadKind :=
  foldl apply_kind m es.

(** [admit_blocking_batch]: the scheduler handle, the admission and the
    receive; and [admit_blocking]. *)
Definition admit_blocking_batch (installed : bool) (admission : result unit Scheduler.AiplaneError)
    (received : option Scheduler.Answer) : Scheduler.Answer :=
  if installed then
    match admission with
    | Err e => Err e
    | Ok _ =>
        match received with
        | Some answer => answer
        | None => Err (Scheduler.WorkloadFailed "scheduler rx dropped")
        end
    end
  else Err (Scheduler.WorkloadFailed "aiplane scheduler not running").
Definition admit_blocking (kind : WorkloadKind) (installed : bool)
    (admission : result unit Scheduler.AiplaneError) (received : option Scheduler.Answer)
    : result WorkloadOutput Scheduler.AiplaneError :=
  match admit_blocking_batch installed admission received with
  | Err e => Err e
  | Ok outputs =>
      match last outputs with
      | Some o => Ok o
      | None => Err (Scheduler.WorkloadFailed
          ("scheduler: backend returned no output for a one-input " ++ kind_str kind ++ " request"))
      end
  end%string.

(** ** Lemmas *)
Lemma op_method_inv m p op : try_method_to_op m p = Some op → m = (op_to_v1 op).1.
Proof.
  unfold try_method_to_op.
  repeat match goal with
  | |- context [String.eqb ?a ?b] => destruct (String.eqb_spec a b); [intros [= <-]; done|]
  end. done.
Qed.

Section laws.
Context `{!Serde WorkloadKind} `{!SerdeLaws WorkloadKind (λ _, True)}.
Context `{!Serde WorkloadInput} (ok_input : WorkloadInput → Prop) `{!SerdeLaws WorkloadInput ok_input}.
Context `{!Serde WorkloadOutput} (ok_output : WorkloadOutput → Prop) `{!SerdeLaws WorkloadOutput ok_output}.
Context `{!Serde SearchFilter} `{!SerdeLaws SearchFilter (λ _, True)}.
Context `{!Serde F32} (finite : F32 → Prop) `{!SerdeLaws F32 finite}.
Context `{!Serde HitRow} (ok_hit : HitRow → Prop) `{!SerdeLaws HitRow ok_hit}.
Context `{!Serde ChunkRow} `{!SerdeLaws ChunkRow (λ _, True)}.

(** The requests and responses JSON can carry: their floats are finite. *)
Definition req_ok (req : Req) : Prop :=
  match req with
  | Run _ input => ok_input input
  | Search _ _ _ _ _ a | SearchRerank _ _ _ _ _ _ a => ∀ f, a = Some f → finite f
  | GetChunk _ => True
  end.
Definition resp_ok (method : string) (resp : Resp) : Prop :=
  match resp with
  | RespRun o => method = M_RUN ∧ ok_output o
  | RespSearch hits c _ =>
      (method = M_SEARCH ∨ method = M_SEARCH_RERANK) ∧ Forall ok_hit hits ∧ finite c
  | RespChunk _ => method = M_GET_CHUNK
  | RespError _ => True
  end.

Lemma list_of_to_json {A} `{!Serde A} (ok : A → Prop) `{!SerdeLaws A ok} l :
  Forall ok l → list_of_json (map to_json l) = Ok l.
Proof.
  induction 1 as [|a l Ha _ IH]; [done|]. simpl. rewrite of_to_json by done. simpl.
  by rewrite IH.
Qed.

(** The legacy vocabulary survives the trip to v1 and back: every op comes
    back from its method, every request comes back with the priority of the
    envelope, and no method means both. *)
Theorem legacy_round_trip :
  (∀ op p, try_method_to_op (op_to_v1 op).1 p = Some op) ∧
  (∀ m p op, try_method_to_op m p = Some op → m = (op_to_v1 op).1) ∧
  (∀ req prio, req_ok req →
     (restamp prio <$> match try_method_to_req (req_to_v1 req).1 (req_to_v1 req).2 with
                       | Ok o => o | Err _ => None end) = Some (restamp prio req)) ∧
  (∀ req p, try_method_to_op (req_to_v1 req).1 p = None).
Proof.
  split_and!.
  - by intros [].
  - apply op_method_inv.
  - intros req prio Hok. destruct req as [k i|q l pre pr f a|q l pre c pr f a|c]; simpl in Hok.
    + unfold try_method_to_req. simpl. unfold field. simpl. rewrite (of_to_json k) by done.
      simpl. by rewrite (of_to_json i).
    + unfold try_method_to_req. cbn -[to_json of_json]. unfold field, field_default.
      cbn -[to_json of_json serde_option]. rewrite !of_to_json by done. cbn -[to_json of_json serde_option].
      rewrite !(of_to_json_option (λ _, True)), (of_to_json_option finite) by done.
      done.
    + unfold try_method_to_req. cbn -[to_json of_json]. unfold field, field_default.
      cbn -[to_json of_json serde_option]. rewrite !of_to_json by done. cbn -[to_json of_json serde_option].
      rewrite !(of_to_json_option (λ _, True)), (of_to_json_option finite) by done.
      cbn -[to_json of_json serde_option]. by rewrite (of_to_json c) by done.
    + done.
  - by intros [].
Qed.

(** What the daemon's worker answers is what the client's caller sees: a
    legacy response carried by a v1 envelope decodes to itself under the method
    it answers, and an error to its code and message. *)
Theorem responses_round_trip id method resp :
  resp_ok method resp →
  v1_response_to_legacy method (legacy_resp_to_v1 id resp) =
  Ok (match resp with RespError msg => RespError ("Internal: " ++ msg)%string | _ => resp end).
Proof.
  intros Hok. destruct resp as [o|hits c ab|ch|msg]; simpl in Hok.
  - destruct Hok as [-> Ho]. simpl. by rewrite of_to_json.
  - destruct Hok as (Hm & Hh & Hc). unfold legacy_resp_to_v1, v1_response_to_legacy.
    destruct Hm as [-> | ->]; simpl; rewrite (list_of_to_json ok_hit) by done; simpl;
      by rewrite (of_to_json c).
  - subst. cbn -[to_json of_json serde_option].
    by rewrite (of_to_json_option (λ _, True)) by done.
  - done.
Qed.

End laws.

Section routes.
Context `{!Serde WorkloadKind} `{!Serde WorkloadInput} `{!Serde SearchFilter} `{!Serde F32}.

Lemma handled_knowledge m p :
  handled (match try_method_to_op m p with
           | Some op => ToOps op
           | None => match try_method_to_req m p with
                     | Ok (Some r) => ToReqs r | Ok None => RefuseUnknown
                     | Err e => RefuseParams e end
           end) = bool_decide (m ∈ KNOWLEDGE_METHODS).
Proof.
  destruct (decide (m ∈ KNOWLEDGE_METHODS)) as [Hin|Hnot].
  - rewrite bool_decide_eq_true_2 by done. unfold KNOWLEDGE_METHODS in Hin.
    repeat (apply elem_of_cons in Hin as [->|Hin]; [try done|]); [..|by apply not_elem_of_nil in Hin].
    all: cbn -[of_json serde_option serde_string serde_nat]; unfold rbind, struct_shape;
      repeat case_match; simplify_eq; done.
  - rewrite bool_decide_eq_false_2 by done. unfold KNOWLEDGE_METHODS in Hnot.
    rewrite !not_elem_of_cons in Hnot. destruct_and!.
    unfold try_method_to_op, try_method_to_req.
    repeat match goal with
    | |- context [String.eqb m ?b] => destruct (String.eqb_spec m b); [done|]
    end. done.
Qed.

(** C18. The bridge serves exactly the domain methods it advertises: outside
    the reserved [system.] methods it answers, a request is refused as unknown
    or as another plane's if and only if its method is not in the list handed
    to [system.describe], in every mode and whichever daemon owns the device. *)
Theorem advertised_iff_handled mode enabled req :
  try_handle (method req) = None →
  handled (route mode enabled req) = true ↔ method req ∈ advertised mode enabled.
Proof.
  intros Hsys. unfold route. destruct (String.eqb_spec (method req) "system.cancel") as [E|_].
  { by rewrite E in Hsys. }
  rewrite Hsys. unfold advertised. rewrite elem_of_app.
  assert (Hpre : ∀ m, m ∈ AIPLANE_METHODS → String.prefix "aiplane." m = true).
  { intros m Hm. unfold AIPLANE_METHODS in Hm.
    repeat (apply elem_of_cons in Hm as [->|Hm]; [done|]). by apply not_elem_of_nil in Hm. }
  assert (Hkn : ∀ m, m ∈ KNOWLEDGE_METHODS → String.prefix "aiplane." m = false).
  { intros m Hm. unfold KNOWLEDGE_METHODS in Hm.
    repeat (apply elem_of_cons in Hm as [->|Hm]; [done|]). by apply not_elem_of_nil in Hm. }
  set (rest := match try_method_to_op _ _ with Some op => ToOps op | None => _ end).
  assert (Hrest : handled rest = bool_decide (method req ∈ KNOWLEDGE_METHODS)).
  { rewrite <- (handled_knowledge (method req) (params req)). unfold rest.
    destruct (try_method_to_op _ _); [done|]. by destruct (try_method_to_req _ _) as [[]|]. }
  clearbody rest.
  set (inner := if String.eqb (method req) M_AIPLANE_STATUS then ToAiplaneStatus else _).
  assert (Hinner : handled inner = true ↔
    method req ∈ AIPLANE_METHODS ∨ method req ∈ KNOWLEDGE_METHODS).
  { unfold inner, AIPLANE_METHODS.
    repeat match goal with
    | |- context [String.eqb (method req) ?b] =>
        destruct (String.eqb_spec (method req) b); [set_solver|]
    end.
    rewrite Hrest, bool_decide_eq_true. set_solver. }
  clearbody inner. clear Hrest rest.
  destruct (String.prefix "aiplane." (method req)) eqn:Ep; cbn [negb]; rewrite andb_false_r, andb_true_r.
  - assert (method req ∉ KNOWLEDGE_METHODS) as Hk by (intros Hm; apply Hkn in Hm; congruence).
    destruct enabled; simpl; rewrite ?Hinner; destruct mode; simpl; rewrite ?elem_of_nil; intuition done.
  - assert (method req ∉ AIPLANE_METHODS) as Ha by (intros Hm; apply Hpre in Hm; congruence).
    destruct mode; simpl; rewrite ?Hinner; destruct enabled; simpl; rewrite ?elem_of_nil; intuition done.
Qed.

End routes.

(** The admissions among a handler's effects, and its guards made and dropped. *)
Definition admissions (es : list Effect) : list (N * WorkloadKind * list WorkloadInput * Priority) :=
  omap (λ e, match e with EAdmit i k ins c => Some (i, k, ins, c) | _ => None end) es.
Definition registered (es : list Effect) : list N :=
  omap (λ e, match e with ERegister i => Some i | _ => None end) es.
Definition dropped (es : list Effect) : list N :=
  omap (λ e, match e with EDropGuard i => Some i | _ => None end) es.

(** A handler's run leaves nothing behind, and admits at most once. *)
Definition well_behaved (req : Request) (aw : Await) (out : Response * list Effect) : Prop :=
  (∀ m, apply_kinds out.2 m = match out.2 with [] => m | _ => delete (request_id req) m end) ∧
  registered out.2 = dropped out.2 ∧
  (admissions out.2 = [] ∨
   ∃ k ins, admissions out.2 = [(request_id req, k, ins, priority req)]) ∧
  (aw_cancelled aw = true → admissions out.2 = []) ∧
  match out.1 with ROk _ _ _ _ => admissions out.2 ≠ [] | RErr _ _ _ => True end.

Lemma delete_insert_same (m : gmap N WorkloadKind) i k : delete i (<[i := k]> m) = delete i m.
Proof.
  apply map_eq. intros j. destruct (decide (j = i)) as [->|].
  - by rewrite !lookup_delete_eq.
  - by rewrite !lookup_delete_ne, lookup_insert_ne.
Qed.

Section handler_properties.
Context `{!Serde WorkloadKind} `{!Serde WorkloadInput} `{!Serde WorkloadOutput} `{!Serde N}.
Context (dec : Z → string).


End handler_properties.

(** Telling legacy callers from v1 ones by the first byte never turns away
    a v1 frame: any payload under 144 MiB is framed with a first byte that no
    line of JSON can start with. *)
Theorem sniff_accepts_frames p b rest :
  write_frame p = Ok (b :: rest) → (Z.of_nat (length p) < 150994944)%Z → looks_legacy b = false.
Proof.
  unfold write_frame. destruct (Z.ltb_spec (Z.of_nat (length p)) U32_MOD); [|done].
  intros E Hp.
  assert (b = Z.land (Z.shiftr (Z.of_nat (length p)) 24) 255) as ->.
  { assert (to_be_bytes (Z.of_nat (length p)) ++ p = b :: rest) as E' by congruence.
    unfold to_be_bytes in E'. by injection E' as <- _. }
  rewrite byte_of_spec by lia.
  assert (0 <= Z.of_nat (length p) / 2 ^ 24 < 9)%Z as Hb.
  { split; [apply Z.div_pos; lia|]. apply Z.div_lt_upper_bound; lia. }
  rewrite Z.mod_small by lia. unfold looks_legacy. set (x := (_ / _)%Z) in *. clearbody x.
  repeat (match goal with |- context [(x =? ?c)%Z] => destruct (Z.eqb_spec x c); [lia|] end). done.
Qed.

Lemma sniff_accepts_frames_witness :
  write_frame [123; 125]%Z = Ok [0; 0; 0; 2; 123; 125]%Z ∧ looks_legacy 0 = false.
Proof.
  split; [reflexivity|].
  apply (sniff_accepts_frames [123; 125]%Z 0%Z [0; 0; 2; 123; 125]%Z); reflexivity.
Defined.

(** ** A concrete JSON form *)

Section concrete_json.

Definition jfield (k : string) (v : json) : json := default JNull (jget k v).
Definition jints (l : list Z) : json := JArr (map JNum l).
Definition ints_of (v : json) : result (list Z) string :=
  match v with
  | JArr l => Ok (map (λ x, match x with JNum n => n | _ => 0%Z end) l)
  | _ => Err "invalid type"
  end.
Definition jstr_of (v : json) : string := match v with JStr s => s | _ => "" end.

#[export] Instance json_kind : Serde WorkloadKind := {|
  to_json k := JStr (kind_str k);
  of_json v := match kind_from_str (jstr_of v) with Some k => Ok k | None => Err "unknown variant" end;
|}.
#[export] Instance json_kind_laws : SerdeLaws WorkloadKind (λ _, True).
Proof. split; by intros []. Qed.

#[export] Instance json_input : Serde WorkloadInput := {|
  to_json i := match i with
    | InText text => JObj [("kind", JStr "text"); ("text", JStr text)]
    | InTextPair a b => JObj [("kind", JStr "text-pair"); ("a", JStr a); ("b", JStr b)]
    | InAudio pcm sr => JObj [("kind", JStr "audio"); ("pcm", jints pcm); ("sr", JNum sr)]
    | InImage bytes => JObj [("kind", JStr "image"); ("bytes", jints bytes)]
    end;
  of_json v :=
    let kind := jstr_of (jfield "kind" v) in
    if String.eqb kind "text" then Ok (InText (jstr_of (jfield "text" v)))
    else if String.eqb kind "text-pair" then
      Ok (InTextPair (jstr_of (jfield "a" v)) (jstr_of (jfield "b" v)))
    else if String.eqb kind "audio" then
      match ints_of (jfield "pcm" v), jfield "sr" v with
      | Ok pcm, JNum sr => Ok (InAudio pcm sr)
      | _, _ => Err "audio"
      end
    else if String.eqb kind "image" then
      match ints_of (jfield "bytes" v) with Ok b => Ok (InImage b) | Err e => Err e end
    else Err "unknown variant";
|}.

Lemma ints_of_jints l : ints_of (jints l) = Ok l.
Proof. unfold ints_of, jints. by rewrite map_map, map_id. Qed.

#[export] Instance json_input_laws : SerdeLaws WorkloadInput (λ _, True).
Proof.
  split; [|by intros []]. intros [t|a b|pcm sr|bytes] _; [done|done| |];
    cbn -[ints_of jints]; by rewrite ints_of_jints.
Qed.

#[export] Instance json_filter : Serde SearchFilter := {|
  to_json f := JArr (map (λ o, match o with Some s => JStr s | None => JNull end)
                      [sf_date_from f; sf_date_to f]
                    ++ map (λ l, JArr (map JStr l))
                      [sf_from f; sf_kind f; sf_include_sources f; sf_exclude_sources f; sf_exclude_kinds f]);
  of_json v :=
    let opt x := match x with JStr s => Some s | _ => None end in
    let strs x := match x with JArr l => map jstr_of l | _ => [] end in
    match v with
    | JArr [a; b; c; d; e; g; h] =>
        Ok (mkFilter (opt a) (opt b) (strs c) (strs d) (strs e) (strs g) (strs h))
    | _ => Err "filter"
    end;
|}.
#[export] Instance json_filter_laws : SerdeLaws SearchFilter (λ _, True).
Proof.
  split; [|done]. intros [[] [] ? ? ? ? ?] _; simpl; rewrite ?map_map; simpl; by rewrite ?map_id.
Qed.

(** The exponent is not all ones. *)
Definition f32_finite (f : F32) : Prop := (f32_bits f / 2 ^ 23 mod 256 ≠ 255)%Z.
#[export] Instance json_f32 : Serde F32 := {|
  to_json f := if (f32_bits f / 2 ^ 23 mod 256 =? 255)%Z then JNull else JFloat (f32_bits f);
  of_json v := match v with JFloat b => Ok (mkF32 b) | _ => Err "invalid type" end;
|}.
#[export] Instance json_f32_laws : SerdeLaws F32 f32_finite.
Proof.
  split; intros [b] Hb; unfold f32_finite in Hb; simpl in *;
    by destruct (Z.eqb_spec (b / 2 ^ 23 mod 256) 255).
Qed.

#[export] Instance json_output : Serde WorkloadOutput := {|
  to_json o := match o with OutText s => JStr s | _ => JBool false end;
  of_json v := match v with JStr s => Ok (OutText s) | _ => Err "output" end;
|}.
#[export] Instance json_output_laws : SerdeLaws WorkloadOutput (λ o, ∃ s, o = OutText s).
Proof. split; by intros ? [s ->]. Qed.

#[export] Instance json_hit : Serde HitRow := {|
  to_json h := JStr (hit_chunk_text h);
  of_json v := match v with
    | JStr s => Ok (mkHit (mkF32 0) "" "" 0 s None)
    | _ => Err "hit" end;
|}.
#[export] Instance json_hit_laws : SerdeLaws HitRow (λ h, ∃ s, h = mkHit (mkF32 0) "" "" 0 s None).
Proof. split; by intros ? [s ->]. Qed.

#[export] Instance json_chunk : Serde ChunkRow := {|
  to_json c := JArr [JStr (ch_chunk_id c); JStr (ch_file_path c); JNum (ch_chunk_index c);
    match ch_kind c with Some s => JStr s | None => JNull end;
    match ch_source_name c with Some s => JStr s | None => JNull end; JStr (ch_text c)];
  of_json v := match v with
    | JArr [JStr a; JStr b; JNum i; k; s; JStr t] =>
        Ok (mkChunk a b i (match k with JStr x => Some x | _ => None end)
              (match s with JStr x => Some x | _ => None end) t)
    | _ => Err "chunk" end;
|}.
#[export] Instance json_chunk_laws : SerdeLaws ChunkRow (λ _, True).
Proof. split; [|done]. by intros [? ? ? [] [] ?]. Qed.

Definition run_search : Req := Search "q" 5 None Interactive None (Some (mkF32 1056964608)).
Definition run_envelope (m : string) : Request :=
  mkRequest 1 7 None None None Realtime m (JObj [("chunk_id", JStr "c1")]).

End concrete_json.

Lemma legacy_round_trip_witness :
  req_ok (λ _, True) f32_finite run_search ∧
  ∃ o, try_method_to_req (req_to_v1 run_search).1 (req_to_v1 run_search).2 = o ∧
  (restamp Realtime <$> match o with Ok o => o | Err _ => None end) =
  Some (restamp Realtime run_search).
Proof.
  assert (H : req_ok (λ _, True) f32_finite run_search).
  { simpl. intros f Hf. injection Hf as <-. vm_compute. discriminate. }
  split; [exact H|]. eexists. split; [reflexivity|].
  destruct (legacy_round_trip (λ _, True) f32_finite) as (_ & _ & L & _).
  exact (L run_search Realtime H).
Defined.

Lemma responses_round_trip_witness :
  v1_response_to_legacy M_GET_CHUNK (legacy_resp_to_v1 7 (RespChunk None)) = Ok (RespChunk None).
Proof.
  refine (responses_round_trip (λ o, ∃ s, o = OutText s) f32_finite
    (λ h, ∃ s, h = mkHit (mkF32 0) "" "" 0 s None) 7 M_GET_CHUNK (RespChunk None) _).
  reflexivity.
Defined.

Lemma advertised_iff_handled_witness :
  try_handle M_GET_CHUNK = None ∧
  handled (route Knowledge true (run_envelope M_GET_CHUNK)) = true.
Proof.
  split; [reflexivity|].
  apply (advertised_iff_handled Knowledge true (run_envelope M_GET_CHUNK)); [reflexivity|].
  apply elem_of_app. left. simpl. apply (bool_decide_unpack _). vm_compute. exact I.
Defined.

(** [system.describe] lists methods no handler answers: the reserved
    [system.mon] names are in every bridge's list, and the bridge refuses them. *)
Theorem describe_lists_unhandled :
  "system.mon.snapshot" ∈ describe_methods (advertised Knowledge true) ∧
  handled (route Knowledge true (run_envelope "system.mon.snapshot")) = false.
Proof. split; [apply (bool_decide_unpack _); vm_compute; exact I|reflexivity]. Qed.

(** The list is sorted as a whole, so the [system.] methods do not come
    first: the domain methods of both planes sort before them. *)
Theorem describe_lists_system_last :
  head (describe_methods (advertised Knowledge true)) = Some M_AIPLANE_BATCH ∧
  last (describe_methods (advertised Knowledge true)) = Some "system.mon.subscribe".
Proof. by vm_compute. Qed.

End Bridge.
