(* ===== verification/Ring.v ===== *)
(** * The monitor's history ring

    [crates/sy-core/src/mon/ring.rs]: the file-backed ring of f32 rows. Files
    are lists of bytes, the mmap is the file from [HEADER_LEN] on, and a held
    [flock] is a path in the set of locked files; each [push] is the list of
    its writes, so that a crash is a prefix of it. *)

From S2P Require Import Prelude.
From Stdlib Require Import Ascii.
Local Open Scope list_scope.

Module Ring.

(** ** Bytes *)

(** [to_le_bytes] and [from_le_bytes] for [k]-byte integers. *)
Fixpoint to_le (k : nat) (v : Z) : list Z :=
  match k with O => [] | S k' => (v mod 256)%Z :: to_le k' (v / 256) end.
Fixpoint from_le (b : list Z) : Z :=
  match b with [] => 0%Z | x :: b' => (x + 256 * from_le b')%Z end.

(** Positioned reads and writes inside a file. *)
Definition read_at (off len : nat) (f : list Z) : list Z := take len (drop off f).
Definition write_at (off : nat) (b : list Z) (f : list Z) : list Z :=
  take off f ++ b ++ drop (off + length b) f.

Definition MAGIC : list Z :=
  map (λ a, Z.of_nat (nat_of_ascii a)) (String.list_ascii_of_string "sy-mon-ring-v1") ++ replicate 18 0%Z.
Definition HEADER_LEN : nat := 56.
Definition OFF_SEQ : nat := 32.
Definition OFF_N_SECS : nat := 40.
Definition OFF_HEAD : nat := 48.

(** Files, and the paths some live [Ring] holds the lock of. *)
Record FS : Type := mkFS { fs_files : gmap string (list Z); fs_locked : gset string }.

(** [Ring]; the data is in the file. [r_lock]: it holds the lock. *)
Record Ring : Type := mkRing {
  r_path : string;
  r_lock : bool;
  r_n_secs : nat;
  r_n_metrics : nat;
  r_head : Z;
  r_seq : Z;
}.

Inductive RingError : Type :=
| ZeroShape | NotFound | Locked | WrongSize | MagicMismatch | ShortHeader | HeaderZeroShape
| ShapeMismatch | RowLength | IndexRange
| BusFault.  (* access to mapped pages past the end of the file *)

Definition expected_len (n_secs n_metrics : nat) : nat := HEADER_LEN + n_secs * n_metrics * 4.

(** [init_file]: [ftruncate], then the header. *)
Definition init_file (n_secs n_metrics total_len : nat) : list Z :=
  write_at 0 (MAGIC ++ to_le 8 0 ++ to_le 4 (Z.of_nat n_secs) ++ to_le 4 (Z.of_nat n_metrics)
              ++ to_le 8 0) (replicate total_len 0%Z).

(** [read_header]: seq, shape and head. *)
Definition read_header (f : list Z) : result (Z * nat * nat * Z) RingError :=
  if length f <? HEADER_LEN then Err ShortHeader
  else if decide (read_at 0 32 f = MAGIC) then
    let seq := from_le (read_at OFF_SEQ 8 f) in
    let n_secs := Z.to_nat (from_le (read_at OFF_N_SECS 4 f)) in
    let n_metrics := Z.to_nat (from_le (read_at 44 4 f)) in
    let head := from_le (read_at OFF_HEAD 8 f) in
    if (n_secs =? 0) || (n_metrics =? 0) then Err HeaderZeroShape
    else Ok (seq, n_secs, n_metrics, head)
  else Err MagicMismatch.

Definition shape_ok (n_secs n_metrics : nat) : bool := negb ((n_secs =? 0) || (n_metrics =? 0)).

(** [Ring::open]. The file is created before the lock is tried, and an error
    after locking drops the lock again. *)
Definition open (path : string) (n_secs n_metrics : nat) (fs : FS) : result Ring RingError * FS :=
  if negb (shape_ok n_secs n_metrics) then (Err ZeroShape, fs) else
  let total_len := expected_len n_secs n_metrics in
  let fs := match fs_files fs !! path with
            | Some _ => fs
            | None => mkFS (<[path := []]> (fs_files fs)) (fs_locked fs)
            end in
  if decide (path ∈ fs_locked fs) then (Err Locked, fs) else
  let cur := default [] (fs_files fs !! path) in
  let cur' := if length cur =? 0 then init_file n_secs n_metrics total_len else cur in
  let fs' := mkFS (<[path := cur']> (fs_files fs)) (fs_locked fs) in
  if negb (length cur =? 0) && negb (length cur =? total_len) then (Err WrongSize, fs) else
  match read_header cur' with
  | Err e => (Err e, fs')
  | Ok (seq, n, m, head) =>
      if (n =? n_secs) && (m =? n_metrics) then
        (Ok (mkRing path true n_secs n_metrics head seq),
         mkFS (fs_files fs') ({[path]} ∪ fs_locked fs'))
      else (Err ShapeMismatch, fs')
  end.

(** [Ring::open_attach]. *)
Definition open_attach (path : string) (n_secs n_metrics : nat) (fs : FS) : result Ring RingError :=
  if negb (shape_ok n_secs n_metrics) then Err ZeroShape else
  match fs_files fs !! path with
  | None => Err NotFound
  | Some f =>
      if negb (length f =? expected_len n_secs n_metrics) then Err WrongSize else
      match read_header f with
      | Err e => Err e
      | Ok (seq, n, m, head) =>
          if (n =? n_secs) && (m =? n_metrics) then
            Ok (mkRing path false n_secs n_metrics head seq)
          else Err ShapeMismatch
      end
  end.

(** [Ring::open_or_rebuild]; [File::create] truncates whatever the lock. *)
Definition open_or_rebuild (path : string) (n_secs n_metrics : nat) (fs : FS)
    : result Ring RingError * FS :=
  match open path n_secs n_metrics fs with
  | (Ok r, fs') => (Ok r, fs')
  | (Err _, fs') =>
      open path n_secs n_metrics (mkFS (<[path := []]> (fs_files fs')) (fs_locked fs'))
  end.

(** Dropping a [Ring] releases its lock. *)
Definition drop_ring (r : Ring) (fs : FS) : FS :=
  if r_lock r then mkFS (fs_files fs) (fs_locked fs ∖ {[r_path r]}) else fs.

(** [bytemuck_cast]: the row's bytes; an [f32] is its 32 bits. *)
Definition row_bytes (row : list Z) : list Z := concat (map (to_le 4) row).

(** What a push does to the file, in order. *)
Inductive Write : Type := WriteAt (off : nat) (b : list Z) | Flush.

Definition apply_write (f : list Z) (w : Write) : list Z :=
  match w with WriteAt off b => write_at off b f | Flush => f end.
Definition apply_writes (f : list Z) (ws : list Write) : list Z := foldl apply_write f ws.

Definition slot_off (r : Ring) (slot : nat) : nat := HEADER_LEN + slot * (r_n_metrics r * 4).
Definition next_slot (r : Ring) : nat := Z.to_nat (r_head r mod Z.of_nat (r_n_secs r)).

(** [write_header]. *)
Definition write_header (seq : Z) (n_secs n_metrics : nat) (head : Z) : list Write :=
  [WriteAt OFF_SEQ (to_le 8 seq); WriteAt OFF_N_SECS (to_le 4 (Z.of_nat n_secs));
   WriteAt 44 (to_le 4 (Z.of_nat n_metrics)); WriteAt OFF_HEAD (to_le 8 head)].

Definition push_writes (r : Ring) (row : list Z) : list Write :=
  WriteAt (slot_off r (next_slot r)) (row_bytes row)
  :: write_header (wrapping_add64 (r_seq r) 1) (r_n_secs r) (r_n_metrics r)
       (wrapping_add64 (r_head r) 1) ++ [Flush].

(** [Ring::push]. *)
Definition push (row : list Z) (r : Ring) (fs : FS) : result Ring RingError * FS :=
  if negb (length row =? r_n_metrics r) then (Err RowLength, fs) else
  let f := default [] (fs_files fs !! r_path r) in
  if length f <? slot_off r (next_slot r) + length (row_bytes row) then (Err BusFault, fs) else
  (Ok (mkRing (r_path r) (r_lock r) (r_n_secs r) (r_n_metrics r)
         (wrapping_add64 (r_head r) 1) (wrapping_add64 (r_seq r) 1)),
   mkFS (<[r_path r := apply_writes f (push_writes r row)]> (fs_files fs)) (fs_locked fs)).

(** [Ring::read_metric]. *)
Definition read_metric (idx up_to_n_secs : nat) (r : Ring) (fs : FS) : result (list Z) RingError :=
  if r_n_metrics r <=? idx then Err IndexRange else
  let f := default [] (fs_files fs !! r_path r) in
  let cap := Z.of_nat (r_n_secs r) in
  let want := Z.min (Z.of_nat up_to_n_secs) (Z.min (r_head r) cap) in
  if (want =? 0)%Z then Ok [] else
  let start_slot := ((r_head r + cap - want) mod U64_MOD mod cap)%Z in
  if length f <? expected_len (r_n_secs r) (r_n_metrics r) then Err BusFault else
  Ok ((λ i, let slot := Z.to_nat ((start_slot + Z.of_nat i) mod cap) in
            from_le (read_at (slot_off r slot + idx * 4) 4 f)) <$> seq 0 (Z.to_nat want)).

(** ** The queue it stands for *)

(** The last [n] elements. *)
Definition lastn {A} (n : nat) (l : list A) : list A := drop (length l - n) l.

(** What [read_metric] should return for the rows pushed, oldest first. *)
Definition queue_read (idx up_to cap : nat) (hist : list (list Z)) : list Z :=
  (λ row, nth idx row 0%Z) <$> lastn (Nat.min up_to cap) hist.

(** Rows of [m] 32-bit samples. *)
Definition row_ok (m : nat) (row : list Z) : Prop := length row = m ∧ Forall u32_range row.

(** The file holds the ring of the rows [hist], the newest [w] of them intact. *)
Record file_holds (f : list Z) (n m : nat) (seq head : Z) (hist : list (list Z)) (w : nat) : Prop := {
  fh_len : length f = expected_len n m;
  fh_magic : read_at 0 32 f = MAGIC;
  fh_seq : read_at OFF_SEQ 8 f = to_le 8 seq;
  fh_n : read_at OFF_N_SECS 4 f = to_le 4 (Z.of_nat n);
  fh_m : read_at 44 4 f = to_le 4 (Z.of_nat m);
  fh_head : read_at OFF_HEAD 8 f = to_le 8 head;
  fh_rows i row : hist !! i = Some row → length hist <= i + w →
    read_at (HEADER_LEN + (i mod n) * (m * 4)) (m * 4) f = row_bytes row;
}.

(** A non-zero [u32]. *)
Definition u32_nonzero (k : nat) : Prop := 0 < k ∧ (Z.of_nat k < U32_MOD)%Z.

Record ring_holds (fs : FS) (r : Ring) (hist : list (list Z)) : Prop := {
  rh_shape : u32_nonzero (r_n_secs r) ∧ u32_nonzero (r_n_metrics r);
  rh_head : r_head r = Z.of_nat (length hist) ∧ (r_head r + Z.of_nat (r_n_secs r) < U64_MOD)%Z;
  rh_seq : u64_range (r_seq r);
  rh_rows : Forall (row_ok (r_n_metrics r)) hist;
  rh_file : ∃ f, fs_files fs !! r_path r = Some f ∧
    file_holds f (r_n_secs r) (r_n_metrics r) (r_seq r) (r_head r) hist (r_n_secs r);
}.

(** Pushing rows one after the other. *)
Fixpoint push_all (rows : list (list Z)) (r : Ring) (fs : FS) : result Ring RingError * FS :=
  match rows with
  | [] => (Ok r, fs)
  | row :: rows' =>
      match push row r fs with
      | (Ok r', fs') => push_all rows' r' fs'
      | (Err e, fs') => (Err e, fs')
      end
  end.

(** ** Bytes *)
Lemma to_le_length k v : length (to_le k v) = k.
Proof. revert v. induction k; intros v; simpl; auto. Qed.

Lemma from_to_le k v : (0 <= v < 256 ^ Z.of_nat k)%Z → from_le (to_le k v) = v.
Proof.
  revert v. induction k as [|k IH]; intros v Hv.
  - simpl in *. rewrite Z.pow_0_r in Hv. lia.
  - cbn [to_le from_le]. rewrite Nat2Z.inj_succ, Z.pow_succ_r in Hv by lia.
    rewrite IH; [|split; [apply Z.div_pos; lia|apply Z.div_lt_upper_bound; lia]].
    pose proof (Z.div_mod v 256). lia.
Qed.

Lemma lookup_read_at off len f i :
  read_at off len f !! i = if decide (i < len) then f !! (off + i) else None.
Proof.
  unfold read_at. case_decide.
  - by rewrite lookup_take_lt, lookup_drop.
  - apply lookup_take_ge. lia.
Qed.

Lemma lookup_write_at off b f i :
  off + length b <= length f →
  write_at off b f !! i = if decide (off <= i < off + length b) then b !! (i - off) else f !! i.
Proof.
  intros Hl. unfold write_at. assert (length (take off f) = off) as Ht by (rewrite length_take; lia).
  case_decide as Hi.
  - rewrite lookup_app_r by lia. rewrite Ht, lookup_app_l by lia. done.
  - destruct (decide (i < off)).
    + rewrite lookup_app_l by lia. by rewrite lookup_take_lt.
    + rewrite lookup_app_r, Ht, lookup_app_r, lookup_drop by lia. f_equal. lia.
Qed.

Lemma length_write_at off b f : off + length b <= length f → length (write_at off b f) = length f.
Proof. intros H. unfold write_at. rewrite !length_app, length_take, length_drop. lia. Qed.

Lemma read_write_same off k b f :
  length b = k → off + k <= length f → read_at off k (write_at off b f) = b.
Proof.
  intros <- Hl. apply list_eq. intros i. rewrite lookup_read_at. case_decide.
  - rewrite lookup_write_at, decide_True by lia. f_equal. lia.
  - symmetry. apply lookup_ge_None. lia.
Qed.

Lemma read_write_other off len off' b f :
  off' + length b <= length f → off + len <= off' ∨ off' + length b <= off →
  read_at off len (write_at off' b f) = read_at off len f.
Proof.
  intros Hl Hd. apply list_eq. intros i. rewrite !lookup_read_at. case_decide; [|done].
  by rewrite lookup_write_at, decide_False by lia.
Qed.

Lemma read_read_at off len off' len' f :
  off' + len' <= len → read_at off' len' (read_at off len f) = read_at (off + off') len' f.
Proof.
  intros Hl. apply list_eq. intros i. rewrite !lookup_read_at. case_decide; [|done].
  rewrite decide_True by lia. f_equal. lia.
Qed.

Lemma row_bytes_length row : length (row_bytes row) = length row * 4.
Proof.
  unfold row_bytes. induction row as [|x row IH]; [done|]. cbn [map concat length].
  rewrite length_app, to_le_length, IH. lia.
Qed.

Lemma row_bytes_read row idx :
  idx < length row → read_at (idx * 4) 4 (row_bytes row) = to_le 4 (nth idx row 0%Z).
Proof.
  revert idx. induction row as [|x row IH]; intros idx Hi; simpl in Hi; [lia|].
  unfold row_bytes. cbn [map concat]. unfold read_at. destruct idx as [|idx].
  - rewrite drop_0. by rewrite <- (to_le_length 4 x) at 1; rewrite take_app_length.
  - replace (S idx * 4) with (length (to_le 4 x) + idx * 4) by (rewrite to_le_length; lia).
    rewrite drop_app_add. apply IH. lia.
Qed.

(** ** Reading *)
Lemma lastn_lookup {A} n (l : list A) i : lastn n l !! i = l !! (length l - n + i).
Proof. unfold lastn. by rewrite lookup_drop. Qed.

Lemma lastn_length {A} n (l : list A) : length (lastn n l) = Nat.min n (length l).
Proof. unfold lastn. rewrite length_drop. lia. Qed.

Lemma slot_of_index (L n want i : nat) :
  0 < n → want <= L → want <= n → i < want →
  Z.to_nat (((Z.of_nat L + Z.of_nat n - Z.of_nat want) mod Z.of_nat n + Z.of_nat i) mod Z.of_nat n)
  = (L - want + i) mod n.
Proof.
  intros Hn H1 H2 Hi. rewrite Z.add_mod_idemp_l by lia.
  replace (Z.of_nat L + Z.of_nat n - Z.of_nat want + Z.of_nat i)%Z
    with (Z.of_nat (L - want + i) + 1 * Z.of_nat n)%Z by lia.
  rewrite Z.mod_add by lia. rewrite <- Nat2Z.inj_mod. apply Nat2Z.id.
Qed.

Lemma read_metric_spec fs r f hist idx k w seq :
  0 < r_n_secs r → fs_files fs !! r_path r = Some f →
  file_holds f (r_n_secs r) (r_n_metrics r) seq (r_head r) hist w →
  Forall (row_ok (r_n_metrics r)) hist →
  r_head r = Z.of_nat (length hist) → (r_head r + Z.of_nat (r_n_secs r) < U64_MOD)%Z →
  idx < r_n_metrics r → Nat.min k (r_n_secs r) <= w →
  read_metric idx k r fs = Ok (queue_read idx k (r_n_secs r) hist).
Proof.
  intros Hn Ef Hf Hrows Hh Hlt Hidx Hw. unfold read_metric.
  destruct (Nat.leb_spec (r_n_metrics r) idx); [lia|]. rewrite Ef. cbn [default id from_option].
  rewrite (fh_len _ _ _ _ _ _ _ Hf), Nat.ltb_irrefl.
  set (L := length hist) in *. set (n := r_n_secs r) in *.
  set (want := Nat.min k (Nat.min L n)).
  replace (Z.min (Z.of_nat k) (Z.min (r_head r) (Z.of_nat n))) with (Z.of_nat want) by lia.
  assert (Hlen : length (lastn (Nat.min k n) hist) = want) by (rewrite lastn_length; lia).
  destruct (Z.eqb_spec (Z.of_nat want) 0) as [E0|Hwant].
  { unfold queue_read. destruct (lastn _ _); [done|]. simpl in Hlen. lia. }
  rewrite Nat2Z.id. f_equal. unfold queue_read. apply list_eq. intros i.
  rewrite (Z.mod_small (r_head r + _ - _)) by lia.
  rewrite !list_lookup_fmap, lastn_lookup. fold L.
  destruct (decide (i < want)) as [Hi|Hi].
  - rewrite lookup_seq_lt by lia. cbn [fmap option_fmap option_map].
    rewrite Hh, slot_of_index by lia.
    replace (L - Nat.min k n + i) with (L - want + i) by lia.
    destruct (lookup_lt_is_Some_2 hist (L - want + i)) as [row Er]; [fold L; lia|].
    rewrite Er. cbn [fmap option_fmap option_map]. f_equal.
    pose proof (Forall_lookup_1 _ _ _ _ Hrows Er) as [Hrl Hru].
    unfold slot_off. rewrite <- (read_read_at (HEADER_LEN + (L - want + i) mod n * (r_n_metrics r * 4)) (r_n_metrics r * 4)) by lia.
    fold n. rewrite (fh_rows _ _ _ _ _ _ _ Hf _ _ Er) by (fold L; lia).
    rewrite row_bytes_read by lia. apply from_to_le.
    assert (u32_range (nth idx row 0%Z)) as Hr; [|exact Hr].
    rewrite Forall_forall in Hru. apply Hru, list_elem_of_In, nth_In. lia.
  - rewrite lookup_seq_ge by lia.
    destruct (hist !! _) eqn:Er; [|done]. apply lookup_lt_Some in Er. fold L in Er. lia.
Qed.

(** ** Writing *)
Lemma mod_ne (n i L : nat) : i < L → L < i + n → i mod n ≠ L mod n.
Proof.
  intros H1 H2 E. pose proof (Nat.div_mod_eq i n). pose proof (Nat.div_mod_eq L n).
  assert (L / n = i / n ∨ i / n < L / n ∨ L / n < i / n) as [Eq|[?|?]] by lia; [rewrite Eq in *; lia|nia|nia].
Qed.

Lemma slot_fits n m i : 0 < n → HEADER_LEN + (i mod n) * (m * 4) + m * 4 <= expected_len n m.
Proof.
  intros Hn. unfold expected_len. assert (i mod n < n) by (apply Nat.mod_upper_bound; lia). nia.
Qed.

Ltac hdr_offsets := unfold OFF_SEQ, OFF_N_SECS, OFF_HEAD, HEADER_LEN in *.
Ltac len_tac := rewrite ?length_write_at; rewrite ?to_le_length;
  unfold expected_len in *; hdr_offsets; try nia.
Ltac other_tac := rewrite read_write_other; [done| |]; len_tac.

Section header_writes.
Context (f : list Z) (n m : nat) (seq head : Z) (hist : list (list Z)) (w : nat).
Hypothesis Hf : file_holds f n m seq head hist w.

Lemma write_seq_holds seq' : file_holds (write_at OFF_SEQ (to_le 8 seq') f) n m seq' head hist w.
Proof.
  destruct Hf as [Hl Hm Hs Hn' Hm' Hh Hr]. split; [len_tac|other_tac| |other_tac|other_tac|other_tac|].
  - apply read_write_same; [apply to_le_length|len_tac].
  - intros i row Ei Hi. rewrite <- (Hr i row Ei Hi). rewrite read_write_other; [done| |]; len_tac.
Qed.

Lemma write_n_holds : file_holds (write_at OFF_N_SECS (to_le 4 (Z.of_nat n)) f) n m seq head hist w.
Proof.
  destruct Hf as [Hl Hm Hs Hn' Hm' Hh Hr]. split; [len_tac|other_tac|other_tac| |other_tac|other_tac|].
  - apply read_write_same; [apply to_le_length|len_tac].
  - intros i row Ei Hi. rewrite <- (Hr i row Ei Hi). rewrite read_write_other; [done| |]; len_tac.
Qed.

Lemma write_m_holds : file_holds (write_at 44 (to_le 4 (Z.of_nat m)) f) n m seq head hist w.
Proof.
  destruct Hf as [Hl Hm Hs Hn' Hm' Hh Hr]. split; [len_tac|other_tac|other_tac|other_tac| |other_tac|].
  - apply read_write_same; [apply to_le_length|len_tac].
  - intros i row Ei Hi. rewrite <- (Hr i row Ei Hi). rewrite read_write_other; [done| |]; len_tac.
Qed.

Lemma write_head_holds head' : file_holds (write_at OFF_HEAD (to_le 8 head') f) n m seq head' hist w.
Proof.
  destruct Hf as [Hl Hm Hs Hn' Hm' Hh Hr]. split; [len_tac|other_tac|other_tac|other_tac|other_tac| |].
  - apply read_write_same; [apply to_le_length|len_tac].
  - intros i row Ei Hi. rewrite <- (Hr i row Ei Hi). rewrite read_write_other; [done| |]; len_tac.
Qed.

Lemma holds_weaken w' : w' <= w → file_holds f n m seq head hist w'.
Proof. intros Hw. destruct Hf. split; [done..|]. intros i row Ei Hi. apply fh_rows0; [done|lia]. Qed.

Lemma holds_unsnoc hist' row : hist = hist' ++ [row] → 0 < w → file_holds f n m seq head hist' (w - 1).
Proof.
  intros -> Hw. destruct Hf. split; [done..|]. intros i r Ei Hi. apply fh_rows0.
  - by apply lookup_app_l_Some.
  - rewrite length_app. simpl. lia.
Qed.

(** Writing [b] at the slot of the next row spares the rows of the other slots. *)
Lemma write_slot_holds b :
  0 < n → length b <= m * 4 → w < n →
  file_holds (write_at (HEADER_LEN + (length hist mod n) * (m * 4)) b f) n m seq head hist w.
Proof.
  intros Hn Hb Hw. destruct Hf as [Hl Hm Hs Hn' Hm' Hh Hr].
  pose proof (slot_fits n m (length hist) Hn) as Hfit.
  split; [rewrite length_write_at; lia| | | | | |];
    try (rewrite read_write_other; [done|lia|hdr_offsets; lia]).
  intros i row Ei Hi. rewrite <- (Hr i row Ei Hi). rewrite read_write_other; [done|lia|].
  apply lookup_lt_Some in Ei.
  pose proof (mod_ne n i (length hist) Ei ltac:(lia)) as Hne. hdr_offsets.
  assert (i mod n < length hist mod n ∨ length hist mod n < i mod n) as [?|?] by lia; nia.
Qed.

Lemma write_row_holds row :
  0 < n → length row = m → n - 1 <= w →
  file_holds (write_at (HEADER_LEN + (length hist mod n) * (m * 4)) (row_bytes row) f)
    n m seq head (hist ++ [row]) n.
Proof.
  intros Hn Hb Hw. pose proof (slot_fits n m (length hist) Hn) as Hfit.
  assert (file_holds f n m seq head hist (n - 1)) as Hf' by (by apply holds_weaken).
  assert (length (row_bytes row) = m * 4) as Hrl by (rewrite row_bytes_length; lia).
  destruct Hf as [Hl Hm Hs Hn' Hm' Hh Hr].
  split; [rewrite length_write_at; lia| | | | | |];
    try (rewrite read_write_other; [done|lia|hdr_offsets; lia]).
  intros i r [Ei|[? Ei]]%lookup_app_Some Hi; rewrite length_app in Hi; simpl in Hi.
  - rewrite <- (Hr i r Ei) by lia. rewrite read_write_other; [done|lia|].
    apply lookup_lt_Some in Ei.
    pose proof (mod_ne n i (length hist) Ei ltac:(lia)) as Hne. hdr_offsets.
    assert (i mod n < length hist mod n ∨ length hist mod n < i mod n) as [?|?] by lia; nia.
  - apply list_lookup_singleton_Some in Ei as [? <-].
    replace i with (length hist) by lia. apply read_write_same; [done|lia].
Qed.

Lemma read_header_holds :
  u32_nonzero n → u32_nonzero m → u64_range seq → u64_range head →
  read_header f = Ok (seq, n, m, head).
Proof.
  intros [Hn1 Hn] [Hm1 Hm] Hs Hh. destruct Hf as [Hl Hma Hse Hn' Hm' Hhe _]. unfold read_header.
  destruct (Nat.ltb_spec (length f) HEADER_LEN); [unfold expected_len in Hl; lia|].
  rewrite decide_True by done. rewrite Hse, Hn', Hm', Hhe.
  change U32_MOD with (256 ^ Z.of_nat 4)%Z in Hn, Hm.
  rewrite !from_to_le, !Nat2Z.id by (done || lia).
  destruct (Nat.eqb_spec n 0); [lia|]. destruct (Nat.eqb_spec m 0); [lia|]. done.
Qed.

End header_writes.

(** ** Opening and pushing *)
Lemma init_holds n m :
  file_holds (init_file n m (expected_len n m)) n m 0 0 [] n.
Proof.
  unfold init_file. set (hdr := MAGIC ++ _).
  assert (length hdr = HEADER_LEN) as Hh by reflexivity.
  assert (length hdr <= length (replicate (expected_len n m) 0%Z)) as Hfit.
  { rewrite length_replicate, Hh. unfold expected_len. lia. }
  assert (forall off k, off + k <= HEADER_LEN →
    read_at off k (write_at 0 hdr (replicate (expected_len n m) 0%Z)) = read_at off k hdr) as Hr.
  { intros off k Hk. apply list_eq. intros i. rewrite !lookup_read_at. case_decide; [|done].
    rewrite lookup_write_at, decide_True by (try rewrite Hh; lia). f_equal. lia. }
  split; try (rewrite Hr; [reflexivity|hdr_offsets; lia]); [|done].
  rewrite length_write_at by done. apply length_replicate.
Qed.

(** Opening a file that is absent or empty makes the empty ring. *)
Lemma open_fresh p n m fs :
  u32_nonzero n → u32_nonzero m → default [] (fs_files fs !! p) = [] → p ∉ fs_locked fs →
  ∃ fs', open p n m fs = (Ok (mkRing p true n m 0 0), fs')
    ∧ fs_locked fs' = {[p]} ∪ fs_locked fs
    ∧ fs_files fs' !! p = Some (init_file n m (expected_len n m)).
Proof.
  intros Hn Hm Hf Hl. unfold open.
  replace (shape_ok n m) with true
    by (destruct Hn, Hm; unfold shape_ok; destruct (Nat.eqb_spec n 0), (Nat.eqb_spec m 0); (done || lia)).
  cbn [negb].
  set (fs1 := match fs_files fs !! p with Some _ => fs | None => _ end).
  assert (fs_locked fs1 = fs_locked fs) as El by (subst fs1; by destruct (fs_files fs !! p)).
  assert (default [] (fs_files fs1 !! p) = []) as Ec.
  { subst fs1. destruct (fs_files fs !! p) eqn:E; [by rewrite E|]. simpl. by rewrite lookup_insert_eq. }
  rewrite El, decide_False, Ec by done. cbn [length Nat.eqb negb andb].
  rewrite (read_header_holds _ _ _ _ _ _ _ (init_holds n m)) by (done || (split; [lia|reflexivity])).
  rewrite !Nat.eqb_refl. cbn [andb]. eexists. split; [done|]. simpl.
  split; [done|]. apply lookup_insert_eq.
Qed.

Lemma fresh_holds fs p n m :
  u32_nonzero n → u32_nonzero m → fs_files fs !! p = Some (init_file n m (expected_len n m)) →
  ring_holds fs (mkRing p true n m 0 0) [].
Proof.
  intros Hn Hm Hf. split; simpl.
  - done.
  - split; [done|]. destruct Hn as [_ Hn]. unfold U32_MOD, U64_MOD in *. lia.
  - split; [lia|reflexivity].
  - constructor.
  - eexists. split; [done|]. apply init_holds.
Qed.

(** A push appends the row. *)
Lemma push_holds fs r hist row :
  ring_holds fs r hist → row_ok (r_n_metrics r) row →
  (r_head r + 1 + Z.of_nat (r_n_secs r) < U64_MOD)%Z →
  ∃ r' fs', push row r fs = (Ok r', fs') ∧ ring_holds fs' r' (hist ++ [row])
    ∧ r' = mkRing (r_path r) (r_lock r) (r_n_secs r) (r_n_metrics r) (r_head r + 1)
             (wrapping_add64 (r_seq r) 1)
    ∧ fs_locked fs' = fs_locked fs.
Proof.
  intros [[[Hn0 Hn1] [Hm0 Hm1]] [Hh Hlt] Hs Hrows (f & Ef & Hf)] [Hrl Hru] Hb. unfold push.
  rewrite (proj2 (Nat.eqb_eq _ _) Hrl), Ef. cbn [negb default id from_option].
  assert (next_slot r = length hist mod r_n_secs r) as Hslot.
  { unfold next_slot. rewrite Hh, <- Nat2Z.inj_mod. apply Nat2Z.id. }
  pose proof (slot_fits (r_n_secs r) (r_n_metrics r) (length hist) ltac:(lia)) as Hfit.
  rewrite Hslot, row_bytes_length, Hrl, (fh_len _ _ _ _ _ _ _ Hf).
  destruct (Nat.ltb_spec (expected_len (r_n_secs r) (r_n_metrics r))
    (slot_off r (length hist mod r_n_secs r) + r_n_metrics r * 4)); [unfold slot_off in *; lia|].
  rewrite (wrapping_add64_small (r_head r)) by lia.
  eexists _, _. split; [done|]. split; [|split; done]. split; simpl.
  - done.
  - rewrite length_app. simpl. lia.
  - apply wrapping_add64_range.
  - apply Forall_app. split; [done|]. by constructor.
  - eexists. rewrite lookup_insert_eq. split; [done|].
    unfold push_writes, slot_off. rewrite Hslot, (wrapping_add64_small (r_head r)) by lia. cbn.
    apply write_head_holds with (head := r_head r), write_m_holds, write_n_holds,
      write_seq_holds with (seq := r_seq r), write_row_holds with (w := r_n_secs r); [done|lia|done|lia].
Qed.

Lemma push_all_holds rows : forall fs r hist,
  ring_holds fs r hist → Forall (row_ok (r_n_metrics r)) rows →
  (r_head r + Z.of_nat (length rows) + Z.of_nat (r_n_secs r) < U64_MOD)%Z →
  ∃ r' fs', push_all rows r fs = (Ok r', fs') ∧ ring_holds fs' r' (hist ++ rows)
    ∧ r_path r' = r_path r ∧ r_lock r' = r_lock r ∧ r_n_secs r' = r_n_secs r
    ∧ r_n_metrics r' = r_n_metrics r ∧ fs_locked fs' = fs_locked fs
    ∧ r_seq r' = ((r_seq r + Z.of_nat (length rows)) mod U64_MOD)%Z.
Proof.
  induction rows as [|row rows IH]; intros fs r hist Hr Hok Hb; cbn [push_all].
  - exists r, fs. rewrite app_nil_r. destruct Hr as [? ? Hs ? ?]. unfold u64_range in Hs.
    split; [done|]. split; [done|]. repeat (split; [done|]). simpl. by rewrite Z.add_0_r, Z.mod_small.
  - inversion_clear Hok as [|? ? Ho Hok']. cbn [length] in Hb.
    pose proof (rh_head _ _ _ Hr) as [Hh _].
    destruct (push_holds fs r hist row Hr Ho ltac:(lia)) as (r1 & fs1 & -> & Hr1 & -> & El).
    destruct (IH fs1 _ (hist ++ [row]) Hr1 Hok') as (r' & fs' & -> & Hr' & ? & ? & ? & ? & ? & Es);
      [simpl; lia|]. simpl in *.
    exists r', fs'. rewrite <- app_assoc in Hr'. simpl in Hr'.
    do 6 (split; [done|]). split; [congruence|]. rewrite Es. unfold wrapping_add64.
    rewrite Z.add_mod_idemp_l by done. f_equal. lia.
Qed.

(** Opening the file of a ring nobody has open gives the ring back. *)
Lemma reopen_holds fs r hist :
  ring_holds fs r hist → r_path r ∉ fs_locked fs →
  ∃ r' fs', open (r_path r) (r_n_secs r) (r_n_metrics r) fs = (Ok r', fs')
    ∧ ring_holds fs' r' hist ∧ r_n_secs r' = r_n_secs r ∧ r_n_metrics r' = r_n_metrics r
    ∧ r_head r' = r_head r ∧ r_seq r' = r_seq r.
Proof.
  intros [[[Hn0 Hn1] [Hm0 Hm1]] [Hh Hlt] Hs Hrows (f & Ef & Hf)] Hl. unfold open.
  replace (shape_ok _ _) with true by (unfold shape_ok;
    destruct (Nat.eqb_spec (r_n_secs r) 0), (Nat.eqb_spec (r_n_metrics r) 0); (done || lia)).
  cbn [negb]. rewrite Ef, decide_False, Ef by done. cbn [default id from_option].
  rewrite (fh_len _ _ _ _ _ _ _ Hf), Nat.eqb_refl.
  destruct (Nat.eqb_spec (expected_len (r_n_secs r) (r_n_metrics r)) 0);
    [unfold expected_len in *; hdr_offsets; lia|]. cbn [negb andb].
  rewrite (read_header_holds _ _ _ _ _ _ _ Hf) by (unfold u64_range in *; done || lia).
  rewrite !Nat.eqb_refl. cbn [andb]. eexists _, _. split; [done|]. simpl.
  split; [|done]. split; simpl; try done. exists f. rewrite lookup_insert_eq. done.
Qed.

Lemma ring_read fs r hist idx k :
  ring_holds fs r hist → idx < r_n_metrics r →
  read_metric idx k r fs = Ok (queue_read idx k (r_n_secs r) hist).
Proof.
  intros [[[Hn0 Hn1] [Hm0 Hm1]] [Hh Hlt] Hs Hrows (f & Ef & Hf)] Hi.
  apply (read_metric_spec fs r f hist idx k (r_n_secs r) (r_seq r)); try done; lia.
Qed.

Lemma drop_holds fs r hist : ring_holds fs r hist → ring_holds (drop_ring r fs) r hist.
Proof. unfold drop_ring. destruct (r_lock r); [|done]. by intros [? ? ? ? ?]. Qed.

(** ** Crashes *)

(** The file a push of [row] leaves behind when it stops part way: some bytes
    of the row written, or some of its writes done. *)
Inductive crash_file (r : Ring) (row : list Z) (f : list Z) : list Z → Prop :=
| crash_in_row c :
    crash_file r row f (write_at (slot_off r (next_slot r)) (take c (row_bytes row)) f)
| crash_between j : crash_file r row f (apply_writes f (take j (push_writes r row))).

Lemma crash_file_holds fs r hist row f f' :
  ring_holds fs r hist → row_ok (r_n_metrics r) row →
  (r_head r + 1 + Z.of_nat (r_n_secs r) < U64_MOD)%Z →
  fs_files fs !! r_path r = Some f → crash_file r row f f' →
  ∃ hist' seq', (hist' = hist ∨ hist' = hist ++ [row]) ∧ u64_range seq'
    ∧ file_holds f' (r_n_secs r) (r_n_metrics r) seq' (Z.of_nat (length hist')) hist' (r_n_secs r - 1).
Proof.
  intros [[[Hn0 Hn1] [Hm0 Hm1]] [Hh Hlt] Hs Hrows (f0 & Ef & Hf)] [Hrl Hru] Hb Ef' Hc.
  rewrite Ef in Ef'. injection Ef' as ->.
  set (n := r_n_secs r) in *. set (m := r_n_metrics r) in *.
  assert (next_slot r = length hist mod n) as Hslot.
  { unfold next_slot. rewrite Hh, <- Nat2Z.inj_mod. apply Nat2Z.id. }
  pose proof (wrapping_add64_range (r_seq r) 1) as Hs'.
  assert (file_holds (write_at (slot_off r (next_slot r)) (row_bytes row) f) n m (r_seq r) (r_head r)
            (hist ++ [row]) n) as H0.
  { unfold slot_off. rewrite Hslot. apply write_row_holds with (w := n); [done|lia|done|lia]. }
  pose proof (write_seq_holds _ _ _ _ _ _ _ H0 (wrapping_add64 (r_seq r) 1)) as H1.
  pose proof (write_n_holds _ _ _ _ _ _ _ H1) as H2.
  pose proof (write_m_holds _ _ _ _ _ _ _ H2) as H3.
  pose proof (write_head_holds _ _ _ _ _ _ _ H3 (Z.of_nat (length (hist ++ [row])))) as H4.
  assert (forall g s, u64_range s → file_holds g n m s (r_head r) (hist ++ [row]) n →
    ∃ hist' seq', (hist' = hist ∨ hist' = hist ++ [row]) ∧ u64_range seq'
      ∧ file_holds g n m seq' (Z.of_nat (length hist')) hist' (n - 1)) as Hold.
  { intros g s Hs0 Hg. exists hist, s. rewrite <- Hh. split; [auto|]. split; [done|].
    apply (holds_unsnoc _ _ _ _ _ _ _ Hg) with (row := row); [done|lia]. }
  assert (forall g s, u64_range s →
    file_holds g n m s (Z.of_nat (length (hist ++ [row]))) (hist ++ [row]) n →
    ∃ hist' seq', (hist' = hist ∨ hist' = hist ++ [row]) ∧ u64_range seq'
      ∧ file_holds g n m seq' (Z.of_nat (length hist')) hist' (n - 1)) as Hnew.
  { intros g s Hs0 Hg. exists (hist ++ [row]), s. split; [auto|]. split; [done|].
    apply (holds_weaken _ _ _ _ _ _ _ Hg). lia. }
  assert (wrapping_add64 (r_head r) 1 = Z.of_nat (length (hist ++ [row]))) as Hw.
  { rewrite wrapping_add64_small by lia. rewrite length_app. simpl. lia. }
  destruct Hc as [c|j].
  - exists hist, (r_seq r). rewrite <- Hh. split; [auto|]. split; [done|].
    unfold slot_off. rewrite Hslot. apply write_slot_holds; [|lia| |lia].
    + apply holds_weaken with (w := n); [done|lia].
    + rewrite length_take, row_bytes_length, Hrl. fold m. lia.
  - unfold push_writes. fold n m. rewrite Hw.
    destruct j as [|[|[|[|[|[|j]]]]]]; 
      cbn -[HEADER_LEN OFF_SEQ OFF_N_SECS OFF_HEAD write_at to_le slot_off next_slot row_bytes wrapping_add64 length];
      rewrite ?take_nil.
    + exists hist, (r_seq r). rewrite <- Hh. split; [auto|]. split; [done|].
      apply holds_weaken with (w := n); [done|lia].
    + eapply Hold; [|eassumption]; done.
    + eapply Hold; [|eassumption]; done.
    + eapply Hold; [|eassumption]; done.
    + eapply Hold; [|eassumption]; done.
    + eapply Hnew; [|eassumption]; done.
    + eapply Hnew; [|eassumption]; done.
Qed.

(** ** Properties *)

(** C3. A ring opened on an absent or empty file, fed any rows of the right
    width, reads back the newest [k] of its newest [n_secs] samples, oldest
    first, for every column; so does the ring opened on the file after it is
    dropped, whose write counter is the number of rows pushed. *)
Theorem ring_refines_queue p n m fs rows idx k
    (Hn : u32_nonzero n) (Hm : u32_nonzero m)
    (Hf : default [] (fs_files fs !! p) = []) (Hl : p ∉ fs_locked fs)
    (Hrows : Forall (row_ok m) rows) (Hb : (Z.of_nat (length rows) + Z.of_nat n < U64_MOD)%Z)
    (Hidx : idx < m) :
  ∃ r fs1 r1 fs2 r2 fs3,
    open p n m fs = (Ok r, fs1) ∧ push_all rows r fs1 = (Ok r1, fs2)
    ∧ read_metric idx k r1 fs2 = Ok (queue_read idx k n rows)
    ∧ open p n m (drop_ring r1 fs2) = (Ok r2, fs3)
    ∧ read_metric idx k r2 fs3 = Ok (queue_read idx k n rows)
    ∧ r_seq r2 = Z.of_nat (length rows).
Proof.
  destruct (open_fresh p n m fs Hn Hm Hf Hl) as (fs1 & Eo & El & Ef).
  pose proof (fresh_holds _ _ _ _ Hn Hm Ef) as H0.
  destruct (push_all_holds rows fs1 _ [] H0 Hrows ltac:(simpl; lia))
    as (r1 & fs2 & Ep & H1 & Hp & Hk & E1 & E2 & E3 & Es). simpl in *.
  destruct (reopen_holds (drop_ring r1 fs2) r1 rows (drop_holds _ _ _ H1))
    as (r2 & fs3 & Eo2 & H2 & E4 & E5 & _ & Es2).
  { unfold drop_ring. rewrite Hk, Hp. simpl. set_solver. }
  eexists _, fs1, r1, fs2, r2, fs3. split; [exact Eo|]. split; [exact Ep|].
  rewrite Hp, E1, E2 in Eo2. split; [rewrite <- E1; apply (ring_read _ _ _ _ _ H1); lia|].
  split; [done|]. split; [rewrite <- E1, <- E4; apply (ring_read _ _ _ _ _ H2); lia|].
  rewrite Es2, Es. apply Z.mod_small. lia.
Qed.

(** C12. A reader attached to the file a push left when it stopped part way sees,
    for every window of fewer than [n_secs] samples, exactly the samples of the
    rows before the push or exactly those of the rows after it. *)
Theorem crash_reads_before_or_after fs r hist row f f' idx k
    (Hr : ring_holds fs r hist) (Hrow : row_ok (r_n_metrics r) row)
    (Hb : (r_head r + 1 + Z.of_nat (r_n_secs r) < U64_MOD)%Z)
    (Hf : fs_files fs !! r_path r = Some f) (Hc : crash_file r row f f')
    (Hidx : idx < r_n_metrics r) (Hk : k < r_n_secs r) :
  let fs' := mkFS (<[r_path r := f']> (fs_files fs)) ∅ in
  ∃ r' hist', open_attach (r_path r) (r_n_secs r) (r_n_metrics r) fs' = Ok r'
    ∧ (hist' = hist ∨ hist' = hist ++ [row])
    ∧ read_metric idx k r' fs' = Ok (queue_read idx k (r_n_secs r) hist').
Proof.
  destruct (crash_file_holds _ _ _ _ _ _ Hr Hrow Hb Hf Hc) as (hist' & seq' & Hh' & Hs' & Hf').
  destruct Hr as [[[Hn0 Hn1] [Hm0 Hm1]] [Hh Hlt] _ Hrows _]. intros fs'.
  assert ((Z.of_nat (length hist') + Z.of_nat (r_n_secs r) < U64_MOD)%Z) as Hb'.
  { destruct Hh' as [-> | ->]; [|rewrite length_app; simpl]; lia. }
  set (r' := mkRing (r_path r) false (r_n_secs r) (r_n_metrics r) (Z.of_nat (length hist')) seq').
  exists r', hist'. split; [|split; [done|]].
  - unfold open_attach. replace (shape_ok _ _) with true by (unfold shape_ok;
      destruct (Nat.eqb_spec (r_n_secs r) 0), (Nat.eqb_spec (r_n_metrics r) 0); (done || lia)).
    cbn [negb]. subst fs'. simpl. rewrite lookup_insert_eq, (fh_len _ _ _ _ _ _ _ Hf'), Nat.eqb_refl.
    cbn [negb]. rewrite (read_header_holds _ _ _ _ _ _ _ Hf') by (unfold u64_range; done || lia).
    by rewrite !Nat.eqb_refl.
  - apply (read_metric_spec fs' r' f' hist' idx k (r_n_secs r - 1) seq'); simpl; try done; try lia.
    + subst fs'. simpl. apply lookup_insert_eq.
    + destruct Hh' as [-> | ->]; [done|]. apply Forall_app. split; [done|]. by constructor.
Qed.

(** While a ring opened for writing is alive, opening its path again for
    writing fails and changes nothing. *)
Theorem open_excludes p n m n' m' fs r fs1
    (Ho : open p n m fs = (Ok r, fs1)) (Hs : shape_ok n' m' = true) :
  open p n' m' fs1 = (Err Locked, fs1).
Proof.
  unfold open in Ho. destruct (negb (shape_ok n m)); [done|].
  revert Ho. set (fs0 := match fs_files fs !! p with Some _ => fs | None => _ end). intros Ho.
  case_decide; [done|]. destruct (negb _ && negb _); [done|].
  destruct (read_header _) as [[[[s a] b] h]|e]; [|done].
  destruct (_ && _); [|done]. injection Ho as <- <-.
  unfold open. rewrite Hs. cbn [negb fs_files fs_locked]. rewrite lookup_insert_eq.
  simpl. rewrite decide_True by set_solver. done.
Qed.

(** ** Divergences *)

(** [open_or_rebuild] on the path of a live ring empties the file the live
    ring has mapped, whether its header is valid or not, and still fails; the
    live ring's next push then faults. *)
Theorem rebuild_truncates_live_ring p n m fs f r row
    (Hl : p ∈ fs_locked fs) (Hs : shape_ok n m = true) (Hf : fs_files fs !! p = Some f)
    (Hr : r_path r = p) (Hrow : length row = r_n_metrics r) :
  ∃ fs', open_or_rebuild p n m fs = (Err Locked, fs')
    ∧ fs' = mkFS (<[p := []]> (fs_files fs)) (fs_locked fs)
    ∧ (push row r fs').1 = Err BusFault.
Proof.
  assert (forall g, fs_files (mkFS g (fs_locked fs)) !! p ≠ None →
    open p n m (mkFS g (fs_locked fs)) = (Err Locked, mkFS g (fs_locked fs))) as Ho.
  { intros g Hg. unfold open. rewrite Hs. cbn [negb fs_files fs_locked] in *.
    destruct (g !! p) eqn:E; [|done]. by rewrite decide_True by exact Hl. }
  assert (open p n m fs = (Err Locked, fs)) as E1.
  { destruct fs as [g l]. apply Ho. simpl in *. congruence. }
  eexists. split; [|split; [reflexivity|]].
  - unfold open_or_rebuild. rewrite E1. apply Ho. simpl. by rewrite lookup_insert_eq.
  - unfold push. rewrite Hr, (proj2 (Nat.eqb_eq _ _) Hrow). cbn [negb fs_files].
    rewrite lookup_insert_eq. cbn [default id from_option length].
    destruct (Nat.ltb_spec 0 (slot_off r (next_slot r) + length (row_bytes row))); [done|].
    unfold slot_off, HEADER_LEN in *. lia.
Qed.

(** A header whose write counter is torn is read without error: whatever
    bytes stand in the counter, the header of a valid ring still validates. *)
Theorem torn_seq_accepted :
  let f := init_file 2 1 (expected_len 2 1) in
  Forall (λ b, read_header (write_at OFF_SEQ b f) = Ok (from_le b, 2, 1, 0%Z))
    [replicate 8 255%Z; to_le 8 (2 ^ 63); [1; 2; 3; 4; 5; 6; 7; 8]%Z].
Proof. repeat constructor; by vm_compute. Qed.

(** ** Witnesses *)
Lemma u32_nonzero_witness : u32_nonzero 2 ∧ u32_nonzero 1.
Proof. split; split; (lia || reflexivity). Qed.

Lemma rows_witness : Forall (row_ok 1) [[5]; [6]; [7]]%Z.
Proof. repeat constructor; (done || lia). Qed.

Lemma ring_refines_queue_witness :
  queue_read 0 5 2 [[5]; [6]; [7]]%Z = [6; 7]%Z
  ∧ ∃ r fs1 r1 fs2 r2 fs3,
    open "r"%string 2 1 (mkFS ∅ ∅) = (Ok r, fs1) ∧ push_all [[5]; [6]; [7]]%Z r fs1 = (Ok r1, fs2)
    ∧ read_metric 0 5 r1 fs2 = Ok (queue_read 0 5 2 [[5]; [6]; [7]]%Z)
    ∧ open "r"%string 2 1 (drop_ring r1 fs2) = (Ok r2, fs3)
    ∧ read_metric 0 5 r2 fs3 = Ok (queue_read 0 5 2 [[5]; [6]; [7]]%Z)
    ∧ r_seq r2 = 3%Z.
Proof.
  split; [reflexivity|].
  apply (ring_refines_queue "r"%string 2 1 (mkFS ∅ ∅) [[5]; [6]; [7]]%Z 0 5); simpl;
    try apply u32_nonzero_witness; try apply rows_witness; (done || lia || set_solver).
Defined.

Definition fs_witness : FS :=
  mkFS {["r"%string := init_file 2 1 (expected_len 2 1)]} {["r"%string]}.
Definition ring_witness : Ring := mkRing "r" true 2 1 0 0.

Lemma crash_reads_before_or_after_witness :
  let f := init_file 2 1 (expected_len 2 1) in
  let fs' := mkFS (<["r"%string := write_at 56 [7; 0]%Z f]> (fs_files fs_witness)) ∅ in
  ∃ r' hist', open_attach "r" 2 1 fs' = Ok r' ∧ (hist' = [] ∨ hist' = [[7%Z]])
    ∧ read_metric 0 1 r' fs' = Ok (queue_read 0 1 2 hist').
Proof.
  apply (crash_reads_before_or_after fs_witness ring_witness [] [7%Z]
    (init_file 2 1 (expected_len 2 1)) (write_at 56 [7; 0]%Z (init_file 2 1 (expected_len 2 1))) 0 1);
    [|repeat constructor; done|done| |exact (crash_in_row _ _ _ 2)|simpl; lia..].
  - apply (fresh_holds fs_witness "r" 2 1); [apply u32_nonzero_witness..|done].
  - done.
Defined.

Lemma rebuild_truncates_live_ring_witness :
  ∃ fs', open_or_rebuild "r" 2 1 fs_witness = (Err Locked, fs')
    ∧ fs' = mkFS (<["r"%string := []]> (fs_files fs_witness)) (fs_locked fs_witness)
    ∧ (push [7%Z] ring_witness fs').1 = Err BusFault.
Proof.
  apply (rebuild_truncates_live_ring "r" 2 1 fs_witness (init_file 2 1 (expected_len 2 1))
    ring_witness [7%Z]); (reflexivity || set_solver).
Defined.

Lemma open_excludes_witness :
  ∃ r fs1, open "r"%string 2 1 (mkFS ∅ ∅) = (Ok r, fs1) ∧ open "r"%string 3 1 fs1 = (Err Locked, fs1).
Proof.
  destruct (open_fresh "r" 2 1 (mkFS ∅ ∅)) as (fs1 & Eo & _); try apply u32_nonzero_witness;
    [done|set_solver|].
  eexists _, fs1. split; [exact Eo|]. exact (open_excludes "r" 2 1 3 1 (mkFS ∅ ∅) _ fs1 Eo eq_refl).
Defined.

End Ring.
