(* ===== verification/Text.v ===== *)
(** * Text

    Rust strings as lists of [char]s (code points), with the operations of
    [str] that the components use. *)

From Stdlib Require Import OrdersEx.
From S2P Require Import Prelude.
Local Open Scope list_scope.

Module Text.

Notation char := Z (only parsing).
Notation text := (list Z).

(** [char::is_whitespace]: the code points with Unicode's White_Space. *)
Definition is_whitespace (c : char) : bool :=
  ((9 <=? c) && (c <=? 13) || (c =? 32) || (c =? 133) || (c =? 160) || (c =? 5760)
   || (8192 <=? c) && (c <=? 8202) || (c =? 8232) || (c =? 8233) || (c =? 8239)
   || (c =? 8287) || (c =? 12288))%Z.

(** A finished run of characters, if there is one. *)
Definition flush (acc : text) : list text := match acc with [] => [] | _ => [acc] end.

(** [str::split_whitespace]; [acc] is the run read so far. *)
Fixpoint split_ws (acc s : text) : list text :=
  match s with
  | [] => flush acc
  | c :: s' => if is_whitespace c then flush acc ++ split_ws [] s' else split_ws (acc ++ [c]) s'
  end.
Definition split_whitespace (s : text) : list text := split_ws [] s.

(** [str::trim]. *)
Fixpoint trim_start (s : text) : text :=
  match s with
  | c :: s' => if is_whitespace c then trim_start s' else s
  | [] => []
  end.
Definition trim (s : text) : text := reverse (trim_start (reverse (trim_start s))).

(** [slice::join] with a one-space separator. *)
Fixpoint join_space (ps : list text) : text :=
  match ps with
  | [] => []
  | [p] => p
  | p :: ps' => p ++ 32%Z :: join_space ps'
  end.

(** The characters of an ASCII string literal. *)
Definition lit (s : string) : text :=
  map (λ a, Z.of_nat (Ascii.nat_of_ascii a)) (String.list_ascii_of_string s).

(** [char::to_ascii_lowercase]. *)
Definition to_ascii_lowercase (c : Z) : Z := if ((65 <=? c) && (c <=? 90))%Z then (c + 32)%Z else c.

Lemma concat_flush acc : concat (flush acc) = acc.
Proof. destruct acc as [|c acc]; [done|]. simpl. by rewrite app_nil_r. Qed.

Lemma concat_split_ws s acc :
  concat (split_ws acc s) = acc ++ filter (λ c, is_whitespace c = false) s.
Proof.
  revert acc. induction s as [|c s IH]; intros acc; cbn [split_ws].
  - rewrite concat_flush. symmetry. apply app_nil_r.
  - rewrite filter_cons. destruct (is_whitespace c).
    + rewrite concat_app, concat_flush, IH, decide_False by done. done.
    + rewrite IH, decide_True by done. by rewrite <- app_assoc.
Qed.

(** The words of a text are its characters other than whitespace, in order. *)
Lemma concat_split_whitespace s :
  concat (split_whitespace s) = filter (λ c, is_whitespace c = false) s.
Proof. apply concat_split_ws. Qed.

Lemma split_ws_nonempty s acc : Forall (λ w, w ≠ []) (split_ws acc s).
Proof.
  assert (forall a, Forall (λ w, w ≠ []) (flush a)) as Hf.
  { intros [|c a]; repeat constructor. done. }
  revert acc. induction s as [|c s IH]; intros acc; cbn [split_ws]; [done|].
  destruct (is_whitespace c); [|done]. by apply Forall_app.
Qed.

(** A text without whitespace is its own trimming. *)
Lemma trim_no_whitespace s : Forall (λ c, is_whitespace c = false) s → trim s = s.
Proof.
  assert (∀ l, Forall (λ c, is_whitespace c = false) l → trim_start l = l) as H.
  { intros l Hl. destruct Hl as [|c l Hc Hl]; [done|]. cbn [trim_start]. by rewrite Hc. }
  intros Hs. unfold trim. rewrite (H s) by done.
  rewrite H by (by apply Forall_reverse). apply reverse_involutive.
Qed.

Lemma length_join_space (ps : list text) :
  length (join_space ps) = sum_list (length <$> ps) + (length ps - 1).
Proof.
  induction ps as [|p [|q ps] IH]; [done|simpl; lia|].
  change (join_space (p :: q :: ps)) with (p ++ 32%Z :: join_space (q :: ps)).
  rewrite length_app. cbn [length] in *. rewrite IH. simpl. lia.
Qed.

(** *** The order of strings *)
Lemma string_leb_refl a : String.leb a a = true.
Proof. destruct (String.leb_total a a); done. Qed.

Lemma string_leb_spec a b : String.leb a b = true ↔ a = b ∨ String_as_OT.lt a b.
Proof.
  unfold String.leb. change (String.compare a b) with (String_as_OT.compare a b).
  pose proof String_as_OT.lt_strorder as [Hirr Htr].
  destruct (String_as_OT.compare_spec a b) as [->|H|H]; [naive_solver..|].
  split; [done|]. intros [->|H']; [by destruct (Hirr b)|]. destruct (Hirr a). by eapply Htr.
Qed.

Lemma string_leb_trans a b c : String.leb a b = true → String.leb b c = true → String.leb a c = true.
Proof.
  rewrite !string_leb_spec. pose proof String_as_OT.lt_strorder as [_ Htr].
  intros [->|H1] [->|H2]; [by left|by right..|]. right. by eapply Htr.
Qed.

Lemma string_ltb_leb a b : String.ltb a b = negb (String.leb b a).
Proof.
  unfold String.ltb, String.leb. rewrite (String.compare_antisym b a).
  by destruct (String.compare a b).
Qed.

End Text.
