(* ===== verification/Paths.v ===== *)
(** * Paths

    [std::path] on paths as their characters: the component view through which
    Rust compares paths, the pieces of a name, and joining. The later components
    (the file manager, its plugins, the desktop stack) build on it. *)

From S2P Require Import Prelude Text.
Import Text.
Local Open Scope list_scope.

Module Paths.

Notation path := (list Z) (only parsing).

Definition SLASH : char := 47%Z.
Definition DOT : char := 46%Z.

(** The runs of [s] between [sep]s; [acc] is the run read so far. *)
Fixpoint split_acc (sep : char) (acc s : text) : list text :=
  match s with
  | [] => [acc]
  | c :: s' => if (c =? sep)%Z then acc :: split_acc sep [] s' else split_acc sep (acc ++ [c]) s'
  end.

(** [str::split] on one character. *)
Definition split_on (sep : char) (s : text) : list text := split_acc sep [] s.

Definition is_absolute (p : path) : bool :=
  match p with c :: _ => (c =? SLASH)%Z | [] => false end.

(** A run between slashes that is a component. *)
Definition is_real (s : text) : Prop := s ≠ [] ∧ s ≠ [DOT].
#[export] Instance is_real_dec s : Decision (is_real s) := _.

(** [Path::components]: the root as ["/"]; a leading [.] of a relative path
    counts, the other empty and [.] runs do not. *)
Definition components (p : path) : list text :=
  let runs := split_on SLASH p in
  let real := filter is_real runs in
  if is_absolute p then [SLASH] :: real
  else match runs with
       | r :: _ => if decide (r = [DOT]) then [DOT] :: real else real
       | [] => real
       end.

(** [PathBuf == PathBuf]. *)
Definition path_eq (p q : path) : bool := bool_decide (components p = components q).

(** The path of the given components. *)
Fixpoint join_slash (cs : list text) : text :=
  match cs with
  | [] => []
  | [c] => c
  | c :: cs' => c ++ SLASH :: join_slash cs'
  end.
Definition from_components (cs : list text) : path :=
  match cs with
  | r :: cs' => if decide (r = [SLASH]) then SLASH :: join_slash cs' else join_slash cs
  | [] => []
  end.

(** A component that names an entry: not the root, [.] or [..]. *)
Definition is_normal (c : text) : bool :=
  bool_decide (c ≠ [SLASH] ∧ c ≠ [DOT] ∧ c ≠ [DOT; DOT]).

(** [Path::file_name]. *)
Definition file_name (p : path) : option text :=
  match last (components p) with
  | Some c => if is_normal c then Some c else None
  | None => None
  end.

(** [Path::parent]: everything but the last component, unless that is the root. *)
Definition parent (p : path) : option path :=
  match last (components p) with
  | Some c => if decide (c = [SLASH]) then None
              else Some (from_components (removelast (components p)))
  | None => None
  end.

(** The text before and after the last dot, when there is one. *)
Fixpoint rsplit_dot (s : text) : option (text * text) :=
  match s with
  | [] => None
  | c :: s' =>
      match rsplit_dot s' with
      | Some (b, e) => Some (c :: b, e)
      | None => if (c =? DOT)%Z then Some ([], s') else None
      end
  end.

(** [Path::file_stem] and [Path::extension]: a name that starts with its only
    dot has no extension. *)
Definition stem_of (name : text) : text :=
  match rsplit_dot name with
  | None | Some ([], _) => name
  | Some (b, _) => b
  end.
Definition ext_of (name : text) : option text :=
  match rsplit_dot name with
  | None | Some ([], _) => None
  | Some (_, e) => Some e
  end.
Definition file_stem (p : path) : option text := stem_of <$> file_name p.
Definition extension (p : path) : option text := file_name p ≫= ext_of.

(** [Path::join]. *)
Definition join (base p : path) : path :=
  if is_absolute p then p
  else match last base with
       | None => p
       | Some c => if (c =? SLASH)%Z then base ++ p else base ++ SLASH :: p
       end.

(** [str::starts_with] and [str::strip_prefix]. *)
Fixpoint strip_prefix (pre s : text) : option text :=
  match pre, s with
  | [], _ => Some s
  | c :: pre', d :: s' => if (c =? d)%Z then strip_prefix pre' s' else None
  | _ :: _, [] => None
  end.
Definition starts_with (s pre : text) : bool :=
  match strip_prefix pre s with Some _ => true | None => false end.

(** [str::strip_suffix] and [str::ends_with]. *)
Definition strip_suffix (suf s : text) : option text :=
  reverse <$> strip_prefix (reverse suf) (reverse s).
Definition ends_with (s suf : text) : bool :=
  match strip_suffix suf s with Some _ => true | None => false end.

(** Decimal printing of a natural number, least significant digit last. *)
Fixpoint digits_pos (fuel : nat) (n : Z) (acc : text) : text :=
  match fuel with
  | 0 => acc
  | S fuel' =>
      let acc' := (48 + n mod 10)%Z :: acc in
      if (n <? 10)%Z then acc' else digits_pos fuel' (n / 10)%Z acc'
  end.
(** [u64] and narrower have at most twenty digits. *)
Definition show_nat (n : Z) : text := digits_pos 20 n [].

(** ** Lemmas *)
Lemma strip_prefix_Some pre s r : strip_prefix pre s = Some r ↔ s = pre ++ r.
Proof.
  revert s. induction pre as [|c pre IH]; intros s; simpl; [split; congruence|].
  destruct s as [|d s]; [done|]. destruct (c =? d)%Z eqn:E.
  - apply Z.eqb_eq in E. subst d. rewrite IH. split; intros; [by f_equal|by simplify_eq].
  - split; [done|]. intros [= <- _]. by rewrite Z.eqb_refl in E.
Qed.

Lemma strip_prefix_app pre s : strip_prefix pre (pre ++ s) = Some s.
Proof. by apply strip_prefix_Some. Qed.

Lemma starts_with_spec s pre : starts_with s pre = true ↔ ∃ r, s = pre ++ r.
Proof.
  unfold starts_with. destruct (strip_prefix pre s) as [r|] eqn:E.
  - apply strip_prefix_Some in E. naive_solver.
  - split; [done|]. intros [r ->]. by rewrite strip_prefix_app in E.
Qed.

Lemma strip_suffix_Some suf s r : strip_suffix suf s = Some r ↔ s = r ++ suf.
Proof.
  unfold strip_suffix. rewrite fmap_Some. split.
  - intros (x & E%strip_prefix_Some & ->). apply (f_equal reverse) in E.
    by rewrite reverse_involutive, reverse_app, reverse_involutive in E.
  - intros ->. exists (reverse r). rewrite reverse_app, strip_prefix_app, reverse_involutive. done.
Qed.

Lemma split_acc_no_sep sep acc s : sep ∉ s → split_acc sep acc s = [acc ++ s].
Proof.
  revert acc. induction s as [|c s IH]; intros acc; cbn [split_acc]; intros Hn.
  - by rewrite app_nil_r.
  - rewrite not_elem_of_cons in Hn. destruct Hn as [Hc Hs].
    destruct (c =? sep)%Z eqn:E; [apply Z.eqb_eq in E; congruence|].
    rewrite IH by done. by rewrite <- app_assoc.
Qed.

(** A separator splits what is before it from what is after. *)
Lemma split_acc_app sep acc s t :
  split_acc sep acc (s ++ sep :: t) = split_acc sep acc s ++ split_acc sep [] t.
Proof.
  revert acc. induction s as [|c s IH]; intros acc; cbn [app split_acc].
  - by rewrite Z.eqb_refl.
  - destruct (c =? sep)%Z; [|apply IH]. cbn [app]. by rewrite IH.
Qed.

Lemma split_acc_nonempty sep acc s : split_acc sep acc s ≠ [].
Proof. revert acc. induction s; intros acc; simpl; [done|]. by destruct (_ =? _)%Z. Qed.

(** A name a directory entry can have. *)
Definition is_name (n : text) : Prop := SLASH ∉ n ∧ n ≠ [] ∧ n ≠ [DOT] ∧ n ≠ [DOT; DOT].
#[export] Instance is_name_dec n : Decision (is_name n) := _.

Lemma is_name_real n : is_name n → is_real n.
Proof. unfold is_name, is_real. naive_solver. Qed.

Lemma is_name_normal n : is_name n → is_normal n = true.
Proof.
  intros (H1 & H2 & H3 & H4). apply bool_decide_eq_true. split; [|done].
  intros ->. apply H1. by constructor.
Qed.

Lemma is_name_relative n : is_name n → is_absolute n = false.
Proof.
  intros (H1 & _). destruct n as [|c n]; [done|]. simpl. apply Z.eqb_neq. intros ->.
  apply H1. by constructor.
Qed.

Lemma split_on_name n : SLASH ∉ n → split_on SLASH n = [n].
Proof. intros. unfold split_on. by rewrite split_acc_no_sep. Qed.

(** A relative path that does not start with a dot component. *)
Definition is_plain (n : path) : Prop := is_absolute n = false ∧ hd_error (split_on SLASH n) ≠ Some [DOT].

Lemma components_plain n : is_plain n → components n = filter is_real (split_on SLASH n).
Proof.
  intros [Ha Hd]. unfold components. rewrite Ha. destruct (split_on SLASH n) as [|r rs]; [done|].
  rewrite decide_False; [done|]. intros ->. done.
Qed.

(** Joining a plain path adds its components. *)
Lemma components_join_plain d n : is_plain n → components (join d n) = components d ++ components n.
Proof.
  intros Hn. rewrite (components_plain n Hn). destruct Hn as [Ha Hd]. unfold join. rewrite Ha.
  destruct (last d) as [c|] eqn:Hl.
  2:{ apply last_None in Hl. subst d. by apply components_plain. }
  assert (Hsplit : ∀ e, split_on SLASH (e ++ SLASH :: n) = split_on SLASH e ++ split_on SLASH n)
    by (intros e; unfold split_on; apply split_acc_app).
  assert (Hgen : ∀ e, e ≠ [] → components (e ++ SLASH :: n) = components e ++ filter is_real (split_on SLASH n)).
  { intros e He. unfold components. rewrite Hsplit, filter_app.
    destruct e as [|x e]; [done|]. cbn [is_absolute app]. destruct (x =? SLASH)%Z; [done|].
    destruct (split_on SLASH (x :: e)) as [|r rs] eqn:Es.
    { by apply split_acc_nonempty in Es. }
    cbn [app]. by destruct (decide (r = [DOT])). }
  destruct (c =? SLASH)%Z eqn:Ec.
  - apply Z.eqb_eq in Ec. subst c. apply last_Some in Hl as [e ->].
    rewrite <- app_assoc. cbn [app]. destruct (decide (e = [])) as [->|He].
    { unfold components. cbn [app is_absolute]. rewrite Z.eqb_refl.
      change (SLASH :: n) with ([] ++ SLASH :: n). rewrite Hsplit. cbn [app].
      change (split_on SLASH [SLASH]) with [[] : text; []].
      change (split_on SLASH []) with [[] : text]. by rewrite filter_app. }
    rewrite Hgen by done. f_equal. unfold components.
    assert (Hs : split_on SLASH (e ++ [SLASH]) = split_on SLASH e ++ [[]]).
    { unfold split_on. by rewrite split_acc_app. }
    rewrite Hs, filter_app. change (filter is_real [[] : text]) with ([] : list text).
    rewrite app_nil_r. destruct e as [|x e]; [done|]. cbn [is_absolute app].
    destruct (x =? SLASH)%Z; [done|].
    destruct (split_on SLASH (x :: e)) as [|r rs] eqn:Es; [by apply split_acc_nonempty in Es|].
    done.
  - apply Hgen. intros ->. done.
Qed.

Lemma is_name_plain n : is_name n → is_plain n.
Proof.
  intros Hn. split; [by apply is_name_relative|]. rewrite split_on_name by apply Hn.
  intros [= ->]. by destruct Hn as (_ & _ & ? & _).
Qed.

Lemma components_name n : is_name n → components n = [n].
Proof.
  intros Hn. rewrite components_plain by (by apply is_name_plain). rewrite split_on_name by apply Hn.
  by rewrite filter_cons, filter_nil, decide_True by (by apply is_name_real).
Qed.

(** Joining a name adds one component. *)
Lemma components_join d n : is_name n → components (join d n) = components d ++ [n].
Proof.
  intros Hn. rewrite components_join_plain by (by apply is_name_plain). by rewrite (components_name n Hn).
Qed.

Lemma file_name_join d n : is_name n → file_name (join d n) = Some n.
Proof.
  intros Hn. unfold file_name. rewrite components_join, last_snoc by done.
  by rewrite is_name_normal.
Qed.

Lemma rsplit_dot_Some s b e : rsplit_dot s = Some (b, e) → s = b ++ DOT :: e.
Proof.
  revert b e. induction s as [|c s IH]; intros b e; simpl; [done|].
  destruct (rsplit_dot s) as [[b' e']|] eqn:E.
  - intros [= <- <-]. simpl. f_equal. by apply IH.
  - destruct (c =? DOT)%Z eqn:Ec; [|done]. intros [= <- <-]. apply Z.eqb_eq in Ec. by subst c.
Qed.

(** A name is its stem, followed by its extension when it has one. *)
Lemma stem_ext n :
  n = stem_of n ++ match ext_of n with Some e => DOT :: e | None => [] end.
Proof.
  unfold stem_of, ext_of. destruct (rsplit_dot n) as [[[|c b] e]|] eqn:E.
  - by rewrite app_nil_r.
  - by apply rsplit_dot_Some in E.
  - by rewrite app_nil_r.
Qed.

Lemma split_acc_pieces sep acc s : sep ∉ acc → Forall (λ p, sep ∉ p) (split_acc sep acc s).
Proof.
  revert acc. induction s as [|c s IH]; intros acc Ha; cbn [split_acc]; [by apply Forall_singleton|].
  destruct (c =? sep)%Z eqn:E.
  - constructor; [done|]. apply IH. apply not_elem_of_nil.
  - apply IH. apply Z.eqb_neq in E. rewrite not_elem_of_app, list_elem_of_singleton. naive_solver.
Qed.

Lemma elem_of_components c p : c ∈ components p → c = [SLASH] ∨ c = [DOT] ∨ (is_real c ∧ SLASH ∉ c).
Proof.
  assert (c ∈ filter is_real (split_on SLASH p) → is_real c ∧ SLASH ∉ c) as H.
  { intros [Hr Hin]%list_elem_of_filter. split; [done|].
    pose proof (split_acc_pieces SLASH [] p (not_elem_of_nil _)) as Hf. rewrite Forall_forall in Hf.
    by apply Hf. }
  unfold components. destruct (is_absolute p).
  - rewrite elem_of_cons. intros [->|Hc]; [by left|]. right; right. by apply H.
  - destruct (split_on SLASH p) as [|r rs]; [intros Hc; right; right; by apply H|].
    case_decide; [|intros Hc; right; right; by apply H].
    rewrite elem_of_cons. intros [->|Hc]; [by right; left|]. right; right. by apply H.
Qed.

(** A file name is a name. *)
Lemma file_name_is_name p n : file_name p = Some n → is_name n.
Proof.
  unfold file_name. destruct (last (components p)) as [c|] eqn:E; [|done].
  destruct (is_normal c) eqn:En; [|done]. intros [= <-].
  apply bool_decide_eq_true in En as (H1 & H2 & H3). apply last_Some_elem_of in E.
  apply elem_of_components in E as [|[|[[? ?] ?]]]; [done|done|]. by split_and!.
Qed.

(** The pieces of a name have none of the slashes it does not have. *)
(** ** Components back to a path *)
Definition real_name (c : text) : Prop := is_real c ∧ SLASH ∉ c.
Definition proper_components (cs : list text) : Prop :=
  match cs with
  | [] => True
  | r :: rs => (r = [SLASH] ∨ r = [DOT] ∨ real_name r) ∧ Forall real_name rs
  end.

Lemma filter_real_names s : Forall real_name (filter is_real (split_on SLASH s)).
Proof.
  apply Forall_forall. intros c [Hr Hin]%list_elem_of_filter. split; [done|].
  assert (SLASH ∉ ([] : text)) as Hnil by apply not_elem_of_nil.
  exact (proj1 (Forall_forall _ _) (split_acc_pieces SLASH [] s Hnil) c Hin).
Qed.

Lemma components_proper p : proper_components (components p).
Proof.
  pose proof (filter_real_names p) as H. unfold components.
  destruct (is_absolute p); [by split; [left|]|].
  assert (proper_components (filter is_real (split_on SLASH p))) as Hp.
  { destruct H; [done|]. split; [by right; right|done]. }
  destruct (split_on SLASH p) as [|r rs]; [done|]. case_decide; [|done]. by split; [right; left|].
Qed.

Lemma proper_components_prefix cs ds : proper_components (cs ++ ds) → proper_components cs.
Proof. destruct cs; [done|]. cbn. rewrite Forall_app. naive_solver. Qed.

Lemma split_join_slash c cs :
  SLASH ∉ c → Forall real_name cs → split_on SLASH (join_slash (c :: cs)) = c :: cs.
Proof.
  intros Hc H. revert c Hc. induction H as [|d cs [Hd Hs] H IH]; intros c Hc; [by apply split_on_name|].
  change (join_slash (c :: d :: cs)) with (c ++ SLASH :: join_slash (d :: cs)).
  unfold split_on. rewrite split_acc_app. fold (split_on SLASH c) (split_on SLASH (join_slash (d :: cs))).
  by rewrite split_on_name, IH.
Qed.

Lemma filter_names cs : Forall real_name cs → filter is_real cs = cs.
Proof.
  intros H. induction H as [|d cs [Hd _] H IH]; [done|]. by rewrite filter_cons, decide_True, IH.
Qed.

Lemma components_from_components cs : proper_components cs → components (from_components cs) = cs.
Proof.
  destruct cs as [|r rs]; [done|]. cbn [proper_components from_components]. intros [Hr Hrs].
  case_decide as Hd.
  - subst r. unfold components. cbn [is_absolute]. rewrite Z.eqb_refl. f_equal.
    change (SLASH :: join_slash rs) with ([] ++ SLASH :: join_slash rs).
    unfold split_on. rewrite split_acc_app. rewrite filter_app. fold (split_on SLASH (join_slash rs)).
    change (filter is_real (split_acc SLASH [] [])) with ([] : list text). cbn [app].
    destruct Hrs as [|d rs [Hd Hs] Hrs]; [done|].
    rewrite split_join_slash by done. apply filter_names. by constructor.
  - assert (SLASH ∉ r) as Hs.
    { destruct Hr as [->|[->|[_ ?]]]; [done| |done]. by intros ?%list_elem_of_singleton. }
    assert (is_absolute (join_slash (r :: rs)) = false) as Ha.
    { assert (r ≠ []) as Hne by (destruct Hr as [->|[->|[[? _] _]]]; done).
      destruct r as [|x r]; [done|]. assert (x ≠ SLASH) by (intros ->; apply Hs; by left).
      destruct rs; cbn; by apply Z.eqb_neq. }
    unfold components. rewrite Ha, split_join_slash by done.
    destruct (decide (r = [DOT])) as [->|Hdot].
    + rewrite filter_cons, decide_False by (by intros [_ ?]). by rewrite filter_names.
    + apply filter_names. constructor; [|done]. destruct Hr as [->|[->|?]]; done.
Qed.

(** A parent's components are all but the last. *)
Lemma components_parent p q : parent p = Some q → components q = removelast (components p).
Proof.
  unfold parent. destruct (last (components p)) as [c|] eqn:E; [|done].
  apply last_Some in E as [cs E]. case_decide; [done|]. intros [= <-].
  rewrite E, removelast_last. apply components_from_components.
  apply (proper_components_prefix cs [c]). rewrite <- E. apply components_proper.
Qed.

Lemma stem_of_elem c n : c ∈ stem_of n → c ∈ n.
Proof. intros H. rewrite (stem_ext n), elem_of_app. by left. Qed.
Lemma ext_of_elem c n e : ext_of n = Some e → c ∈ e → c ∈ n.
Proof. intros He H. rewrite (stem_ext n), He, elem_of_app, elem_of_cons. auto. Qed.

(** *** Decimal numbers *)

Definition undigit (acc : Z) (c : char) : Z := (acc * 10 + (c - 48))%Z.
Definition read_nat (s : text) : Z := foldl undigit 0%Z s.

Lemma read_digits_pos fuel n acc :
  (0 <= n < 10 ^ Z.of_nat fuel)%Z → fuel ≠ 0 →
  ∀ a, foldl undigit a (digits_pos fuel n acc) =
       foldl undigit (foldl undigit a (digits_pos fuel n [])) acc.
Proof.
  revert n acc. induction fuel as [|fuel IH]; intros n acc Hn Hf a; [done|].
  cbn [digits_pos]. destruct (n <? 10)%Z eqn:E; [done|]. apply Z.ltb_ge in E.
  rewrite Nat2Z.inj_succ, Z.pow_succ_r in Hn by lia.
  assert (0 <= n / 10 < 10 ^ Z.of_nat fuel)%Z as Hd.
  { split; [apply Z.div_pos; lia|]. apply Z.div_lt_upper_bound; lia. }
  assert (fuel ≠ 0) as Hf'.
  { intros ->. change (10 ^ Z.of_nat 0)%Z with 1%Z in Hn. lia. }
  rewrite (IH _ (_ :: acc)), (IH _ [_]) by done. done.
Qed.

Lemma read_digits fuel n :
  (0 <= n < 10 ^ Z.of_nat fuel)%Z → fuel ≠ 0 → read_nat (digits_pos fuel n []) = n.
Proof.
  unfold read_nat. revert n. induction fuel as [|fuel IH]; intros n Hn Hf; [done|].
  cbn [digits_pos]. pose proof (Z.div_mod n 10 ltac:(lia)) as Hdm.
  pose proof (Z.mod_pos_bound n 10 ltac:(lia)) as Hb.
  destruct (n <? 10)%Z eqn:E.
  - apply Z.ltb_lt in E. cbn [foldl]. unfold undigit. rewrite Z.mod_small by lia. lia.
  - apply Z.ltb_ge in E. rewrite Nat2Z.inj_succ, Z.pow_succ_r in Hn by lia.
    assert (0 <= n / 10 < 10 ^ Z.of_nat fuel)%Z as Hd.
    { split; [apply Z.div_pos; lia|]. apply Z.div_lt_upper_bound; lia. }
    assert (fuel ≠ 0) as Hf'.
    { intros ->. change (10 ^ Z.of_nat 0)%Z with 1%Z in Hn. lia. }
    rewrite read_digits_pos, IH by done. cbn [foldl]. unfold undigit. lia.
Qed.

Lemma read_show n : (0 <= n < 10 ^ 20)%Z → read_nat (show_nat n) = n.
Proof. intros. apply read_digits; [done|lia]. Qed.

(** Numbers of at most twenty digits print differently. *)
Lemma show_nat_inj m n :
  (0 <= m < 10 ^ 20)%Z → (0 <= n < 10 ^ 20)%Z → show_nat m = show_nat n → m = n.
Proof.
  intros Hm Hn E. rewrite <- (read_digits 20 m), <- (read_digits 20 n) by (done || lia).
  by unfold show_nat in E; rewrite E.
Qed.

Definition is_digit (c : char) : Prop := (48 <= c <= 57)%Z.

Lemma digits_pos_digits fuel n acc : Forall is_digit acc → Forall is_digit (digits_pos fuel n acc).
Proof.
  revert n acc. induction fuel as [|fuel IH]; intros n acc Ha; [done|]. cbn [digits_pos].
  pose proof (Z.mod_pos_bound n 10 ltac:(lia)) as Hb.
  assert (Forall is_digit ((48 + n mod 10)%Z :: acc)) as H by (constructor; [unfold is_digit; lia|done]).
  destruct (n <? 10)%Z; [done|]. by apply IH.
Qed.

Lemma show_nat_digits n : Forall is_digit (show_nat n).
Proof. by apply digits_pos_digits. Qed.

Lemma show_nat_no_slash n : SLASH ∉ show_nat n.
Proof.
  intros H. pose proof (show_nat_digits n) as Hd. rewrite Forall_forall in Hd.
  apply Hd in H. unfold is_digit, SLASH in H. lia.
Qed.

Lemma digits_pos_nonempty fuel n acc : fuel ≠ 0 ∨ acc ≠ [] → digits_pos fuel n acc ≠ [].
Proof.
  revert n acc. induction fuel as [|fuel IH]; intros n acc H; cbn [digits_pos]; [naive_solver|].
  destruct (n <? 10)%Z; [done|]. apply IH. by right.
Qed.
Lemma digits_pos_length fuel n acc : length (digits_pos fuel n acc) <= fuel + length acc.
Proof.
  revert n acc. induction fuel as [|fuel IH]; intros n acc; cbn [digits_pos]; [simpl; lia|].
  destruct (n <? 10)%Z; [simpl; lia|]. etrans; [apply IH|]. simpl. lia.
Qed.
Lemma show_nat_length n : length (show_nat n) <= 20.
Proof. apply (digits_pos_length 20 n []). Qed.
Lemma show_nat_nonempty n : show_nat n ≠ [].
Proof. apply digits_pos_nonempty. by left. Qed.

End Paths.
