(* ===== verification/Lines.v ===== *)
(** * Lines and numbers of a text

    [str::lines], [str::split_inclusive] and [str::parse] on unsigned numbers,
    with what they read back of a text that was printed. *)

From S2P Require Import Prelude Text Paths.
Import Text Paths.
Local Open Scope nat_scope.
Local Open Scope list_scope.

Module Lines.

(** [str::split_inclusive] on a line feed; [acc] is the line read so far. *)
Fixpoint split_inclusive (acc s : text) : list text :=
  match s with
  | [] => match acc with [] => [] | _ => [acc] end
  | c :: s' => if (c =? 10)%Z then (acc ++ [c]) :: split_inclusive [] s' else split_inclusive (acc ++ [c]) s'
  end.

(** [str::lines]. *)
Definition drop_line_end (l : text) : text :=
  match strip_suffix [13; 10]%Z l with
  | Some r => r
  | None => match strip_suffix [10%Z] l with Some r => r | None => l end
  end.
Definition lines (s : text) : list text := map drop_line_end (split_inclusive [] s).

(** [str::parse::<u64>], and [usize]. *)
Fixpoint parse_digits (acc : Z) (s : text) : option Z :=
  match s with
  | [] => Some acc
  | c :: s' =>
      if ((48 <=? c) && (c <=? 57))%Z then
        let acc := undigit acc c in if (acc <? U64_MOD)%Z then parse_digits acc s' else None
      else None
  end.
Definition parse_usize (s : text) : option Z :=
  match s with
  | [] => None
  | c :: s' => if (c =? 43)%Z then match s' with [] => None | _ => parse_digits 0 s' end else parse_digits 0 s
  end.

(** [str::contains]. *)
Fixpoint contains (s pat : text) : bool :=
  starts_with s pat || match s with [] => false | _ :: s' => contains s' pat end.

(** ** Lemmas *)
Lemma split_inclusive_app acc s t :
  last s = Some 10%Z → split_inclusive acc (s ++ t) = split_inclusive acc s ++ split_inclusive [] t.
Proof.
  revert acc. induction s as [|c s IH]; intros acc H; [done|]. cbn [app split_inclusive].
  destruct s as [|d s].
  - injection H as ->. done.
  - rewrite last_cons_cons in H. rewrite !IH by done. by destruct (c =? 10)%Z.
Qed.

Lemma concat_split_inclusive acc s : concat (split_inclusive acc s) = acc ++ s.
Proof.
  revert acc. induction s as [|c s IH]; intros acc; cbn [split_inclusive].
  - destruct acc; cbn; by rewrite ?app_nil_r.
  - destruct (c =? 10)%Z; cbn [concat]; rewrite IH; by rewrite <- app_assoc.
Qed.

(** Lines that were printed, one after the other, read back. *)
Definition is_line (l : text) : Prop := 10%Z ∉ l ∧ last l ≠ Some 13%Z.

Lemma split_inclusive_line acc l s : 10%Z ∉ l → split_inclusive acc (l ++ 10%Z :: s) = (acc ++ l ++ [10%Z]) :: split_inclusive [] s.
Proof.
  revert acc. induction l as [|c l IH]; intros acc H; cbn [app split_inclusive]; [done|].
  apply not_elem_of_cons in H as [Hc Hl]. rewrite (proj2 (Z.eqb_neq c 10)) by done.
  rewrite IH by done. by rewrite <- app_assoc.
Qed.

Lemma strip_suffix_snoc suf l : strip_suffix suf (l ++ suf) = Some l.
Proof. by apply strip_suffix_Some. Qed.

Lemma drop_line_end_line l : is_line l → drop_line_end (l ++ [10%Z]) = l.
Proof.
  intros [_ Hcr]. unfold drop_line_end. destruct (strip_suffix [13%Z; 10%Z] (l ++ [10%Z])) as [r|] eqn:E.
  - apply strip_suffix_Some in E. change [13%Z; 10%Z] with ([13%Z] ++ [10%Z]) in E.
    rewrite app_assoc in E. apply app_inj_tail in E as [-> _]. by rewrite last_snoc in Hcr.
  - by rewrite strip_suffix_snoc.
Qed.

Lemma lines_app l s : is_line l → lines (l ++ 10%Z :: s) = l :: lines s.
Proof.
  intros Hl. unfold lines. rewrite split_inclusive_line by apply Hl. cbn [map app]. by rewrite drop_line_end_line.
Qed.

Lemma lines_printed ls : Forall is_line ls → lines (concat (map (λ l, l ++ [10%Z]) ls)) = ls.
Proof.
  intros H. induction H as [|l ls Hl H IH]; [done|]. cbn [map concat]. rewrite <- app_assoc. cbn [app].
  by rewrite lines_app, IH.
Qed.

Lemma undigit_mono s acc : (0 <= acc)%Z → Forall is_digit s → (acc <= foldl undigit acc s)%Z.
Proof.
  intros Ha Hs. revert acc Ha. induction Hs as [|c s Hc Hs IH]; intros acc Ha; cbn [foldl]; [lia|].
  unfold is_digit in Hc. assert (acc <= undigit acc c)%Z by (unfold undigit; lia).
  specialize (IH (undigit acc c) ltac:(lia)). lia.
Qed.

Lemma parse_digits_spec s acc : (0 <= acc)%Z → Forall is_digit s → (foldl undigit acc s < U64_MOD)%Z →
  parse_digits acc s = Some (foldl undigit acc s).
Proof.
  intros Ha Hs. revert acc Ha. induction Hs as [|c s Hc Hs IH]; intros acc Ha Hlt; cbn [foldl parse_digits] in *;
    [done|].
  unfold is_digit in Hc. rewrite !(proj2 (Z.leb_le _ _)) by lia. cbn [andb].
  assert (0 <= undigit acc c)%Z by (unfold undigit; lia). pose proof (undigit_mono s (undigit acc c) ltac:(lia) Hs).
  rewrite (proj2 (Z.ltb_lt _ _)) by lia. by apply IH.
Qed.

Lemma parse_usize_show n : u64_range n → parse_usize (show_nat n) = Some n.
Proof.
  intros Hn. unfold u64_range in Hn. assert (U64_MOD < 10 ^ 20)%Z by done.
  pose proof (show_nat_digits n) as Hd. pose proof (read_show n ltac:(lia)) as Hr.
  pose proof (show_nat_nonempty n) as Hne. revert Hd Hr Hne. generalize (show_nat n) as l.
  intros [|c s] Hd Hr Hne; [by destruct Hne|]. unfold read_nat in Hr. cbn [parse_usize].
  assert (is_digit c) as Hc by (by inversion Hd). unfold is_digit in Hc.
  rewrite (proj2 (Z.eqb_neq c 43)) by lia. rewrite parse_digits_spec; by rewrite ?Hr; try lia.
Qed.

End Lines.
