(* ===== verification/Utf8.v ===== *)
(** * UTF-8

    [str::as_bytes] and [String::from_utf8_lossy], for the components that work
    on the bytes of a text. *)

From S2P Require Import Prelude Text.
Import Text.
Local Open Scope list_scope.
Local Open Scope Z_scope.

Module Utf8.

Notation bytes := (list Z) (only parsing).

Definition REPLACEMENT : char := 65533.

(** A Unicode scalar value, Rust's [char]. *)
Definition is_char (c : char) : Prop := 0 <= c < 55296 ∨ 57344 <= c < 1114112.

(** [char::encode_utf8]. *)
Definition encode_char (c : char) : bytes :=
  if c <? 128 then [c]
  else if c <? 2048 then [192 + c / 64; 128 + c mod 64]
  else if c <? 65536 then [224 + c / 4096; 128 + c / 64 mod 64; 128 + c mod 64]
  else [240 + c / 262144; 128 + c / 4096 mod 64; 128 + c / 64 mod 64; 128 + c mod 64].

(** [str::as_bytes]. *)
Definition as_bytes (s : text) : bytes := concat (map encode_char s).

Definition in_range (b lo hi : Z) : bool := (lo <=? b) && (b <=? hi).
Definition is_cont (b : Z) : bool := in_range b 128 191.

(** The bytes allowed after a first byte of three or four. *)
Definition second3 (b b1 : Z) : bool :=
  if b =? 224 then in_range b1 160 191 else if b =? 237 then in_range b1 128 159 else is_cont b1.
Definition second4 (b b1 : Z) : bool :=
  if b =? 240 then in_range b1 144 191 else if b =? 244 then in_range b1 128 143 else is_cont b1.

(** [String::from_utf8_lossy]: the longest prefix of a sequence that cannot be
    completed becomes one replacement character. *)
Fixpoint from_utf8_lossy (bs : bytes) : text :=
  match bs with
  | [] => []
  | b :: r1 =>
      if b <? 128 then b :: from_utf8_lossy r1
      else if in_range b 194 223 then
        match r1 with
        | b1 :: r2 =>
            if is_cont b1 then (b - 192) * 64 + (b1 - 128) :: from_utf8_lossy r2
            else REPLACEMENT :: from_utf8_lossy r1
        | [] => [REPLACEMENT]
        end
      else if in_range b 224 239 then
        match r1 with
        | b1 :: r2 =>
            if second3 b b1 then
              match r2 with
              | b2 :: r3 =>
                  if is_cont b2 then
                    (b - 224) * 4096 + (b1 - 128) * 64 + (b2 - 128) :: from_utf8_lossy r3
                  else REPLACEMENT :: from_utf8_lossy r2
              | [] => [REPLACEMENT]
              end
            else REPLACEMENT :: from_utf8_lossy r1
        | [] => [REPLACEMENT]
        end
      else if in_range b 240 244 then
        match r1 with
        | b1 :: r2 =>
            if second4 b b1 then
              match r2 with
              | b2 :: r3 =>
                  if is_cont b2 then
                    match r3 with
                    | b3 :: r4 =>
                        if is_cont b3 then
                          (b - 240) * 262144 + (b1 - 128) * 4096 + (b2 - 128) * 64 + (b3 - 128)
                          :: from_utf8_lossy r4
                        else REPLACEMENT :: from_utf8_lossy r3
                    | [] => [REPLACEMENT]
                    end
                  else REPLACEMENT :: from_utf8_lossy r2
              | [] => [REPLACEMENT]
              end
            else REPLACEMENT :: from_utf8_lossy r1
        | [] => [REPLACEMENT]
        end
      else REPLACEMENT :: from_utf8_lossy r1
  end.

(** ** Lemmas *)
Lemma in_range_true b lo hi : lo <= b <= hi → in_range b lo hi = true.
Proof. intros. unfold in_range. rewrite andb_true_iff, !Z.leb_le. lia. Qed.
Lemma in_range_false b lo hi : b < lo ∨ hi < b → in_range b lo hi = false.
Proof. intros. unfold in_range. rewrite andb_false_iff, !Z.leb_gt. lia. Qed.

Lemma mod64 x : 0 <= x mod 64 < 64.
Proof. apply Z.mod_pos_bound. lia. Qed.

Lemma second3_encode c : is_char c → 2048 <= c < 65536 →
  second3 (224 + c / 4096) (128 + c / 64 mod 64) = true.
Proof.
  intros Hc Hr. unfold second3, is_cont. pose proof (mod64 (c / 64)).
  assert (c / 64 = 64 * (c / 4096) + c / 64 mod 64).
  { change 4096 with (64 * 64). rewrite <- Z.div_div by lia. apply Z.div_mod. lia. }
  pose proof (Z.div_mod c 64 ltac:(lia)). pose proof (mod64 c). unfold is_char in Hc.
  destruct (_ =? 224) eqn:E1; [apply Z.eqb_eq in E1; apply in_range_true; lia|].
  destruct (_ =? 237) eqn:E2; [apply Z.eqb_eq in E2|]; apply in_range_true; lia.
Qed.

Lemma second4_encode c : is_char c → 65536 <= c →
  second4 (240 + c / 262144) (128 + c / 4096 mod 64) = true.
Proof.
  intros Hc Hr. unfold second4, is_cont. pose proof (mod64 (c / 4096)).
  assert (c / 4096 = 64 * (c / 262144) + c / 4096 mod 64).
  { change 262144 with (4096 * 64). rewrite <- Z.div_div by lia. apply Z.div_mod. lia. }
  pose proof (Z.div_mod c 4096 ltac:(lia)). pose proof (Z.mod_pos_bound c 4096 ltac:(lia)).
  unfold is_char in Hc.
  destruct (_ =? 240) eqn:E1; [apply Z.eqb_eq in E1; apply in_range_true; lia|].
  destruct (_ =? 244) eqn:E2; [apply Z.eqb_eq in E2|]; apply in_range_true; lia.
Qed.

Lemma is_cont_mod x : is_cont (128 + x mod 64) = true.
Proof. pose proof (mod64 x). apply in_range_true. lia. Qed.

Lemma decode_encode_char c r : is_char c →
  from_utf8_lossy (encode_char c ++ r) = c :: from_utf8_lossy r.
Proof.
  intros Hc. assert (0 <= c < 1114112) as Hb by (unfold is_char in Hc; lia).
  pose proof (Z.div_mod c 64 ltac:(lia)) as D0. pose proof (mod64 c) as M0.
  unfold encode_char. destruct (c <? 128) eqn:E1.
  { cbn [app from_utf8_lossy]. by rewrite E1. }
  apply Z.ltb_ge in E1. destruct (c <? 2048) eqn:E2.
  { apply Z.ltb_lt in E2. cbn [app from_utf8_lossy].
    rewrite (proj2 (Z.ltb_ge _ _)), in_range_true, is_cont_mod by lia. f_equal. lia. }
  apply Z.ltb_ge in E2.
  assert (c / 64 = 64 * (c / 4096) + c / 64 mod 64) as D1.
  { change 4096 with (64 * 64). rewrite <- Z.div_div by lia. apply Z.div_mod. lia. }
  pose proof (mod64 (c / 64)) as M1. destruct (c <? 65536) eqn:E3.
  { apply Z.ltb_lt in E3. cbn [app from_utf8_lossy].
    rewrite (proj2 (Z.ltb_ge _ _)), in_range_false, in_range_true, second3_encode, is_cont_mod
      by (done || lia).
    f_equal. lia. }
  apply Z.ltb_ge in E3.
  assert (c / 4096 = 64 * (c / 262144) + c / 4096 mod 64) as D2.
  { change 262144 with (4096 * 64). rewrite <- Z.div_div by lia. apply Z.div_mod. lia. }
  pose proof (mod64 (c / 4096)) as M2. cbn [app from_utf8_lossy].
  rewrite (proj2 (Z.ltb_ge _ _)), !in_range_false, in_range_true, second4_encode, !is_cont_mod
    by (done || lia).
  f_equal. lia.
Qed.

(** Decoding gives back any text. *)
Lemma from_utf8_as_bytes s : Forall is_char s → from_utf8_lossy (as_bytes s) = s.
Proof.
  unfold as_bytes. induction 1 as [|c s Hc Hs IH]; [done|]. cbn [map concat].
  rewrite decode_encode_char by done. by f_equal.
Qed.

Lemma encode_char_bytes c : is_char c → Forall (λ b, 0 <= b < 256) (encode_char c).
Proof.
  intros Hc. assert (0 <= c < 1114112) as Hb by (unfold is_char in Hc; lia).
  pose proof (mod64 c). pose proof (mod64 (c / 64)). pose proof (mod64 (c / 4096)).
  unfold encode_char.
  destruct (c <? 128) eqn:E1; [apply Z.ltb_lt in E1; apply Forall_singleton; lia|].
  destruct (c <? 2048) eqn:E2.
  { apply Z.ltb_lt in E2. assert (0 <= c / 64 < 32) by (split; [apply Z.div_pos; lia|apply Z.div_lt_upper_bound; lia]).
    constructor; [lia|]. apply Forall_singleton. lia. }
  destruct (c <? 65536) eqn:E3.
  { apply Z.ltb_lt in E3. assert (0 <= c / 4096 < 16) by (split; [apply Z.div_pos; lia|apply Z.div_lt_upper_bound; lia]).
    constructor; [lia|]. constructor; [lia|]. apply Forall_singleton. lia. }
  assert (0 <= c / 262144 < 16) by (split; [apply Z.div_pos; lia|apply Z.div_lt_upper_bound; lia]).
  constructor; [lia|]. constructor; [lia|]. constructor; [lia|]. apply Forall_singleton. lia.
Qed.

Lemma as_bytes_range s : Forall is_char s → Forall (λ b, 0 <= b < 256) (as_bytes s).
Proof.
  unfold as_bytes. induction 1 as [|c s Hc Hs IH]; [constructor|]. cbn [map concat].
  apply Forall_app. split; [by apply encode_char_bytes|done].
Qed.

(** A text of ASCII characters is its own encoding. *)
Lemma as_bytes_ascii s : Forall (λ c, 0 <= c < 128) s → as_bytes s = s.
Proof.
  unfold as_bytes. induction 1 as [|c s Hc Hs IH]; [done|]. cbn [map concat]. rewrite IH.
  unfold encode_char. rewrite (proj2 (Z.ltb_lt _ _)) by lia. done.
Qed.

(** [str::from_utf8]. *)
Definition from_utf8 (bs : bytes) : option text :=
  let s := from_utf8_lossy bs in if decide (as_bytes s = bs) then Some s else None.

Lemma from_utf8_text s : Forall is_char s → from_utf8 (as_bytes s) = Some s.
Proof. intros H. unfold from_utf8. rewrite from_utf8_as_bytes by done. by rewrite decide_True. Qed.

Lemma from_utf8_ascii s : Forall (λ c, 0 <= c < 128) s → from_utf8 s = Some s.
Proof.
  intros Hs. unfold from_utf8.
  assert (from_utf8_lossy s = s) as ->.
  { rewrite <- (as_bytes_ascii s Hs) at 1. apply from_utf8_as_bytes. eapply Forall_impl; [done|].
    intros c Hc. simpl in Hc. left. lia. }
  by rewrite as_bytes_ascii, decide_True.
Qed.

End Utf8.
