(* ===== verification/Store.v ===== *)
(** * The file store

    [std::fs] on a tree of files, as the file manager and the plugin host use
    it: nodes by the components of their path, the calls with the error numbers
    they fail with, and the frame lemmas of each call. Symbolic links, [..] and
    permissions are not part of the tree; where the code branches on a failure
    the store does not explain, the failure is an input. *)

From S2P Require Import Prelude Text Paths Utf8.
Import Text Paths Utf8.
Local Open Scope list_scope.

Module Store.

Notation bytes := (list Z) (only parsing).

Inductive node : Type := NDir | NFile (content : bytes).
#[export] Instance node_eq_dec : EqDecision node.
Proof. solve_decision. Defined.

Notation key := (list (list Z)) (only parsing).
Notation store := (gmap (list (list Z)) node).

(** ** Error numbers *)
Definition errno := Z.
Definition ENOENT : errno := 2%Z.
Definition EIO : errno := 5%Z.
Definition EXDEV : errno := 18%Z.
Definition ENOTDIR : errno := 20%Z.
Definition EISDIR : errno := 21%Z.
Definition EINVAL : errno := 22%Z.
Definition ENOTEMPTY : errno := 39%Z.
Definition ENOTSUP : errno := 95%Z.

Definition find (st : store) (p : path) : option node := st !! components p.

(** [Path::exists]. *)
Definition exists_ (st : store) (p : path) : bool := bool_decide (is_Some (find st p)).

(** A directory new entries can be made in; the empty path is the working
    directory. *)
Definition is_dir_key (st : store) (k : key) : bool :=
  match k with [] => true | _ => bool_decide (st !! k = Some NDir) end.

(** [fs::remove_file]. *)
Definition remove_file (st : store) (p : path) : result store errno :=
  match find st p with
  | Some (NFile _) => Ok (delete (components p) st)
  | Some NDir => Err EISDIR
  | None => Err ENOENT
  end.
(** [let _ = fs::remove_file(p)]. *)
Definition remove_file_ (st : store) (p : path) : store :=
  match remove_file st p with Ok st' => st' | Err _ => st end.

(** [fs::read], and [File::open] followed by reading. *)
Definition read (st : store) (p : path) : result bytes errno :=
  match find st p with
  | Some (NFile b) => Ok b
  | Some NDir => Err EISDIR
  | None => Err ENOENT
  end.

(** [fs::read_to_string]; [EILSEQ] stands for [InvalidData]. *)
Definition EILSEQ : errno := 84%Z.
Definition read_to_string (st : store) (p : path) : result text errno :=
  rbind (read st p) (λ b, match from_utf8 b with Some s => Ok s | None => Err EILSEQ end).

(** [OpenOptions::new().write(true).create(true).truncate(true).open], and
    [File::create]. *)
Definition open_truncate (st : store) (p : path) : result store errno :=
  match find st p with
  | Some NDir => Err EISDIR
  | Some (NFile _) => Ok (<[components p := NFile []]> st)
  | None => if is_dir_key st (removelast (components p)) then Ok (<[components p := NFile []]> st)
            else Err ENOENT
  end.

(** [Write::write_all] at the end of an open file. *)
Definition append (st : store) (p : path) (b : bytes) : store :=
  match find st p with
  | Some (NFile c) => <[components p := NFile (c ++ b)]> st
  | _ => st
  end.

(** [fs::write]. *)
Definition write (st : store) (p : path) (b : bytes) : result store errno :=
  rbind (open_truncate st p) (λ st, Ok (append st p b)).

(** [metadata(p).len()] of a file. *)
Definition file_len (st : store) (p : path) : result Z errno :=
  match find st p with
  | Some (NFile b) => Ok (Z.of_nat (length b))
  | Some NDir => Ok 0%Z
  | None => Err ENOENT
  end.

(** The entries below a directory. *)
Definition below (st : store) (k : key) : list (key * node) :=
  filter (λ kn, k `prefix_of` kn.1 ∧ kn.1 ≠ k) (map_to_list st).

(** Every key under [a] moved under [b]. *)
Definition move_key (a b k : key) : key :=
  if decide (a `prefix_of` k) then b ++ drop (length a) k else k.
Definition move_tree (st : store) (a b : key) : store :=
  list_to_map (map (λ kn, (move_key a b kn.1, kn.2)) (map_to_list (delete b st))).

(** [fs::rename], within one mount. *)
Definition rename (st : store) (p q : path) : result store errno :=
  let a := components p in
  let b := components q in
  match st !! a with
  | None => Err ENOENT
  | Some n =>
      if decide (a = b) then Ok st
      else if negb (is_dir_key st (removelast b)) then Err ENOENT
      else match n, st !! b with
           | NFile _, Some NDir => Err EISDIR
           | NFile _, _ => Ok (<[b := n]> (delete a st))
           | NDir, Some (NFile _) => Err ENOTDIR
           | NDir, Some NDir =>
               if decide (below st b = []) then
                 if decide (a `prefix_of` b) then Err EINVAL else Ok (move_tree st a b)
               else Err ENOTEMPTY
           | NDir, None => if decide (a `prefix_of` b) then Err EINVAL else Ok (move_tree st a b)
           end
  end.

(** [fs::create_dir_all]: every prefix of the path becomes a directory. *)
Fixpoint mkdirs (st : store) (done : key) (cs : key) : result store errno :=
  match cs with
  | [] => Ok st
  | c :: cs' =>
      let k := done ++ [c] in
      match st !! k with
      | Some (NFile _) => Err ENOTDIR
      | Some NDir => mkdirs st k cs'
      | None => mkdirs (<[k := NDir]> st) k cs'
      end
  end.
Definition create_dir_all (st : store) (p : path) : result store errno := mkdirs st [] (components p).

(** Write to a temporary name, then rename over the final one. *)
Definition write_atomic (st : store) (tmp final : path) (b : bytes) : result store errno :=
  rbind (write st tmp b) (λ st, rename st tmp final).

(** ** Lemmas *)
Lemma exists_spec st p : exists_ st p = true ↔ is_Some (st !! components p).
Proof. apply bool_decide_eq_true. Qed.
Lemma exists_false st p : exists_ st p = false ↔ st !! components p = None.
Proof. unfold exists_, find. rewrite bool_decide_eq_false, eq_None_not_Some. done. Qed.

Lemma remove_file_lookup_ne st p k : k ≠ components p → remove_file_ st p !! k = st !! k.
Proof.
  intros Hk. unfold remove_file_, remove_file.
  destruct (find st p) as [[|b]|]; [done| |done]. by apply lookup_delete_ne.
Qed.

Lemma remove_file_gone st p b :
  st !! components p = Some (NFile b) → remove_file_ st p !! components p = None.
Proof.
  intros H. unfold remove_file_, remove_file, find. rewrite H. apply lookup_delete_eq.
Qed.

(** A file that can be removed, or was never there, is gone afterwards. *)
Lemma remove_file_not_dir st p :
  st !! components p ≠ Some NDir → remove_file_ st p !! components p = None.
Proof.
  intros H. unfold remove_file_, remove_file, find.
  destruct (st !! components p) as [[|b]|] eqn:E; [congruence|apply lookup_delete_eq|done].
Qed.

Lemma remove_file_absent st p : st !! components p = None → remove_file_ st p = st.
Proof. intros H. unfold remove_file_, remove_file, find. by rewrite H. Qed.

Lemma open_truncate_Ok st p st' :
  open_truncate st p = Ok st' → st' = <[components p := NFile []]> st.
Proof.
  unfold open_truncate. destruct (find st p) as [[|b]|]; [done|congruence|].
  destruct (is_dir_key _ _); congruence.
Qed.

Lemma append_eq st p c b :
  st !! components p = Some (NFile c) → append st p b = <[components p := NFile (c ++ b)]> st.
Proof. intros H. unfold append, find. by rewrite H. Qed.

Lemma append_lookup_ne st p b k : k ≠ components p → append st p b !! k = st !! k.
Proof.
  intros Hk. unfold append. destruct (find st p) as [[|c]|]; [done| |done].
  by apply lookup_insert_ne.
Qed.

Lemma write_Ok st p b st' : write st p b = Ok st' → st' = <[components p := NFile b]> st.
Proof.
  unfold write. destruct (open_truncate st p) as [s|] eqn:E; [|done]. cbn [rbind].
  intros [= <-]. apply open_truncate_Ok in E as ->.
  rewrite (append_eq _ _ []); [|apply lookup_insert_eq]. by rewrite insert_insert_eq.
Qed.

(** An atomic write either fails or leaves exactly the new content, and nothing
    under the temporary name. *)
Lemma write_atomic_Ok st tmp final b st' :
  components tmp ≠ components final →
  write_atomic st tmp final b = Ok st' →
  st' = <[components final := NFile b]> (delete (components tmp) st).
Proof.
  intros Hne. unfold write_atomic. destruct (write st tmp b) as [s|] eqn:E; [|done].
  apply write_Ok in E as ->. cbn [rbind]. unfold rename.
  rewrite lookup_insert_eq, decide_False by done. destruct (is_dir_key _ _); [|done]. simpl negb.
  cbn match. rewrite lookup_insert_ne by done.
  destruct (st !! components final) as [[|c]|]; [done| |];
    intros [= <-]; by rewrite delete_insert_eq.
Qed.

Lemma read_insert st p b : read (<[components p := NFile b]> st) p = Ok b.
Proof. unfold read, find. by rewrite lookup_insert_eq. Qed.

(** Making directories adds directories where there was nothing. *)
Lemma mkdirs_lookup st acc cs st' k :
  mkdirs st acc cs = Ok st' →
  st' !! k = st !! k ∨ st !! k = None ∧ st' !! k = Some NDir ∧ k `prefix_of` acc ++ cs.
Proof.
  revert st acc. induction cs as [|c cs IH]; intros st acc; cbn [mkdirs]; [intros [= <-]; auto|].
  replace (acc ++ c :: cs) with ((acc ++ [c]) ++ cs) by (by rewrite <- app_assoc).
  destruct (st !! (acc ++ [c])) as [[|b]|] eqn:E; [apply IH|done|].
  intros H. destruct (IH _ _ H) as [Hk|(Hk & Hk' & Hp)].
  - destruct (decide (k = acc ++ [c])) as [->|Hne].
    + right. rewrite lookup_insert_eq in Hk. split_and!; [done|done|]. by apply prefix_app_r.
    + left. by rewrite lookup_insert_ne in Hk.
  - right. apply lookup_insert_None in Hk as [? ?]. done.
Qed.

Lemma create_dir_all_lookup st p st' k :
  create_dir_all st p = Ok st' →
  st' !! k = st !! k ∨ st !! k = None ∧ st' !! k = Some NDir ∧ k `prefix_of` components p.
Proof. apply mkdirs_lookup. Qed.

(** A path below a directory that is made reads as before. *)
Lemma create_dir_all_read st d st' n :
  is_name n → create_dir_all st d = Ok st' → read st' (join d n) = read st (join d n).
Proof.
  intros Hn H. unfold read, find. rewrite components_join by done.
  destruct (create_dir_all_lookup _ _ _ (components d ++ [n]) H) as [->|(_ & _ & Hp)]; [done|].
  apply prefix_length in Hp. rewrite length_app in Hp. simpl in Hp. lia.
Qed.

(** ** Moving a tree *)
Definition empty_below (st : store) (k : key) : Prop := ∀ e, e ≠ [] → st !! (k ++ e) = None.

Definition apart (a b : key) : Prop := ¬ a `prefix_of` b ∧ ¬ b `prefix_of` a.
(** What is above an entry is a directory. *)
Definition closed (st : store) : Prop := ∀ k c e, is_Some (st !! (k ++ c :: e)) → k ≠ [] → st !! k = Some NDir.

Lemma below_empty st k : below st k = [] ↔ empty_below st k.
Proof.
  unfold below, empty_below. split.
  - intros H e He. destruct (st !! (k ++ e)) as [n|] eqn:E; [|done].
    assert ((k ++ e, n) ∈ @nil (key * node)) as Hin; [|by apply not_elem_of_nil in Hin].
    rewrite <- H. apply list_elem_of_filter. split; [|by apply elem_of_map_to_list].
    cbn. split; [by exists e|]. intros Hk. apply (f_equal length) in Hk. rewrite length_app in Hk.
    destruct e; [done|]. simpl in Hk. lia.
  - intros H. apply elem_of_nil_inv. intros [k' n] [[Hp Hne] Hin]%list_elem_of_filter.
    apply elem_of_map_to_list in Hin. destruct Hp as [e He]. cbn in He, Hne. subst k'.
    rewrite H in Hin; [done|]. intros ->. by rewrite app_nil_r in Hne.
Qed.

Lemma move_key_in a b e : move_key a b (a ++ e) = b ++ e.
Proof. unfold move_key. rewrite decide_True by (by exists e). by rewrite drop_app_length. Qed.
Lemma move_key_out a b k : ¬ a `prefix_of` k → move_key a b k = k.
Proof. intros H. unfold move_key. by rewrite decide_False. Qed.

Lemma move_key_inj st a b k k' n n' :
  empty_below st b → delete b st !! k = Some n → delete b st !! k' = Some n' →
  move_key a b k = move_key a b k' → k = k'.
Proof.
  intros Hb Hk Hk'.
  assert (∀ j m, delete b st !! j = Some m → ¬ b `prefix_of` j) as Hnot.
  { intros j m [Hj Hl]%lookup_delete_Some [e ->]. rewrite Hb in Hl; [done|]. intros ->. by rewrite app_nil_r in Hj. }
  unfold move_key. do 2 case_decide; [| | |done].
  - destruct H as [e ->], H0 as [e' ->]. rewrite !drop_app_length. by intros ->%app_inv_head.
  - intros <-. destruct (Hnot _ _ Hk'). by eexists.
  - intros ->. destruct (Hnot _ _ Hk). by eexists.
Qed.

Lemma move_tree_spec st a b j n :
  empty_below st b →
  move_tree st a b !! j = Some n ↔ ∃ k, j = move_key a b k ∧ k ≠ b ∧ st !! k = Some n.
Proof.
  intros Hb. unfold move_tree. rewrite <- elem_of_list_to_map.
  - rewrite list_elem_of_fmap. split.
    + intros ([k m] & [= -> ->] & [Hk Hl]%elem_of_map_to_list%lookup_delete_Some). by exists k.
    + intros (k & -> & Hk & Hl). exists (k, n). split; [done|]. apply elem_of_map_to_list.
      by rewrite lookup_delete_ne.
  - rewrite <- list_fmap_compose.
    apply (NoDup_fmap_2_strong _ (map_to_list (delete b st))); [|apply NoDup_map_to_list].
    intros [k m] [k' m'] Hin Hin' Heq. cbn in Heq. apply elem_of_map_to_list in Hin, Hin'.
    assert (k = k') as -> by (by eapply move_key_inj). by rewrite Hin in Hin'; injection Hin' as ->.
Qed.



Lemma move_tree_to st a b e : empty_below st b → apart a b → move_tree st a b !! (b ++ e) = st !! (a ++ e).
Proof.
  intros Hb [Hab Hba]. apply option_eq. intros n. rewrite move_tree_spec by done. split.
  - intros (k & Hj & Hk & Hl). unfold move_key in Hj. case_decide as Hp.
    + destruct Hp as [e' ->]. rewrite drop_app_length in Hj. apply app_inv_head in Hj. by subst.
    + subst k. rewrite Hb in Hl; [done|]. intros ->. by rewrite app_nil_r in Hk.
  - intros Hl. exists (a ++ e). rewrite move_key_in. split_and!; [done| |done].
    intros <-. apply Hab. by eexists.
Qed.

Lemma move_tree_from st a b e : empty_below st b → apart a b → move_tree st a b !! (a ++ e) = None.
Proof.
  intros Hb [Hab Hba]. apply eq_None_not_Some. intros [n Hn]. apply move_tree_spec in Hn as (k & Hj & Hk & Hl); [|done].
  unfold move_key in Hj. case_decide as Hp; [|apply Hp; rewrite <- Hj; by eexists].
  destruct (prefix_weak_total a b (a ++ e)); [by eexists|rewrite Hj; by eexists|done|done].
Qed.

Lemma move_tree_else st a b k :
  empty_below st b → ¬ a `prefix_of` k → ¬ b `prefix_of` k → move_tree st a b !! k = st !! k.
Proof.
  intros Hb Ha Hk. apply option_eq. intros n. rewrite move_tree_spec by done. split.
  - intros (j & Hj & Hne & Hl). unfold move_key in Hj. case_decide as Hp; [|by subst].
    destruct Hk. rewrite Hj. by eexists.
  - intros Hl. exists k. rewrite move_key_out by done. split_and!; [done| |done]. by intros ->.
Qed.

Lemma apart_names a b (c : key) : a ≠ b → apart (c ++ [a]) (c ++ [b]).
Proof.
  intros Hne. split; intros [e He]; rewrite <- app_assoc in He; apply app_inv_head in He; cbn in He;
    by injection He as ->.
Qed.
Lemma apart_sym a b : apart a b → apart b a.
Proof. by intros []. Qed.
Lemma apart_app a b e : apart a b → ¬ a `prefix_of` b ++ e.
Proof.
  intros [Hab Hba] H. destruct (prefix_weak_total a b (b ++ e)) as [?|?]; [done|by eexists|done|done].
Qed.

Lemma closed_empty_below st k : closed st → k ≠ [] → st !! k = None → empty_below st k.
Proof.
  intros Hc Hne Hk [|c e] He; [done|]. apply eq_None_not_Some. intros Hs.
  rewrite (Hc _ _ _ Hs) in Hk by done. done.
Qed.

(** Directories that are there are not made again. *)
Lemma mkdirs_present st acc cs :
  (∀ k, k `prefix_of` cs → k ≠ [] → st !! (acc ++ k) = Some NDir) → mkdirs st acc cs = Ok st.
Proof.
  revert acc. induction cs as [|c cs IH]; intros acc H; [done|]. cbn [mkdirs].
  rewrite H; [|exists cs; done|done]. apply IH. intros k [e ->] Hk. rewrite <- app_assoc. apply H; [|done].
  by exists e.
Qed.

(** Renaming a directory to a free place beside others. *)
Lemma rename_dir st p q :
  st !! components p = Some NDir → st !! components q = None → apart (components p) (components q) →
  is_dir_key st (removelast (components q)) = true →
  rename st p q = Ok (move_tree st (components p) (components q)).
Proof.
  intros Hp Hq Ha Hd. unfold rename. rewrite Hp, Hd, Hq. cbn [negb].
  destruct Ha as [Ha _]. rewrite decide_False; [|intros E; apply Ha; by rewrite E].
  by rewrite decide_False.
Qed.

(** Moving a tree and back changes nothing. *)
Lemma move_tree_back st a b :
  (∀ e, st !! (b ++ e) = None) → apart a b → move_tree (move_tree st a b) b a = st.
Proof.
  intros Hb Hab.
  assert (empty_below st b) as Hb' by (intros e _; apply Hb).
  assert (empty_below (move_tree st a b) a) as Ha by (intros e _; by apply move_tree_from).
  apply map_eq. intros k. destruct (decide (a `prefix_of` k)) as [[e ->]|Hna].
  - rewrite move_tree_to by (done || by apply apart_sym). by apply move_tree_to.
  - destruct (decide (b `prefix_of` k)) as [[e ->]|Hnb].
    + rewrite move_tree_from by (done || by apply apart_sym). by rewrite Hb.
    + rewrite !move_tree_else by done. done.
Qed.

(** The moved directory itself, and the directory both names are in. *)
Lemma move_tree_at_to st a b : empty_below st b → apart a b → move_tree st a b !! b = st !! a.
Proof. intros H A. pose proof (move_tree_to st a b [] H A) as E. by rewrite !app_nil_r in E. Qed.
Lemma move_tree_at_from st a b : empty_below st b → apart a b → move_tree st a b !! a = None.
Proof. intros H A. pose proof (move_tree_from st a b [] H A) as E. by rewrite !app_nil_r in E. Qed.
Lemma not_below_parent (c : key) x : ¬ (c ++ [x]) `prefix_of` c.
Proof. intros [e He]. apply (f_equal length) in He. rewrite !length_app in He. cbn in He. lia. Qed.
Lemma move_tree_parent st c x y : empty_below st (c ++ [y]) → move_tree st (c ++ [x]) (c ++ [y]) !! c = st !! c.
Proof. intros H. apply move_tree_else; [done| |]; apply not_below_parent. Qed.
(** A directory beside both. *)
Lemma move_tree_beside st c x y z :
  empty_below st (c ++ [y]) → x ≠ z → y ≠ z → move_tree st (c ++ [x]) (c ++ [y]) !! (c ++ [z]) = st !! (c ++ [z]).
Proof. intros H ??. apply move_tree_else; [done| |]; by apply apart_names. Qed.

(** [closed], decided entry by entry. *)
Lemma closed_by_entries (st : store) :
  Forall (λ kn : key * node, Forall (λ i, st !! take i kn.1 = Some NDir) (seq 1 (length kn.1 - 1))) (map_to_list st) →
  closed st.
Proof.
  intros H k c e [n Hn] Hk. apply elem_of_map_to_list in Hn.
  pose proof (proj1 (Forall_forall _ _) H _ Hn) as H'. cbn in H'.
  rewrite <- (take_app_length k (c :: e)). apply (proj1 (Forall_forall _ _) H').
  apply elem_of_seq. rewrite length_app. cbn. destruct k; [done|]. cbn. lia.
Qed.

End Store.
