(* ===== verification/FileState.v ===== *)
(** * The file manager's state

    [crates/sy-filemanager/src/file/state]: the selection, the panes, the
    command bar and the queued operations; with what the reducer computes from
    them: the layout for a width ([view/mod.rs]), the kind of a preview
    ([view/preview/mod.rs]), the merged search results ([search]), and the
    [text/uri-list] bodies of drag and drop ([dnd.rs]). *)

From S2P Require Import Prelude Lists Text Paths Utf8.
From stdpp Require Import gmap sorting.
From Stdlib Require Import SpecFloat.
Import Lists Text Paths Utf8.
Local Open Scope list_scope.

(** ** The selection: [state/selection.rs] *)

Module Selection.

Notation EntryId := Z (only parsing).
(** [SelectionSet]: a [BTreeSet] of ids. *)
Notation SelectionSet := (gset Z).
Implicit Type (s : SelectionSet) (universe : list EntryId).

Definition new : SelectionSet := ∅.

Definition contains s (id : EntryId) : bool := bool_decide (id ∈ s).

Definition toggle s (id : EntryId) : SelectionSet :=
  if contains s id then s ∖ {[id]} else {[id]} ∪ s.

(** The ids [lo ..= hi], inserted one by one. *)
Definition add_range s (a b : EntryId) : SelectionSet :=
  let '(lo, hi) := if (a <=? b)%Z then (a, b) else (b, a) in
  foldl (λ s id, {[id]} ∪ s) s (seqZ lo (hi - lo + 1)).

Definition invert s universe : SelectionSet :=
  foldl (λ (next : gset Z) id, if contains s id then next else {[id]} ∪ next) ∅ universe.

Definition all universe : SelectionSet := list_to_set universe.

Definition clear s : SelectionSet := ∅.
Definition len s : nat := size s.
Definition is_empty s : bool := bool_decide (s = ∅).

(** In ascending order. *)
Definition iter s : list EntryId := merge_sort Z.le (elements s).

Lemma contains_spec s id : contains s id = true ↔ id ∈ s.
Proof. apply bool_decide_eq_true. Qed.

Lemma elem_of_toggle s id x : x ∈ toggle s id ↔ (x = id ∧ id ∉ s) ∨ (x ≠ id ∧ x ∈ s).
Proof.
  unfold toggle, contains. case_bool_decide; set_unfold; [naive_solver|].
  split; [|naive_solver]. intros [->|Hx]; [naive_solver|]. right. split; [|done]. by intros ->.
Qed.

Lemma elem_of_insert_all s (l : list Z) x :
  x ∈ foldl (λ s id, {[id]} ∪ s) s l ↔ x ∈ l ∨ x ∈ s.
Proof.
  revert s. induction l as [|y l IH]; intros s; cbn [foldl]; [set_solver|].
  rewrite IH. set_solver.
Qed.

Lemma elem_of_add_range s a b x :
  x ∈ add_range s a b ↔ (Z.min a b <= x <= Z.max a b)%Z ∨ x ∈ s.
Proof.
  unfold add_range. destruct (a <=? b)%Z eqn:E.
  - apply Z.leb_le in E. rewrite elem_of_insert_all, elem_of_seqZ.
    split; (intros [?|?]; [left; lia|by right]).
  - apply Z.leb_gt in E. rewrite elem_of_insert_all, elem_of_seqZ.
    split; (intros [?|?]; [left; lia|by right]).
Qed.

Lemma elem_of_invert s universe x : x ∈ invert s universe ↔ x ∈ universe ∧ x ∉ s.
Proof.
  unfold invert.
  assert (∀ acc : gset Z, x ∈ foldl (λ (next : gset Z) id, if contains s id then next else {[id]} ∪ next) acc universe
    ↔ x ∈ acc ∨ (x ∈ universe ∧ x ∉ s)) as H.
  { induction universe as [|y l IH]; intros acc; cbn [foldl]; [set_solver|].
    rewrite IH. unfold contains. case_bool_decide as Hy; set_unfold; [naive_solver|].
    split; [naive_solver|]. naive_solver. }
  rewrite H. set_solver.
Qed.

(** Ids come out in strictly ascending order. *)
Lemma iter_sorted s : StronglySorted Z.lt (iter s).
Proof.
  unfold iter. assert (StronglySorted Z.le (merge_sort Z.le (elements s))) as Hs
    by (apply StronglySorted_merge_sort; apply _).
  assert (NoDup (merge_sort Z.le (elements s))) as Hn
    by (rewrite merge_sort_Permutation; apply NoDup_elements).
  revert Hs Hn. generalize (merge_sort Z.le (elements s)). intros l Hs.
  induction Hs as [|x l Hs IH Hf]; intros Hn; [constructor|]. apply NoDup_cons in Hn as [Hx Hn].
  constructor; [by apply IH|]. apply Forall_forall. intros y Hy.
  rewrite Forall_forall in Hf. pose proof (Hf _ Hy). assert (x ≠ y) by (by intros ->). lia.
Qed.

Lemma elem_of_iter s x : x ∈ iter s ↔ x ∈ s.
Proof. unfold iter. by rewrite merge_sort_Permutation, elem_of_elements. Qed.

End Selection.

(** ** Panes: [state/panes.rs] *)

Module Panes.

Inductive PaneId : Type := Parent | Current | Preview.
Inductive EntryKind : Type := File | Dir | Symlink | Other.
#[export] Instance PaneId_eq_dec : EqDecision PaneId.
Proof. solve_decision. Defined.
#[export] Instance EntryKind_eq_dec : EqDecision EntryKind.
Proof. solve_decision. Defined.

Record Entry : Type := mkEntry {
  e_id : Z;
  e_name : text;
  e_kind : EntryKind;
  e_size : Z;
  e_mtime : Z;
  e_is_symlink : bool;
  e_broken_link : bool;
  e_readable : bool;
  e_mime_hint : option text;
  e_symlink_target : option (list Z);
}.
#[export] Instance Entry_eq_dec : EqDecision Entry.
Proof. solve_decision. Defined.

Record Pane : Type := mkPane {
  cwd : list Z;
  entries : list Entry;
  cursor : nat;
  scroll : nat;
}.

(** [Pane::new]. *)
Definition new_pane (d : list Z) : Pane := mkPane d [] 0 0.

(** [Pane::set_entries]: the cursor stays on a row. *)
Definition set_entries (p : Pane) (l : list Entry) : Pane :=
  mkPane (cwd p) l
    (match l with
     | [] => 0
     | _ => if length l <=? cursor p then length l - 1 else cursor p
     end)
    (scroll p).

Definition set_cwd (p : Pane) (d : list Z) : Pane := mkPane d (entries p) (cursor p) (scroll p).
Definition set_cursor (p : Pane) (i : nat) : Pane := mkPane (cwd p) (entries p) i (scroll p).

Record Panes : Type := mkPanes { parent_pane : Pane; current : Pane; preview_pane : Pane }.

Definition new_panes (a b c : list Z) : Panes := mkPanes (new_pane a) (new_pane b) (new_pane c).
(** [Panes::default]. *)
Definition default_panes : Panes := new_panes [SLASH] [SLASH] [SLASH].

(** A cursor on a row, or at zero when there is none. *)
Definition pane_ok (p : Pane) : Prop := cursor p < length (entries p) ∨ entries p = [] ∧ cursor p = 0.

Lemma new_pane_ok d : pane_ok (new_pane d).
Proof. by right. Qed.

Lemma set_entries_ok p l : pane_ok (set_entries p l).
Proof.
  unfold pane_ok, set_entries. destruct l as [|e l]; [by right|]. left. cbn [cursor entries].
  destruct (Nat.leb_spec (length (e :: l)) (cursor p)); simpl in *; lia.
Qed.

Lemma set_cwd_ok p d : pane_ok p → pane_ok (set_cwd p d).
Proof. done. Qed.

Lemma set_cursor_ok p i : i < length (entries p) → pane_ok (set_cursor p i).
Proof. intros. by left. Qed.

End Panes.
#[export] Hint Resolve Panes.new_pane_ok Panes.set_entries_ok Panes.set_cwd_ok Panes.set_cursor_ok : sy.

(** ** Operations and events: [state/ops.rs] *)

Module Ops.

Inductive ConflictPolicy : Type := Skip | Overwrite | Rename.

Inductive Operation : Type :=
| Copy (srcs : list (list Z)) (dst : list Z) (conflict : ConflictPolicy)
| Move (srcs : list (list Z)) (dst : list Z) (conflict : ConflictPolicy)
| Trash (srcs : list (list Z))
| Restore (ids : list Z)
| Mkdir (parent : list Z) (name : text)
| RenameOp (src : list Z) (new_name : text).

(** The message of a failure is left out. *)
Inductive OpEvent : Type :=
| Started (op_id : Z)
| Progress (op_id done total throughput_bps : Z)
| Paused (op_id : Z)
| Resumed (op_id : Z)
| Cancelled (op_id : Z)
| Completed (op_id : Z)
| Failed (op_id code : Z).

Definition event_op (e : OpEvent) : Z :=
  match e with
  | Started i | Progress i _ _ _ | Paused i | Resumed i | Cancelled i | Completed i | Failed i _ => i
  end.

End Ops.

(** ** The command bar: [state/commandbar.rs] *)

Module CommandBar.

Inductive CommandMode : Type := Closed | Filter | Palette.
#[export] Instance CommandMode_eq_dec : EqDecision CommandMode.
Proof. solve_decision. Defined.

Local Open Scope string_scope.
Definition KNOWN_VERBS : list text :=
  map lit ["k"; "copy"; "move"; "trash"; "restore"; "mkdir"; "rename"; "find"; "m"].
Definition KNOWLEDGE_VERB_PREFIX : text := lit "k ".
Definition MOUNTS_VERB : text := lit "m".
Definition MOUNTS_PREFIX : text := lit "m ".
Local Close Scope string_scope.

Definition completions_for (query : text) : list text :=
  filter (λ v, starts_with v query = true) KNOWN_VERBS.

Definition is_knowledge_query (q : text) : bool := starts_with q KNOWLEDGE_VERB_PREFIX.
Definition knowledge_query_body (q : text) : text := trim (default [] (strip_prefix KNOWLEDGE_VERB_PREFIX q)).

Definition is_mounts_query (q : text) : bool :=
  bool_decide (q = MOUNTS_VERB) || starts_with q MOUNTS_PREFIX.
Definition mounts_filter_body (q : text) : text :=
  if decide (q = MOUNTS_VERB) then [] else trim (default [] (strip_prefix MOUNTS_PREFIX q)).

Record t : Type := mkBar {
  mode : CommandMode;
  query : text;
  filter_results : list nat;
  selected_verb : option text;
}.

Definition closed : t := mkBar Closed [] [] None.

Definition open_filter (b : t) : t := mkBar Filter [] [] None.
Definition open_palette (b : t) : t := mkBar Palette [] [] (head KNOWN_VERBS).
Definition close (b : t) : t := closed.
Definition is_open (b : t) : bool := bool_decide (mode b ≠ Closed).

Definition set_query (b : t) (q : text) : t :=
  mkBar (mode b) q (filter_results b)
    (match mode b with Palette => head (completions_for q) | _ => selected_verb b end).

Definition select_verb (b : t) (v : text) : t := mkBar (mode b) (query b) (filter_results b) (Some v).

Definition set_filter_results (b : t) (l : list nat) : t := mkBar (mode b) (query b) l (selected_verb b).

(** Filter results belong to the filter. *)
Definition bar_ok (b : t) : Prop := mode b ≠ Filter → filter_results b = [].

Lemma closed_ok : bar_ok closed.
Proof. done. Qed.
Lemma open_filter_ok b : bar_ok (open_filter b).
Proof. done. Qed.
Lemma open_palette_ok b : bar_ok (open_palette b).
Proof. done. Qed.
Lemma set_query_ok b q : bar_ok b → bar_ok (set_query b q).
Proof. done. Qed.
Lemma select_verb_ok b v : bar_ok b → bar_ok (select_verb b v).
Proof. done. Qed.
Lemma set_filter_results_ok b l : mode b = Filter → bar_ok (set_filter_results b l).
Proof. intros H Hn. done. Qed.

End CommandBar.
#[export] Hint Resolve CommandBar.closed_ok CommandBar.open_filter_ok CommandBar.open_palette_ok
  CommandBar.set_query_ok CommandBar.select_verb_ok CommandBar.set_filter_results_ok : sy.

(** ** What the reducer computes *)

Module View.
Local Open Scope Z_scope.

(** [view/mod.rs]. *)
Inductive LayoutMode : Type := ThreePane | TwoPane | OnePane.
Definition THREE_PANE_MIN_WIDTH_PX : Z := 1100.
Definition TWO_PANE_MIN_WIDTH_PX : Z := 720.
Definition mode_for_width (w : Z) : LayoutMode :=
  if THREE_PANE_MIN_WIDTH_PX <=? w then ThreePane
  else if TWO_PANE_MIN_WIDTH_PX <=? w then TwoPane else OnePane.

(** [view/preview/mod.rs]. *)
Inductive PreviewKind : Type := KImage | KText | KNoBuiltin.
Definition kind_for (mime : text) : PreviewKind :=
  if starts_with mime (lit "image/") then KImage
  else if starts_with mime (lit "text/") || bool_decide (mime = lit "application/json") then KText
  else KNoBuiltin.

(** [mime_for_entry]; [mime_for] is what [fs::mime] found for the path. *)
Definition mime_for_entry (e : Panes.Entry) (mime_for : option text) : text :=
  match Panes.e_mime_hint e with
  | Some h => h
  | None => default (lit "application/octet-stream") mime_for
  end.

(** [f32] scores, and the order [partial_cmp] sorts them in, best first; scores
    that do not compare count as equal. *)
Notation score := spec_float (only parsing).
Definition score_ge (a b : score) : bool :=
  match SFcompare b a with Some Gt => false | _ => true end.
Definition f32_of_nat (n : Z) : score :=
  binary_normalize 24 128 n 0 false.
(** [-(i as f32) / 1000.0]. *)
Definition filename_score (i : nat) : score :=
  SFdiv 24 128 (SFopp (f32_of_nat (Z.of_nat i))) (f32_of_nat 1000).

(** [search/knowledge.rs]: the semantic hits, then the other entries. *)
Definition hits := list (list Z * score).
Definition by_score (a b : list Z * score) : bool := score_ge a.2 b.2.
Definition merge (qdrant filename : hits) : hits :=
  let qdrant_sorted := sort_by by_score qdrant in
  let in_qdrant p := existsb (λ h, path_eq h.1 p) qdrant_sorted in
  qdrant_sorted ++ sort_by by_score (List.filter (λ h, negb (in_qdrant h.1)) filename).

(** [search/filename.rs]: every row for an empty query; else the rows nucleo
    matches, best score first. *)
Definition matches (fuzzy : text → text → option Z) (q : text) (l : list Panes.Entry) : list nat :=
  match q with
  | [] => seq 0 (length l)
  | _ =>
      let scored := omap (λ ie, pair ie.1 <$> fuzzy (Panes.e_name ie.2) q)
                      (zip (seq 0 (length l)) l) in
      map fst (sort_by (λ a b, b.2 <=? a.2) scored)
  end.

End View.
