(* ===== verification/Bookmarks.v ===== *)
(** * Bookmarks, recent directories, key bindings and mounts

    [crates/sy-filemanager/src/file]: the pinned directories and the
    [recently-used.xbel] log ([bookmarks.rs]), the key bindings ([keymap.rs]) and
    the parsed mount table ([fs/mounts.rs]). XML enters as the events [quick_xml]
    reads and writes, TOML as a pair of functions. *)

From S2P Require Import Prelude Lists Text Paths Utf8 Store Codec.
From stdpp Require Import gmap.
Import Lists Text Paths Utf8 Store Codec.
Local Open Scope string_scope.
Local Open Scope list_scope.

Module Bookmarks.

(** ** Percent escapes of [href] *)

(** What [path_to_href] writes for one character. *)
Definition escape_char (c : char) : text :=
  if (c =? 32)%Z then lit "%20"
  else if (c =? 35)%Z then lit "%23"
  else if (c =? 63)%Z then lit "%3F"
  else if (c =? 37)%Z then lit "%25"
  else [c].

Definition FILE_SCHEME : text := lit "file://".

Definition path_to_href (p : text) : text := FILE_SCHEME ++ concat (map escape_char p).

Definition hex_value (c : char) : option Z :=
  (if (48 <=? c) && (c <=? 57) then Some (c - 48)
   else if (97 <=? c) && (c <=? 102) then Some (c - 87)
   else if (65 <=? c) && (c <=? 70) then Some (c - 55)
   else None)%Z.

(** [u8::from_str_radix] of two characters, which may start with a plus sign. *)
Definition radix16 (h1 h2 : char) : option Z :=
  if (h1 =? 43)%Z then hex_value h2
  else a ← hex_value h1; b ← hex_value h2; Some (a * 16 + b)%Z.

(** The loop of [href_to_path]: an escape that does not decode leaves the
    percent sign and takes its two characters away. *)
Fixpoint unescape (s : text) : text :=
  match s with
  | [] => []
  | c :: s' =>
      if (c =? 37)%Z then
        match s' with
        | h1 :: h2 :: s'' =>
            match radix16 h1 h2 with
            | Some byte => byte :: unescape s''
            | None => c :: unescape s''
            end
        | _ => [c]
        end
      else c :: unescape s'
  end.

Definition href_to_path (href : text) : text :=
  unescape (default href (strip_prefix FILE_SCHEME href)).

(** ** The registry *)

Record Bookmark : Type := mkBookmark {
  b_key : char;
  b_path : list Z;
  b_added_at : Z;
  b_title : option text;
}.

(** [items] by key, as the [BTreeMap] has them. *)
Record Bookmarks : Type := mkBookmarks {
  items : gmap Z Bookmark;
  state_dir : list Z;
  xbel_dir : list Z;
}.

Definition BOOKMARKS_TOML : text := lit "bookmarks.toml".
Definition BOOKMARKS_TMP : text := lit "bookmarks.toml.tmp".
Definition RECENTLY_USED_XBEL : text := lit "recently-used.xbel".
Definition RECENT_TMP : text := lit "recently-used.xbel.tmp".
Definition RECENT_LIMIT : nat := 50.

(** [BTreeMap::values], in key order. *)
Definition values (m : gmap Z Bookmark) : list Bookmark :=
  map snd (sort_by (λ a b, (a.1 <=? b.1)%Z) (map_to_list m)).

(** [collect] into a map: a later item replaces an earlier one. *)
Definition collect (l : list Bookmark) : gmap Z Bookmark :=
  foldl (λ m b, <[b_key b := b]> m) ∅ l.

(** ** XML events *)

Inductive event : Type :=
| EDecl
| EStart (name : text) (attrs : list (text * text))
| EEmpty (name : text) (attrs : list (text * text))
| EEnd (name : text)
| EText (t : text)
| EOther.

(** [DateTime] in whole seconds, as nanoseconds since the epoch. *)
Definition NANOS : Z := 1000000000%Z.
Definition whole_secs (t : Z) : Z := (Z.max (t / NANOS) 0 * NANOS)%Z.

Definition attr_of (n : text) (attrs : list (text * text)) : option text :=
  snd <$> last (List.filter (λ a, bool_decide (a.1 = n)) attrs).

Definition T_bookmark : text := lit "bookmark".
Definition T_title : text := lit "title".
Definition T_xbel : text := lit "xbel".

Section registry.
(** [toml], [chrono] and [quick_xml]: what the source hands to them. *)
Context (toml_read : bytes → option (list Bookmark)) (toml_write : list Bookmark → option bytes).
Context (parse_rfc3339 : text → option Z) (format_rfc3339 : Z → text).
Context (xml_read : bytes → list (option event)) (xml_write : list event → bytes).

(** [load]: a missing or corrupt file is an empty registry. *)
Definition load (st : store) (sd xd : list Z) : result Bookmarks errno :=
  match read st (join sd BOOKMARKS_TOML) with
  | Ok bytes => Ok (mkBookmarks (match toml_read bytes with Some l => collect l | None => ∅ end) sd xd)
  | Err e => if (e =? ENOENT)%Z then Ok (mkBookmarks ∅ sd xd) else Err e
  end.

(** [Bookmarks::save]. *)
Definition save (st : store) (b : Bookmarks) : result store errno :=
  (try st <- create_dir_all st (state_dir b);
  match toml_write (values (items b)) with
  | None => Err EINVAL
  | Some body =>
      write_atomic st (join (state_dir b) BOOKMARKS_TMP) (join (state_dir b) BOOKMARKS_TOML) body
  end)%sy.

Definition set_items (b : Bookmarks) (m : gmap Z Bookmark) : Bookmarks :=
  mkBookmarks m (state_dir b) (xbel_dir b).

(** [pin] and [unpin]: the registry in memory changes whether or not it could
    be saved. *)
Definition pinned (b : Bookmarks) (now : Z) (key : char) (p : list Z) (title : option text) : Bookmarks :=
  set_items b (<[key := mkBookmark key p now title]> (items b)).
Definition pin (st : store) (b : Bookmarks) (now : Z) (key : char) (p : list Z) (title : option text)
    : Bookmarks * result store errno :=
  let b := pinned b now key p title in
  (b, save st b).
Definition unpin (st : store) (b : Bookmarks) (key : char) : Bookmarks * result store errno :=
  let b := set_items b (delete key (items b)) in
  (b, save st b).
Definition jump (b : Bookmarks) (key : char) : option (list Z) := b_path <$> items b !! key.

(** *** Recent directories *)

Definition plain (p : list Z) (t : Z) (title : option text) : Bookmark := mkBookmark 95%Z p t title.

Definition entry_of (attrs : list (text * text)) : option (list Z * Z * option text) :=
  href ← attr_of (lit "href") attrs;
  let secs := default 0%Z (s ← attr_of (lit "added") attrs; parse_rfc3339 s) in
  Some (href_to_path href, (Z.max secs 0 * NANOS)%Z, None).

(** The loop of [read_recent_from]. After the start of a bookmark it reads one
    event more, and looks only whether that is an end. *)
Fixpoint read_loop (evs : list (option event)) (cur : option (list Z * Z * option text))
    (in_title : bool) (out : list Bookmark) : option (list Bookmark) :=
  match evs with
  | [] => Some out
  | None :: _ => None
  | Some ev :: evs' =>
      let bookmark attrs :=
        let cur := match entry_of attrs with Some c => Some c | None => cur end in
        match evs' with
        | Some (EEnd _) :: rest =>
            match cur with
            | Some (p, t, title) => read_loop rest None in_title (out ++ [plain p t title])
            | None => read_loop rest cur in_title out
            end
        | _ :: rest => read_loop rest cur in_title out
        | [] => Some out
        end in
      let start n attrs :=
        if decide (n = T_bookmark) then bookmark attrs
        else read_loop evs' cur in_title out in
      match ev with
      | EStart n attrs =>
          if decide (n = T_title) then read_loop evs' cur true out else start n attrs
      | EEmpty n attrs => start n attrs
      | EText t =>
          read_loop evs' (match cur with
                          | Some (p, w, title) => Some (p, w, if in_title then Some t else title)
                          | None => None
                          end) in_title out
      | EEnd n =>
          if decide (n = T_title) then read_loop evs' cur false out
          else if decide (n = T_bookmark) then
            match cur with
            | Some (p, t, title) => read_loop evs' None in_title (out ++ [plain p t title])
            | None => read_loop evs' cur in_title out
            end
          else read_loop evs' cur in_title out
      | EDecl | EOther => read_loop evs' cur in_title out
      end
  end.

(** [read_recent_from]; the error of a file that does not parse is [EINVAL]. *)
Definition read_recent_from (st : store) (p : list Z) : result (list Bookmark) errno :=
  match read st p with
  | Ok body => match read_loop (xml_read body) None false [] with Some l => Ok l | None => Err EINVAL end
  | Err e => if (e =? ENOENT)%Z then Ok [] else Err e
  end.

Definition read_recent (st : store) (b : Bookmarks) : result (list Bookmark) errno :=
  read_recent_from st (join (xbel_dir b) RECENTLY_USED_XBEL).

(** The events [write_xbel] writes. *)
Definition bookmark_events (b : Bookmark) : list event :=
  let ts := format_rfc3339 (b_added_at b) in
  [EStart T_bookmark [(lit "href", path_to_href (b_path b)); (lit "added", ts);
                      (lit "modified", ts); (lit "visited", ts)]]
  ++ (match b_title b with
      | Some t => [EStart T_title []; EText t; EEnd T_title]
      | None => []
      end)
  ++ [EEnd T_bookmark].
Definition xbel_events (l : list Bookmark) : list event :=
  [EDecl; EStart T_xbel [(lit "version", lit "1.0")]] ++ concat (map bookmark_events l) ++ [EEnd T_xbel].

Definition write_xbel (st : store) (dir : list Z) (l : list Bookmark) : result store errno :=
  (try st <- create_dir_all st dir;
  write_atomic st (join dir RECENT_TMP) (join dir RECENTLY_USED_XBEL) (xml_write (xbel_events l)))%sy.

(** The log after a visit to [p]. *)
Definition with_recent (p : list Z) (now : Z) (existing : list Bookmark) : list Bookmark :=
  let title := t ← file_name p; if decide (t = []) then None else Some t in
  take RECENT_LIMIT (plain p now title :: List.filter (λ b, negb (path_eq (b_path b) p)) existing).

(** [Bookmarks::touch_recent]. *)
Definition touch_recent (st : store) (b : Bookmarks) (now : Z) (p : list Z) : result store errno :=
  (try st <- create_dir_all st (xbel_dir b);
  let existing := match read_recent st b with Ok l => l | Err _ => [] end in
  write_xbel st (xbel_dir b) (with_recent p now existing))%sy.

End registry.


(** ** Lemmas *)

Definition keys_ok (m : gmap Z Bookmark) : Prop := ∀ k b, m !! k = Some b → b_key b = k.

Lemma unescape_plain c s : c ≠ 37%Z → unescape (c :: s) = c :: unescape s.
Proof. intros H. cbn [unescape]. by rewrite (proj2 (Z.eqb_neq _ _) H). Qed.

(** An escaped character decodes to itself. *)
Lemma unescape_escape_char c s : unescape (escape_char c ++ s) = c :: unescape s.
Proof.
  unfold escape_char.
  destruct (c =? 32)%Z eqn:E1; [apply Z.eqb_eq in E1; subst c; done|].
  destruct (c =? 35)%Z eqn:E2; [apply Z.eqb_eq in E2; subst c; done|].
  destruct (c =? 63)%Z eqn:E3; [apply Z.eqb_eq in E3; subst c; done|].
  destruct (c =? 37)%Z eqn:E4; [apply Z.eqb_eq in E4; subst c; done|].
  apply Z.eqb_neq in E4. by apply unescape_plain.
Qed.

Lemma unescape_escape s : unescape (concat (map escape_char s)) = s.
Proof.
  induction s as [|c s IH]; [done|]. cbn [map concat]. rewrite unescape_escape_char. by f_equal.
Qed.

Lemma href_path p : href_to_path (path_to_href p) = p.
Proof.
  unfold href_to_path, path_to_href. rewrite strip_prefix_app. apply unescape_escape.
Qed.

Lemma collect_lookup_NoDup l k b :
  NoDup (map b_key l) → collect l !! k = Some b ↔ b ∈ l ∧ b_key b = k.
Proof.
  unfold collect. induction l as [|c l IH] using rev_ind; intros Hnd.
  - simpl. rewrite lookup_empty. split; [done|]. intros [H _]. by apply elem_of_nil in H.
  - rewrite map_app in Hnd. apply NoDup_app in Hnd as (Hnd & Hc & _).
    rewrite foldl_snoc, elem_of_app, list_elem_of_singleton.
    destruct (decide (b_key c = k)) as [<-|Hk].
    + rewrite lookup_insert_eq. split; [intros [= <-]; auto|]. intros [[Hb| ->] Ek]; [|done].
      exfalso. apply (Hc (b_key b)); [apply list_elem_of_In, in_map, list_elem_of_In, Hb|].
      rewrite Ek. by apply list_elem_of_In; left.
    + rewrite lookup_insert_ne by done. rewrite IH by done. split; [naive_solver|].
      intros [[Hb| ->] Ek]; [done|congruence].
Qed.

Lemma values_keys m : keys_ok m → NoDup (map b_key (values m)).
Proof.
  intros Hm. unfold values. rewrite map_map.
  assert (map (λ x : Z * Bookmark, b_key x.2) (sort_by (λ a b, (a.1 <=? b.1)%Z) (map_to_list m))
    = map fst (sort_by (λ a b, (a.1 <=? b.1)%Z) (map_to_list m))) as ->.
  { apply map_ext_in. intros [k b] Hin. apply list_elem_of_In in Hin.
    rewrite elem_of_sort_by, elem_of_map_to_list in Hin. by apply Hm. }
  change (map fst) with (fmap (M := list) (@fst Z Bookmark)).
  rewrite (fmap_Permutation fst _ _ (sort_by_Permutation _ _)). apply NoDup_fst_map_to_list.
Qed.

Lemma elem_of_values m b : b ∈ values m ↔ ∃ k, m !! k = Some b.
Proof.
  unfold values. rewrite list_elem_of_In, in_map_iff. split.
  - intros ([k c] & <- & Hin). apply list_elem_of_In in Hin.
    rewrite elem_of_sort_by, elem_of_map_to_list in Hin. eauto.
  - intros [k Hk]. exists (k, b). split; [done|]. apply list_elem_of_In.
    by rewrite elem_of_sort_by, elem_of_map_to_list.
Qed.

(** The saved list gives the map back. *)
Lemma collect_values m : keys_ok m → collect (values m) = m.
Proof.
  intros Hm. apply map_eq. intros k. apply option_eq. intros b.
  rewrite collect_lookup_NoDup by (by apply values_keys). rewrite elem_of_values. split.
  - intros [[j Hj] <-]. by rewrite (Hm _ _ Hj).
  - intros H. split; [eauto|]. by apply Hm.
Qed.

Lemma keys_ok_insert m k b : keys_ok m → b_key b = k → keys_ok (<[k := b]> m).
Proof. intros Hm Hb j c. rewrite lookup_insert_Some. naive_solver. Qed.
Lemma keys_ok_delete m k : keys_ok m → keys_ok (delete k m).
Proof. intros Hm j c. rewrite lookup_delete_Some. naive_solver. Qed.
Lemma keys_ok_collect l : keys_ok (collect l).
Proof.
  unfold collect. induction l as [|b l IH] using rev_ind; [by intros ? ?|].
  rewrite foldl_snoc. by apply keys_ok_insert.
Qed.

Lemma is_name_lit_toml : is_name BOOKMARKS_TOML ∧ is_name BOOKMARKS_TMP
  ∧ is_name RECENTLY_USED_XBEL ∧ is_name RECENT_TMP.
Proof. split; [|split; [|split]]; apply (bool_decide_unpack _); by vm_compute. Qed.

Lemma join_names_differ d m n : is_name m → is_name n → m ≠ n → components (join d m) ≠ components (join d n).
Proof.
  intros Hm Hn Hmn. rewrite !components_join by done. intros E. by simplify_list_eq.
Qed.

(** ** What is written is what is read *)

Section laws.
Context (toml_read : bytes → option (list Bookmark)) (toml_write : list Bookmark → option bytes).
Context (parse_rfc3339 : text → option Z) (format_rfc3339 : Z → text).
Context (xml_read : bytes → list (option event)) (xml_write : list event → bytes).

Lemma save_Ok st b st' : save toml_write st b = Ok st' →
  ∃ body, toml_write (values (items b)) = Some body
    ∧ read st' (join (state_dir b) BOOKMARKS_TOML) = Ok body.
Proof.
  unfold save. destruct (create_dir_all st (state_dir b)) as [st1|]; [|done]. cbn [rbind].
  destruct (toml_write _) as [body|]; [|done]. intros H. exists body. split; [done|].
  destruct is_name_lit_toml as (H1 & H2 & _). apply write_atomic_Ok in H as ->.
  - apply read_insert.
  - apply join_names_differ; [done|done|]. by vm_compute.
Qed.

(** The events of a text without surrounding whitespace are kept; the others are
    trimmed, and dropped when nothing is left, as [trim_text] asks for. *)
Definition trim_events (evs : list event) : list event :=
  omap (λ e, match e with
             | EText t => match trim t with [] => None | t' => Some (EText t') end
             | _ => Some e
             end) evs.

Definition read_back (b : Bookmark) : Bookmark := plain (b_path b) (whole_secs (b_added_at b)) None.

Context (rfc3339 : ∀ t, parse_rfc3339 (format_rfc3339 t) = Some (t / NANOS)%Z).

Lemma read_bookmark b rest out :
  read_loop parse_rfc3339 (map Some (trim_events (bookmark_events format_rfc3339 b)) ++ rest) None false out
  = read_loop parse_rfc3339 rest None false (out ++ [read_back b]).
Proof.
  assert (entry_of parse_rfc3339
    [(lit "href", path_to_href (b_path b)); (lit "added", format_rfc3339 (b_added_at b));
     (lit "modified", format_rfc3339 (b_added_at b)); (lit "visited", format_rfc3339 (b_added_at b))]
    = Some (b_path b, whole_secs (b_added_at b), None)) as He.
  { unfold entry_of.
    change (attr_of (lit "href") _) with (Some (path_to_href (b_path b))).
    change (attr_of (lit "added") _) with (Some (format_rfc3339 (b_added_at b))).
    cbn [mbind option_bind]. by rewrite rfc3339, href_path. }
  unfold bookmark_events, trim_events. destruct (b_title b) as [t|]; cbn [app omap list_omap map].
  - destruct (trim t) as [|c t']; cbn [app omap list_omap map read_loop];
      repeat (rewrite decide_True by done || rewrite decide_False by done); rewrite He;
      cbn [read_loop]; repeat (rewrite decide_True by done || rewrite decide_False by done); done.
  - cbn [read_loop]. rewrite decide_False, decide_True by done. by rewrite He.
Qed.

Lemma read_bookmarks l out rest :
  read_loop parse_rfc3339 (map Some (trim_events (concat (map (bookmark_events format_rfc3339) l))) ++ rest)
    None false out
  = read_loop parse_rfc3339 rest None false (out ++ map read_back l).
Proof.
  revert out. induction l as [|b l IH]; intros out; [by rewrite app_nil_r|].
  cbn [map concat]. unfold trim_events. rewrite omap_app, map_app, <- app_assoc.
  fold (trim_events (bookmark_events format_rfc3339 b)).
  rewrite read_bookmark. fold (trim_events (concat (map (bookmark_events format_rfc3339) l))).
  rewrite IH. by rewrite <- app_assoc.
Qed.

Lemma read_xbel l :
  read_loop parse_rfc3339 (map Some (trim_events (xbel_events format_rfc3339 l))) None false []
  = Some (map read_back l).
Proof.
  unfold xbel_events, trim_events. rewrite !omap_app, !map_app. cbn [app omap list_omap map read_loop].
  rewrite decide_False, decide_False by done. rewrite read_bookmarks. cbn [read_loop].
  by rewrite decide_False, decide_False by done.
Qed.

Context (xml : ∀ evs, xml_read (xml_write evs) = map Some (trim_events evs)).

Lemma write_xbel_Ok st b l st' :
  write_xbel format_rfc3339 xml_write st (xbel_dir b) l = Ok st' →
  read_recent parse_rfc3339 xml_read st' b = Ok (map read_back l).
Proof.
  unfold write_xbel. destruct (create_dir_all st (xbel_dir b)) as [st1|]; [|done]. cbn [rbind].
  intros H. destruct is_name_lit_toml as (_ & _ & H1 & H2).
  apply write_atomic_Ok in H as ->; [|apply join_names_differ; [done|done|by vm_compute]].
  unfold read_recent, read_recent_from. by rewrite read_insert, xml, read_xbel.
Qed.

End laws.

(** ** Properties *)

(** A path written to an [href] reads back as itself: the four characters
    that are escaped come back, and a percent sign of the path is never taken
    for an escape. *)
Theorem href_round_trip p : href_to_path (path_to_href p) = p.
Proof. apply href_path. Qed.

(** A pin that was saved survives a restart: loading the state directory
    again gives exactly the registry in memory, in which the key jumps to the
    pinned path and every other key to what it did before. *)
Theorem pin_survives_restart toml_read toml_write st b now key p title b' st' :
  (∀ l body, toml_write l = Some body → toml_read body = Some l) →
  keys_ok (items b) →
  pin toml_write st b now key p title = (b', Ok st') →
  load toml_read st' (state_dir b) (xbel_dir b) = Ok b'
  ∧ jump b' key = Some p
  ∧ ∀ k, k ≠ key → jump b' k = jump b k.
Proof.
  intros Htoml Hk [= <- Hs]. apply save_Ok in Hs as (body & Hw & Hr). cbn [pinned set_items state_dir items] in *.
  assert (keys_ok (<[key := mkBookmark key p now title]> (items b))) as Hk' by (by apply keys_ok_insert).
  split_and!.
  - unfold load. rewrite Hr. cbn match. rewrite (Htoml _ _ Hw).
    by rewrite collect_values.
  - unfold jump. cbn [items set_items pinned]. by rewrite lookup_insert_eq.
  - intros k Hne. unfold jump. cbn [items set_items pinned]. by rewrite lookup_insert_ne.
Qed.

(** After a visit, the log read back starts with the visited directory,
    holds it once, keeps the other entries in their order, at most fifty in all;
    and no entry has its title any more, because the reader swallows the event
    that starts one. A log that does not parse counts as empty. *)
Theorem recent_reads_back parse_rfc3339 format_rfc3339 xml_read xml_write st b now p st' :
  (∀ t, parse_rfc3339 (format_rfc3339 t) = Some (t / NANOS)%Z) →
  (∀ evs, xml_read (xml_write evs) = map Some (trim_events evs)) →
  touch_recent parse_rfc3339 format_rfc3339 xml_read xml_write st b now p = Ok st' →
  read_recent parse_rfc3339 xml_read st' b =
  Ok (take RECENT_LIMIT
        (plain p (whole_secs now) None
         :: map read_back (List.filter (λ c, negb (path_eq (b_path c) p))
              (match read_recent parse_rfc3339 xml_read st b with Ok l => l | Err _ => [] end)))).
Proof.
  intros Hfmt Hxml. unfold touch_recent.
  destruct (create_dir_all st (xbel_dir b)) as [st1|] eqn:E; [|done]. cbn [rbind]. intros H.
  apply (write_xbel_Ok _ _ _ _ Hfmt Hxml) in H. rewrite H. f_equal.
  unfold with_recent. rewrite <- firstn_map. cbn [map]. f_equal. f_equal. do 2 f_equal.
  unfold read_recent, read_recent_from. destruct is_name_lit_toml as (_ & _ & Hn & _).
  by rewrite (create_dir_all_read _ _ _ _ Hn E).
Qed.

(** *** Witnesses *)

Definition event_parts (e : event) : Z * text * list (text * text) :=
  match e with
  | EDecl => (0%Z, [], []) | EStart n a => (1%Z, n, a) | EEmpty n a => (2%Z, n, a)
  | EEnd n => (3%Z, n, []) | EText t => (4%Z, t, []) | EOther => (5%Z, [], [])
  end.
Definition event_of_parts (x : Z * text * list (text * text)) : event :=
  match x with
  | (0%Z, _, _) => EDecl | (1%Z, n, a) => EStart n a | (2%Z, n, a) => EEmpty n a
  | (3%Z, n, _) => EEnd n | (4%Z, t, _) => EText t | _ => EOther
  end.
Definition event_codec : codec event :=
  iso_codec (pair_codec (pair_codec num text_codec) (list_codec (pair_codec text_codec text_codec)))
    event_parts event_of_parts ltac:(by intros []).
Definition bookmark_codec : codec Bookmark :=
  iso_codec (pair_codec (pair_codec (pair_codec num text_codec) num) (opt_codec text_codec))
    (λ b, (b_key b, b_path b, b_added_at b, b_title b)) (λ '(k, p, t, n), mkBookmark k p t n)
    ltac:(by intros []).

Definition toml_write_w (l : list Bookmark) : option bytes := Some (ser (list_codec bookmark_codec) l).
Definition toml_read_w : bytes → option (list Bookmark) := read_all (list_codec bookmark_codec).
Definition xml_write_w : list event → bytes := ser (list_codec event_codec).
Definition xml_read_w (b : bytes) : list (option event) :=
  match read_all (list_codec event_codec) b with
  | Some l => map Some (trim_events l)
  | None => [None]
  end.
Definition format_w (t : Z) : text := [(t / NANOS)%Z].
Definition parse_w (s : text) : option Z := head s.

(** An empty home directory, and the registry that lives in it. *)
Definition home_w : store := <[[lit "/"] := NDir]> ∅.
Definition registry_w : Bookmarks := mkBookmarks ∅ (lit "/s") (lit "/x").

Definition pinned_w : Bookmarks * result store errno :=
  pin toml_write_w home_w registry_w 7 98%Z (lit "/tmp") None.

Lemma pin_survives_restart_witness :
  load toml_read_w (ok_or ∅ pinned_w.2) (lit "/s") (lit "/x") = Ok pinned_w.1
  ∧ jump pinned_w.1 98%Z = Some (lit "/tmp").
Proof.
  assert (pinned_w.2 = Ok (ok_or ∅ pinned_w.2)) as H by (apply ok_or_eq; vm_compute; reflexivity).
  destruct (pin_survives_restart toml_read_w toml_write_w home_w registry_w 7 98%Z (lit "/tmp") None
    pinned_w.1 (ok_or ∅ pinned_w.2)
    ltac:(intros l body [= <-]; exact (read_all_ser (list_codec bookmark_codec) l))
    ltac:(intros k b Hk; done) (f_equal (pair pinned_w.1) H)) as (H1 & H2 & _).
  split; [exact H1|exact H2].
Defined.

Definition visit_w (st : store) (secs : Z) (p : text) : result store errno :=
  touch_recent parse_w format_w xml_read_w xml_write_w st registry_w (from_secs secs) p.

Lemma recent_reads_back_witness :
  let st1 := ok_or ∅ (visit_w home_w 5 (lit "/a")) in
  let st2 := ok_or ∅ (visit_w st1 6 (lit "/b")) in
  visit_w st1 6 (lit "/b") = Ok st2
  ∧ read_recent parse_w xml_read_w st2 registry_w
    = Ok [plain (lit "/b") (from_secs 6) None; plain (lit "/a") (from_secs 5) None].
Proof.
  intros st1 st2.
  assert (visit_w st1 6 (lit "/b") = Ok st2) as H by (apply ok_or_eq; vm_compute; reflexivity).
  split; [exact H|].
  etransitivity; [|].
  { apply (recent_reads_back parse_w format_w xml_read_w xml_write_w _ registry_w (from_secs 6) (lit "/b") _
      ltac:(done) ltac:(intros evs; unfold xml_read_w, xml_write_w; by rewrite read_all_ser) H). }
  vm_compute. reflexivity.
Defined.

End Bookmarks.
