(* ===== verification/FileTables.v ===== *)
(** * The file manager's tables

    Three small readers of [crates/sy-filemanager/src/file]: the key bindings
    ([keymap.rs]), the kernel's mount table ([fs/mounts.rs]) and the
    [text/uri-list] bodies of drag and drop ([dnd.rs]). *)

From S2P Require Import Prelude Lists Text Paths Lines Utf8 Store.
Import Lists Text Paths Lines Utf8 Store.
Local Open Scope string_scope.
Local Open Scope nat_scope.
Local Open Scope list_scope.

(** ** Key bindings *)

Module Keymap.

Record Binding : Type := mkBinding { keys : list text; action : text }.
Notation KeymapConfig := (list Binding) (only parsing).

(** [KeymapConfig::defaults]. *)
Definition default_pairs : list (string * string) :=
  [("space", "selection.toggle"); ("shift+arrowdown", "selection.range_extend_down");
   ("shift+arrowup", "selection.range_extend_up"); ("*", "selection.all"); ("a", "selection.invert");
   ("y", "clipboard.stash_copy"); ("x", "clipboard.stash_move"); ("p", "clipboard.paste");
   ("d", "fs.trash"); ("/", "commandbar.open_filter"); (":", "commandbar.open_palette");
   ("escape", "commandbar.close"); ("b", "bookmark.chord_jump"); ("B", "bookmark.chord_pin")].
Definition defaults : KeymapConfig := map (λ ka, mkBinding [lit ka.1] (lit ka.2)) default_pairs.

(** [KeymapConfig::action_for]. *)
Definition action_for (cfg : KeymapConfig) (key : text) : option text :=
  action <$> List.find (λ b, existsb (λ k, bool_decide (k = key)) (keys b)) cfg.

Section parse.
(** [toml::from_str]. *)
Context (toml_keymap : list Z → option KeymapConfig).

(** [KeymapConfig::parse]: no bindings mean the default ones. *)
Definition parse (body : list Z) : result KeymapConfig errno :=
  match toml_keymap body with
  | None => Err EINVAL
  | Some [] => Ok defaults
  | Some cfg => Ok cfg
  end.

(** [KeymapConfig::load]. *)
Definition load (st : store) (p : list Z) : result KeymapConfig errno := rbind (read st p) parse.

(** [reload_keymap], the daemon's answer to a hangup signal: a file that cannot
    be read or parsed leaves the bindings as they are. *)
Definition reload_keymap (st : store) (p : list Z) (cfg : KeymapConfig) : KeymapConfig :=
  match load st p with Ok new_cfg => new_cfg | Err _ => cfg end.

(** A reload never leaves the operator without bindings. *)
Lemma reload_not_empty st p cfg : cfg ≠ [] → reload_keymap st p cfg ≠ [].
Proof.
  intros H. unfold reload_keymap, load, parse. destruct (read st p) as [b|]; [|done].
  cbn [rbind]. by destruct (toml_keymap b) as [[|]|].
Qed.
End parse.

End Keymap.

(** ** The mount table *)

Module Mounts.

Record Mount : Type := mkMount {
  mount_point : list Z;
  source : text;
  fs_type : text;
  options : list text;
  is_removable : bool;
}.

Definition USER_VISIBLE_FS_TYPES : list text :=
  map lit ["ext4"; "ext3"; "ext2"; "btrfs"; "xfs"; "vfat"; "exfat"; "f2fs"; "ntfs"; "ntfs3"; "iso9660";
           "udf"; "fuseblk"; "nfs"; "nfs4"; "cifs"; "sshfs"].

Definition DASH : text := [45%Z].

(** [parse_one]. *)
Definition parse_one (line : text) : option Mount :=
  let toks := split_whitespace line in
  if length toks <? 10 then None
  else
    sep ← position (λ t, bool_decide (t = DASH)) toks;
    if (sep <? 6) || (length toks <? sep + 4) then None
    else
      mp ← toks !! 4; opts ← toks !! 5; ty ← toks !! (sep + 1); src ← toks !! (sep + 2);
      Some (mkMount mp src ty (split_on 44%Z opts) false).

(** [parse_mountinfo]. *)
Definition parse_mountinfo (s : text) : list Mount :=
  omap (λ line, match trim line with [] => None | l => parse_one l end) (lines s).

(** [filter_user_visible]. *)
Definition filter_user_visible (l : list Mount) : list Mount :=
  List.filter (λ m, path_eq (mount_point m) [SLASH]
                    || existsb (λ t, bool_decide (t = fs_type m)) USER_VISIBLE_FS_TYPES) l.

(** A word of the table: not empty, no whitespace. *)
Definition is_word (w : text) : Prop := w ≠ [] ∧ Forall (λ c, is_whitespace c = false) w.

Lemma split_ws_word acc w : Forall (λ c, is_whitespace c = false) w → split_ws acc w = flush (acc ++ w).
Proof.
  intros Hw. revert acc. induction Hw as [|c w Hc Hw IH]; intros acc; cbn [split_ws].
  - by rewrite app_nil_r.
  - rewrite Hc, IH. by rewrite <- app_assoc.
Qed.

Lemma split_ws_join acc w ws :
  acc ++ w ≠ [] → Forall (λ c, is_whitespace c = false) w → Forall is_word ws →
  split_ws acc (w ++ concat (map (cons 32%Z) ws)) = (acc ++ w) :: ws.
Proof.
  intros Hne Hw Hws. revert acc w Hne Hw.
  induction Hws as [|v ws [Hv1 Hv2] Hws IH]; intros acc w Hne Hw; cbn [map concat].
  - rewrite app_nil_r, split_ws_word by done. by destruct (acc ++ w).
  - revert acc Hne. induction Hw as [|c w Hc Hw IHw]; intros acc Hne; cbn [app split_ws].
    + change (is_whitespace 32) with true. cbn match.
      rewrite app_nil_r in *. rewrite (IH [] v) by done. cbn [app]. by destruct acc.
    + rewrite Hc. rewrite IHw; rewrite <- !app_assoc; [done|by destruct acc].
Qed.

(** Words printed with one space between them read back. *)
Lemma split_whitespace_words w ws :
  is_word w → Forall is_word ws → split_whitespace (w ++ concat (map (cons 32%Z) ws)) = w :: ws.
Proof. intros [H1 H2] H. unfold split_whitespace. by rewrite split_ws_join. Qed.

(** One row of the table, as the kernel prints it. *)
Record Row : Type := mkRow {
  ids : text * text * text * text;
  r_mount : text;
  r_opts : text;
  r_tags : list text;
  r_type : text;
  r_source : text;
  r_super : text;
}.
Definition row_words (r : Row) : list text :=
  let '(a, b, c, d) := ids r in
  [b; c; d; r_mount r; r_opts r] ++ r_tags r ++ [DASH; r_type r; r_source r; r_super r].
Definition print_row (r : Row) : text :=
  let '(a, b, c, d) := ids r in a ++ concat (map (cons 32%Z) (row_words r)).
Definition row_ok (r : Row) : Prop :=
  let '(a, b, c, d) := ids r in
  is_word a ∧ Forall is_word (row_words r)
  ∧ Forall (λ w, w ≠ DASH) ([a; b; c; d; r_mount r; r_opts r] ++ r_tags r).

Lemma position_app_l {A} (f : A → bool) l x k :
  Forall (λ y, f y = false) l → f x = true → position f (l ++ x :: k) = Some (length l).
Proof.
  intros Hl Hx. unfold position. rewrite (proj2 (list_find_Some _ _ (length l) x)); [done|].
  split_and!.
  - by rewrite list_lookup_middle.
  - done.
  - intros j y Hj Hlt. rewrite lookup_app_l in Hj by done.
    rewrite (proj1 (Forall_forall _ _) Hl y); [done|]. eapply list_elem_of_lookup_2, Hj.
Qed.

(** Every row the kernel prints is read: the mount point, the options, the
    type and the source are the printed ones, however many optional fields
    stand before the separator. *)
Theorem mount_row_round_trip r :
  row_ok r →
  parse_one (print_row r)
  = Some (mkMount (r_mount r) (r_source r) (r_type r) (split_on 44%Z (r_opts r)) false).
Proof.
  unfold row_ok, print_row, row_words. destruct r as [[[[a b] c] d] mp opts tags ty src sup].
  cbn [ids r_mount r_opts r_tags r_type r_source r_super].
  intros (Ha & Hws & Hd). unfold parse_one. rewrite split_whitespace_words by done.
  cbn [app length]. rewrite length_app. cbn [length].
  rewrite (proj2 (Nat.ltb_ge _ _)) by lia.
  change (a :: b :: c :: d :: mp :: opts :: tags ++ [DASH; ty; src; sup])
    with (([a; b; c; d; mp; opts] ++ tags) ++ [DASH; ty; src; sup]).
  rewrite position_app_l; cycle 1.
  { eapply Forall_impl; [exact Hd|]. intros w Hw. by apply bool_decide_eq_false. }
  { by apply bool_decide_eq_true. }
  cbn [mbind option_bind]. rewrite length_app. cbn [length].
  rewrite (proj2 (Nat.ltb_ge _ _)), (proj2 (Nat.ltb_ge _ _)) by lia. cbn [orb].
  assert (∀ i x, [DASH; ty; src; sup] !! i = Some x →
    (([a; b; c; d; mp; opts] ++ tags) ++ [DASH; ty; src; sup]) !! (length ([a; b; c; d; mp; opts] ++ tags) + i)
    = Some x) as Htail.
  { intros i x Hi. rewrite lookup_app_r by lia. by replace (_ + i - _) with i by lia. }
  rewrite length_app in Htail. cbn [length] in Htail.
  rewrite (Htail 1 ty), (Htail 2 src) by done. done.
Qed.

Definition row_w : Row :=
  mkRow (lit "36", lit "35", lit "98:0", lit "/") (lit "/mnt") (lit "rw,noatime")
    [lit "master:1"; lit "shared:2"] (lit "ext4") (lit "/dev/root") (lit "rw").

Lemma mount_row_round_trip_witness :
  parse_one (print_row row_w)
  = Some (mkMount (lit "/mnt") (lit "/dev/root") (lit "ext4") [lit "rw"; lit "noatime"] false).
Proof.
  rewrite (mount_row_round_trip row_w); [reflexivity|].
  split; [split; [done|by apply (bool_decide_unpack _)]|].
  split; apply (bool_decide_unpack _); vm_compute; exact I.
Defined.

End Mounts.

(** ** Drag and drop *)

Module Dnd.
Local Open Scope Z_scope.

Inductive DragAction : Type := DragCopy | DragMove | DragLink.
Inductive DropAction : Type := DropCopy | DropMove.
Record DragSource : Type := mkDragSource { ds_paths : list (list Z); ds_action : DragAction }.
Record DropTarget : Type := mkDropTarget { dt_paths : list (list Z); dt_action : DropAction }.
Record Modifiers : Type := mkMods { shift : bool; control : bool }.

(** [drop_action_from_modifiers]. *)
Definition drop_action_from_modifiers (m : Modifiers) : DropAction :=
  if control m then DropCopy else if shift m then DropMove else DropCopy.

Definition is_unreserved (b : Z) : bool :=
  in_range b 48 57 || in_range b 65 90 || in_range b 97 122
  || (b =? 45) || (b =? 46) || (b =? 95) || (b =? 126).

Definition upper_hex (n : Z) : char := if n <? 10 then 48 + n else 55 + n.
Definition encode_byte (b : Z) : text :=
  if is_unreserved b || (b =? SLASH) then [b] else [37; upper_hex (b / 16); upper_hex (b mod 16)].
Definition percent_encode_path (p : list Z) : text := concat (map encode_byte (as_bytes p)).

Definition hex_nibble (b : Z) : option Z :=
  if in_range b 48 57 then Some (b - 48)
  else if in_range b 97 102 then Some (10 + (b - 97))
  else if in_range b 65 70 then Some (10 + (b - 65))
  else None.

(** The loop of [percent_decode]. *)
Fixpoint decode_bytes (bs : list Z) : list Z :=
  match bs with
  | [] => []
  | b :: r =>
      match r with
      | h :: l :: rest =>
          if b =? 37 then
            match hex_nibble h, hex_nibble l with
            | Some hi, Some lo => (16 * hi + lo) :: decode_bytes rest
            | _, _ => b :: decode_bytes r
            end
          else b :: decode_bytes r
      | _ => b :: decode_bytes r
      end
  end.
Definition percent_decode (s : text) : text := from_utf8_lossy (decode_bytes (as_bytes s)).

Definition FILE_SCHEME : text := lit "file://".
Definition CRLF : text := [13; 10].

Definition paths_to_uri_list (ps : list (list Z)) : text :=
  concat (map (λ p, FILE_SCHEME ++ percent_encode_path p ++ CRLF) ps).

(** [trim_end_matches('\r')]. *)
Fixpoint drop_cr (s : text) : text :=
  match s with c :: s' => if c =? 13 then drop_cr s' else s | [] => [] end.
Definition trim_end_cr (s : text) : text := reverse (drop_cr (reverse s)).

Definition uri_of_line (line : text) : option (list Z) :=
  let t := trim (trim_end_cr line) in
  match t with
  | [] => None
  | c :: _ => if c =? 35 then None else percent_decode <$> strip_prefix FILE_SCHEME t
  end.
Definition parse_uri_list (body : text) : list (list Z) := omap uri_of_line (split_on 10 body).

(** *** Lemmas *)
Lemma hex_nibble_upper n : 0 <= n < 16 → hex_nibble (upper_hex n) = Some n.
Proof.
  intros Hn. unfold hex_nibble, upper_hex. destruct (n <? 10) eqn:E;
    [apply Z.ltb_lt in E|apply Z.ltb_ge in E].
  - rewrite in_range_true by lia. f_equal. lia.
  - rewrite !in_range_false, in_range_true by lia. f_equal. lia.
Qed.

Lemma decode_encode_byte b r : 0 <= b < 256 → decode_bytes (encode_byte b ++ r) = b :: decode_bytes r.
Proof.
  intros Hb. unfold encode_byte. destruct (_ || _) eqn:E.
  - assert (b ≠ 37) as Hne by (intros ->; done).
    apply Z.eqb_neq in Hne. cbn [app decode_bytes]. destruct r as [|h [|l r]]; [done|done|].
    by rewrite Hne.
  - cbn [app decode_bytes]. change (37 =? 37) with true. cbn match.
    rewrite !hex_nibble_upper.
    + f_equal. pose proof (Z.div_mod b 16 ltac:(lia)). lia.
    + apply Z.mod_pos_bound. lia.
    + split; [apply Z.div_pos; lia|apply Z.div_lt_upper_bound; lia].
Qed.

Lemma decode_encode_bytes bs :
  Forall (λ b, 0 <= b < 256) bs → decode_bytes (concat (map encode_byte bs)) = bs.
Proof.
  induction 1 as [|b bs Hb Hbs IH]; [done|]. cbn [map concat].
  rewrite decode_encode_byte by done. by f_equal.
Qed.

(** What an encoded path is made of: visible ASCII characters. *)
Definition visible (c : char) : Prop := 33 <= c < 127.

Lemma encode_byte_visible b : 0 <= b < 256 → Forall visible (encode_byte b).
Proof.
  intros Hb. unfold encode_byte, visible. destruct (_ || _) eqn:E.
  - apply Forall_singleton. unfold is_unreserved, in_range, SLASH in E.
    repeat rewrite orb_true_iff in E. repeat rewrite andb_true_iff in E.
    repeat rewrite Z.leb_le in E. repeat rewrite Z.eqb_eq in E. lia.
  - assert (∀ n, 0 <= n < 16 → 33 <= upper_hex n < 127) as H.
    { intros n Hn. unfold upper_hex. destruct (n <? 10) eqn:F; [apply Z.ltb_lt in F|]; lia. }
    constructor; [lia|]. constructor; [|apply Forall_singleton].
    + apply H. split; [apply Z.div_pos; lia|apply Z.div_lt_upper_bound; lia].
    + apply H. apply Z.mod_pos_bound. lia.
Qed.

Lemma encode_visible p : Forall is_char p → Forall visible (percent_encode_path p).
Proof.
  intros Hp. unfold percent_encode_path. apply as_bytes_range in Hp.
  induction Hp as [|b bs Hb Hbs IH]; [done|]. cbn [map concat]. apply Forall_app.
  split; [by apply encode_byte_visible|done].
Qed.

Lemma percent_decode_encode p : Forall is_char p → percent_decode (percent_encode_path p) = p.
Proof.
  intros Hp. unfold percent_decode. rewrite as_bytes_ascii.
  2:{ eapply Forall_impl; [by apply encode_visible|]. unfold visible. simpl. lia. }
  unfold percent_encode_path. rewrite decode_encode_bytes by (by apply as_bytes_range).
  by apply from_utf8_as_bytes.
Qed.

Lemma visible_not_ws c : visible c → is_whitespace c = false.
Proof.
  unfold visible, is_whitespace. intros Hc. rewrite !orb_false_iff, !andb_false_iff.
  rewrite !Z.leb_gt, !Z.eqb_neq. lia.
Qed.

Lemma trim_visible s : Forall visible s → trim s = s.
Proof.
  intros Hs. apply trim_no_whitespace. eapply Forall_impl; [done|]. by intros c ?%visible_not_ws.
Qed.

Lemma trim_end_cr_visible s : Forall visible s → trim_end_cr (s ++ [13]) = s.
Proof.
  intros Hs. unfold trim_end_cr. rewrite reverse_app. cbn [reverse app rev_append drop_cr].
  change (reverse [13]) with [13]. cbn [app drop_cr]. change (13 =? 13) with true. cbn match.
  assert (drop_cr (reverse s) = reverse s) as ->.
  { assert (Forall visible (reverse s)) as Hr by (by apply Forall_reverse).
    destruct Hr as [|c l Hc Hl]; [done|]. cbn [drop_cr]. unfold visible in Hc.
    by rewrite (proj2 (Z.eqb_neq _ _)) by lia. }
  apply reverse_involutive.
Qed.

Lemma uri_line p : Forall is_char p → uri_of_line (FILE_SCHEME ++ percent_encode_path p ++ [13]) = Some p.
Proof.
  intros Hp. unfold uri_of_line. pose proof (encode_visible p Hp) as Hv.
  assert (Forall visible (FILE_SCHEME ++ percent_encode_path p)) as Hl.
  { apply Forall_app. split; [|done]. apply (bool_decide_unpack _). by vm_compute. }
  rewrite app_assoc, trim_end_cr_visible, trim_visible by done.
  change (FILE_SCHEME ++ percent_encode_path p) with
    (102 :: ([105; 108; 101; 58; 47; 47] ++ percent_encode_path p)).
  cbn match. change (102 =? 35) with false. cbn match.
  change (102 :: ([105; 108; 101; 58; 47; 47] ++ percent_encode_path p)) with
    (FILE_SCHEME ++ percent_encode_path p).
  rewrite strip_prefix_app. simpl. by rewrite percent_decode_encode.
Qed.

(** The offered list of files reads back as the dragged paths, whatever
    characters they hold: spaces, percent signs, line breaks or non-ASCII text. *)
Theorem uri_list_round_trip ps :
  Forall (Forall is_char) ps → parse_uri_list (paths_to_uri_list ps) = ps.
Proof.
  unfold parse_uri_list, paths_to_uri_list, split_on.
  induction 1 as [|p ps Hp Hps IH]; [done|]. cbn [map concat].
  replace (FILE_SCHEME ++ percent_encode_path p ++ CRLF) with
    ((FILE_SCHEME ++ percent_encode_path p ++ [13]) ++ [10]) by (by rewrite <- !app_assoc).
  rewrite <- app_assoc. cbn [app]. rewrite split_acc_app, split_acc_no_sep.
  - cbn [app omap list_omap]. by rewrite uri_line, IH.
  - rewrite !elem_of_app. pose proof (encode_visible p Hp) as Hv. rewrite Forall_forall in Hv.
    intros [H|[H|H]].
    + revert H. apply (bool_decide_unpack _). by vm_compute.
    + apply Hv in H. unfold visible in H. lia.
    + apply list_elem_of_singleton in H. lia.
Qed.

Lemma uri_list_round_trip_witness :
  parse_uri_list (paths_to_uri_list [lit "/a b/100%"; [47; 233; 10; 128512]])
  = [lit "/a b/100%"; [47; 233; 10; 128512]].
Proof.
  apply uri_list_round_trip. constructor; [|constructor; [|constructor]];
    apply (bool_decide_unpack _); vm_compute; exact I.
Defined.

End Dnd.
