(* ===== verification/FileCopy.v ===== *)
(** * Copying files

    [crates/sy-filemanager/src/file/fs/copy.rs] on the file store: where a
    source lands under a conflict policy, the two copy loops with their progress
    cadence, what a cancelled or failed copy leaves behind, and the sequential
    executor over a batch. The consumer of the event stream enters as the number
    of events it still takes before it drops the stream; the kernel as what each
    call answers; the clock as one reading per turn. *)

From S2P Require Import Prelude Lists Text Paths Store FileState.
Import Lists Text Paths Store.
Import Ops.
Local Open Scope string_scope.
Local Open Scope nat_scope.
Local Open Scope list_scope.

Module Copy.

(** ** Constants and the event stream *)

Definition PROGRESS_INTERVAL_MS : Z := 100.
Definition PROGRESS_BYTES_TICK : Z := 4 * 1024 * 1024.
Definition STREAM_CHUNK_BYTES : Z := 256 * 1024.
Definition IOURING_FILE_THRESHOLD : nat := 100.
Definition IOURING_BYTE_THRESHOLD : Z := 256 * 1024 * 1024.
Definition U32_MAX : Z := U32_MOD - 1.
Definition U64_MAX : Z := U64_MOD - 1.

(** The sending half: how many events are still taken, and those taken. *)
Record Tx : Type := mkTx { accepts : nat; sent : list OpEvent }.

(** [tx.send(ev)]: fails when the receiver is gone. *)
Definition send (tx : Tx) (ev : OpEvent) : bool * Tx :=
  match accepts tx with
  | 0 => (false, tx)
  | S n => (true, mkTx n (sent tx ++ [ev]))
  end.
(** [let _ = tx.send(ev)]. *)
Definition send_ (tx : Tx) (ev : OpEvent) : Tx := (send tx ev).2.

(** [u64::saturating_add] and [u64::saturating_sub]. *)
Definition saturating_add64 (a b : Z) : Z := Z.min U64_MAX (a + b).
Definition saturating_sub64 (a b : Z) : Z := Z.max 0 (a - b).

(** [should_emit_progress], with the clock read. *)
Definition should_emit_progress (now last_at : Instant) (last_bytes done : Z) : bool * Instant * Z :=
  let elapsed_ms := (saturating_since now last_at / 1000000)%Z in
  let bytes_since := saturating_sub64 done last_bytes in
  if (PROGRESS_INTERVAL_MS <=? elapsed_ms)%Z || (PROGRESS_BYTES_TICK <=? bytes_since)%Z
  then (true, now, done) else (false, last_at, last_bytes).

(** [throughput], in bytes per second. *)
Definition throughput (done : Z) (now start : Instant) : Z :=
  let micros := (saturating_since now start / 1000)%Z in
  if (micros =? 0)%Z then 0 else Z.min U64_MAX (done * 1000000 / micros).

Inductive Strategy : Type := Reflink | Stream.
Definition decide_strategy (same_mount : bool) : Strategy := if same_mount then Reflink else Stream.

(** How one copy ended. *)
Inductive CopyDone : Type := CCompleted | CCancelled.
Notation copy_result := (result CopyDone errno).

(** ** Where a source lands *)

(** The name of the [n]-th candidate of [rename_with_suffix]. *)
Definition suffixed (stem : text) (ext : option text) (n : Z) : text :=
  stem ++ [32; 40]%Z ++ show_nat n ++ [41]%Z
  ++ match ext with Some e => DOT :: e | None => [] end.

Definition candidate (base : path) (n : Z) : path :=
  join (default [] (parent base)) (suffixed (default [] (file_stem base)) (extension base) n).

(** The number of candidates tried: [1 .. u32::MAX]. *)
Definition RENAME_TRIES : positive := 4294967294.

(** [rename_with_suffix]. *)
Definition rename_with_suffix (st : store) (base : path) : path :=
  default base
    (first_in (λ n, if exists_ st (candidate base n) then None else Some (candidate base n)) RENAME_TRIES 1).

(** [resolve_dst]. *)
Definition resolve_dst (st : store) (dst_dir src : path) (conflict : ConflictPolicy) : option path * store :=
  match file_name src with
  | None => (None, st)
  | Some name =>
      let base := join dst_dir name in
      if negb (exists_ st base) then (Some base, st)
      else match conflict with
           | Skip => (None, st)
           | Overwrite => (Some base, remove_file_ st base)
           | Rename => (Some (rename_with_suffix st base), st)
           end
  end.

(** ** The copy loops *)

(** What a turn meets: a failed call, or a count of bytes. A kernel copies at
    least one byte, and no more than were asked for or are left; none at the
    end of the file. *)
Inductive Answer : Type := AErr (e : errno) | ACount (n : Z).
Definition clip (chunk n : Z) (left : nat) : nat :=
  Z.to_nat (Z.min (Z.of_nat left) (Z.min chunk (Z.max 1 n))).

Inductive LoopEnd : Type := LErr (e : errno) (done : Z) | LDone | LCancelled.

Section loop.
Context (answer : nat → Answer) (clock : nat → Instant).
Context (chunk op_id total : Z) (start : Instant) (dst : path).

(** The loop of [copy_file_range_loop], [stream_blocking] and
    [copy_one_stream]; [rest] is what has not been copied. *)
Fixpoint copy_loop (fuel : nat) (rest : bytes) (i : nat) (done : Z) (last_at : Instant) (last_bytes : Z)
    (st : store) (tx : Tx) : option (LoopEnd * store * Tx) :=
  match fuel with
  | 0 => None
  | S fuel =>
      match answer i with
      | AErr e => Some (LErr e done, st, tx)
      | ACount n =>
          let n := clip chunk n (length rest) in
          match n with
          | 0 => Some (LDone, st, send_ tx (Progress op_id done total (throughput done (clock i) start)))
          | _ =>
              let st := append st dst (take n rest) in
              let done := saturating_add64 done (Z.of_nat n) in
              let '(emit, last_at, last_bytes) := should_emit_progress (clock i) last_at last_bytes done in
              let '(ok, tx) := if emit then send tx (Progress op_id done total (throughput done (clock i) start))
                               else (true, tx) in
              if ok then copy_loop fuel (drop n rest) (S i) done last_at last_bytes st tx
              else Some (LCancelled, st, tx)
          end
      end
  end.
End loop.

Section copy.
(** The answers of [copy_file_range] and of [read]/[write], by source and turn,
    the clock, the mount id of a path ([statx]; none when the kernel does not
    say) and its device. *)
Context (kernel reads : path → nat → Answer) (clock : nat → Instant).
Context (statx_mnt_id : path → result (option Z) errno) (dev_id : path → result Z errno).

(** [same_mount]. *)
Definition same_mount (a b : path) : result bool errno :=
  match statx_mnt_id a, statx_mnt_id b with
  | Err e, _ => Err e
  | Ok _, Err e => Err e
  | Ok (Some ma), Ok (Some mb) => Ok (ma =? mb)%Z
  | Ok _, Ok _ => rbind (dev_id a) (λ da, rbind (dev_id b) (λ db, Ok (da =? db)%Z))
  end.

(** Both files opened, then the loop; a directory opens but does not read. *)
Definition open_and_loop (answer : nat → Answer) (chunk : Z) (st : store) (src dst : path)
    (op_id total : Z) (tx : Tx) : option (LoopEnd * store * Tx) :=
  match find st src with
  | None => Some (LErr ENOENT 0, st, tx)
  | Some _ =>
      match open_truncate st dst with
      | Err e => Some (LErr e 0, st, tx)
      | Ok st =>
          match find st src with
          | Some (NFile content) =>
              copy_loop answer clock chunk op_id total (clock 0) dst (S (length content)) content 0 0
                (clock 0) 0 st tx
          | _ => Some (LErr EISDIR 0, st, tx)
          end
      end
  end.

Definition finish (x : LoopEnd * store * Tx) : copy_result * store * Tx :=
  let '(e, st, tx) := x in
  (match e with LErr e _ => Err e | LDone => Ok CCompleted | LCancelled => Ok CCancelled end, st, tx).

(** [stream_blocking] and [copy_one_stream]. *)
Definition copy_one_stream (st : store) (src dst : path) (op_id total : Z) (tx : Tx)
    : option (copy_result * store * Tx) :=
  finish <$> open_and_loop (reads src) STREAM_CHUNK_BYTES st src dst op_id total tx.

Definition falls_back (e : errno) : bool := ((e =? EXDEV) || (e =? EINVAL) || (e =? ENOTSUP))%Z.

(** [copy_file_range_loop] (and [copy_one_reflink], which runs it on a thread);
    a failed open never has one of the numbers that fall back. *)
Definition copy_one_reflink (st : store) (src dst : path) (op_id total : Z) (tx : Tx)
    : option (copy_result * store * Tx) :=
  x ← open_and_loop (kernel src) PROGRESS_BYTES_TICK st src dst op_id total tx;
  match x with
  | (LErr e done, st', tx') =>
      if falls_back e && (done =? 0)%Z then copy_one_stream st' src dst op_id total tx'
      else Some (finish x)
  | _ => Some (finish x)
  end.

(** What follows a copy: the closing event; the destination unlinked unless it is
    complete. *)
Definition conclude (op_id : Z) (dst : path) (out : copy_result) (st : store) (tx : Tx)
    : copy_result * store * Tx :=
  match out with
  | Ok CCompleted => (out, st, send_ tx (Completed op_id))
  | Ok CCancelled => (out, remove_file_ st dst, tx)
  | Err e => (out, remove_file_ st dst, send_ tx (Failed op_id e))
  end.

(** [copy_one_sequential]. *)
Definition copy_one_sequential (st : store) (op_id : Z) (src dst : path) (tx : Tx)
    : option (copy_result * store * Tx) :=
  let same := match same_mount src (default [SLASH] (parent dst)) with Ok b => b | Err _ => true end in
  let total := match file_len st src with Ok n => n | Err _ => 0%Z end in
  '(out, st, tx) ← match decide_strategy same with
                   | Reflink => copy_one_reflink st src dst op_id total tx
                   | Stream => copy_one_stream st src dst op_id total tx
                   end;
  Some (conclude op_id dst out st tx).

(** One source of the batch; [false] when the consumer is gone. *)
Definition copy_source (st : store) (op_id : Z) (src dst_dir : path) (conflict : ConflictPolicy) (tx : Tx)
    : option (bool * store * Tx) :=
  let '(ok, tx) := send tx (Started op_id) in
  if negb ok then Some (false, st, tx)
  else
    match resolve_dst st dst_dir src conflict with
    | (Some dst, st) => '(_, st, tx) ← copy_one_sequential st op_id src dst tx; Some (true, st, tx)
    | (None, st) => Some (true, st, send_ (send_ tx (Progress op_id 0 0 0)) (Completed op_id))
    end.

(** The sequential executor of [copy], for a batch io_uring does not take; [next]
    is the next operation id. *)
Fixpoint copy (st : store) (next : Z) (srcs : list path) (dst_dir : path) (conflict : ConflictPolicy)
    (tx : Tx) : option (store * Tx) :=
  match srcs with
  | [] => Some (st, tx)
  | src :: srcs =>
      '(go, st, tx) ← copy_source st next src dst_dir conflict tx;
      if (go : bool) then copy st (wrapping_add64 next 1) srcs dst_dir conflict tx else Some (st, tx)
  end.

(** [sum_src_bytes] and [batch_qualifies_for_iouring]. *)
Definition sum_src_bytes (st : store) (srcs : list path) : Z :=
  foldr (λ p acc, (match file_len st p with Ok n => n | Err _ => 0 end + acc)%Z) 0%Z srcs.
Definition batch_qualifies_for_iouring (srcs : list path) (total : Z) : bool :=
  (IOURING_FILE_THRESHOLD <? length srcs) || (IOURING_BYTE_THRESHOLD <? total)%Z.

(** [copy_one_iouring]: the loop of [iouring_read_write] ends well also when the
    consumer is gone, so a cancelled copy counts as completed. *)
Definition copy_one_iouring (st : store) (op_id : Z) (src dst : path) (tx : Tx)
    : option (copy_result * store * Tx) :=
  let total := match file_len st src with Ok n => n | Err _ => 0%Z end in
  '(e, st, tx) ← open_and_loop (reads src) STREAM_CHUNK_BYTES st src dst op_id total tx;
  Some (match e with
        | LErr e _ => (Err e, remove_file_ st dst, send_ tx (Failed op_id e))
        | _ => (Ok CCompleted, st, send_ tx (Completed op_id))
        end).

End copy.
(** ** Lemmas *)

(** Two stores agree outside one key. *)
Definition same_but (k0 : list text) (st st' : store) : Prop := ∀ k, k ≠ k0 → st' !! k = st !! k.

Lemma same_but_refl k0 st : same_but k0 st st.
Proof. done. Qed.
Lemma same_but_trans k0 a b c : same_but k0 a b → same_but k0 b c → same_but k0 a c.
Proof. intros H1 H2 k Hk. by rewrite H2, H1. Qed.
Lemma same_but_append st p b : same_but (components p) st (append st p b).
Proof. intros k Hk. by apply append_lookup_ne. Qed.
Lemma same_but_remove st p : same_but (components p) st (remove_file_ st p).
Proof. intros k Hk. by apply remove_file_lookup_ne. Qed.
Lemma same_but_open st p st' : open_truncate st p = Ok st' → same_but (components p) st st'.
Proof. intros ->%open_truncate_Ok k Hk. by apply lookup_insert_ne. Qed.
#[local] Hint Resolve same_but_refl same_but_append same_but_remove same_but_open : sy.

Lemma clip_spec chunk n left : (0 < chunk)%Z → clip chunk n left ≤ left ∧ (clip chunk n left = 0 ↔ left = 0).
Proof. intros Hc. unfold clip. lia. Qed.

(** A loop with a turn for each byte ends; it only touches its destination,
    which holds a prefix of the source, the whole of it when the loop is done. *)
Lemma copy_loop_spec answer clock chunk op_id total start dst fuel rest i done la lb st tx c :
  (0 < chunk)%Z → length rest < fuel → st !! components dst = Some (NFile c) →
  ∃ e st' tx' k,
    copy_loop answer clock chunk op_id total start dst fuel rest i done la lb st tx = Some (e, st', tx')
    ∧ same_but (components dst) st st'
    ∧ st' !! components dst = Some (NFile (c ++ take k rest))
    ∧ (e = LDone → k = length rest).
Proof.
  intros Hchunk. revert rest i done la lb st tx c.
  induction fuel as [|fuel IH]; intros rest i done la lb st tx c Hf Hc; [lia|]. cbn [copy_loop].
  destruct (answer i) as [e|n].
  { exists (LErr e done), st, tx, 0. rewrite take_0, app_nil_r. split_and!; auto with sy. done. }
  destruct (clip_spec chunk n (length rest) Hchunk) as [Hle Hz].
  destruct (clip chunk n (length rest)) as [|m] eqn:Em.
  { exists LDone, st, (send_ tx (Progress op_id done total (throughput done (clock i) start))), 0.
    assert (rest = []) as -> by (apply length_zero_iff_nil; lia).
    rewrite app_nil_r. split_and!; auto with sy. }
  set (st1 := append st dst (take (S m) rest)).
  assert (st1 !! components dst = Some (NFile (c ++ take (S m) rest))) as Hc1.
  { unfold st1. rewrite (append_eq _ _ _ _ Hc). apply lookup_insert_eq. }
  destruct (should_emit_progress _ _ _ _) as [[emit la'] lb'].
  destruct (if emit then _ else _) as [ok tx1] eqn:Etx. destruct ok.
  - destruct (IH (drop (S m) rest) (S i) (saturating_add64 done (Z.of_nat (S m))) la' lb' st1 tx1 _
      ltac:(rewrite length_drop; lia) Hc1) as (e & st' & tx' & k & -> & Hsame & Hk & He).
    exists e, st', tx', (S m + k). split_and!; [done| | |].
    + eapply same_but_trans; [|exact Hsame]. apply same_but_append.
    + rewrite Hk. f_equal. f_equal. rewrite <- app_assoc. f_equal.
      rewrite <- (take_drop (S m) (take (S m + k) rest)). rewrite take_take, skipn_firstn_comm.
      f_equal; [f_equal; lia|]. f_equal. lia.
    + intros ->. specialize (He eq_refl). rewrite length_drop in He. lia.
  - exists LCancelled, st1, tx1, (S m). split_and!; [done|apply same_but_append|done|done].
Qed.

Section laws.
Context (kernel reads : path → nat → Answer) (clock : nat → Instant).
Context (statx_mnt_id : path → result (option Z) errno) (dev_id : path → result Z errno).

Notation sequential := (copy_one_sequential kernel reads clock statx_mnt_id dev_id).
Notation copy_all := (copy kernel reads clock statx_mnt_id dev_id).

Lemma open_and_loop_spec answer chunk st src dst op_id total tx :
  (0 < chunk)%Z →
  ∃ e st' tx', open_and_loop clock answer chunk st src dst op_id total tx = Some (e, st', tx')
    ∧ same_but (components dst) st st'
    ∧ (st' !! components dst = st !! components dst ∨ ∃ c, st' !! components dst = Some (NFile c))
    ∧ (e = LDone → components src ≠ components dst →
       ∃ c, st !! components src = Some (NFile c) ∧ st' !! components dst = Some (NFile c)).
Proof.
  intros Hchunk. unfold open_and_loop. destruct (find st src) as [nd|] eqn:Es.
  2:{ exists (LErr ENOENT 0), st, tx. split_and!; auto with sy. done. }
  destruct (open_truncate st dst) as [st1|e] eqn:Eo.
  2:{ exists (LErr e 0), st, tx. split_and!; auto with sy. done. }
  pose proof (same_but_open _ _ _ Eo) as Hs1. apply open_truncate_Ok in Eo as Est1.
  assert (st1 !! components dst = Some (NFile [])) as Hd by (subst st1; apply lookup_insert_eq).
  destruct (find st1 src) as [[|content]|] eqn:Es1.
  - exists (LErr EISDIR 0), st1, tx. split_and!; eauto. done.
  - destruct (copy_loop_spec answer clock chunk op_id total (clock 0) dst (S (length content)) content 0 0
      (clock 0) 0 st1 tx [] Hchunk ltac:(lia) Hd) as (e & st' & tx' & k & -> & Hsame & Hk & He).
    exists e, st', tx'. split_and!; [done|by eapply same_but_trans|eauto|].
    intros -> Hne. exists content. rewrite Hk, (He eq_refl), firstn_all. split; [|done].
    unfold find in Es1. by rewrite Hs1 in Es1.
  - exists (LErr EISDIR 0), st1, tx. split_and!; eauto. done.
Qed.

(** What a copy does, whichever way it goes. *)
Definition copied (st : store) (src dst : path) (out : copy_result) (st' : store) : Prop :=
  same_but (components dst) st st'
  ∧ (st' !! components dst = st !! components dst ∨ ∃ c, st' !! components dst = Some (NFile c))
  ∧ (out = Ok CCompleted → components src ≠ components dst →
     ∃ c, st !! components src = Some (NFile c) ∧ st' !! components dst = Some (NFile c)).

Lemma copy_one_stream_spec st src dst op_id total tx :
  ∃ out st' tx', copy_one_stream reads clock st src dst op_id total tx = Some (out, st', tx')
    ∧ copied st src dst out st'.
Proof.
  unfold copy_one_stream.
  destruct (open_and_loop_spec (reads src) STREAM_CHUNK_BYTES st src dst op_id total tx ltac:(done))
    as (e & st' & tx' & -> & H1 & H2 & H3).
  eexists _, st', tx'. split; [reflexivity|]. split_and!; [done|done|].
  destruct e; [done| |done]. intros _. by apply H3.
Qed.

Lemma copy_one_reflink_spec st src dst op_id total tx :
  ∃ out st' tx', copy_one_reflink kernel reads clock st src dst op_id total tx = Some (out, st', tx')
    ∧ copied st src dst out st'.
Proof.
  unfold copy_one_reflink.
  destruct (open_and_loop_spec (kernel src) PROGRESS_BYTES_TICK st src dst op_id total tx ltac:(done))
    as (e & st1 & tx1 & -> & H1 & H2 & H3). cbn [mbind option_bind].
  destruct e as [e d| |].
  - destruct (_ && _).
    + destruct (copy_one_stream_spec st1 src dst op_id total tx1) as (out & st' & tx' & -> & G1 & G2 & G3).
      eexists out, st', tx'. split; [done|]. split_and!; [by eapply same_but_trans| |].
      * destruct G2 as [->|?]; [done|by right].
      * intros Ho Hne. destruct (G3 Ho Hne) as (c & Hc & Hd). exists c.
        by rewrite <- (H1 (components src)).
    + eexists _, st1, tx1. split; [reflexivity|]. by split_and!.
  - eexists _, st1, tx1. split; [reflexivity|]. split_and!; [done|done|]. intros _. by apply H3.
  - eexists _, st1, tx1. split; [reflexivity|]. by split_and!.
Qed.

(** What is true of the copy of one source once it has been tidied up. *)
Definition settled (st : store) (src dst : path) (out : copy_result) (st' : store) : Prop :=
  same_but (components dst) st st'
  ∧ (out = Ok CCompleted → components src ≠ components dst →
     ∃ c, st !! components src = Some (NFile c) ∧ st' !! components dst = Some (NFile c))
  ∧ (out ≠ Ok CCompleted → st !! components dst ≠ Some NDir → st' !! components dst = None).

Lemma copied_settled st src dst out st1 op_id tx1 :
  copied st src dst out st1 →
  ∃ st' tx', conclude op_id dst out st1 tx1 = (out, st', tx') ∧ settled st src dst out st'.
Proof.
  intros (H1 & H2 & H3).
  assert (st !! components dst ≠ Some NDir → st1 !! components dst ≠ Some NDir) as Hnd.
  { destruct H2 as [->|[c ->]]; congruence. }
  assert (∀ o : copy_result, o ≠ Ok CCompleted → settled st src dst o (remove_file_ st1 dst)) as Hrm.
  { intros o Ho. split_and!; [|done|].
    - eapply same_but_trans; [exact H1|]. auto with sy.
    - intros _ Hd. by apply remove_file_not_dir, Hnd. }
  destruct out as [[|]|e]; eexists _, _; (split; [reflexivity|]); [|by apply Hrm..].
  by split_and!.
Qed.

(** The copy of one source: it always ends; nothing but the destination
    changes; completed, the destination holds the source; otherwise nothing is
    left of it. *)
Lemma sequential_spec st op_id src dst tx :
  ∃ out st' tx', sequential st op_id src dst tx = Some (out, st', tx') ∧ settled st src dst out st'.
Proof.
  unfold copy_one_sequential. cbv zeta. destruct (decide_strategy _).
  - destruct (copy_one_reflink_spec st src dst op_id
      (match file_len st src with Ok n => n | Err _ => 0%Z end) tx) as (out & st1 & tx1 & -> & H).
    destruct (copied_settled _ _ _ _ _ op_id tx1 H) as (st' & tx' & E & Hs).
    cbn [mbind option_bind]. rewrite E. eauto 10.
  - destruct (copy_one_stream_spec st src dst op_id
      (match file_len st src with Ok n => n | Err _ => 0%Z end) tx) as (out & st1 & tx1 & -> & H).
    destruct (copied_settled _ _ _ _ _ op_id tx1 H) as (st' & tx' & E & Hs).
    cbn [mbind option_bind]. rewrite E. eauto 10.
Qed.

End laws.

(** ** Fresh names *)
Lemma suffixed_inj stem ext m n :
  (0 <= m < 10 ^ 20)%Z → (0 <= n < 10 ^ 20)%Z → suffixed stem ext m = suffixed stem ext n → m = n.
Proof.
  unfold suffixed. intros Hm Hn E. apply app_inv_head in E. apply app_inv_head in E.
  apply app_inv_tail in E. by apply show_nat_inj.
Qed.

Lemma suffixed_is_name name n : is_name name → is_name (suffixed (stem_of name) (ext_of name) n).
Proof.
  intros (Hs & _). unfold suffixed. split_and!.
  - rewrite !not_elem_of_app. split_and!.
    + intros H%stem_of_elem. done.
    + apply (bool_decide_unpack _). by vm_compute.
    + apply show_nat_no_slash.
    + apply (bool_decide_unpack _). by vm_compute.
    + destruct (ext_of name) as [e|] eqn:E; [|apply not_elem_of_nil].
      rewrite not_elem_of_cons. split; [done|]. intros H. by apply (ext_of_elem SLASH name e) in H.
  - by destruct (stem_of name).
  - destruct (stem_of name) as [|x [|y l]]; cbn [app]; congruence.
  - destruct (stem_of name) as [|x [|y [|z l]]]; cbn [app]; congruence.
Qed.

Definition base_dir (base : path) : list text := components (default [] (parent base)).

Lemma components_candidate base name n :
  file_name base = Some name → is_name name →
  components (candidate base n) = base_dir base ++ [suffixed (stem_of name) (ext_of name) n].
Proof.
  intros Hb Hn. unfold candidate, file_stem, extension, base_dir. rewrite Hb.
  cbn [fmap option_fmap option_map mbind option_bind default].
  by apply components_join, suffixed_is_name.
Qed.

(** The keys of the first [p] candidates are different, so that a store with
    fewer entries lacks one of them. *)
Lemma some_candidate_free st base name p :
  file_name base = Some name → is_name name →
  (Z.of_nat (size st) < Zpos p)%Z → (Zpos p < 10 ^ 20)%Z →
  ¬ ∀ j, (1 <= j < 1 + Zpos p)%Z → exists_ st (candidate base j) = true.
Proof.
  intros Hb Hn Hsz Hp Hall.
  set (l := map (λ n, base_dir base ++ [suffixed (stem_of name) (ext_of name) n]) (seqZ 1 (Zpos p))).
  assert (NoDup l) as Hnd.
  { unfold l. apply NoDup_fmap_2_strong; [|apply NoDup_seqZ].
    intros x y Hx%elem_of_seqZ Hy%elem_of_seqZ Exy. apply app_inj_tail in Exy as [_ Exy].
    apply suffixed_inj in Exy; [done|..]; lia. }
  assert (Z.of_nat (length l) = Zpos p) as Hlen by (unfold l; rewrite length_map, length_seqZ; lia).
  assert ((list_to_set l : gset (list text)) ⊆ dom st) as Hsub.
  { intros k. rewrite elem_of_list_to_set. unfold l. rewrite list_elem_of_In, in_map_iff.
    intros (i & <- & Hi). apply list_elem_of_In, elem_of_seqZ in Hi. apply elem_of_dom.
    specialize (Hall i ltac:(lia)). apply exists_spec in Hall.
    by rewrite (components_candidate base name) in Hall. }
  apply subseteq_size in Hsub. rewrite size_list_to_set, size_dom in Hsub by done. lia.
Qed.

(** A free candidate is found as long as the store holds fewer entries than
    there are candidates. *)
Lemma rename_with_suffix_fresh st base name :
  file_name base = Some name → is_name name → (Z.of_nat (size st) < Zpos RENAME_TRIES)%Z →
  st !! components (rename_with_suffix st base) = None.
Proof.
  intros Hb Hn Hsz. unfold rename_with_suffix.
  destruct (first_in _ _ _) as [p|] eqn:E.
  - apply first_in_Some in E as (i & _ & Hi & _). cbn [default].
    destruct (exists_ st (candidate base i)) eqn:Ex; [done|]. simplify_eq. by apply exists_false.
  - destruct (some_candidate_free st base name RENAME_TRIES Hb Hn Hsz ltac:(done)).
    intros j Hj. pose proof (first_in_None _ _ _ E j Hj) as Hf. cbv beta in Hf.
    by destruct (exists_ st (candidate base j)).
Qed.

Lemma same_but_size k0 st st' : same_but k0 st st' → size st' ≤ size st + 1.
Proof.
  intros H. rewrite <- !size_dom.
  assert (dom st' ⊆ {[k0]} ∪ dom st) as Hs.
  { intros k Hk. apply elem_of_union. destruct (decide (k = k0)) as [->|Hne]; [left; set_solver|].
    right. apply elem_of_dom. rewrite <- (H k Hne). by apply elem_of_dom. }
  apply subseteq_size in Hs. pose proof (size_union_alt {[k0]} (dom st)) as Hu.
  rewrite size_singleton in Hu. pose proof (subseteq_size (dom st ∖ {[k0]}) (dom st) ltac:(set_solver)). lia.
Qed.

(** Where a source lands unless it overwrites: nowhere, or where nothing is. *)
Lemma resolve_dst_fresh st dst_dir src conflict :
  conflict ≠ Overwrite → (Z.of_nat (size st) < Zpos RENAME_TRIES)%Z →
  ∃ o, resolve_dst st dst_dir src conflict = (o, st) ∧ ∀ dst, o = Some dst → st !! components dst = None.
Proof.
  intros Hc Hsz. unfold resolve_dst. destruct (file_name src) as [name|] eqn:En; [|by eexists].
  destruct (exists_ st (join dst_dir name)) eqn:Ex; cbn [negb].
  - destruct conflict; [by eexists|done|]. eexists. split; [done|]. intros dst [= <-].
    apply file_name_is_name in En. eapply rename_with_suffix_fresh; [|done|done].
    by apply file_name_join.
  - eexists. split; [done|]. intros dst [= <-]. by apply exists_false.
Qed.

(** ** Properties *)

Section properties.
Context (kernel reads : path → nat → Answer) (clock : nat → Instant).
Context (statx_mnt_id : path → result (option Z) errno) (dev_id : path → result Z errno).

Notation sequential := (copy_one_sequential kernel reads clock statx_mnt_id dev_id).
Notation copy_one := (copy_source kernel reads clock statx_mnt_id dev_id).
Notation copy_all := (copy kernel reads clock statx_mnt_id dev_id).

(** What a store keeps of another. *)
Definition keeps (st st' : store) : Prop := ∀ k n, st !! k = Some n → st' !! k = Some n.

Lemma keeps_fresh k0 st st' : st !! k0 = None → same_but k0 st st' → keeps st st'.
Proof. intros H0 H k n Hk. rewrite H; [done|]. by intros ->; congruence. Qed.

Lemma copy_source_keeps st op_id src dst_dir conflict tx :
  conflict ≠ Overwrite → (Z.of_nat (size st) < Zpos RENAME_TRIES)%Z →
  ∃ go st' tx', copy_one st op_id src dst_dir conflict tx = Some (go, st', tx')
    ∧ keeps st st' ∧ size st' ≤ size st + 1.
Proof.
  intros Hc Hsz. unfold copy_source. destruct (send tx (Started op_id)) as [[|] tx1]; cbn [negb].
  2:{ eexists _, st, tx1. split_and!; [done|by intros ?|lia]. }
  destruct (resolve_dst_fresh st dst_dir src conflict Hc Hsz) as (o & -> & Hfresh).
  destruct o as [dst|].
  - destruct (sequential_spec kernel reads clock statx_mnt_id dev_id st op_id src dst tx1)
      as (out & st' & tx' & -> & Hs & _ & _). cbn [mbind option_bind].
    eexists _, st', tx'. split; [done|]. split; [|by eapply same_but_size].
    eapply keeps_fresh; [by apply Hfresh|done].
  - eexists _, st, _. split_and!; [done|by intros ?|lia].
Qed.

Lemma copy_keeps st next srcs dst_dir conflict tx :
  conflict ≠ Overwrite →
  (Z.of_nat (size st + length srcs) < Zpos RENAME_TRIES)%Z →
  ∃ st' tx', copy_all st next srcs dst_dir conflict tx = Some (st', tx') ∧ keeps st st'.
Proof.
  intros Hc. revert st next tx. induction srcs as [|src srcs IH]; intros st next tx Hsz; cbn [copy].
  { eexists _, _. split; [done|]. by intros ?. }
  cbn [length] in Hsz.
  destruct (copy_source_keeps st next src dst_dir conflict tx Hc ltac:(lia)) as ([|] & st1 & tx1 & -> & Hk & Hs);
    cbn [mbind option_bind]; [|by eexists _, _].
  destruct (IH st1 (wrapping_add64 next 1) tx1 ltac:(lia)) as (st' & tx' & -> & H).
  eexists _, _. split; [done|]. intros k n Hn. by apply H, Hk.
Qed.



(** Overwriting a file with itself destroys it: the destination is unlinked
    before the source is opened, so the copy fails and the file is gone. *)
Theorem overwrite_onto_itself st next src dir name c tx :
  file_name src = Some name →
  components (join dir name) = components src →
  st !! components src = Some (NFile c) →
  2 ≤ accepts tx →
  ∃ st' tx', copy_all st next [src] dir Overwrite tx = Some (st', tx')
    ∧ st' !! components src = None
    ∧ sent tx' = sent tx ++ [Started next; Failed next ENOENT].
Proof.
  intros Hn Hc Hs Ha. destruct tx as [[|[|a]] evs]; cbn [accepts sent] in *; [lia|lia|].
  cbn [copy]. unfold copy_source. cbn [send accepts sent negb]. unfold resolve_dst. rewrite Hn.
  assert (exists_ st (join dir name) = true) as -> by (apply exists_spec; rewrite Hc; eauto).
  cbn [negb]. set (st1 := remove_file_ st (join dir name)).
  assert (st1 !! components src = None) as Hgone.
  { unfold st1. rewrite <- Hc. eapply remove_file_gone. by rewrite Hc. }
  assert (∀ answer chunk total tx, open_and_loop clock answer chunk st1 src (join dir name) next total tx
    = Some (LErr ENOENT 0, st1, tx)) as Hopen.
  { intros. unfold open_and_loop, find. by rewrite Hgone. }
  unfold copy_one_sequential. cbv zeta.
  set (k := mkTx (S a) (evs ++ [Started next])).
  assert (∀ total,
    copy_one_reflink kernel reads clock st1 src (join dir name) next total k = Some (Err ENOENT, st1, k)
    ∧ copy_one_stream reads clock st1 src (join dir name) next total k = Some (Err ENOENT, st1, k)) as Hrun.
  { intros total. unfold copy_one_reflink, copy_one_stream. by rewrite !Hopen. }
  destruct (decide_strategy _); [rewrite (proj1 (Hrun _))|rewrite (proj2 (Hrun _))];
    cbn [mbind option_bind conclude];
    (eexists _, _; split; [reflexivity|]); split;
    try (rewrite remove_file_absent; by rewrite ?Hc);
    unfold send_, k; cbn [send accepts sent snd]; by rewrite <- app_assoc.
Qed.

End properties.
(** ** Runs *)

Definition calls_w (p : path) (i : nat) : Answer := ACount 3.
Definition clock_w (i : nat) : Instant := (Z.of_nat i * from_millis 60)%Z.
Definition mount_w (p : path) : result (option Z) errno := Ok (Some 1%Z).
Definition dev_w (p : path) : result Z errno := Ok 1%Z.

Definition disk_w : store :=
  list_to_map [(components (lit "/"), NDir); (components (lit "/a"), NDir); (components (lit "/d"), NDir);
               (components (lit "/a/f.txt"), NFile [1; 2; 3; 4; 5]%Z);
               (components (lit "/d/f.txt"), NFile [9]%Z)].
Definition consumer_w : Tx := mkTx 100 [].
Definition run_w (srcs : list path) (dir : path) (c : ConflictPolicy) (tx : Tx) : option (store * Tx) :=
  copy calls_w calls_w clock_w mount_w dev_w disk_w 7 srcs dir c tx.


(** The renamed copy and its events. *)
Example rename_run :
  (λ r, (r.1 !! components (lit "/d/f (1).txt"), sent r.2))
    <$> run_w [lit "/a/f.txt"; lit "/none"] (lit "/d") Rename consumer_w
  = Some (Some (NFile [1; 2; 3; 4; 5]%Z),
          [Started 7; Progress 7 5 5 41; Completed 7; Started 8; Failed 8 ENOENT]).
Proof. vm_compute. reflexivity. Qed.


Lemma overwrite_onto_itself_witness :
  ∃ st' tx', run_w [lit "/a/f.txt"] (lit "/a/") Overwrite consumer_w = Some (st', tx')
    ∧ st' !! components (lit "/a/f.txt") = None
    ∧ sent tx' = [Started 7; Failed 7 ENOENT].
Proof.
  exact (overwrite_onto_itself calls_w calls_w clock_w mount_w dev_w disk_w 7 (lit "/a/f.txt") (lit "/a/")
    (lit "f.txt") [1; 2; 3; 4; 5]%Z consumer_w ltac:(vm_compute; reflexivity) ltac:(vm_compute; reflexivity)
    ltac:(vm_compute; reflexivity) ltac:(apply (bool_decide_unpack _); vm_compute; exact I)).
Defined.

(** A consumer that drops the stream during the first turn's progress: the
    destination is unlinked and the next source is not started. *)
Example cancelled_run :
  (λ r, (r.1 !! components (lit "/d/f (1).txt"), sent r.2))
    <$> copy calls_w calls_w (λ i, Z.of_nat i * from_secs 1)%Z mount_w dev_w disk_w 7
          [lit "/a/f.txt"; lit "/a/f.txt"] (lit "/d") Rename (mkTx 1 [])
  = Some (None, [Started 7]).
Proof. vm_compute. reflexivity. Qed.

End Copy.
