(* ===== verification/FileWalk.v ===== *)
(** * Reading a directory, and the trash

    [crates/sy-filemanager/src/file/fs]: one directory level with a stat per
    entry ([walk.rs]), and the trash round trip ([trash.rs]). What the kernel
    answers for each entry, and the [trash] crate, are parameters. *)

From S2P Require Import Prelude Lists Text Paths Store FileState.
Import Lists Text Paths Store.
Import Panes.
Local Open Scope string_scope.
Local Open Scope nat_scope.
Local Open Scope list_scope.

Module Walk.

(** [libc]'s file type bits and access modes. *)
Definition S_IFMT : Z := 61440.
Definition S_IFLNK : Z := 40960.
Definition S_IFDIR : Z := 16384.
Definition S_IFREG : Z := 32768.
Definition R_OK : Z := 4.
Definition X_OK : Z := 1.
Definition ENOSYS : errno := 38%Z.

Record RawStat : Type := mkStat { st_mode : Z; st_size : Z; st_mtime : Z }.

Definition file_type (r : RawStat) : Z := Z.land (st_mode r) S_IFMT.
Definition is_symlink (r : RawStat) : bool := (file_type r =? S_IFLNK)%Z.
Definition is_dir (r : RawStat) : bool := (file_type r =? S_IFDIR)%Z.
Definition is_regular (r : RawStat) : bool := (file_type r =? S_IFREG)%Z.

(** [is_hidden]. *)
Definition is_hidden (name : text) : bool :=
  match name with c :: _ => (c =? DOT)%Z | [] => false end.

(** [String::cmp]: by bytes, which is by code points. *)
Fixpoint text_leb (a b : text) : bool :=
  match a, b with
  | [], _ => true
  | _ :: _, [] => false
  | x :: a', y :: b' => if (x <? y)%Z then true else if (y <? x)%Z then false else text_leb a' b'
  end.

(** The order of the rows: newest first, then by name. *)
Definition row_le (a b : Entry) : bool :=
  if (e_mtime b <? e_mtime a)%Z then true
  else if (e_mtime a <? e_mtime b)%Z then false
  else text_leb (e_name a) (e_name b).

(** [u64::saturating_add(1)]. *)
Definition next_entry_id (id : Z) : Z := Z.min (U64_MOD - 1) (id + 1).

Section walk.
(** What the kernel answers for a path: [statx], [lstat], [readlink], whether
    [stat] follows, and [access] with a mode. *)
Context (statx lstat : path → result RawStat errno) (readlink : path → option path)
        (follows : path → bool) (access : path → Z → bool).

(** [RawStat::lstat]. *)
Definition raw_lstat (p : path) : result RawStat errno :=
  match statx p with
  | Ok r => Ok r
  | Err e => if (e =? ENOSYS)%Z then lstat p else Err e
  end.

(** [RawStat::readable]. *)
Definition readable (r : RawStat) (p : path) : bool :=
  if existsb (Z.eqb 0) p then false
  else access p (if is_dir r then Z.lor R_OK X_OK else R_OK).

(** [stat_entry]. *)
Definition stat_entry (id : Z) (name : text) (child : path) : Entry :=
  match raw_lstat child with
  | Err _ => mkEntry id name Other 0 0 false false false None None
  | Ok raw =>
      let link := is_symlink raw in
      mkEntry id name
        (if link then Symlink else if is_dir raw then Dir else if is_regular raw then File else Other)
        (st_size raw) (st_mtime raw) link (link && negb (follows child)) (readable raw child) None
        (if link then readlink child else None)
  end.

(** The loop of [walk_blocking]; an entry the kernel fails to read is [None]. *)
Fixpoint walk_entries (dir : path) (include_hidden : bool) (id : Z) (names : list (option text))
    : list Entry :=
  match names with
  | [] => []
  | None :: names => walk_entries dir include_hidden id names
  | Some name :: names =>
      if negb include_hidden && is_hidden name then walk_entries dir include_hidden id names
      else stat_entry id name (join dir name)
           :: walk_entries dir include_hidden (next_entry_id id) names
  end.

(** [walk_blocking]; [read_dir] is the directory stream, or why it did not open. *)
Definition walk_blocking (read_dir : result (list (option text)) errno) (dir : path)
    (include_hidden : bool) : result (list Entry) errno :=
  rbind read_dir (λ names, Ok (sort_by row_le (walk_entries dir include_hidden 0 names))).

(** *** Lemmas *)
Lemma stat_entry_id id name p : e_id (stat_entry id name p) = id.
Proof. unfold stat_entry. by destruct (raw_lstat p). Qed.
Lemma stat_entry_name id name p : e_name (stat_entry id name p) = name.
Proof. unfold stat_entry. by destruct (raw_lstat p). Qed.

(** The names that become rows. *)
Definition listed (include_hidden : bool) (names : list (option text)) : list text :=
  List.filter (λ n, include_hidden || negb (is_hidden n)) (omap id names).

Lemma walk_entries_names dir h i names : map e_name (walk_entries dir h i names) = listed h names.
Proof.
  unfold listed. revert i. induction names as [|[name|] names IH]; intros i; [done| |apply IH].
  cbn [walk_entries omap list_omap id List.filter].
  destruct h, (is_hidden name); cbn [negb andb orb]; try apply IH; cbn [map]; by rewrite stat_entry_name, IH.
Qed.

Lemma walk_entries_ids dir h i names :
  (0 <= i)%Z → (i + Z.of_nat (length (listed h names)) <= U64_MOD - 1)%Z →
  map e_id (walk_entries dir h i names) = seqZ i (Z.of_nat (length (listed h names))).
Proof.
  unfold listed. revert i. induction names as [|[name|] names IH]; intros i Hi Hb; [done| |by apply IH].
  cbn [walk_entries omap list_omap id List.filter] in *.
  assert (∀ L, (i + Z.of_nat (S L) <= U64_MOD - 1)%Z →
    i :: seqZ (next_entry_id i) (Z.of_nat L) = seqZ i (Z.of_nat (S L))) as Hcons.
  { intros L HL. rewrite (seqZ_cons i) by lia. unfold next_entry_id. rewrite Z.min_r by lia.
    f_equal. f_equal; lia. }
  destruct h, (is_hidden name); cbn [negb andb orb length] in *; try (by apply IH);
    cbn [map]; rewrite stat_entry_id, IH, Hcons; unfold next_entry_id; try done; lia.
Qed.

End walk.

Lemma text_leb_refl a : text_leb a a = true.
Proof. induction a as [|x a IH]; [done|]. simpl. by rewrite Z.ltb_irrefl. Qed.

Lemma text_leb_total a b : text_leb a b = true ∨ text_leb b a = true.
Proof.
  revert b. induction a as [|x a IH]; intros [|y b]; simpl; auto.
  destruct (Z.ltb_spec x y); [by left|]. destruct (Z.ltb_spec y x); [by right|]. apply IH.
Qed.

Lemma text_leb_trans a b c : text_leb a b = true → text_leb b c = true → text_leb a c = true.
Proof.
  revert b c. induction a as [|x a IH]; intros [|y b] [|z c]; simpl; try done.
  destruct (Z.ltb_spec x y), (Z.ltb_spec y x), (Z.ltb_spec y z), (Z.ltb_spec z y),
    (Z.ltb_spec x z), (Z.ltb_spec z x); try done; try lia. apply IH.
Qed.

Lemma row_le_total a b : row_le a b = true ∨ row_le b a = true.
Proof.
  unfold row_le. destruct (Z.ltb_spec (e_mtime b) (e_mtime a)); [by left|].
  destruct (Z.ltb_spec (e_mtime a) (e_mtime b)); [by right|]. apply text_leb_total.
Qed.

Lemma row_le_trans a b c : row_le a b = true → row_le b c = true → row_le a c = true.
Proof.
  unfold row_le.
  destruct (Z.ltb_spec (e_mtime b) (e_mtime a)), (Z.ltb_spec (e_mtime a) (e_mtime b)),
    (Z.ltb_spec (e_mtime c) (e_mtime b)), (Z.ltb_spec (e_mtime b) (e_mtime c)),
    (Z.ltb_spec (e_mtime c) (e_mtime a)), (Z.ltb_spec (e_mtime a) (e_mtime c)); try done; try lia.
  apply text_leb_trans.
Qed.

(** A directory is listed completely and in order: the rows are the names the
    kernel gave, without the hidden ones unless asked for, newest first and then
    by name; their ids are the numbers from zero, each used once; and an entry
    that cannot be read is a row of its own, never an error. *)
Theorem walk_lists statx lstat readlink follows access names dir h :
  (Z.of_nat (length (listed h names)) <= U64_MOD - 1)%Z →
  ∃ l, walk_blocking statx lstat readlink follows access (Ok names) dir h = Ok l
    ∧ map e_name l ≡ₚ listed h names
    ∧ map e_id l ≡ₚ seqZ 0 (Z.of_nat (length l))
    ∧ StronglySorted (λ a b, row_le a b = true) l.
Proof.
  intros Hb. unfold walk_blocking. cbn [rbind]. eexists. split; [done|].
  set (rows := walk_entries statx lstat readlink follows access dir h 0 names).
  assert (length rows = length (listed h names)) as Hlen.
  { rewrite <- (walk_entries_names statx lstat readlink follows access dir h 0 names).
    by rewrite length_map. }
  split_and!.
  - rewrite (Permutation_map e_name (sort_by_Permutation row_le rows)).
    unfold rows. by rewrite walk_entries_names.
  - rewrite (Permutation_map e_id (sort_by_Permutation row_le rows)).
    rewrite length_sort_by, Hlen. unfold rows. by rewrite walk_entries_ids by (done || lia).
  - apply sort_by_sorted; [apply row_le_total|apply row_le_trans].
Qed.

Definition names_w : list (option text) := [Some (lit "b"); None; Some (lit ".git"); Some (lit "a")].
Definition statx_w (p : path) : result RawStat errno :=
  if decide (file_name p = Some (lit "a")) then Err 13%Z else Ok (mkStat 33188 10 5).

Lemma walk_lists_witness :
  let w := walk_blocking statx_w statx_w (λ _, None) (λ _, true) (λ _ _, true) (Ok names_w) (lit "/d") false in
  (∃ l, w = Ok l ∧ map e_name l ≡ₚ [lit "b"; lit "a"])
  ∧ w = Ok [mkEntry 0 (lit "b") File 10 5 false false true None None;
            mkEntry 1 (lit "a") Other 0 0 false false false None None].
Proof.
  split; [|vm_compute; reflexivity].
  destruct (walk_lists statx_w statx_w (λ _, None) (λ _, true) (λ _ _, true) names_w (lit "/d") false
    ltac:(vm_compute; discriminate)) as (l & H & Hn & _).
  exists l. split; [exact H|exact Hn].
Defined.

End Walk.

(** ** The trash *)

Module Trash.

(** [trash::TrashItem] and the file manager's view of one. *)
Record TrashItem : Type := mkItem { ti_id : path; ti_original : path; ti_time : Z }.
Record TrashedItem : Type := mkTrashed {
  original : path;
  trash_id : text;
  deleted_at : Z;
  size : Z;
}.

(** [epoch_to_systemtime], in nanoseconds. *)
Definition epoch_to_systemtime (secs : Z) : Z := if (secs <=? 0)%Z then 0%Z else from_secs secs.

Definition TRASHINFO : text := lit ".trashinfo".

(** [info_basename_id]. *)
Definition info_basename_id (item : TrashItem) : text :=
  let base := default [] (file_name (ti_id item)) in
  default base (strip_suffix TRASHINFO base).

(** [map_item]. *)
Definition map_item (item : TrashItem) (n : Z) : TrashedItem :=
  mkTrashed (ti_original item) (info_basename_id item) (epoch_to_systemtime (ti_time item)) n.

Section crate.
(** The [trash] crate on the state of the trash (and the files it moves). *)
Context {T : Type} (delete : T → path → result T errno) (list_all : T → result (list TrashItem) errno)
        (size_of : T → TrashItem → option Z) (restore_all : T → list TrashItem → result T errno)
        (canonicalize : T → path → result path errno).

(** [list_blocking]. *)
Definition list_blocking (s : T) : result (list TrashedItem) errno :=
  rbind (list_all s) (λ items, Ok (map (λ i, map_item i (default 0%Z (size_of s i))) items)).

(** The first loop of [trash_blocking]: what was trashed before a failure stays
    trashed. *)
Fixpoint delete_all (s : T) (paths : list path) : T * result (list path) errno :=
  match paths with
  | [] => (s, Ok [])
  | p :: paths =>
      match canonicalize s p with
      | Err e => (s, Err e)
      | Ok canon =>
          match delete s p with
          | Err e => (s, Err e)
          | Ok s =>
              let '(s, r) := delete_all s paths in
              (s, rbind r (λ canons, Ok (canon :: canons)))
          end
      end
  end.

(** The second loop: each trashed path with its entry of the list. *)
Fixpoint find_all (listed : list TrashedItem) (canons : list path) : result (list TrashedItem) errno :=
  match canons with
  | [] => Ok []
  | c :: canons =>
      match List.find (λ t, path_eq (original t) c) listed with
      | None => Err ENOENT
      | Some t => rbind (find_all listed canons) (λ ts, Ok (t :: ts))
      end
  end.

(** [trash_blocking]. *)
Definition trash_blocking (s : T) (paths : list path) : T * result (list TrashedItem) errno :=
  let '(s, r) := delete_all s paths in
  (s, rbind r (λ canons, rbind (list_blocking s) (λ listed, find_all listed canons))).

(** [restore_blocking]. *)
Definition restore_blocking (s : T) (item : TrashedItem) : result (T * path) errno :=
  rbind (list_all s) (λ listed,
    match List.find (λ t, bool_decide (info_basename_id t = trash_id item)) listed with
    | None => Err ENOENT
    | Some matched => rbind (restore_all s [matched]) (λ s, Ok (s, original item))
    end).

(** *** Lemmas *)
Lemma find_all_Ok listed canons items :
  find_all listed canons = Ok items →
  Forall2 (λ c t, path_eq (original t) c = true ∧ In t listed) canons items.
Proof.
  revert items. induction canons as [|c canons IH]; intros items; cbn [find_all].
  - intros [= <-]. constructor.
  - destruct (List.find _ listed) as [t|] eqn:E; [|done]. apply List.find_some in E as [Hin Ht].
    destruct (find_all listed canons) as [ts|]; [|done]. cbn [rbind]. intros [= <-].
    constructor; [done|]. by apply IH.
Qed.

(** What is reported as trashed: one entry per path, in order, each of the path's
    canonical name and in the trash. *)
Lemma trash_reports s paths s' items :
  trash_blocking s paths = (s', Ok items) →
  ∃ canons listed, delete_all s paths = (s', Ok canons) ∧ list_blocking s' = Ok listed
    ∧ Forall2 (λ c t, path_eq (original t) c = true ∧ In t listed) canons items.
Proof.
  unfold trash_blocking. destruct (delete_all s paths) as [s1 [canons|]] eqn:E; [|done].
  cbn [rbind]. destruct (list_blocking s1) as [listed|] eqn:El; [|done]. cbn [rbind].
  intros [= <- Hf]. exists canons, listed. split_and!; [done|done|]. by apply find_all_Ok.
Qed.

End crate.

(** An entry's id is its info file without the suffix. *)
Lemma info_basename_id_strip dir name t o :
  is_name (name ++ TRASHINFO) → info_basename_id (mkItem (join dir (name ++ TRASHINFO)) o t) = name.
Proof.
  intros Hn. unfold info_basename_id. cbn [ti_id]. rewrite file_name_join by done. cbv zeta.
  change (default [] (Some (name ++ TRASHINFO))) with (name ++ TRASHINFO).
  by rewrite (proj2 (strip_suffix_Some TRASHINFO (name ++ TRASHINFO) name) eq_refl).
Qed.

(** A trash that lists the oldest entry first: trashing a path twice reports the
    first entry again. *)
Definition bin_w : Type := list TrashItem.
Definition delete_w (s : bin_w) (p : path) : result bin_w errno :=
  Ok (s ++ [mkItem (lit "/t/info/f" ++ show_nat (Z.of_nat (length s)) ++ TRASHINFO) p 1]).
Example second_trash_reports_first :
  let twice := delete_all delete_w (λ _ p, Ok p) [] [lit "/f"] in
  map trash_id <$> match (trash_blocking delete_w Ok (λ _ _, None) (λ _ p, Ok p) twice.1 [lit "/f"]).2 with
                   | Ok l => Some l | Err _ => None end
  = Some [lit "f0"].
Proof. vm_compute. reflexivity. Qed.

End Trash.
