(* ===== verification/FileApp.v ===== *)
(** * The file manager's reducer

    [crates/sy-filemanager/src/file/app.rs]: the messages, the state they
    update, the tasks an update asks for and the messages the tasks end in. The
    tasks themselves (reading a directory, decoding an image) are third-party
    or kernel work; what they deliver enters through [deliver]. *)

From S2P Require Import Prelude Lists Text Paths Store FileState Bookmarks FileTables.
From Stdlib Require Import SpecFloat.
Import Lists Text Paths FileState FileTables.
Import Selection Panes Ops View Dnd.
Local Open Scope string_scope.
Local Open Scope nat_scope.
Local Open Scope list_scope.

Module App.

(** ** State *)

Inductive ClipboardMode : Type := ClipCopy | ClipMove.
Inductive KnowledgeStatus : Type := Reachable | Unreachable | TimedOut.
Inductive PreviewPayload : Type := PText (lines : list text) | PInfo (body : text) | PImage.

Record PreviewState : Type := mkPreview {
  current_path : option (list Z);
  text_preview : option (list Z * text);
  resolved : option (list Z * PreviewPayload);
}.

Record KnowledgeState : Type := mkKnowledge {
  k_status : KnowledgeStatus;
  last_query : option text;
  last_hits : hits;
}.

(** [State], apart from the key bindings, which only the daemon's hangup handler
    touches ([Keymap.reload_keymap]); of the plugin bridge, whether there is one. *)
Record State : Type := mkState {
  panes : Panes.Panes;
  lmode : LayoutMode;
  selection : SelectionSet;
  ops : list Operation;
  commandbar : CommandBar.t;
  preview : PreviewState;
  plugin_bridge : bool;
  clipboard : option (ClipboardMode * list (list Z));
  range_anchor : option EntryId;
  drag_source : option DragSource;
  knowledge : KnowledgeState;
  bookmarks : option Bookmarks.Bookmarks;
  pending_key_chord : option char;
  mounts : list Mounts.Mount;
}.

(** [State::default]. *)
Definition default_state : State :=
  mkState default_panes ThreePane ∅ [] CommandBar.closed (mkPreview None None None) false None None
    None (mkKnowledge Reachable None []) None None [].

(** Field updates. *)
Definition set_panes (s : State) (x : Panes.Panes) : State :=
  mkState x (lmode s) (selection s) (ops s) (commandbar s) (preview s) (plugin_bridge s) (clipboard s)
    (range_anchor s) (drag_source s) (knowledge s) (bookmarks s) (pending_key_chord s) (mounts s).
Definition set_current (s : State) (p : Pane) : State :=
  set_panes s (mkPanes (parent_pane (panes s)) p (preview_pane (panes s))).
Definition set_parent (s : State) (p : Pane) : State :=
  set_panes s (mkPanes p (current (panes s)) (preview_pane (panes s))).
Definition set_preview_pane (s : State) (p : Pane) : State :=
  set_panes s (mkPanes (parent_pane (panes s)) (current (panes s)) p).
Definition set_lmode (s : State) (x : LayoutMode) : State :=
  mkState (panes s) x (selection s) (ops s) (commandbar s) (preview s) (plugin_bridge s) (clipboard s)
    (range_anchor s) (drag_source s) (knowledge s) (bookmarks s) (pending_key_chord s) (mounts s).
Definition set_selection (s : State) (x : SelectionSet) : State :=
  mkState (panes s) (lmode s) x (ops s) (commandbar s) (preview s) (plugin_bridge s) (clipboard s)
    (range_anchor s) (drag_source s) (knowledge s) (bookmarks s) (pending_key_chord s) (mounts s).
Definition push_op (s : State) (o : Operation) : State :=
  mkState (panes s) (lmode s) (selection s) (ops s ++ [o]) (commandbar s) (preview s) (plugin_bridge s)
    (clipboard s) (range_anchor s) (drag_source s) (knowledge s) (bookmarks s) (pending_key_chord s)
    (mounts s).
Definition set_commandbar (s : State) (x : CommandBar.t) : State :=
  mkState (panes s) (lmode s) (selection s) (ops s) x (preview s) (plugin_bridge s) (clipboard s)
    (range_anchor s) (drag_source s) (knowledge s) (bookmarks s) (pending_key_chord s) (mounts s).
Definition set_preview (s : State) (x : PreviewState) : State :=
  mkState (panes s) (lmode s) (selection s) (ops s) (commandbar s) x (plugin_bridge s) (clipboard s)
    (range_anchor s) (drag_source s) (knowledge s) (bookmarks s) (pending_key_chord s) (mounts s).
Definition set_clipboard (s : State) (x : option (ClipboardMode * list (list Z))) : State :=
  mkState (panes s) (lmode s) (selection s) (ops s) (commandbar s) (preview s) (plugin_bridge s) x
    (range_anchor s) (drag_source s) (knowledge s) (bookmarks s) (pending_key_chord s) (mounts s).
Definition set_range_anchor (s : State) (x : option EntryId) : State :=
  mkState (panes s) (lmode s) (selection s) (ops s) (commandbar s) (preview s) (plugin_bridge s)
    (clipboard s) x (drag_source s) (knowledge s) (bookmarks s) (pending_key_chord s) (mounts s).
Definition set_drag_source (s : State) (x : option DragSource) : State :=
  mkState (panes s) (lmode s) (selection s) (ops s) (commandbar s) (preview s) (plugin_bridge s)
    (clipboard s) (range_anchor s) x (knowledge s) (bookmarks s) (pending_key_chord s) (mounts s).
Definition set_knowledge (s : State) (x : KnowledgeState) : State :=
  mkState (panes s) (lmode s) (selection s) (ops s) (commandbar s) (preview s) (plugin_bridge s)
    (clipboard s) (range_anchor s) (drag_source s) x (bookmarks s) (pending_key_chord s) (mounts s).
Definition set_bookmarks (s : State) (x : option Bookmarks.Bookmarks) : State :=
  mkState (panes s) (lmode s) (selection s) (ops s) (commandbar s) (preview s) (plugin_bridge s)
    (clipboard s) (range_anchor s) (drag_source s) (knowledge s) x (pending_key_chord s) (mounts s).
Definition set_chord (s : State) (x : option char) : State :=
  mkState (panes s) (lmode s) (selection s) (ops s) (commandbar s) (preview s) (plugin_bridge s)
    (clipboard s) (range_anchor s) (drag_source s) (knowledge s) (bookmarks s) x (mounts s).
Definition set_mounts (s : State) (x : list Mounts.Mount) : State :=
  mkState (panes s) (lmode s) (selection s) (ops s) (commandbar s) (preview s) (plugin_bridge s)
    (clipboard s) (range_anchor s) (drag_source s) (knowledge s) (bookmarks s) (pending_key_chord s) x.

(** ** Messages and tasks *)

Inductive Named : Type :=
| Escape | Space | ArrowDown | ArrowUp | ArrowLeft | ArrowRight | Enter | Backspace | OtherNamed.
Inductive Key : Type := KChar (c : text) | KNamed (n : Named) | KUnidentified.

Inductive Message : Type :=
| Tick
| Loaded (p : list Z)
| WindowResized (width height : Z)
| KeyPressed (k : Key) (m : Modifiers)
| CommandQueryChanged (q : text)
| CommandSelectVerb (v : text)
| CommandClose
| Navigate (p : list Z)
| HoverEntry (id : EntryId)
| PreviewLoaded (p : list Z)
| PreviewLoadedPng (p : list Z) (bytes : list Z)
| PreviewLoadedText (p : list Z) (content : text)
| PreviewFailed (p : list Z) (error : text)
| DragStart (ids : list EntryId)
| DragOffer (mime : text)
| DropAccept (t : DropTarget)
| KnowledgeQuery (q : text)
| KnowledgeHits (h : hits)
| KnowledgeQueryResolved (h : hits) (st : KnowledgeStatus)
| KnowledgeStatusChanged (st : KnowledgeStatus)
| BookmarkPin (k : char)
| BookmarkJump (k : char)
| MountsLoaded (l : list Mounts.Mount)
| EntriesLoaded (pane : PaneId) (dir : list Z) (l : list Entry)
| CursorTo (id : EntryId)
| ActivateEntry (id : EntryId)
| PreviewResolved (p : list Z) (payload : PreviewPayload).

(** What an update asks for. [TSave] is the synchronous write of the bookmarks,
    whose outcome the reducer only logs. *)
Inductive Task : Type :=
| TNone
| TMsg (m : Message)
| TBatch (l : list Task)
| TWalk (pane : PaneId) (dir : list Z)
| TImage (p : list Z)
| THighlight (p : list Z)
| TInfo (p : list Z)
| THoverImage (p : list Z)
| TPlugin (mime : text) (p : list Z)
| TKnowledge (dir : list Z) (q : text) (k : nat)
| TSave (b : Bookmarks.Bookmarks).

Definition walk_for_pane (pane : PaneId) (dir : list Z) : Task := TWalk pane dir.

Definition KNOWLEDGE_PALETTE_LIMIT : nat := 12.
(** ** Handlers *)

(** [x as i32]. *)
Definition as_i32 (x : Z) : Z := ((x + 2 ^ 31) mod 2 ^ 32 - 2 ^ 31)%Z.

Definition find_entry (id : EntryId) (l : list Entry) : option Entry :=
  List.find (λ e, (e_id e =? id)%Z) l.
Definition set_current_path (s : State) (p : option (list Z)) : State :=
  set_preview s (mkPreview p (text_preview (preview s)) (resolved (preview s))).
Definition set_resolved (s : State) (r : option (list Z * PreviewPayload)) : State :=
  set_preview s (mkPreview (current_path (preview s)) (text_preview (preview s)) r).
Definition set_text_preview (s : State) (t : option (list Z * text)) : State :=
  set_preview s (mkPreview (current_path (preview s)) t (resolved (preview s))).
(** [state.preview.current_path.as_deref() == Some(&path)]. *)
Definition is_current (s : State) (p : list Z) : bool :=
  match current_path (preview s) with Some q => path_eq q p | None => false end.

(** The path of a row of the current pane. *)
Definition row_path (pn : Pane) (e : Entry) : list Z := join (cwd pn) (e_name e).

(** The rows of the current pane that are selected, as paths. *)
Definition selected_paths (s : State) : list (list Z) :=
  map (row_path (current (panes s)))
    (List.filter (λ e, contains (selection s) (e_id e)) (entries (current (panes s)))).

(** [handle_cursor_move]. *)
Definition handle_cursor_move (s : State) (delta : Z) : State :=
  let pn := current (panes s) in
  match entries pn with
  | [] => set_current s (set_cursor pn 0)
  | _ =>
      let next := Z.max 0 (Z.min (as_i32 (Z.of_nat (length (entries pn)) - 1))
                                 (as_i32 (as_i32 (Z.of_nat (cursor pn)) + delta))) in
      set_current s (set_cursor pn (Z.to_nat next))
  end.

(** [handle_cursor_open] and [handle_cursor_up]. *)
Definition handle_cursor_open (s : State) : option Task :=
  let pn := current (panes s) in
  e ← entries pn !! cursor pn;
  if decide (e_kind e = Dir) then Some (TMsg (Navigate (row_path pn e))) else None.
Definition handle_cursor_up (s : State) : option Task :=
  p ← parent (cwd (current (panes s))); Some (TMsg (Navigate p)).

Definition handle_space_toggle (s : State) : State :=
  let pn := current (panes s) in
  match entries pn !! cursor pn with
  | Some e => set_selection s (toggle (selection s) (e_id e))
  | None => s
  end.

(** [handle_range_extend]; [down] is a positive delta. *)
Definition handle_range_extend (s : State) (down : bool) : State :=
  let pn := current (panes s) in
  match entries pn with
  | [] => s
  | _ =>
      let prev := cursor pn in
      let anchor := match range_anchor s with
                    | Some a => Some a
                    | None => e_id <$> entries pn !! prev
                    end in
      let new_cursor := if down then Nat.min (prev + 1) (length (entries pn) - 1) else prev - 1 in
      let s := set_range_anchor (set_current s (set_cursor pn new_cursor)) anchor in
      match anchor, e_id <$> entries pn !! new_cursor with
      | Some a, Some b => set_selection s (add_range (selection s) a b)
      | _, _ => s
      end
  end.

Definition handle_select_all (s : State) : State :=
  set_selection s (all (map e_id (entries (current (panes s))))).
Definition handle_invert (s : State) : State :=
  set_selection s (invert (selection s) (map e_id (entries (current (panes s))))).

Definition handle_clipboard_stash (s : State) (m : ClipboardMode) : State :=
  match selected_paths s with
  | [] => s
  | paths => set_clipboard s (Some (m, paths))
  end.

Definition handle_trash (s : State) : State :=
  match selected_paths s with
  | [] => s
  | srcs => push_op s (Trash srcs)
  end.

Definition handle_paste (s : State) : State :=
  match clipboard s with
  | None => s
  | Some (m, srcs) =>
      let dst := cwd (current (panes s)) in
      push_op (set_clipboard s None)
        (match m with ClipCopy => Copy srcs dst Skip | ClipMove => Move srcs dst Skip end)
  end.

Definition handle_drag_start (s : State) (ids : list EntryId) : State :=
  let pn := current (panes s) in
  match map (row_path pn) (List.filter (λ e, existsb (Z.eqb (e_id e)) ids) (entries pn)) with
  | [] => s
  | paths => set_drag_source s (Some (mkDragSource paths DragCopy))
  end.

Definition handle_drop_accept (s : State) (t : DropTarget) : State :=
  match dt_paths t with
  | [] => s
  | srcs =>
      let dst := cwd (current (panes s)) in
      push_op s (match dt_action t with
                 | DropCopy => Copy srcs dst Skip
                 | DropMove => Move srcs dst Skip
                 end)
  end.

Definition current_drag_uri_list (s : State) : text :=
  match drag_source s with Some d => paths_to_uri_list (ds_paths d) | None => [] end.

Definition handle_knowledge_hits (s : State) (qdrant : hits) : State :=
  let pn := current (panes s) in
  let filename_hits := imap (λ i e, (row_path pn e, filename_score i)) (entries pn) in
  let merged := merge qdrant filename_hits in
  let s := match head merged with
           | Some (top, _) =>
               match position (λ e, path_eq (row_path pn e) top) (entries pn) with
               | Some i => set_current s (set_cursor pn i)
               | None => s
               end
           | None => s
           end in
  set_knowledge s (mkKnowledge (k_status (knowledge s)) (last_query (knowledge s)) merged).

Definition handle_knowledge_query (s : State) (q : text) : State * Task :=
  (set_knowledge s (mkKnowledge (k_status (knowledge s)) (Some q) (last_hits (knowledge s))),
   TKnowledge (cwd (current (panes s))) q KNOWLEDGE_PALETTE_LIMIT).

Definition handle_bookmark_jump (s : State) (key : char) : State :=
  match (reg ← bookmarks s; Bookmarks.jump reg key) with
  | Some p => set_current s (set_cwd (current (panes s)) p)
  | None => s
  end.

Section update.
(** [fs::mime] on a path, and nucleo. *)
Context (mime_for : list Z → option text) (fuzzy : text → text → option Z).
(** The clock a pin is stamped with. *)
Context (now : Z).

Definition handle_bookmark_pin (s : State) (key : char) : State * Task :=
  match bookmarks s with
  | None => (s, TNone)
  | Some reg =>
      let reg := Bookmarks.pinned reg now key (cwd (current (panes s))) None in
      (set_bookmarks s (Some reg), TSave reg)
  end.

(** [resolve_preview]. *)
Definition resolve_preview (s : State) : State * Task :=
  let pn := current (panes s) in
  match entries pn !! cursor pn with
  | None => (set_preview s (mkPreview None (text_preview (preview s)) None), TNone)
  | Some e =>
      let p := row_path pn e in
      if match resolved (preview s) with Some (q, _) => path_eq q p | None => false end
      then (set_current_path s (Some p), TNone)
      else
        let s := set_current_path s (Some p) in
        if decide (e_kind e = Dir) then
          (set_preview_pane s (set_cwd (preview_pane (panes s)) p), walk_for_pane Preview p)
        else
          (s, match kind_for (mime_for_entry e (mime_for p)) with
              | KImage => TImage p
              | KText => THighlight p
              | KNoBuiltin => TInfo p
              end)
  end.

(** [handle_hover]. *)
Definition handle_hover (s : State) (id : EntryId) : State * Task :=
  let pn := current (panes s) in
  match find_entry id (entries pn) with
  | None => (s, TNone)
  | Some e =>
      let p := row_path pn e in
      let mime := mime_for_entry e (mime_for p) in
      (set_current_path s (Some p),
       match kind_for mime with
       | KImage => THoverImage p
       | KNoBuiltin => if plugin_bridge s then TPlugin mime p else TNone
       | KText => TNone
       end)
  end.

(** [refresh_panes]. *)
Definition refresh_panes (dir : list Z) : Task :=
  TBatch (walk_for_pane Current dir
          :: match parent dir with Some p => [walk_for_pane Parent p] | None => [] end).

Definition navigate (s : State) (p : list Z) : State * Task :=
  let s := set_current s (set_cwd (current (panes s)) p) in
  let s := match parent p with
           | Some q => set_parent s (set_cwd (parent_pane (panes s)) q)
           | None => s
           end in
  (s, refresh_panes p).

Definition is_char_key (c : text) (x : Z) : bool := bool_decide (c = [x]).

(** [handle_key]. *)
Definition handle_key (s : State) (k : Key) (m : Modifiers) : State * Task :=
  let second := match k with KChar (ch :: _) => Some ch | _ => None end in
  if decide (pending_key_chord s = Some 98%Z) then
    let s := set_chord s None in
    (match second with Some ch => handle_bookmark_jump s ch | None => s end, TNone)
  else if decide (pending_key_chord s = Some 66%Z) then
    let s := set_chord s None in
    match second with Some ch => handle_bookmark_pin s ch | None => (s, TNone) end
  else
      let quiet s := (s, TNone) in
      let task o := (s, default TNone o) in
      match k with
      | KUnidentified => (s, TNone)
      | KNamed n =>
          match n with
          | Escape =>
              quiet (set_chord (set_range_anchor (set_commandbar s (CommandBar.close (commandbar s))) None) None)
          | Space => quiet (handle_space_toggle s)
          | ArrowDown => if shift m then quiet (handle_range_extend s true)
                         else resolve_preview (handle_cursor_move s 1)
          | ArrowUp => if shift m then quiet (handle_range_extend s false)
                       else resolve_preview (handle_cursor_move s (-1))
          | Enter | ArrowRight => task (handle_cursor_open s)
          | Backspace | ArrowLeft => task (handle_cursor_up s)
          | OtherNamed => (s, TNone)
          end
      | KChar c =>
          let key := is_char_key c in
          if key 47%Z then quiet (set_commandbar s (CommandBar.open_filter (commandbar s)))
          else if key 58%Z then quiet (set_commandbar s (CommandBar.open_palette (commandbar s)))
          else if key 98%Z then quiet (set_chord s (Some 98%Z))
          else if key 66%Z then quiet (set_chord s (Some 66%Z))
          else if key 106%Z then resolve_preview (handle_cursor_move s 1)
          else if key 107%Z then resolve_preview (handle_cursor_move s (-1))
          else if key 108%Z then task (handle_cursor_open s)
          else if key 104%Z then task (handle_cursor_up s)
          else if key 42%Z then quiet (handle_select_all s)
          else if key 97%Z then quiet (handle_invert s)
          else if key 121%Z then quiet (handle_clipboard_stash s ClipCopy)
          else if key 120%Z then quiet (handle_clipboard_stash s ClipMove)
          else if key 100%Z then quiet (handle_trash s)
          else if key 112%Z then quiet (handle_paste s)
          else (s, TNone)
      end.

(** The pane an arrived listing goes to, when it still shows that directory. *)
Definition get_pane (p : PaneId) (s : State) : Pane :=
  match p with
  | Parent => parent_pane (panes s)
  | Current => current (panes s)
  | Preview => preview_pane (panes s)
  end.
Definition set_pane (p : PaneId) (s : State) (pn : Pane) : State :=
  match p with Parent => set_parent s pn | Current => set_current s pn | Preview => set_preview_pane s pn end.

Definition entries_loaded (s : State) (pane : PaneId) (dir : list Z) (l : list Entry) : State * Task :=
  let active_child := match pane with Parent => file_name (cwd (current (panes s))) | _ => None end in
  let target := get_pane pane s in
  let s := if path_eq (cwd target) dir then
             let target := set_entries target l in
             set_pane pane s
               (match (c ← active_child; position (λ e, bool_decide (e_name e = c)) l) with
                | Some i => set_cursor target i
                | None => target
                end)
           else s in
  match pane with Current => resolve_preview s | _ => (s, TNone) end.

(** [update]. *)
Definition update (s : State) (msg : Message) : State * Task :=
  match msg with
  | Tick => (s, TNone)
  | Loaded p | Navigate p => navigate s p
  | WindowResized w _ => (set_lmode s (mode_for_width w), TNone)
  | KeyPressed k m => handle_key s k m
  | CommandQueryChanged q =>
      let b := CommandBar.set_query (commandbar s) q in
      (set_commandbar s
         (match CommandBar.mode b with
          | CommandBar.Filter =>
              CommandBar.set_filter_results b (matches fuzzy (CommandBar.query b) (entries (current (panes s))))
          | _ => b
          end), TNone)
  | CommandSelectVerb v => (set_commandbar s (CommandBar.select_verb (commandbar s) v), TNone)
  | CommandClose => (set_commandbar s (CommandBar.close (commandbar s)), TNone)
  | HoverEntry id => handle_hover s id
  | PreviewLoaded _ => (s, TNone)
  | PreviewLoadedPng p _ => (if is_current s p then set_text_preview s None else s, TNone)
  | PreviewLoadedText p content =>
      (if is_current s p then set_text_preview s (Some (p, content)) else s, TNone)
  | PreviewFailed p _ => if is_current s p then (set_text_preview s None, TInfo p) else (s, TNone)
  | DragStart ids => (handle_drag_start s ids, TNone)
  | DragOffer _ => (s, TNone)
  | DropAccept t => (handle_drop_accept s t, TNone)
  | KnowledgeQuery q => handle_knowledge_query s q
  | KnowledgeHits h => (handle_knowledge_hits s h, TNone)
  | KnowledgeQueryResolved h st =>
      (handle_knowledge_hits
         (set_knowledge s (mkKnowledge st (last_query (knowledge s)) (last_hits (knowledge s)))) h, TNone)
  | KnowledgeStatusChanged st =>
      (set_knowledge s (mkKnowledge st (last_query (knowledge s)) (last_hits (knowledge s))), TNone)
  | BookmarkPin key => handle_bookmark_pin s key
  | BookmarkJump key => (handle_bookmark_jump s key, TNone)
  | CursorTo id =>
      let pn := current (panes s) in
      resolve_preview
        (match position (λ e, (e_id e =? id)%Z) (entries pn) with
         | Some i => set_current s (set_cursor pn i)
         | None => s
         end)
  | ActivateEntry id =>
      let pn := current (panes s) in
      (s, match find_entry id (entries pn) with
          | Some e => if decide (e_kind e = Dir) then TMsg (Navigate (row_path pn e)) else TNone
          | None => TNone
          end)
  | EntriesLoaded pane dir l => entries_loaded s pane dir l
  | MountsLoaded l => (set_mounts s l, TNone)
  | PreviewResolved p payload =>
      (if is_current s p then set_resolved s (Some (p, payload)) else s, TNone)
  end.

End update.

(** ** What tasks end in *)

Inductive PluginReply : Type := Png (bytes : list Z) | PlainText (content : text) | PluginError (e : text).

(** How a task ended: a listing (none when it failed), whether an image
    decoded with the file card to show otherwise, highlighted lines, a file
    card, a plugin's reply, or the knowledge daemon's. *)
Inductive Outcome : Type :=
| OListing (l : option (list Entry))
| OImage (decoded : bool) (card : text)
| OLines (l : list text)
| OCard (body : text)
| OPlugin (r : PluginReply)
| OHits (r : option (hits * KnowledgeStatus)).

(** The message a finished task delivers. *)
Definition deliver (t : Task) (o : Outcome) : option Message :=
  match t, o with
  | TMsg m, _ => Some m
  | TWalk pane dir, OListing l => Some (EntriesLoaded pane dir (default [] l))
  | TImage p, OImage true _ => Some (PreviewResolved p PImage)
  | TImage p, OImage false card => Some (PreviewResolved p (PInfo card))
  | THighlight p, OLines l => Some (PreviewResolved p (PText l))
  | TInfo p, OCard body => Some (PreviewResolved p (PInfo body))
  | THoverImage p, OImage true _ => Some (PreviewLoaded p)
  | THoverImage p, OImage false _ => Some Tick
  | TPlugin _ p, OPlugin (Png b) => Some (PreviewLoadedPng p b)
  | TPlugin _ p, OPlugin (PlainText c) => Some (PreviewLoadedText p c)
  | TPlugin _ p, OPlugin (PluginError e) => Some (PreviewFailed p e)
  | TKnowledge _ _ _, OHits (Some (h, st)) => Some (KnowledgeQueryResolved h st)
  | TKnowledge _ _ _, OHits None => Some (KnowledgeStatusChanged Unreachable)
  | _, _ => None
  end.

(** ** Well-formed states *)

Definition op_ok (o : Operation) : Prop :=
  match o with Copy srcs _ _ | Move srcs _ _ | Trash srcs => srcs ≠ [] | _ => True end.

(** Every cursor is on a row of its pane; filter results only while filtering;
    what is queued, stashed or dragged names at least one path. *)
Record state_ok (s : State) : Prop := mkOk {
  ok_parent : pane_ok (parent_pane (panes s));
  ok_current : pane_ok (current (panes s));
  ok_preview : pane_ok (preview_pane (panes s));
  ok_bar : CommandBar.bar_ok (commandbar s);
  ok_ops : Forall op_ok (ops s);
  ok_clip : match clipboard s with Some (_, l) => l ≠ [] | None => True end;
  ok_drag : match drag_source s with Some d => ds_paths d ≠ [] | None => True end;
}.

Lemma default_state_ok : state_ok default_state.
Proof. split; try apply new_pane_ok; done. Qed.

(** A change of fields the invariant does not mention, or of one it does. *)
Lemma set_current_ok s p : state_ok s → pane_ok p → state_ok (set_current s p).
Proof. by intros []; split. Qed.
Lemma set_parent_ok s p : state_ok s → pane_ok p → state_ok (set_parent s p).
Proof. by intros []; split. Qed.
Lemma set_preview_pane_ok s p : state_ok s → pane_ok p → state_ok (set_preview_pane s p).
Proof. by intros []; split. Qed.
Lemma set_pane_ok pane s p : state_ok s → pane_ok p → state_ok (set_pane pane s p).
Proof. destruct pane; [apply set_parent_ok|apply set_current_ok|apply set_preview_pane_ok]. Qed.
Lemma set_commandbar_ok s b : state_ok s → CommandBar.bar_ok b → state_ok (set_commandbar s b).
Proof. by intros []; split. Qed.
Lemma push_op_ok s o : state_ok s → op_ok o → state_ok (push_op s o).
Proof. intros [] Ho; split; try done. simpl. apply Forall_app. by rewrite Forall_singleton. Qed.
Lemma set_clipboard_ok s m l : state_ok s → l ≠ [] → state_ok (set_clipboard s (Some (m, l))).
Proof. by intros []; split. Qed.
Lemma clear_clipboard_ok s : state_ok s → state_ok (set_clipboard s None).
Proof. by intros []; split. Qed.
Lemma set_drag_source_ok s d : state_ok s → ds_paths d ≠ [] → state_ok (set_drag_source s (Some d)).
Proof. by intros []; split. Qed.
Lemma set_preview_ok s x : state_ok s → state_ok (set_preview s x).
Proof. by intros []; split. Qed.
Lemma set_selection_ok s x : state_ok s → state_ok (set_selection s x).
Proof. by intros []; split. Qed.
Lemma set_range_anchor_ok s x : state_ok s → state_ok (set_range_anchor s x).
Proof. by intros []; split. Qed.
Lemma set_knowledge_ok s x : state_ok s → state_ok (set_knowledge s x).
Proof. by intros []; split. Qed.
Lemma set_bookmarks_ok s x : state_ok s → state_ok (set_bookmarks s x).
Proof. by intros []; split. Qed.
Lemma set_chord_ok s x : state_ok s → state_ok (set_chord s x).
Proof. by intros []; split. Qed.
Lemma set_mounts_ok s x : state_ok s → state_ok (set_mounts s x).
Proof. by intros []; split. Qed.
Lemma set_lmode_ok s x : state_ok s → state_ok (set_lmode s x).
Proof. by intros []; split. Qed.

#[local] Hint Resolve set_current_ok set_parent_ok set_preview_pane_ok set_pane_ok set_commandbar_ok push_op_ok
  set_clipboard_ok clear_clipboard_ok set_drag_source_ok set_preview_ok set_selection_ok
  set_range_anchor_ok set_knowledge_ok set_bookmarks_ok set_chord_ok set_mounts_ok set_lmode_ok
  ok_parent ok_current ok_preview ok_bar : sy.

Lemma handle_cursor_move_ok s d : state_ok s → state_ok (handle_cursor_move s d).
Proof.
  intros H. unfold handle_cursor_move. destruct (entries (current (panes s))) as [|e l] eqn:E.
  - apply set_current_ok; [done|]. by right.
  - apply set_current_ok; [done|]. apply set_cursor_ok. rewrite E.
    unfold as_i32. set (n := length (e :: l)). assert (n ≠ 0) by done.
    pose proof (Z.mod_le (Z.of_nat n - 1 + 2 ^ 31) (2 ^ 32) ltac:(lia) ltac:(lia)). lia.
Qed.

Lemma handle_range_extend_ok s d : state_ok s → state_ok (handle_range_extend s d).
Proof.
  intros H. unfold handle_range_extend. destruct (entries (current (panes s))) as [|e l] eqn:E; [done|].
  rewrite <- E. cbv zeta.
  match goal with |- state_ok (match ?a with _ => _ end) => destruct a end;
    [match goal with |- state_ok (match ?a with _ => _ end) => destruct a end|];
    eauto with sy;
    repeat apply set_selection_ok; apply set_range_anchor_ok, set_current_ok; try done;
    apply set_cursor_ok; destruct (ok_current _ H) as [|[Hn _]]; rewrite ?Hn, ?E in *; simpl in *;
    try done; destruct d; lia.
Qed.

Lemma resolve_preview_ok mime_for s : state_ok s → state_ok (resolve_preview mime_for s).1.
Proof.
  intros H. unfold resolve_preview. destruct (_ !! _) as [e|]; [|simpl; auto with sy].
  destruct (match resolved (preview s) with Some _ => _ | None => _ end); [unfold set_current_path; simpl; auto with sy|].
  unfold set_current_path. case_decide; simpl; auto with sy.
Qed.

Lemma selected_paths_push s : state_ok s → state_ok (handle_trash s).
Proof. intros H. unfold handle_trash. destruct (selected_paths s) eqn:E; [done|]. by apply push_op_ok. Qed.

Lemma handle_stash_ok s m : state_ok s → state_ok (handle_clipboard_stash s m).
Proof. intros H. unfold handle_clipboard_stash. destruct (selected_paths s); auto with sy. Qed.

Lemma handle_paste_ok s : state_ok s → state_ok (handle_paste s).
Proof.
  intros H. unfold handle_paste. destruct (clipboard s) as [[m l]|] eqn:E; [|done].
  pose proof (ok_clip _ H) as Hc. rewrite E in Hc. apply push_op_ok; [by apply clear_clipboard_ok|].
  by destruct m.
Qed.

Lemma handle_drop_ok s t : state_ok s → state_ok (handle_drop_accept s t).
Proof.
  intros H. unfold handle_drop_accept. destruct (dt_paths t); [done|]. apply push_op_ok; [done|].
  by destruct (dt_action t).
Qed.

Lemma handle_drag_ok s ids : state_ok s → state_ok (handle_drag_start s ids).
Proof. intros H. unfold handle_drag_start. destruct (map _ _); auto with sy. Qed.

Lemma handle_hits_ok s h : state_ok s → state_ok (handle_knowledge_hits s h).
Proof.
  intros H. unfold handle_knowledge_hits. apply set_knowledge_ok.
  destruct (head _) as [[top sc]|]; [|done]. destruct (position _ _) as [i|] eqn:E; [|done].
  apply set_current_ok; [done|]. by apply set_cursor_ok, (position_lt _ _ _ E).
Qed.

Lemma handle_jump_ok s k : state_ok s → state_ok (handle_bookmark_jump s k).
Proof. intros H. unfold handle_bookmark_jump. destruct (_ ≫= _); auto with sy. Qed.

Lemma handle_pin_ok now s k : state_ok s → state_ok (handle_bookmark_pin now s k).1.
Proof. intros H. unfold handle_bookmark_pin. destruct (bookmarks s); simpl; auto with sy. Qed.

Lemma navigate_ok s p : state_ok s → state_ok (navigate s p).1.
Proof.
  intros H. unfold navigate. simpl. destruct (parent p); auto 10 with sy.
Qed.

Lemma entries_loaded_ok mime_for s pane dir l :
  state_ok s → state_ok (entries_loaded mime_for s pane dir l).1.
Proof.
  intros H. unfold entries_loaded.
  assert (∀ t, pane_ok (match (c ← t; position (λ e, bool_decide (e_name e = c)) l) with
    | Some i => set_cursor (set_entries (get_pane pane s) l) i
    | None => set_entries (get_pane pane s) l end)) as Hp.
  { intros t. destruct (t ≫= _) as [i|] eqn:E; [|apply set_entries_ok].
    destruct t as [c|]; [|done]. simpl in E. apply set_cursor_ok. simpl. by eapply position_lt. }
  destruct (path_eq _ _); destruct pane; simpl; auto using resolve_preview_ok with sy;
    repeat apply resolve_preview_ok; auto with sy.
Qed.

#[local] Hint Resolve handle_cursor_move_ok handle_range_extend_ok resolve_preview_ok selected_paths_push
  handle_stash_ok handle_paste_ok handle_jump_ok handle_pin_ok navigate_ok : sy.

Lemma handle_key_ok mime_for now s k m : state_ok s → state_ok (handle_key mime_for now s k m).1.
Proof.
  intros H. unfold handle_key.
  set (second := match k with KChar (ch :: _) => Some ch | _ => None end). cbv zeta.
  case_decide; [destruct second; cbn [fst]; auto with sy|].
  case_decide; [destruct second; cbn [fst]; auto with sy|].
  destruct k as [c|n|]; [|destruct n|done]; cbn [fst]; auto with sy.
  - repeat (destruct (is_char_key c _); [cbn [fst]; unfold handle_select_all, handle_invert; auto with sy|]).
    done.
  - unfold handle_space_toggle. destruct (_ !! _); auto with sy.
  - destruct (shift m); cbn [fst]; auto with sy.
  - destruct (shift m); cbn [fst]; auto with sy.
Qed.

Lemma handle_hover_ok mime_for s id : state_ok s → state_ok (handle_hover mime_for s id).1.
Proof.
  intros H. unfold handle_hover, set_current_path. destruct (find_entry _ _); cbn [fst]; auto with sy.
Qed.

#[local] Hint Resolve handle_key_ok handle_hover_ok handle_drop_ok handle_drag_ok handle_hits_ok
  entries_loaded_ok : sy.

Lemma update_ok mime_for fuzzy now s msg : state_ok s → state_ok (update mime_for fuzzy now s msg).1.
Proof.
  intros H.
  destruct msg; cbn [update]; unfold set_text_preview, set_resolved, handle_knowledge_query; cbn [fst];
    auto with sy; try (destruct (is_current s p); cbn [fst]; auto with sy; fail).
  - apply set_commandbar_ok; [done|]. destruct (CommandBar.mode _) eqn:E; auto with sy.
  - apply resolve_preview_ok. destruct (position _ _) as [i|] eqn:E; [|done].
    apply set_current_ok; [done|]. by apply set_cursor_ok, (position_lt _ _ _ E).
Qed.

(** The state [run] starts from, with the plugin bridge and the bookmarks that
    were found, and the state after some messages, each at its time. *)
Definition started (bridge : bool) (reg : option Bookmarks.Bookmarks) : State :=
  set_bookmarks (mkState default_panes ThreePane ∅ [] CommandBar.closed (mkPreview None None None) bridge
    None None None (mkKnowledge Reachable None []) None None []) reg.

Definition run mime_for fuzzy (s : State) (msgs : list (Z * Message)) : State :=
  foldl (λ s nm, (update mime_for fuzzy nm.1 s nm.2).1) s msgs.

Lemma run_ok mime_for fuzzy s msgs : state_ok s → state_ok (run mime_for fuzzy s msgs).
Proof.
  intros H. unfold run. induction msgs as [|[now msg] msgs IH] using rev_ind; [done|].
  rewrite foldl_snoc. by apply update_ok.
Qed.

(** C5. Whatever messages arrive in whatever order, the state stays well formed:
    the cursor of each pane is on a row of that pane (or at zero when it has
    none), filter rows are kept only while filtering, and no operation is
    queued, stashed or dragged without a path. *)
Theorem reachable_state_ok mime_for fuzzy bridge reg msgs :
  state_ok (run mime_for fuzzy (started bridge reg) msgs).
Proof. apply run_ok. split; try apply new_pane_ok; done. Qed.

(** ** Listings *)
Lemma path_eq_refl p : path_eq p p = true.
Proof. by apply bool_decide_eq_true. Qed.

(** The last listing of [dir] for [pane] among the messages. *)
Definition listing_of (pane : PaneId) (dir : list Z) (m : Message) : option (list Entry) :=
  match m with
  | EntriesLoaded pane' d l => if bool_decide (pane' = pane) && path_eq dir d then Some l else None
  | _ => None
  end.
Definition last_listing (pane : PaneId) (dir : list Z) (ms : list Message) : option (list Entry) :=
  last (omap (listing_of pane dir) ms).

Definition is_listing (m : Message) : bool := match m with EntriesLoaded _ _ _ => true | _ => false end.

Lemma resolve_preview_panes mime_for s :
  current (panes (resolve_preview mime_for s).1) = current (panes s)
  ∧ parent_pane (panes (resolve_preview mime_for s).1) = parent_pane (panes s).
Proof.
  unfold resolve_preview. destruct (_ !! _); [|done].
  destruct (match resolved (preview s) with Some _ => _ | None => _ end); [done|]. by case_decide.
Qed.

(** What one listing does to the pane it is for, and not to the other. *)
Lemma entries_loaded_current mime_for s pane dir l :
  let pn := current (panes (entries_loaded mime_for s pane dir l).1) in
  cwd pn = cwd (current (panes s))
  ∧ entries pn = default (entries (current (panes s)))
                   (listing_of Current (cwd (current (panes s))) (EntriesLoaded pane dir l)).
Proof.
  unfold entries_loaded, listing_of. destruct pane; cbn [bool_decide decide_rel get_pane fst].
  - destruct (path_eq _ _); done.
  - rewrite (proj1 (resolve_preview_panes mime_for _)). cbn [mbind option_bind].
    destruct (path_eq _ _); done.
  - destruct (path_eq _ _); done.
Qed.

Lemma entries_loaded_parent mime_for s pane dir l :
  let pn := parent_pane (panes (entries_loaded mime_for s pane dir l).1) in
  cwd pn = cwd (parent_pane (panes s))
  ∧ entries pn = default (entries (parent_pane (panes s)))
                   (listing_of Parent (cwd (parent_pane (panes s))) (EntriesLoaded pane dir l)).
Proof.
  unfold entries_loaded, listing_of. destruct pane; cbn [bool_decide decide_rel get_pane fst].
  - destruct (path_eq _ _); [|done]. by destruct (_ ≫= _).
  - rewrite (proj2 (resolve_preview_panes mime_for _)). cbn [mbind option_bind].
    destruct (path_eq _ _); done.
  - destruct (path_eq _ _); done.
Qed.

Lemma run_msgs_snoc mime_for fuzzy s ms nm :
  run mime_for fuzzy s (ms ++ [nm]) = (update mime_for fuzzy nm.1 (run mime_for fuzzy s ms) nm.2).1.
Proof. unfold run. by rewrite foldl_snoc. Qed.

Lemma run_listings mime_for fuzzy s ms :
  Forall (λ nm, is_listing nm.2 = true) ms →
  let s' := run mime_for fuzzy s ms in
  cwd (current (panes s')) = cwd (current (panes s))
  ∧ cwd (parent_pane (panes s')) = cwd (parent_pane (panes s))
  ∧ entries (current (panes s')) = default (entries (current (panes s)))
      (last_listing Current (cwd (current (panes s))) (map snd ms))
  ∧ entries (parent_pane (panes s')) = default (entries (parent_pane (panes s)))
      (last_listing Parent (cwd (parent_pane (panes s))) (map snd ms)).
Proof.
  induction ms as [|[now m] ms IH] using rev_ind; intros Hms; [done|].
  apply Forall_app in Hms as [Hms Hm]. rewrite Forall_singleton in Hm. cbn [snd] in Hm.
  destruct (IH Hms) as (Hc & Hp & Hec & Hep). rewrite run_msgs_snoc. cbn [fst snd].
  destruct m; try done. cbn [update].
  destruct (entries_loaded_current mime_for (run mime_for fuzzy s ms) pane dir l) as [-> ->].
  destruct (entries_loaded_parent mime_for (run mime_for fuzzy s ms) pane dir l) as [-> ->].
  rewrite Hc, Hp, Hec, Hep. split_and!; [done|done| |];
    unfold last_listing; rewrite map_app, omap_app; cbn [map snd omap list_omap];
    destruct (listing_of _ _ _); rewrite ?app_nil_r, ?last_snoc; done.
Qed.

(** C13. Directory listings arrive in any order and from any directory, also ones
    left meanwhile; after a navigation each of the two directory panes shows the
    last listing of its own directory, and keeps its old rows while none has
    come. *)
Theorem listings_settle mime_for fuzzy now s p ms :
  Forall (λ nm, is_listing nm.2 = true) ms →
  let s' := run mime_for fuzzy (update mime_for fuzzy now s (Navigate p)).1 ms in
  cwd (current (panes s')) = p
  ∧ entries (current (panes s'))
    = default (entries (current (panes s))) (last_listing Current p (map snd ms))
  ∧ ∀ q, parent p = Some q →
      cwd (parent_pane (panes s')) = q
      ∧ entries (parent_pane (panes s'))
        = default (entries (parent_pane (panes s))) (last_listing Parent q (map snd ms)).
Proof.
  intros Hms. cbv zeta. cbn [update].
  destruct (run_listings mime_for fuzzy (navigate s p).1 ms Hms) as (-> & -> & -> & ->).
  unfold navigate. cbn [fst]. split_and!; [by destruct (parent p)|by destruct (parent p)|].
  intros q Hq. by rewrite Hq.
Qed.

(** ** The clipboard *)

(** The keys that read or write the clipboard: [y], [x] and [p]. *)
Definition clipboard_key (m : Message) : bool :=
  match m with
  | KeyPressed (KChar c) _ => bool_decide (c = [121%Z] ∨ c = [120%Z] ∨ c = [112%Z])
  | _ => false
  end.

Lemma resolve_preview_clipboard mime_for s : clipboard (resolve_preview mime_for s).1 = clipboard s.
Proof.
  unfold resolve_preview. destruct (_ !! _); [|done].
  destruct (match resolved (preview s) with Some _ => _ | None => _ end); [done|]. by case_decide.
Qed.

Lemma handle_pin_clipboard now s k : clipboard (handle_bookmark_pin now s k).1 = clipboard s.
Proof. unfold handle_bookmark_pin. by destruct (bookmarks s). Qed.
Lemma handle_jump_clipboard s k : clipboard (handle_bookmark_jump s k) = clipboard s.
Proof. unfold handle_bookmark_jump. by destruct (_ ≫= _). Qed.
Lemma cursor_move_clipboard s d : clipboard (handle_cursor_move s d) = clipboard s.
Proof. unfold handle_cursor_move. by destruct (entries _). Qed.
Lemma range_extend_clipboard s d : clipboard (handle_range_extend s d) = clipboard s.
Proof.
  unfold handle_range_extend. destruct (entries _) as [|e l]; [done|]. cbv zeta.
  destruct (match range_anchor s with Some _ => _ | None => _ end); [|done]. by destruct (e_id <$> _).
Qed.
Lemma trash_clipboard s : clipboard (handle_trash s) = clipboard s.
Proof. unfold handle_trash. by destruct (selected_paths s). Qed.

Lemma handle_key_clipboard mime_for now s k m :
  clipboard_key (KeyPressed k m) = false → clipboard (handle_key mime_for now s k m).1 = clipboard s.
Proof.
  intros Hk. unfold handle_key.
  set (second := match k with KChar (ch :: _) => Some ch | _ => None end). cbv zeta.
  case_decide; [destruct second; cbn [fst]; by rewrite ?handle_jump_clipboard|].
  case_decide; [destruct second; cbn [fst]; by rewrite ?handle_pin_clipboard|].
  destruct k as [c|n|]; [|destruct n|done]; cbn [fst]; try done.
  - cbn [clipboard_key] in Hk. apply bool_decide_eq_false in Hk. unfold is_char_key.
    repeat (case_bool_decide; [cbn [fst]; rewrite ?resolve_preview_clipboard, ?cursor_move_clipboard,
      ?trash_clipboard; (done || naive_solver)|]). done.
  - unfold handle_space_toggle. by destruct (_ !! _).
  - destruct (shift m); cbn [fst]; by rewrite ?resolve_preview_clipboard, ?cursor_move_clipboard,
      ?range_extend_clipboard.
  - destruct (shift m); cbn [fst]; by rewrite ?resolve_preview_clipboard, ?cursor_move_clipboard,
      ?range_extend_clipboard.
Qed.

Lemma update_clipboard mime_for fuzzy now s m :
  clipboard_key m = false → clipboard (update mime_for fuzzy now s m).1 = clipboard s.
Proof.
  intros Hm.
  destruct m; cbn [update]; try done; try (destruct (is_current s p); done).
  - unfold navigate. cbn [fst]. by destruct (parent p).
  - by apply handle_key_clipboard.
  - unfold navigate. cbn [fst]. by destruct (parent p).
  - unfold handle_hover. by destruct (find_entry _ _).
  - unfold handle_drag_start. cbn [fst]. by destruct (map _ _).
  - unfold handle_drop_accept. cbn [fst]. by destruct (dt_paths t).
  - unfold handle_knowledge_hits. cbn [fst clipboard set_knowledge].
    destruct (head _) as [[]|]; [|done]. by destruct (position _ _).
  - unfold handle_knowledge_hits. cbn [fst clipboard set_knowledge].
    destruct (head _) as [[]|]; [|done]. by destruct (position _ _).
  - apply handle_pin_clipboard.
  - cbn [fst]. apply handle_jump_clipboard.
  - unfold entries_loaded. destruct pane; rewrite ?resolve_preview_clipboard;
      destruct (path_eq _ _); try done; by destruct (_ ≫= _).
  - rewrite resolve_preview_clipboard. by destruct (position _ _).
Qed.

Lemma run_clipboard mime_for fuzzy s ms :
  Forall (λ nm, clipboard_key nm.2 = false) ms → clipboard (run mime_for fuzzy s ms) = clipboard s.
Proof.
  induction ms as [|nm ms IH] using rev_ind; intros Hms; [done|].
  apply Forall_app in Hms as [Hms Hm]. rewrite Forall_singleton in Hm.
  rewrite run_msgs_snoc, update_clipboard by done. by apply IH.
Qed.

Definition press (c : Z) : Message := KeyPressed (KChar [c]) (mkMods false false).

(** The keys outside a chord. *)
Lemma press_stash mime_for fuzzy now s (cut : bool) : pending_key_chord s = None →
  update mime_for fuzzy now s (press (if cut then 120%Z else 121%Z))
  = (handle_clipboard_stash s (if cut then ClipMove else ClipCopy), TNone).
Proof.
  intros H. destruct cut; unfold update, press, handle_key; by rewrite H, !decide_False by done.
Qed.
Lemma press_paste mime_for fuzzy now s : pending_key_chord s = None →
  update mime_for fuzzy now s (press 112%Z) = (handle_paste s, TNone).
Proof. intros H. unfold update, press, handle_key; by rewrite H, !decide_False by done. Qed.
Lemma press_trash mime_for fuzzy now s : pending_key_chord s = None →
  update mime_for fuzzy now s (press 100%Z) = (handle_trash s, TNone).
Proof. intros H. unfold update, press, handle_key; by rewrite H, !decide_False by done. Qed.

(** What [y] or [x] stashed is what [p] queues: with any messages between
    that are not these keys, navigation included, pasting queues one copy (or
    move) of exactly the paths selected when they were stashed, into the
    directory shown when pasting, and empties the clipboard, so that pasting
    again queues nothing. *)
Theorem paste_queues_the_stash mime_for fuzzy now s (cut : bool) ms :
  pending_key_chord s = None →
  selected_paths s ≠ [] →
  Forall (λ nm, clipboard_key nm.2 = false) ms →
  let s1 := run mime_for fuzzy (update mime_for fuzzy now s (press (if cut then 120%Z else 121%Z))).1 ms in
  pending_key_chord s1 = None →
  let s2 := (update mime_for fuzzy now s1 (press 112%Z)).1 in
  ops s2 = ops s1 ++ [(if cut then Move else Copy) (selected_paths s) (cwd (current (panes s1))) Skip]
  ∧ (update mime_for fuzzy now s2 (press 112%Z)).1 = s2.
Proof.
  intros Hch Hsel Hms s1 Hch1 s2.
  assert (clipboard s1 = Some (if cut then ClipMove else ClipCopy, selected_paths s)) as Hclip.
  { unfold s1. rewrite run_clipboard, press_stash by done. cbn [fst].
    unfold handle_clipboard_stash. by destruct (selected_paths s). }
  assert (s2 = handle_paste s1) as -> by (unfold s2; by rewrite press_paste).
  assert (handle_paste s1 = push_op (set_clipboard s1 None)
    ((if cut then Move else Copy) (selected_paths s) (cwd (current (panes s1))) Skip)) as ->.
  { unfold handle_paste. rewrite Hclip. by destruct cut. }
  split; [done|]. by rewrite press_paste.
Qed.

(** ** Runs *)

Definition row_w (id : Z) (name : string) (k : EntryKind) : Entry :=
  mkEntry id (lit name) k 0 0 false false true None None.
Definition no_mime (p : list Z) : option text := None.
Definition no_fuzzy (a b : text) : option Z := None.
Definition run_w : State → list (Z * Message) → State := run no_mime no_fuzzy.
Definition start_w : State := started false None.
Definition at_0 (l : list Message) : list (Z * Message) := map (pair 0%Z) l.

Lemma listings_settle_witness :
  let ms := at_0 [EntriesLoaded Current (lit "/old") [row_w 0 "stale" File];
                  EntriesLoaded Parent (lit "/a") [row_w 0 "x" File; row_w 1 "b" Dir];
                  EntriesLoaded Current (lit "/a/b") [row_w 0 "f" File]] in
  let s' := run_w (update no_mime no_fuzzy 0 start_w (Navigate (lit "/a/b"))).1 ms in
  entries (current (panes s')) = [row_w 0 "f" File]
  ∧ entries (parent_pane (panes s')) = [row_w 0 "x" File; row_w 1 "b" Dir]
  ∧ cursor (parent_pane (panes s')) = 1.
Proof.
  intros ms s'.
  destruct (listings_settle no_mime no_fuzzy 0 start_w (lit "/a/b") ms
    ltac:(apply (bool_decide_unpack _); vm_compute; exact I)) as (_ & H & Hp).
  split; [exact H|]. destruct (Hp (lit "/a") ltac:(vm_compute; reflexivity)) as [_ H'].
  split; [exact H'|vm_compute; reflexivity].
Defined.

(** A state in [/a] with two rows, the first one selected. *)
Definition picked_w : State :=
  run_w start_w (at_0 [Navigate (lit "/a"); EntriesLoaded Current (lit "/a") [row_w 0 "f" File; row_w 1 "d" Dir];
                       KeyPressed (KNamed Space) (mkMods false false)]).

Lemma paste_queues_the_stash_witness :
  let s1 := run_w (update no_mime no_fuzzy 0 picked_w (press 120%Z)).1 (at_0 [Navigate (lit "/a/d"); Tick]) in
  ops (update no_mime no_fuzzy 0 s1 (press 112%Z)).1 = [Move [lit "/a/f"] (lit "/a/d") Skip].
Proof.
  intros s1.
  destruct (paste_queues_the_stash no_mime no_fuzzy 0 picked_w true (at_0 [Navigate (lit "/a/d"); Tick])
    eq_refl ltac:(vm_compute; discriminate) ltac:(apply (bool_decide_unpack _); vm_compute; exact I)
    eq_refl) as [H _].
  exact H.
Defined.

(** The selection is kept by id across directories, and each listing counts its
    ids from zero: what is trashed in the next directory was never selected. *)
Example selection_outlives_directory :
  ops (run_w picked_w (at_0 [Navigate (lit "/b"); EntriesLoaded Current (lit "/b") [row_w 0 "precious" File];
                             press 100%Z]))
  = [Trash [lit "/b/precious"]].
Proof. vm_compute. reflexivity. Qed.

(** Ids count the order a directory is read in, rows are sorted by time: a range
    from the first row to the second also takes the third. *)
Example range_takes_other_rows :
  let s := run_w start_w (at_0 [EntriesLoaded Current (lit "/") [row_w 0 "new" File; row_w 2 "mid" File; row_w 1 "old" File];
                                KeyPressed (KNamed ArrowDown) (mkMods true false); press 100%Z]) in
  ops s = [Trash [lit "/new"; lit "/mid"; lit "/old"]].
Proof. vm_compute. reflexivity. Qed.

End App.
