(* ===== verification/FileIpc.v ===== *)
(** * The file manager's daemon

    [crates/sy-filemanager/src/file/ipc.rs]: the operations table, the follower
    of a copy's event stream, and the handlers of the [file.] methods on the
    shared state and the file store. Requests arrive with their parameters
    decoded; replies are values. *)

From S2P Require Import Prelude Lists Text Paths Store FileState Bookmarks FileApp FileCopy FileWalk.
From Stdlib Require Import SpecFloat.
Import Lists Text Paths Store.
Import Selection Panes Ops View App.
Local Open Scope string_scope.
Local Open Scope nat_scope.
Local Open Scope list_scope.

Module FileIpc.

(** ** The operations table *)

Inductive OpKind : Type := KindCopy | KindMove | KindUnknown.
Inductive OpState : Type := Running | RowCompleted | RowFailed | RowCancelled.
#[export] Instance OpState_eq_dec : EqDecision OpState.
Proof. solve_decision. Defined.

Record OpRow : Type := mkRow { op_id : Z; kind : OpKind; state : OpState; done : Z; total : Z }.

(** [push_op_row]. *)
Definition push_op_row (ops : list OpRow) (id : Z) (k : OpKind) : list OpRow :=
  ops ++ [mkRow id k Running 0 0].

(** [mark_op_state]: the first row of the operation, or a new one. *)
Definition patch_row (r : OpRow) (st : OpState) (d t : Z) : OpRow :=
  mkRow (op_id r) (kind r) st (if (0 <? d)%Z then d else done r) (if (0 <? t)%Z then t else total r).
Fixpoint mark_op_state (ops : list OpRow) (id : Z) (st : OpState) (d t : Z) : list OpRow :=
  match ops with
  | [] => [mkRow id KindUnknown st d t]
  | r :: ops => if (op_id r =? id)%Z then patch_row r st d t :: ops else r :: mark_op_state ops id st d t
  end.

(** ** Following a copy *)

(** What [spawn_copy_task] does with one event of the stream ([None] when it
    ended): the table, and whether it goes on reading. *)
Definition follow_event (ops : list OpRow) (id : Z) (ev : option OpEvent) : list OpRow * bool :=
  match ev with
  | Some (Progress _ d t _) => (mark_op_state ops id Running d t, true)
  | Some (Completed _) => (mark_op_state ops id RowCompleted 0 0, false)
  | Some (Failed _ _) => (mark_op_state ops id RowFailed 0 0, false)
  | Some (Cancelled _) => (mark_op_state ops id RowCancelled 0 0, false)
  | Some _ => (ops, true)
  | None => (mark_op_state ops id RowCompleted 0 0, false)
  end.

(** The follower on a stream: the table at the end, and how many events it took
    before it dropped the stream. *)
Fixpoint follow (ops : list OpRow) (id : Z) (evs : list OpEvent) : list OpRow * nat :=
  match evs with
  | [] => ((follow_event ops id None).1, 0)
  | ev :: evs =>
      let '(ops, go) := follow_event ops id (Some ev) in
      if go then let '(ops, n) := follow ops id evs in (ops, S n) else (ops, 1)
  end.

(** What a cancelled operation unlinks: the name of every source in the
    destination. *)
Definition cancel_cleanup (st : store) (srcs : list path) (dest : path) : store :=
  foldl (λ st src, match file_name src with
                   | Some name => remove_file_ st (join dest name)
                   | None => st
                   end) st srcs.

(** The follower when the operation is cancelled after some events. *)
Definition follow_cancelled (ops : list OpRow) (id : Z) (st : store) (srcs : list path) (dest : path)
    : list OpRow * store :=
  (mark_op_state ops id RowCancelled 0 0, cancel_cleanup st srcs dest).

(** ** Handlers *)

(** The daemon's share of [FileHandler]: the state, the table and the next
    operation id; and the files. *)
Record Daemon : Type := mkDaemon {
  d_state : State;
  d_ops : list OpRow;
  d_next : Z;
  d_store : store;
}.
Definition with_state (d : Daemon) (s : State) : Daemon := mkDaemon s (d_ops d) (d_next d) (d_store d).
Definition with_ops (d : Daemon) (o : list OpRow) : Daemon := mkDaemon (d_state d) o (d_next d) (d_store d).
Definition with_store (d : Daemon) (st : store) : Daemon := mkDaemon (d_state d) (d_ops d) (d_next d) st.

(** [next_op_id.fetch_add(1)]. *)
Definition take_op_id (d : Daemon) : Z * Daemon :=
  (d_next d, mkDaemon (d_state d) (d_ops d) (wrapping_add64 (d_next d) 1) (d_store d)).

Inductive ErrorCode : Type := BadRequest | Internal | CancelledCode.
Inductive Reply : Type :=
| ROk
| ROpId (id : Z)
| RSelection (l : list path)
| RTrashed (l : list path)
| RResults (l : list path)
| ROps (l : list OpRow)
| RState (cwd : path) (selection : list path) (mode : LayoutMode)
| RMime (mime : text)
| RErr (code : ErrorCode).

(** [parse_conflict]. *)
Definition parse_conflict (s : text) : option ConflictPolicy :=
  if decide (s = lit "skip") then Some Skip
  else if decide (s = lit "overwrite") then Some Overwrite
  else if decide (s = lit "replace") then Some Overwrite
  else if decide (s = lit "rename") then Some Rename
  else None.

Section open.
Context (parse_rfc3339 : text → option Z) (format_rfc3339 : Z → text).
Context (xml_read : list Z → list (option Bookmarks.event)) (xml_write : list Bookmarks.event → list Z).

(** [handle_open]: the pane's directory, and a visit in the log of recent
    directories, whose failure is only logged. *)
Definition handle_open (d : Daemon) (now : Z) (p : path) : Daemon * Reply :=
  let s := d_state d in
  let d := with_state d (set_current s (set_cwd (current (panes s)) p)) in
  (match bookmarks s with
   | Some reg =>
       match Bookmarks.touch_recent parse_rfc3339 format_rfc3339 xml_read xml_write (d_store d) reg now p with
       | Ok st => with_store d st
       | Err _ => d
       end
   | None => d
   end, ROk).
End open.

(** [handle_cd], with the listing [walk] returned. *)
Definition handle_cd (d : Daemon) (p : path) (listing : result (list Entry) errno) : Daemon * Reply :=
  match listing with
  | Err _ => (d, RErr Internal)
  | Ok l =>
      let s := d_state d in
      (with_state d (set_current s (set_entries (set_cwd (current (panes s)) p) l)), ROk)
  end.

(** The ids [handle_select] resolves the paths to: by name, in the current
    directory, whatever directory the path is in. *)
Definition resolve_ids (l : list Entry) (paths : list path) : list EntryId :=
  omap (λ p, name ← file_name p; e_id <$> List.find (λ e, bool_decide (e_name e = name)) l) paths.

Inductive SelectMode : Type := SelAdd | SelReplace | SelToggle.
Definition parse_select_mode (s : text) : option SelectMode :=
  if decide (s = lit "add") then Some SelAdd
  else if decide (s = lit "replace") then Some SelReplace
  else if decide (s = lit "toggle") then Some SelToggle
  else None.

Definition select_ids (m : SelectMode) (sel : SelectionSet) (ids : list EntryId) : SelectionSet :=
  match m with
  | SelAdd => foldl (λ sel id, if contains sel id then sel else toggle sel id) sel ids
  | SelReplace => foldl toggle (clear sel) ids
  | SelToggle => foldl toggle sel ids
  end.

(** [handle_select]. *)
Definition handle_select (d : Daemon) (paths : list path) (mode : text) : Daemon * Reply :=
  let s := d_state d in
  let ids := resolve_ids (entries (current (panes s))) paths in
  match parse_select_mode mode with
  | None => (d, RErr BadRequest)
  | Some m =>
      let s := set_selection s (select_ids m (selection s) ids) in
      (with_state d s, RSelection (selected_paths s))
  end.

(** [handle_copy]: the row and the task to follow, or a refused policy. *)
Definition handle_copy (d : Daemon) (conflict : text) : Daemon * Reply * option (Z * ConflictPolicy) :=
  match parse_conflict conflict with
  | None => (d, RErr BadRequest, None)
  | Some c =>
      let '(id, d) := take_op_id d in
      (with_ops d (push_op_row (d_ops d) id KindCopy), ROpId id, Some (id, c))
  end.

(** The blocking part of [handle_move]: every source renamed into the
    destination; [false] when one could not be. *)
Fixpoint move_all (st : store) (srcs : list path) (dest : path) : bool * store :=
  match srcs with
  | [] => (true, st)
  | src :: srcs =>
      match file_name src with
      | None => let '(_, st) := move_all st srcs dest in (false, st)
      | Some name =>
          match rename st src (join dest name) with
          | Ok st => move_all st srcs dest
          | Err _ => let '(_, st) := move_all st srcs dest in (false, st)
          end
      end
  end.

(** [handle_move], run to its end; the policy is parsed and not used. *)
Definition handle_move (same_mount : path → path → result bool errno) (d : Daemon) (srcs : list path)
    (dest : path) (conflict : text) : Daemon * Reply :=
  if forallb (λ src, match same_mount src dest with Ok b => b | Err _ => false end) srcs then
    let '(id, d) := take_op_id d in
    let d := with_ops d (push_op_row (d_ops d) id KindMove) in
    let '(all_ok, st) := move_all (d_store d) srcs dest in
    (with_ops (with_store d st)
       (mark_op_state (d_ops d) id (if all_ok then RowCompleted else RowFailed) 0 0), ROpId id)
  else (d, RErr CancelledCode).

(** [handle_op_cancel]: the row; the running follower sees the broadcast. *)
Definition handle_op_cancel (d : Daemon) (id : Z) : Daemon * Reply :=
  (with_ops d (mark_op_state (d_ops d) id RowCancelled 0 0), ROk).

Definition handle_ops_list (d : Daemon) : Reply := ROps (d_ops d).

Definition handle_state_snapshot (d : Daemon) : Reply :=
  let s := d_state d in RState (cwd (current (panes s))) (selected_paths s) (lmode s).

(** [handle_search]: the listing of the root; the hits of the knowledge daemon
    when they were asked for. [lower] is [str::to_lowercase]. *)
Fixpoint contains_text (needle s : text) : bool :=
  starts_with s needle || match s with [] => false | _ :: s' => contains_text needle s' end.
Definition handle_search (lower : text → text) (query : text) (root : path)
    (listing : result (list Entry) errno) (knowledge : option hits) : Reply :=
  match listing with
  | Err _ => RErr Internal
  | Ok l =>
      let filename_hits := map (λ e, (join root (e_name e), S754_zero false))
                             (List.filter (λ e, contains_text (lower query) (lower (e_name e))) l) in
      RResults (map fst (match knowledge with
                         | Some h => merge h filename_hits
                         | None => filename_hits
                         end))
  end.

(** [handle_trash], [handle_restore] and [handle_preview]. *)
Definition handle_trash_reply (r : result (list Trash.TrashedItem) errno) : Reply :=
  match r with Ok items => RTrashed (map Trash.original items) | Err _ => RErr Internal end.
Definition restore_target (listed : list Trash.TrashedItem) (p : path) : option Trash.TrashedItem :=
  List.find (λ t, path_eq (Trash.original t) p) listed.
Definition handle_restore_reply {T} (listed : result (list Trash.TrashedItem) errno) (p : path)
    (restore : Trash.TrashedItem → result T errno) : Reply :=
  match listed with
  | Err _ => RErr Internal
  | Ok l =>
      match restore_target l p with
      | None => RErr BadRequest
      | Some item => match restore item with Ok _ => ROk | Err _ => RErr Internal end
      end
  end.
Definition handle_preview (mime : option text) : Reply :=
  match mime with Some m => RMime m | None => RErr Internal end.

(** ** Lemmas *)

Definition terminal (e : OpEvent) : bool :=
  match e with Completed _ | Failed _ _ | Cancelled _ => true | _ => false end.

(** The row of an operation, and the state of it. *)
Definition row_of (ops : list OpRow) (id : Z) : option OpRow := List.find (λ r, (op_id r =? id)%Z) ops.

Lemma mark_op_state_row ops id st d t :
  ∃ r, row_of (mark_op_state ops id st d t) id = Some r ∧ state r = st.
Proof.
  unfold row_of. induction ops as [|r ops IH]; cbn [mark_op_state List.find].
  - cbn [op_id]. rewrite Z.eqb_refl. by eexists.
  - destruct (op_id r =? id)%Z eqn:E; cbn [List.find op_id patch_row]; rewrite E; [by eexists|done].
Qed.

Lemma mark_op_state_other ops id id' st d t :
  id' ≠ id → row_of (mark_op_state ops id st d t) id' = row_of ops id'.
Proof.
  intros Hne. unfold row_of. induction ops as [|r ops IH]; cbn [mark_op_state List.find].
  - cbn [op_id]. by rewrite (proj2 (Z.eqb_neq _ _)).
  - destruct (op_id r =? id)%Z eqn:E; cbn [List.find op_id patch_row].
    + apply Z.eqb_eq in E. by rewrite (proj2 (Z.eqb_neq _ _)) by congruence.
    + by rewrite IH.
Qed.

(** A follower stops at the first terminal event. *)
Lemma follow_until ops id pre e post :
  Forall (λ e, terminal e = false) pre → terminal e = true →
  ∃ ops', follow ops id (pre ++ e :: post) = ((follow_event ops' id (Some e)).1, S (length pre)).
Proof.
  intros Hpre He. revert ops. induction Hpre as [|x pre Hx Hpre IH]; intros ops; cbn [app follow length].
  - exists ops. destruct e; try done.
  - destruct (follow_event ops id (Some x)) as [ops1 go] eqn:E.
    assert (go = true) as -> by (destruct x; simpl in *; congruence).
    destruct (IH ops1) as [ops' ->]. by exists ops'.
Qed.

Lemma cancel_cleanup_removes st srcs dest src name :
  src ∈ srcs → file_name src = Some name → st !! components (join dest name) ≠ Some NDir →
  cancel_cleanup st srcs dest !! components (join dest name) = None.
Proof.
  intros Hin Hn. revert st.
  assert (∀ st s, (st !! components (join dest name) = None →
    match file_name s with Some n => remove_file_ st (join dest n) | None => st end
      !! components (join dest name) = None)) as Hkeep.
  { intros st s H. destruct (file_name s) as [n|]; [|done].
    destruct (decide (components (join dest name) = components (join dest n))) as [E|Hne].
    - rewrite E in *. by rewrite remove_file_absent.
    - by rewrite remove_file_lookup_ne. }
  assert (∀ l st, st !! components (join dest name) = None →
    cancel_cleanup st l dest !! components (join dest name) = None) as Hall.
  { unfold cancel_cleanup. intros l. induction l as [|s l IH]; intros st H; [done|]. cbn [foldl].
    apply IH. by apply Hkeep. }
  revert Hin. induction srcs as [|s srcs IH]; intros Hin st Hd; [by apply elem_of_nil in Hin|].
  unfold cancel_cleanup. cbn [foldl]. apply elem_of_cons in Hin as [<-|Hin].
  - rewrite Hn. apply Hall. by apply remove_file_not_dir.
  - apply IH; [done|]. destruct (file_name s) as [n|]; [|done].
    destruct (decide (components (join dest name) = components (join dest n))) as [E|Hne].
    + rewrite E in *. by rewrite remove_file_not_dir.
    + by rewrite remove_file_lookup_ne.
Qed.

(** ** Properties *)

(** Cancelling a copy deletes what the copy itself was bound to keep: the
    cleanup unlinks the name of every source in the destination, so a file that
    was there before, and that the skip policy leaves untouched whatever happens
    to the copy, is gone once the operation is cancelled. *)
Theorem cancel_unlinks_kept_files kernel reads clock statx_mnt_id dev_id st next srcs dest src name c tx :
  (Z.of_nat (size st + length srcs) < Zpos Copy.RENAME_TRIES)%Z →
  src ∈ srcs → file_name src = Some name →
  st !! components (join dest name) = Some (NFile c) →
  ∃ st' tx', Copy.copy kernel reads clock statx_mnt_id dev_id st next srcs dest Skip tx = Some (st', tx')
    ∧ st' !! components (join dest name) = Some (NFile c)
    ∧ ∀ ops, (follow_cancelled ops next st' srcs dest).2 !! components (join dest name) = None.
Proof.
  intros Hsz Hin Hn Hc.
  assert (∃ st' tx', Copy.copy kernel reads clock statx_mnt_id dev_id st next srcs dest Skip tx = Some (st', tx')
    ∧ Copy.keeps st st') as (st' & tx' & E & Hk) by (by apply Copy.copy_keeps).
  exists st', tx'. split_and!; [done|by apply Hk|]. intros ops. cbn [follow_cancelled snd].
  apply cancel_cleanup_removes with src; [done|done|]. by rewrite (Hk _ _ Hc).
Qed.

(** A batch is reported as done after its first file: the follower stops at
    the first file's completion, marks the whole operation completed and drops
    the stream; the executor, finding the consumer gone, does not start the next
    file. *)
Theorem batch_done_after_first kernel reads clock statx_mnt_id dev_id st next src srcs dest conflict k
    ops id st1 pre i :
  Copy.copy_source kernel reads clock statx_mnt_id dev_id st next src dest conflict (Copy.mkTx k [])
    = Some (true, st1, Copy.mkTx 0 (pre ++ [Completed i])) →
  Forall (λ e, terminal e = false) pre →
  (∃ r, row_of (follow ops id (pre ++ [Completed i])).1 id = Some r ∧ state r = RowCompleted)
  ∧ (follow ops id (pre ++ [Completed i])).2 = length (pre ++ [Completed i])
  ∧ Copy.copy kernel reads clock statx_mnt_id dev_id st next (src :: srcs) dest conflict (Copy.mkTx k [])
    = Some (st1, Copy.mkTx 0 (pre ++ [Completed i])).
Proof.
  intros Hsrc Hpre.
  destruct (follow_until ops id pre (Completed i) [] Hpre eq_refl) as [ops' ->]. cbn [fst snd follow_event].
  split_and!.
  - apply mark_op_state_row.
  - rewrite length_app. simpl. lia.
  - cbn [Copy.copy]. rewrite Hsrc. cbn [mbind option_bind]. by destruct srcs.
Qed.

(** ** Runs *)

Definition two_sources_w : store := <[components (lit "/a/g") := NFile [8]%Z]> Copy.disk_w.

Lemma cancel_unlinks_kept_files_witness :
  ∃ st' tx', Copy.copy Copy.calls_w Copy.calls_w Copy.clock_w Copy.mount_w Copy.dev_w Copy.disk_w 7
      [lit "/a/f.txt"] (lit "/d") Skip Copy.consumer_w = Some (st', tx')
    ∧ st' !! components (lit "/d/f.txt") = Some (NFile [9]%Z)
    ∧ cancel_cleanup st' [lit "/a/f.txt"] (lit "/d") !! components (lit "/d/f.txt") = None.
Proof.
  destruct (cancel_unlinks_kept_files Copy.calls_w Copy.calls_w Copy.clock_w Copy.mount_w Copy.dev_w
    Copy.disk_w 7 [lit "/a/f.txt"] (lit "/d") (lit "/a/f.txt") (lit "f.txt") [9]%Z Copy.consumer_w
    ltac:(vm_compute; reflexivity) ltac:(by apply list_elem_of_singleton)
    ltac:(vm_compute; reflexivity) ltac:(vm_compute; reflexivity)) as (st' & tx' & H1 & H2 & H3).
  exists st', tx'. split; [exact H1|]. split; [exact H2|exact (H3 [])].
Defined.

Lemma batch_done_after_first_witness :
  let events := [Started 7; Progress 7 0 0 0; Completed 7] in
  (follow [] 1 events).2 = 3
  ∧ Copy.copy Copy.calls_w Copy.calls_w Copy.clock_w Copy.mount_w Copy.dev_w two_sources_w 7
      [lit "/d/f.txt"; lit "/a/g"] (lit "/d") Skip (Copy.mkTx 3 []) = Some (two_sources_w, Copy.mkTx 0 events)
  ∧ two_sources_w !! components (lit "/d/g") = None.
Proof.
  intros events.
  destruct (batch_done_after_first Copy.calls_w Copy.calls_w Copy.clock_w Copy.mount_w Copy.dev_w
    two_sources_w 7 (lit "/d/f.txt") [lit "/a/g"] (lit "/d") Skip 3 [] 1 two_sources_w
    [Started 7; Progress 7 0 0 0] 7 ltac:(reflexivity)
    ltac:(apply (bool_decide_unpack _); vm_compute; exact I)) as (_ & H2 & H3).
  split; [exact H2|]. split; [exact H3|vm_compute; reflexivity].
Defined.

(** Moving with the default policy, to skip, replaces the file that is there. *)
Example move_ignores_skip :
  let d := mkDaemon default_state [] 1 Copy.disk_w in
  let '(d, r) := handle_move (λ _ _, Ok true) d [lit "/a/f.txt"] (lit "/d") (lit "skip") in
  (d_store d !! components (lit "/d/f.txt"), r) = (Some (NFile [1; 2; 3; 4; 5]%Z), ROpId 1).
Proof. vm_compute. reflexivity. Qed.

(** A path named twice in a replacing selection is not selected. *)
Example select_twice_selects_nothing :
  select_ids SelReplace ∅ (resolve_ids [row_w 4 "f" File] [lit "/d/f"; lit "/d/f"]) = ∅.
Proof. vm_compute. reflexivity. Qed.

(** Cancelling an id that is not yet in use hides the row the id gets later. *)
Example early_cancel_hides_row :
  let d := (handle_op_cancel (mkDaemon default_state [] 1 ∅) 1).1 in
  let '(d, _, _) := handle_copy d (lit "skip") in
  d_ops (with_ops d (mark_op_state (d_ops d) 1 RowCompleted 0 0))
  = [mkRow 1 KindUnknown RowCompleted 0 0; mkRow 1 KindCopy Running 0 0].
Proof. vm_compute. reflexivity. Qed.

End FileIpc.
