(* ===== verification/PluginWire.v ===== *)
(** * The plugin wire

    What travels between the file manager and a plugin process: base64 in its
    one encoder and three decoders ([plugin/host_fns.rs], [file/plugin_bridge.rs],
    [sy-plugin-pdk/src/runtime.rs]), the host's frame codec
    ([plugin/transport.rs]) and the guest's own framing ([runtime.rs]). *)

From S2P Require Import Prelude Lists Text Paths Lines Utf8 Wire.
Import Lists Text Paths Lines Utf8 Wire.
Local Open Scope string_scope.
Local Open Scope nat_scope.
Local Open Scope list_scope.

Module Base64.

Definition is_byte (b : Z) : Prop := (0 <= b < 256)%Z.

Definition B64_ALPHABET : text :=
  lit "ABCDEFGHIJKLMNOPQRSTUVWXYZabcdefghijklmnopqrstuvwxyz0123456789+/".

Definition PAD : Z := 61%Z.

(** [B64_ALPHABET[i & 0x3f]]. *)
Definition letter (i : Z) : Z := nth (Z.to_nat (Z.land i 63)) B64_ALPHABET 0%Z.

(** The 24 bits of a triple. *)
Definition triple (b0 b1 b2 : Z) : Z := Z.lor (Z.lor (Z.shiftl b0 16) (Z.shiftl b1 8)) b2.

Fixpoint base64_encode (input : list Z) : text :=
  match input with
  | b0 :: b1 :: b2 :: rest =>
      let n := triple b0 b1 b2 in
      letter (Z.shiftr n 18) :: letter (Z.shiftr n 12) :: letter (Z.shiftr n 6) :: letter n
      :: base64_encode rest
  | [b0; b1] =>
      let n := triple b0 b1 0 in
      [letter (Z.shiftr n 18); letter (Z.shiftr n 12); letter (Z.shiftr n 6); PAD]
  | [b0] =>
      let n := triple b0 0 0 in
      [letter (Z.shiftr n 18); letter (Z.shiftr n 12); PAD; PAD]
  | [] => []
  end.

(** *** [plugin/host_fns.rs] *)

(** [b64_decode_table]: 255 where a byte is not of the alphabet. *)
Definition b64_decode_table : list Z :=
  foldl (λ t ib, <[Z.to_nat ib.2 := Z.of_nat ib.1]> t) (replicate 256 255%Z) (imap pair B64_ALPHABET).

(** The value of one character and whether it is padding; [None] for a
    character the decoder refuses. *)
Definition sextet (b : Z) : option (Z * nat) :=
  if (b =? PAD)%Z then Some (0%Z, 1)
  else let v := nth (Z.to_nat b) b64_decode_table 255%Z in
       if (v =? 255)%Z then None else Some (v, 0).

(** The body of the loop: one chunk of four. *)
Definition decode_chunk (a b c d : Z) : option (list Z) :=
  '(v0, p0) ← sextet a; '(v1, p1) ← sextet b; '(v2, p2) ← sextet c; '(v3, p3) ← sextet d;
  let pad := p0 + p1 + p2 + p3 in
  let n := Z.lor (Z.lor (Z.lor (Z.shiftl v0 18) (Z.shiftl v1 12)) (Z.shiftl v2 6)) v3 in
  Some (Z.land (Z.shiftr n 16) 255
        :: (if pad <? 2 then [Z.land (Z.shiftr n 8) 255] else [])
        ++ (if pad <? 1 then [Z.land n 255] else [])).

Fixpoint decode_chunks (bytes : list Z) : option (list Z) :=
  match bytes with
  | a :: b :: c :: d :: rest => out ← decode_chunk a b c d; app out <$> decode_chunks rest
  | _ => Some []
  end.

Definition base64_decode (s : list Z) : option (list Z) :=
  if negb (Nat.eqb (length s mod 4) 0) then None else decode_chunks s.

(** *** [file/plugin_bridge.rs] *)

(** [u8::is_ascii_whitespace]. *)
Definition is_ascii_whitespace (b : Z) : bool :=
  bool_decide (b = 32 ∨ b = 9 ∨ b = 10 ∨ b = 12 ∨ b = 13)%Z.

Definition idx (b : Z) : option Z :=
  if ((65 <=? b) && (b <=? 90))%Z then Some (b - 65)%Z
  else if ((97 <=? b) && (b <=? 122))%Z then Some (b - 97 + 26)%Z
  else if ((48 <=? b) && (b <=? 57))%Z then Some (b - 48 + 52)%Z
  else if (b =? 43)%Z then Some 62%Z
  else if (b =? 47)%Z then Some 63%Z
  else None.

(** One sextet into the accumulator: [buf = (buf << 6) | v] on a [u32], and the
    byte that comes out when eight bits are there. *)
Definition push_sextet (buf : Z) (bits : Z) (v : Z) : Z * Z * list Z :=
  let buf := Z.lor (Z.shiftl buf 6 mod U32_MOD) v in
  let bits := (bits + 6)%Z in
  if (8 <=? bits)%Z then (buf, bits - 8, [Z.land (Z.shiftr buf (bits - 8)) 255])%Z else (buf, bits, []).

Fixpoint bridge_loop (raw : list Z) (buf bits : Z) : option (list Z) :=
  match raw with
  | [] => Some []
  | b :: rest =>
      if (b =? PAD)%Z then Some []
      else v ← idx b;
           let '(buf, bits, out) := push_sextet buf bits v in
           app out <$> bridge_loop rest buf bits
  end.

(** [base64_decode] of the bridge. *)
Definition bridge_decode (s : list Z) : option (list Z) :=
  bridge_loop (List.filter (λ b, negb (is_ascii_whitespace b)) s) 0 0.

(** *** [sy-plugin-pdk/src/runtime.rs] *)

(** [build_table], its [i8] entries. *)
Definition build_table : list Z :=
  let t := foldl (λ t i, <[97 + i := Z.of_nat (i + 26)]> (<[65 + i := Z.of_nat i]> t))
             (replicate 256 (-1)%Z) (seq 0 26) in
  let t := foldl (λ t j, <[48 + j := Z.of_nat (j + 52)]> t) t (seq 0 10) in
  <[47 := 63%Z]> (<[43 := 62%Z]> t).

(** The loop, and the padding it counts. *)
Fixpoint guest_loop (bytes : list Z) (buf bits : Z) (padding : nat) : option (list Z * nat) :=
  match bytes with
  | [] => Some ([], padding)
  | b :: rest =>
      if (b =? PAD)%Z then guest_loop rest buf bits (S padding)
      else let v := nth (Z.to_nat b) build_table (-1)%Z in
           if (v <? 0)%Z then None
           else let '(buf, bits, out) := push_sextet buf bits v in
                '(l, p) ← guest_loop rest buf bits padding; Some (out ++ l, p)
  end.

(** [base64_decode] of the plugin kit. *)
Definition guest_decode (s : text) : option (list Z) :=
  '(out, padding) ← guest_loop (as_bytes (trim s)) 0 0 0;
  if 2 <? padding then None else Some out.

(** ** Lemmas *)
Lemma lor_shift a k b : (0 <= k)%Z → (0 <= b < 2 ^ k)%Z → Z.lor (Z.shiftl a k) b = (a * 2 ^ k + b)%Z.
Proof.
  intros Hk Hb. rewrite <- Z.shiftl_mul_pow2 by done.
  assert (Z.land (Z.shiftl a k) b = 0)%Z as Hd.
  { rewrite <- (Z.mod_small b (2 ^ k)), <- Z.land_ones by lia. apply Z.bits_inj'. intros i Hi.
    rewrite !Z.land_spec, Z.bits_0, Z.shiftl_spec, Z.testbit_ones_nonneg by lia.
    destruct (Z.ltb_spec i k); [|by rewrite !andb_false_r].
    by rewrite Z.testbit_neg_r by lia. }
  pose proof (Z.add_lor_land (Z.shiftl a k) b). lia.
Qed.

Lemma triple_eq b0 b1 b2 : is_byte b0 → is_byte b1 → is_byte b2 →
  triple b0 b1 b2 = (b0 * 65536 + b1 * 256 + b2)%Z.
Proof.
  unfold is_byte, triple. intros. rewrite (Z.lor_comm (Z.lor _ _)), Z.lor_assoc, (Z.lor_comm b2), <- Z.lor_assoc.
  rewrite (Z.lor_comm b2), (lor_shift b1 8 b2), lor_shift by lia. lia.
Qed.

(** Every letter stands for its number, in the three tables, and is no padding. *)
Definition letter_ok (i : Z) : Prop :=
  let c := nth (Z.to_nat i) B64_ALPHABET 0%Z in
  sextet c = Some (i, 0) ∧ idx c = Some i ∧ nth (Z.to_nat c) build_table (-1)%Z = i
  ∧ (c =? PAD)%Z = false ∧ is_ascii_whitespace c = false ∧ is_whitespace c = false ∧ (0 <= c < 128)%Z.
#[local] Instance letter_ok_dec i : Decision (letter_ok i).
Proof. unfold letter_ok. apply _. Defined.

Lemma letter_all i : letter_ok (i mod 64).
Proof.
  assert (Forall letter_ok (seqZ 0 64)) as H by (refine (bool_decide_unpack _ _); by vm_compute).
  rewrite Forall_forall in H. apply H, elem_of_seqZ. pose proof (Z.mod_pos_bound i 64). lia.
Qed.

Lemma letter_eq i : letter i = nth (Z.to_nat (i mod 64)) B64_ALPHABET 0%Z.
Proof. unfold letter. change 63%Z with (Z.ones 6). by rewrite Z.land_ones by lia. Qed.

Lemma sextet_letter i : sextet (letter i) = Some ((i mod 64)%Z, 0).
Proof. rewrite letter_eq. by destruct (letter_all i) as (-> & _). Qed.
Lemma idx_letter i : idx (letter i) = Some (i mod 64)%Z.
Proof. rewrite letter_eq. by destruct (letter_all i) as (_ & -> & _). Qed.
Lemma table_letter i : nth (Z.to_nat (letter i)) build_table (-1)%Z = (i mod 64)%Z.
Proof. rewrite letter_eq. by destruct (letter_all i) as (_ & _ & -> & _). Qed.
Lemma letter_not_pad i : (letter i =? PAD)%Z = false.
Proof. rewrite letter_eq. by destruct (letter_all i) as (_ & _ & _ & -> & _). Qed.

(** A number of 24 bits, as four sextets and as three octets. *)
Definition is_triple (n : Z) : Prop := (0 <= n < 16777216)%Z.

Lemma sextets_triple n : is_triple n →
  Z.lor (Z.lor (Z.lor (Z.shiftl (Z.shiftr n 18 mod 64) 18) (Z.shiftl (Z.shiftr n 12 mod 64) 12))
           (Z.shiftl (Z.shiftr n 6 mod 64) 6)) (n mod 64) = n.
Proof.
  intros Hn. unfold is_triple in Hn. rewrite !Z.shiftr_div_pow2 by lia.
  change (2 ^ 18)%Z with 262144%Z. change (2 ^ 12)%Z with 4096%Z. change (2 ^ 6)%Z with 64%Z.
  rewrite <- !Z.lor_assoc.
  rewrite (lor_shift _ 6), (lor_shift _ 12), (lor_shift _ 18);
    Z.to_euclidean_division_equations; lia.
Qed.

Lemma octet n k : (0 <= k)%Z → Z.land (Z.shiftr n k) 255 = (n / 2 ^ k mod 256)%Z.
Proof.
  intros. change 255%Z with (Z.ones 8). by rewrite Z.land_ones, Z.shiftr_div_pow2 by lia.
Qed.
Lemma octet0 n : Z.land n 255 = (n mod 256)%Z.
Proof. change 255%Z with (Z.ones 8). by rewrite Z.land_ones by lia. Qed.

Lemma triples_ind (P : list Z → Prop) :
  P [] → (∀ a, P [a]) → (∀ a b, P [a; b]) → (∀ a b c l, P l → P (a :: b :: c :: l)) → ∀ l, P l.
Proof.
  intros H0 H1 H2 H3. refine (fix go l := match l with
    | a :: b :: c :: l' => H3 a b c l' (go l') | [a; b] => H2 a b | [a] => H1 a | [] => H0 end).
Qed.

(** The four letters of a number of 24 bits, and what each decoder makes of
    them: three octets, or fewer where letters are padding. *)
Definition quad (n : Z) : list Z := [letter (Z.shiftr n 18); letter (Z.shiftr n 12); letter (Z.shiftr n 6); letter n].

Lemma decode_quad n : is_triple n →
  decode_chunk (letter (Z.shiftr n 18)) (letter (Z.shiftr n 12)) (letter (Z.shiftr n 6)) (letter n)
  = Some [n / 65536 mod 256; n / 256 mod 256; n mod 256]%Z.
Proof.
  intros Hn. unfold decode_chunk. rewrite !sextet_letter. cbn [mbind option_bind].
  by rewrite sextets_triple, !octet, octet0 by done.
Qed.

Lemma decode_triple_pad n : is_triple n → (n mod 64 = 0)%Z →
  decode_chunk (letter (Z.shiftr n 18)) (letter (Z.shiftr n 12)) (letter (Z.shiftr n 6)) PAD
  = Some [n / 65536 mod 256; n / 256 mod 256]%Z.
Proof.
  intros Hn H0. pose proof (sextets_triple n Hn) as E. rewrite H0 in E. unfold decode_chunk.
  rewrite !sextet_letter. change (sextet PAD) with (Some (0%Z, 1)). cbn [mbind option_bind].
  by rewrite E, !octet by done.
Qed.

Lemma decode_pair_pad n : is_triple n → (n mod 4096 = 0)%Z →
  decode_chunk (letter (Z.shiftr n 18)) (letter (Z.shiftr n 12)) PAD PAD = Some [n / 65536 mod 256]%Z.
Proof.
  intros Hn H0. pose proof (sextets_triple n Hn) as E.
  assert (Z.shiftr n 6 mod 64 = 0 ∧ n mod 64 = 0)%Z as [H6 H1].
  { rewrite Z.shiftr_div_pow2 by lia. change (2 ^ 6)%Z with 64%Z.
    Z.to_euclidean_division_equations; lia. }
  rewrite H6, H1 in E. unfold decode_chunk.
  rewrite !sextet_letter. change (sextet PAD) with (Some (0%Z, 1)). cbn [mbind option_bind].
  by rewrite E, !octet by done.
Qed.

(** The accumulating decoders shift in one sextet; the bits above it are those
    of before, as far as the register holds them. *)
Lemma push_low buf v k : (0 <= v < 64)%Z → (0 <= k <= 26)%Z →
  (Z.lor (Z.shiftl buf 6 mod U32_MOD) v mod 2 ^ (k + 6) = (buf mod 2 ^ k) * 64 + v)%Z.
Proof.
  intros Hv Hk. assert (Z.shiftl buf 6 mod U32_MOD = Z.shiftl (buf mod 2 ^ 26) 6)%Z as ->.
  { rewrite !Z.shiftl_mul_pow2 by lia. change U32_MOD with (2 ^ 26 * 2 ^ 6)%Z.
    by rewrite Z.mul_mod_distr_r by lia. }
  rewrite lor_shift, Z.pow_add_r by lia. change (2 ^ 6)%Z with 64%Z.
  assert (0 < 2 ^ k)%Z by (apply Z.pow_pos_nonneg; lia).
  rewrite (Z.mul_comm (2 ^ k)), Z.rem_mul_r by lia.
  assert (((buf mod 2 ^ 26 * 64 + v) mod 64 = v) ∧ ((buf mod 2 ^ 26 * 64 + v) / 64 = buf mod 2 ^ 26))%Z
    as [-> ->] by (generalize (buf mod 2 ^ 26)%Z; intros; Z.to_euclidean_division_equations; lia).
  rewrite <- (Znumtheory.Zmod_div_mod (2 ^ k) (2 ^ 26)); [lia|done|done|].
  exists (2 ^ (26 - k))%Z. rewrite <- Z.pow_add_r by lia. f_equal. lia.
Qed.

(** Several sextets in a row, which is what both loops do with letters. *)
Fixpoint push_all (ks : list Z) (buf bits : Z) : Z * Z * list Z :=
  match ks with
  | [] => (buf, bits, [])
  | i :: ks =>
      let '(buf, bits, out) := push_sextet buf bits (i mod 64) in
      let '(buf, bits, out') := push_all ks buf bits in (buf, bits, out ++ out')
  end.

Lemma bridge_letters ks rest buf bits :
  bridge_loop (map letter ks ++ rest) buf bits
  = let '(buf, bits, out) := push_all ks buf bits in app out <$> bridge_loop rest buf bits.
Proof.
  revert buf bits. induction ks as [|i ks IH]; intros buf bits; cbn [map app push_all bridge_loop].
  { by destruct (bridge_loop rest buf bits). }
  rewrite letter_not_pad, idx_letter. cbn [mbind option_bind].
  destruct (push_sextet buf bits (i mod 64)) as [[buf1 bits1] out1]. rewrite IH.
  destruct (push_all ks buf1 bits1) as [[buf2 bits2] out2].
  destruct (bridge_loop rest buf2 bits2); simpl; [|done]. by rewrite app_assoc.
Qed.

Lemma guest_letters ks rest buf bits padding :
  guest_loop (map letter ks ++ rest) buf bits padding
  = let '(buf, bits, out) := push_all ks buf bits in
    '(l, p) ← guest_loop rest buf bits padding; Some (out ++ l, p).
Proof.
  revert buf bits. induction ks as [|i ks IH]; intros buf bits; cbn [map app push_all guest_loop].
  { by destruct (guest_loop rest buf bits padding) as [[]|]. }
  rewrite letter_not_pad, table_letter. pose proof (Z.mod_pos_bound i 64 ltac:(lia)).
  destruct (Z.ltb_spec (i mod 64) 0); [lia|].
  destruct (push_sextet buf bits (i mod 64)) as [[buf1 bits1] out1]. rewrite IH.
  destruct (push_all ks buf1 bits1) as [[buf2 bits2] out2].
  destruct (guest_loop rest buf2 bits2 padding) as [[l p]|]; simpl; [|done]. by rewrite app_assoc.
Qed.

(** The low bits after a sextet, and the octet that comes out. *)
Lemma push_spec buf bits i r : (0 <= bits <= 6)%Z → (buf mod 2 ^ bits = r)%Z →
  let x := (r * 64 + i mod 64)%Z in
  ∃ buf', push_sextet buf bits (i mod 64)
          = (if (2 <=? bits)%Z then (buf', bits - 2, [x / 2 ^ (bits - 2) mod 256])%Z else (buf', bits + 6, [])%Z)
          ∧ (buf' mod 2 ^ (bits + 6) = x)%Z.
Proof.
  intros Hb Hr x. pose proof (Z.mod_pos_bound i 64 ltac:(lia)) as Hi.
  pose proof (push_low buf (i mod 64) bits Hi ltac:(lia)) as Hl. rewrite Hr in Hl. fold x in Hl.
  unfold push_sextet. set (b := Z.lor _ _) in *. exists b. split; [|done].
  destruct (Z.leb_spec 2 bits); [rewrite (proj2 (Z.leb_le 8 _)) by lia|by rewrite (proj2 (Z.leb_gt 8 _)) by lia].
  replace (bits + 6 - 8)%Z with (bits - 2)%Z by lia. rewrite octet by lia. do 2 f_equal.
  rewrite <- Hl. replace (bits + 6)%Z with ((bits - 2) + 8)%Z by lia.
  rewrite Z.pow_add_r by lia. change (2 ^ 8)%Z with 256%Z.
  assert (0 < 2 ^ (bits - 2))%Z by (apply Z.pow_pos_nonneg; lia).
  rewrite Z.rem_mul_r, Z.add_comm, (Z.mul_comm (2 ^ (bits - 2))), Z.div_add_l by lia.
  pose proof (Z.mod_pos_bound b (2 ^ (bits - 2)) ltac:(lia)).
  by rewrite (Z.div_small (_ mod _)), Z.add_0_r, Z.mod_mod by lia.
Qed.

Lemma low_bits a k j x : (0 <= j <= k)%Z → (a mod 2 ^ k = x → a mod 2 ^ j = x mod 2 ^ j)%Z.
Proof.
  intros Hj <-. rewrite <- (Znumtheory.Zmod_div_mod (2 ^ j) (2 ^ k)); [done|apply Z.pow_pos_nonneg; lia..|].
  exists (2 ^ (k - j))%Z. rewrite <- Z.pow_add_r by lia. f_equal. lia.
Qed.

(** Reduces an equation of two steps that emit one octet to that of the octets. *)
Ltac one_octet :=
  match goal with |- (_, [?a]) = (_, [?b]) => replace a with b; [done|] end;
  Z.to_euclidean_division_equations; lia.

(** The first two, three and four sextets of a number of 24 bits. *)
Lemma push_pair n buf : is_triple n → ∃ buf',
  push_all [Z.shiftr n 18; Z.shiftr n 12] buf 0 = (buf', 4%Z, [n / 65536 mod 256]%Z)
  ∧ (buf' mod 2 ^ 4 = n / 4096 mod 16)%Z.
Proof.
  intros Hn. rewrite !Z.shiftr_div_pow2 by lia. change (2 ^ 18)%Z with 262144%Z.
  change (2 ^ 12)%Z with 4096%Z. cbn [push_all]. unfold is_triple in Hn.
  destruct (push_spec buf 0 (n / 262144) 0 ltac:(lia)) as (b1 & -> & H1); [by rewrite Z.mod_1_r|].
  change (0 + 6)%Z with 6%Z in *. cbn [Z.leb Z.compare Pos.compare Pos.compare_cont].
  destruct (push_spec b1 6 (n / 4096) _ ltac:(lia) H1) as (b2 & -> & H2). cbn [Z.leb Z.compare Pos.compare Pos.compare_cont app].
  apply (low_bits _ _ 4) in H2; [|lia]. exists b2. change (6 - 2)%Z with 4%Z. split.
  - change (2 ^ 4)%Z with 16%Z. one_octet.
  - rewrite H2. change (2 ^ 4)%Z with 16%Z. Z.to_euclidean_division_equations; lia.
Qed.

Lemma push_third n buf : is_triple n → (buf mod 2 ^ 4 = n / 4096 mod 16)%Z → ∃ buf',
  push_sextet buf 4 (Z.shiftr n 6 mod 64) = (buf', 2%Z, [n / 256 mod 256]%Z)
  ∧ (buf' mod 2 ^ 2 = n / 64 mod 4)%Z.
Proof.
  intros Hn Hb. rewrite Z.shiftr_div_pow2 by lia. change (2 ^ 6)%Z with 64%Z.
  destruct (push_spec buf 4 (n / 64) _ ltac:(lia) Hb) as (b & -> & H). cbn [Z.leb Z.compare Pos.compare Pos.compare_cont].
  apply (low_bits _ _ 2) in H; [|lia]. exists b. change (4 - 2)%Z with 2%Z. change (2 ^ 2)%Z with 4%Z in *.
  split; [one_octet|]. rewrite H. Z.to_euclidean_division_equations; lia.
Qed.

Lemma push_fourth n buf : is_triple n → (buf mod 2 ^ 2 = n / 64 mod 4)%Z → ∃ buf',
  push_sextet buf 2 (n mod 64) = (buf', 0%Z, [n mod 256]%Z).
Proof.
  intros Hn Hb. destruct (push_spec buf 2 n _ ltac:(lia) Hb) as (b & -> & H). cbn [Z.leb Z.compare Pos.compare Pos.compare_cont].
  exists b. change (2 - 2)%Z with 0%Z. rewrite Z.pow_0_r, Z.div_1_r.
  one_octet.
Qed.

Lemma push_triple n buf : is_triple n → ∃ buf',
  push_all [Z.shiftr n 18; Z.shiftr n 12; Z.shiftr n 6] buf 0
  = (buf', 2%Z, [n / 65536 mod 256; n / 256 mod 256]%Z) ∧ (buf' mod 2 ^ 2 = n / 64 mod 4)%Z.
Proof.
  intros Hn. destruct (push_pair n buf Hn) as (b1 & H1 & L1).
  destruct (push_third n b1 Hn L1) as (b2 & H2 & L2). exists b2. split; [|done].
  cbn [push_all] in *. destruct (push_sextet buf 0 _) as [[c k] o].
  destruct (push_sextet c k _) as [[c' k'] o']. injection H1 as -> -> H1. rewrite H2.
  rewrite app_nil_r in H1. cbn [app]. by rewrite app_assoc, H1.
Qed.

Lemma push_quad n buf : is_triple n → ∃ buf',
  push_all [Z.shiftr n 18; Z.shiftr n 12; Z.shiftr n 6; n] buf 0
  = (buf', 0%Z, [n / 65536 mod 256; n / 256 mod 256; n mod 256]%Z).
Proof.
  intros Hn. destruct (push_triple n buf Hn) as (b1 & H1 & L1).
  destruct (push_fourth n b1 Hn L1) as (b2 & H2). exists b2.
  cbn [push_all] in *. destruct (push_sextet buf 0 _) as [[c k] o].
  destruct (push_sextet c k _) as [[c' k'] o']. destruct (push_sextet c' k' _) as [[c'' k''] o''].
  injection H1 as -> -> H1. rewrite H2. rewrite app_nil_r in H1. cbn [app].
  by rewrite (app_assoc o'), (app_assoc o), H1.
Qed.

(** The encoder's output. *)
Lemma triple_ok b0 b1 b2 : is_byte b0 → is_byte b1 → is_byte b2 → is_triple (triple b0 b1 b2).
Proof. intros H0 H1 H2. unfold is_triple. rewrite triple_eq by done. unfold is_byte in *. lia. Qed.

Lemma triple_octets b0 b1 b2 : is_byte b0 → is_byte b1 → is_byte b2 →
  let n := triple b0 b1 b2 in
  (n / 65536 mod 256 = b0 ∧ n / 256 mod 256 = b1 ∧ n mod 256 = b2)%Z.
Proof.
  intros H0 H1 H2. cbv zeta. rewrite triple_eq by done. unfold is_byte in *.
  split_and!; Z.to_euclidean_division_equations; lia.
Qed.

Lemma encode_length input : length (base64_encode input) mod 4 = 0.
Proof.
  induction input as [|a|a b|a b c l IH] using triples_ind; [done..|]. cbn [base64_encode length].
  replace (S (S (S (S _)))) with (1 * 4 + length (base64_encode l)) by lia.
  by rewrite Nat.Div0.add_mod, Nat.Div0.mod_mul, IH.
Qed.

Definition plain_char (c : Z) : Prop :=
  is_ascii_whitespace c = false ∧ is_whitespace c = false ∧ (0 <= c < 128)%Z.
Lemma letter_plain i : plain_char (letter i).
Proof. rewrite letter_eq. by destruct (letter_all i) as (_ & _ & _ & _ & ? & ? & ?). Qed.
Lemma pad_plain : plain_char PAD.
Proof. by vm_compute. Qed.
Lemma encode_plain input : Forall plain_char (base64_encode input).
Proof.
  induction input as [|a|a b|a b c l IH] using triples_ind; cbn [base64_encode];
    repeat (apply Forall_cons_2; [first [apply letter_plain|apply pad_plain]|]); done.
Qed.

Lemma decode_encode input : Forall is_byte input → decode_chunks (base64_encode input) = Some input.
Proof.
  assert (is_byte 0) as H0 by (unfold is_byte; lia).
  induction input as [|a|a b|a b c l IH] using triples_ind; rewrite ?Forall_cons; [done| | |].
  - intros [Ha _]. cbn [base64_encode decode_chunks].
    rewrite decode_pair_pad; [|by apply triple_ok|].
    + by destruct (triple_octets a 0 0) as (-> & _).
    + rewrite triple_eq by done. Z.to_euclidean_division_equations; lia.
  - intros (Ha & Hb & _). cbn [base64_encode decode_chunks].
    rewrite decode_triple_pad; [|by apply triple_ok|].
    + by destruct (triple_octets a b 0) as (-> & -> & _).
    + rewrite triple_eq by done. Z.to_euclidean_division_equations; lia.
  - intros (Ha & Hb & Hc & Hl). cbn [base64_encode decode_chunks].
    rewrite decode_quad by (by apply triple_ok). cbn [mbind option_bind]. rewrite IH by done.
    by destruct (triple_octets a b c) as (-> & -> & ->).
Qed.

Lemma encode_triple a b c l :
  base64_encode (a :: b :: c :: l)
  = map letter [Z.shiftr (triple a b c) 18; Z.shiftr (triple a b c) 12; Z.shiftr (triple a b c) 6; triple a b c]
    ++ base64_encode l.
Proof. done. Qed.
Lemma encode_two a b :
  base64_encode [a; b]
  = map letter [Z.shiftr (triple a b 0) 18; Z.shiftr (triple a b 0) 12; Z.shiftr (triple a b 0) 6] ++ [PAD].
Proof. done. Qed.
Lemma encode_one a :
  base64_encode [a] = map letter [Z.shiftr (triple a 0 0) 18; Z.shiftr (triple a 0 0) 12] ++ [PAD; PAD].
Proof. done. Qed.

Lemma bridge_encode input buf :
  Forall is_byte input → bridge_loop (base64_encode input) buf 0 = Some input.
Proof.
  assert (is_byte 0) as H0 by (unfold is_byte; lia).
  revert buf. induction input as [|a|a b|a b c l IH] using triples_ind; intros buf; rewrite ?Forall_cons;
    [done| | |].
  - intros [Ha _]. rewrite encode_one, bridge_letters.
    destruct (push_pair (triple a 0 0) buf) as (b1 & -> & _); [by apply triple_ok|].
    by destruct (triple_octets a 0 0) as (-> & _).
  - intros (Ha & Hb & _). rewrite encode_two, bridge_letters.
    destruct (push_triple (triple a b 0) buf) as (b1 & -> & _); [by apply triple_ok|].
    by destruct (triple_octets a b 0) as (-> & -> & _).
  - intros (Ha & Hb & Hc & Hl). rewrite encode_triple, bridge_letters.
    destruct (push_quad (triple a b c) buf) as (b1 & ->); [by apply triple_ok|]. rewrite IH by done.
    by destruct (triple_octets a b c) as (-> & -> & ->).
Qed.

Lemma guest_encode input buf :
  Forall is_byte input → ∃ p, p <= 2 ∧ guest_loop (base64_encode input) buf 0 0 = Some (input, p).
Proof.
  assert (is_byte 0) as H0 by (unfold is_byte; lia).
  revert buf. induction input as [|a|a b|a b c l IH] using triples_ind; intros buf; rewrite ?Forall_cons.
  - intros _. exists 0. split; [lia|done].
  - intros [Ha _]. rewrite encode_one, guest_letters.
    destruct (push_pair (triple a 0 0) buf) as (b1 & -> & _); [by apply triple_ok|].
    exists 2. by destruct (triple_octets a 0 0) as (-> & _).
  - intros (Ha & Hb & _). rewrite encode_two, guest_letters.
    destruct (push_triple (triple a b 0) buf) as (b1 & -> & _); [by apply triple_ok|].
    exists 1. split; [lia|]. by destruct (triple_octets a b 0) as (-> & -> & _).
  - intros (Ha & Hb & Hc & Hl). rewrite encode_triple, guest_letters.
    destruct (push_quad (triple a b c) buf) as (b1 & ->); [by apply triple_ok|].
    destruct (IH b1 Hl) as (p & Hp & ->). exists p. split; [done|].
    by destruct (triple_octets a b c) as (-> & -> & ->).
Qed.

Lemma base64_decodes_host input : Forall is_byte input → base64_decode (base64_encode input) = Some input.
Proof. intros H. unfold base64_decode. rewrite encode_length. by apply decode_encode. Qed.

Lemma bridge_decodes input : Forall is_byte input → bridge_decode (base64_encode input) = Some input.
Proof.
  intros H. unfold bridge_decode. rewrite (filter_all (λ b, negb (is_ascii_whitespace b))).
  - by apply bridge_encode.
  - eapply Forall_impl; [apply encode_plain|]. by intros c (-> & _).
Qed.

Lemma base64_decodes input : Forall is_byte input → guest_decode (base64_encode input) = Some input.
Proof.
  intros H. pose proof (encode_plain input) as Hp. unfold guest_decode. rewrite trim_no_whitespace, as_bytes_ascii.
  - destruct (guest_encode input 0 H) as (p & Hl & ->). cbn [mbind option_bind].
    by rewrite (proj2 (Nat.ltb_ge 2 p)) by lia.
  - eapply Forall_impl; [done|]. by intros c (_ & _ & ?).
  - eapply Forall_impl; [done|]. by intros c (_ & ? & _).
Qed.

(** ** Properties *)

(** Each of the three decoders (the host's for what plugins write, the
    preview bridge's and the plugin kit's) gives back the bytes that were
    encoded. *)
Theorem base64_round_trip input :
  Forall is_byte input →
  base64_decode (base64_encode input) = Some input
  ∧ bridge_decode (base64_encode input) = Some input
  ∧ guest_decode (base64_encode input) = Some input.
Proof. intros H. split_and!; [by apply base64_decodes_host|by apply bridge_decodes|by apply base64_decodes]. Qed.

Lemma base64_round_trip_witness :
  Forall is_byte [104; 105; 255; 0]%Z
  ∧ base64_decode (base64_encode [104; 105; 255; 0]%Z) = Some [104; 105; 255; 0]%Z
  ∧ bridge_decode (base64_encode [104; 105; 255; 0]%Z) = Some [104; 105; 255; 0]%Z
  ∧ guest_decode (base64_encode [104; 105; 255; 0]%Z) = Some [104; 105; 255; 0]%Z.
Proof.
  assert (Forall is_byte [104; 105; 255; 0]%Z) as H by (repeat constructor; done).
  split; [done|]. by apply base64_round_trip.
Defined.

(** The decoders differ off the encoder's range: padding in the middle is
    refused by none of them, and only the host counts characters. *)
Example padding_in_the_middle :
  base64_decode (lit "A=BC") = Some [0; 0]%Z ∧ base64_decode (lit "====") = Some [0]%Z
  ∧ bridge_decode (lit "AAAA=!!!") = Some [0; 0; 0]%Z ∧ guest_decode (lit "A=AA") = Some [0; 0]%Z
  ∧ base64_decode (lit "AAA") = None ∧ bridge_decode (lit "AAA") = Some [0; 0]%Z.
Proof. by vm_compute. Qed.

End Base64.

(** ** Frames *)

Module Transport.

Notation bytes := (list Z) (only parsing).

Definition MAX_PAYLOAD_BYTES : Z := (16 * 1024 * 1024)%Z.
Definition CONTENT_LENGTH_HEADER : text := lit "Content-Length:".
Definition CR : Z := 13%Z.
Definition LF : Z := 10%Z.
Definition HEADER_TERMINATOR : bytes := [CR; LF; CR; LF].

(** The kinds of [io::Error] the codecs raise. *)
Inductive FrameError : Type :=
| TooLarge (n : Z)
| BadHeader
| BadContentLength
| MissingContentLength
| BadJson (e : string)
| EofInHeader
| HeaderTooLong
| EofInBody.

(** [find_subslice]; [i] is the index of [haystack]. *)
Fixpoint find_from (haystack needle : bytes) (i : nat) : option nat :=
  if starts_with haystack needle then Some i
  else match haystack with [] => None | _ :: h => find_from h needle (S i) end.
Definition find_subslice (haystack needle : bytes) : option nat :=
  match needle with [] => None | _ => find_from haystack needle 0 end.

(** [str::split] on CRLF; [acc] is the line read so far. *)
Fixpoint split_crlf (acc s : text) : list text :=
  match s with
  | [] => [acc]
  | c :: s' =>
      match s' with
      | d :: s'' => if ((c =? CR) && (d =? LF))%Z then acc :: split_crlf [] s'' else split_crlf (acc ++ [c]) s'
      | [] => [acc ++ [c]]
      end
  end.

(** [str::split_once] on one character. *)
Fixpoint split_once (sep : Z) (s : text) : option (text * text) :=
  match s with
  | [] => None
  | c :: s' => if (c =? sep)%Z then Some ([], s')
               else '(a, b) ← split_once sep s'; Some (c :: a, b)
  end.

Definition eq_ignore_ascii_case (a b : text) : bool :=
  bool_decide (map to_ascii_lowercase a = map to_ascii_lowercase b).

(** [parse_content_length]: the first line of that name decides. *)
Fixpoint content_length_of (ls : list text) : result Z FrameError :=
  match ls with
  | [] => Err MissingContentLength
  | l :: ls =>
      match split_once 58%Z (trim l) with
      | Some (name, value) =>
          if eq_ignore_ascii_case name (lit "Content-Length") then
            match parse_usize (trim value) with Some n => Ok n | None => Err BadContentLength end
          else content_length_of ls
      | None => content_length_of ls
      end
  end.
Definition parse_content_length (header_block : text) : result Z FrameError :=
  content_length_of (split_crlf [] header_block).

(** What precedes a body of [n] bytes. *)
Definition header_for (n : nat) : text := CONTENT_LENGTH_HEADER ++ 32%Z :: show_nat (Z.of_nat n).

Section codec.
(** [serde_json::to_vec] and [serde_json::from_slice]. *)
Context (to_vec : json → bytes) (from_slice : bytes → result json string).

(** [Encoder::encode]: the frame appended to [dst]. *)
Definition encode (item : json) (dst : bytes) : result bytes FrameError :=
  let body := to_vec item in
  if (MAX_PAYLOAD_BYTES <? Z.of_nat (length body))%Z then Err (TooLarge (Z.of_nat (length body)))
  else Ok (dst ++ as_bytes (header_for (length body)) ++ HEADER_TERMINATOR ++ body).

(** [expected_body_len]. *)
Notation Codec := (option Z).

(** The header part of [Decoder::decode]: [None] when more bytes are needed. *)
Definition decode_header (src : bytes) : result (option (Z * bytes)) FrameError :=
  match find_subslice src HEADER_TERMINATOR with
  | None => Ok None
  | Some header_end =>
      match from_utf8 (take header_end src) with
      | None => Err BadHeader
      | Some header_str =>
          rbind (parse_content_length header_str) (λ body_len,
            if (MAX_PAYLOAD_BYTES <? body_len)%Z then Err (TooLarge body_len)
            else Ok (Some (body_len, drop (header_end + length HEADER_TERMINATOR) src)))
      end
  end.

(** The body part. *)
Definition decode_body (body_len : Z) (src : bytes) : result (option json) FrameError * Codec * bytes :=
  if (Z.of_nat (length src) <? body_len)%Z then (Ok None, Some body_len, src)
  else
    let n := Z.to_nat body_len in
    (match from_slice (take n src) with Ok v => Ok (Some v) | Err e => Err (BadJson e) end, None, drop n src).

Definition decode (expected : Codec) (src : bytes) : result (option json) FrameError * Codec * bytes :=
  match expected with
  | Some body_len => decode_body body_len src
  | None =>
      match decode_header src with
      | Err e => (Err e, None, src)
      | Ok None => (Ok None, None, src)
      | Ok (Some (body_len, src)) => decode_body body_len src
      end
  end.

(** [Framed] as a stream: after each read, [decode] until it asks for more or
    fails. *)
Fixpoint drain (fuel : nat) (expected : Codec) (src : bytes) (out : list json)
    : list json * result (Codec * bytes) FrameError :=
  match fuel with
  | 0 => (out, Ok (expected, src))
  | S fuel =>
      match decode expected src with
      | (Ok (Some v), expected, src) => drain fuel expected src (out ++ [v])
      | (Ok None, expected, src) => (out, Ok (expected, src))
      | (Err e, _, _) => (out, Err e)
      end
  end.

Definition feed (s : list json * result (Codec * bytes) FrameError) (chunk : bytes)
    : list json * result (Codec * bytes) FrameError :=
  match s.2 with
  | Ok (expected, src) => drain (2 + length (src ++ chunk)) expected (src ++ chunk) s.1
  | Err _ => s
  end.
Definition feed_all (chunks : list bytes) : list json * result (Codec * bytes) FrameError :=
  foldl feed ([], Ok (None, [])) chunks.
End codec.

(** ** Lemmas *)
Lemma find_from_skip h r i : CR ∉ h → find_from (h ++ r) HEADER_TERMINATOR i = find_from r HEADER_TERMINATOR (i + length h).
Proof.
  revert i. induction h as [|c h IH]; intros i Hc; cbn [app length]; [by rewrite Nat.add_0_r|].
  apply not_elem_of_cons in Hc as [Hc Hh]. cbn [find_from].
  assert (starts_with (c :: h ++ r) HEADER_TERMINATOR = false) as ->.
  { apply not_true_iff_false. intros [t Ht]%starts_with_spec. by injection Ht as ->. }
  rewrite IH by done. f_equal. lia.
Qed.

Lemma find_from_here r i : find_from (HEADER_TERMINATOR ++ r) HEADER_TERMINATOR i = Some i.
Proof.
  assert (starts_with (HEADER_TERMINATOR ++ r) HEADER_TERMINATOR = true) as H
    by (apply starts_with_spec; by exists r).
  change (HEADER_TERMINATOR ++ r) with (CR :: ([LF; CR; LF] ++ r)) in *. cbn [find_from]. by rewrite H.
Qed.

(** A strict prefix of a header with its terminator holds no terminator. *)
Lemma find_in_part h p q : CR ∉ h → h ++ HEADER_TERMINATOR = p ++ q → q ≠ [] →
  find_subslice p HEADER_TERMINATOR = None.
Proof.
  intros Hc E Hq. change (find_from p HEADER_TERMINATOR 0 = None).
  assert (∀ k, find_from (take k HEADER_TERMINATOR) HEADER_TERMINATOR (0 + length h) = None ∨ 4 <= k) as Ht.
  { intros [|[|[|[|k]]]]; [left; done..|right; lia]. }
  assert (p = take (length p) (h ++ HEADER_TERMINATOR)) as Hp by (by rewrite E, take_app_length).
  rewrite Hp. rewrite take_app. destruct (Nat.le_gt_cases (length p) (length h)) as [Hl|Hl].
  - replace (length p - length h) with 0 by lia. rewrite find_from_skip.
    + destruct (Ht 0) as [H|H]; [|lia]. rewrite length_take_le by done.
      cbn [take]. by vm_compute.
    + intros Hin. apply Hc. by eapply elem_of_take in Hin as (? & ? & ?); apply list_elem_of_lookup_2 in H.
  - rewrite take_ge by lia. rewrite find_from_skip by done.
    destruct (Ht (length p - length h)) as [H|H]; [done|]. exfalso.
    apply (f_equal length) in E. rewrite !length_app in E. cbn in E.
    destruct q; [done|]. cbn in E. lia.
Qed.

(** Numbers are read back. *)
(** The header of a frame. *)
Lemma digits_plain n : Forall (λ c, is_whitespace c = false) (show_nat n).
Proof.
  eapply Forall_impl; [apply show_nat_digits|]. intros c Hc. unfold is_digit in Hc. unfold is_whitespace.
  rewrite !orb_false_iff, !andb_false_iff, !Z.leb_gt, !Z.eqb_neq. lia.
Qed.

Lemma header_ascii n : Forall (λ c, (0 <= c < 128)%Z) (header_for n).
Proof.
  unfold header_for. apply Forall_app. split; [refine (bool_decide_unpack _ _); by vm_compute|].
  constructor; [lia|]. eapply Forall_impl; [apply show_nat_digits|]. unfold is_digit. simpl. lia.
Qed.

Lemma header_no_cr n : CR ∉ header_for n.
Proof.
  unfold header_for. rewrite not_elem_of_app, not_elem_of_cons. split_and!.
  - by refine (bool_decide_unpack _ _).
  - done.
  - intros H. pose proof (show_nat_digits (Z.of_nat n)) as Hd. rewrite Forall_forall in Hd.
    apply Hd in H. unfold is_digit, CR in H. lia.
Qed.

Lemma split_crlf_line acc s : CR ∉ s → split_crlf acc s = [acc ++ s].
Proof.
  revert acc. induction s as [|c s IH]; intros acc Hs; cbn [split_crlf]; [by rewrite app_nil_r|].
  apply not_elem_of_cons in Hs as [Hc Hs]. destruct s as [|d s]; [done|].
  rewrite (proj2 (Z.eqb_neq c CR)) by congruence. cbn [andb]. rewrite IH by done. by rewrite <- app_assoc.
Qed.

(** A text that starts and ends with other characters than whitespace is its own
    trimming. *)
Lemma trim_bounded c s d : is_whitespace c = false → is_whitespace d = false →
  trim (c :: s ++ [d]) = c :: s ++ [d].
Proof.
  intros Hc Hd. unfold trim. cbn [trim_start]. rewrite Hc.
  assert (reverse (c :: s ++ [d]) = d :: reverse (c :: s)) as ->
    by (change (c :: s ++ [d]) with ((c :: s) ++ [d]); by rewrite reverse_snoc).
  cbn [trim_start]. rewrite Hd, reverse_cons, reverse_involutive. done.
Qed.

Lemma show_nat_last n : ∃ l d, show_nat n = l ++ [d] ∧ is_whitespace d = false.
Proof.
  pose proof (digits_plain n) as H. pose proof (show_nat_nonempty n) as Hne. revert H Hne.
  generalize (show_nat n) as l. intros l H Hne. destruct (exists_last Hne) as (l' & d & ->).
  apply Forall_app in H as [_ H]. exists l', d. split; [done|]. by inversion H.
Qed.

Lemma trim_digits n : trim (32%Z :: show_nat n) = show_nat n.
Proof.
  pose proof (digits_plain n) as H. unfold trim. change (trim_start (32%Z :: show_nat n)) with (trim_start (show_nat n)).
  fold (trim (show_nat n)). by apply trim_no_whitespace.
Qed.

Lemma parse_header n : u64_range (Z.of_nat n) → parse_content_length (header_for n) = Ok (Z.of_nat n).
Proof.
  intros Hn. unfold parse_content_length. rewrite split_crlf_line by apply header_no_cr. cbn [app content_length_of].
  assert (trim (header_for n) = header_for n) as ->.
  { destruct (show_nat_last (Z.of_nat n)) as (l & d & E & Hd). unfold header_for. rewrite E.
    change (CONTENT_LENGTH_HEADER ++ 32%Z :: l ++ [d])
      with (67%Z :: (tail CONTENT_LENGTH_HEADER ++ 32%Z :: l) ++ [d]).
    by apply trim_bounded. }
  change (split_once 58 (header_for n)) with (Some (lit "Content-Length", 32%Z :: show_nat (Z.of_nat n))).
  cbv beta iota zeta. rewrite trim_digits, parse_usize_show by done. done.
Qed.

(** What is sent for one value, header first. *)
Definition frame_of (body : bytes) : bytes := header_for (length body) ++ HEADER_TERMINATOR ++ body.

Definition body_fits (body : bytes) : Prop := (Z.of_nat (length body) <= MAX_PAYLOAD_BYTES)%Z.

Lemma payload_range n : (Z.of_nat n <= MAX_PAYLOAD_BYTES)%Z → u64_range (Z.of_nat n).
Proof. intros H. assert (MAX_PAYLOAD_BYTES < U64_MOD)%Z by done. unfold u64_range. lia. Qed.

Lemma header_found h r : CR ∉ h →
  find_subslice (h ++ HEADER_TERMINATOR ++ r) HEADER_TERMINATOR = Some (length h).
Proof.
  intros Hh. change (find_from (h ++ HEADER_TERMINATOR ++ r) HEADER_TERMINATOR 0 = Some (length h)).
  by rewrite find_from_skip, find_from_here.
Qed.

Lemma decode_header_full n r : (Z.of_nat n <= MAX_PAYLOAD_BYTES)%Z →
  decode_header (header_for n ++ HEADER_TERMINATOR ++ r) = Ok (Some (Z.of_nat n, r)).
Proof.
  intros Hn. unfold decode_header. rewrite header_found by apply header_no_cr.
  rewrite take_app_length, from_utf8_ascii by apply header_ascii.
  rewrite parse_header by (by apply payload_range). cbn [rbind].
  rewrite (proj2 (Z.ltb_ge _ _)) by done. rewrite app_assoc.
  by rewrite <- length_app, drop_app_length.
Qed.

Lemma decode_header_part n p q : header_for n ++ HEADER_TERMINATOR = p ++ q → q ≠ [] →
  decode_header p = Ok None.
Proof. intros E Hq. unfold decode_header. by rewrite (find_in_part _ p q (header_no_cr n) E). Qed.

Section stream.
Context (to_vec : json → bytes) (from_slice : bytes → result json string).

(** A value [serde_json] reads back and the cap lets through. *)
Definition sendable (v : json) : Prop := from_slice (to_vec v) = Ok v ∧ body_fits (to_vec v).

Definition stream (vs : list json) : bytes := concat (map (λ v, frame_of (to_vec v)) vs).

(** The decoder's state against what is still to come: [rest] has not been read,
    and the values [vs] have not been given out. *)
Definition pending (expected : option Z) (src rest : bytes) (vs : list json) : Prop :=
  match expected with
  | None => src ++ rest = stream vs
  | Some n => ∃ v vs', vs = v :: vs' ∧ n = Z.of_nat (length (to_vec v)) ∧ src ++ rest = to_vec v ++ stream vs'
  end.

Lemma app_split {A} (a b c d : list A) : a ++ b = c ++ d →
  (∃ q, c = a ++ q ∧ b = q ++ d ∧ q ≠ []) ∨ (∃ q, a = c ++ q ∧ d = q ++ b).
Proof.
  revert c. induction a as [|x a IH]; intros c E.
  - destruct c as [|y c]; [by right; exists []|]. left. by exists (y :: c).
  - destruct c as [|y c]; [right; by exists (x :: a)|]. injection E as <- E.
    destruct (IH c E) as [(q & -> & -> & Hq)|(q & -> & ->)]; [left; by exists q|right; by exists q].
Qed.

(** The body part, on a value whose header has been read. *)
Lemma decode_body_step v src rest vs : sendable v → src ++ rest = to_vec v ++ stream vs →
  let n := Z.of_nat (length (to_vec v)) in
  (decode_body from_slice n src = (Ok None, Some n, src) ∧ rest ≠ [])
  ∨ ∃ src', decode_body from_slice n src = (Ok (Some v), None, src') ∧ src' ++ rest = stream vs
            ∧ length src' <= length src.
Proof.
  intros [Hj Hf] E n. unfold decode_body. destruct (app_split _ _ _ _ E) as [(q & Ht & -> & Hq)|(q & -> & Hd)].
  - left. subst n. rewrite (proj2 (Z.ltb_lt _ _)).
    + split; [done|]. by destruct q.
    + rewrite Ht, length_app. destruct q; [done|]. simpl. lia.
  - right. subst n. rewrite (proj2 (Z.ltb_ge _ _)) by (rewrite length_app; lia).
    rewrite Nat2Z.id, take_app_length, drop_app_length, Hj. exists q. split; [done|].
    rewrite length_app. split; [done|lia].
Qed.

(** One call of [decode]. *)
Lemma decode_step expected src rest vs : Forall sendable vs → pending expected src rest vs →
  (∃ expected' src', decode from_slice expected src = (Ok None, expected', src')
     ∧ pending expected' src' rest vs ∧ (rest = [] → vs = []))
  ∨ ∃ v vs' src', vs = v :: vs' ∧ decode from_slice expected src = (Ok (Some v), None, src')
      ∧ src' ++ rest = stream vs'
      ∧ length src' + (if expected then 0 else 1) <= length src.
Proof.
  intros Hs Hp. destruct expected as [n|]; cbn [decode pending] in *.
  - destruct Hp as (v & vs' & -> & -> & E). apply Forall_cons in Hs as [Hv Hs].
    destruct (decode_body_step v src rest vs' Hv E) as [[-> Hr]|(src' & -> & E' & Hl)].
    + left. eexists _, _. split; [done|]. split; [|done]. cbn [pending]. eauto.
    + right. exists v, vs', src'. split_and!; [done..|lia].
  - destruct vs as [|v vs'].
    { left. unfold stream in Hp. cbn in Hp. apply app_eq_nil in Hp as [-> ->].
      exists None, []. by split_and!. }
    apply Forall_cons in Hs as [Hv Hs]. pose proof Hp as E. unfold stream in E. cbn [map concat] in E.
    fold (stream vs') in E. unfold frame_of in E. rewrite <- !app_assoc in E.
    rewrite app_assoc in E.
    destruct (app_split _ _ _ _ E) as [(q & Ht & -> & Hq)|(q & -> & Hd)].
    + left. rewrite (decode_header_part _ _ _ Ht Hq). eexists _, _. split; [done|].
      split; [done|]. by destruct q.
    + rewrite <- app_assoc. rewrite decode_header_full by apply Hv.
      destruct (decode_body_step v q rest vs' Hv (eq_sym Hd)) as [[-> Hr]|(src' & -> & E' & Hl)].
      * left. eexists _, _. split; [done|]. split; [|done]. cbn [pending]. eauto.
      * right. exists v, vs', src'. split_and!; [done..|]. rewrite !length_app. simpl. lia.
Qed.

Lemma drain_pending fuel expected src rest vs out :
  Forall sendable vs → pending expected src rest vs →
  length src + (if expected then 1 else 0) < fuel →
  ∃ vs1 vs2 expected' src', vs = vs1 ++ vs2
    ∧ drain from_slice fuel expected src out = (out ++ vs1, Ok (expected', src'))
    ∧ pending expected' src' rest vs2 ∧ (rest = [] → vs2 = []).
Proof.
  revert expected src vs out. induction fuel as [|fuel IH]; intros expected src vs out Hs Hp Hf; [lia|].
  cbn [drain]. destruct (decode_step _ _ _ _ Hs Hp)
    as [(e' & s' & -> & Hp' & Hr)|(v & vs' & s' & -> & -> & Hp' & Hl)].
  - exists [], vs, e', s'. by rewrite app_nil_r.
  - apply Forall_cons in Hs as [_ Hs].
    destruct (IH None s' vs' (out ++ [v]) Hs Hp') as (vs1 & vs2 & e & s & -> & -> & Hp2 & Hr).
    { destruct expected; lia. }
    exists (v :: vs1), vs2, e, s. by rewrite <- app_assoc.
Qed.

Lemma feed_pending chunks expected src vs out :
  Forall sendable vs → pending expected src (concat chunks) vs →
  (concat chunks = [] → vs = []) →
  foldl (feed from_slice) (out, Ok (expected, src)) chunks = (out ++ vs, Ok (None, [])).
Proof.
  revert expected src vs out. induction chunks as [|c cs IH]; intros expected src vs out Hs Hp Hr.
  - rewrite (Hr eq_refl) in *. destruct expected; [by destruct Hp as (? & ? & ? & _)|].
    cbn [pending concat] in Hp. rewrite app_nil_r in Hp. subst src. by rewrite app_nil_r.
  - cbn [foldl]. unfold feed at 2. cbn [fst snd].
    assert (pending expected (src ++ c) (concat cs) vs) as Hp'.
    { destruct expected; cbn [pending concat] in *; [|by rewrite <- app_assoc].
      destruct Hp as (v & vs' & ? & ? & E). exists v, vs'. by rewrite <- app_assoc. }
    destruct (drain_pending (2 + length (src ++ c)) _ _ _ _ out Hs Hp')
      as (vs1 & vs2 & e & s & -> & -> & Hp2 & Hr2); [destruct expected; lia|].
    apply Forall_app in Hs as [_ Hs]. rewrite (IH _ _ vs2) by done. by rewrite app_assoc.
Qed.
End stream.

(** ** Properties *)

(** C22. What the host writes arrives, however the pipe cuts it up: read in any
    pieces, the frames of a sequence of values decode to exactly these values in
    order, and nothing is left over. *)
Theorem frames_survive_chunking to_vec from_slice vs chunks :
  Forall (sendable to_vec from_slice) vs →
  foldl (λ dst v, rbind dst (encode to_vec v)) (Ok []) vs = Ok (concat chunks) →
  feed_all from_slice chunks = (vs, Ok (None, [])).
Proof.
  intros Hs He. assert (concat chunks = stream to_vec vs) as Hc.
  { cut (∀ dst, foldl (λ dst v, rbind dst (encode to_vec v)) (Ok dst) vs = Ok (dst ++ stream to_vec vs)).
    { intros H. rewrite (H []) in He. by injection He. }
    clear He. induction Hs as [|v vs [_ Hv] Hs IH]; intros dst; cbn [foldl rbind]; [by rewrite app_nil_r|].
    unfold encode at 2. rewrite (proj2 (Z.ltb_ge _ _)) by done. rewrite IH.
    rewrite as_bytes_ascii by apply header_ascii. unfold stream at 2. cbn [map concat].
    unfold frame_of. by rewrite <- !app_assoc. }
  unfold feed_all. rewrite (feed_pending to_vec from_slice chunks None [] vs []); [done|done|by symmetry|].
  rewrite Hc. intros H. destruct vs as [|v vs]; [done|]. by destruct (header_for (length (to_vec v))) eqn:E in H.
Qed.

(** The cap is on the body alone: a peer that never ends its header is buffered
    without limit. *)
Lemma headerless_stream_buffers from_slice chunks :
  Forall (λ c, CR ∉ c) chunks → feed_all from_slice chunks = ([], Ok (None, concat chunks)).
Proof.
  intros H. unfold feed_all. cut (∀ src, CR ∉ src →
    foldl (feed from_slice) ([], Ok (None, src)) chunks = ([], Ok (None, src ++ concat chunks))).
  { intros Hc. rewrite Hc; [done|]. apply not_elem_of_nil. }
  induction H as [|c cs Hc Hcs IH]; intros src Hsrc; cbn [foldl concat]; [by rewrite app_nil_r|].
  assert (CR ∉ src ++ c) as Hn by (by rewrite not_elem_of_app).
  unfold feed at 2. cbn [fst snd drain Nat.add]. cbn [decode]. unfold decode_header, find_subslice.
  cbn [HEADER_TERMINATOR]. rewrite <- (app_nil_r (src ++ c)) at 1.
  rewrite find_from_skip by done. cbn. rewrite IH by done. by rewrite <- app_assoc.
Qed.

(** A [serde_json] that knows two values. *)
Module Sim.
Definition to_vec (v : json) : bytes := match v with JNull => lit "null" | _ => lit "true" end.
Definition from_slice (b : bytes) : result json string :=
  if decide (b = lit "null") then Ok JNull
  else if decide (b = lit "true") then Ok (JBool true) else Err "expected value".
Definition wire : bytes := frame_of (lit "null") ++ frame_of (lit "true").
End Sim.

Lemma frames_survive_chunking_witness :
  Forall (sendable Sim.to_vec Sim.from_slice) [JNull; JBool true]
  ∧ foldl (λ dst v, rbind dst (encode Sim.to_vec v)) (Ok []) [JNull; JBool true]
    = Ok (concat [take 18 Sim.wire; take 5 (drop 18 Sim.wire); drop 23 Sim.wire])
  ∧ feed_all Sim.from_slice [take 18 Sim.wire; take 5 (drop 18 Sim.wire); drop 23 Sim.wire]
    = ([JNull; JBool true], Ok (None, [])).
Proof.
  assert (Forall (sendable Sim.to_vec Sim.from_slice) [JNull; JBool true]) as Hs
    by (repeat constructor; unfold body_fits; by vm_compute).
  assert (foldl (λ dst v, rbind dst (encode Sim.to_vec v)) (Ok []) [JNull; JBool true]
    = Ok (concat [take 18 Sim.wire; take 5 (drop 18 Sim.wire); drop 23 Sim.wire])) as He by (by vm_compute).
  split; [done|]. split; [done|]. by apply (frames_survive_chunking Sim.to_vec).
Defined.

End Transport.

(** ** The guest's framing *)

Module Guest.
Import Transport.

Section guest.
Context (to_vec : json → bytes).

(** [write_frame]. *)
Definition write_frame (out : bytes) (body : json) : result bytes FrameError :=
  let bytes := to_vec body in
  if (MAX_PAYLOAD_BYTES <? Z.of_nat (length bytes))%Z then Err (TooLarge (Z.of_nat (length bytes)))
  else Ok (out ++ as_bytes (CONTENT_LENGTH_HEADER ++ 32%Z :: show_nat (Z.of_nat (length bytes)) ++ HEADER_TERMINATOR)
               ++ bytes).
End guest.

(** The header loop of [read_frame], one byte at a time; [headers] is what was
    read, terminator included. *)
Fixpoint read_header (input headers : bytes) : result (option (bytes * bytes)) FrameError :=
  match input with
  | [] => match headers with [] => Ok None | _ => Err EofInHeader end
  | b :: rest =>
      let headers := headers ++ [b] in
      if ends_with headers HEADER_TERMINATOR then Ok (Some (headers, rest))
      else if (16 * 1024 <? Z.of_nat (length headers))%Z then Err HeaderTooLong
      else read_header rest headers
  end.

(** The length the header block gives: the last line with the prefix decides. *)
Definition header_length (header_text : text) : option Z :=
  foldl (λ n line, match strip_prefix CONTENT_LENGTH_HEADER line with
                   | Some rest => parse_usize (trim rest)
                   | None => n
                   end) None (split_crlf [] header_text).

(** [read_frame]: the body and what is left of the input, or the end of it. *)
Definition read_frame (input : bytes) : result (option (bytes * bytes)) FrameError :=
  rbind (read_header input []) (λ r,
    match r with
    | None => Ok None
    | Some (headers, rest) =>
        match from_utf8 headers with
        | None => Err BadHeader
        | Some header_text =>
            match header_length header_text with
            | None => Err MissingContentLength
            | Some len =>
                if (MAX_PAYLOAD_BYTES <? len)%Z then Err (TooLarge len)
                else if (Z.of_nat (length rest) <? len)%Z then Err EofInBody
                else Ok (Some (take (Z.to_nat len) rest, drop (Z.to_nat len) rest))
            end
        end
    end).

(** ** Lemmas *)
Lemma ends_with_spec s suf : ends_with s suf = true ↔ ∃ r, s = r ++ suf.
Proof.
  unfold ends_with. destruct (strip_suffix suf s) as [r|] eqn:E.
  - apply strip_suffix_Some in E. naive_solver.
  - split; [done|]. intros [r Hr]. apply strip_suffix_Some in Hr. congruence.
Qed.

(** Before the terminator is complete, nothing ends with it. *)
Lemma no_terminator h p : CR ∉ h → p ≠ HEADER_TERMINATOR → p `prefix_of` HEADER_TERMINATOR →
  ends_with (h ++ p) HEADER_TERMINATOR = false.
Proof.
  intros Hh Hne [q Hq]. apply not_true_iff_false. intros [r E]%ends_with_spec.
  assert (∀ l : list Z, h = l ++ [CR; LF] ∨ h = l ++ HEADER_TERMINATOR → False) as Hcr.
  { intros l [->| ->]; apply Hh; set_solver. }
  assert (∀ l, last (l ++ HEADER_TERMINATOR) = Some LF) as Hlast.
  { intros l. change HEADER_TERMINATOR with ([CR; LF; CR] ++ [LF]). by rewrite app_assoc, last_snoc. }
  change ([CR; LF; CR; LF] = p ++ q) in Hq.
  destruct p as [|a [|b [|c [|d p]]]]; cbn [app] in Hq; simplify_eq.
  - rewrite app_nil_r in E. by eapply Hcr; right.
  - apply (f_equal last) in E. rewrite last_snoc, Hlast in E. discriminate.
  - change HEADER_TERMINATOR with ([CR; LF] ++ [CR; LF]) in E. rewrite app_assoc in E.
    apply app_inv_tail in E. by eapply Hcr; left.
  - apply (f_equal last) in E. rewrite Hlast in E. change [CR; LF; CR] with ([CR; LF] ++ [CR]) in E.
    rewrite app_assoc, last_snoc in E. discriminate.
  - destruct p; [by destruct Hne|]. discriminate.
Qed.

Lemma read_header_spec h r headers :
  CR ∉ headers → CR ∉ h → (Z.of_nat (length (headers ++ h)) + 4 <= 16 * 1024)%Z →
  read_header (h ++ HEADER_TERMINATOR ++ r) headers = Ok (Some (headers ++ h ++ HEADER_TERMINATOR, r)).
Proof.
  revert headers. induction h as [|c h IH]; intros headers H1 H2 Hl.
  - rewrite app_nil_r in Hl. cbn [app].
    assert (∀ p, p ≠ HEADER_TERMINATOR → p `prefix_of` HEADER_TERMINATOR →
      ends_with (headers ++ p) HEADER_TERMINATOR = false) as He by (intros; by apply no_terminator).
    assert (∀ p : list Z, length p <= 4 → (16 * 1024 <? Z.of_nat (length (headers ++ p)))%Z = false) as Hn.
    { intros p Hp. apply Z.ltb_ge. rewrite length_app. lia. }
    cbn [HEADER_TERMINATOR app read_header].
    rewrite (He [CR]), (Hn [CR]) by (done || (by exists [LF; CR; LF]) || (simpl; lia)).
    rewrite <- (app_assoc headers [CR] [LF]). cbn [app].
    rewrite (He [CR; LF]), (Hn [CR; LF]) by (done || (by exists [CR; LF]) || (simpl; lia)).
    rewrite <- (app_assoc headers [CR; LF] [CR]). cbn [app].
    rewrite (He [CR; LF; CR]), (Hn [CR; LF; CR]) by (done || (by exists [LF]) || (simpl; lia)).
    rewrite <- (app_assoc headers [CR; LF; CR] [LF]). cbn [app].
    by rewrite (proj2 (ends_with_spec _ _)) by (by exists headers).
  - apply not_elem_of_cons in H2 as [Hc H2]. cbn [app read_header].
    assert (CR ∉ headers ++ [c]) as H3 by (rewrite not_elem_of_app, list_elem_of_singleton; done).
    pose proof (no_terminator (headers ++ [c]) [] H3 ltac:(done) ltac:(apply prefix_nil)) as E.
    rewrite app_nil_r in E. rewrite E. rewrite (proj2 (Z.ltb_ge _ _)).
    + rewrite IH; [|done..|by rewrite <- app_assoc]. by rewrite <- !app_assoc.
    + rewrite !length_app in *. cbn [length] in *. lia.
Qed.

Lemma split_crlf_app acc h r : CR ∉ h → split_crlf acc (h ++ CR :: LF :: r) = (acc ++ h) :: split_crlf [] r.
Proof.
  revert acc. induction h as [|c h IH]; intros acc Hh.
  { by rewrite app_nil_r. }
  apply not_elem_of_cons in Hh as [Hc Hh]. cbn [app split_crlf].
  assert (∃ d t, h ++ CR :: LF :: r = d :: t) as (d & t & E) by (destruct h; simpl; eauto).
  rewrite E, (proj2 (Z.eqb_neq c CR)) by congruence. cbn [andb]. rewrite <- E, IH by done.
  by rewrite <- app_assoc.
Qed.

Lemma header_length_of n : u64_range (Z.of_nat n) →
  header_length (header_for n ++ HEADER_TERMINATOR) = Some (Z.of_nat n).
Proof.
  intros Hn. unfold header_length. change HEADER_TERMINATOR with (CR :: LF :: [CR; LF]).
  rewrite split_crlf_app by apply header_no_cr. change (split_crlf [] [CR; LF]) with ([[]; []] : list text).
  cbn [foldl app]. change (strip_prefix CONTENT_LENGTH_HEADER []) with (None : option text). cbv beta iota.
  unfold header_for. rewrite strip_prefix_app. by rewrite trim_digits, parse_usize_show.
Qed.

Lemma header_for_length n : length (header_for n) <= 36.
Proof.
  unfold header_for. rewrite length_app. cbn [length]. pose proof (show_nat_length (Z.of_nat n)).
  change (length CONTENT_LENGTH_HEADER) with 15. lia.
Qed.

(** ** Properties *)

(** The kit in the plugin and the host frame alike: what one writes for a
    value is what the other would, byte for byte or error for error, and the
    plugin's reader takes from a host frame exactly its body and leaves what
    follows it. *)
Theorem framings_agree to_vec out v fr rest :
  write_frame to_vec out v = encode to_vec v out
  ∧ (encode to_vec v [] = Ok fr → read_frame (fr ++ rest) = Ok (Some (to_vec v, rest))).
Proof.
  pose proof (header_ascii (length (to_vec v))) as Ha. split.
  - unfold write_frame, encode. destruct (_ <? _)%Z; [done|]. f_equal. f_equal.
    change (as_bytes (CONTENT_LENGTH_HEADER ++ 32%Z :: show_nat (Z.of_nat (length (to_vec v))) ++ HEADER_TERMINATOR))
      with (as_bytes (header_for (length (to_vec v)) ++ HEADER_TERMINATOR)).
    rewrite !as_bytes_ascii; [by rewrite <- app_assoc|done|].
    apply Forall_app. split; [done|]. by refine (bool_decide_unpack _ _).
  - unfold encode. destruct (Z.ltb_spec MAX_PAYLOAD_BYTES (Z.of_nat (length (to_vec v)))) as [|Hle]; [done|].
    rewrite as_bytes_ascii by done. intros E.
    assert (fr = frame_of (to_vec v)) as -> by (by injection E).
    unfold read_frame, frame_of. rewrite <- !app_assoc.
    rewrite read_header_spec; [|apply not_elem_of_nil|apply header_no_cr|].
    + cbn [rbind app]. rewrite from_utf8_ascii.
      * rewrite header_length_of by (by apply payload_range). rewrite (proj2 (Z.ltb_ge _ _)) by done.
        rewrite (proj2 (Z.ltb_ge _ _)) by (rewrite length_app; lia).
        by rewrite Nat2Z.id, take_app_length, drop_app_length.
      * apply Forall_app. split; [done|]. by refine (bool_decide_unpack _ _).
    + pose proof (header_for_length (length (to_vec v))). cbn [app]. lia.
Qed.

Lemma framings_agree_witness :
  encode Sim.to_vec JNull [] = Ok (frame_of (lit "null"))
  ∧ write_frame Sim.to_vec [] JNull = encode Sim.to_vec JNull []
  ∧ read_frame (frame_of (lit "null") ++ [1; 2]%Z) = Ok (Some (lit "null", [1; 2]%Z)).
Proof.
  assert (encode Sim.to_vec JNull [] = Ok (frame_of (lit "null"))) as E by (by vm_compute).
  destruct (framings_agree Sim.to_vec [] JNull (frame_of (lit "null")) [1; 2]%Z) as [H1 H2].
  split; [done|]. split; [done|]. by apply H2.
Defined.

(** The readers differ where a header names the length twice: the host takes the
    first, the plugin the last; and in other spellings of the name. *)
Example duplicate_length_differs :
  parse_content_length (lit "Content-Length: 4" ++ [CR; LF] ++ lit "Content-Length: 9") = Ok 4%Z
  ∧ header_length (lit "Content-Length: 4" ++ [CR; LF] ++ lit "Content-Length: 9") = Some 9%Z
  ∧ parse_content_length (lit "content-length: 4") = Ok 4%Z
  ∧ header_length (lit "content-length: 4") = None.
Proof. by vm_compute. Qed.

End Guest.
