(* ===== verification/Plugin.v ===== *)
(** * Plugins: manifests, capabilities and the registry

    [crates/sy-filemanager/src/plugin]: the manifest and its validation
    ([manifest.rs]), the [initialize] handshake and the capabilities it settles
    ([capability.rs]), the JSON-RPC error codes ([rpc.rs]), and the registry that
    finds the installed plugins and routes a preview to one of them
    ([registry.rs]). TOML, [serde] and [globset] are parameters. *)

From S2P Require Import Prelude Lists Text Paths Wire.
Import Lists Text Paths Wire.
Local Open Scope string_scope.
Local Open Scope nat_scope.
Local Open Scope list_scope.

Module Rpc.

Definition JSONRPC_VERSION : string := "2.0".
Definition CAP_NOT_GRANTED : Z := (-32099)%Z.
Definition API_VERSION_MISMATCH : Z := (-32098)%Z.
Definition RLIMIT_BREACH : Z := (-32097)%Z.
Definition BAD_PREDICATE : Z := (-32096)%Z.
Definition INVALID_PATH : Z := (-32095)%Z.
Definition FRAME_TOO_LARGE : Z := (-32094)%Z.

Record Request := mkRequest { rq_id : json; rq_method : string; rq_params : json }.

Record ErrorObj := mkErrorObj { eo_code : Z; eo_message : string; eo_data : json }.

Record Response := mkResponse { rs_id : json; rs_result : option json; rs_error : option ErrorObj }.

(** [proc.rs]: what a caller is told. *)
Inductive RpcError : Type :=
| Spawn (s : string)
| Handshake (s : string)
| Peer (code : Z) (message : string) (data : json)
| Transport (s : string)
| Protocol (s : string)
| Unavailable (s : string)
| Timeout (d : Z).

(** [From<ErrorObj>]. *)
Definition peer_error (e : ErrorObj) : RpcError := Peer (eo_code e) (eo_message e) (eo_data e).

End Rpc.

Module Manifest.

Record Signature := mkSignature { sig : string; pubkey : string }.
Record BinarySpec := mkBinarySpec { exec : string; preflight : list string }.
Record PluginMeta := mkPluginMeta {
  id : string; name : string; version : string; description : string; authors : list string;
  license : string; homepage : string; api_min : string; api_max : string;
  binary : BinarySpec; meta_signature : option Signature
}.
Record Capability := mkCapability { kind : string; url : option string; mime : option string }.
#[export] Instance capability_eq_dec : EqDecision Capability.
Proof. solve_decision. Defined.
Record Needs := mkNeeds {
  fs_read : list string; fs_write : list string; preview : list string;
  knowledge : list string; network : list string; needs_exec : list string
}.
Record Limits := mkLimits {
  memory_mb : Z; cpu_seconds : Z; nofile : Z; spawn_timeout_ms : Z; shutdown_timeout_ms : Z
}.
Definition default_limits : Limits := mkLimits 64 30 64 250 1000.
Definition default_needs : Needs := mkNeeds [] [] [] [] [] [].

Record Manifest := mkManifest {
  api : string; plugin : PluginMeta; capabilities : list Capability; needs : Needs;
  limits : Limits; env : list (string * string); signature : option Signature
}.

Section manifest.
(** [toml::from_str::<Manifest>], and [Glob::new]. *)
Context {Glob : Type} (toml_read : string → result Manifest string).
Context (glob_new : string → result Glob string).

(** [url_glob] and [mime_glob]. *)
Definition opt_glob (g : option string) : result (option Glob) string :=
  match g with
  | None => Ok None
  | Some s => rbind (glob_new s) (λ g, Ok (Some g))
  end.
Definition url_glob (c : Capability) : result (option Glob) string := opt_glob (url c).
Definition mime_glob (c : Capability) : result (option Glob) string := opt_glob (mime c).

(** [parse]: the block of [[plugin.signature]] is lifted to the manifest. *)
Definition parse (src : string) : result Manifest string :=
  rbind (toml_read src) (λ m,
    Ok (mkManifest (api m) (plugin m) (capabilities m) (needs m) (limits m) (env m)
          (meta_signature (plugin m)))).

Definition validate_limits (l : Limits) : result unit string :=
  match find (λ nv, (nv.2 =? 0)%Z)
          [("memory_mb", memory_mb l); ("cpu_seconds", cpu_seconds l); ("nofile", nofile l);
           ("spawn_timeout_ms", spawn_timeout_ms l); ("shutdown_timeout_ms", shutdown_timeout_ms l)] with
  | Some (name, _) => Err ("plugin.toml: [limits] " ++ name ++ " must be > 0")%string
  | None => Ok tt
  end.

Fixpoint validate_capabilities (cs : list Capability) : result unit string :=
  match cs with
  | [] => Ok tt
  | c :: cs =>
      if String.eqb (kind c) "" then Err "plugin.toml: capability kind is required"
      else match url c, mime c with
           | None, None => Err "plugin.toml: capability needs at least one of url/mime"
           | _, _ => rbind (url_glob c) (λ _, rbind (mime_glob c) (λ _, validate_capabilities cs))
           end
  end.

Definition validate (m : Manifest) : result unit string :=
  let p := plugin m in
  if String.eqb (api m) "" then Err "plugin.toml: top-level `api` is required"
  else if negb (String.leb (api_min p) (api m) && String.leb (api m) (api_max p)) then
    Err ("plugin.toml: api=" ++ api m ++ " outside [api_min=" ++ api_min p ++ ", api_max=" ++ api_max p ++ "]")%string
  else if String.eqb (id p) "" then Err "plugin.toml: [plugin] id is required"
  else if String.eqb (exec (binary p)) "" then Err "plugin.toml: [plugin.binary] exec is required"
  else rbind (validate_capabilities (capabilities m)) (λ _, validate_limits (limits m)).

Definition load (src : string) : result Manifest string :=
  rbind (parse src) (λ m, rbind (validate m) (λ _, Ok m)).

(** ** Properties *)

(** What the capability rows of an accepted manifest look like. *)
Definition capability_ok (c : Capability) : Prop :=
  kind c ≠ "" ∧ (is_Some (url c) ∨ is_Some (mime c))
  ∧ is_ok (url_glob c) = true ∧ is_ok (mime_glob c) = true.

Lemma validate_capabilities_Ok cs : validate_capabilities cs = Ok tt ↔ Forall capability_ok cs.
Proof.
  induction cs as [|c cs IH]; cbn [validate_capabilities]; [by split|].
  rewrite Forall_cons, <- IH. unfold capability_ok.
  destruct (String.eqb_spec (kind c) ""); [naive_solver|].
  assert (∀ r : result unit string, rbind (url_glob c) (λ _, rbind (mime_glob c) (λ _, r)) = Ok tt
    ↔ is_ok (url_glob c) = true ∧ is_ok (mime_glob c) = true ∧ r = Ok tt) as H.
  { intros r. destruct (url_glob c), (mime_glob c); naive_solver. }
  destruct (url c) as [u|], (mime c) as [m|]; rewrite ?H.
  4:{ split; [done|]. by intros ((_ & [[? ?]|[? ?]] & _) & _). }
  all: assert (∀ (x y : option string) s, x = Some s ∨ y = Some s → is_Some x ∨ is_Some y) as Hs
         by (intros ? ? ? [-> | ->]; eauto); naive_solver.
Qed.

Lemma validate_limits_Ok l :
  validate_limits l = Ok tt
  ↔ (memory_mb l ≠ 0 ∧ cpu_seconds l ≠ 0 ∧ nofile l ≠ 0 ∧ spawn_timeout_ms l ≠ 0 ∧ shutdown_timeout_ms l ≠ 0)%Z.
Proof.
  unfold validate_limits. cbn [find snd]. repeat case_match; simplify_eq/=;
    repeat match goal with H : (_ =? 0)%Z = true |- _ => apply Z.eqb_eq in H
                         | H : (_ =? 0)%Z = false |- _ => apply Z.eqb_neq in H end;
    (split; [done || (by intros; split_and!)|done || (intros; destruct_and?; congruence)]).
Qed.

(** Which manifests load: those that parse, whose api lies (as text) between
    the two bounds, that name an id and a program, whose capability rows have a
    kind and globs that compile, and whose limits are not zero; and the manifest
    loaded is the parsed one with its signature block lifted. *)
Theorem load_accepts_iff src m :
  load src = Ok m ↔
  parse src = Ok m
  ∧ (api m ≠ "" ∧ String.leb (api_min (plugin m)) (api m) = true
     ∧ String.leb (api m) (api_max (plugin m)) = true)
  ∧ id (plugin m) ≠ "" ∧ exec (binary (plugin m)) ≠ ""
  ∧ Forall capability_ok (capabilities m)
  ∧ Forall (λ n, n ≠ 0%Z) [memory_mb (limits m); cpu_seconds (limits m); nofile (limits m);
                            spawn_timeout_ms (limits m); shutdown_timeout_ms (limits m)].
Proof.
  assert (validate m = Ok tt ↔
    (api m ≠ "" ∧ String.leb (api_min (plugin m)) (api m) = true ∧ String.leb (api m) (api_max (plugin m)) = true)
    ∧ id (plugin m) ≠ "" ∧ exec (binary (plugin m)) ≠ "" ∧ validate_capabilities (capabilities m) = Ok tt
    ∧ validate_limits (limits m) = Ok tt) as Hv.
  { unfold validate. cbv zeta. destruct (String.eqb_spec (api m) ""); [naive_solver|].
    destruct (String.leb (api_min _) _), (String.leb _ (api_max _)); cbn [negb andb]; [|naive_solver..].
    destruct (String.eqb_spec (id (plugin m)) ""); [naive_solver|].
    destruct (String.eqb_spec (exec (binary (plugin m))) ""); [naive_solver|].
    destruct (validate_capabilities _) as [[]|]; cbn [rbind]; naive_solver. }
  rewrite validate_capabilities_Ok, validate_limits_Ok in Hv. rewrite !Forall_cons.
  unfold load. destruct (parse src) as [m'|e]; cbn [rbind]; [|naive_solver].
  split.
  - destruct (validate m') as [[]|] eqn:E; [|done]. cbn [rbind]. intros [= ->].
    apply Hv in E. naive_solver.
  - intros ([= ->] & H). assert (validate m = Ok tt) as -> by (apply Hv; naive_solver). done.
Qed.
End manifest.

(** Api versions are compared as text: 10 is not between 2 and 12. *)
Example api_range_is_lexical :
  validate (λ s, Ok s)
    (mkManifest "10" (mkPluginMeta "p" "" "" "" [] "" "" "2" "12" (mkBinarySpec "p" []) None) []
       default_needs default_limits [] None)
  = Err "plugin.toml: api=10 outside [api_min=2, api_max=12]".
Proof. by vm_compute. Qed.

End Manifest.

(** ** Capabilities and the handshake *)

Module Capability.
Import Rpc Manifest.

Inductive HostCapability : Type :=
| FsRead | FsCha | FsWriteCache | NotifyWaybar | NotifyBanner | UiTheme | ExecRun
| PreviewImageShow | PreviewText.

Definition method_name (c : HostCapability) : string :=
  match c with
  | FsRead => "host.fs.read"
  | FsCha => "host.fs.cha"
  | FsWriteCache => "host.fs.write_cache"
  | NotifyWaybar => "host.notify.waybar"
  | NotifyBanner => "host.notify.banner"
  | UiTheme => "host.ui.theme"
  | ExecRun => "host.exec.run"
  | PreviewImageShow => "host.preview.image_show"
  | PreviewText => "host.preview.text"
  end.

Definition ALL : list HostCapability :=
  [FsRead; FsCha; FsWriteCache; NotifyWaybar; NotifyBanner; UiTheme; ExecRun; PreviewImageShow; PreviewText].
Definition method_names : list string := map method_name ALL.
Definition knows (name : string) : bool := existsb (λ m, String.eqb m name) method_names.

Record NegotiatedCaps := mkNegotiatedCaps {
  nc_api : string;
  plugin_capabilities : list Capability;
  plugin_offered_host_methods : list string
}.

(** [build_initialize_params]; [path_json] is [serde]'s form of a path. *)
Definition build_initialize_params (path_json : list Z → json) (host_name host_version : string)
    (host_api : list string) (workdir : list Z) : json :=
  JObj [("host", JObj [("name", JStr host_name); ("version", JStr host_version);
                       ("api", JArr (map JStr host_api)); ("capabilities", JObj []);
                       ("host_methods", JArr (map JStr method_names))]);
        ("plugin", JObj [("workdir", path_json workdir); ("cache_dir", path_json (join workdir (lit "cache")))])].

Section handshake.
(** [serde_json::from_value::<Capability>]. *)
Context (cap_of_json : json → result Capability string).

Fixpoint read_capabilities (items : list json) : result (list Capability) RpcError :=
  match items with
  | [] => Ok []
  | item :: items =>
      match cap_of_json item with
      | Err e => Err (Protocol ("initialize capabilities malformed: " ++ e)%string)
      | Ok c => rbind (read_capabilities items) (λ cs, Ok (c :: cs))
      end
  end.

Definition parse_capabilities (result : json) : Prelude.result (list Capability) RpcError :=
  match jget "capabilities" result with
  | None => Ok []
  | Some arr =>
      match json_arr arr with
      | None => Err (Protocol "initialize result `capabilities` must be an array")
      | Some items => read_capabilities items
      end
  end.

Definition same_row (c m : Capability) : bool :=
  bool_decide (kind m = kind c ∧ url m = url c ∧ mime m = mime c).

Fixpoint cross_check_capabilities (advertised : list Capability) (m : Manifest) : result unit RpcError :=
  match advertised with
  | [] => Ok tt
  | c :: cs =>
      if existsb (same_row c) (capabilities m) then cross_check_capabilities cs m
      else Err (Protocol ("plugin advertised capability not in manifest: kind=" ++ kind c)%string)
  end.

Definition filter_known_host_methods (result : json) : list string :=
  match (match jget "host_methods" result with Some v => Some v | None => jget "offers" result end) ≫= json_arr with
  | None => []
  | Some items => List.filter knows (omap json_str items)
  end.

Definition parse_initialize_result (result : json) (m : Manifest) (host_api : list string)
    : Prelude.result NegotiatedCaps RpcError :=
  match jget "api" result ≫= json_str with
  | None => Err (Handshake "initialize result missing `api` string")
  | Some api =>
      if negb (existsb (λ h, String.eqb h api) host_api) then
        Err (Peer API_VERSION_MISMATCH "API_VERSION_MISMATCH"
               (JObj [("plugin_api", JStr api); ("host_api", JArr (map JStr host_api))]))
      else
        rbind (parse_capabilities result) (λ caps,
        rbind (cross_check_capabilities caps m) (λ _,
        Ok (mkNegotiatedCaps api caps (filter_known_host_methods result))))
  end.

(** ** Lemmas *)
Lemma knows_iff n : knows n = true ↔ n ∈ method_names.
Proof.
  unfold knows. rewrite existsb_exists, list_elem_of_In. split.
  - by intros (m & Hm & ->%String.eqb_eq).
  - intros H. exists n. by rewrite String.eqb_refl.
Qed.

Lemma same_row_iff c m : same_row c m = true ↔ m = c.
Proof.
  unfold same_row. rewrite bool_decide_eq_true. split; [|by intros ->].
  destruct c, m; simpl. intros (-> & -> & ->). done.
Qed.

Lemma cross_check_Ok cs m : cross_check_capabilities cs m = Ok tt ↔ cs ⊆ capabilities m.
Proof.
  induction cs as [|c cs IH]; cbn [cross_check_capabilities]; [set_solver|].
  destruct (existsb _ _) eqn:E.
  - apply existsb_exists in E as (m' & Hm & ->%same_row_iff). apply list_elem_of_In in Hm.
    rewrite IH. set_solver.
  - split; [done|]. intros H. assert (c ∈ capabilities m) as Hc by set_solver.
    apply not_true_iff_false in E. destruct E. apply existsb_exists. exists c.
    split; [by apply list_elem_of_In|by apply same_row_iff].
Qed.

(** ** Properties *)

(** What a handshake can settle: an api version the host offered, only
    capability rows the manifest declares, and only host methods the host has,
    in the order the plugin named them; and it fails only when the version is
    missing or unknown or when the rows are no list, malformed or undeclared. *)
Theorem handshake_outcome result m host_api :
  match parse_initialize_result result m host_api with
  | Ok nc =>
      nc_api nc ∈ host_api ∧ jget "api" result = Some (JStr (nc_api nc))
      ∧ plugin_capabilities nc ⊆ capabilities m
      ∧ Forall (λ n, n ∈ method_names) (plugin_offered_host_methods nc)
  | Err e =>
      (∀ a, jget "api" result = Some (JStr a) → a ∉ host_api)
      ∨ (is_ok (parse_capabilities result) = false)
      ∨ ∃ cs, parse_capabilities result = Ok cs ∧ ¬ cs ⊆ capabilities m
  end.
Proof.
  unfold parse_initialize_result.
  destruct (jget "api" result) as [v|] eqn:Ea; cbn [mbind option_bind]; [|by left].
  destruct (json_str v) as [a|] eqn:Es; [|left; by intros a [= ->]].
  assert (v = JStr a) as -> by (by destruct v; simplify_eq/=).
  destruct (existsb _ host_api) eqn:Eh; cbn [negb].
  2:{ left. intros a' [= <-] Hin. apply not_true_iff_false in Eh. destruct Eh. apply existsb_exists.
      exists a. split; [by apply list_elem_of_In|apply String.eqb_refl]. }
  apply existsb_exists in Eh as (h & Hh & ->%String.eqb_eq). apply list_elem_of_In in Hh.
  destruct (parse_capabilities result) as [cs|e]; cbn [rbind]; [|by right; left].
  destruct (cross_check_capabilities cs m) as [[]|e] eqn:Ec; cbn [rbind].
  - apply cross_check_Ok in Ec. split_and!; [done|done|done|]. cbn [plugin_offered_host_methods].
    unfold filter_known_host_methods. destruct (_ ≫= json_arr) as [items|]; [|constructor].
    apply Forall_forall. intros n [_ Hn]%list_elem_of_In%filter_In. by apply knows_iff.
  - right; right. exists cs. split; [done|]. intros H%cross_check_Ok. congruence.
Qed.
End handshake.

End Capability.

(** ** The registry *)

Module Registry.
Import Manifest.

Definition PluginId : Type := string.

Inductive CapKind : Type := Previewer | Opener | Action | Fetcher | Indexer | Cmdbar.
#[export] Instance cap_kind_eq_dec : EqDecision CapKind.
Proof. solve_decision. Defined.

Definition from_manifest_kind (s : string) : option CapKind :=
  if String.eqb s "previewer" then Some Previewer
  else if String.eqb s "opener" then Some Opener
  else if String.eqb s "action" then Some Action
  else if String.eqb s "fetcher" then Some Fetcher
  else if String.eqb s "indexer" then Some Indexer
  else if String.eqb s "cmdbar" then Some Cmdbar
  else None.

(** A [BTreeMap] in key order. *)
Definition in_order {A} (m : gmap string A) : list (string * A) :=
  sort_by (λ a b, String.leb a.1 b.1) (map_to_list m).

Section registry.
Context {Glob : Type} (toml_read : string → result Manifest string).
Context (glob_new : string → result Glob string) (is_match : Glob → string → bool).

Record IndexEntry := mkIndexEntry {
  plugin_id : PluginId; ie_kind : CapKind; ie_url : option Glob; ie_mime : option Glob
}.

Record Registry := mkRegistry {
  manifests : gmap string Manifest;
  manifest_dirs : gmap string (list Z);
  index : list IndexEntry
}.

Definition empty_registry : Registry := mkRegistry ∅ ∅ [].
Definition plugin_ids (r : Registry) : list PluginId := map fst (in_order (manifests r)).
Definition manifest (r : Registry) (id : PluginId) : option Manifest := manifests r !! id.
Definition manifest_dir (r : Registry) (id : PluginId) : option (list Z) := manifest_dirs r !! id.

(** [Some(g)] that matches. *)
Definition glob_matches (g : option Glob) (s : string) : bool :=
  match g with Some g => is_match g s | None => false end.

(** The candidate takes the place of the current one when its id is smaller. *)
Definition better (e : IndexEntry) (cur : option IndexEntry) : bool :=
  match cur with Some c => String.ltb (plugin_id e) (plugin_id c) | None => true end.

(** One turn of the loop of [select_for]. *)
Definition select_step (mime url : string) (s : option IndexEntry * option IndexEntry) (e : IndexEntry)
    : option IndexEntry * option IndexEntry :=
  if glob_matches (ie_url e) url && better e s.1 then (Some e, s.2)
  else if glob_matches (ie_mime e) mime && better e s.2 then (s.1, Some e)
  else s.

Definition select_for (r : Registry) (k : CapKind) (mime url : string) : option PluginId :=
  let '(url_match, mime_match) :=
    foldl (select_step mime url) (None, None) (List.filter (λ e, bool_decide (ie_kind e = k)) (index r)) in
  plugin_id <$> (match url_match with Some e => Some e | None => mime_match end).

(** [compile_or_warn]. *)
Definition compile_or_warn (raw : option string) : option Glob :=
  s ← raw; match glob_new s with Ok g => Some g | Err _ => None end.

Definition entry_of (id : PluginId) (c : Capability) : option IndexEntry :=
  k ← from_manifest_kind (kind c);
  Some (mkIndexEntry id k (compile_or_warn (url c)) (compile_or_warn (mime c))).

(** [build_index]. *)
Definition build_index (ms : gmap string Manifest) : list IndexEntry :=
  concat (map (λ im, omap (entry_of im.1) (capabilities im.2)) (in_order ms)).

(** *** Discovery *)

(** The directories and files discovery looks at: [fs::read_dir] with the entries
    it can read, [Path::is_file], [fs::read_to_string], the environment, and the
    reader of [disabled.toml]. *)
Context (read_dir : list Z → option (list (list Z))) (is_file : list Z → bool).
Context (read_to_string : list Z → result string string).
Context (var : string → option (list Z)) (disabled_read : string → result (list string) string).

Definition load_manifest_file (p : list Z) : result Manifest string :=
  rbind (read_to_string p) (load toml_read glob_new).

(** [scan_root], on the two maps. *)
Definition scan_entry (out : gmap string Manifest * gmap string (list Z)) (dir : list Z)
    : gmap string Manifest * gmap string (list Z) :=
  let manifest_path := join dir (lit "plugin.toml") in
  if negb (is_file manifest_path) then out
  else match load_manifest_file manifest_path with
       | Ok m => (<[id (plugin m) := m]> out.1, <[id (plugin m) := dir]> out.2)
       | Err _ => out
       end.
Definition scan_root (out : gmap string Manifest * gmap string (list Z)) (root : list Z)
    : gmap string Manifest * gmap string (list Z) :=
  match read_dir root with None => out | Some entries => foldl scan_entry out entries end.

Definition PLUGIN_DIR_ENV : string := "SY_PLUGIN_DIR".
Definition DISABLED_TOML_ENV : string := "SY_PLUGIN_DISABLED_TOML".

(** [xdg_data_plugins_dir]. *)
Definition xdg_data_plugins_dir : option (list Z) :=
  match var "XDG_DATA_HOME" with
  | Some d => Some (join (join d (lit "sy")) (lit "plugins"))
  | None => home ← var "HOME";
            Some (join (join (join (join home (lit ".local")) (lit "share")) (lit "sy")) (lit "plugins"))
  end.

Definition resolve_roots : list (list Z) :=
  match var PLUGIN_DIR_ENV with
  | Some p => [p]
  | None => [lit "/usr/share/sy/configs/sy/plugins"; lit "configs/sy/plugins"]
            ++ match xdg_data_plugins_dir with Some home => [home] | None => [] end
  end.

Definition disabled_toml_path : option (list Z) :=
  match var DISABLED_TOML_ENV with
  | Some p => Some p
  | None =>
      match var "XDG_STATE_HOME" with
      | Some d => Some (join (join (join d (lit "sy")) (lit "plugin")) (lit "disabled.toml"))
      | None =>
          home ← var "HOME";
          Some (join (join (join (join (join home (lit ".local")) (lit "state")) (lit "sy")) (lit "plugin"))
                  (lit "disabled.toml"))
      end
  end.

Definition load_disabled_set : list string :=
  match disabled_toml_path with
  | None => []
  | Some p =>
      match read_to_string p with
      | Err _ => []
      | Ok src => match disabled_read src with Ok d => d | Err _ => [] end
      end
  end.

Definition discover : Registry :=
  let '(ms, dirs) := foldl scan_root (∅, ∅) resolve_roots in
  let disabled := load_disabled_set in
  let ms := base.filter (λ im, im.1 ∉ disabled) ms in
  let dirs := base.filter (λ im, im.1 ∉ disabled) dirs in
  mkRegistry ms dirs (build_index ms).

(** ** Lemmas *)

(** The plugins of a kind whose glob matches. *)
Definition url_ids (r : Registry) (k : CapKind) (u : string) : list PluginId :=
  map plugin_id (List.filter (λ e, glob_matches (ie_url e) u)
                   (List.filter (λ e, bool_decide (ie_kind e = k)) (index r))).
Definition mime_ids (r : Registry) (k : CapKind) (t : string) : list PluginId :=
  map plugin_id (List.filter (λ e, glob_matches (ie_mime e) t)
                   (List.filter (λ e, bool_decide (ie_kind e = k)) (index r))).

(** The least of a list of ids, or nothing for none. *)
Definition is_least (ids : list PluginId) (r : option PluginId) : Prop :=
  match r with
  | None => ids = []
  | Some i => i ∈ ids ∧ ∀ j, j ∈ ids → String.leb i j = true
  end.

Lemma is_least_snoc ids e cur : is_least ids (plugin_id <$> cur) →
  is_least (ids ++ [plugin_id e]) (plugin_id <$> (if better e cur then Some e else cur)).
Proof.
  destruct cur as [c|]; cbn [fmap option_fmap option_map is_least better].
  - intros [Hin Hl]. rewrite string_ltb_leb. destruct (String.leb (plugin_id c) (plugin_id e)) eqn:E; cbn [negb].
    + split; [set_solver|]. intros j [?| ->%list_elem_of_singleton]%elem_of_app; [by apply Hl|done].
    + assert (String.leb (plugin_id e) (plugin_id c) = true) as Hec
        by (by destruct (String.leb_total (plugin_id c) (plugin_id e)); [congruence|]).
      split; [set_solver|]. intros j [?| ->%list_elem_of_singleton]%elem_of_app.
      * eapply string_leb_trans; [done|by apply Hl].
      * apply string_leb_refl.
  - intros ->. split; [set_solver|]. intros j ->%list_elem_of_singleton. apply string_leb_refl.
Qed.

Lemma select_fold mime url l :
  let s := foldl (select_step mime url) (None, None) l in
  let us := map plugin_id (List.filter (λ e, glob_matches (ie_url e) url) l) in
  let ts := map plugin_id (List.filter (λ e, glob_matches (ie_mime e) mime) l) in
  is_least us (plugin_id <$> s.1) ∧ (us = [] → is_least ts (plugin_id <$> s.2)).
Proof.
  induction l as [|e l IH] using rev_ind; [done|]. cbv zeta in *. rewrite foldl_snoc, !List.filter_app, !map_app.
  destruct IH as [Hu Ht]. set (s := foldl _ _ l) in *. unfold select_step. cbn [List.filter map].
  destruct (glob_matches (ie_url e) url); cbn [andb map].
  - split.
    + pose proof (is_least_snoc _ e _ Hu) as H. destruct (better e s.1); [done|].
      destruct (_ && _); done.
    + intros Hn. by apply app_eq_nil in Hn as [_ ?].
  - rewrite app_nil_r. split; [by destruct (_ && _)|]. intros Hn. specialize (Ht Hn).
    destruct (glob_matches (ie_mime e) mime); cbn [andb map]; [|by rewrite app_nil_r].
    pose proof (is_least_snoc _ e _ Ht) as H. by destruct (better e s.2).
Qed.

Lemma elem_of_index e ms : e ∈ build_index ms →
  ∃ m c, ms !! plugin_id e = Some m ∧ c ∈ capabilities m ∧ entry_of (plugin_id e) c = Some e.
Proof.
  unfold build_index. rewrite list_elem_of_In, in_concat. intros (l & (im & <- & Him)%in_map_iff & He).
  apply list_elem_of_In, list_elem_of_omap in He as (c & Hc & Hec).
  apply list_elem_of_In in Him. unfold in_order in Him. rewrite elem_of_sort_by in Him. destruct im as [id0 m]. apply elem_of_map_to_list in Him.
  assert (plugin_id e = id0) as Hid.
  { unfold entry_of in Hec. destruct (from_manifest_kind (kind c)); by simplify_eq/=. }
  exists m, c. by rewrite Hid.
Qed.

(** ** Properties *)

(** Routing: a plugin whose url glob matches is taken before any that only
    match by mime, among several the one with the least id, and none is chosen
    exactly when nothing matches. *)
Theorem select_for_spec r k mime url :
  is_least (if decide (url_ids r k url = []) then mime_ids r k mime else url_ids r k url)
    (select_for r k mime url).
Proof.
  unfold select_for, url_ids, mime_ids.
  destruct (select_fold mime url (List.filter (λ e, bool_decide (ie_kind e = k)) (index r))) as [Hu Ht].
  destruct (foldl _ _ _) as [u t]. cbn [fst snd] in *. case_decide as E.
  - rewrite E in Hu. destruct u as [u|]; [|by apply Ht]. destruct Hu as [Hu _].
    by apply not_elem_of_nil in Hu.
  - by destruct u.
Qed.

(** What discovery makes selectable: a plugin that [disabled.toml] names is
    never chosen, and a chosen one has a manifest, the one that passed validation,
    declaring a capability of that kind with a glob that matches. *)
Theorem selected_is_enabled k mime url i :
  select_for discover k mime url = Some i →
  i ∉ load_disabled_set
  ∧ ∃ m c, manifest discover i = Some m ∧ id (plugin m) = i
      ∧ validate glob_new m = Ok tt
      ∧ c ∈ capabilities m ∧ from_manifest_kind (kind c) = Some k
      ∧ (glob_matches (compile_or_warn (Manifest.url c)) url = true
         ∨ glob_matches (compile_or_warn (Manifest.mime c)) mime = true).
Proof.
  intros Hs. pose proof (select_for_spec discover k mime url) as Hl. rewrite Hs in Hl.
  destruct Hl as [Hin _].
  assert (∃ e, e ∈ index discover ∧ plugin_id e = i ∧ ie_kind e = k
    ∧ (glob_matches (ie_url e) url = true ∨ glob_matches (ie_mime e) mime = true)) as (e & He & <- & <- & Hm).
  { case_decide; unfold url_ids, mime_ids in Hin;
      apply list_elem_of_In, in_map_iff in Hin as (e & <- & [[He Hk]%filter_In Hg]%filter_In);
      apply bool_decide_eq_true in Hk; exists e; rewrite list_elem_of_In; auto. }
  assert (∀ i m, (foldl scan_root (∅, ∅) resolve_roots).1 !! i = Some m →
    id (plugin m) = i ∧ validate glob_new m = Ok tt) as Hscan.
  { assert (∀ P : gmap string Manifest → Prop, P ∅ →
      (∀ ms m, P ms → validate glob_new m = Ok tt → P (<[id (plugin m) := m]> ms)) →
      P (foldl scan_root (∅, ∅) resolve_roots).1) as Hind.
    { intros P H0 HS. cut (∀ roots out, P out.1 → P (foldl scan_root out roots).1); [by intros H; apply H|].
      induction roots as [|root roots IH]; intros out Hout; [done|]. cbn [foldl]. apply IH.
      unfold scan_root. destruct (read_dir root) as [entries|]; [|done]. revert out Hout.
      induction entries as [|d ds IHd]; intros out Hout; [done|]. cbn [foldl]. apply IHd.
      unfold scan_entry. destruct (is_file _); [|done]. cbn [negb].
      unfold load_manifest_file. destruct (read_to_string _) as [src|]; [|done]. cbn [rbind].
      unfold load. destruct (parse _ _) as [m|]; [|done]. cbn [rbind].
      destruct (validate glob_new m) as [[]|] eqn:Ev; [|done]. by apply HS. }
    apply (Hind (λ ms, ∀ i m, ms !! i = Some m → id (plugin m) = i ∧ validate glob_new m = Ok tt)); [done|].
    intros ms m IH Hv j m' [[<- <-]|[_ ?]]%lookup_insert_Some; auto. }
  unfold discover in *. destruct (foldl scan_root (∅, ∅) resolve_roots) as [ms dirs]. cbn [fst] in Hscan.
  cbn [index] in He. apply elem_of_index in He as (m & c & Hl & Hc & Hec).
  pose proof Hl as Hl'. apply map_lookup_filter_Some in Hl as [Hl Hd]. split; [done|].
  destruct (Hscan _ _ Hl) as [Hid Hv]. exists m, c. unfold manifest. cbn [manifests].
  unfold entry_of in Hec. destruct (from_manifest_kind (kind c)) as [k'|] eqn:Ek; [|done].
  destruct e as [i' k'' u t]. cbn in Hec. injection Hec as <- -> ->. by split_and!.
Qed.
End registry.

(** *** A directory with two plugins, one of them disabled *)
Module Sim.
Definition manifest_of (i : string) : Manifest :=
  mkManifest "1" (mkPluginMeta i "" "" "" [] "" "" "1" "1" (mkBinarySpec "run" []) None)
    [mkCapability "previewer" (Some "*.md") None] default_needs default_limits [] None.
Definition toml_read (s : string) : result Manifest string := Ok (manifest_of s).
Definition glob_new (s : string) : result string string := Ok s.
Definition is_match (g s : string) : bool := String.eqb g "*.md" && String.eqb s "a.md".
Definition read_dir (p : list Z) : option (list (list Z)) :=
  if decide (p = lit "/p") then Some [lit "/p/a"; lit "/p/b"] else None.
Definition is_file (p : list Z) : bool := true.
Definition read_to_string (p : list Z) : result string string :=
  if decide (p = lit "/p/a/plugin.toml") then Ok "a" else if decide (p = lit "/p/b/plugin.toml") then Ok "b"
  else Ok "".
Definition var (s : string) : option (list Z) :=
  if String.eqb s PLUGIN_DIR_ENV then Some (lit "/p") else if String.eqb s DISABLED_TOML_ENV then Some (lit "/d")
  else None.
Definition disabled_read (s : string) : result (list string) string := Ok ["a"].
End Sim.

Lemma selected_is_enabled_witness :
  let disc := discover Sim.toml_read Sim.glob_new Sim.read_dir Sim.is_file Sim.read_to_string Sim.var Sim.disabled_read in
  select_for Sim.is_match disc Previewer "text/plain" "a.md" = Some "b"
  ∧ "b" ∉ load_disabled_set Sim.read_to_string Sim.var Sim.disabled_read.
Proof.
  intros disc. assert (select_for Sim.is_match disc Previewer "text/plain" "a.md" = Some "b") as H by (by vm_compute).
  split; [done|]. by apply (selected_is_enabled Sim.toml_read Sim.glob_new Sim.is_match Sim.read_dir Sim.is_file
    Sim.read_to_string Sim.var Sim.disabled_read Previewer "text/plain" "a.md").
Defined.

End Registry.
