(* ===== verification/PluginHost.v ===== *)
(** * The host functions of a plugin

    [crates/sy-filemanager/src/plugin/host_fns.rs]: the calls a plugin may make
    of the file manager, their permission checks against the manifest, and what
    each does to the files, the channels and the processes of the host. A call
    is a function from the file store to a reply, the store afterwards and the
    list of its other effects. Texts of JSON are their UTF-8 bytes here, paths
    included. *)

From S2P Require Import Prelude Lists Text Paths Store Wire PluginWire Plugin.
From Stdlib Require Import Ascii.
Import Lists Text Paths Store Wire Base64 Rpc Manifest.
Local Open Scope string_scope.
Local Open Scope nat_scope.
Local Open Scope list_scope.

Module HostFns.

Definition METHOD_NOT_FOUND : Z := (-32601)%Z.
Definition INVALID_PARAMS : Z := (-32602)%Z.

Record HostFnError := mkHostFnError { code : Z; message : string; data : json }.

Definition cap_not_granted (needed : string) : HostFnError :=
  mkHostFnError CAP_NOT_GRANTED "CAP_NOT_GRANTED" (JObj [("needed", JStr needed)]).
Definition invalid_path (reason path : string) : HostFnError :=
  mkHostFnError INVALID_PATH "INVALID_PATH" (JObj [("reason", JStr reason); ("path", JStr path)]).
Definition method_not_found (m : string) : HostFnError :=
  mkHostFnError METHOD_NOT_FOUND "METHOD_NOT_FOUND" (JObj [("method", JStr m)]).
Definition invalid_params (reason : string) : HostFnError :=
  mkHostFnError INVALID_PARAMS "INVALID_PARAMS" (JObj [("reason", JStr reason)]).

Inductive PreviewMessage : Type :=
| Image (plugin_id : string) (png_bytes : list Z)
| PText (plugin_id content : string).

Inductive Notification : Type :=
| Banner (plugin_id kind message : string)
| Waybar (plugin_id text tooltip class : string).

(** The characters of a text of bytes, as a JSON string. *)
Definition of_text (t : list Z) : string :=
  String.string_of_list_ascii (map (λ c, ascii_of_nat (Z.to_nat c)) t).

(** [HostCtx]: the channels by whether their receiver is there. *)
Record HostCtx := mkHostCtx {
  workdir : list Z; notify_open : bool; theme : json; preview_tx : option bool
}.

(** What a call does besides the file store. *)
Inductive Effect : Type :=
| ERead (path : string)
| EStat (path : string)
| ERun (program : string) (args : list string) (stdin : list Z)
| ENotify (n : Notification)
| EPreview (p : PreviewMessage).

Definition reply : Type := result json HostFnError.

Section host.
Context {Glob : Type} (glob_new : string → result Glob string) (is_match : Glob → string → bool).
(** How an error number prints, [fs::metadata] as mtime and size, and a child
    process run to its end: exit status and output, or why it failed. *)
Context (errno_str : errno → string) (metadata : string → result (Z * Z) errno).
Context (run_child : string → list string → list Z → result (Z * list Z * list Z) string).
(** Faults of the write itself: of [write_all], [flush] and [sync_all]. *)
Context (fault : option (string * errno)).

Definition get_str (k : string) (params : json) : option string := jget k params ≫= json_str.

(** *** Permission checks *)

Definition validate_path (path : string) : result unit HostFnError :=
  if String.eqb path "" then Err (invalid_path "empty" path)
  else if bool_decide (0%Z ∈ lit path) then Err (invalid_path "null-byte" path)
  else Ok tt.

(** [path_matches_any]: a pattern that does not compile matches nothing. *)
Definition path_matches_any (patterns : list string) (path : string) : bool :=
  existsb (λ p, match glob_new p with Ok g => is_match g path | Err _ => false end) patterns.

Definition mem (s : string) (l : list string) : bool := existsb (λ x, String.eqb x s) l.

Definition check_preview_scope (m : Manifest) (sentinel : string) : result unit HostFnError :=
  if mem sentinel (preview (needs m)) then Ok tt else Err (cap_not_granted "preview").

Definition check_fs_read_scope (params : json) (m : Manifest) : result unit HostFnError :=
  match get_str "path" params with
  | None => Err (invalid_params "host.fs.* requires `path` string")
  | Some path =>
      rbind (validate_path path) (λ _,
        if path_matches_any (fs_read (needs m)) path then Ok tt else Err (cap_not_granted "fs_read"))
  end.

Definition check_fs_write_cache_scope (m : Manifest) : result unit HostFnError :=
  if mem "cache" (fs_write (needs m)) then Ok tt else Err (cap_not_granted "fs_write").

Definition argv0 (params : json) : option string :=
  a ← jget "argv" params ≫= json_arr; v ← head a; json_str v.

Definition check_exec_argv (params : json) (m : Manifest) : result unit HostFnError :=
  match argv0 params with
  | None => Err (invalid_params "host.exec.run requires non-empty `argv`")
  | Some a => if mem a (needs_exec (needs m)) then Ok tt else Err (cap_not_granted "exec")
  end.

Definition check_cap (method : string) (params : json) (m : Manifest) : result unit HostFnError :=
  if String.eqb method "host.fs.read" || String.eqb method "host.fs.cha" then check_fs_read_scope params m
  else if String.eqb method "host.fs.write_cache" then check_fs_write_cache_scope m
  else if String.eqb method "host.exec.run" then check_exec_argv params m
  else if String.eqb method "host.preview.image_show" then check_preview_scope m "image_show"
  else if String.eqb method "host.preview.text" then check_preview_scope m "text"
  else Ok tt.

(** *** The calls *)

(** [to_ascii_lowercase], and [mime_for_extension]. *)
Definition ends (s suf : string) : bool :=
  ends_with (map to_ascii_lowercase (lit s)) (lit suf).
Definition mime_for_extension (path : string) : string :=
  if ends path ".md" || ends path ".markdown" then "text/markdown"
  else if ends path ".txt" then "text/plain"
  else if ends path ".png" then "image/png"
  else if ends path ".jpg" || ends path ".jpeg" then "image/jpeg"
  else "application/octet-stream".

Definition host_fs_read (st : store) (params : json) : reply * list Effect :=
  match get_str "path" params with
  | None => (Err (invalid_params "host.fs.read requires `path`"), [])
  | Some path =>
      let max_bytes := jget "max_bytes" params ≫= as_u64 in
      match Store.read st (lit path) with
      | Err e => (Err (invalid_path ("read: " ++ errno_str e)%string path), [ERead path])
      | Ok bytes =>
          let body := match max_bytes with
                      | Some cap => if (cap <? Z.of_nat (length bytes))%Z then take (Z.to_nat cap) bytes else bytes
                      | None => bytes
                      end in
          (Ok (JObj [("bytes_base64", JStr (of_text (base64_encode body)))]), [ERead path])
      end
  end.

Definition host_fs_cha (params : json) : reply * list Effect :=
  match get_str "path" params with
  | None => (Err (invalid_params "host.fs.cha requires `path`"), [])
  | Some path =>
      match metadata path with
      | Err e => (Err (invalid_path ("stat: " ++ errno_str e)%string path), [EStat path])
      | Ok (mtime, size) =>
          (Ok (JObj [("mtime", JNum mtime); ("size", JNum size); ("mime", JStr (mime_for_extension path))]),
           [EStat path])
      end
  end.

(** [validate_cache_name]: only components that are names. *)
Definition validate_cache_name (name : string) : result unit HostFnError :=
  if String.eqb name "" then Err (invalid_params "cache name is empty")
  else if forallb is_normal (components (lit name)) then Ok tt
  else Err (invalid_path "cache name must be a single relative file" name).

(** [write_atomic], with what it leaves behind. *)
Definition write_atomic (st : store) (tmp final : list Z) (bytes : list Z) : result unit HostFnError * store :=
  match open_truncate st tmp with
  | Err e => (Err (invalid_path ("create tmp: " ++ errno_str e)%string (of_text tmp)), st)
  | Ok st1 =>
      match fault with
      | Some (op, e) => (Err (invalid_path (op ++ " tmp: " ++ errno_str e)%string (of_text tmp)),
                         if String.eqb op "write" then st1 else Store.append st1 tmp bytes)
      | None =>
          let st2 := Store.append st1 tmp bytes in
          match rename st2 tmp final with
          | Ok st3 => (Ok tt, st3)
          | Err e => (Err (invalid_path ("rename: " ++ errno_str e)%string (of_text final)), remove_file_ st2 tmp)
          end
      end
  end.

Definition host_fs_write_cache (st : store) (params : json) (ctx : HostCtx) : reply * store :=
  match get_str "name" params with
  | None => (Err (invalid_params "host.fs.write_cache requires `name`"), st)
  | Some name =>
      match get_str "bytes_base64" params with
      | None => (Err (invalid_params "host.fs.write_cache requires `bytes_base64`"), st)
      | Some b64 =>
          match validate_cache_name name with
          | Err e => (Err e, st)
          | Ok _ =>
              match base64_decode (lit b64) with
              | None => (Err (invalid_params "host.fs.write_cache `bytes_base64` is not valid base64"), st)
              | Some bytes =>
                  let cache_dir := join (workdir ctx) (lit "cache") in
                  match create_dir_all st cache_dir with
                  | Err e => (Err (invalid_path ("mkdir cache: " ++ errno_str e)%string (of_text cache_dir)), st)
                  | Ok st =>
                      let final_path := join cache_dir (lit name) in
                      let tmp_path := join cache_dir (lit "." ++ lit name ++ lit ".tmp") in
                      match write_atomic st tmp_path final_path bytes with
                      | (Err e, st) => (Err e, st)
                      | (Ok _, st) => (Ok (JObj [("path", JStr (of_text final_path))]), st)
                      end
                  end
              end
          end
      end
  end.

Definition ok_reply : json := JObj [("ok", JBool true)].

(** A send on the notification channel, and on the preview channel. *)
Definition notify (ctx : HostCtx) (n : Notification) : reply * list Effect :=
  if notify_open ctx then (Ok ok_reply, [ENotify n]) else (Err (invalid_params "notify channel closed"), []).
Definition show_preview (ctx : HostCtx) (unwired : string) (p : PreviewMessage) : reply * list Effect :=
  match preview_tx ctx with
  | None => (Err (invalid_params unwired), [])
  | Some true => (Ok ok_reply, [EPreview p])
  | Some false => (Err (invalid_params "preview channel closed"), [])
  end.

Definition host_notify_banner (params : json) (ctx : HostCtx) (m : Manifest) : reply * list Effect :=
  let kind := default "info" (get_str "kind" params) in
  match get_str "message" params with
  | None => (Err (invalid_params "host.notify.banner requires `message`"), [])
  | Some message => notify ctx (Banner (id (plugin m)) kind message)
  end.

Definition host_notify_waybar (params : json) (ctx : HostCtx) (m : Manifest) : reply * list Effect :=
  match get_str "text" params with
  | None => (Err (invalid_params "host.notify.waybar requires `text`"), [])
  | Some text =>
      notify ctx (Waybar (id (plugin m)) text (default "" (get_str "tooltip" params))
                    (default "" (get_str "class" params)))
  end.

Definition host_ui_theme (ctx : HostCtx) : reply := Ok (JObj [("palette", theme ctx)]).

(** [host_exec_run]: arguments that are no strings are left out. *)
Definition host_exec_run (params : json) : reply * list Effect :=
  match jget "argv" params ≫= json_arr with
  | None => (Err (invalid_params "host.exec.run requires `argv` array"), [])
  | Some a =>
      match omap json_str a with
      | [] => (Err (invalid_params "host.exec.run argv is empty"), [])
      | program :: args =>
          match (match get_str "stdin" params with None => Some [] | Some s => base64_decode (lit s) end) with
          | None => (Err (invalid_params "host.exec.run stdin not base64"), [])
          | Some stdin =>
              match run_child program args stdin with
              | Err e => (Err (invalid_params ("host.exec.run " ++ e)%string), [ERun program args stdin])
              | Ok (status, out, err) =>
                  (Ok (JObj [("status", JNum status); ("stdout_base64", JStr (of_text (base64_encode out)));
                             ("stderr_base64", JStr (of_text (base64_encode err)))]),
                   [ERun program args stdin])
              end
          end
      end
  end.

Definition host_preview_image_show (params : json) (ctx : HostCtx) (m : Manifest) : reply * list Effect :=
  match get_str "png_base64" params with
  | None => (Err (invalid_params "host.preview.image_show requires `png_base64`"), [])
  | Some b64 =>
      match base64_decode (lit b64) with
      | None => (Err (invalid_params "host.preview.image_show `png_base64` is not valid base64"), [])
      | Some png => show_preview ctx "host.preview.image_show: preview channel unwired (no preview pane in this context)"
                      (Image (id (plugin m)) png)
      end
  end.

Definition host_preview_text (params : json) (ctx : HostCtx) (m : Manifest) : reply * list Effect :=
  match get_str "content" params with
  | None => (Err (invalid_params "host.preview.text requires `content`"), [])
  | Some content => show_preview ctx "host.preview.text: preview channel unwired (no preview pane in this context)"
                      (PText (id (plugin m)) content)
  end.

(** [dispatch]. *)
Definition dispatch (st : store) (method : string) (params : json) (ctx : HostCtx) (m : Manifest)
    : reply * store * list Effect :=
  if negb (Capability.knows method) then (Err (method_not_found method), st, [])
  else
    match check_cap method params m with
    | Err e => (Err e, st, [])
    | Ok _ =>
        if String.eqb method "host.fs.read" then let '(r, e) := host_fs_read st params in (r, st, e)
        else if String.eqb method "host.fs.cha" then let '(r, e) := host_fs_cha params in (r, st, e)
        else if String.eqb method "host.fs.write_cache" then
          let '(r, st) := host_fs_write_cache st params ctx in (r, st, [])
        else if String.eqb method "host.notify.banner" then
          let '(r, e) := host_notify_banner params ctx m in (r, st, e)
        else if String.eqb method "host.notify.waybar" then
          let '(r, e) := host_notify_waybar params ctx m in (r, st, e)
        else if String.eqb method "host.ui.theme" then (host_ui_theme ctx, st, [])
        else if String.eqb method "host.exec.run" then let '(r, e) := host_exec_run params in (r, st, e)
        else if String.eqb method "host.preview.image_show" then
          let '(r, e) := host_preview_image_show params ctx m in (r, st, e)
        else if String.eqb method "host.preview.text" then
          let '(r, e) := host_preview_text params ctx m in (r, st, e)
        else (Err (method_not_found method), st, [])
    end.

(** ** Lemmas *)
Lemma mem_iff s l : mem s l = true ↔ s ∈ l.
Proof.
  unfold mem. rewrite existsb_exists, list_elem_of_In. split; [by intros (x & Hx & <-%String.eqb_eq)|].
  intros H. exists s. by rewrite String.eqb_refl.
Qed.

Lemma split_acc_first sep acc s r rs : split_acc sep acc s = r :: rs → acc `prefix_of` r.
Proof.
  revert acc. induction s as [|c s IH]; intros acc; cbn [split_acc]; [by intros [= -> _]|].
  destruct (c =? sep)%Z; [by intros [= -> _]|]. intros H%IH. etrans; [|done]. by eexists.
Qed.

(** A path that does not start with a slash and whose first run is a name. *)
Lemma plain_run p r rs : is_absolute p = false → split_on SLASH p = r :: rs → is_real r →
  is_plain p ∧ components p ≠ [].
Proof.
  intros Ha Hs Hr. assert (is_plain p) as Hp.
  { split; [done|]. rewrite Hs. intros [= ->]. by destruct Hr. }
  split; [done|]. rewrite components_plain, Hs, filter_cons, (decide_True _ _ Hr) by done. done.
Qed.

(** An accepted cache name stays below the directory it is joined to, and so
    does the temporary name. *)
Lemma cache_name_inside name : validate_cache_name name = Ok tt →
  (is_plain (lit name) ∧ components (lit name) ≠ [])
  ∧ is_plain (lit "." ++ lit name ++ lit ".tmp") ∧ components (lit "." ++ lit name ++ lit ".tmp") ≠ [].
Proof.
  unfold validate_cache_name. destruct (String.eqb_spec name "") as [|Hne]; [done|].
  destruct (forallb is_normal (components (lit name))) eqn:Hf; [|done]. intros _.
  rewrite forallb_forall in Hf. destruct (lit name) as [|x s] eqn:E; [by destruct name|].
  assert (x ≠ SLASH) as Hx.
  { intros ->. specialize (Hf [SLASH]). unfold components in Hf. cbn [is_absolute] in Hf.
    rewrite Z.eqb_refl in Hf. by specialize (Hf (or_introl eq_refl)). }
  assert (is_absolute (x :: s) = false) as Ha by (by apply Z.eqb_neq).
  destruct (split_on SLASH (x :: s)) as [|r rs] eqn:Es; [by apply split_acc_nonempty in Es|].
  assert (r ≠ []) as Hr.
  { unfold split_on in Es. cbn [split_acc] in Es. rewrite (proj2 (Z.eqb_neq _ _) Hx) in Es.
    apply split_acc_first in Es as [t ->]. done. }
  assert (r ≠ [DOT]) as Hd.
  { intros ->. specialize (Hf [DOT]). unfold components in Hf. rewrite Ha, Es, decide_True in Hf by done.
    by specialize (Hf (or_introl eq_refl)). }
  split; [by eapply plain_run|].
  change (lit "." ++ (x :: s) ++ lit ".tmp") with (DOT :: x :: s ++ lit ".tmp").
  destruct (split_on SLASH (DOT :: x :: s ++ lit ".tmp")) as [|r' rs'] eqn:Es'; [by apply split_acc_nonempty in Es'|].
  eapply plain_run; [done|done|]. unfold split_on in Es'. cbn [split_acc] in Es'.
  change (DOT =? SLASH)%Z with false in Es'. cbn [app] in Es'. rewrite (proj2 (Z.eqb_neq _ _) Hx) in Es'.
  apply split_acc_first in Es' as [t ->]. done.
Qed.

Lemma rename_file_frame st tmp final b st' k :
  st !! components tmp = Some (NFile b) → rename st tmp final = Ok st' →
  k ≠ components tmp → k ≠ components final → st' !! k = st !! k.
Proof.
  intros Ht. unfold rename. rewrite Ht. case_decide; [by intros [= <-]|].
  destruct (negb _); [done|]. destruct (st !! components final) as [[|c]|]; [done| |];
    intros [= <-] H1 H2; by rewrite lookup_insert_ne, lookup_delete_ne.
Qed.

Lemma write_atomic_frame st tmp final b k :
  k ≠ components tmp → k ≠ components final → (write_atomic st tmp final b).2 !! k = st !! k.
Proof.
  intros H1 H2. unfold write_atomic. destruct (open_truncate st tmp) as [st1|e] eqn:E; [|done].
  apply open_truncate_Ok in E as ->.
  assert (∀ b', Store.append (<[components tmp := NFile []]> st) tmp b'
                = <[components tmp := NFile b']> st) as Ha.
  { intros b'. rewrite (append_eq _ _ []); [|apply lookup_insert_eq]. by rewrite insert_insert_eq. }
  destruct fault as [[op e]|].
  { destruct (String.eqb op "write"); cbn [snd]; rewrite ?Ha; by rewrite lookup_insert_ne. }
  rewrite Ha. destruct (rename _ _ _) as [st3|e] eqn:Er; cbn [snd].
  - eapply rename_file_frame in Er; [|apply lookup_insert_eq|exact H1|done]. by rewrite Er, lookup_insert_ne.
  - by rewrite remove_file_lookup_ne, lookup_insert_ne.
Qed.

(** What a call may do to the files: entries below the cache directory of the
    plugin, and the directories down to it where there was nothing. *)
Definition cache_key (ctx : HostCtx) : list (list Z) := components (join (workdir ctx) (lit "cache")).
Definition confined (ctx : HostCtx) (st st' : store) : Prop :=
  ∀ k, st' !! k = st !! k
     ∨ (cache_key ctx `prefix_of` k ∧ k ≠ cache_key ctx)
     ∨ (k `prefix_of` cache_key ctx ∧ st !! k = None ∧ st' !! k = Some NDir).

Lemma write_cache_confined st params ctx : confined ctx st (host_fs_write_cache st params ctx).2.
Proof.
  intros k. unfold host_fs_write_cache.
  destruct (get_str "name" params) as [name|]; [|by left]. destruct (get_str "bytes_base64" params); [|by left].
  destruct (validate_cache_name name) as [[]|] eqn:Ev; [|by left].
  destruct (base64_decode _) as [bytes|]; [|by left].
  destruct (create_dir_all _ _) as [st1|] eqn:Ec; [|by left]. cbv zeta.
  set (final := join _ (lit name)). set (tmp := join _ (lit "." ++ _)).
  pose proof (write_atomic_frame st1 tmp final bytes k) as Hfr.
  assert (∀ s', s' = (write_atomic st1 tmp final bytes).2 →
    s' !! k = st !! k ∨ (cache_key ctx `prefix_of` k ∧ k ≠ cache_key ctx)
    ∨ (k `prefix_of` cache_key ctx ∧ st !! k = None ∧ s' !! k = Some NDir)) as H.
  2:{ specialize (H _ eq_refl). by destruct (write_atomic st1 tmp final bytes) as [[[]|] ?]. }
  intros s' ->. apply cache_name_inside in Ev as ([Hp Hn] & Hpt & Hnt).
  assert (∀ n, components n ≠ [] → is_plain n → k = components (join (join (workdir ctx) (lit "cache")) n) →
    cache_key ctx `prefix_of` k ∧ k ≠ cache_key ctx) as Hin.
  { intros n Hn' Hp' ->. rewrite components_join_plain by done. unfold cache_key. split; [by eexists|].
    intros H. rewrite <- (app_nil_r (components (join (workdir ctx) (lit "cache")))) in H at 2.
    by apply app_inv_head in H. }
  destruct (decide (k = components tmp)) as [Ht|Ht]; [right; left; by apply (Hin (lit "." ++ lit name ++ lit ".tmp"))|].
  destruct (decide (k = components final)) as [Hf|Hf]; [right; left; by apply (Hin (lit name))|].
  rewrite Hfr by done. destruct (create_dir_all_lookup _ _ _ k Ec) as [->|(H1 & H2 & H3)];
    [by left|right; right; by split_and!].
Qed.

(** ** Properties *)

(** The grant of an effect by the manifest. *)
Definition granted (m : Manifest) (e : Effect) : Prop :=
  match e with
  | ERead p | EStat p => path_matches_any (fs_read (needs m)) p = true
  | ERun program _ _ => program ∈ needs_exec (needs m)
  | ENotify (Banner i _ _) | ENotify (Waybar i _ _ _) => i = id (plugin m)
  | EPreview (Image i _) => i = id (plugin m) ∧ "image_show" ∈ preview (needs m)
  | EPreview (PText i _) => i = id (plugin m) ∧ "text" ∈ preview (needs m)
  end.

Lemma check_fs_read_Ok params m path : check_fs_read_scope params m = Ok tt →
  get_str "path" params = Some path → path_matches_any (fs_read (needs m)) path = true.
Proof.
  unfold check_fs_read_scope. intros H E. rewrite E in H.
  destruct (validate_path path); [|done]. cbn [rbind] in H. by destruct (path_matches_any _ _).
Qed.

Lemma check_exec_Ok params m a program args : check_exec_argv params m = Ok tt →
  jget "argv" params ≫= json_arr = Some a → omap json_str a = program :: args →
  program ∈ needs_exec (needs m).
Proof.
  unfold check_exec_argv, argv0. intros H E Ho. rewrite E in H. cbn [mbind option_bind] in H.
  destruct a as [|v a]; [done|]. cbn [head mbind option_bind] in H.
  destruct (json_str v) as [s|] eqn:Ev; [|done]. cbn in Ho. rewrite Ev in Ho. injection Ho as -> _.
  apply mem_iff. by destruct (mem program _).
Qed.

(** C20. A plugin gets nothing its manifest does not grant: whatever method and
    parameters it sends, the host reads only paths that match a declared pattern,
    runs only a declared program, shows previews only when declared and under the
    plugin's own id, and changes files only with the cache grant and only inside
    the plugin's cache directory. *)
Theorem host_call_within_grant st method params ctx m :
  let '(_, st', effects) := dispatch st method params ctx m in
  Forall (granted m) effects
  ∧ confined ctx st st'
  ∧ (st' ≠ st → "cache" ∈ fs_write (needs m)).
Proof.
  assert (confined ctx st st) as Hrefl by (intros k; by left).
  unfold dispatch. destruct (negb _); [by split_and!|].
  unfold check_cap. repeat match goal with |- context [String.eqb method ?n] =>
    destruct (String.eqb_spec method n) as [->|?]; cbn [orb String.eqb Ascii.eqb Bool.eqb] end.
  - destruct (check_fs_read_scope params m) as [[]|] eqn:E; [|by split_and!]. unfold host_fs_read.
    destruct (get_str "path" params) as [path|] eqn:Ep; [|by split_and!].
    pose proof (check_fs_read_Ok _ _ _ E Ep). destruct (Store.read st (lit path)); (split_and!; [by constructor|done..]).
  - destruct (check_fs_read_scope params m) as [[]|] eqn:E; [|by split_and!]. unfold host_fs_cha.
    destruct (get_str "path" params) as [path|] eqn:Ep; [|by split_and!].
    pose proof (check_fs_read_Ok _ _ _ E Ep). destruct (metadata path) as [[]|]; (split_and!; [by constructor|done..]).
  - unfold check_fs_write_cache_scope. destruct (mem "cache" _) eqn:E; [|by split_and!].
    apply mem_iff in E. pose proof (write_cache_confined st params ctx) as Hc.
    destruct (host_fs_write_cache st params ctx) as [r s]. by split_and!.
  - destruct (check_exec_argv params m) as [[]|] eqn:E; [|by split_and!]. unfold host_exec_run.
    destruct (jget "argv" params ≫= json_arr) as [a|] eqn:Ea; [|by split_and!].
    destruct (omap json_str a) as [|program args] eqn:Eo; [by split_and!|].
    pose proof (check_exec_Ok _ _ _ _ _ E Ea Eo).
    destruct (match get_str "stdin" params with None => _ | Some _ => _ end) as [stdin|]; [|by split_and!].
    destruct (run_child program args stdin) as [[[? ?] ?]|]; (split_and!; [by constructor|done..]).
  - unfold check_preview_scope. destruct (mem "image_show" _) eqn:E; [|by split_and!]. apply mem_iff in E.
    unfold host_preview_image_show, show_preview. destruct (get_str "png_base64" params); [|by split_and!].
    destruct (base64_decode _); [|by split_and!].
    destruct (preview_tx ctx) as [[]|]; (split_and!; [by repeat constructor|done..]).
  - unfold check_preview_scope. destruct (mem "text" _) eqn:E; [|by split_and!]. apply mem_iff in E.
    unfold host_preview_text, show_preview. destruct (get_str "content" params); [|by split_and!].
    destruct (preview_tx ctx) as [[]|]; (split_and!; [by repeat constructor|done..]).
  - unfold host_notify_banner, notify. destruct (get_str "message" params); [|by split_and!].
    destruct (notify_open ctx); (split_and!; [by repeat constructor|done..]).
  - unfold host_notify_waybar, notify. destruct (get_str "text" params); [|by split_and!].
    destruct (notify_open ctx); (split_and!; [by repeat constructor|done..]).
  - by split_and!.
  - by split_and!.
Qed.

(** A text of bytes survives JSON. *)
Lemma lit_of_text t : Forall is_byte t → lit (of_text t) = t.
Proof.
  intros H. unfold lit, of_text. rewrite String.list_ascii_of_string_of_list_ascii, map_map.
  rewrite <- (map_id t) at 2. apply map_ext_in. intros c Hc. rewrite Forall_forall in H.
  specialize (H c (proj2 (list_elem_of_In _ _) Hc)). unfold is_byte in H.
  rewrite nat_ascii_embedding by lia. lia.
Qed.

Lemma encoded_bytes input : Forall is_byte (base64_encode input).
Proof. eapply Forall_impl; [apply encode_plain|]. intros c (_ & _ & H). unfold is_byte. lia. Qed.

(** Reading through the host is reading the file: for a granted path, the
    reply holds the bytes of the file, up to the length asked for, and the
    plugin kit's decoder gives them back; without the grant, the same call reads
    nothing and is refused. *)
Theorem plugin_reads_the_file st path max ctx m c :
  validate_path path = Ok tt →
  st !! components (lit path) = Some (NFile c) → Forall is_byte c → (0 <= max < U64_MOD)%Z →
  let params := JObj [("path", JStr path); ("max_bytes", JNum max)] in
  if path_matches_any (fs_read (needs m)) path then
    ∃ v s, dispatch st "host.fs.read" params ctx m = (Ok v, st, [ERead path])
      ∧ get_str "bytes_base64" v = Some s
      ∧ guest_decode (lit s) = Some (take (Z.to_nat max) c)
  else dispatch st "host.fs.read" params ctx m = (Err (cap_not_granted "fs_read"), st, []).
Proof.
  intros Hv Hst Hc Hm params. unfold dispatch. change (negb (Capability.knows "host.fs.read")) with false.
  cbv iota. unfold check_cap. cbn [String.eqb Ascii.eqb Bool.eqb orb].
  unfold check_fs_read_scope, host_fs_read. change (get_str "path" params) with (Some path).
  cbv iota. rewrite Hv. cbn [rbind]. destruct (path_matches_any _ path); [|done].
  unfold Store.read, Store.find. rewrite Hst. cbv iota.
  change (jget "max_bytes" params ≫= as_u64) with (as_u64 (JNum max)). unfold as_u64.
  rewrite (proj2 (Z.leb_le 0 max)), (proj2 (Z.ltb_lt max U64_MOD)) by lia. cbn [andb].
  set (body := if (_ <? _)%Z then _ else _). assert (body = take (Z.to_nat max) c) as ->.
  { subst body. destruct (Z.ltb_spec max (Z.of_nat (length c))); [done|]. by rewrite take_ge by lia. }
  eexists _, _. split; [done|]. split; [done|]. rewrite lit_of_text by apply encoded_bytes.
  by apply base64_decodes, Forall_take.
Qed.

(** A cache write is atomic: accepted, the entry holds exactly the bytes sent
    and no temporary file is left; refused for its name, its bytes or by the
    kernel, whatever the entry held before is still there. *)
Theorem cache_write_outcome st name bytes ctx m :
  "cache" ∈ fs_write (needs m) → Forall is_byte bytes → fault = None →
  let final := join (join (workdir ctx) (lit "cache")) (lit name) in
  let tmp := join (join (workdir ctx) (lit "cache")) (lit "." ++ lit name ++ lit ".tmp") in
  components tmp ≠ components final →
  let params := JObj [("name", JStr name); ("bytes_base64", JStr (of_text (base64_encode bytes)))] in
  match dispatch st "host.fs.write_cache" params ctx m with
  | (Ok v, st', _) => validate_cache_name name = Ok tt
      ∧ st' !! components final = Some (NFile bytes) ∧ st' !! components tmp = None
  | (Err _, st', _) => st !! components final ≠ None → st' !! components final = st !! components final
  end.
Proof.
  intros Hg Hb Hf final tmp Hne params. unfold dispatch.
  change (negb (Capability.knows "host.fs.write_cache")) with false. cbv iota.
  unfold check_cap. cbn [String.eqb Ascii.eqb Bool.eqb orb].
  unfold check_fs_write_cache_scope. rewrite (proj2 (mem_iff _ _) Hg).
  unfold host_fs_write_cache. change (get_str "name" params) with (Some name).
  change (get_str "bytes_base64" params) with (Some (of_text (base64_encode bytes))). cbv iota.
  destruct (validate_cache_name name) as [[]|e] eqn:Ev; [|done].
  rewrite lit_of_text by apply encoded_bytes. rewrite base64_decodes_host by done.
  destruct (create_dir_all st _) as [st1|e] eqn:Ec; [|done]. cbv zeta. fold final tmp.
  assert (st !! components final ≠ None → st1 !! components final = st !! components final) as H1.
  { intros Hn. by destruct (create_dir_all_lookup _ _ _ (components final) Ec) as [->|(? & _)]. }
  unfold write_atomic. rewrite Hf.
  destruct (open_truncate st1 tmp) as [st2|e] eqn:Eo; [|done]. apply open_truncate_Ok in Eo as ->.
  rewrite (append_eq _ _ []), insert_insert_eq by apply lookup_insert_eq. cbn [app].
  destruct (rename _ tmp final) as [st3|e] eqn:Er.
  - split; [done|]. unfold rename in Er. rewrite lookup_insert_eq, decide_False in Er by done.
    destruct (negb _); [done|]. destruct (<[components tmp := NFile bytes]> st1 !! components final) as [[|d]|]; [done| |]; injection Er as <-;
      by rewrite lookup_insert_eq, lookup_insert_ne, lookup_delete_eq.
  - intros Hn. rewrite remove_file_lookup_ne, lookup_insert_ne by done. by apply H1.
Qed.
End host.

(** *** A plugin with a read pattern and the cache grant *)
Module Sim.
Definition glob_new (g : string) : result string string := Ok g.
Definition is_match (g p : string) : bool := String.eqb g p.
Definition errno_str (e : errno) : string := "os error".
Definition metadata (p : string) : result (Z * Z) errno := Err ENOENT.
Definition run_child (p : string) (args : list string) (i : list Z) : result (Z * list Z * list Z) string :=
  Ok (0%Z, [], []).
Definition manifest : Manifest :=
  mkManifest "1" (mkPluginMeta "p" "" "" "" [] "" "" "1" "1" (mkBinarySpec "run" []) None) []
    (mkNeeds ["/f"] ["cache"] [] [] [] []) default_limits [] None.
Definition ctx : HostCtx := mkHostCtx (lit "/w") true JNull None.
Definition st : store := {[ components (lit "/") := NDir; components (lit "/f") := NFile [104; 105; 33]%Z ]}.
Notation dispatch := (dispatch glob_new is_match errno_str metadata run_child None).
End Sim.

Lemma plugin_reads_the_file_witness :
  validate_path "/f" = Ok tt
  ∧ Sim.st !! components (lit "/f") = Some (NFile [104; 105; 33]%Z)
  ∧ ∃ v s, Sim.dispatch Sim.st "host.fs.read" (JObj [("path", JStr "/f"); ("max_bytes", JNum 2)]) Sim.ctx Sim.manifest
           = (Ok v, Sim.st, [ERead "/f"])
      ∧ get_str "bytes_base64" v = Some s ∧ guest_decode (lit s) = Some [104; 105]%Z.
Proof.
  assert (Sim.st !! components (lit "/f") = Some (NFile [104; 105; 33]%Z)) as Hf by (by apply lookup_insert_ne || by vm_compute).
  split; [done|]. split; [done|].
  apply (plugin_reads_the_file Sim.glob_new Sim.is_match Sim.errno_str Sim.metadata Sim.run_child None
    Sim.st "/f" 2 Sim.ctx Sim.manifest [104; 105; 33]%Z); [done|done|repeat constructor; done|done].
Defined.

Lemma cache_write_outcome_witness :
  let params := JObj [("name", JStr "n"); ("bytes_base64", JStr (of_text (base64_encode [1; 2]%Z)))] in
  let final := join (join (lit "/w") (lit "cache")) (lit "n") in
  match Sim.dispatch Sim.st "host.fs.write_cache" params Sim.ctx Sim.manifest with
  | (Ok v, st', _) => validate_cache_name "n" = Ok tt
      ∧ st' !! components final = Some (NFile [1; 2]%Z)
      ∧ st' !! components (join (join (lit "/w") (lit "cache")) (lit "." ++ lit "n" ++ lit ".tmp")) = None
  | (Err _, st', _) => Sim.st !! components final ≠ None → st' !! components final = Sim.st !! components final
  end.
Proof.
  apply (cache_write_outcome Sim.glob_new Sim.is_match Sim.errno_str Sim.metadata Sim.run_child None
    Sim.st "n" [1; 2]%Z Sim.ctx Sim.manifest).
  - apply list_elem_of_singleton. done.
  - repeat constructor; done.
  - done.
  - by vm_compute.
Defined.

(** A name of two components is taken for a single file: the write then fails on
    the temporary name, whose directory is another. *)
Example nested_cache_name :
  validate_cache_name "a/b" = Ok tt
  ∧ components (lit "." ++ lit "a/b" ++ lit ".tmp") = [lit ".a"; lit "b.tmp"]
  ∧ validate_cache_name "../a" = Err (invalid_path "cache name must be a single relative file" "../a").
Proof. by vm_compute. Qed.

End HostFns.
