(* ===== verification/PluginProc.v ===== *)
(** * The plugin supervisor and the preview bridge

    [crates/sy-filemanager/src/plugin/proc.rs]: one actor per plugin process,
    with its table of requests in flight, its pings and its restart ladder; and
    [file/plugin_bridge.rs], which asks a plugin for a preview. What arrives at
    the actor (commands, frames, the end of the pipe, timers) are events, with
    the outcome of the writes they make; each start of a child succeeds or not
    as the environment has it. *)

From S2P Require Import Prelude Lists Text Paths Wire PluginWire Plugin.
Import Lists Text Paths Wire Base64 Rpc Manifest Capability Registry.
Local Open Scope string_scope.
Local Open Scope nat_scope.
Local Open Scope list_scope.

Module Proc.

Definition MAX_RESTART_ATTEMPTS : Z := 3%Z.
Definition BACKOFF_BASE_MS : Z := 100%Z.
Definition MS : Z := 1000000%Z.
Definition DEFAULT_PING_INTERVAL : Z := (30000 * MS)%Z.
Definition DEFAULT_PING_TIMEOUT : Z := (5000 * MS)%Z.

Inductive State : Type :=
| Spawning
| Ready
| ShuttingDown
| Restarting (attempts : Z)
| Unhealthy (attempts : Z) (last_err : string).

Record SpawnOpts := mkSpawnOpts {
  host_name : string; host_version : string; host_api : list string;
  ping_interval : Z; ping_timeout : Z; request_timeout : Z;
  max_restart_attempts : Z; has_host_ctx : bool
}.
(** [SpawnOpts::new]. *)
Definition new_opts (version : string) : SpawnOpts :=
  mkSpawnOpts "sy" version ["1"] DEFAULT_PING_INTERVAL DEFAULT_PING_TIMEOUT (10000 * MS) MAX_RESTART_ATTEMPTS false.

(** A oneshot reply channel. *)
Notation Reply := nat (only parsing).

(** The state of [run_actor], with a log of what it sent to whom: replies to
    requests, channels dropped without one, ids given to requests, host calls
    started, pauses made and starts of a child. *)
Record Actor := mkActor {
  next_req_id : Z;
  in_flight : gmap Z nat;
  attempts : Z;
  last_ping : Instant;
  ping_in_flight : option (Z * Instant);
  health : State;
  running : bool;
  generation : nat;
  answers : list (nat * result json RpcError);
  dropped : list nat;
  assigned : list (nat * Z);
  host_calls : list json;
  shutdowns : list (nat * result unit RpcError);
  slept : list Z;
  boots : nat
}.

Definition set_health (h : State) (a : Actor) : Actor :=
  mkActor (next_req_id a) (in_flight a) (attempts a) (last_ping a) (ping_in_flight a) h (running a)
    (generation a) (answers a) (dropped a) (assigned a) (host_calls a) (shutdowns a) (slept a) (boots a).
Definition set_in_flight (m : gmap Z nat) (a : Actor) : Actor :=
  mkActor (next_req_id a) m (attempts a) (last_ping a) (ping_in_flight a) (health a) (running a)
    (generation a) (answers a) (dropped a) (assigned a) (host_calls a) (shutdowns a) (slept a) (boots a).
Definition set_ping (p : option (Z * Instant)) (a : Actor) : Actor :=
  mkActor (next_req_id a) (in_flight a) (attempts a) (last_ping a) p (health a) (running a)
    (generation a) (answers a) (dropped a) (assigned a) (host_calls a) (shutdowns a) (slept a) (boots a).
Definition answer (l : list (nat * result json RpcError)) (a : Actor) : Actor :=
  mkActor (next_req_id a) (in_flight a) (attempts a) (last_ping a) (ping_in_flight a) (health a) (running a)
    (generation a) (answers a ++ l) (dropped a) (assigned a) (host_calls a) (shutdowns a) (slept a) (boots a).
Definition call_host (v : json) (a : Actor) : Actor :=
  mkActor (next_req_id a) (in_flight a) (attempts a) (last_ping a) (ping_in_flight a) (health a) (running a)
    (generation a) (answers a) (dropped a) (assigned a) (host_calls a ++ [v]) (shutdowns a) (slept a) (boots a).
Definition take_id (a : Actor) : Actor :=
  mkActor (next_req_id a + 1) (in_flight a) (attempts a) (last_ping a) (ping_in_flight a) (health a) (running a)
    (generation a) (answers a) (dropped a) (assigned a) (host_calls a) (shutdowns a) (slept a) (boots a).
Definition set_last_ping (t : Instant) (a : Actor) : Actor :=
  mkActor (next_req_id a) (in_flight a) (attempts a) t (ping_in_flight a) (health a) (running a)
    (generation a) (answers a) (dropped a) (assigned a) (host_calls a) (shutdowns a) (slept a) (boots a).
(** A request is on its way under an id. *)
Definition launch (rid : Z) (h : nat) (a : Actor) : Actor :=
  mkActor (next_req_id a) (<[rid := h]> (in_flight a)) (attempts a) (last_ping a) (ping_in_flight a) (health a)
    (running a) (generation a) (answers a) (dropped a) (assigned a ++ [(h, rid)]) (host_calls a) (shutdowns a)
    (slept a) (boots a).
(** The actor returns: the channels still in the table are dropped. *)
Definition stop (a : Actor) : Actor :=
  mkActor (next_req_id a) ∅ (attempts a) (last_ping a) (ping_in_flight a) (health a) false
    (generation a) (answers a) (dropped a ++ map snd (map_to_list (in_flight a))) (assigned a) (host_calls a)
    (shutdowns a) (slept a) (boots a).
Definition reply_shutdown (h : nat) (r : result unit RpcError) (a : Actor) : Actor :=
  mkActor (next_req_id a) (in_flight a) (attempts a) (last_ping a) (ping_in_flight a) (health a) (running a)
    (generation a) (answers a) (dropped a) (assigned a) (host_calls a) (shutdowns a ++ [(h, r)]) (slept a) (boots a).
(** One more attempt, after its pause. *)
Definition pause (ms : Z) (a : Actor) : Actor :=
  mkActor (next_req_id a) (in_flight a) (attempts a + 1) (last_ping a) (ping_in_flight a) (Restarting (attempts a + 1))
    (running a) (generation a) (answers a) (dropped a) (assigned a) (host_calls a) (shutdowns a) (slept a ++ [ms])
    (boots a).
Definition booted (up : bool) (a : Actor) : Actor :=
  mkActor (next_req_id a) (in_flight a) (attempts a) (last_ping a) (ping_in_flight a)
    (if up then Ready else health a) (running a) (if up then S (generation a) else generation a)
    (answers a) (dropped a) (assigned a) (host_calls a) (shutdowns a) (slept a) (S (boots a)).

(** [fail_in_flight]. *)
Definition fail_in_flight (why : string) (a : Actor) : Actor :=
  set_in_flight ∅ (answer (map (λ ih, (ih.2, Err (Unavailable why))) (map_to_list (in_flight a))) a).

(** How a graceful shutdown ended for the child. *)
Inductive Exit : Type := Reaped | WaitFailed (e : string) | Killed.

(** What the actor's [select!] wakes up for. *)
Inductive Event : Type :=
| CmdClosed
| CmdRequest (reply : Reply) (method : string) (params : json) (sent : result unit string)
| CmdShutdown (reply : Reply) (exit : Exit)
| Incoming (v : json)
| Eof
| PingDue (now : Instant) (sent : bool)
| PingDeadline (now : Instant).

Section actor.
Context (opts : SpawnOpts) (m : Manifest).
(** [boot_child] and [perform_handshake] of the n-th restart; [serde_json] on
    requests and responses; the clock of a ping. *)
Context (boot : nat → result unit string).
Context (to_value : Request → result json string) (response_of_json : json → result Response string).
Context (now_ms : Instant → Z).

(** [restart_if_attempts_remain]: [None] when the fuel runs out. *)
Fixpoint restart (fuel : nat) (a : Actor) : option (bool * Actor) :=
  match fuel with
  | 0 => None
  | S fuel =>
      if (max_restart_attempts opts <=? attempts a)%Z then
        Some (false, set_health (Unhealthy (attempts a) "exhausted restart attempts") a)
      else
        let a := pause (Z.shiftl BACKOFF_BASE_MS (attempts a)) a in
        match boot (boots a) with
        | Ok _ => Some (true, booted true a)
        | Err e =>
            let a := booted false a in
            if (max_restart_attempts opts <=? attempts a)%Z then
              Some (false, set_health (Unhealthy (attempts a) e) a)
            else restart fuel a
        end
  end.
Definition restart_if_attempts_remain (a : Actor) : option (bool * Actor) :=
  restart (S (Z.to_nat (max_restart_attempts opts - attempts a))) a.

(** [do_shutdown], for the reply. *)
Definition do_shutdown (exit : Exit) : result unit RpcError :=
  match exit with
  | Reaped => Ok tt
  | WaitFailed e => Err (Transport ("wait: " ++ e)%string)
  | Killed => Err (Timeout (Z.max (shutdown_timeout_ms (limits m)) 50 * MS)%Z)
  end.

(** The frame answers the ping that is out. *)
Definition answers_ping (rid : Z) (a : Actor) : bool :=
  match ping_in_flight a with Some (pid, _) => (pid =? rid)%Z | None => false end.

(** [route_incoming_frame]. *)
Definition route_incoming_frame (v : json) (a : Actor) : Actor :=
  let id_val := jget "id" v in
  let has_method := bool_decide (is_Some (jget "method" v)) in
  if has_method && match id_val with Some JNull | None => false | Some _ => true end then call_host v a
  else
    match id_val with
    | None => a
    | Some idv =>
        match json_i64 idv with
        | None => a
        | Some rid =>
            if answers_ping rid a then set_ping None a
            else
              match in_flight a !! rid with
              | None => a
              | Some h =>
                  let a := set_in_flight (delete rid (in_flight a)) a in
                  match response_of_json v with
                  | Err e => answer [(h, Err (Transport ("parse response: " ++ e)%string))] a
                  | Ok r =>
                      match rs_error r with
                      | Some err => answer [(h, Err (peer_error err))] a
                      | None => answer [(h, Ok (default JNull (rs_result r)))] a
                      end
                  end
              end
        end
    end.

(** One turn of the loop of [run_actor]. *)
Definition on_event (a : Actor) (e : Event) : option Actor :=
  match e with
  | CmdClosed => Some (stop a)
  | CmdRequest h method params sent =>
      let rid := next_req_id a in
      let a := take_id a in
      match to_value (mkRequest (JNum rid) method params) with
      | Err e => Some (answer [(h, Err (Transport ("encode: " ++ e)%string))] a)
      | Ok _ =>
          match sent with
          | Err e =>
              '(ok, a) ← restart_if_attempts_remain (answer [(h, Err (Transport ("send: " ++ e)%string))] a);
              Some (if ok : bool then a else stop (fail_in_flight "supervisor unhealthy" a))
          | Ok _ => Some (launch rid h a)
          end
      end
  | CmdShutdown h exit => Some (stop (reply_shutdown h (do_shutdown exit) (set_health ShuttingDown a)))
  | Incoming v => Some (route_incoming_frame v a)
  | Eof =>
      '(ok, a) ← restart_if_attempts_remain (fail_in_flight "child EOF" a);
      Some (if ok : bool then a else stop a)
  | PingDue now sent =>
      let pid := next_req_id a in
      let a := take_id (set_last_ping now a) in
      match to_value (mkRequest (JNum pid) "ping" (JObj [("ts", JNum (now_ms now))])) with
      | Err _ => Some a
      | Ok _ => Some (if sent then set_ping (Some (pid, now)) a else a)
      end
  | PingDeadline _ =>
      '(ok, a) ← restart_if_attempts_remain (fail_in_flight "ping timeout" (set_ping None a));
      Some (if ok : bool then a else stop a)
  end.

(** Which arms of the [select!] can be taken. *)
Definition enabled (a : Actor) (e : Event) : Prop :=
  running a = true ∧
  match e with
  | PingDue now _ => ping_in_flight a = None ∧ (last_ping a + ping_interval opts <= now)%Z
  | PingDeadline now => ∃ pid t, ping_in_flight a = Some (pid, t) ∧ (t + ping_timeout opts <= now)%Z
  | _ => True
  end.

(** [run_actor] begins after the handshake of [spawn]. *)
Definition start (now : Instant) : Actor :=
  mkActor 2 ∅ 0 now None Ready true 0 [] [] [] [] [] [] 0.

(** The states the actor goes through, with the events so far. *)
Inductive reachable (t0 : Instant) : list Event → Actor → Prop :=
| reach_start : reachable t0 [] (start t0)
| reach_step es a e a' :
    reachable t0 es a → enabled a e → on_event a e = Some a' → reachable t0 (es ++ [e]) a'.

(** The reply channels handed in. *)
Definition issued (es : list Event) : list Reply :=
  omap (λ e, match e with CmdRequest h _ _ _ => Some h | _ => None end) es.

(** [PluginProc::request] once its command is in: what the caller gets when the
    reply channel was answered, or dropped. *)
Definition request_result (a : Actor) (h : Reply) : option (result json RpcError) :=
  match find (λ x, Nat.eqb x.1 h) (answers a) with
  | Some (_, r) => Some r
  | None => if running a then None else Some (Err (Unavailable "actor dropped reply channel"))
  end.


(** ** Lemmas *)

(** What the restart ladder leaves alone. *)
Definition same_books (a a' : Actor) : Prop :=
  next_req_id a' = next_req_id a ∧ in_flight a' = in_flight a ∧ last_ping a' = last_ping a
  ∧ ping_in_flight a' = ping_in_flight a ∧ running a' = running a ∧ answers a' = answers a
  ∧ dropped a' = dropped a ∧ assigned a' = assigned a.

Definition total (l : list Z) : Z := foldr Z.add 0%Z l.
Lemma total_app l k : total (l ++ k) = (total l + total k)%Z.
Proof. unfold total. induction l as [|x l IH]; cbn [app foldr]; [lia|]. rewrite IH. lia. Qed.

(** The pauses of a ladder that went from one count of attempts to another. *)
Definition ladder (from to : Z) : Z := (BACKOFF_BASE_MS * (2 ^ to - 2 ^ from))%Z.

Lemma ladder_nil k : ladder k k = 0%Z.
Proof. unfold ladder, BACKOFF_BASE_MS. lia. Qed.
Lemma ladder_app i j k : (ladder i j + ladder j k = ladder i k)%Z.
Proof. unfold ladder, BACKOFF_BASE_MS. lia. Qed.

Record climbed (a a' : Actor) : Prop := {
  cl_attempts : (attempts a <= attempts a' <= Z.max (attempts a) (max_restart_attempts opts))%Z;
  cl_boots : Z.of_nat (boots a') = (Z.of_nat (boots a) + (attempts a' - attempts a))%Z;
  cl_slept : total (slept a') = (total (slept a) + ladder (attempts a) (attempts a'))%Z
}.

Lemma climbed_refl a h : climbed a (set_health h a).
Proof. split; cbn [attempts boots slept set_health]; [lia|lia|]. rewrite ladder_nil. lia. Qed.

Lemma ladder_step k to : (0 <= k)%Z → (Z.shiftl BACKOFF_BASE_MS k + ladder (k + 1) to = ladder k to)%Z.
Proof. intros Hk. unfold ladder, BACKOFF_BASE_MS. rewrite Z.shiftl_mul_pow2, Z.pow_add_r by lia. change (2 ^ 1)%Z with 2%Z. lia. Qed.

Lemma climbed_pause a up : (0 <= attempts a < max_restart_attempts opts)%Z →
  climbed a (booted up (pause (Z.shiftl BACKOFF_BASE_MS (attempts a)) a)).
Proof.
  intros H. pose proof (ladder_step (attempts a) (attempts a + 1) ltac:(lia)) as Hl. rewrite ladder_nil in Hl.
  split; cbn [attempts boots slept booted pause]; [lia|lia|]. rewrite total_app. cbn [total foldr]. lia.
Qed.

Lemma climbed_trans a b c : climbed a b → climbed b c → climbed a c.
Proof.
  intros [H1 H2 H3] [H1' H2' H3']. split; [lia|lia|].
  pose proof (ladder_app (attempts a) (attempts b) (attempts c)). lia.
Qed.

(** The ladder ends, whatever the environment does. *)
Lemma restart_spec fuel a :
  (0 <= attempts a)%Z → (Z.max 0 (max_restart_attempts opts - attempts a) < Z.of_nat fuel)%Z →
  ∃ ok a', restart fuel a = Some (ok, a') ∧ same_books a a' ∧ climbed a a'
    ∧ if ok : bool then health a' = Ready ∧ generation a' = S (generation a)
      else (∃ e, health a' = Unhealthy (attempts a') e) ∧ generation a' = generation a.
Proof.
  revert a. induction fuel as [|fuel IH]; intros a H0 Hf; [lia|]. cbn [restart].
  destruct (Z.leb_spec (max_restart_attempts opts) (attempts a)) as [Hm|Hm].
  { eexists false, _. split; [done|]. split; [done|]. split; [apply climbed_refl|]. by split; [eexists|]. }
  set (p := pause _ a). assert (attempts p = attempts a + 1)%Z as Hp by done.
  destruct (boot (boots p)) as [u|e].
  { eexists true, _. split; [done|]. split; [done|]. split; [|done]. by apply climbed_pause. }
  assert (climbed a (booted false p)) as Hc by (by apply climbed_pause).
  change (attempts (booted false p)) with (attempts a + 1)%Z.
  destruct (Z.leb_spec (max_restart_attempts opts) (attempts a + 1)) as [Hm'|Hm'].
  { eexists false, _. split; [done|]. split; [done|]. split; [|by split; [eexists|]].
    eapply climbed_trans; [done|]. apply climbed_refl. }
  destruct (IH (booted false p)) as (ok & a' & E & Hb & Hc' & Hok);
    [change (attempts (booted false p)) with (attempts a + 1)%Z; lia..|].
  exists ok, a'. split; [done|]. split; [done|]. split; [by eapply climbed_trans|by destruct ok].
Qed.

Lemma restart_remain a : (0 <= attempts a)%Z →
  ∃ ok a', restart_if_attempts_remain a = Some (ok, a') ∧ same_books a a' ∧ climbed a a'
    ∧ if ok : bool then health a' = Ready ∧ generation a' = S (generation a)
      else (∃ e, health a' = Unhealthy (attempts a') e) ∧ generation a' = generation a.
Proof. intros H. apply restart_spec; [done|]. lia. Qed.

(** *** Where every reply channel is *)

Definition held (a : Actor) : list Reply :=
  map fst (answers a) ++ map snd (map_to_list (in_flight a)) ++ dropped a.

Lemma held_same a a' : same_books a a' → held a' = held a.
Proof. intros (_ & H1 & _ & _ & _ & H2 & H3 & _). unfold held. by rewrite H1, H2, H3. Qed.

Lemma held_answer h r a : held (answer [(h, r)] a) ≡ₚ h :: held a.
Proof. unfold held. cbn [answers answer in_flight dropped]. rewrite map_app. cbn [map fst]. solve_Permutation. Qed.

Lemma held_fail why a : held (fail_in_flight why a) ≡ₚ held a.
Proof.
  unfold held. cbn [fail_in_flight answers answer set_in_flight in_flight dropped].
  rewrite map_app, map_map, map_to_list_empty. cbn [map fst app]. by rewrite <- app_assoc.
Qed.

Lemma held_stop a : held (stop a) ≡ₚ held a.
Proof.
  unfold held. cbn [stop answers in_flight dropped]. rewrite map_to_list_empty. cbn [map app]. solve_Permutation.
Qed.

Lemma held_launch rid h a : in_flight a !! rid = None → held (launch rid h a) ≡ₚ h :: held a.
Proof.
  intros H. unfold held. cbn [launch answers in_flight dropped]. rewrite map_to_list_insert by done.
  cbn [map snd]. solve_Permutation.
Qed.

Lemma held_take rid h a : in_flight a !! rid = Some h →
  held a ≡ₚ h :: held (set_in_flight (delete rid (in_flight a)) a).
Proof.
  intros H. unfold held. cbn [answers in_flight dropped set_in_flight].
  rewrite <- (map_to_list_delete (in_flight a) rid h) by done. cbn [map snd]. solve_Permutation.
Qed.

Lemma held_route v a : held (route_incoming_frame v a) ≡ₚ held a.
Proof.
  unfold route_incoming_frame. destruct (_ && _); [done|]. destruct (jget "id" v) as [idv|]; [|done].
  destruct (json_i64 idv) as [rid|]; [|done]. destruct (answers_ping rid a); [done|].
  destruct (in_flight a !! rid) as [h|] eqn:E; [|done]. rewrite (held_take rid h a E).
  destruct (response_of_json v) as [r|]; [destruct (rs_error r)|]; apply held_answer.
Qed.

(** Ids only grow, and the table holds ids given before. *)
Definition ids_ok (a : Actor) : Prop := ∀ rid, is_Some (in_flight a !! rid) → (rid < next_req_id a)%Z.

Definition handle_of (e : Event) : list Reply := match e with CmdRequest h _ _ _ => [h] | _ => [] end.

Lemma restart_cases a (k : bool → Actor → Actor) (P : Actor → Prop) x : (0 <= attempts a)%Z →
  ('(ok, a) ← restart_if_attempts_remain a; Some (k ok a)) = Some x →
  (∀ ok a', same_books a a' → climbed a a' → P (k ok a')) → P x.
Proof.
  intros H0 E HP. destruct (restart_remain a H0) as (ok & a' & Er & Hb & Hc & _). rewrite Er in E.
  cbn [mbind option_bind] in E. injection E as <-. by apply HP.
Qed.

Lemma held_event a e a' : (0 <= attempts a)%Z → ids_ok a → on_event a e = Some a' →
  held a' ≡ₚ handle_of e ++ held a.
Proof.
  intros H0 Hids. destruct e as [|h method params sent|h exit|v| |now sent|now]; cbn [on_event handle_of app].
  - intros [= <-]. apply held_stop.
  - destruct (to_value _) as [v|]; [|intros [= <-]; by rewrite held_answer].
    destruct sent as [u|e].
    + intros [= <-]. rewrite held_launch; [done|]. cbn [in_flight take_id].
      apply eq_None_not_Some. intros Hs%Hids. lia.
    + intros H. refine (restart_cases (answer [(h, Err (Transport ("send: " ++ e)%string))] (take_id a))
        (λ ok a, if ok then a else stop (fail_in_flight "supervisor unhealthy" a))
        (λ x, held x ≡ₚ h :: held a) a' H0 H _).
      intros ok a1 Hb _. apply held_same in Hb. destruct ok; [|rewrite held_stop, held_fail]; rewrite Hb, held_answer; done.
  - intros [= <-]. by rewrite held_stop.
  - intros [= <-]. apply held_route.
  - intros H. refine (restart_cases (fail_in_flight "child EOF" a) (λ ok a, if ok then a else stop a)
      (λ x, held x ≡ₚ held a) a' H0 H _).
    intros ok a1 Hb _. apply held_same in Hb. destruct ok; [|rewrite held_stop]; rewrite Hb, held_fail; done.
  - destruct (to_value _); [|by intros [= <-]]. by destruct sent; intros [= <-].
  - intros H. refine (restart_cases (fail_in_flight "ping timeout" (set_ping None a)) (λ ok a, if ok then a else stop a)
      (λ x, held x ≡ₚ held a) a' H0 H _).
    intros ok a1 Hb _. apply held_same in Hb. destruct ok; [|rewrite held_stop]; rewrite Hb, held_fail; done.
Qed.

(** *** The invariant of the actor *)

(** The answer [v] to [h] is the result of a frame that carries its id. *)
Definition justified (es : list Event) (a : Actor) (h : Reply) (v : json) : Prop :=
  ∃ rid frame r, (h, rid) ∈ assigned a ∧ Incoming frame ∈ es
    ∧ jget "id" frame ≫= json_i64 = Some rid
    ∧ response_of_json frame = Ok r ∧ rs_error r = None ∧ v = default JNull (rs_result r).

Record actor_inv (es : list Event) (a : Actor) : Prop := {
  inv_assigned : ∀ rid h, in_flight a !! rid = Some h → (h, rid) ∈ assigned a;
  inv_below : ∀ h rid, (h, rid) ∈ assigned a → (rid < next_req_id a)%Z;
  inv_nodup : NoDup (map snd (assigned a));
  inv_attempts : (0 <= attempts a <= Z.max 0 (max_restart_attempts opts))%Z;
  inv_boots : Z.of_nat (boots a) = attempts a;
  inv_slept : total (slept a) = ladder 0 (attempts a);
  inv_stopped : running a = false → in_flight a = ∅;
  inv_results : ∀ h v, (h, Ok v) ∈ answers a → justified es a h v
}.

Lemma actor_inv_ids es a : actor_inv es a → ids_ok a.
Proof. intros H rid [h Hr]. eapply inv_below; [done|]. by eapply inv_assigned. Qed.

Lemma actor_inv_more es e a : actor_inv es a → actor_inv (es ++ [e]) a.
Proof.
  intros []. split; [done..|]. intros h v Hv. destruct (inv_results0 h v Hv) as (rid & fr & r & H1 & H2 & H3).
  exists rid, fr, r. split; [done|]. split; [|done]. apply elem_of_app. by left.
Qed.

(** Changes that no field of the invariant sees. *)
Lemma actor_inv_ping es a p : actor_inv es a → actor_inv es (set_ping p a).
Proof. by intros []. Qed.
Lemma actor_inv_last_ping es a t : actor_inv es a → actor_inv es (set_last_ping t a).
Proof. by intros []. Qed.
Lemma actor_inv_health es a h : actor_inv es a → actor_inv es (set_health h a).
Proof. by intros []. Qed.
Lemma actor_inv_shutdown es a h r : actor_inv es a → actor_inv es (reply_shutdown h r a).
Proof. by intros []. Qed.
Lemma actor_inv_host es a v : actor_inv es a → actor_inv es (call_host v a).
Proof. by intros []. Qed.

Lemma actor_inv_take es a : actor_inv es a → actor_inv es (take_id a).
Proof. intros []. split; try done. intros h rid H. specialize (inv_below0 h rid H). cbn. lia. Qed.

Lemma actor_inv_answers es a l : actor_inv es a →
  (∀ h v, (h, Ok v) ∈ l → justified es a h v) → actor_inv es (answer l a).
Proof. intros [] Hl. split; try done. intros h v [H|H]%elem_of_app; [by apply inv_results0|by apply Hl]. Qed.

Lemma actor_inv_refuse es a h e : actor_inv es a → actor_inv es (answer [(h, Err e)] a).
Proof. intros H. apply actor_inv_answers; [done|]. by intros h' v [=]%list_elem_of_singleton. Qed.

Lemma actor_inv_table es a M : actor_inv es a → M ⊆ in_flight a → (running a = false → M = ∅) →
  actor_inv es (set_in_flight M a).
Proof. intros [] HM Hr. split; try done. intros rid h H. apply inv_assigned0. by eapply lookup_weaken. Qed.

Lemma actor_inv_fail es a why : actor_inv es a → actor_inv es (fail_in_flight why a).
Proof.
  intros H. apply actor_inv_table; [|apply map_empty_subseteq|done]. apply actor_inv_answers; [done|].
  intros h v Hin. apply list_elem_of_In, in_map_iff in Hin as (x & [=] & _).
Qed.

Lemma actor_inv_stop es a : actor_inv es a → actor_inv es (stop a).
Proof. by intros []. Qed.

Lemma actor_inv_launch es a rid h : actor_inv es a → (rid < next_req_id a)%Z → rid ∉ map snd (assigned a) →
  running a = true → actor_inv es (launch rid h a).
Proof.
  intros [] Hlt Hn Hr. split; cbn [launch in_flight assigned next_req_id attempts boots slept running answers]; try done.
  - intros rid' h' [[<- <-]|[_ H]]%lookup_insert_Some; apply elem_of_app;
      [right; by apply list_elem_of_singleton|left; by apply inv_assigned0].
  - intros h' rid' [H|[= -> ->]%list_elem_of_singleton]%elem_of_app; [by eapply inv_below0|done].
  - rewrite map_app. apply NoDup_app. split; [done|]. split; [|apply NoDup_singleton].
    by intros x Hx ->%list_elem_of_singleton.
  - congruence.
  - intros h' v Hv. destruct (inv_results0 h' v Hv) as (r' & fr & r & H1 & H2). exists r', fr, r.
    split; [|done]. apply elem_of_app. by left.
Qed.

Lemma actor_inv_climb es a a' : actor_inv es a → same_books a a' → climbed a a' → actor_inv es a'.
Proof.
  intros [] (E1 & E2 & _ & _ & E5 & E6 & _ & E8) [H1 H2 H3].
  split; rewrite ?E1, ?E2, ?E5, ?E6, ?E8; [done|done|done|lia|lia| |done|].
  - rewrite H3, inv_slept0. apply ladder_app.
  - intros h v Hv. destruct (inv_results0 h v Hv) as (rid & fr & r & Ha & H). exists rid, fr, r. by rewrite E8.
Qed.

Lemma actor_inv_route es a v : Incoming v ∈ es → running a = true → actor_inv es a →
  actor_inv es (route_incoming_frame v a).
Proof.
  intros Hv Hr H. unfold route_incoming_frame. destruct (_ && _); [by apply actor_inv_host|].
  destruct (jget "id" v) as [idv|] eqn:Ei; [|done]. destruct (json_i64 idv) as [rid|] eqn:Er; [|done].
  destruct (answers_ping rid a); [by apply actor_inv_ping|].
  destruct (in_flight a !! rid) as [h|] eqn:E; [|done].
  assert (actor_inv es (set_in_flight (delete rid (in_flight a)) a)) as Hd.
  { apply actor_inv_table; [done|apply delete_subseteq|congruence]. }
  destruct (response_of_json v) as [r|] eqn:Ej; [|by apply actor_inv_refuse].
  destruct (rs_error r) eqn:Ee; [by apply actor_inv_refuse|]. apply actor_inv_answers; [done|].
  intros h' v' [= -> ->]%list_elem_of_singleton. exists rid, v, r. rewrite Ei. cbn [mbind option_bind].
  split; [by apply (inv_assigned es a H)|done].
Qed.

Lemma actor_inv_event es a e a' : actor_inv es a → enabled a e → on_event a e = Some a' →
  actor_inv (es ++ [e]) a'.
Proof.
  intros H [Hr He]. pose proof (actor_inv_more es e a H) as Hm. assert (0 <= attempts a)%Z as H0 by apply H.
  destruct e as [|h method params sent|h exit|v| |now sent|now]; cbn [on_event].
  - intros [= <-]. by apply actor_inv_stop.
  - pose proof (actor_inv_take _ _ Hm) as Ht.
    destruct (to_value _) as [v|]; [|intros [= <-]; by apply actor_inv_refuse].
    destruct sent as [u|e].
    + intros [= <-]. apply actor_inv_launch; [done|cbn; lia| |done].
      intros Hin. apply list_elem_of_In, in_map_iff in Hin as ([h' rid] & Heq & Hin). apply list_elem_of_In in Hin.
      apply (inv_below _ _ H) in Hin. cbn in Heq. lia.
    + intros E. refine (restart_cases _ (λ ok a, if ok then a else stop (fail_in_flight "supervisor unhealthy" a))
        (actor_inv _) a' _ E _); [done|].
      intros ok a1 Hb Hc. assert (actor_inv (es ++ [CmdRequest h method params (Err e)]) a1)
        by (eapply actor_inv_climb; [by apply actor_inv_refuse|done|done]).
      destruct ok; [done|]. by apply actor_inv_stop, actor_inv_fail.
  - intros [= <-]. by apply actor_inv_stop, actor_inv_shutdown, actor_inv_health.
  - intros [= <-]. apply actor_inv_route; [|done..]. apply elem_of_app. right. by apply list_elem_of_singleton.
  - intros E. refine (restart_cases _ (λ ok a, if ok then a else stop a) (actor_inv _) a' _ E _); [done|].
    intros ok a1 Hb Hc. assert (actor_inv (es ++ [Eof]) a1)
      by (eapply actor_inv_climb; [by apply actor_inv_fail|done|done]).
    destruct ok; [done|]. by apply actor_inv_stop.
  - pose proof (actor_inv_take _ _ (actor_inv_last_ping _ _ now Hm)) as Ht.
    destruct (to_value _); [|by intros [= <-]]. destruct sent; intros [= <-]; [by apply actor_inv_ping|done].
  - intros E. refine (restart_cases _ (λ ok a, if ok then a else stop a) (actor_inv _) a' _ E _); [done|].
    intros ok a1 Hb Hc. assert (actor_inv (es ++ [PingDeadline now]) a1)
      by (eapply actor_inv_climb; [by apply actor_inv_fail, actor_inv_ping|done|done]).
    destruct ok; [done|]. by apply actor_inv_stop.
Qed.

Lemma actor_inv_reachable t0 es a : reachable t0 es a → actor_inv es a.
Proof.
  induction 1 as [|es a e a' _ IH He Ha]; [|by eapply actor_inv_event].
  split; cbn [start in_flight assigned attempts boots slept running answers total foldr]; try done.
  - by intros h rid ?%not_elem_of_nil.
  - apply NoDup_nil_2.
  - lia.
  - by intros h v ?%not_elem_of_nil.
Qed.

Lemma issued_snoc es e : issued (es ++ [e]) = issued es ++ handle_of e.
Proof. unfold issued. rewrite omap_app. by destruct e. Qed.

Lemma held_reachable t0 es a : reachable t0 es a → issued es ≡ₚ held a.
Proof.
  induction 1 as [|es a e a' Hr IH [Hrun He] Ha].
  { unfold held. cbn. by rewrite map_to_list_empty. }
  pose proof (actor_inv_reachable _ _ _ Hr) as Hi.
  rewrite issued_snoc, IH, (held_event a e a'); [apply Permutation_app_comm| |by eapply actor_inv_ids|done].
  apply Hi.
Qed.

Lemma reachable_snoc t0 es e a' : reachable t0 (es ++ [e]) a' →
  ∃ a, reachable t0 es a ∧ enabled a e ∧ on_event a e = Some a'.
Proof.
  intros H. inversion H as [Heq|es0 a e0 a0 Hr He Ha Heq]; [by destruct es|].
  apply app_inj_tail in Heq as [-> ->]. by exists a.
Qed.

Lemma reachable_det t0 es a b : reachable t0 es a → reachable t0 es b → a = b.
Proof.
  intros Ha. revert b. induction Ha as [|es a e a' _ IH He Ha]; intros b Hb.
  - inversion Hb as [|es0 a e0 a0 Hr He Ha Heq]; [done|]. by destruct es0.
  - apply reachable_snoc in Hb as (a0 & H0 & _ & Hb). specialize (IH _ H0) as ->. congruence.
Qed.

Lemma on_event_total a e : (0 <= attempts a)%Z → ∃ a', on_event a e = Some a'.
Proof.
  intros H0. destruct e as [|h method params sent|h exit|v| |now sent|now]; cbn [on_event]; eauto.
  - destruct (to_value _) as [v|]; [|eauto]. destruct sent as [u|e]; [eauto|].
    destruct (restart_remain (answer [(h, Err (Transport ("send: " ++ e)%string))] (take_id a)) H0)
      as (ok & a1 & -> & _). cbn. eauto.
  - destruct (restart_remain (fail_in_flight "child EOF" a) H0) as (ok & a1 & -> & _). cbn. eauto.
  - destruct (to_value _); eauto.
  - destruct (restart_remain (fail_in_flight "ping timeout" (set_ping None a)) H0) as (ok & a1 & -> & _). cbn. eauto.
Qed.

(** ** Properties *)

(** C21. No request to a plugin is lost or answered twice: every reply channel
    handed in is in exactly one place, answered, waiting in the table or dropped
    with the actor; and once the actor has ended, for whatever reason, every
    caller gets an outcome. *)
Theorem requests_conserved t0 es a :
  reachable t0 es a →
  issued es ≡ₚ map fst (answers a) ++ map snd (map_to_list (in_flight a)) ++ dropped a
  ∧ (running a = false → in_flight a = ∅ ∧ ∀ h, h ∈ issued es → is_Some (request_result a h)).
Proof.
  intros H. pose proof (actor_inv_reachable _ _ _ H) as Hi. split; [by apply held_reachable in H|].
  intros Hr. split; [by apply Hi|]. intros h _. unfold request_result. rewrite Hr.
  destruct (find _ _) as [[h' r]|]; eauto.
Qed.

(** C23. An answer goes to the request it belongs to: ids are never given twice,
    across restarts included, and a caller that gets a result gets the one of a
    frame that carried the id of its own request. *)
Theorem answers_match_requests t0 es a :
  reachable t0 es a →
  NoDup (map snd (assigned a))
  ∧ (∀ rid h, in_flight a !! rid = Some h → (h, rid) ∈ assigned a)
  ∧ ∀ h v, (h, Ok v) ∈ answers a → justified es a h v.
Proof. intros H. destruct (actor_inv_reachable _ _ _ H). by split_and!. Qed.

(** The restart ladder ends and is never climbed higher than its budget, over
    the whole life of the actor: every event has an outcome, at most
    [max_restart_attempts] children are started in all, successful starts
    included, and the pauses before them add up to 100 * (2^n - 1) ms for n
    starts. *)
Theorem restarts_bounded t0 es a :
  (0 <= max_restart_attempts opts)%Z →
  reachable t0 es a →
  (∀ e, ∃ a', on_event a e = Some a')
  ∧ (Z.of_nat (boots a) <= max_restart_attempts opts)%Z
  ∧ total (slept a) = (BACKOFF_BASE_MS * (2 ^ Z.of_nat (boots a) - 1))%Z.
Proof.
  intros Hm H. destruct (actor_inv_reachable _ _ _ H). split; [intros e; apply on_event_total; lia|].
  split; [lia|]. by rewrite inv_slept0, inv_boots0.
Qed.

(** Events that have nothing to do with the request [rid]. *)
Definition quiet (rid : Z) (e : Event) : Prop :=
  match e with
  | Incoming v => jget "id" v ≫= json_i64 ≠ Some rid
  | CmdRequest _ _ _ (Ok _) | PingDue _ _ => True
  | _ => False
  end.

Lemma quiet_keeps rid h a e a' : quiet rid e → (rid < next_req_id a)%Z →
  in_flight a !! rid = Some h → running a = true → on_event a e = Some a' →
  in_flight a' !! rid = Some h ∧ running a' = true.
Proof.
  intros Hq Hlt Hf Hr. destruct e as [|h' method params [u|]|h' exit|v| |now sent|now]; try done; cbn [on_event].
  - destruct (to_value _); intros [= <-]; [|done]. cbn. by rewrite lookup_insert_ne by lia.
  - intros [= <-]. unfold route_incoming_frame. destruct (_ && _); [done|].
    cbn [quiet] in Hq. destruct (jget "id" v) as [idv|]; [|done]. cbn [mbind option_bind] in Hq.
    destruct (json_i64 idv) as [rid'|]; [|done]. destruct (answers_ping rid' a); [done|].
    destruct (in_flight a !! rid') as [h'|]; [|done].
    assert (delete rid' (in_flight a) !! rid = Some h) by (rewrite lookup_delete_ne; congruence).
    destruct (response_of_json v) as [r|]; [destruct (rs_error r)|]; done.
  - destruct (to_value _); [|by intros [= <-]]. by destruct sent; intros [= <-].
Qed.

(** A failed write strands the requests before it: the child is replaced and
    healthy, but the requests sent to the old child are neither failed nor sent
    again; as long as the new child only does its own work, they stay
    unanswered for ever. *)
Theorem failed_send_strands_requests t0 es a rid h h2 method params e es' a' :
  reachable t0 es a → in_flight a !! rid = Some h → running a = true →
  is_ok (to_value (mkRequest (JNum (next_req_id a)) method params)) = true →
  (attempts a < max_restart_attempts opts)%Z → boot (boots a) = Ok tt →
  (∃ a1, reachable t0 (es ++ [CmdRequest h2 method params (Err e)]) a1
     ∧ health a1 = Ready ∧ generation a1 = S (generation a))
  ∧ (reachable t0 ((es ++ [CmdRequest h2 method params (Err e)]) ++ es') a' → Forall (quiet rid) es' →
     NoDup (issued ((es ++ [CmdRequest h2 method params (Err e)]) ++ es')) →
     in_flight a' !! rid = Some h ∧ request_result a' h = None).
Proof.
  intros H Hf Hr Hv Hm Hb. pose proof (actor_inv_reachable _ _ _ H) as Hi.
  assert (0 <= attempts a)%Z as H0 by apply Hi.
  set (ev := CmdRequest h2 method params (Err e)).
  assert (∃ a1, on_event a ev = Some a1 ∧ health a1 = Ready ∧ generation a1 = S (generation a)
    ∧ in_flight a1 = in_flight a ∧ running a1 = true) as (a1 & Ha1 & Hh & Hg & Hf1 & Hr1).
  { subst ev. cbn [on_event]. destruct (to_value _); [|done].
    unfold restart_if_attempts_remain. cbn [restart attempts answer take_id].
    rewrite (proj2 (Z.leb_gt _ _)) by done. cbn [boots pause answer take_id]. rewrite Hb.
    eexists. by split_and!. }
  assert (reachable t0 (es ++ [ev]) a1) as Hr1' by (eapply reach_step; [done|by split|done]).
  split; [by exists a1|]. intros H' Hq Hnd.
  assert (in_flight a' !! rid = Some h ∧ running a' = true) as [Hf' Hr'].
  { clear Hnd. revert a' H'. induction es' as [|e' es' IH] using rev_ind; intros a' H'.
    - rewrite app_nil_r in H'. rewrite (reachable_det _ _ _ _ H' Hr1'). by rewrite Hf1.
    - apply Forall_app in Hq as [Hq He']. apply Forall_cons in He' as [He' _]. rewrite app_assoc in H'.
      apply reachable_snoc in H' as (b & Hb' & _ & Ha'). destruct (IH Hq b Hb') as [Hfb Hrb].
      eapply quiet_keeps; [done| |done..]. apply (actor_inv_ids _ _ (actor_inv_reachable _ _ _ Hb')). by eexists. }
  split; [done|]. unfold request_result. rewrite Hr'. destruct (find _ _) as [[h' r]|] eqn:E; [|done].
  apply find_some in E as [Hin E]. cbn [fst] in E. apply Nat.eqb_eq in E as ->. exfalso.
  pose proof (held_reachable _ _ _ H') as Hp. rewrite Hp in Hnd. unfold held in Hnd.
  apply NoDup_app in Hnd as (_ & Hd & _). apply (Hd h).
  - apply list_elem_of_In, in_map_iff. by exists (h, r).
  - apply elem_of_app. left. apply list_elem_of_In, in_map_iff. exists (rid, h). split; [done|].
    apply list_elem_of_In. by apply elem_of_map_to_list.
Qed.

(** *** Runs, for concrete inputs *)

#[local] Instance enabled_dec a e : Decision (enabled a e).
Proof.
  unfold enabled. destruct e as [| | | | |now sent|now]; try apply _.
  apply and_dec; [apply _|]. destruct (ping_in_flight a) as [[pid t]|].
  - destruct (decide (t + ping_timeout opts <= now)%Z); [left; by exists pid, t|].
    right. intros (? & ? & [= -> ->] & ?). lia.
  - right. by intros (? & ? & ? & ?).
Defined.

Fixpoint run (a : Actor) (es : list Event) : option Actor :=
  match es with
  | [] => Some a
  | e :: es => if decide (enabled a e) then on_event a e ≫= λ a, run a es else None
  end.

Lemma events_reachable t0 es a es' a' : reachable t0 es a → run a es' = Some a' → reachable t0 (es ++ es') a'.
Proof.
  revert es a. induction es' as [|e es' IH]; intros es a H; cbn [run]; [intros [= <-]; by rewrite app_nil_r|].
  case_decide as He; [|done]. destruct (on_event a e) as [a1|] eqn:E; [|done]. cbn [mbind option_bind].
  intros Hr. change (e :: es') with ([e] ++ es'). rewrite app_assoc. eapply IH; [|done]. by eapply reach_step.
Qed.
End actor.

(** A plugin that always starts again, and a [serde_json] that keeps the result. *)
Module Sim.
Definition opts : SpawnOpts := new_opts "0".
Definition manifest : Manifest :=
  mkManifest "1" (mkPluginMeta "p" "" "" "" [] "" "" "1" "1" (mkBinarySpec "run" []) None) []
    default_needs default_limits [] None.
Definition boot (n : nat) : result unit string := Ok tt.
Definition to_value (r : Request) : result json string := Ok (rq_params r).
Definition response_of_json (v : json) : result Response string :=
  Ok (mkResponse (default JNull (jget "id" v)) (jget "result" v) None).
Definition now_ms (t : Instant) : Z := t.
Definition reply (id : Z) : json := JObj [("id", JNum id); ("result", JBool true)].
Definition events : list Event :=
  [CmdRequest 0 "preview" JNull (Ok tt); CmdRequest 1 "preview" JNull (Ok tt);
   Incoming (reply 3); Eof; CmdRequest 2 "preview" JNull (Ok tt); CmdClosed].
Notation run := (run opts manifest boot to_value response_of_json now_ms).
Notation reachable := (reachable opts manifest boot to_value response_of_json now_ms).
Definition final : Actor := default (start 0%Z) (run (start 0%Z) events).
Definition waiting : Actor := default (start 0%Z) (run (start 0%Z) [CmdRequest 0 "preview" JNull (Ok tt)]).
Lemma final_reachable : reachable 0%Z events final.
Proof. apply (events_reachable _ _ _ _ _ _ _ [] (start 0%Z) events); [constructor|by vm_compute]. Qed.
Lemma waiting_reachable : reachable 0%Z [CmdRequest 0 "preview" JNull (Ok tt)] waiting.
Proof. apply (events_reachable _ _ _ _ _ _ _ [] (start 0%Z)); [constructor|by vm_compute]. Qed.
End Sim.

Lemma requests_conserved_witness :
  Sim.reachable 0%Z Sim.events Sim.final
  ∧ issued Sim.events ≡ₚ map fst (answers Sim.final) ++ map snd (map_to_list (in_flight Sim.final)) ++ dropped Sim.final
  ∧ map fst (answers Sim.final) = [1; 0] ∧ dropped Sim.final = [2].
Proof.
  pose proof Sim.final_reachable as H. split; [done|]. split; [|by vm_compute].
  by apply (requests_conserved _ _ _ _ _ _ _ _ _ H).
Defined.

Lemma answers_match_requests_witness :
  Sim.reachable 0%Z Sim.events Sim.final
  ∧ (1, Ok (JBool true)) ∈ answers Sim.final
  ∧ justified Sim.response_of_json Sim.events Sim.final 1 (JBool true).
Proof.
  pose proof Sim.final_reachable as H.
  assert ((1, Ok (JBool true)) ∈ answers Sim.final) as Hin
    by (assert (answers Sim.final = [(1, Ok (JBool true)); (0, Err (Unavailable "child EOF"))]) as -> by (by vm_compute);
        by apply list_elem_of_here).
  split; [done|]. split; [done|]. by apply (answers_match_requests _ _ _ _ _ _ _ _ _ H).
Defined.

Lemma restarts_bounded_witness :
  Sim.reachable 0%Z Sim.events Sim.final
  ∧ (Z.of_nat (boots Sim.final) <= 3)%Z
  ∧ total (slept Sim.final) = (BACKOFF_BASE_MS * (2 ^ Z.of_nat (boots Sim.final) - 1))%Z.
Proof.
  pose proof Sim.final_reachable as H. split; [done|].
  by apply (restarts_bounded Sim.opts Sim.manifest Sim.boot Sim.to_value Sim.response_of_json Sim.now_ms _ _ _ ltac:(done) H).
Defined.

Lemma failed_send_strands_requests_witness :
  Sim.reachable 0%Z [CmdRequest 0 "preview" JNull (Ok tt)] Sim.waiting
  ∧ in_flight Sim.waiting !! 2%Z = Some 0
  ∧ ∃ a1, Sim.reachable 0%Z [CmdRequest 0 "preview" JNull (Ok tt); CmdRequest 1 "preview" JNull (Err "broken pipe")] a1
      ∧ health a1 = Ready ∧ generation a1 = 1.
Proof.
  pose proof Sim.waiting_reachable as H.
  assert (in_flight Sim.waiting !! 2%Z = Some 0) as Hf by (by vm_compute).
  split; [done|]. split; [done|].
  by apply (failed_send_strands_requests Sim.opts Sim.manifest Sim.boot Sim.to_value Sim.response_of_json Sim.now_ms
    0%Z _ _ 2%Z 0 1 "preview" JNull "broken pipe" [] (start 0%Z) H Hf).
Defined.

(** A ping that was out when the child died is still out for the next child,
    which never saw it: its deadline then ends that child too. *)
Example stale_ping_ends_next_child :
  let a := Sim.run (start 0%Z)
    [PingDue (30000 * MS)%Z true; Eof; PingDeadline (35000 * MS)%Z] in
  (generation <$> a) = Some 2 ∧ (boots <$> a) = Some 2.
Proof. by vm_compute. Qed.

(** Three restarts in the whole life of the actor, each of which succeeded: the
    fourth end of the pipe parks it. *)
Example successful_restarts_use_up_the_budget :
  (health <$> Sim.run (start 0%Z) [Eof; Eof; Eof; Eof]) = Some (Unhealthy 3 "exhausted restart attempts").
Proof. by vm_compute. Qed.

End Proc.

(** ** The preview bridge *)

Module PreviewBridge.

Inductive PreviewResult : Type := Png (bytes : list Z) | PreviewText (s : string).

Inductive BridgeError : Type :=
| NoMatch
| SpawnFailed (s : string)
| PluginCrashed (s : string)
| InvalidResponse (s : string).

Definition PREVIEW_REQUEST_TIMEOUT_MS : Z := 800%Z.

Definition decode_preview_response (v : json) : result PreviewResult BridgeError :=
  match jget "image" v with
  | Some img =>
      match jget "png_base64" img ≫= json_str with
      | None => Err (InvalidResponse "image.png_base64 missing")
      | Some b64 =>
          match bridge_decode (lit b64) with
          | None => Err (InvalidResponse "image.png_base64 decode")
          | Some bytes => Ok (Png bytes)
          end
      end
  | None =>
      match jget "text" v ≫= json_str with
      | Some text => Ok (PreviewText text)
      | None => Err (InvalidResponse "preview reply must populate either `image` or `text`")
      end
  end.

Section bridge.
Context {Glob : Type} (is_match : Glob → string → bool).
(** Making the working directory and [proc::spawn]; the answer of a running
    plugin to a request; a lossy path, as text of JSON; and whether another task
    took the plugin out of the cache in between. *)
Context (spawn : Manifest → result unit string) (ask : PluginId → json → result json string).
Context (lossy : list Z → string) (evicted : bool).

Notation Procs := (list PluginId) (only parsing).

Definition ensure_spawned (reg : @Registry Glob) (procs : Procs) (i : PluginId) : result Procs BridgeError :=
  if decide (i ∈ procs) then Ok procs
  else match manifest reg i with
       | None => Err (SpawnFailed ("no manifest for " ++ i)%string)
       | Some m => match spawn m with
                   | Err e => Err (SpawnFailed (i ++ ": " ++ e)%string)
                   | Ok _ => Ok (i :: procs)
                   end
       end.

Definition preview_params (mime : string) (path : list Z) : json :=
  JObj [("path", JStr (lossy path)); ("mime", JStr mime); ("max_width", JNum 0); ("max_height", JNum 0);
        ("scroll_skip", JNum 0)].

Definition request_preview (reg : @Registry Glob) (procs : Procs) (i : PluginId) (mime : string) (path : list Z)
    : result json BridgeError * Procs :=
  match ensure_spawned reg procs i with
  | Err e => (Err e, procs)
  | Ok procs =>
      if evicted then (Err (SpawnFailed (i ++ " evicted from cache before request")%string),
                       base.filter (λ j, j ≠ i) procs)
      else match ask i (preview_params mime path) with
           | Ok v => (Ok v, procs)
           | Err e => (Err (PluginCrashed (i ++ ": " ++ e)%string), base.filter (λ j, j ≠ i) procs)
           end
  end.

Definition preview_for (reg : @Registry Glob) (procs : Procs) (mime : string) (path : list Z)
    : result PreviewResult BridgeError * Procs :=
  let url := match file_name path with Some n => lossy n | None => "" end in
  match select_for is_match reg Previewer mime url with
  | None => (Err NoMatch, procs)
  | Some i =>
      let '(r, procs) := request_preview reg procs i mime path in
      (rbind r decode_preview_response, procs)
  end.

(** A preview shows the plugin's own bytes: the plugin asked is the one the
    registry routes the file to, an image it encoded comes out as it was, and a
    plugin stays in the cache exactly when it answered. *)
Theorem preview_shows_plugin_bytes reg procs mime path i bytes :
  select_for is_match reg Previewer mime (match file_name path with Some n => lossy n | None => "" end) = Some i →
  is_Some (manifest reg i) → (∀ m, is_ok (spawn m) = true) → evicted = false → Forall is_byte bytes →
  ∃ procs', i ∈ procs'
  ∧ ∀ b64, lit b64 = base64_encode bytes →
    (ask i (preview_params mime path) = Ok (JObj [("image", JObj [("png_base64", JStr b64)])]) →
     preview_for reg procs mime path = (Ok (Png bytes), procs'))
    ∧ ∀ e, ask i (preview_params mime path) = Err e →
      ∃ s, preview_for reg procs mime path = (Err (PluginCrashed s), base.filter (λ j, j ≠ i) procs').
Proof.
  intros Hs [m Hm] Hsp He Hb. assert (∃ p, ensure_spawned reg procs i = Ok p ∧ i ∈ p) as (p & Hp & Hin).
  { unfold ensure_spawned. case_decide; [by exists procs|]. rewrite Hm. specialize (Hsp m).
    destruct (spawn m); [|done]. eexists. split; [done|]. apply list_elem_of_here. }
  exists p. split; [done|]. intros b64 H64. unfold preview_for. rewrite Hs. unfold request_preview.
  rewrite Hp, He. split.
  - intros ->. cbn [rbind]. unfold decode_preview_response. cbn [jget assoc String.eqb Ascii.eqb Bool.eqb mbind option_bind json_str].
    rewrite H64. destruct (bridge_decode _) as [b|] eqn:E; rewrite (bridge_decodes bytes Hb) in E; by simplify_eq.
  - intros e ->. by eexists.
Qed.
End bridge.

Lemma preview_shows_plugin_bytes_witness :
  let reg := discover Registry.Sim.toml_read Registry.Sim.glob_new Registry.Sim.read_dir Registry.Sim.is_file
               Registry.Sim.read_to_string Registry.Sim.var Registry.Sim.disabled_read in
  let ask := λ (i : PluginId) (v : json), Ok (JObj [("image", JObj [("png_base64", JStr "AQI=")])]) in
  ∃ procs', "b" ∈ procs' ∧
    preview_for Registry.Sim.is_match (λ _, Ok tt) ask (λ p, if decide (p = lit "a.md") then "a.md" else "") false
      reg [] "text/plain" (lit "/x/a.md") = (Ok (Png [1; 2]%Z), procs').
Proof.
  intros reg ask.
  destruct (preview_shows_plugin_bytes Registry.Sim.is_match (λ _, Ok tt) ask
    (λ p, if decide (p = lit "a.md") then "a.md" else "") false reg [] "text/plain" (lit "/x/a.md") "b" [1; 2]%Z)
    as (procs' & Hin & H); [by vm_compute|by eexists; vm_compute|done|done|repeat constructor; done|].
  exists procs'. split; [done|]. by apply (H "AQI=").
Defined.

End PreviewBridge.
