(* ===== verification/PluginInstall.v ===== *)
(** * Installing a plugin

    [crates/sy-filemanager/src/plugin/install.rs]: what of a plugin is signed and
    how a signature and its key are found ([verify_signature]), and how a staged
    tree takes the place of the installed one ([swap_into_place]). Signatures
    are [minisign]'s: keys, signatures and their check are parameters. *)

From S2P Require Import Prelude Lists Text Paths Lines Utf8 Store Wire PluginWire Plugin.
Import Lists Text Paths Lines Utf8 Store Manifest.
Local Open Scope string_scope.
Local Open Scope nat_scope.
Local Open Scope list_scope.

Module Install.

Definition SIGNATURE_SEP_BYTE : Z := 0%Z.
Definition MINISIGN_PUBKEY_B64_LEN : nat := 56.
Definition NO_SIGNATURE_ENV : string := "SY_PLUGIN_NO_SIGNATURE".
Definition PUBLISHERS_REL_DIR : string := "configs/sy/plugin-publishers".

Inductive InstallError : Type :=
| Io (m : string)
| ManifestInvalid (m : string)
| SignatureInvalid (m : string).

(** *** The signed payload *)

(** A line that opens a table, and one that opens the signature. *)
Definition opens_table (raw : text) : bool := starts_with (trim_start raw) (lit "[").
Definition opens_signature (raw : text) : bool :=
  let header := trim (trim_start raw) in
  starts_with header (lit "[plugin.signature]") || starts_with header (lit "[plugin.signature.").

(** The loop of [strip_signature_block]. *)
Fixpoint strip_lines (skipping : bool) (ls : list text) : list text :=
  match ls with
  | [] => []
  | raw :: ls =>
      if opens_table raw then
        if opens_signature raw then strip_lines true ls else raw :: strip_lines false ls
      else if skipping then strip_lines true ls else raw :: strip_lines false ls
  end.
Definition strip_signature_block (src : text) : text := concat (strip_lines false (split_inclusive [] src)).

(** [is_inline_minisign_pubkey]. *)
Definition is_inline_minisign_pubkey (s : text) : bool :=
  starts_with s (lit "RW") && Nat.eqb (length (as_bytes s)) MINISIGN_PUBKEY_B64_LEN
  && negb (existsb is_whitespace s).

Section verify.
Context {PublicKey Sig : Type}.
Context (pubkey_from_base64 : text → result PublicKey string) (sig_decode : text → result Sig string).
Context (verify : PublicKey → list Z → Sig → result unit string).
(** A field of the manifest as text, and how an error number prints. *)
Context (text_of : string → text) (errno_str : errno → string).

Definition invalid {A} (what : string) (r : result A string) : result A InstallError :=
  match r with Ok a => Ok a | Err e => Err (SignatureInvalid (what ++ e)%string) end.

(** [resolve_pubkey]: an inline key, a key block, or the name of a publisher. *)
Definition resolve_pubkey (st : store) (field : text) (publishers_dir : path) : result PublicKey InstallError :=
  let trimmed := trim field in
  if is_inline_minisign_pubkey trimmed then invalid "decode inline pubkey: " (pubkey_from_base64 trimmed)
  else if starts_with trimmed (lit "untrusted comment") then
    match List.find (λ l, negb (starts_with l (lit "untrusted comment"))) (lines trimmed) with
    | None => Err (SignatureInvalid "pubkey block has no base64 line under the untrusted-comment header")
    | Some line => invalid "decode pubkey block: " (pubkey_from_base64 (trim line))
    end
  else
    match read_to_string st (join publishers_dir (trimmed ++ lit ".pub")) with
    | Err e => Err (SignatureInvalid ("read publisher pubkey: " ++ errno_str e)%string)
    | Ok body =>
        match List.find (λ l, negb (bool_decide (trim l = [])) && negb (starts_with l (lit "untrusted comment")))
                (lines body) with
        | None => Err (SignatureInvalid "publisher pubkey has no base64 line")
        | Some line => invalid "decode publisher pubkey: " (pubkey_from_base64 (trim line))
        end
    end.

(** [resolve_sig_text]: [@file] or the signature itself. *)
Definition resolve_sig_text (st : store) (field : text) (manifest_dir : path) : result text InstallError :=
  let trimmed := trim field in
  match strip_prefix (lit "@") trimmed with
  | Some rel =>
      match read_to_string st (join manifest_dir rel) with
      | Ok s => Ok s
      | Err e => Err (SignatureInvalid ("read signature file: " ++ errno_str e)%string)
      end
  | None => Ok trimmed
  end.

(** [canonical_signed_payload]: the program, a zero byte, and the manifest
    without its signature block. *)
Definition canonical_signed_payload (st : store) (manifest_dir : path) (m : Manifest) : result (list Z) InstallError :=
  let bin_rel := text_of (exec (binary (plugin m))) in
  let bin_path := if is_absolute bin_rel then bin_rel else join manifest_dir bin_rel in
  match Store.read st bin_path with
  | Err e => Err (SignatureInvalid ("read binary for signature payload: " ++ errno_str e)%string)
  | Ok bin_bytes =>
      match read_to_string st (join manifest_dir (lit "plugin.toml")) with
      | Err e => Err (SignatureInvalid ("re-read manifest: " ++ errno_str e)%string)
      | Ok manifest_src =>
          Ok (bin_bytes ++ SIGNATURE_SEP_BYTE :: as_bytes (strip_signature_block manifest_src))
      end
  end.

(** [verify_signature]. *)
Definition verify_signature (st : store) (manifest_dir : path) (m : Manifest) (publishers_dir : path)
    : result unit InstallError :=
  match signature m with
  | None => Err (SignatureInvalid
      "manifest has no [plugin.signature]; pass --unsigned to install for local development")
  | Some s =>
      rbind (resolve_pubkey st (text_of (pubkey s)) publishers_dir) (λ pk,
      rbind (resolve_sig_text st (text_of (sig s)) manifest_dir) (λ sig_text,
      rbind (invalid "decode signature: " (sig_decode sig_text)) (λ sg,
      rbind (canonical_signed_payload st manifest_dir m) (λ payload,
      invalid "verify: " (verify pk payload sg)))))
  end.
End verify.

(** *** Taking the place of the installed plugin *)

(** [fs::remove_dir_all], its result ignored. *)
Definition remove_dir_all_ (st : store) (p : path) : store :=
  if decide (find st p = Some NDir) then base.filter (λ kn, ¬ (components p `prefix_of` kn.1)) st else st.

(** [Path::with_file_name]. *)
Definition with_file_name (p : path) (n : text) : path :=
  match parent p with Some d => join d n | None => n end.

Definition EINVALID_INPUT : errno := EINVAL.

(** [swap_into_place]; [ts] is the time stamp of the directory moved away, and
    [fault] whether the rename into place fails. *)
Definition swap_into_place (fault : option errno) (ts : text) (st : store) (staging final_dir : path)
    : result unit errno * store :=
  match parent final_dir with
  | None => (Err EINVALID_INPUT, st)
  | Some par =>
      match create_dir_all st par with
      | Err e => (Err e, st)
      | Ok st =>
          let old := with_file_name final_dir (default (lit "plugin") (file_name final_dir) ++ lit ".old-" ++ ts) in
          match (if exists_ st final_dir then rbind (rename st final_dir old) (λ st, Ok (st, true)) else Ok (st, false)) with
          | Err e => (Err e, st)
          | Ok (st, prior) =>
              match (match fault with Some e => Err e | None => rename st staging final_dir end) with
              | Ok st => (Ok tt, if prior : bool then remove_dir_all_ st old else st)
              | Err e =>
                  (Err e, if prior : bool then match rename st old final_dir with Ok st => st | Err _ => st end else st)
              end
          end
      end
  end.

(** *** The block that is not signed *)

(** A text of whole lines, and a text that is empty or opens a table. *)
Definition whole_lines (s : text) : Prop := s = [] ∨ last s = Some 10%Z.
Definition at_table (s : text) : Prop := match split_inclusive [] s with [] => True | l :: _ => opens_table l = true end.
Definition unsigned (s : text) : Prop := Forall (λ l, opens_table l && opens_signature l = false) (split_inclusive [] s).
(** A signature block: its header, and lines that open no table. *)
Definition signature_block (s : text) : Prop :=
  match split_inclusive [] s with
  | [] => False
  | l :: ls => opens_table l = true ∧ opens_signature l = true ∧ Forall (λ l, opens_table l = false) ls
  end.

Lemma split_inclusive_whole s t :
  whole_lines s → split_inclusive [] (s ++ t) = split_inclusive [] s ++ split_inclusive [] t.
Proof. intros [->|H]; [done|by apply split_inclusive_app]. Qed.

Lemma strip_lines_app b ls ls' :
  match ls' with [] => True | l :: _ => opens_table l = true end →
  strip_lines b (ls ++ ls') = strip_lines b ls ++ strip_lines false ls'.
Proof.
  intros H. revert b. induction ls as [|l ls IH]; intros b; cbn [app strip_lines].
  - destruct ls' as [|l ls']; [done|]. cbn [strip_lines app]. by rewrite H.
  - destruct (opens_table l), (opens_signature l), b; cbn [app]; by rewrite IH.
Qed.

Lemma strip_lines_unsigned ls : Forall (λ l, opens_table l && opens_signature l = false) ls → strip_lines false ls = ls.
Proof.
  intros H. induction H as [|l ls Hl H IH]; [done|]. cbn [strip_lines].
  destruct (opens_table l), (opens_signature l); by rewrite ?IH.
Qed.

Lemma strip_lines_skip ls : Forall (λ l, opens_table l = false) ls → strip_lines true ls = [].
Proof. intros H. induction H as [|l ls Hl H IH]; [done|]. cbn [strip_lines]. by rewrite Hl. Qed.

Lemma signature_block_opens s t : signature_block s → match split_inclusive [] s ++ t with [] => True | l :: _ => opens_table l = true end.
Proof. unfold signature_block. destruct (split_inclusive [] s); naive_solver. Qed.

(** What [strip_signature_block] leaves of a manifest does not depend on its
    signature block: whatever key and signature the block between two parts of
    the manifest holds, the two parts remain as they are, and with no block
    there at all the same bytes remain. So a signature made before the block
    is added stays a signature of the same payload. *)
Theorem signature_block_is_not_signed (before block after : text)
    (Hwb : whole_lines before) (Hws : whole_lines block) (Hat : at_table after)
    (Hb : unsigned before) (Ha : unsigned after) (Hs : signature_block block) :
  strip_signature_block (before ++ block ++ after) = before ++ after
  ∧ strip_signature_block (before ++ after) = before ++ after.
Proof.
  unfold strip_signature_block.
  pose proof (concat_split_inclusive [] before) as Cb. pose proof (concat_split_inclusive [] after) as Ca.
  cbn [app] in Cb, Ca. split.
  - rewrite !split_inclusive_whole by done. rewrite strip_lines_app by (by apply signature_block_opens).
    rewrite strip_lines_app by done.
    rewrite (strip_lines_unsigned (split_inclusive [] before)), (strip_lines_unsigned (split_inclusive [] after)) by done.
    unfold signature_block in Hs. destruct (split_inclusive [] block) as [|l ls]; [done|].
    destruct Hs as (H1 & H2 & H3). cbn [strip_lines]. rewrite H1, H2, strip_lines_skip by done.
    cbn [app]. by rewrite concat_app, Cb, Ca.
  - rewrite split_inclusive_whole, strip_lines_app by done.
    rewrite !strip_lines_unsigned by done. by rewrite concat_app, Cb, Ca.
Qed.

Lemma signature_block_is_not_signed_witness :
  strip_signature_block ((lit "api" ++ [10]%Z) ++ (lit "[plugin.signature]" ++ [10]%Z ++ lit "sig" ++ [10]%Z) ++ lit "[needs]")
  = (lit "api" ++ [10]%Z) ++ lit "[needs]".
Proof.
  refine (proj1 (signature_block_is_not_signed (lit "api" ++ [10]%Z)
    (lit "[plugin.signature]" ++ [10]%Z ++ lit "sig" ++ [10]%Z) (lit "[needs]") _ _ _ _ _ _)).
  - right. reflexivity.
  - right. reflexivity.
  - reflexivity.
  - refine (bool_decide_unpack _ _). vm_compute. exact I.
  - refine (bool_decide_unpack _ _). vm_compute. exact I.
  - split_and!; [reflexivity|reflexivity|]. refine (bool_decide_unpack _ _). vm_compute. exact I.
Defined.

(** A line of a multi-line string that looks like the header is taken for it,
    and what follows in the string is not signed. *)
Example header_inside_a_string :
  strip_signature_block (lit "x = '''" ++ [10]%Z ++ lit "[plugin.signature]" ++ [10]%Z ++ lit "text'''" ++ [10]%Z ++ lit "exec = 1")
  = lit "x = '''" ++ [10]%Z.
Proof. vm_compute. reflexivity. Qed.

(** A header with spaces inside its brackets is not the signature's. *)
Example spaced_header_is_kept :
  strip_signature_block (lit "[ plugin.signature ]" ++ [10]%Z ++ lit "sig")
  = lit "[ plugin.signature ]" ++ [10]%Z ++ lit "sig".
Proof. vm_compute. reflexivity. Qed.

(** *** The swap *)

(** The staged tree, the installed one and the place it is moved to, below the
    plugin directory. *)
Section swap.
Context (st : store) (root : path) (staged pid ts : text).
Local Notation old_name := (pid ++ lit ".old-" ++ ts).
Local Notation staging := (join root staged).
Local Notation final := (join root pid).
Context (Hst : closed st) (Hroot : components root ≠ []).
Context (Hstaged : is_name staged) (Hid : is_name pid) (Hold : is_name old_name).
Context (Hne : staged ≠ pid) (Hne' : staged ≠ old_name).
Context (Hdir : st !! components staging = Some NDir).
Context (Hold_free : st !! components (join root old_name) = None).

Lemma root_is_dir : st !! components root = Some NDir.
Proof.
  apply (Hst _ staged []); [|done]. rewrite components_join in Hdir by done. by rewrite Hdir.
Qed.

Lemma root_is_made d : components d = components root → create_dir_all st d = Ok st.
Proof.
  intros E. apply mkdirs_present. intros k [e Hk] Hne0. cbn [app]. rewrite E in Hk.
  destruct e as [|c e].
  - rewrite app_nil_r in Hk. rewrite <- Hk. apply root_is_dir.
  - apply (Hst k c e); [|done]. rewrite <- Hk, root_is_dir. done.
Qed.

Lemma parent_of_final : ∃ d, parent final = Some d ∧ components d = components root.
Proof.
  destruct (parent final) as [d|] eqn:E.
  - exists d. split; [done|]. apply components_parent in E. by rewrite E, components_join, removelast_last by done.
  - exfalso. revert E. unfold parent. rewrite components_join, last_snoc by done.
    rewrite decide_False; [done|]. intros ->. destruct Hid as [H _]. apply H. by left.
Qed.

Lemma old_of_final : components (with_file_name final (default (lit "plugin") (file_name final) ++ lit ".old-" ++ ts))
  = components (join root old_name).
Proof.
  rewrite file_name_join by done. cbn [default from_option]. unfold with_file_name.
  destruct parent_of_final as (d & -> & Hd). by rewrite !components_join, Hd by done.
Qed.

Lemma pid_ne_old : pid ≠ old_name.
Proof. intros H. apply (f_equal length) in H. rewrite !length_app in H. cbn in H. lia. Qed.

(** [rename] of a directory beside the others, by name. *)
Lemma rename_beside st0 p q a b :
  components p = components root ++ [a] → components q = components root ++ [b] → a ≠ b →
  st0 !! components root = Some NDir → st0 !! components p = Some NDir → st0 !! components q = None →
  rename st0 p q = Ok (move_tree st0 (components root ++ [a]) (components root ++ [b])).
Proof.
  intros Ep Eq Hab Hr Hp Hq. rewrite <- Ep, <- Eq. apply rename_dir; [done|done| |].
  - rewrite Ep, Eq. by apply apart_names.
  - rewrite Eq, removelast_last. unfold is_dir_key.
    destruct (components root); [done|]. by apply bool_decide_eq_true.
Qed.
(** The plugin is in place: the staged tree, nothing where it was staged, nothing
    where the old one was put, and the rest as before. *)
Definition installed (st' : store) : Prop :=
  (∀ e, st' !! (components final ++ e) = st !! (components staging ++ e))
  ∧ (∀ e, st' !! (components staging ++ e) = None)
  ∧ (∀ e, st' !! (components (join root old_name) ++ e) = None)
  ∧ (∀ k, ¬ components final `prefix_of` k → ¬ components staging `prefix_of` k →
          ¬ components (join root old_name) `prefix_of` k → st' !! k = st !! k).

Lemma free_below n : is_name n → st !! (components root ++ [n]) = None → ∀ e, st !! ((components root ++ [n]) ++ e) = None.
Proof.
  intros Hn H [|c e]; [by rewrite app_nil_r|]. apply closed_empty_below; [done| |done|done].
  by destruct (components root).
Qed.

Lemma installed_fresh :
  st !! components final = None → installed (move_tree st (components staging) (components final)).
Proof.
  intros Hf. rewrite components_join in Hf, Hold_free by done.
  pose proof (free_below _ Hid Hf) as Ff. pose proof (free_below _ Hold Hold_free) as Fo.
  unfold installed. rewrite !components_join by done.
  assert (apart (components root ++ [staged]) (components root ++ [pid])) as A by by apply apart_names.
  assert (empty_below st (components root ++ [pid])) as E by (intros e _; apply Ff).
  split_and!.
  - intros e. by apply move_tree_to.
  - intros e. by apply move_tree_from.
  - intros e. rewrite move_tree_else; [apply Fo|done| |]; apply apart_app, apart_names; [done|apply pid_ne_old].
  - intros k H1 H2 _. by apply move_tree_else.
Qed.

Lemma installed_over st2 :
  let F := components root ++ [pid] in let O := components root ++ [old_name] in let S := components root ++ [staged] in
  st2 = base.filter (λ kn, ¬ (O `prefix_of` kn.1)) (move_tree (move_tree st F O) S F) → installed st2.
Proof.
  cbn zeta. intros ->.
  rewrite components_join in Hold_free by done. pose proof (free_below _ Hold Hold_free) as Fo.
  unfold installed. rewrite !components_join by done.
  set (F := components root ++ [pid]) in *. set (S := components root ++ [staged]) in *.
  set (O := components root ++ [old_name]) in *.
  assert (apart F O) as Afo by (apply apart_names, pid_ne_old).
  assert (apart S F) as Asf by by apply apart_names.
  assert (apart S O) as Aso by by apply apart_names.
  assert (empty_below st O) as Eo by (intros e _; apply Fo).
  assert (empty_below (move_tree st F O) F) as Ef by (intros e _; by apply move_tree_from).
  assert (∀ k, ¬ O `prefix_of` k → base.filter (λ kn, ¬ (O `prefix_of` kn.1)) (move_tree (move_tree st F O) S F) !! k
    = move_tree (move_tree st F O) S F !! k) as Hf.
  { intros k Hk. apply option_eq. intros n. rewrite map_lookup_filter_Some. cbn. naive_solver. }
  split_and!.
  - intros e. rewrite Hf by (by apply apart_app, apart_sym). rewrite move_tree_to by done.
    apply move_tree_else; [done|by apply apart_app, apart_sym|by apply apart_app, apart_sym].
  - intros e. rewrite Hf by (by apply apart_app, apart_sym). by apply move_tree_from.
  - intros e. apply map_lookup_filter_None. right. intros n _. cbn. intros H. apply H. by eexists.
  - intros k Hkf Hks Hko. rewrite Hf by done. by rewrite !move_tree_else by done.
Qed.
End swap.

Definition sample_store : store :=
  list_to_map [([lit "p"], NDir); ([lit "p"; lit ".staging"], NDir); ([lit "p"; lit ".staging"; lit "plugin.toml"], NFile [2]%Z);
               ([lit "p"; lit "md"], NDir); ([lit "p"; lit "md"; lit "plugin.toml"], NFile [1]%Z)].


End Install.
