(* ===== verification/Auth.v ===== *)
(** * The phone key

    [crates/sy-auth/src/syauth.rs]: the bar's view of the phone-unlock daemon.
    What of the daemon's status, of its doctor report and of its audit log is
    read and how it is shown, the pairing requests the user answers, the
    notifications with their state across polls, and the doctor's verdict.
    Running [syauth], the clock and the environment are parameters; the files
    are in the store. *)

From S2P Require Import Prelude Lists Text Paths Lines Utf8 Store Wire.
Import Lists Text Paths Lines Utf8 Store Wire.
Local Open Scope string_scope.
Local Open Scope nat_scope.
Local Open Scope list_scope.

Module Auth.

Definition IPC_SUBDIR : string := "syauth".
Definition REQUEST_FILE : string := "pair-request.json".
Definition RESPONSE_FILE : string := "pair-response.json".
Definition SCHEMA_VERSION : Z := 1.

(** [ " · " ], [ "…" ] and [ " — " ]. *)
Definition MIDDLE_DOT : text := [32; 183; 32]%Z.
Definition ELLIPSIS : text := [8230]%Z.
Definition EM_DASH : text := [32; 8212; 32]%Z.
(** A backslash and an [n]: the two characters of the literal ["\\n"]. *)
Definition BACKSLASH_N : text := [92; 110]%Z.

(** [slice::join]. *)
Fixpoint join_with (sep : text) (ps : list text) : text :=
  match ps with
  | [] => []
  | [p] => p
  | p :: ps => p ++ sep ++ join_with sep ps
  end.

(** *** The daemon's status *)

Record StatusSummary := mkStatus {
  state : text; transport_ready : option bool; peer_id : option text; last_connect_ms_ago : option Z;
  last_unlock_outcome : option text; in_flight_challenges : option Z
}.
Definition is_daemon_up (s : StatusSummary) : bool := bool_decide (state s = lit "up").
Definition has_peer (s : StatusSummary) : bool := bool_decide (is_Some (peer_id s)).

Section parse.
Context (from_str : text → result json text).

(** A string, number or flag of a JSON value. *)
Definition text_at (k : string) (v : json) : option text := s ← jget k v ≫= json_str; Some (lit s).
Definition u64_at (k : string) (v : json) : option Z := jget k v ≫= as_u64.
Definition bool_at (k : string) (v : json) : option bool := jget k v ≫= json_bool.

Definition parse_status_json (src : text) : result StatusSummary text :=
  rbind (from_str src) (λ v,
    let daemon := default JNull (jget "daemon" v) in
    let first := match jget "peers" daemon ≫= json_arr with Some (p :: _) => Some p | _ => None end in
    Ok (mkStatus (default (lit "unknown") (text_at "state" daemon)) (bool_at "transport_ready" daemon)
          (first ≫= text_at "peer_id") (first ≫= u64_at "last_connect_ms_ago") None
          (first ≫= u64_at "in_flight_challenges"))).

Record DoctorSummary := mkDoctor { bluez_adapter : text }.
Definition parse_doctor_json (src : text) : result DoctorSummary text :=
  rbind (from_str src) (λ v, Ok (mkDoctor (default (lit "unknown") (text_at "bluez_adapter" v)))).
End parse.

Definition humanize_ms_ago (ms : Z) : text :=
  let secs := (ms / 1000)%Z in
  if (secs <? 60)%Z then show_nat secs ++ lit "s"
  else if (secs <? 3600)%Z then show_nat (secs / 60) ++ lit "m"
  else show_nat (secs / 3600) ++ lit "h".

Definition render_status_line (s : StatusSummary) : text :=
  if negb (is_daemon_up s) then lit "daemon " ++ state s
  else
    join_with MIDDLE_DOT
      ([lit "daemon up"]
       ++ match transport_ready s with
          | Some false => [lit "Bluetooth transport unavailable"]
          | None => [lit "transport health unavailable"]
          | Some true => []
          end
       ++ match last_connect_ms_ago s with
          | Some ms => [lit "last connect " ++ humanize_ms_ago ms ++ lit " ago"
                        ++ match last_unlock_outcome s with Some o => lit " " ++ o | None => [] end]
          | None => []
          end
       ++ match peer_id s with
          | Some pid => [lit "bonded " ++ take 6 pid ++ ELLIPSIS]
          | None => [lit "not paired"]
          end).

(** *** The audit log *)

Inductive DeniedReason : Type :=
| PeerRevoked | NoBond | AuthError | TransportError | Other (tag : text).
Definition from_csv (tag : text) : DeniedReason :=
  if decide (tag = lit "peer-revoked") then PeerRevoked
  else if decide (tag = lit "no-bond") then NoBond
  else if decide (tag = lit "auth-err" ∨ tag = lit "auth-error") then AuthError
  else if decide (tag = lit "transport-error") then TransportError
  else Other tag.
Definition as_display (r : DeniedReason) : text :=
  match r with
  | PeerRevoked => lit "peer revoked"
  | NoBond => lit "no bond"
  | AuthError => lit "auth-err"
  | TransportError => lit "transport-error"
  | Other s => s
  end.

Inductive OutcomeKind : Type := OOk | Denied (r : DeniedReason).
Record UnlockOutcome := mkOutcome { o_peer_id : text; nonce : text; t_start_ms : Z; t_end_ms : Z; kind : OutcomeKind }.

(** [UnlockOutcome::state_key]. *)
Definition outcome_key (o : UnlockOutcome) : text :=
  match kind o with OOk => lit "ok" | Denied r => lit "denied:" ++ as_display r end
  ++ lit "|" ++ nonce o ++ lit "|" ++ show_nat (t_end_ms o).

Definition AUDIT_NUM_COLUMNS : nat := 6.
Definition AUDIT_OUTCOME_OK : text := lit "ok".

(** One turn of the loop of [audit_log_tail]. *)
Definition row_of (line : text) : option UnlockOutcome :=
  match split_on 44%Z line with
  | [peer; nc; ts; te; outcome; _] =>
      t_start ← parse_usize ts;
      t_end ← parse_usize te;
      Some (mkOutcome peer nc t_start t_end
              (if decide (outcome = AUDIT_OUTCOME_OK) then OOk else Denied (from_csv outcome)))
  | _ => None
  end.
Definition audit_log_tail (content : text) (n : nat) : list UnlockOutcome :=
  let out := omap row_of (lines content) in
  if n <? length out then drop (length out - n) out else out.

(** *** The pill *)

Record WaybarPill := mkPill { pill_text : text; pill_class : string; pill_tooltip : text }.
Definition PILL_GLYPH_KEY : text := [61572]%Z.
Definition PILL_RECENT_OUTCOME_MS : Z := 10 * 60 * 1000.

Definition denied_reason_text (r : DeniedReason) : text :=
  match r with
  | PeerRevoked => lit "peer revoked"
  | NoBond => lit "no bond"
  | AuthError => lit "auth error"
  | TransportError => lit "transport error"
  | Other reason => if decide (reason = lit "response-timeout") then lit "approval timed out (phone may be away)"
                    else lit "denied"
  end.
Definition denied_is_transient (r : DeniedReason) : bool :=
  match r with TransportError | Other _ => true | _ => false end.

Definition saturating_sub (a b : Z) : Z := Z.max 0 (a - b).

Definition build_pill_tooltip (status : StatusSummary) (doctor : DoctorSummary) (last_outcome : option UnlockOutcome)
    (now_ms : Z) (host headline : text) : text :=
  join_with BACKSLASH_N
    ([lit "syauth" ++ MIDDLE_DOT ++ host ++ MIDDLE_DOT ++ headline]
     ++ match peer_id status with
        | Some pid =>
            [lit "peer " ++ take 8 pid ++ ELLIPSIS
             ++ match last_connect_ms_ago status with
                | Some ms => MIDDLE_DOT ++ lit "last request " ++ humanize_ms_ago ms ++ lit " ago"
                | None => []
                end]
        | None => [lit "no peer"]
        end
     ++ match last_outcome with
        | Some o =>
            [lit "last unlock " ++ humanize_ms_ago (saturating_sub now_ms (t_end_ms o)) ++ lit " ago: "
             ++ match kind o with
                | OOk => lit "ok"
                | Denied r => lit "denied" ++ MIDDLE_DOT ++ denied_reason_text r
                end]
        | None => []
        end
     ++ [lit "daemon " ++ state status ++ MIDDLE_DOT ++ lit "adapter " ++ bluez_adapter doctor]).

(** The outcome, when it is a lasting failure of the last ten minutes. *)
Definition recent_denied (last_outcome : option UnlockOutcome) (now_ms : Z) : option DeniedReason :=
  o ← last_outcome;
  match kind o with
  | Denied r =>
      if negb (denied_is_transient r) && (saturating_sub now_ms (t_end_ms o) <=? PILL_RECENT_OUTCOME_MS)%Z
      then Some r else None
  | OOk => None
  end.

Definition render_pill (status : StatusSummary) (in_flight : Z) (doctor : DoctorSummary)
    (last_outcome : option UnlockOutcome) (now_ms : Z) (host : text) : WaybarPill :=
  let '(class, headline) :=
    if negb (is_daemon_up status) then ("degraded", lit "daemon down")
    else if bool_decide (transport_ready status = Some false) then
      ("degraded", lit "Bluetooth transport unavailable" ++ MIDDLE_DOT ++ lit "recovering")
    else if negb (has_peer status) then ("unpaired", lit "no phone bonded")
    else if bool_decide (transport_ready status = None) then
      ("degraded", lit "transport health unavailable" ++ MIDDLE_DOT ++ lit "update syauth")
    else match recent_denied last_outcome now_ms with
         | Some r => ("degraded", lit "last authentication failed" ++ MIDDLE_DOT ++ denied_reason_text r)
         | None =>
             if (0 <? in_flight)%Z then
               ("ok", lit "authenticating" ++ MIDDLE_DOT ++ show_nat in_flight ++ lit " in flight")
             else ("ok", lit "daemon ready" ++ MIDDLE_DOT ++ lit "phone availability unknown")
         end in
  mkPill PILL_GLYPH_KEY class (build_pill_tooltip status doctor last_outcome now_ms host headline).

(** The pill when a probe failed. *)
Definition degraded_fallback (status_res : result StatusSummary text) (doctor_res : result DoctorSummary text)
    (host : text) : WaybarPill :=
  let why := match status_res, doctor_res with
             | Err e, _ => lit "status probe failed: " ++ e
             | _, Err e => lit "doctor probe failed: " ++ e
             | _, _ => lit "unknown"
             end in
  mkPill PILL_GLYPH_KEY "degraded"
    (lit "syauth" ++ MIDDLE_DOT ++ host ++ MIDDLE_DOT ++ lit "probe failure" ++ BACKSLASH_N ++ why).

(** [emit_pill_json], with its escaping: backslashes, then quotes. *)
Definition replace (c : Z) (by_ : text) (s : text) : text := flat_map (λ d, if (d =? c)%Z then by_ else [d]) s.
Definition esc (s : text) : text := replace 34 [92; 34]%Z (replace 92 [92; 92]%Z s).
Definition quoted (s : text) : text := [34]%Z ++ s ++ [34]%Z.
Definition emit_pill_json (t class tooltip : text) : text :=
  lit "{" ++ quoted (lit "text") ++ lit ":" ++ quoted (esc t)
  ++ lit "," ++ quoted (lit "class") ++ lit ":" ++ quoted (esc class)
  ++ lit "," ++ quoted (lit "tooltip") ++ lit ":" ++ quoted (esc tooltip) ++ lit "}".

(** *** The notifier *)

Inductive PairState : Type := Idle | Pending (passkey : text) | POk (host : text).
#[export] Instance PairState_eq_dec : EqDecision PairState.
Proof. solve_decision. Defined.

Record NotifierState := mkNotifier { last_pair_key : option text; last_outcome_key : option text }.
Definition default_notifier : NotifierState := mkNotifier None None.

(** [PairState::state_key] and [notification_body]. *)
Definition pair_key (p : PairState) : option text :=
  match p with
  | Idle => None
  | Pending passkey => Some (lit "pending:" ++ passkey)
  | POk host => Some (lit "ok:" ++ host)
  end.
Definition notification_body (p : PairState) : option text :=
  match p with
  | Idle => None
  | Pending passkey => Some (lit "syauth: pair request" ++ EM_DASH ++ lit "code " ++ passkey ++ lit ", click bar to accept")
  | POk host => Some (lit "syauth: paired with " ++ host)
  end.

(** The lines of the fallback log. *)
Inductive LogLine : Type :=
| PairFired (key : option text) | PairSkippedIdle (prev : option text) | PairPoll (key : option text)
| UnlockPoll (key : text) | UnlockSilent (key : text) | UnlockFired (key : text).

(** The pair side of [notify_dispatcher], and its unlock side. *)
Definition dispatch_pair (st : NotifierState) (p : PairState) : NotifierState * list text * list LogLine :=
  let key := pair_key p in
  if decide (key = last_pair_key st) then
    (st, [], if decide (p = Idle) then [] else [PairPoll key])
  else
    let st' := mkNotifier key (last_outcome_key st) in
    match notification_body p with
    | Some body => (st', [body], [PairFired key])
    | None => (st', [], [PairSkippedIdle (last_pair_key st)])
    end.
Definition dispatch_unlock (st : NotifierState) (outcomes : list UnlockOutcome)
    : NotifierState * list text * list LogLine :=
  match last outcomes with
  | None => (st, [], [])
  | Some o =>
      let key := outcome_key o in
      if decide (Some key = last_outcome_key st) then (st, [], [UnlockPoll key])
      else
        let st' := mkNotifier (last_pair_key st) (Some key) in
        match kind o with
        | OOk => (st', [], [UnlockSilent key])
        | Denied r => (st', [lit "syauth: unlock denied (" ++ as_display r ++ lit ")"], [UnlockFired key])
        end
  end.
Definition notify_dispatcher (st : NotifierState) (p : PairState) (outcomes : list UnlockOutcome)
    : NotifierState * list text * list LogLine :=
  let '(st, n1, l1) := dispatch_pair st p in
  let '(st, n2, l2) := dispatch_unlock st outcomes in
  (st, n1 ++ n2, l1 ++ l2).

(** What [save_notifier_state] writes and [load_notifier_state] reads. *)
Definition notifier_body (st : NotifierState) : text :=
  lit "pair=" ++ default [] (last_pair_key st) ++ [10]%Z
  ++ lit "outcome=" ++ default [] (last_outcome_key st) ++ [10]%Z.
Definition non_empty (v : text) : option text := match v with [] => None | _ => Some v end.
Definition read_line (st : NotifierState) (line : text) : NotifierState :=
  match strip_prefix (lit "pair=") line with
  | Some v => mkNotifier (non_empty v) (last_outcome_key st)
  | None =>
      match strip_prefix (lit "outcome=") line with
      | Some v => mkNotifier (last_pair_key st) (non_empty v)
      | None => st
      end
  end.
Definition parse_notifier (body : text) : NotifierState := foldl read_line default_notifier (lines body).

(** *** Files *)

Definition NOTIFIER_CACHE_FILE : string := "syauth.last-outcome".
Definition NOTIFIER_LOG_FILE : string := "syauth.log".
Definition SY_SYAUTH_AUDIT_LOG_ENV : string := "SY_SYAUTH_AUDIT_LOG".
Definition SY_SYAUTH_AUDIT_LOG_DEFAULT : string := "/var/lib/syauth/last.log".
Definition SY_SYAUTH_AUDIT_TAIL_LINES : nat := 64.

Record PairRequest := mkPairRequest {
  schema_version : Z; rq_kind : text; request_id : text; passkey : text; created_at_secs : Z
}.

Section host.
(** The environment, and [serde_json] on a request and on a response. *)
Context (var : string → option text).
Context (request_of_slice : list Z → option PairRequest).
Context (response_to_vec : Z → text → text → result (list Z) text).
(** A log line with its time stamp. *)
Context (log_entry : LogLine → text).

Definition var_os (k : string) : option text := match var k with Some [] => None | v => v end.

(** [xdg_state_dir], with the directories it makes. *)
Definition xdg_state_dir (st : store) : option path * store :=
  let base := match var_os "XDG_STATE_HOME" with
              | Some x => Some x
              | None => h ← var_os "HOME"; Some (join h (lit ".local/state"))
              end in
  match base with
  | None => (None, st)
  | Some b =>
      let dir := join b (lit "sy") in
      match create_dir_all st dir with
      | Ok st => (Some dir, st)
      | Err _ => (None, st)
      end
  end.

(** [write_atomic]: a temporary file beside the target, renamed over it. *)
Definition write_atomic (st : store) (p : path) (body : list Z) : result unit text * store :=
  match parent p with
  | None => (Err (lit "path has no parent"), st)
  | Some dir =>
      let tmp := join dir (lit "." ++ default (lit "pair-response") (file_name p) ++ lit ".tmp") in
      match Store.write st tmp body with
      | Err _ => (Err (lit "create"), st)
      | Ok st1 =>
          match rename st1 tmp p with
          | Ok st2 => (Ok tt, st2)
          | Err _ => (Err (lit "rename"), st1)
          end
      end
  end.

Definition save_notifier_state (st : store) (s : NotifierState) : result unit text * store :=
  match xdg_state_dir st with
  | (None, st) => (Err (lit "no XDG_STATE_HOME / $HOME to persist notifier state"), st)
  | (Some dir, st) => write_atomic st (join dir (lit NOTIFIER_CACHE_FILE)) (as_bytes (notifier_body s))
  end.
Definition load_notifier_state (st : store) : NotifierState * store :=
  match xdg_state_dir st with
  | (None, st) => (default_notifier, st)
  | (Some dir, st) =>
      (match read_to_string st (join dir (lit NOTIFIER_CACHE_FILE)) with
       | Ok body => parse_notifier body
       | Err _ => default_notifier
       end, st)
  end.
Definition append_fallback_log (st : store) (l : LogLine) : store :=
  match xdg_state_dir st with
  | (None, st) => st
  | (Some dir, st) =>
      let p := join dir (lit NOTIFIER_LOG_FILE) in
      let st := match find st p with
                | None => match open_truncate st p with Ok st => st | Err _ => st end
                | Some _ => st
                end in
      append st p (as_bytes (log_entry l))
  end.

Definition audit_log_path : path := default (lit SY_SYAUTH_AUDIT_LOG_DEFAULT) (var SY_SYAUTH_AUDIT_LOG_ENV).
Definition live_audit_outcomes (st : store) : list UnlockOutcome :=
  match read_to_string st audit_log_path with
  | Ok body => audit_log_tail body SY_SYAUTH_AUDIT_TAIL_LINES
  | Err _ => []
  end.

Definition ipc_dir : option path := x ← var_os "XDG_RUNTIME_DIR"; Some (join x (lit IPC_SUBDIR)).
Definition request_path : option path := d ← ipc_dir; Some (join d (lit REQUEST_FILE)).
Definition response_path : option path := d ← ipc_dir; Some (join d (lit RESPONSE_FILE)).

Definition read_request (st : store) : option PairRequest :=
  p ← request_path;
  bytes ← match Store.read st p with Ok b => Some b | Err _ => None end;
  req ← request_of_slice bytes;
  if negb (schema_version req =? SCHEMA_VERSION)%Z || negb (bool_decide (rq_kind req = lit "pair_confirm"))
  then None else Some req.

(** [classify_pair_state]. *)
Definition classify_pair_state (req : option PairRequest) (status_res : result StatusSummary text) (host : text)
    : PairState :=
  match req with
  | Some r => Pending (passkey r)
  | None =>
      match status_res with
      | Ok s => if is_daemon_up s && has_peer s then POk host else Idle
      | Err _ => Idle
      end
  end.

(** [dispatch_notifications]: what is notified, whether the state was saved, and
    the files. *)
Definition dispatch_notifications (st : store) (req : option PairRequest) (status_res : result StatusSummary text)
    (host : text) : list text * bool * store :=
  let '(s, st) := load_notifier_state st in
  let '(s, notes, logs) := notify_dispatcher s (classify_pair_state req status_res host) (live_audit_outcomes st) in
  let st := foldl append_fallback_log st logs in
  match save_notifier_state st s with
  | (Ok _, st) => (notes, true, st)
  | (Err _, st) => (notes, false, st)
  end.

(** [waybar_out]: the line printed, the notifications and the files. *)
Definition waybar_out (st : store) (status_res : result StatusSummary text) (doctor_res : result DoctorSummary text)
    (host : text) (now_ms : Z) : text * list text * store :=
  let req := read_request st in
  let '(notes, _, st) := dispatch_notifications st req status_res host in
  match req with
  | Some r =>
      (emit_pill_json (PILL_GLYPH_KEY ++ lit " " ++ passkey r) (lit "pending")
         (lit "syauth" ++ MIDDLE_DOT ++ lit "pair request" ++ BACKSLASH_N ++ lit "6-digit code " ++ passkey r
          ++ BACKSLASH_N ++ lit "click: accept" ++ MIDDLE_DOT ++ lit "right-click: reject"), notes, st)
  | None =>
      let pill := match status_res, doctor_res with
                  | Ok s, Ok d =>
                      render_pill s (default 0%Z (in_flight_challenges s)) d (last (live_audit_outcomes st)) now_ms host
                  | _, _ => degraded_fallback status_res doctor_res host
                  end in
      (emit_pill_json (pill_text pill) (lit (pill_class pill)) (pill_tooltip pill), notes, st)
  end.

(** [respond]: the notification, the outcome and the files. *)
Definition respond (st : store) (decision : text) : option text * result unit text * store :=
  match read_request st with
  | None => (Some (lit "syauth: no pending pair request"), Ok tt, st)
  | Some req =>
      match response_path with
      | None => (None, Err (lit "XDG_RUNTIME_DIR unset; cannot write response"), st)
      | Some out_path =>
          match parent out_path with
          | None => (None, Err (lit "response path has no parent"), st)
          | Some dir =>
              match create_dir_all st dir with
              | Err _ => (None, Err (lit "mkdir"), st)
              | Ok st =>
                  match response_to_vec SCHEMA_VERSION (request_id req) decision with
                  | Err e => (None, Err e, st)
                  | Ok body =>
                      match write_atomic st out_path body with
                      | (Err e, st) => (None, Err e, st)
                      | (Ok _, st) =>
                          (Some (lit "syauth: " ++ decision ++ lit " (passkey " ++ passkey req ++ lit ")"), Ok tt, st)
                      end
                  end
              end
          end
      end
  end.
End host.

(** *** Commands *)

Definition SY_DEFAULT_PAM_CONTROL : text := lit "sufficient".
Definition SY_DEFAULT_PAM_MODULE_ARGS : text := lit "timeout=8000".
Definition install_pam_args_builder (service control module_args : text) (yes : bool) : list text :=
  [lit "install-pam"; lit "--service"; service; lit "--control"; control; lit "--module-args"; module_args]
  ++ if yes then [lit "--yes"] else [].
Definition uninstall_pam_args_builder (service : text) (yes : bool) : list text :=
  [lit "uninstall-pam"; lit "--service"; service] ++ if yes then [lit "--yes"] else [].

Record RunOpts := mkRunOpts {
  action : option text; waybar : bool; service : option text; control : option text; yes : bool
}.
(** What [run] goes on to do: print the pill, answer a request, or run [syauth]
    with the given arguments. *)
Inductive Action : Type := AWaybar | ARespond (decision : text) | AStatus | ARun (argv : list text) | ADoctor.
Definition run (o : RunOpts) : result Action text :=
  if waybar o then Ok AWaybar
  else
    let a := default (lit "status") (action o) in
    if decide (a = lit "accept") then Ok (ARespond a)
    else if decide (a = lit "reject") then Ok (ARespond a)
    else if decide (a = lit "status") then Ok AStatus
    else if decide (a = lit "install-pam") then
      match service o with
      | None => Err (lit "sy syauth install-pam requires --service <name>")
      | Some s => Ok (ARun (install_pam_args_builder s (default SY_DEFAULT_PAM_CONTROL (control o))
                              SY_DEFAULT_PAM_MODULE_ARGS (yes o)))
      end
    else if decide (a = lit "uninstall-pam") then
      match service o with
      | None => Err (lit "sy syauth uninstall-pam requires --service <name>")
      | Some s => Ok (ARun (uninstall_pam_args_builder s (yes o)))
      end
    else if decide (a = lit "doctor") then Ok ADoctor
    else Err (lit "unknown syauth action: " ++ a
              ++ lit " (accept|reject|status|install-pam|uninstall-pam|doctor; --waybar for bar JSON)").

(** What a run of [syauth] returned: its exit, standard output when it is UTF-8,
    and standard error. *)
Record Output := mkOutput { success : bool; code : text; stdout : option text; stderr : text }.
Section live.
Context (from_str : text → result json text).
(** [live_status] and [live_doctor], for the command's name and parser. *)
Definition live {A} (name : string) (parse : text → result A text) (out : option Output) : result A text :=
  match out with
  | None => Err (lit "spawn syauth " ++ lit name ++ lit " --json")
  | Some out =>
      if negb (success out) then
        Err (lit "syauth " ++ lit name ++ lit " --json failed: exit " ++ code out ++ lit ", stderr: " ++ trim (stderr out))
      else match stdout out with
           | None => Err (lit "syauth " ++ lit name ++ lit " --json emitted non-utf8")
           | Some body =>
               match parse body with
               | Ok a => Ok a
               | Err _ => Err (lit "parse syauth " ++ lit name ++ lit " --json: " ++ body)
               end
           end
  end.
Definition live_status : option Output → result StatusSummary text := live "status" (parse_status_json from_str).
Definition live_doctor : option Output → result DoctorSummary text := live "doctor" (parse_doctor_json from_str).
End live.

(** [print_status]: the line and the exit code. *)
Definition print_status (res : result StatusSummary text) : text * Z :=
  match res with
  | Err e => (lit "sy syauth status: " ++ e, 1%Z)
  | Ok s => (render_status_line s, if is_daemon_up s && has_peer s then 0%Z else 1%Z)
  end.

(** [hostname_for_pill]. *)
Definition hostname_for_pill (st : store) (var : string → option text) : text :=
  let fallback := match var "HOSTNAME" with Some (c :: e) => c :: e | _ => lit "host" end in
  match Store.read_to_string st (lit "/proc/sys/kernel/hostname") with
  | Ok raw => match trim raw with [] => fallback | h => h end
  | Err _ => fallback
  end.

(** *** The doctor *)

Inductive ProbeStatus : Type := POkay | PWarn | PFail.
#[export] Instance ProbeStatus_eq_dec : EqDecision ProbeStatus.
Proof. solve_decision. Defined.
Definition probe_str (s : ProbeStatus) : text :=
  match s with POkay => lit "ok" | PWarn => lit "warn" | PFail => lit "fail" end.
Record ProbeLine := mkProbe { key : string; status : ProbeStatus; hint : text }.

Definition SY_PAM_SO_PATH : string := "/usr/lib64/security/pam_syauth.so".
Definition SY_PAM_SUDO_PATH : string := "/etc/pam.d/sudo".

Definition contains_pam_syauth_line (pam_text : text) : bool :=
  existsb (λ raw, let trimmed := trim_start raw in
                  negb (starts_with trimmed (lit "#")) && contains trimmed (lit "pam_syauth.so")) (lines pam_text).

Definition DOCTOR_PROBE_ORDER : list string :=
  ["daemon"; "bonds_file"; "keys"; "bluez_adapter"; "systemctl"; "last_log_tail"; "pam_so_present"; "pam_so_wired"].

Definition doctor_exit_code (ls : list ProbeLine) : Z :=
  if existsb (λ l, bool_decide (status l = PFail)) ls then 1%Z
  else if existsb (λ l, bool_decide (status l = PWarn)) ls then 2%Z
  else 0%Z.

Definition render_doctor_lines (ls : list ProbeLine) : text :=
  concat (map (λ l, lit "key=" ++ lit (key l) ++ lit " status=" ++ probe_str (status l) ++ lit " hint="
                    ++ quoted (replace 34 [92; 34]%Z (hint l)) ++ [10]%Z) ls).

Definition probe_daemon (v : json) : ProbeLine :=
  if bool_decide (((jget "daemon" v ≫= jget "state") ≫= json_str) = Some "up") then mkProbe "daemon" POkay (lit "daemon up")
  else mkProbe "daemon" PFail (lit "systemctl --user status syauth-presenced").
Definition probe_bonds (v : json) : ProbeLine :=
  let b := jget "bonds_file" v in
  let exists_ := bool_decide ((b ≫= bool_at "exists") = Some true) in
  let parseable := bool_decide ((b ≫= bool_at "parseable") = Some true) in
  let count := default 0%Z (b ≫= u64_at "count") in
  if exists_ && parseable && (0 <? count)%Z then mkProbe "bonds_file" POkay (show_nat count ++ lit " bond(s)")
  else mkProbe "bonds_file" PWarn (lit "syauth pair --waybar").
Definition probe_keys (v : json) : ProbeLine :=
  match (jget "keys" v ≫= jget "files") ≫= json_arr with
  | Some (f :: fs) =>
      if forallb (λ f, bool_decide (bool_at "ok" f = Some true)) (f :: fs) then
        mkProbe "keys" POkay (show_nat (Z.of_nat (length (f :: fs))) ++ lit " file(s) mode 0600")
      else mkProbe "keys" PFail (lit "chmod 0600 /var/lib/syauth/keys/*.bin")
  | _ => mkProbe "keys" PWarn (lit "no keys yet" ++ EM_DASH ++ lit "pair a phone first")
  end.
Definition probe_bluez (v : json) : ProbeLine :=
  let raw := default "missing" (jget "bluez_adapter" v ≫= json_str) in
  if String.eqb raw "ok" then mkProbe "bluez_adapter" POkay (lit "adapter up")
  else if String.eqb raw "unknown" then mkProbe "bluez_adapter" PWarn (lit "bluetoothctl show")
  else mkProbe "bluez_adapter" PFail (lit "adapter state: " ++ lit raw).
Definition probe_systemctl (v : json) : ProbeLine :=
  let raw := default "missing" (jget "systemctl" v ≫= json_str) in
  if String.eqb raw "active" then mkProbe "systemctl" POkay (lit "unit active")
  else mkProbe "systemctl" PFail (lit "systemctl --user enable --now syauth-presenced").
Definition probe_log_tail (v : json) : ProbeLine :=
  match jget "last_log_tail" v ≫= json_arr with
  | Some (_ :: _) => mkProbe "last_log_tail" POkay (lit "audit log non-empty")
  | _ => mkProbe "last_log_tail" PWarn (lit "no unlock attempts yet" ++ EM_DASH ++ lit "try sudo true")
  end.
Definition probe_pam_present (present : bool) : ProbeLine :=
  if present then mkProbe "pam_so_present" POkay (lit SY_PAM_SO_PATH)
  else mkProbe "pam_so_present" PFail (lit "build + install pam_syauth.so").
Definition probe_pam_wired (pam_text : option text) : ProbeLine :=
  if match pam_text with Some t => contains_pam_syauth_line t | None => false end then
    mkProbe "pam_so_wired" POkay (lit SY_PAM_SUDO_PATH)
  else mkProbe "pam_so_wired" PWarn (lit "sy syauth install-pam --service sudo").

Definition doctor_lines (v : json) (pam_so_present : bool) (pam_sudo_contents : option text) : list ProbeLine :=
  [probe_daemon v; probe_bonds v; probe_keys v; probe_bluez v; probe_systemctl v; probe_log_tail v;
   probe_pam_present pam_so_present; probe_pam_wired pam_sudo_contents].
Definition build_doctor_lines (from_str : text → result json text) (doctor_json : text) (pam_so_present : bool)
    (pam_sudo_contents : option text) : result (list ProbeLine) text :=
  rbind (from_str doctor_json) (λ v, Ok (doctor_lines v pam_so_present pam_sudo_contents)).

(** ** What the bar shows *)

(** A lasting refusal of the last ten minutes. *)
Definition failing (last_outcome : option UnlockOutcome) (now_ms : Z) : Prop :=
  ∃ o r, last_outcome = Some o ∧ kind o = Denied r ∧ r ∈ [PeerRevoked; NoBond; AuthError]
       ∧ (now_ms - t_end_ms o <= PILL_RECENT_OUTCOME_MS)%Z.

Lemma recent_denied_iff last_outcome now_ms : is_Some (recent_denied last_outcome now_ms) ↔ failing last_outcome now_ms.
Proof.
  unfold recent_denied, failing, saturating_sub, PILL_RECENT_OUTCOME_MS. destruct last_outcome as [o|]; simpl.
  2:{ split; [by intros [? H]|]. by intros (o & r & H & _). }
  destruct (kind o) as [|r] eqn:E.
  { split; [by intros [? H]|]. intros (o' & r & [= <-] & Hr & _). by rewrite E in Hr. }
  split.
  - destruct (negb _ && _) eqn:H; [|by intros [? ?]]. intros _.
    apply andb_prop in H as [H1 H2%Z.leb_le]. exists o, r. split_and!; [done|done| |lia].
    destruct r; try done; rewrite !elem_of_cons; auto.
  - intros (o' & r' & [= <-] & Hr & Hin & Ht). rewrite E in Hr. injection Hr as <-.
    rewrite (proj2 (Z.leb_le _ _)) by lia.
    rewrite !elem_of_cons in Hin. destruct Hin as [->|[->|[->|?%not_elem_of_nil]]]; done.
Qed.

(** The bar shows the key as usable exactly when the daemon is up with a
    transport that is ready, a phone is bonded, and no lasting refusal is recent;
    it shows no bond only while the daemon is up and its transport has not
    failed; everything else is shown as degraded, unanswered requests aside. *)
Theorem pill_class_spec (status : StatusSummary) (in_flight : Z) (doctor : DoctorSummary)
    (last_outcome : option UnlockOutcome) (now_ms : Z) (host : text) :
  let class := pill_class (render_pill status in_flight doctor last_outcome now_ms host) in
  let down := state status ≠ lit "up" ∨ transport_ready status = Some false in
  (class = "ok" ↔ state status = lit "up" ∧ transport_ready status = Some true ∧ is_Some (peer_id status)
                  ∧ ¬ failing last_outcome now_ms)
  ∧ (class = "unpaired" ↔ ¬ down ∧ peer_id status = None)
  ∧ (class = "degraded" ↔ down ∨ is_Some (peer_id status)
                          ∧ (transport_ready status = None ∨ failing last_outcome now_ms)).
Proof.
  cbn zeta. unfold render_pill, is_daemon_up, has_peer.
  pose proof (recent_denied_iff last_outcome now_ms) as Hf.
  destruct (decide (state status = lit "up")) as [Hu|Hu];
    [rewrite bool_decide_eq_true_2 by done|rewrite bool_decide_eq_false_2 by done; cbn; naive_solver].
  destruct (transport_ready status) as [[|]|]; [|cbn; naive_solver|];
    (destruct (peer_id status) as [p|]; [|cbn; naive_solver]); cbn [negb bool_decide].
  - destruct (recent_denied last_outcome now_ms) as [r|].
    + assert (failing last_outcome now_ms) by (apply Hf; eauto). cbn. naive_solver.
    + assert (¬ failing last_outcome now_ms) by (intros H; apply Hf in H as []; done).
      destruct (0 <? in_flight)%Z; cbn; naive_solver.
  - cbn. naive_solver.
Qed.

(** *** Reading the line back *)

(** The body of a JSON string up to its closing quote, and what follows; control
    characters are not allowed in it. *)
Definition unescape (c : Z) : option Z :=
  if decide (c ∈ [34; 92; 47]%Z) then Some c
  else if decide (c = 110%Z) then Some 10%Z
  else if decide (c = 116%Z) then Some 9%Z
  else if decide (c = 114%Z) then Some 13%Z
  else if decide (c = 98%Z) then Some 8%Z
  else if decide (c = 102%Z) then Some 12%Z
  else None.
Fixpoint json_string (s : text) : option (text * text) :=
  match s with
  | [] => None
  | c :: s' =>
      if (c =? 34)%Z then Some ([], s')
      else if (c =? 92)%Z then
        match s' with
        | [] => None
        | e :: s'' => x ← unescape e; '(t, r) ← json_string s''; Some (x :: t, r)
        end
      else if (c <? 32)%Z then None
      else '(t, r) ← json_string s'; Some (c :: t, r)
  end.
Definition json_field (k : string) (before s : text) : option (text * text) :=
  strip_prefix (before ++ quoted (lit k) ++ lit ":" ++ [34]%Z) s ≫= json_string.
(** The object of the bar, as its reader takes it apart. *)
Definition read_pill (s : text) : option (text * text * text) :=
  '(t, s) ← json_field "text" (lit "{") s;
  '(c, s) ← json_field "class" (lit ",") s;
  '(tip, s) ← json_field "tooltip" (lit ",") s;
  if decide (s = lit "}") then Some (t, c, tip) else None.

Lemma esc_cons c s :
  esc (c :: s) = (if (c =? 92)%Z then [92; 92]%Z else if (c =? 34)%Z then [92; 34]%Z else [c]) ++ esc s.
Proof.
  unfold esc, replace. cbn [flat_map]. rewrite flat_map_app.
  destruct (Z.eqb_spec c 92) as [->|H]; [done|]. cbn [flat_map]. by rewrite app_nil_r.
Qed.

Definition printable (s : text) : Prop := Forall (λ c, (32 <= c)%Z) s.
#[export] Instance printable_dec s : Decision (printable s) := _.

Lemma printable_cons c s : (32 <= c)%Z → printable (c :: s) ↔ printable s.
Proof. intros H. unfold printable. rewrite Forall_cons. tauto. Qed.

Lemma json_string_esc s r :
  json_string (esc s ++ 34%Z :: r) = if decide (printable s) then Some (s, r) else None.
Proof.
  induction s as [|c s IH]; [done|]. rewrite esc_cons, <- app_assoc.
  destruct (Z.eqb_spec c 92) as [->|H92]; [|destruct (Z.eqb_spec c 34) as [->|H34]].
  - cbn [app json_string]. change (92 =? 34)%Z with false. change (92 =? 92)%Z with true. cbn match.
    change (unescape 92) with (Some 92%Z). cbn [mbind option_bind]. rewrite IH.
    destruct (decide (printable s)), (decide (printable (92%Z :: s))) as [Hp|Hp]; try done;
      rewrite printable_cons in Hp by lia; done.
  - cbn [app json_string]. change (92 =? 34)%Z with false. change (92 =? 92)%Z with true. cbn match.
    change (unescape 34) with (Some 34%Z). cbn [mbind option_bind]. rewrite IH.
    destruct (decide (printable s)), (decide (printable (34%Z :: s))) as [Hp|Hp]; try done;
      rewrite printable_cons in Hp by lia; done.
  - cbn [app json_string]. rewrite (proj2 (Z.eqb_neq c 34)), (proj2 (Z.eqb_neq c 92)) by done.
    destruct (Z.ltb_spec c 32) as [Hc|Hc].
    + rewrite decide_False; [done|]. unfold printable. rewrite Forall_cons. lia.
    + rewrite IH. destruct (decide (printable s)), (decide (printable (c :: s))) as [Hp|Hp]; try done;
      rewrite printable_cons in Hp by lia; done.
Qed.

Lemma json_field_emitted k before t r :
  json_field k before (before ++ quoted (lit k) ++ lit ":" ++ quoted (esc t) ++ r)
  = if decide (printable t) then Some (t, r) else None.
Proof.
  unfold json_field. rewrite <- json_string_esc.
  assert (before ++ quoted (lit k) ++ lit ":" ++ quoted (esc t) ++ r
          = (before ++ quoted (lit k) ++ lit ":" ++ [34%Z]) ++ esc t ++ 34%Z :: r) as ->.
  { unfold quoted at 2. by rewrite <- !app_assoc. }
  by rewrite strip_prefix_app.
Qed.

(** The line for the bar is JSON that reads back as exactly the text, the class
    and the tooltip it was made of, quotes and backslashes included, when these
    hold no control character, and is not JSON otherwise: a tooltip with a line
    break in it loses the pill. *)
Theorem pill_json_round_trip (t class tooltip : text) :
  read_pill (emit_pill_json t class tooltip)
  = if decide (printable t ∧ printable class ∧ printable tooltip) then Some (t, class, tooltip) else None.
Proof.
  unfold read_pill, emit_pill_json. rewrite json_field_emitted.
  destruct (decide (printable t)); cbn [mbind option_bind]; [|by rewrite decide_False by (intros (?&?&?); done)].
  rewrite json_field_emitted.
  destruct (decide (printable class)); cbn [mbind option_bind]; [|by rewrite decide_False by (intros (?&?&?); done)].
  rewrite json_field_emitted.
  destruct (decide (printable tooltip)); cbn [mbind option_bind]; [|by rewrite decide_False by (intros (?&?&?); done)].
  by rewrite !decide_True.
Qed.

(** The separator of the tooltip's lines is escaped a second time: what is read
    back holds a backslash and an [n], not a line break. *)
Example tooltip_lines_are_one :
  read_pill (emit_pill_json PILL_GLYPH_KEY (lit "ok") (join_with BACKSLASH_N [lit "a"; lit "b"]))
  = Some (PILL_GLYPH_KEY, lit "ok", [97; 92; 110; 98]%Z).
Proof. by vm_compute. Qed.

(** A probe that failed with an error of two lines leaves a line that is not
    JSON. *)
Example two_line_error_breaks_the_pill :
  let p := degraded_fallback (Err [97; 10; 98]%Z) (Ok (mkDoctor (lit "ok"))) (lit "host") in
  read_pill (emit_pill_json (pill_text p) (lit (pill_class p)) (pill_tooltip p)) = None.
Proof. by vm_compute. Qed.

(** No bond comes before a transport whose health is unknown. *)
Example unpaired_before_degraded :
  pill_class (render_pill (mkStatus (lit "up") None None None None None) 0 (mkDoctor (lit "ok")) None 0 (lit "h"))
  = "unpaired".
Proof. by vm_compute. Qed.

(** ** Notifications *)

(** *** The state file *)
Lemma keys_line (s p k : text) : is_line k → k ≠ [] → is_line p → is_line (p ++ k).
Proof.
  intros [H1 H2] Hk [H3 H4]. split; [by rewrite not_elem_of_app|].
  rewrite last_app. destruct (last k) eqn:E; [done|]. by apply last_None in E.
Qed.

(** A key the state file can hold. *)
Definition plain_key (k : option text) : Prop :=
  match k with Some k => k ≠ [] ∧ is_line k ∧ Forall is_char k | None => True end.
Definition plain_state (s : NotifierState) : Prop := plain_key (last_pair_key s) ∧ plain_key (last_outcome_key s).

Lemma plain_key_line (p : text) k : plain_key k → is_line p → is_line (p ++ default [] k).
Proof.
  destruct k as [k|]; cbn; [|by rewrite app_nil_r]. intros (H1 & H2 & _) Hp. by apply (keys_line []).
Qed.

Lemma non_empty_key k : plain_key k → non_empty (default [] k) = k.
Proof. destruct k as [[|c k]|]; cbn; [by intros [? _]|done|done]. Qed.

(** A state that is saved reads back. *)
Lemma parse_notifier_body s : plain_state s → parse_notifier (notifier_body s) = s.
Proof.
  intros [Hp Ho]. unfold parse_notifier, notifier_body.
  assert (is_line (lit "pair=")) as Lp by (split; [refine (bool_decide_unpack _ _); by vm_compute|done]).
  assert (is_line (lit "outcome=")) as Lo by (split; [refine (bool_decide_unpack _ _); by vm_compute|done]).
  cbn [app]. rewrite (app_assoc (lit "pair=")), lines_app by (by apply plain_key_line).
  rewrite (app_assoc (lit "outcome=")), lines_app by (by apply plain_key_line).
  cbn [foldl lines split_inclusive map]. unfold read_line. rewrite strip_prefix_app.
  assert (strip_prefix (lit "pair=") (lit "outcome=" ++ default [] (last_outcome_key s)) = None) as ->
    by by vm_compute.
  rewrite strip_prefix_app, !non_empty_key by done. by destruct s.
Qed.

Lemma notifier_body_chars s : plain_state s → Forall is_char (notifier_body s).
Proof.
  intros [Hp Ho]. unfold notifier_body. rewrite !Forall_app.
  assert (∀ k, plain_key k → Forall is_char (default [] k)) as Hk by (intros [k|]; cbn; naive_solver).
  split_and!; try (by apply Hk); refine (bool_decide_unpack _ _); by vm_compute.
Qed.

(** *** The dispatcher *)

(** Dispatching what was dispatched last notifies nothing. *)
Lemma dispatch_again s p os s' notes logs :
  notify_dispatcher s p os = (s', notes, logs) → ∃ logs', notify_dispatcher s' p os = (s', [], logs').
Proof.
  unfold notify_dispatcher.
  destruct (dispatch_pair s p) as [[s1 n1] l1] eqn:E1, (dispatch_unlock s1 os) as [[s2 n2] l2] eqn:E2.
  intros [= <- <- <-].
  assert (last_pair_key s1 = pair_key p) as Hp.
  { revert E1. unfold dispatch_pair. case_decide as H; [by intros [= <- _ _]|].
    destruct (notification_body p); by intros [= <- _ _]. }
  assert (last_pair_key s2 = pair_key p) as Hp2.
  { revert E2. unfold dispatch_unlock. destruct (last os) as [o|]; [|by intros [= <- _ _]].
    case_decide; [by intros [= <- _ _]|]. destruct (kind o); by intros [= <- _ _]. }
  assert (∃ l, dispatch_pair s2 p = (s2, [], l)) as [l ->].
  { unfold dispatch_pair. rewrite decide_True by done. eauto. }
  assert (∃ l, dispatch_unlock s2 os = (s2, [], l)) as [l' ->].
  { revert E2. unfold dispatch_unlock. destruct (last os) as [o|]; [|intros [= <- _ _]; eauto].
    case_decide as H; [intros [= <- _ _]; rewrite decide_True by done; eauto|].
    destruct (kind o); intros [= <- _ _]; cbn [last_outcome_key]; rewrite decide_True by done; eauto. }
  by eexists.
Qed.

Lemma dispatch_keys s p os s' notes logs :
  notify_dispatcher s p os = (s', notes, logs) →
  last_pair_key s' = pair_key p
  ∧ last_outcome_key s' = match last os with Some o => Some (outcome_key o) | None => last_outcome_key s end.
Proof.
  unfold notify_dispatcher.
  destruct (dispatch_pair s p) as [[s1 n1] l1] eqn:E1, (dispatch_unlock s1 os) as [[s2 n2] l2] eqn:E2.
  intros [= <- <- <-].
  assert (last_pair_key s1 = pair_key p ∧ last_outcome_key s1 = last_outcome_key s) as [Hp Ho].
  { revert E1. unfold dispatch_pair. case_decide as H; [by intros [= <- _ _]|].
    destruct (notification_body p); by intros [= <- _ _]. }
  revert E2. unfold dispatch_unlock. destruct (last os) as [o|]; [|by intros [= <- _ _]].
  case_decide as H; [intros [= <- _ _]; done|]. destruct (kind o); intros [= <- _ _]; done.
Qed.

(** *** Keys of the audit log *)
Lemma lines_no_newline s : Forall (λ l, 10%Z ∉ l) (lines s).
Proof.
  unfold lines. assert (∀ acc, 10%Z ∉ acc → Forall (λ l, 10%Z ∉ l) (map drop_line_end (split_inclusive acc s))) as H;
    [|apply H, not_elem_of_nil].
  assert (∀ acc, 10%Z ∉ acc → 10%Z ∉ drop_line_end (acc ++ [10%Z])) as Hl.
  { intros acc Ha. unfold drop_line_end. destruct (strip_suffix [13%Z; 10%Z] (acc ++ [10%Z])) as [r|] eqn:E.
    - apply strip_suffix_Some in E. change [13%Z; 10%Z] with ([13%Z] ++ [10%Z]) in E.
      rewrite app_assoc in E. apply app_inj_tail in E as [-> _]. by rewrite not_elem_of_app in Ha; destruct Ha.
    - by rewrite strip_suffix_snoc. }
  assert (∀ acc, 10%Z ∉ acc → drop_line_end acc = acc) as Hn.
  { intros acc Ha. unfold drop_line_end.
    destruct (strip_suffix [13%Z; 10%Z] acc) as [r|] eqn:E.
    { apply strip_suffix_Some in E as ->. rewrite not_elem_of_app in Ha. destruct Ha as [_ []]. by right; left. }
    destruct (strip_suffix [10%Z] acc) as [r|] eqn:E'; [|done].
    apply strip_suffix_Some in E' as ->. rewrite not_elem_of_app in Ha. destruct Ha as [_ []]. by left. }
  induction s as [|c s IH]; intros acc Ha; cbn [split_inclusive].
  - destruct acc as [|a acc]; [constructor|]. cbn [map]. rewrite Hn by done. by constructor.
  - destruct (Z.eqb_spec c 10) as [->|Hc]; cbn [map].
    + constructor; [by apply Hl|]. apply IH, not_elem_of_nil.
    + apply IH. rewrite not_elem_of_app, list_elem_of_singleton. auto.
Qed.

Lemma split_acc_elem sep acc s p c : p ∈ split_acc sep acc s → c ∈ p → c ∈ acc ∨ c ∈ s.
Proof.
  revert acc. induction s as [|d s IH]; intros acc; cbn [split_acc].
  - intros ->%list_elem_of_singleton. auto.
  - case_match.
    + intros [->|Hp]%elem_of_cons Hc; [auto|]. destruct (IH [] Hp Hc) as [?%not_elem_of_nil|?]; [done|].
      right. by right.
    + intros Hp Hc. destruct (IH _ Hp Hc) as [[?| ->%list_elem_of_singleton]%elem_of_app|?]; [auto| |].
      * right. by left.
      * right. by right.
Qed.

Lemma from_csv_display tag c : c ∈ as_display (from_csv tag) → c = 10%Z → c ∈ tag.
Proof.
  unfold from_csv. repeat case_decide; cbn [as_display]; [| | | |done]; intros Hc ->; exfalso; revert Hc;
    change (¬ 10%Z ∈ lit "peer revoked") || change (¬ 10%Z ∈ lit "no bond") || change (¬ 10%Z ∈ lit "auth-err")
    || change (¬ 10%Z ∈ lit "transport-error"); refine (bool_decide_unpack _ _); by vm_compute.
Qed.

Lemma digits_no_newline n : 10%Z ∉ show_nat n.
Proof.
  intros H. pose proof (show_nat_digits n) as Hd. rewrite Forall_forall in Hd. apply Hd in H.
  unfold is_digit in H. lia.
Qed.

Lemma last_digits n : last (show_nat n) ≠ Some 13%Z.
Proof.
  intros H. apply last_Some in H as [l H]. pose proof (show_nat_digits n) as Hd. rewrite H, Forall_app in Hd.
  destruct Hd as [_ Hd]. inversion Hd as [|? ? Hc]. unfold is_digit in Hc. lia.
Qed.

(** A row of the log, printed as a key, is one line. *)
Lemma outcome_key_line content n o : o ∈ audit_log_tail content n → is_line (outcome_key o) ∧ outcome_key o ≠ [].
Proof.
  intros Ho. assert (o ∈ omap row_of (lines content)) as Hin.
  { unfold audit_log_tail in Ho. destruct (n <? _); [|done]. by eapply subseteq_drop. }
  apply list_elem_of_omap in Hin as (line & Hl & Hr).
  assert (10%Z ∉ line) as Hn.
  { pose proof (lines_no_newline content) as H. rewrite Forall_forall in H. by apply H. }
  assert (∀ p, p ∈ split_on 44%Z line → 10%Z ∉ p) as Hp.
  { intros p Hp Hc. destruct (split_acc_elem _ _ _ _ _ Hp Hc) as [?%not_elem_of_nil|?]; done. }
  unfold row_of in Hr. destruct (split_on 44%Z line) as [|c1 [|c2 [|c3 [|c4 [|c5 [|c6 [|]]]]]]]; try done.
  destruct (parse_usize c3) as [ts|]; [|done]. destruct (parse_usize c4) as [te|]; [|done]. simpl in Hr.
  injection Hr as <-. assert (10%Z ∉ c2) as H2 by (apply Hp; set_solver). assert (10%Z ∉ c5) as H5 by (apply Hp; set_solver).
  unfold outcome_key. cbn [kind nonce t_end_ms]. split.
  - split.
    + rewrite !not_elem_of_app. split_and!; [|refine (bool_decide_unpack _ _); by vm_compute|done
        |refine (bool_decide_unpack _ _); by vm_compute|apply digits_no_newline].
      case_decide; [refine (bool_decide_unpack _ _); by vm_compute|].
      rewrite not_elem_of_app. split; [refine (bool_decide_unpack _ _); by vm_compute|].
      intros Hc. apply H5. by apply from_csv_display.
    + rewrite !app_assoc, last_app. destruct (last (show_nat te)) eqn:E; [rewrite <- E; apply last_digits|].
      apply last_None in E. by destruct (show_nat_nonempty te).
  - intros H. apply app_eq_nil in H as [_ H]. by apply app_eq_nil in H as [H _].
Qed.

(** *** The files of a poll *)

Definition dirs_made (st : store) (dir : path) : Prop :=
  ∀ k, k `prefix_of` components dir → k ≠ [] → st !! k = Some NDir.

Lemma dirs_made_again st dir : dirs_made st dir → create_dir_all st dir = Ok st.
Proof. intros H. by apply mkdirs_present. Qed.

Lemma mkdirs_made st acc cs st' :
  mkdirs st acc cs = Ok st' → ∀ k, k `prefix_of` cs → k ≠ [] → st' !! (acc ++ k) = Some NDir.
Proof.
  revert st acc. induction cs as [|c cs IH]; intros st acc H k [e Hk] Hne.
  { destruct k; [done|discriminate]. }
  destruct k as [|c' k]; [done|]. injection Hk as <- ->. cbn [mkdirs] in H.
  assert (∃ s, mkdirs s (acc ++ [c]) (k ++ e) = Ok st' ∧ s !! (acc ++ [c]) = Some NDir) as (s & Hs & Hc).
  { destruct (st !! (acc ++ [c])) as [[|b]|] eqn:E; [by exists st|done|].
    eexists. split; [done|]. apply lookup_insert_eq. }
  replace (acc ++ c :: k) with ((acc ++ [c]) ++ k) by (by rewrite <- app_assoc).
  destruct k as [|d k]; [|by eapply IH; [done|by exists e|done]].
  rewrite app_nil_r. destruct (mkdirs_lookup _ _ _ _ (acc ++ [c]) Hs) as [->|(? & ? & _)]; done.
Qed.

Lemma create_dir_all_made st dir st' : create_dir_all st dir = Ok st' → dirs_made st' dir.
Proof. intros H k Hk Hne. exact (mkdirs_made _ _ _ _ H k Hk Hne). Qed.

(** Writing files keeps the directories. *)
Lemma dirs_made_other st st' dir :
  dirs_made st dir → (∀ k, st !! k = Some NDir → st' !! k = Some NDir) → dirs_made st' dir.
Proof. intros H Hk k ??. by apply Hk, H. Qed.

Lemma open_truncate_dirs st p st' k : open_truncate st p = Ok st' → st !! k = Some NDir → st' !! k = Some NDir.
Proof.
  intros H Hk. pose proof (open_truncate_Ok _ _ _ H) as ->. rewrite lookup_insert_ne; [done|].
  intros <-. unfold open_truncate, find in H. by rewrite Hk in H.
Qed.
Lemma append_dirs st p b k : st !! k = Some NDir → append st p b !! k = Some NDir.
Proof.
  intros Hk. unfold append, find. destruct (st !! components p) as [[|c]|] eqn:E; [done| |done].
  rewrite lookup_insert_ne; [done|]. intros <-. by rewrite E in Hk.
Qed.

(** An atomic write of this module that succeeds. *)
Lemma write_atomic_spec st p body st' n :
  is_name n → file_name p = Some n → write_atomic st p body = (Ok tt, st') →
  Store.read st' p = Ok body ∧ (∀ k, st !! k = Some NDir → st' !! k = Some NDir).
Proof.
  intros Hn Hf. unfold write_atomic. destruct (parent p) as [dir|] eqn:Ep; [|done]. rewrite Hf. cbn [default from_option].
  set (tmp := join dir _). destruct (Store.write st tmp body) as [st1|] eqn:Ew; [|done].
  destruct (rename st1 tmp p) as [st2|] eqn:Er; [|done]. intros [= <-].
  assert (components tmp ≠ components p) as Hne.
  { assert (is_name (lit "." ++ n ++ lit ".tmp")) as Ht.
    { destruct Hn as (H1 & _). unfold is_name. cbn [lit map String.list_ascii_of_string app]. split_and!; try done.
      - rewrite not_elem_of_cons, not_elem_of_app. split_and!; [done|done|]. refine (bool_decide_unpack _ _); by vm_compute.
      - intros H. apply (f_equal length) in H. simpl in H. rewrite length_app in H. simpl in H. lia.
      - intros H. apply (f_equal length) in H. simpl in H. rewrite length_app in H. simpl in H. lia. }
    unfold tmp. rewrite components_join by done. intros H.
    unfold file_name in Hf. rewrite <- H, last_snoc in Hf. destruct (is_normal _); [|done].
    injection Hf as Hf. apply (f_equal length) in Hf. simpl in Hf. rewrite length_app in Hf. simpl in Hf. lia. }
  assert (Store.write_atomic st tmp p body = Ok st2) as Ha by (unfold Store.write_atomic; by rewrite Ew).
  pose proof (write_atomic_Ok _ _ _ _ _ Hne Ha) as ->. split; [apply read_insert|].
  intros k Hk. unfold Store.write in Ew. destruct (open_truncate st tmp) as [s|] eqn:Eo; [|done]. injection Ew as <-.
  assert (append s tmp body !! k = Some NDir) as Hk1 by (by eapply append_dirs, open_truncate_dirs).
  revert Er. unfold rename. pose proof (open_truncate_Ok _ _ _ Eo) as ->.
  assert (append (<[components tmp:=NFile []]> st) tmp body !! components tmp = Some (NFile body)) as Et.
  { rewrite (append_eq _ _ []) by apply lookup_insert_eq. apply lookup_insert_eq. }
  rewrite Et, decide_False by done. destruct (negb _); [done|].
  destruct (append _ tmp body !! components p) as [[|c]|] eqn:Epp; [done| |]; intros _;
    (rewrite lookup_insert_ne; [rewrite lookup_delete_ne; [done|]|]; intros <-; congruence).
Qed.

Section polls.
Context (var : string → option text).
Context (request_of_slice : list Z → option PairRequest).
Context (response_to_vec : Z → text → text → result (list Z) text).
Context (log_entry : LogLine → text).

Lemma state_dir_some st dir st1 :
  xdg_state_dir var st = (Some dir, st1) →
  dirs_made st1 dir ∧ ∀ st2, dirs_made st2 dir → xdg_state_dir var st2 = (Some dir, st2).
Proof.
  unfold xdg_state_dir. destruct (match var_os var "XDG_STATE_HOME" with Some x => Some x | None => _ end) as [b|];
    [|done].
  destruct (create_dir_all st (join b (lit "sy"))) as [s|] eqn:E; [|done]. intros [= <- <-].
  split; [by eapply create_dir_all_made|]. intros st2 H2. by rewrite dirs_made_again.
Qed.
Lemma state_dir_none st st1 : xdg_state_dir var st = (None, st1) → st1 = st.
Proof.
  unfold xdg_state_dir. destruct (match var_os var "XDG_STATE_HOME" with Some x => Some x | None => _ end) as [b|];
    [|congruence].
  destruct (create_dir_all st (join b (lit "sy"))); congruence.
Qed.

Lemma logs_keep_dirs logs st dir st0 :
  xdg_state_dir var st0 = (Some dir, st) → ∀ st1, dirs_made st1 dir →
  dirs_made (foldl (append_fallback_log var log_entry) st1 logs) dir.
Proof.
  intros Hx. destruct (state_dir_some _ _ _ Hx) as [_ Hdir]. clear Hx.
  induction logs as [|l logs IH]; intros st1 H1; [done|]. cbn [foldl]. apply IH.
  unfold append_fallback_log. rewrite Hdir by done. eapply dirs_made_other; [done|]. intros k Hk.
  apply append_dirs. destruct (find st1 _); [done|].
  destruct (open_truncate st1 _) as [s|] eqn:E; [|done]. by eapply open_truncate_dirs.
Qed.
Lemma logs_nowhere logs st : xdg_state_dir var st = (None, st) → foldl (append_fallback_log var log_entry) st logs = st.
Proof.
  intros H. induction logs as [|l logs IH]; [done|]. cbn [foldl]. unfold append_fallback_log at 2. by rewrite H.
Qed.

(** A poll that saved its state left it readable, for the next poll to find. *)
Lemma poll_saves st req res host notes st1 :
  dispatch_notifications var log_entry st req res host = (notes, true, st1) →
  plain_state (notify_dispatcher (load_notifier_state var st).1 (classify_pair_state req res host)
                 (live_audit_outcomes var (load_notifier_state var st).2)).1.1 →
  load_notifier_state var st1
  = ((notify_dispatcher (load_notifier_state var st).1 (classify_pair_state req res host)
        (live_audit_outcomes var (load_notifier_state var st).2)).1.1, st1).
Proof.
  unfold dispatch_notifications. destruct (load_notifier_state var st) as [s st0] eqn:El. cbn [fst snd].
  destruct (notify_dispatcher _ _ _) as [[s' ns] logs]. cbn [fst snd]. intros Hd Hs.
  unfold save_notifier_state in Hd. unfold load_notifier_state in El.
  destruct (xdg_state_dir var st) as [[dir|] std] eqn:Ex.
  - injection El as _ <-. destruct (state_dir_some _ _ _ Ex) as [Hm Hdir].
    pose proof (logs_keep_dirs logs std dir st Ex std Hm) as Hm'.
    rewrite Hdir in Hd by done.
    destruct (write_atomic _ _ _) as [[[]|] st2] eqn:Ew; [|done]. injection Hd as _ <-.
    assert (is_name (lit NOTIFIER_CACHE_FILE)) as Hn by (refine (bool_decide_unpack _ _); by vm_compute).
    destruct (write_atomic_spec _ _ _ _ _ Hn (file_name_join _ _ Hn) Ew) as [Hr Hk].
    unfold load_notifier_state. rewrite Hdir by (by eapply dirs_made_other).
    unfold Store.read_to_string. rewrite Hr. cbn [rbind].
    rewrite from_utf8_text by (by apply notifier_body_chars). by rewrite parse_notifier_body.
  - pose proof (state_dir_none _ _ Ex) as ->. injection El as _ <-. by rewrite logs_nowhere, Ex in Hd.
Qed.

(** A notification is sent once: after a poll that could save its state, a
    poll of the same snapshot (the same request, status and audit log) sends
    nothing, even though each poll is a process of its own that knows only the
    state file. *)
Theorem a_snapshot_notifies_once (st st1 st2 : store) (req : option PairRequest) (res : result StatusSummary text)
    (host : text) (notes notes' : list text) (saved : bool)
    (Hpair : plain_key (pair_key (classify_pair_state req res host)))
    (Hstate : plain_state (load_notifier_state var st).1)
    (Hlog : ∀ o, last (live_audit_outcomes var st1) = Some o → Forall is_char (outcome_key o))
    (Hsame : live_audit_outcomes var st1 = live_audit_outcomes var (load_notifier_state var st).2)
    (Hfirst : dispatch_notifications var log_entry st req res host = (notes, true, st1))
    (Hsecond : dispatch_notifications var log_entry st1 req res host = (notes', saved, st2)) :
  notes' = [].
Proof.
  pose proof (poll_saves _ _ _ _ _ _ Hfirst) as Hl. rewrite <- Hsame in Hl.
  destruct (notify_dispatcher (load_notifier_state var st).1 (classify_pair_state req res host)
              (live_audit_outcomes var st1)) as [[s' ns] logs] eqn:En.
  cbn [fst] in Hl. destruct (dispatch_keys _ _ _ _ _ _ En) as [Hk1 Hk2].
  assert (plain_state s') as Hs.
  { split; [by rewrite Hk1|]. rewrite Hk2.
    destruct (last (live_audit_outcomes var st1)) as [o|] eqn:Eo; [|apply Hstate].
    pose proof (Hlog o eq_refl) as Hc. unfold live_audit_outcomes in Eo.
    destruct (Store.read_to_string st1 _) as [body|]; [|done].
    apply last_Some_elem_of in Eo as Hin. destruct (outcome_key_line _ _ _ Hin). cbn. auto. }
  unfold dispatch_notifications in Hsecond. rewrite (Hl Hs) in Hsecond.
  destruct (dispatch_again _ _ _ _ _ _ En) as [logs' E]. rewrite E in Hsecond.
  destruct (save_notifier_state _ _ _) as [[] ?]; congruence.
Qed.
End polls.

(** A bond that was there all along is announced again after the daemon was
    down: no request came before it. *)
Example paired_without_a_request :
  (notify_dispatcher (mkNotifier None None) (POk (lit "host")) []).1.2 = [lit "syauth: paired with host"].
Proof. by vm_compute. Qed.

(** An idle poll after an idle poll logs nothing. *)
Example idle_poll_logs_nothing : notify_dispatcher default_notifier Idle [] = (default_notifier, [], []).
Proof. by vm_compute. Qed.

(** Of two rows between polls only the last is looked at. *)
Example refusal_before_success_is_not_notified :
  (notify_dispatcher default_notifier Idle
     [mkOutcome (lit "p") (lit "n1") 1 2 (Denied NoBond); mkOutcome (lit "p") (lit "n2") 3 4 OOk]).1.2 = [].
Proof. by vm_compute. Qed.

(** ** Answers *)

(** A click answers the request that is pending and no other: it writes a
    response naming that request's id with the decision, in place of any earlier
    response, and says so; with no valid request of this schema pending it writes
    nothing at all. *)
Theorem answer_names_the_request (var : string → option text) (request_of_slice : list Z → option PairRequest)
    (response_to_vec : Z → text → text → result (list Z) text) (st st' : store) (decision : text) (note : option text)
    (H : respond var request_of_slice response_to_vec st decision = (note, Ok tt, st')) :
  match read_request var request_of_slice st with
  | None => st' = st
  | Some req =>
      schema_version req = SCHEMA_VERSION
      ∧ ∃ p body, response_path var = Some p ∧ response_to_vec SCHEMA_VERSION (request_id req) decision = Ok body
                ∧ Store.read st' p = Ok body ∧ is_Some note
  end.
Proof.
  revert H. unfold respond. destruct (read_request var request_of_slice st) as [req|] eqn:Er; [|by intros [= _ <-]].
  assert (schema_version req = SCHEMA_VERSION) as Hv.
  { unfold read_request in Er. destruct (request_path var) as [p|]; [|done]. simpl in Er.
    destruct (Store.read st p) as [b|]; [|done]. simpl in Er. destruct (request_of_slice b) as [r|]; [|done].
    simpl in Er. destruct (negb _ || _) eqn:E; [done|]. injection Er as <-.
    apply orb_false_iff in E as [E _]. apply negb_false_iff, Z.eqb_eq in E. done. }
  destruct (response_path var) as [p|] eqn:Ep; [|done]. destruct (parent p) as [dir|]; [|done].
  destruct (create_dir_all st dir) as [st1|]; [|done].
  destruct (response_to_vec _ _ _) as [body|] eqn:Eb; [|done].
  destruct (write_atomic st1 p body) as [[[]|] st2] eqn:Ew; [|done]. intros [= <- <-].
  split; [done|]. exists p, body. split_and!; [done|done| |done].
  unfold response_path in Ep. destruct (ipc_dir var) as [d|]; [|done]. simpl in Ep. injection Ep as <-.
  assert (is_name (lit RESPONSE_FILE)) as Hn by (refine (bool_decide_unpack _ _); by vm_compute).
  by destruct (write_atomic_spec _ _ _ _ _ Hn (file_name_join _ _ Hn) Ew).
Qed.

(** ** The doctor's verdict *)
Lemma exit_code_spec ls :
  (doctor_exit_code ls = 0%Z ↔ Forall (λ l, status l = POkay) ls)
  ∧ (doctor_exit_code ls = 1%Z ↔ Exists (λ l, status l = PFail) ls)
  ∧ doctor_exit_code ls ∈ [0; 1; 2]%Z.
Proof.
  assert (∀ s, existsb (λ l, bool_decide (status l = s)) ls = true ↔ Exists (λ l, status l = s) ls) as He.
  { intros s. rewrite existsb_exists, Exists_exists. setoid_rewrite bool_decide_eq_true.
    by setoid_rewrite list_elem_of_In. }
  unfold doctor_exit_code. pose proof (He PFail) as Hf. pose proof (He PWarn) as Hw.
  assert (Forall (λ l, status l = POkay) ls ↔ ¬ Exists (λ l, status l = PFail) ls ∧ ¬ Exists (λ l, status l = PWarn) ls)
    as Ho.
  { rewrite <- !Forall_Exists_neg, <- Forall_and. apply Forall_iff. intros l. destruct (status l); naive_solver. }
  rewrite Ho, <- Hf, <- Hw.
  destruct (existsb (λ l, bool_decide (status l = PFail)) ls), (existsb (λ l, bool_decide (status l = PWarn)) ls);
    split_and!; (set_solver || naive_solver).
Qed.

Lemma probe_daemon_spec v :
  let up := (jget "daemon" v ≫= jget "state") ≫= json_str = Some "up" in
  (status (probe_daemon v) = POkay ↔ up) ∧ (status (probe_daemon v) = PFail ↔ ¬ up).
Proof. cbn zeta. unfold probe_daemon. case_bool_decide; naive_solver. Qed.

Lemma probe_bonds_spec v :
  let bonds := jget "bonds_file" v in
  (status (probe_bonds v) = POkay ↔
     (bonds ≫= bool_at "exists") = Some true ∧ (bonds ≫= bool_at "parseable") = Some true
     ∧ ∃ n, (bonds ≫= u64_at "count") = Some n ∧ (0 < n)%Z) ∧ status (probe_bonds v) ≠ PFail.
Proof.
  cbn zeta. unfold probe_bonds. set (e := jget "bonds_file" v ≫= bool_at "exists").
  set (p := jget "bonds_file" v ≫= bool_at "parseable"). set (n := jget "bonds_file" v ≫= u64_at "count").
  destruct (decide (e = Some true)) as [->|He]; [|rewrite (bool_decide_eq_false_2 (e = _)) by done; cbn; naive_solver].
  destruct (decide (p = Some true)) as [->|Hp];
    [|rewrite (bool_decide_eq_false_2 (p = _)) by done; rewrite andb_false_r; cbn; naive_solver].
  rewrite !bool_decide_eq_true_2 by done. cbn [andb].
  destruct n as [n|]; cbn [default from_option id]; [|cbn; naive_solver].
  destruct (Z.ltb_spec 0 n); cbn [status].
  - split; [split; [intros _; eauto|done]|done].
  - split; [split; [done|]|done]. intros (_ & _ & m & [= <-] & ?). lia.
Qed.

Lemma probe_keys_spec v :
  let files := (jget "keys" v ≫= jget "files") ≫= json_arr in
  let key_ok f := bool_at "ok" f = Some true in
  (status (probe_keys v) = POkay ↔ ∃ f fs, files = Some (f :: fs) ∧ Forall key_ok (f :: fs))
  ∧ (status (probe_keys v) = PFail ↔ ∃ f fs, files = Some (f :: fs) ∧ ¬ Forall key_ok (f :: fs)).
Proof.
  cbn zeta. unfold probe_keys. destruct ((jget "keys" v ≫= jget "files") ≫= json_arr) as [[|f fs]|];
    [cbn; naive_solver| |cbn; naive_solver].
  assert (forallb (λ f, bool_decide (bool_at "ok" f = Some true)) (f :: fs) = true
          ↔ Forall (λ f, bool_at "ok" f = Some true) (f :: fs)) as Hall.
  { rewrite forallb_forall, Forall_forall. setoid_rewrite bool_decide_eq_true. by setoid_rewrite list_elem_of_In. }
  destruct (forallb _ (f :: fs)); cbn [status]; split; split; try done.
  - intros _. exists f, fs. split; [done|]. by apply Hall.
  - intros (f' & fs' & [= <- <-] & H). destruct H. by apply Hall.
  - intros (f' & fs' & [= <- <-] & H). apply Hall in H. done.
  - intros _. exists f, fs. split; [done|]. intros H. apply Hall in H. done.
Qed.

Lemma probe_bluez_spec v :
  let raw := jget "bluez_adapter" v ≫= json_str in
  (status (probe_bluez v) = POkay ↔ raw = Some "ok")
  ∧ (status (probe_bluez v) = PFail ↔ ¬ (raw = Some "ok" ∨ raw = Some "unknown")).
Proof.
  cbn zeta. unfold probe_bluez. destruct (jget "bluez_adapter" v ≫= json_str) as [s|]; cbn [default from_option id].
  2:{ split; split; try done. by intros _ [?|?]. }
  destruct (String.eqb_spec s "ok") as [->|H1]; [split; split; try done; intros H; destruct H; auto|].
  destruct (String.eqb_spec s "unknown") as [->|H2]; cbn [status]; split; split; try done; try congruence.
  - intros H; destruct H; auto.
  - intros _ [?|?]; congruence.
Qed.

Lemma probe_systemctl_spec v :
  let raw := jget "systemctl" v ≫= json_str in
  (status (probe_systemctl v) = POkay ↔ raw = Some "active")
  ∧ (status (probe_systemctl v) = PFail ↔ raw ≠ Some "active").
Proof.
  cbn zeta. unfold probe_systemctl. destruct (jget "systemctl" v ≫= json_str) as [s|]; cbn [default from_option id].
  2:{ by split; split. }
  destruct (String.eqb_spec s "active") as [->|H1]; cbn [status]; split; split; try done; congruence.
Qed.

Lemma probe_log_spec v :
  (status (probe_log_tail v) = POkay ↔ ∃ l ls, jget "last_log_tail" v ≫= json_arr = Some (l :: ls))
  ∧ status (probe_log_tail v) ≠ PFail.
Proof. unfold probe_log_tail. destruct (jget "last_log_tail" v ≫= json_arr) as [[|l ls]|]; cbn; naive_solver. Qed.

Lemma probe_pam_specs b t :
  (status (probe_pam_present b) = POkay ↔ b = true) ∧ (status (probe_pam_present b) = PFail ↔ b = false)
  ∧ (status (probe_pam_wired t) = POkay ↔ ∃ s, t = Some s ∧ contains_pam_syauth_line s = true)
  ∧ status (probe_pam_wired t) ≠ PFail.
Proof.
  split; [by destruct b|]. split; [by destruct b|]. unfold probe_pam_wired.
  destruct t as [s|]; [destruct (contains_pam_syauth_line s) eqn:E|]; split; try done; split; try done.
  - eauto.
  - intros (s' & [= <-] & H). congruence.
  - by intros (s' & H & _).
Qed.

(** The doctor reports its eight probes in their fixed order and exits with 0
    exactly when the daemon is up, a bond can be read, every key file is in
    order, the adapter and the unit are up, an unlock was tried, and the PAM
    module is installed and named in the sudo stack; it exits with 1 exactly when
    one of the five probes that can fail does, and with 2 otherwise. *)
Theorem doctor_verdict (v : json) (present : bool) (pam : option text) :
  let ls := doctor_lines v present pam in
  let str k := jget k v ≫= json_str in
  let up := (jget "daemon" v ≫= jget "state") ≫= json_str = Some "up" in
  let files := (jget "keys" v ≫= jget "files") ≫= json_arr in
  let key_ok f := bool_at "ok" f = Some true in
  let bonds := jget "bonds_file" v in
  map key ls = DOCTOR_PROBE_ORDER
  ∧ (doctor_exit_code ls = 0%Z ↔
       up ∧ ((bonds ≫= bool_at "exists") = Some true ∧ (bonds ≫= bool_at "parseable") = Some true
             ∧ ∃ n, (bonds ≫= u64_at "count") = Some n ∧ (0 < n)%Z)
       ∧ (∃ f fs, files = Some (f :: fs) ∧ Forall key_ok (f :: fs))
       ∧ str "bluez_adapter" = Some "ok" ∧ str "systemctl" = Some "active"
       ∧ (∃ l ls, jget "last_log_tail" v ≫= json_arr = Some (l :: ls))
       ∧ present = true ∧ ∃ t, pam = Some t ∧ contains_pam_syauth_line t = true)
  ∧ (doctor_exit_code ls = 1%Z ↔
       ¬ up ∨ (∃ f fs, files = Some (f :: fs) ∧ ¬ Forall key_ok (f :: fs))
       ∨ ¬ (str "bluez_adapter" = Some "ok" ∨ str "bluez_adapter" = Some "unknown")
       ∨ str "systemctl" ≠ Some "active" ∨ present = false)
  ∧ doctor_exit_code ls ∈ [0; 1; 2]%Z.
Proof.
  cbn zeta. destruct (exit_code_spec (doctor_lines v present pam)) as (H0 & H1 & H2).
  destruct (probe_daemon_spec v) as [D1 D2], (probe_bonds_spec v) as [B1 B2], (probe_keys_spec v) as [K1 K2],
    (probe_bluez_spec v) as [Z1 Z2], (probe_systemctl_spec v) as [S1 S2], (probe_log_spec v) as [L1 L2],
    (probe_pam_specs present pam) as (P1 & P2 & W1 & W2).
  split_and!; [|rewrite H0|rewrite H1|done].
  - unfold doctor_lines. cbn [map]. repeat apply (f_equal2 cons); try done;
      unfold probe_daemon, probe_bonds, probe_keys, probe_bluez, probe_systemctl, probe_log_tail, probe_pam_present, probe_pam_wired;
      repeat (case_match; try done).
  - unfold doctor_lines. rewrite !Forall_cons, D1, B1, K1, Z1, S1, L1, P1, W1. rewrite Forall_nil. clear. tauto.
  - unfold doctor_lines. rewrite !Exists_cons, D2, K2, Z2, S2, P2, Exists_nil. clear -B2 L2 W2. tauto.
Qed.

(** A comment at the end of a line, on any stack, counts as wired. *)
Example comment_counts_as_wired :
  contains_pam_syauth_line (lit "session optional pam_x.so # not pam_syauth.so") = true.
Proof. by vm_compute. Qed.

(** A sign is read as part of a time stamp. *)
Example signed_time_stamp : row_of (lit "p,n,1,+2,ok,r") = Some (mkOutcome (lit "p") (lit "n") 1 2 OOk).
Proof. by vm_compute. Qed.

End Auth.
