(* ===== verification/Stack.v ===== *)
(** * The desktop stack

    [crates/sy-desktop-shell/src/stack/]: the pools of files and snippets behind
    the bar. [state.rs] with its caps, payloads and links, the commands of
    [cli.rs] and the tools of [mcp.rs] over it, the quoting of [onto.rs], the
    clipboard helpers of [clip.rs], and the operations the bar is sent
    ([ipc.rs]). The disk is a value: the text of items.json, the payloads, links
    and thumbnails by name, and the store of the user's files. *)

From S2P Require Import Prelude Lists Text Paths Lines Utf8 Store Vocab Wire.
Import Lists Text Paths Lines Utf8 Store Wire.
Local Open Scope string_scope.
Local Open Scope nat_scope.
Local Open Scope list_scope.

Module Stack.

Inductive Kind : Type := App | User.
#[export] Instance Kind_eq_dec : EqDecision Kind.
Proof. solve_decision. Defined.
Definition kind_str (k : Kind) : string := match k with App => "app" | User => "user" end.
Definition parse_kind (s : string) : result Kind text :=
  if String.eqb s "app" then Ok App else if String.eqb s "user" then Ok User
  else Err (lit "unknown stack kind: " ++ lit s ++ lit " (expected app|user)").

Record Item := mkItem {
  id : text; kind : Kind; ipath : option path; name : text; created_at : Z; content_kind : string; size : Z
}.
#[export] Instance Item_eq_dec : EqDecision Item.
Proof. solve_decision. Defined.

(** The disk: items.json when it is there, and the directories beside it by the
    names in them. *)
Record Disk := mkDisk {
  items_json : option text; blobs : gmap text (list Z); links : gmap text (list Z); thumbs : gset text; files : store
}.
Definition set_items (s : text) (d : Disk) : Disk := mkDisk (Some s) (blobs d) (links d) (thumbs d) (files d).
Definition set_blobs (b : gmap text (list Z)) (d : Disk) : Disk := mkDisk (items_json d) b (links d) (thumbs d) (files d).
Definition set_links (l : gmap text (list Z)) (d : Disk) : Disk := mkDisk (items_json d) (blobs d) l (thumbs d) (files d).
Definition set_thumbs (t : gset text) (d : Disk) : Disk := mkDisk (items_json d) (blobs d) (links d) t (files d).
Definition set_files (f : store) (d : Disk) : Disk := mkDisk (items_json d) (blobs d) (links d) (thumbs d) f.

(** *** Content kinds *)

Definition ext_lower (p : path) : text := map to_ascii_lowercase (default [] (extension p)).
Definition sniff_kind (p : path) : string :=
  let e := ext_lower p in
  if existsb (λ x, bool_decide (lit x = e)) ["png"; "jpg"; "jpeg"; "webp"; "gif"; "bmp"; "tiff"; "svg"] then "image"
  else if existsb (λ x, bool_decide (lit x = e))
            ["txt"; "md"; "rs"; "toml"; "json"; "yaml"; "yml"; "kdl"; "css"; "js"; "ts"; "html"; "py"; "sh"; "go"; "c";
             "h"; "cpp"; "hpp"] then "text"
  else "file".
Definition is_image_item (it : Item) : bool :=
  String.eqb (content_kind it) "image"
  || match ipath it with
     | Some p => existsb (λ x, bool_decide (lit x = ext_lower p)) ["png"; "jpg"; "jpeg"; "gif"; "webp"; "bmp"]
     | None => false
     end.

(** *** Items *)

(** [state::find], and the position [remove] and the others look for. *)
Definition not_found (i : text) : text := lit "stack item not found: " ++ i.
Definition find_idx (items : list Item) (i : text) : result nat text :=
  match position (λ it, bool_decide (id it = i)) items with Some n => Ok n | None => Err (not_found i) end.
Definition find (items : list Item) (i : text) : result Item text :=
  match List.find (λ it, bool_decide (id it = i)) items with Some it => Ok it | None => Err (not_found i) end.

(** [delete_thumbs_in] and [delete_blobs]. *)
Definition delete_thumbs_in (i : text) (t : gset text) : gset text :=
  filter (λ n, ¬ (starts_with n (i ++ [DOT]) = true ∧ ends_with n (lit ".png") = true)) t.
Definition delete_blobs (i : text) (d : Disk) : Disk :=
  mkDisk (items_json d) (delete i (blobs d))
    (filter (λ nb, ¬ (nb.1 = i ∨ starts_with nb.1 (i ++ [DOT]) = true)) (links d))
    (delete_thumbs_in i (thumbs d)) (files d).

(** *** Caps *)

(** The items of a pool with their times and indices, newest first. *)
Definition newer_first (a b : Z * nat) : bool := (b.1 <=? a.1)%Z.
Definition pool_indices (k : Kind) (items : list Item) : list (Z * nat) :=
  omap (λ ix : nat * Item, if decide (kind ix.2 = k) then Some (created_at ix.2, ix.1) else None) (imap pair items).
Definition evicted (k : Kind) (max : nat) (items : list Item) : list nat :=
  map snd (drop max (sort_by newer_first (pool_indices k items))).

(** The removal loop, highest index first. *)
Definition remove_one (s : list Item * list text * Disk) (idx : nat) : list Item * list text * Disk :=
  let '(items, ids, d) := s in
  match items !! idx with
  | Some it => (delete idx items, ids ++ [id it], delete_blobs (id it) d)
  | None => s
  end.
Definition enforce_cap (k : Kind) (max : nat) (items : list Item) (d : Disk) : list Item * list text * Disk :=
  if length (pool_indices k items) <=? max then (items, [], d)
  else foldl remove_one (items, [], d) (sort_by (λ a b, b <=? a) (evicted k max items)).
Definition check_caps (max_app max_user : nat) (items : list Item) (d : Disk) : list Item * list text * Disk :=
  let '(items, e1, d) := enforce_cap App max_app items d in
  let '(items, e2, d) := enforce_cap User max_user items d in
  (items, e1 ++ e2, d).

Definition MAX_APP_DEFAULT : nat := 8.
Definition MAX_USER_DEFAULT : nat := 8.

(** *** Reading and writing *)

Section stack.
(** [serde_json] on the items, [fs::canonicalize], and [char::is_alphanumeric]. *)
Context (from_str : text → result (list Item) text) (to_pretty : list Item → text).
Context (canonicalize : store → path → option path) (is_alphanumeric : Z → bool).

Definition load (d : Disk) : result (list Item) text :=
  match items_json d with
  | None => Ok []
  | Some s => match trim s with [] => Ok [] | _ => from_str s end
  end.
(** [state::save]; [saved] is whether the write and the rename succeed. *)
Definition save (saved : bool) (items : list Item) (d : Disk) : result unit text * Disk :=
  if saved then (Ok tt, set_items (to_pretty items) d) else (Err (lit "rename"), d).

(** [push_content] and [push_file], for the id and the time they draw. *)
Definition push_content (k : Kind) (n : text) (bytes : list Z) (ck : string) (new_id : text) (now : Z) (d : Disk)
    : Item * Disk :=
  (mkItem new_id k None n now ck (Z.of_nat (length bytes)), set_blobs (<[new_id := bytes]> (blobs d)) d).
Definition push_file (k : Kind) (n : text) (p : path) (new_id : text) (now : Z) (d : Disk) : result Item text :=
  match canonicalize (files d) p with
  | None => Err (lit "canonicalize " ++ p)
  | Some abs =>
      match file_len (files d) abs with
      | Err _ => Err (lit "stat " ++ abs)
      | Ok len => Ok (mkItem new_id k (Some abs) n now (sniff_kind abs) len)
      end
  end.

Definition read_payload (i : text) (d : Disk) : result (list Z) text :=
  match blobs d !! i with Some b => Ok b | None => Err (lit "open payload") end.

(** [link_path]: the file itself, or the payload under a stable name. *)
Definition link_name (it : Item) : text := id it ++ if String.eqb (content_kind it) "text" then lit ".txt" else [].
Inductive Link : Type := LFile (p : path) | LLink (n : text).
Definition link_path (it : Item) (d : Disk) : result Link text * Disk :=
  match ipath it with
  | Some p => (Ok (LFile p), d)
  | None =>
      let n := link_name it in
      match links d !! n with
      | Some _ => (Ok (LLink n), d)
      | None =>
          match read_payload (id it) d with
          | Err e => (Err e, d)
          | Ok b => (Ok (LLink n), set_links (<[n := b]> (links d)) d)
          end
      end
  end.

(** [text_preview]: the first lines, and a mark when there are more. *)
Definition text_preview (bytes : list Z) (max_lines : nat) : text :=
  let ls := lines (from_utf8_lossy bytes) in
  let fix join (ls : list text) : text :=
    match ls with [] => [] | [l] => l | l :: ls => l ++ 10%Z :: join ls end in
  join (take max_lines ls) ++ if max_lines <? length ls then [10; 8230]%Z else [].

(** *** The commands *)

(** What is pushed: standard input, or a path. *)
Inductive Source : Type := Stdin (bytes : list Z) | PathArg (p : path).
Definition display_name (src : Source) (n : option text) : text :=
  match n, src with
  | Some n, _ => n
  | None, Stdin bytes => take 40 (default (lit "(content)") (head (lines (from_utf8_lossy bytes))))
  | None, PathArg p => default (lit "(file)") (file_name p)
  end.
Definition new_item (k : Kind) (src : Source) (n : option text) (new_id : text) (now : Z) (d : Disk)
    : result (Item * Disk) text :=
  match src with
  | Stdin bytes =>
      let ck := match from_utf8 bytes with Some _ => "text" | None => "binary" end in
      Ok (push_content k (display_name src n) bytes ck new_id now d)
  | PathArg p =>
      if negb (exists_ (files d) p) then Err (lit "path not found: " ++ p)
      else match push_file k (display_name src n) p new_id now d with Ok it => Ok (it, d) | Err e => Err e end
  end.

(** The part [cli::push] and [tool_push] share: the item added, the caps
    enforced, the list saved; the id, and the ids evicted. *)
Definition add_item (saved : bool) (it : Item) (d : Disk) : result (text * list text) text * Disk :=
  match load d with
  | Err e => (Err e, d)
  | Ok items =>
      let '(items, ids, d) := check_caps MAX_APP_DEFAULT MAX_USER_DEFAULT (items ++ [it]) d in
      match save saved items d with (Ok _, d) => (Ok (id it, ids), d) | (Err e, d) => (Err e, d) end
  end.
Definition push (saved : bool) (src : Source) (kind_arg : string) (n : option text) (dry_run : bool) (new_id : text)
    (now : Z) (d : Disk) : result (option (text * list text)) text * Disk :=
  match parse_kind kind_arg with
  | Err e => (Err e, d)
  | Ok k =>
      if dry_run then
        match src with
        | PathArg p => if negb (exists_ (files d) p) then (Err (lit "path not found: " ++ p), d) else (Ok None, d)
        | Stdin _ => (Ok None, d)
        end
      else
        match new_item k src n new_id now d with
        | Err e => (Err e, d)
        | Ok (it, d) =>
            match add_item saved it d with (Ok r, d) => (Ok (Some r), d) | (Err e, d) => (Err e, d) end
        end
  end.

(** [pop]: the given id, or the newest of the pool, the later of two of one
    second. *)
Definition newest_step (k : Kind) (best : option (Z * nat)) (ix : nat * Item) : option (Z * nat) :=
  if decide (kind ix.2 = k) then
    match best with
    | None => Some (created_at ix.2, ix.1)
    | Some (t, _) => if (t <=? created_at ix.2)%Z then Some (created_at ix.2, ix.1) else best
    end
  else best.
Definition newest (k : Kind) (items : list Item) : option nat := snd <$> foldl (newest_step k) None (imap pair items).
Definition take_item (saved : bool) (items : list Item) (idx : nat) (d : Disk) : result text text * Disk :=
  match items !! idx with
  | None => (Err (lit "index"), d)
  | Some it =>
      match save saved (delete idx items) (delete_blobs (id it) d) with
      | (Ok _, d) => (Ok (id it), d)
      | (Err e, d) => (Err e, d)
      end
  end.
Definition pop (saved : bool) (kind_arg : string) (i : option text) (d : Disk) : result text text * Disk :=
  match parse_kind kind_arg with
  | Err e => (Err e, d)
  | Ok k =>
      match load d with
      | Err e => (Err e, d)
      | Ok items =>
          match i with
          | Some i => match find_idx items i with Err e => (Err e, d) | Ok idx => take_item saved items idx d end
          | None =>
              match newest k items with
              | Some idx => take_item saved items idx d
              | None => (Err (lit "stack pool '" ++ lit (kind_str k) ++ lit "' is empty"), d)
              end
          end
      end
  end.
Definition remove (saved : bool) (i : text) (d : Disk) : result text text * Disk :=
  match load d with
  | Err e => (Err e, d)
  | Ok items => match find_idx items i with Err e => (Err e, d) | Ok idx => take_item saved items idx d end
  end.

Definition listed (items : list Item) : list Item := sort_by (λ a b, (created_at b <=? created_at a)%Z) items.

Definition preview (i : text) (d : Disk) : result (list Z) text :=
  rbind (load d) (λ items, rbind (find items i) (λ it,
    match ipath it with
    | Some p => match Store.read (files d) p with Ok b => Ok b | Err _ => Err (lit "read " ++ p) end
    | None => read_payload (id it) d
    end)).

Definition link (i : text) (d : Disk) : result Link text * Disk :=
  match rbind (load d) (λ items, find items i) with Err e => (Err e, d) | Ok it => link_path it d end.

(** [sanitize_name], and [move_to]: the target of the move. *)
Definition sanitize_name (s : text) : text :=
  match map (λ c, if is_alphanumeric c || existsb (Z.eqb c) [46; 45; 95; 32]%Z then c else 95%Z) s with
  | [] => lit "item"
  | out => out
  end.
Definition move_payload (it : Item) (target : path) (d : Disk) : result Disk text :=
  match ipath it with
  | Some src =>
      match rename (files d) src target with
      | Ok st => Ok (set_files st d)
      | Err _ =>
          match Store.read (files d) src with
          | Err _ => Err (lit "copy " ++ src)
          | Ok b => match Store.write (files d) target b with
                    | Err _ => Err (lit "copy " ++ src)
                    | Ok st => Ok (set_files (remove_file_ st src) d)
                    end
          end
      end
  | None =>
      rbind (read_payload (id it) d) (λ b,
        match Store.write (files d) target b with
        | Ok st => Ok (set_files st d)
        | Err _ => Err (lit "write " ++ target)
        end)
  end.
Definition move_to (saved : bool) (i : text) (dest : path) (d : Disk) : result path text * Disk :=
  match load d with
  | Err e => (Err e, d)
  | Ok items =>
      match find_idx items i with
      | Err e => (Err e, d)
      | Ok idx =>
          match items !! idx with
          | None => (Err (lit "index"), d)
          | Some it =>
              match create_dir_all (files d) dest with
              | Err _ => (Err (lit "mkdir " ++ dest), d)
              | Ok st =>
                  let d := set_files st d in
                  let target := join dest (sanitize_name (name it)) in
                  match move_payload it target d with
                  | Err e => (Err e, d)
                  | Ok d =>
                      match save saved (delete idx items) (delete_blobs (id it) d) with
                      | (Ok _, d) => (Ok target, d)
                      | (Err e, d) => (Err e, d)
                      end
                  end
              end
          end
      end
  end.
End stack.

(** *** Quoting a path for a shell *)

Definition shell_quote (s : text) : text :=
  [39]%Z ++ flat_map (λ c, if (c =? 39)%Z then [39; 92; 39; 39]%Z else [c]) s ++ [39]%Z.

(** *** The clipboard *)

Definition valid_clip_id (i : text) : bool :=
  negb (bool_decide (i = [])) && forallb (λ c, (48 <=? c) && (c <=? 57))%Z i.
Definition starts_bytes (b pre : list Z) : bool := starts_with b pre.
Definition sniff_ext (b : list Z) : string :=
  if starts_bytes b [137; 80; 78; 71; 13; 10; 26; 10]%Z then ".png"
  else if starts_bytes b [255; 216; 255]%Z then ".jpg"
  else if starts_bytes b (lit "GIF87a") || starts_bytes b (lit "GIF89a") then ".gif"
  else if (12 <? length b) && bool_decide (take 4 (drop 8 b) = lit "WEBP") then ".webp"
  else match from_utf8 b with Some _ => ".txt" | None => ".bin" end.
(** [export_bytes_at]: the file of an entry, made once. *)
Definition export_bytes_at (st : store) (dir : path) (i : text) (b : list Z) : result path text * store :=
  if negb (valid_clip_id i) then (Err (lit "invalid clipboard entry id"), st)
  else
    match create_dir_all st dir with
    | Err _ => (Err (lit "clipboard cache is not a directory"), st)
    | Ok st =>
        let p := join dir (i ++ lit (sniff_ext b)) in
        match Store.find st p with
        | Some NDir => (Err (lit "clipboard export is not a regular file"), st)
        | Some (NFile old) =>
            if decide (old = b) then (Ok p, st) else (Err (lit "clipboard export changed"), st)
        | None => match Store.write st p b with Ok st => (Ok p, st) | Err _ => (Err (lit "write"), st) end
        end
    end.

Definition CLIPHIST_IMAGE_EXTS : list string := ["png"; "jpeg"; "jpg"; "webp"; "gif"; "bmp"].
Definition parse_image_ext (preview : text) : option string :=
  let p := trim_start preview in
  if negb (starts_with p (lit "[[ binary data")) then None
  else List.find (λ e, contains (map to_ascii_lowercase p) (lit e)) CLIPHIST_IMAGE_EXTS.

(** *** Operations for the bar *)

Definition METHOD_REFRESH : string := "stack.refresh".
Definition METHOD_TOGGLE : string := "stack.toggle".
Definition METHOD_RELOAD_THEME : string := "stack.reload_theme".
Inductive Op : Type := Refresh | Toggle | ReloadTheme.
Definition as_method (o : Op) : string :=
  match o with Refresh => METHOD_REFRESH | Toggle => METHOD_TOGGLE | ReloadTheme => METHOD_RELOAD_THEME end.
Definition from_method (m : string) : option Op :=
  if String.eqb m METHOD_REFRESH then Some Refresh
  else if String.eqb m METHOD_TOGGLE then Some Toggle
  else if String.eqb m METHOD_RELOAD_THEME then Some ReloadTheme
  else None.

(** [StackBridge]: the operations sent so far to the event loop, whether it is
    there, whether its lock is poisoned, and the health it reports. *)
Record StackBridge := mkBridge { sent : list Op; receiver : bool; poisoned : bool; healthy : bool }.
Definition bridge_err (code : ErrorCode.ErrorCode) (rid : N) (msg : string) : Response :=
  RErr SCHEMA_VERSION rid (mkErrorBody code msg None JNull).
(** [handle]; [system] is what the system methods answer, if they do. *)
Definition handle (system : Request → option Response) (b : StackBridge) (req : Request) : Response * StackBridge :=
  match system req with
  | Some r => (r, b)
  | None =>
      match from_method (method req) with
      | None => (bridge_err ErrorCode.BadRequest (request_id req) ("unknown method: " ++ method req), b)
      | Some op =>
          if poisoned b then
            (bridge_err ErrorCode.Internal (request_id req) "stack bridge sender lock poisoned",
             mkBridge (sent b) (receiver b) (poisoned b) false)
          else if receiver b then
            (ROk SCHEMA_VERSION (request_id req) (JObj []) None,
             mkBridge (sent b ++ [op]) (receiver b) (poisoned b) (healthy b))
          else
            (bridge_err ErrorCode.Internal (request_id req) "stack bar event loop is gone",
             mkBridge (sent b) (receiver b) (poisoned b) false)
      end
  end.

(** ** The pools *)


Definition newer (a b : Item) : bool := (created_at b <=? created_at a)%Z.
Lemma newer_total a b : newer a b = true ∨ newer b a = true.
Proof. unfold newer. rewrite !Z.leb_le. lia. Qed.
Lemma newer_trans a b c : newer a b = true → newer b c = true → newer a c = true.
Proof. unfold newer. rewrite !Z.leb_le. lia. Qed.

(** A pool, and its items newest first. *)
Definition pool (k : Kind) (items : list Item) : list Item := filter (λ it, kind it = k) items.
Definition ranked (k : Kind) (items : list Item) : list Item := sort_by newer (pool k items).

(** *** Indices and items *)
Definition in_pool (k : Kind) (items : list Item) : list (nat * Item) := filter (λ ix, kind ix.2 = k) (imap pair items).
Definition indexed_newer (a b : nat * Item) : bool := newer a.2 b.2.

Lemma pool_indices_eq k items : pool_indices k items = map (λ ix, (created_at ix.2, ix.1)) (in_pool k items).
Proof.
  unfold pool_indices, in_pool. induction (imap pair items) as [|[i x] l IH]; [done|].
  rewrite filter_cons. cbn [omap list_omap fst snd]. destruct (decide (kind x = k)); cbn [map].
  - f_equal. apply IH.
  - apply IH.
Qed.

Lemma map_filter_kind k (l : list (nat * Item)) :
  map snd (filter (λ ix : nat * Item, kind ix.2 = k) l) = filter (λ it, kind it = k) (map snd l).
Proof.
  induction l as [|[i x] l IH]; [done|]. cbn [map]. rewrite !filter_cons. cbn [fst snd].
  destruct (decide (kind x = k)); cbn [map]; by rewrite IH.
Qed.
Lemma map_snd_imap (items : list Item) : map snd (imap pair items) = items.
Proof.
  apply list_eq. intros i. rewrite list_lookup_fmap, list_lookup_imap. by destruct (items !! i).
Qed.
Lemma in_pool_items k items : map snd (in_pool k items) = pool k items.
Proof. unfold in_pool, pool. by rewrite map_filter_kind, map_snd_imap. Qed.

Lemma in_pool_lookup k items i x : (i, x) ∈ in_pool k items → items !! i = Some x ∧ kind x = k.
Proof.
  intros [Hk Hin]%list_elem_of_filter. cbn in Hk. split; [|done].
  apply elem_of_lookup_imap in Hin as (j & y & [= -> ->] & H). done.
Qed.

Lemma length_pool_indices k items : length (pool_indices k items) = length (pool k items).
Proof. by rewrite pool_indices_eq, length_map, <- in_pool_items, length_map. Qed.

(** The evicted indices are those of the items that rank below the cap. *)
Lemma evicted_eq k max items : evicted k max items = map fst (drop max (sort_by indexed_newer (in_pool k items))).
Proof.
  unfold evicted. rewrite pool_indices_eq.
  rewrite <- (sort_by_map (λ ix : nat * Item, (created_at ix.2, ix.1)) indexed_newer newer_first) by done.
  rewrite <- (fmap_drop (λ ix : nat * Item, (created_at ix.2, ix.1))), map_map. done.
Qed.
Lemma evicted_items k max items :
  map snd (drop max (sort_by indexed_newer (in_pool k items))) = drop max (ranked k items).
Proof.
  unfold ranked. rewrite <- in_pool_items, <- (sort_by_map snd indexed_newer newer) by done. by rewrite fmap_drop.
Qed.

Lemma in_pool_NoDup k items : NoDup (map fst (in_pool k items)).
Proof.
  unfold in_pool. assert (NoDup (map fst (imap pair items))) as H.
  { assert (map fst (imap pair items) = seq 0 (length items)) as ->; [|apply NoDup_seq].
    apply list_eq. intros i. rewrite list_lookup_fmap, list_lookup_imap. destruct (items !! i) as [x|] eqn:E; cbn.
    - symmetry. apply lookup_seq. split; [lia|]. by eapply lookup_lt_Some.
    - symmetry. apply lookup_seq_ge. by apply lookup_ge_None. }
  induction (imap pair items) as [|[i x] l IH]; [constructor|]. cbn [map fst] in H. apply NoDup_cons in H as [Hi H].
  rewrite filter_cons. case_decide; [|by apply IH]. cbn [map fst]. constructor; [|by apply IH].
  intros ([j y] & -> & [_ Hj]%list_elem_of_filter)%list_elem_of_fmap. apply Hi. apply list_elem_of_fmap.
  by exists (j, y).
Qed.

(** *** The removal loop *)
Definition blobs_deleted (ids : list text) (d : Disk) : Disk := foldl (λ d i, delete_blobs i d) d ids.

Lemma remove_loop idxs items ids d :
  StronglySorted (λ a b, b < a) idxs → Forall (λ i, i < length items) idxs →
  ∃ items' out, foldl remove_one (items, ids, d) idxs = (items', ids ++ map id out, blobs_deleted (map id out) d)
    ∧ items' `sublist_of` items ∧ items ≡ₚ out ++ items' ∧ Forall2 (λ i x, items !! i = Some x) idxs out
    ∧ (∀ (P : Item → Prop) (HP : ∀ x, Decision (P x)), Forall (λ x, ¬ P x) out → filter P items' = filter P items).
Proof.
  intros Hs. revert items ids d. induction Hs as [|i idxs Hs IH Hi]; intros items ids d Hl.
  { exists items, []. rewrite app_nil_r. split_and!; [done|done|done|constructor|done]. }
  apply Forall_cons in Hl as [Hn Hl]. destruct (lookup_lt_is_Some_2 items i Hn) as [x Hx].
  cbn [foldl]. unfold remove_one at 2. rewrite Hx.
  assert (Forall (λ j, j < length (delete i items)) idxs) as Hl'.
  { apply Forall_forall. intros j Hj. eapply Forall_forall in Hi, Hl; [|done..].
    pose proof (length_delete items i ltac:(eauto)). lia. }
  destruct (IH (delete i items) (ids ++ [id x]) (delete_blobs (id x) d) Hl') as (items' & out & E & Hsub & Hp & Hf & Hk).
  exists items', (x :: out). rewrite E. split_and!.
  - cbn [map]. by rewrite <- app_assoc.
  - etransitivity; [done|]. apply sublist_delete.
  - rewrite (delete_Permutation items i x Hx). cbn [app]. by constructor.
  - constructor; [done|]. clear -Hf Hi. induction Hf as [|j y js ys Hjy _ IH]; [constructor|].
    apply Forall_cons in Hi as [Hj Hi]. constructor; [|by apply IH]. by rewrite list_lookup_delete_lt in Hjy.
  - intros P HP [Hnx Ho]%Forall_cons. rewrite Hk by done. clear -Hx Hnx.
    revert i Hx. induction items as [|y l IH]; intros i Hx; [done|]. destruct i as [|i]; cbn in Hx.
    + injection Hx as ->. cbn [delete list_delete]. by rewrite filter_cons, decide_False.
    + change (delete (S i) (y :: l)) with (y :: delete i l). rewrite !filter_cons. by rewrite (IH i).
Qed.

Lemma strictly_descending (l : list nat) : StronglySorted (λ a b, (b <=? a) = true) l → NoDup l → StronglySorted (λ a b, b < a) l.
Proof.
  intros Hs. induction Hs as [|a l Hs IH Ha]; intros Hn; [constructor|]. apply NoDup_cons in Hn as [Hal Hn].
  constructor; [by apply IH|]. apply Forall_forall. intros b Hb. eapply Forall_forall in Ha; [|done].
  apply Nat.leb_le in Ha. destruct (decide (a = b)) as [->|]; [done|lia].
Qed.

Lemma looked_up (items : list Item) idxs out :
  Forall2 (λ i x, items !! i = Some x) idxs out → out = omap (λ i, items !! i) idxs.
Proof. induction 1 as [|i x idxs out E _ IH]; [done|]. cbn [omap list_omap]. by rewrite E, <- IH. Qed.

Lemma omap_perm {A B} (f : A → option B) l l' : l ≡ₚ l' → omap f l ≡ₚ omap f l'.
Proof.
  induction 1 as [|x l l' _ IH|x y l|? ? ? _ IH1 _ IH2]; cbn [omap list_omap]; [done| | |by etransitivity].
  - destruct (f x); [by constructor|done].
  - destruct (f x), (f y); try done. constructor.
Qed.

Lemma filter_pool_all (k : Kind) l : Forall (λ x, kind x = k) l → filter (λ it, kind it = k) l = l.
Proof. induction 1 as [|x l Hx _ IH]; [done|]. by rewrite filter_cons, decide_True, IH. Qed.

Definition ranked_indices (k : Kind) (items : list Item) : list (nat * Item) := sort_by indexed_newer (in_pool k items).
Lemma ranked_lookup k items max i x :
  (i, x) ∈ drop max (ranked_indices k items) → items !! i = Some x ∧ kind x = k.
Proof.
  intros H. apply in_pool_lookup. rewrite <- (sort_by_Permutation indexed_newer).
  rewrite <- (take_drop max (sort_by _ _)). apply elem_of_app. by right.
Qed.
Lemma evicted_NoDup k max items : NoDup (evicted k max items).
Proof.
  rewrite evicted_eq, <- skipn_map. eapply sublist_NoDup; [|apply sublist_drop].
  rewrite (sort_by_Permutation indexed_newer). apply in_pool_NoDup.
Qed.

(** What the caps do to a pool: it keeps its newest [max], the others leave it
    with their payloads, and the other pool stays as it was. *)
Lemma enforce_cap_eq k max items d :
  ∃ items' out, enforce_cap k max items d = (items', map id out, blobs_deleted (map id out) d)
    ∧ out ≡ₚ drop max (ranked k items) ∧ pool k items' ≡ₚ take max (ranked k items)
    ∧ items' `sublist_of` items ∧ items ≡ₚ out ++ items' ∧ (∀ k', k' ≠ k → pool k' items' = pool k' items).
Proof.
  unfold enforce_cap. rewrite length_pool_indices.
  pose proof (sort_by_Permutation newer (pool k items)) as Hr. fold (ranked k items) in Hr.
  destruct (_ <=? max) eqn:E.
  { apply Nat.leb_le in E. rewrite <- (Permutation_length Hr) in E. exists items, []. rewrite drop_ge, take_ge by done.
    by split_and!. }
  set (idxs := sort_by _ _). assert (idxs ≡ₚ evicted k max items) as Hi by apply sort_by_Permutation.
  destruct (remove_loop idxs items [] d) as (items' & out & -> & Hsub & Hp & Hf & Hk).
  - apply strictly_descending; [|rewrite Hi; apply evicted_NoDup].
    apply sort_by_sorted; intros *; rewrite !Nat.leb_le; lia.
  - rewrite Hi, evicted_eq. apply Forall_forall. intros i ([j x] & -> & H)%list_elem_of_fmap.
    apply ranked_lookup in H as [H _]. by eapply lookup_lt_Some.
  - assert (out ≡ₚ drop max (ranked k items)) as Ho.
    { rewrite (looked_up _ _ _ Hf), (omap_perm _ _ _ Hi), evicted_eq, <- evicted_items. fold (ranked_indices k items).
      assert (Forall (λ ix, items !! ix.1 = Some ix.2) (drop max (ranked_indices k items))) as H.
      { apply Forall_forall. intros [i x] [H _]%ranked_lookup. done. }
      clear -H. induction H as [|[i x] l H _ IH]; [done|]. cbn [map omap list_omap fst snd] in *. rewrite H. by constructor. }
    assert (Forall (λ x, kind x = k) out) as Hok.
    { rewrite Ho. apply Forall_drop. rewrite Hr. apply Forall_forall. by intros x [? _]%list_elem_of_filter. }
    exists items', out. split_and!; [done|done| |done|done|].
    + apply (Permutation_app_inv_l out). rewrite Ho at 2. rewrite (Permutation_app_comm (drop _ _)), take_drop, Hr.
      unfold pool. rewrite Hp, filter_app. by rewrite (filter_pool_all k out).
    + intros k' Hne. apply Hk. eapply Forall_impl; [done|]. intros x <-. congruence.
Qed.

Lemma blobs_deleted_lookup ids d j : blobs (blobs_deleted ids d) !! j = if decide (j ∈ ids) then None else blobs d !! j.
Proof.
  unfold blobs_deleted. revert d. induction ids as [|i ids IH]; intros d; [by rewrite decide_False by apply not_elem_of_nil|].
  cbn [foldl]. rewrite IH. cbn [delete_blobs blobs]. destruct (decide (j ∈ ids)) as [Hj|Hj].
  - rewrite decide_True; [done|]. by apply list_elem_of_further.
  - destruct (decide (j = i)) as [->|Hne].
    + rewrite lookup_delete_eq, decide_True; [done|]. apply list_elem_of_here.
    + rewrite lookup_delete_ne by done. rewrite decide_False; [done|]. by intros [|]%elem_of_cons.
Qed.
Lemma blobs_deleted_items ids d : items_json (blobs_deleted ids d) = items_json d.
Proof. unfold blobs_deleted. revert d. by induction ids as [|i ids IH]; intros d; [|cbn [foldl]; rewrite IH]. Qed.
Lemma blobs_deleted_app a b d : blobs_deleted (a ++ b) d = blobs_deleted b (blobs_deleted a d).
Proof. unfold blobs_deleted. by rewrite foldl_app. Qed.

Lemma pool_app k a b : pool k (a ++ b) = pool k a ++ pool k b.
Proof. apply filter_app. Qed.

(** Both caps together: what goes and what stays. *)
Definition kept (items : list Item) (k : Kind) : list Item := take MAX_USER_DEFAULT (ranked k items).
Definition dropped (items : list Item) (k : Kind) : list Item := drop MAX_USER_DEFAULT (ranked k items).
Lemma check_caps_eq items d :
  ∃ items' out, check_caps MAX_APP_DEFAULT MAX_USER_DEFAULT items d = (items', map id out, blobs_deleted (map id out) d)
    ∧ out ≡ₚ dropped items App ++ dropped items User ∧ (∀ k, pool k items' ≡ₚ kept items k)
    ∧ items' `sublist_of` items ∧ items ≡ₚ out ++ items'.
Proof.
  unfold check_caps.
  destruct (enforce_cap_eq App MAX_APP_DEFAULT items d) as (i1 & o1 & -> & Ho1 & Hp1 & Hs1 & Hl1 & Hk1).
  destruct (enforce_cap_eq User MAX_USER_DEFAULT i1 (blobs_deleted (map id o1) d)) as (i2 & o2 & -> & Ho2 & Hp2 & Hs2 & Hl2 & Hk2).
  assert (ranked User i1 = ranked User items) as Er by (unfold ranked; by rewrite Hk1).
  exists i2, (o1 ++ o2). split_and!.
  - by rewrite map_app, blobs_deleted_app.
  - by rewrite Ho1, Ho2, Er.
  - intros []; [by rewrite Hk2, Hp1|]. by rewrite Hp2, Er.
  - by etransitivity.
  - by rewrite <- app_assoc, <- Hl2.
Qed.

(** *** The newest item *)
Lemma newest_bound k (T : Z) (l : list (nat * Item)) b :
  (∀ ix, ix ∈ l → kind ix.2 = k → (created_at ix.2 <= T)%Z) → (∀ t n, b = Some (t, n) → (t <= T)%Z) →
  ∀ t n, foldl (newest_step k) b l = Some (t, n) → (t <= T)%Z.
Proof.
  revert b. induction l as [|ix l IH]; intros b Hl Hb t n H; [by eapply Hb|]. cbn [foldl] in H.
  eapply IH in H; [done| |].
  - intros jx Hj. apply Hl. by apply list_elem_of_further.
  - intros t' n'. unfold newest_step. destruct (decide _) as [Hk|]; [|apply Hb].
    pose proof (Hl ix (list_elem_of_here _ _) Hk). destruct b as [[t0 n0]|]; [|by intros [= <- _]].
    destruct (_ <=? _)%Z; [by intros [= <- _]|apply Hb].
Qed.
Lemma newest_snoc it items :
  (∀ x, x ∈ items → kind x = kind it → (created_at x <= created_at it)%Z) →
  newest (kind it) (items ++ [it]) = Some (length items).
Proof.
  intros H. unfold newest. rewrite imap_app, foldl_app. cbn [imap foldl]. unfold newest_step at 1. cbn [snd fst].
  rewrite decide_True by done. rewrite Nat.add_0_r. destruct (foldl _ _ _) as [[t n]|] eqn:E; [|done].
  apply (newest_bound _ (created_at it)) in E; [|intros [j x] Hx; apply H|done].
  - by rewrite (proj2 (Z.leb_le _ _) E).
  - apply elem_of_lookup_imap in Hx as (? & ? & [= -> ->] & Hx). by eapply list_elem_of_lookup_2.
Qed.

Lemma survivor_is_last it items items' out :
  id it ∉ map id items → items' `sublist_of` items ++ [it] → items ++ [it] ≡ₚ out ++ items' → id it ∉ map id out →
  ∃ l, items' = l ++ [it] ∧ l `sublist_of` items ∧ items ≡ₚ out ++ l.
Proof.
  intros Hf (l1 & l2 & -> & H1 & H2)%sublist_app_r Hp Ho. exists l1. assert (l2 = [it]) as ->; [|split_and!; [done|done|]].
  - destruct l2 as [|y l2].
    + exfalso. assert (it ∈ out ++ l1 ++ []) as H by (rewrite <- Hp; set_solver).
      rewrite app_nil_r in H. apply elem_of_app in H as [H|H].
      * apply Ho. by apply list_elem_of_fmap_2.
      * apply Hf. apply list_elem_of_fmap_2. by eapply elem_of_sublist || (eapply sublist_subseteq in H1; by apply H1).
    + pose proof (sublist_length _ _ H2) as Hl. cbn in Hl. destruct l2; [|cbn in Hl; lia].
      apply sublist_cons_r in H2 as [H2|(? & [= -> ->] & _)]; [|done]. by apply sublist_nil_r in H2.
  - rewrite app_assoc in Hp. by apply Permutation_app_inv_r in Hp.
Qed.

(** A list without the items that were dropped. *)
Lemma kept_by_id items items' out :
  NoDup (map id items) → items' `sublist_of` items → items ≡ₚ out ++ items' →
  items' = filter (λ x, id x ∉ map id out) items.
Proof.
  intros Hn Hs. revert out Hn. induction Hs as [|x l1 l2 Hs IH|x l1 l2 Hs IH]; intros out Hn Hp.
  - symmetry in Hp. by rewrite filter_nil.
  - cbn [map] in Hn. apply NoDup_cons in Hn as [Hx Hn]. rewrite filter_cons, decide_True; cycle 1.
    + intros (y & Hy & Hyo)%list_elem_of_fmap. rewrite <- Permutation_middle in Hp. apply Permutation_cons_inv in Hp.
      apply Hx. rewrite Hy. apply list_elem_of_fmap_2. rewrite Hp. apply elem_of_app. by left.
    + f_equal. apply IH; [done|]. rewrite <- Permutation_middle in Hp. by apply Permutation_cons_inv in Hp.
  - cbn [map] in Hn. apply NoDup_cons in Hn as [Hx Hn].
    assert (x ∈ out) as Hxo.
    { assert (x ∈ out ++ l1) as [|H]%elem_of_app by (rewrite <- Hp; apply list_elem_of_here); [done|].
      contradict Hx. apply list_elem_of_fmap_2. by eapply sublist_subseteq in H. }
    rewrite filter_cons, decide_False by (intros H; apply H; by apply list_elem_of_fmap_2).
    apply elem_of_Permutation in Hxo as [out' Ho]. rewrite Ho in Hp. apply Permutation_cons_inv in Hp.
    rewrite (IH out' Hn Hp). apply filter_ext_elem.
    intros y Hy. rewrite Ho. cbn [map]. rewrite not_elem_of_cons. split; [|tauto]. intros H. split; [|done].
    intros Hid. apply Hx. rewrite <- Hid. by apply list_elem_of_fmap_2.
Qed.

(** ** The commands over the pools *)

Section laws.
Context (from_str : text → result (list Item) text) (to_pretty : list Item → text).
Context (canonicalize : store → path → option path) (is_alphanumeric : Z → bool).
(** [serde_json] reads back what it wrote, and writes no blank text. *)
Context (serde_items : ∀ items, trim (to_pretty items) ≠ [] ∧ from_str (to_pretty items) = Ok items).

Lemma load_saved items d : load from_str (set_items (to_pretty items) d) = Ok items.
Proof.
  unfold load. cbn [set_items items_json]. destruct (serde_items items) as [H1 H2].
  by destruct (trim (to_pretty items)).
Qed.

Lemma add_item_eq it items d :
  load from_str d = Ok items →
  ∃ items' out,
    add_item from_str to_pretty true it d
      = (Ok (id it, map id out), set_items (to_pretty items') (blobs_deleted (map id out) d))
    ∧ out ≡ₚ dropped (items ++ [it]) App ++ dropped (items ++ [it]) User
    ∧ (∀ k, pool k items' ≡ₚ kept (items ++ [it]) k)
    ∧ items' `sublist_of` items ++ [it] ∧ items ++ [it] ≡ₚ out ++ items'.
Proof.
  intros Hl. unfold add_item. rewrite Hl.
  destruct (check_caps_eq (items ++ [it]) d) as (items' & out & -> & H). by exists items', out.
Qed.

(** C25. Adding an item leaves each pool its eight newest items and nothing
    else: it answers with the item's id and the ids of the others, deletes the
    payloads of exactly these, and stores a list in which neither pool exceeds
    its cap and the order of arrival is kept. *)
Theorem adding_keeps_the_newest it items d :
  load from_str d = Ok items →
  ∃ items' out d', add_item from_str to_pretty true it d = (Ok (id it, map id out), d')
    ∧ load from_str d' = Ok items' ∧ items' `sublist_of` items ++ [it]
    ∧ (∀ k, pool k items' ≡ₚ kept (items ++ [it]) k ∧ length (pool k items') ≤ 8)
    ∧ out ≡ₚ dropped (items ++ [it]) App ++ dropped (items ++ [it]) User
    ∧ ∀ i, blobs d' !! i = if decide (i ∈ map id out) then None else blobs d !! i.
Proof.
  intros Hl. destruct (add_item_eq it items d Hl) as (items' & out & -> & Ho & Hp & Hs & _).
  exists items', out, (set_items (to_pretty items') (blobs_deleted (map id out) d)).
  split_and!; [done|by apply load_saved|done| |done|intros i; apply blobs_deleted_lookup].
  intros k. split; [apply Hp|]. rewrite (Hp k). unfold kept. rewrite length_take. unfold MAX_USER_DEFAULT. lia.
Qed.

(** *** Whether the item pushed survives *)

(** The items of a pool that are as new as one that is pushed, or newer. *)
Definition rivals (it : Item) (items : list Item) : list Item :=
  filter (λ x, kind x = kind it ∧ (created_at it <= created_at x)%Z) items.

Lemma rivals_eq it items : filter (λ x, newer x it = true) (pool (kind it) items) = rivals it items.
Proof.
  unfold pool, rivals. rewrite list_filter_filter. apply list_filter_iff. intros x. unfold newer. rewrite Z.leb_le.
  tauto.
Qed.

Lemma ranked_snoc it items :
  ∃ a b, ranked (kind it) (items ++ [it]) = a ++ it :: b ∧ length a = length (rivals it items)
    ∧ ∀ x, x ∈ a ++ b → x ∈ items.
Proof.
  unfold ranked. rewrite pool_app. unfold pool at 2. rewrite filter_cons, decide_True, filter_nil by done.
  destruct (sort_by_snoc newer newer_trans (pool (kind it) items) it) as (a & b & -> & Ha & Hb).
  exists a, b. split_and!; [done|by rewrite Ha, rivals_eq|].
  intros x [Hx|Hx]%elem_of_app; [rewrite Ha in Hx|rewrite Hb in Hx];
    by apply list_elem_of_filter in Hx as [_ [_ Hx]%list_elem_of_filter].
Qed.

Lemma dropped_items k items x : x ∈ dropped items k → x ∈ items ∧ kind x = k.
Proof.
  intros H. assert (x ∈ ranked k items) as H'.
  { rewrite <- (take_drop MAX_USER_DEFAULT (ranked k items)). apply elem_of_app. by right. }
  unfold ranked in H'. rewrite (sort_by_Permutation newer) in H'. by apply list_elem_of_filter in H' as [? ?].
Qed.

Lemma pushed_is_dropped it items :
  id it ∉ map id items →
  (id it ∈ map id (dropped (items ++ [it]) App ++ dropped (items ++ [it]) User) ↔ 8 ≤ length (rivals it items)).
Proof.
  intros Hf. assert (id it ∈ map id (dropped (items ++ [it]) App ++ dropped (items ++ [it]) User)
                     ↔ it ∈ dropped (items ++ [it]) (kind it)) as ->.
  { rewrite list_elem_of_fmap. split.
    - intros (x & Hid & Hx). assert (x ∈ items ++ [it]) as [H|H%list_elem_of_singleton]%elem_of_app.
      { apply elem_of_app in Hx as [Hx|Hx]; by apply dropped_items in Hx as [? _]. }
      + contradict Hf. rewrite Hid. by apply list_elem_of_fmap_2.
      + subst x. apply elem_of_app in Hx as [Hx|Hx]; pose proof (dropped_items _ _ _ Hx) as [_ ->]; done.
    - intros H. exists it. split; [done|]. apply elem_of_app. pose proof (dropped_items _ _ _ H) as [_ Hk].
      destruct (kind it); [by left|by right]. }
  destruct (ranked_snoc it items) as (a & b & E & Hl & Hin). unfold dropped. rewrite E, <- Hl. unfold MAX_USER_DEFAULT.
  assert (it ∉ a ++ b) as Hni by (intros H; apply Hf; apply list_elem_of_fmap_2; by apply Hin).
  split.
  - intros H. destruct (decide (8 ≤ length a)) as [|Hlt]; [done|]. exfalso. apply Hni. apply elem_of_app. right.
    rewrite drop_app_ge in H by lia. destruct (8 - length a) eqn:En; [lia|]. cbn [drop] in H.
    rewrite <- (take_drop n b). apply elem_of_app. by right.
  - intros H. rewrite drop_app_le by done. apply elem_of_app. right. apply list_elem_of_here.
Qed.

(** The item a push adds is gone again when it answers exactly when eight
    items of its pool carry its second or a later one: the caps rank an older
    item of the same second first. *)
Theorem pushed_survives it items d :
  load from_str d = Ok items → id it ∉ map id items →
  ∃ ids d', add_item from_str to_pretty true it d = (Ok (id it, ids), d')
    ∧ (id it ∈ ids ↔ 8 ≤ length (rivals it items)).
Proof.
  intros Hl Hf. destruct (add_item_eq it items d Hl) as (items' & out & -> & Ho & _).
  do 2 eexists. split; [done|]. by rewrite Ho, pushed_is_dropped.
Qed.
Lemma parse_kind_str k : parse_kind (kind_str k) = Ok k.
Proof. by destruct k. Qed.

(** What is pushed is what is popped next: unless eight items of its pool
    carry the second it is pushed in, and when none carries a later one, the
    pop that follows a push answers with the item pushed, and leaves the items
    from before without those the push evicted. *)
Theorem push_then_pop it items d :
  load from_str d = Ok items → NoDup (map id (items ++ [it])) →
  (∀ x, x ∈ items → kind x = kind it → (created_at x <= created_at it)%Z) → length (rivals it items) < 8 →
  ∃ ids d1 d2, add_item from_str to_pretty true it d = (Ok (id it, ids), d1)
    ∧ pop from_str to_pretty true (kind_str (kind it)) None d1 = (Ok (id it), d2)
    ∧ load from_str d2 = Ok (filter (λ x, id x ∉ ids) items).
Proof.
  intros Hl Hn Ht Hr. rewrite map_app in Hn. apply NoDup_app in Hn as (Hn & Hd & _).
  assert (id it ∉ map id items) as Hf by (intros H; apply (Hd _ H); apply list_elem_of_here).
  destruct (add_item_eq it items d Hl) as (items' & out & E & Ho & _ & Hs & Hp).
  assert (id it ∉ map id out) as Hio by (rewrite Ho, pushed_is_dropped by done; lia).
  destruct (survivor_is_last it items items' out Hf Hs Hp Hio) as (l & -> & Hsl & Hpl).
  do 3 eexists. split; [exact E|]. unfold pop. rewrite parse_kind_str, load_saved, newest_snoc; cycle 1.
  { intros x Hx. apply Ht. by apply (sublist_subseteq _ _ Hsl). }
  unfold take_item. rewrite list_lookup_middle by done. split; [done|]. cbn [snd save]. rewrite load_saved. f_equal.
  rewrite (delete_middle l [] it). rewrite app_nil_r. by apply kept_by_id.
Qed.

(** *** Payloads and items *)

(** The items have different ids, and a payload is there for the items without
    a path and for nothing else. *)
Definition tidy (items : list Item) (d : Disk) : Prop :=
  load from_str d = Ok items ∧ NoDup (map id items)
  ∧ ∀ i, is_Some (blobs d !! i) ↔ ∃ it, it ∈ items ∧ id it = i ∧ ipath it = None.

Lemma NoDup_id_inj items x y : NoDup (map id items) → x ∈ items → y ∈ items → id x = id y → x = y.
Proof.
  intros Hn [i Hi]%list_elem_of_lookup [j Hj]%list_elem_of_lookup E. assert (i = j) as ->; [|congruence].
  eapply NoDup_lookup; [done| |]; rewrite list_lookup_fmap; [by rewrite Hi|]. by rewrite Hj, E.
Qed.

Lemma take_item_tidy items idx it d d1 :
  tidy items d → items !! idx = Some it → items_json d1 = items_json d → blobs d1 = blobs d →
  ∃ d', take_item to_pretty true items idx d1 = (Ok (id it), d') ∧ tidy (delete idx items) d'.
Proof.
  intros (Hl & Hn & Hb) Hi Ej Eb. unfold take_item. rewrite Hi. cbn [save]. eexists. split; [done|].
  pose proof (delete_Permutation items idx it Hi) as Hp. pose proof Hn as Hn'. rewrite Hp in Hn'. cbn [map] in Hn'.
  apply NoDup_cons in Hn' as [Hx Hn']. split_and!; [apply load_saved|done|]. intros i.
  cbn [set_items delete_blobs blobs]. rewrite Eb. destruct (decide (i = id it)) as [->|Hne].
  - rewrite lookup_delete_eq. split; [by intros [? ?]|]. intros (x & Hxd & E & _). exfalso. apply Hx. rewrite <- E.
    by apply list_elem_of_fmap_2.
  - rewrite lookup_delete_ne, Hb by done. split; intros (x & Hxi & Ex & Hpx); exists x; (split; [|done]).
    + rewrite Hp in Hxi. apply elem_of_cons in Hxi as [->|]; [by destruct Hne|done].
    + rewrite Hp. by apply list_elem_of_further.
Qed.

Lemma add_item_tidy it items d :
  load from_str d = Ok items → NoDup (map id (items ++ [it])) →
  (∀ i, is_Some (blobs d !! i) ↔ ∃ x, x ∈ items ++ [it] ∧ id x = i ∧ ipath x = None) →
  ∃ ids d' items', add_item from_str to_pretty true it d = (Ok (id it, ids), d') ∧ tidy items' d'.
Proof.
  intros Hl Hn Hb. destruct (add_item_eq it items d Hl) as (items' & out & -> & _ & _ & _ & Hp).
  do 2 eexists. exists items'. split; [done|]. pose proof Hn as Hn'. rewrite Hp, map_app in Hn'.
  apply NoDup_app in Hn' as (_ & Hd & Hn'). split_and!; [apply load_saved|done|]. intros i.
  cbn [set_items blobs]. rewrite blobs_deleted_lookup. case_decide as Hi.
  - split; [by intros [? ?]|]. intros (x & Hx & <- & _). exfalso. apply (Hd _ Hi). by apply list_elem_of_fmap_2.
  - rewrite Hb. setoid_rewrite Hp. split; intros (x & Hx & <- & Hpx); exists x; (split; [|done]).
    + apply elem_of_app in Hx as [Hx|]; [|done]. contradict Hi. by apply list_elem_of_fmap_2.
    + apply elem_of_app. by right.
Qed.

(** The commands that change the disk, when they can write the list: [push]
    draws an id no item has. *)
Inductive step : Disk → Disk → Prop :=
  | StepPush src k n dry i now d r d' :
      (∀ items, load from_str d = Ok items → i ∉ map id items) →
      push from_str to_pretty canonicalize true src k n dry i now d = (r, d') → step d d'
  | StepPop k i d r d' : pop from_str to_pretty true k i d = (r, d') → step d d'
  | StepRemove i d r d' : remove from_str to_pretty true i d = (r, d') → step d d'
  | StepMove i dest d r d' : move_to from_str to_pretty is_alphanumeric true i dest d = (r, d') → step d d'
  | StepLink i d r d' : link from_str i d = (r, d') → step d d'.

Lemma move_payload_only it target d d' :
  move_payload it target d = Ok d' → items_json d' = items_json d ∧ blobs d' = blobs d.
Proof.
  unfold move_payload. destruct (ipath it) as [src|].
  - destruct (rename _ _ _) as [st|]; [by intros [= <-]|]. destruct (Store.read _ _) as [b|]; [|done].
    destruct (Store.write _ _ _); [by intros [= <-]|done].
  - destruct (read_payload _ _) as [b|]; [cbn [rbind]|done]. destruct (Store.write _ _ _); [by intros [= <-]|done].
Qed.

Lemma new_item_cases k src n i now d it d' :
  new_item canonicalize k src n i now d = Ok (it, d') →
  id it = i ∧ items_json d' = items_json d
  ∧ blobs d' = (if ipath it then blobs d else <[i := match src with Stdin b => b | PathArg _ => [] end]> (blobs d)).
Proof.
  unfold new_item. destruct src as [b|p]; [by intros [= <- <-]|]. destruct (negb _); [done|]. unfold push_file.
  destruct (canonicalize _ _); [|done]. destruct (file_len _ _); [|done]. by intros [= <- <-].
Qed.

Lemma tidy_fresh items d i : tidy items d → i ∉ map id items → blobs d !! i = None.
Proof.
  intros (_ & _ & Hb) Hi. apply eq_None_not_Some. rewrite Hb. intros (x & Hx & <- & _). apply Hi.
  by apply list_elem_of_fmap_2.
Qed.

Lemma push_tidy src k n dry i now items d :
  tidy items d → i ∉ map id items →
  ∃ items', tidy items' (push from_str to_pretty canonicalize true src k n dry i now d).2.
Proof.
  intros Ht Hi. unfold push. destruct (parse_kind k) as [k'|e]; [|by exists items].
  destruct dry; [by exists items; destruct src; [|destruct (negb _)]|].
  destruct (new_item _ _ _ _ _ _ _) as [[it d1]|e] eqn:E; [|by exists items].
  apply new_item_cases in E as (Hid & Ej & Eb). pose proof Ht as (Hl & Hn & Hb).
  destruct (add_item_tidy it items d1) as (ids & d' & items' & -> & H); [| | |by exists items'].
  - unfold load. rewrite Ej. exact Hl.
  - rewrite map_app. apply NoDup_app. split_and!; [done| |apply NoDup_singleton]. cbn [map]. rewrite Hid.
    by intros x Hx ->%list_elem_of_singleton.
  - intros j. rewrite Eb. pose proof (tidy_fresh _ _ _ Ht Hi) as Hnone.
    assert (∀ x, x ∈ items ++ [it] ↔ x ∈ items ∨ x = it) as Hin by (intros; rewrite elem_of_app, list_elem_of_singleton; done).
    setoid_rewrite Hin. destruct (ipath it) as [p|] eqn:Ep.
    + rewrite Hb. split; [intros (x & ? & ?); exists x; eauto|]. intros (x & [Hx| ->] & ? & ?); [by exists x|congruence].
    + destruct (decide (j = i)) as [->|Hne].
      * rewrite lookup_insert_eq. split; [|done]. intros _. exists it. eauto.
      * rewrite lookup_insert_ne by done. rewrite Hb. split; [intros (x & ? & ?); exists x; eauto|].
        intros (x & [Hx| ->] & ? & ?); [by exists x|congruence].
Qed.

Lemma take_item_kept items idx d d1 :
  tidy items d → items_json d1 = items_json d → blobs d1 = blobs d →
  ∃ items', tidy items' (take_item to_pretty true items idx d1).2.
Proof.
  intros Ht Ej Eb. destruct (items !! idx) as [it|] eqn:Hi.
  - destruct (take_item_tidy items idx it d d1 Ht Hi Ej Eb) as (d' & -> & H). by exists (delete idx items).
  - unfold take_item. rewrite Hi. exists items. destruct Ht as (Hl & Hn & Hb). unfold tidy, load in *. cbn [snd]. by rewrite Ej, Eb.
Qed.

Lemma move_to_take i dest items d :
  tidy items d → ∃ items', tidy items' (move_to from_str to_pretty is_alphanumeric true i dest d).2.
Proof.
  intros Ht. pose proof Ht as (Hl & Hn & Hb). unfold move_to. rewrite Hl.
  destruct (find_idx items i) as [idx|e]; [|by exists items]. destruct (items !! idx) as [it|] eqn:Hi; [|by exists items].
  destruct (create_dir_all (files d) dest) as [st|e]; [|by exists items].
  destruct (move_payload it _ _) as [d1|e] eqn:E; [|by exists items].
  apply move_payload_only in E as [Ej Eb]. cbn [save snd].
  destruct (take_item_tidy items idx it d d1 Ht Hi Ej Eb) as (d' & Et & H). unfold take_item in Et. rewrite Hi in Et.
  cbn [save] in Et. injection Et as <-. by exists (delete idx items).
Qed.

End laws.

(** *** A concrete [serde_json], and the theorems on concrete pools *)

#[export] Instance Kind_countable : Countable Kind.
Proof. refine (inj_countable' (λ k, bool_decide (k = App)) (λ b : bool, if b then App else User) _). by intros []. Defined.
#[export] Instance Item_countable : Countable Item.
Proof.
  refine (inj_countable' (λ it, (id it, kind it, ipath it, name it, created_at it, content_kind it, size it))
            (λ '(i, k, p, n, c, ck, s), mkItem i k p n c ck s) _).
  by intros [].
Defined.
Definition pretty_items (items : list Item) : text := [91; Z.pos (encode items); 93]%Z.
Definition parse_items (s : text) : result (list Item) text :=
  match s with
  | [_; Z.pos p; _]%Z => match decode p with Some items => Ok items | None => Err (lit "parse") end
  | _ => Err (lit "parse")
  end.
Lemma pretty_items_read items : trim (pretty_items items) ≠ [] ∧ parse_items (pretty_items items) = Ok items.
Proof.
  split.
  - unfold trim, pretty_items. cbn. done.
  - unfold parse_items, pretty_items. by rewrite decode_encode.
Qed.
Definition no_canonicalize (_ : store) (_ : path) : option path := None.
Definition ascii_alphanumeric (c : Z) : bool := ((48 <=? c) && (c <=? 57) || (65 <=? c) && (c <=? 90) || (97 <=? c) && (c <=? 122))%Z.

Definition snippet (i : string) (k : Kind) (at_ : Z) : Item := mkItem (lit i) k None (lit i) at_ "text" 1.
Definition disk_of (items : list Item) : Disk :=
  mkDisk (Some (pretty_items items)) (list_to_map (map (λ it, (id it, [120%Z])) items)) ∅ ∅ ∅.
Lemma load_disk_of items : load parse_items (disk_of items) = Ok items.
Proof. apply (load_saved _ _ pretty_items_read items (disk_of items)). Qed.

Definition crowd : list Item := map (λ s, snippet s App 7) ["a"; "b"; "c"; "d"; "e"; "f"; "g"; "h"].
Definition late : Item := snippet "i" App 8.

Lemma adding_keeps_the_newest_witness :
  load parse_items (disk_of crowd) = Ok crowd
  ∧ ∃ items' out d', add_item parse_items pretty_items true late (disk_of crowd) = (Ok (id late, map id out), d')
    ∧ load parse_items d' = Ok items' ∧ items' `sublist_of` crowd ++ [late]
    ∧ (∀ k, pool k items' ≡ₚ kept (crowd ++ [late]) k ∧ length (pool k items') ≤ 8)
    ∧ out ≡ₚ dropped (crowd ++ [late]) App ++ dropped (crowd ++ [late]) User
    ∧ ∀ i, blobs d' !! i = if decide (i ∈ map id out) then None else blobs (disk_of crowd) !! i.
Proof.
  split; [apply load_disk_of|]. exact (adding_keeps_the_newest _ _ pretty_items_read late crowd _ (load_disk_of crowd)).
Defined.

Lemma pushed_survives_witness :
  load parse_items (disk_of crowd) = Ok crowd ∧ id late ∉ map id crowd
  ∧ ∃ ids d', add_item parse_items pretty_items true late (disk_of crowd) = (Ok (id late, ids), d')
    ∧ (id late ∈ ids ↔ 8 ≤ length (rivals late crowd)).
Proof.
  assert (id late ∉ map id crowd) as H by (apply (bool_decide_unpack _); vm_compute; exact I).
  split_and!; [apply load_disk_of|exact H|].
  exact (pushed_survives parse_items pretty_items late crowd _ (load_disk_of crowd) H).
Defined.

Lemma push_then_pop_witness :
  load parse_items (disk_of crowd) = Ok crowd ∧ length (rivals late crowd) = 0
  ∧ ∃ ids d1 d2, add_item parse_items pretty_items true late (disk_of crowd) = (Ok (id late, ids), d1)
    ∧ pop parse_items pretty_items true (kind_str (kind late)) None d1 = (Ok (id late), d2)
    ∧ load parse_items d2 = Ok (filter (λ x, id x ∉ ids) crowd).
Proof.
  split_and!; [apply load_disk_of|by vm_compute|].
  apply (push_then_pop _ _ pretty_items_read late crowd _ (load_disk_of crowd)).
  - apply (bool_decide_unpack _). by vm_compute.
  - intros x Hx _. assert (Forall (λ y, created_at y <= created_at late)%Z crowd) as H by (repeat constructor; done).
    by eapply Forall_forall in H.
  - vm_compute. lia.
Defined.


(** Eight items of the second a push falls in, and the push: the item it answers
    with is the one it evicts. *)
Example pushed_and_evicted :
  (check_caps MAX_APP_DEFAULT MAX_USER_DEFAULT (crowd ++ [snippet "i" App 7]) (disk_of crowd)).1.2 = [lit "i"].
Proof. reflexivity. Qed.

(** The payload is deleted before the list is written: when it cannot be, the
    list still has the item. *)
Example payload_lost :
  let d := mkDisk (Some (pretty_items [snippet "a" App 7])) {[lit "a" := [120%Z]]} ∅ ∅ ∅ in
  let '(r, d') := remove parse_items pretty_items false (lit "a") d in
  r = Err (lit "rename") ∧ items_json d' = items_json d ∧ blobs d' = ∅.
Proof. vm_compute. split_and!; done. Qed.

(** Two pushes that each read the list before the other writes it: the first
    one's item is gone. *)
Example push_lost :
  let d := mkDisk None ∅ ∅ ∅ ∅ in
  let first := add_item parse_items pretty_items true (snippet "a" App 7) d in
  let second := add_item parse_items pretty_items true (snippet "b" App 7) d in
  first.1 = Ok (lit "a", []) ∧ second.1 = Ok (lit "b", []) ∧ load parse_items second.2 = Ok [snippet "b" App 7].
Proof. vm_compute. split_and!; done. Qed.

(** The id given to [pop] is taken from either pool. *)
Example pop_ignores_the_kind :
  (pop parse_items pretty_items true "user" (Some (lit "a")) (disk_of crowd)).1 = Ok (lit "a").
Proof. vm_compute. reflexivity. Qed.

(** *** Quoting *)

(** One word of a shell's command line: quoted text as it is, an escaped
    character, plain characters to the next blank or operator. *)
Definition sh_blank (c : Z) : bool := existsb (Z.eqb c) [9; 10; 32; 38; 40; 41; 59; 60; 62; 124]%Z.
Definition sh_plain (c : Z) : bool := negb (existsb (Z.eqb c) [33; 34; 35; 36; 42; 63; 91; 92; 96; 123; 126]%Z).
Fixpoint sh_word (quoted : bool) (s : text) : option (text * text) :=
  let keep c r := match r with Some (w, rest) => Some (c :: w, rest) | None => None end in
  match s with
  | [] => if quoted then None else Some ([], [])
  | c :: s' =>
      if quoted then if (c =? 39)%Z then sh_word false s' else keep c (sh_word true s')
      else if (c =? 39)%Z then sh_word true s'
      else if sh_blank c then Some ([], s)
      else if (c =? 92)%Z then match s' with e :: s'' => if (e =? 10)%Z then None else keep e (sh_word false s'') | [] => None end
      else if sh_plain c then keep c (sh_word false s') else None
  end.

(** A path that is quoted for the shell is one word of its command line,
    and that word is the path: whatever quotes, blanks, operators or expansions
    it contains, none of them is read as such, and the command line goes on
    after it. *)
Theorem shell_quote_is_one_word s rest :
  match rest with [] => True | c :: _ => sh_blank c = true end →
  sh_word false (shell_quote s ++ rest) = Some (s, rest).
Proof.
  intros Hr. unfold shell_quote. rewrite <- !app_assoc. cbn [app sh_word]. rewrite Z.eqb_refl.
  induction s as [|c s IH]; cbn [flat_map app sh_word].
  - rewrite Z.eqb_refl. destruct rest as [|c rest]; [done|]. cbn [sh_word]. rewrite Hr.
    destruct (c =? 39)%Z eqn:E; [|done]. apply Z.eqb_eq in E as ->. done.
  - destruct (c =? 39)%Z eqn:E.
    + apply Z.eqb_eq in E as ->. cbn. cbn [app] in IH. rewrite IH. done.
    + cbn [app sh_word]. rewrite E, IH. done.
Qed.
Lemma shell_quote_is_one_word_witness :
  sh_blank 32 = true ∧ sh_word false (shell_quote (lit "a'$(b) c") ++ lit " &") = Some (lit "a'$(b) c", lit " &").
Proof. split; [reflexivity|]. apply (shell_quote_is_one_word (lit "a'$(b) c") (lit " &")). reflexivity. Defined.

(** *** The bridge to the bar *)
Lemma from_as_method o : from_method (as_method o) = Some o.
Proof. by destruct o. Qed.

Lemma from_method_inv m o : from_method m = Some o → m = as_method o.
Proof.
  unfold from_method. destruct (String.eqb m METHOD_REFRESH) eqn:E1; [intros [= <-]; by apply String.eqb_eq|].
  destruct (String.eqb m METHOD_TOGGLE) eqn:E2; [intros [= <-]; by apply String.eqb_eq|].
  destruct (String.eqb m METHOD_RELOAD_THEME) eqn:E3; [intros [= <-]; by apply String.eqb_eq|done].
Qed.

(** A request for one of the three operations reaches the bar's event loop
    when it is there and is answered so; every other outcome is an error with
    the request's id that sends nothing: an unknown method is the caller's
    fault and leaves the health alone, a lost event loop or a poisoned lock is
    the bridge's and marks it. *)
Theorem bridge_sends_what_it_acknowledges system b req :
  system req = None →
  let '(resp, b') := handle system b req in
  (∃ o, method req = as_method o ∧ poisoned b = false ∧ receiver b = true
     ∧ resp = ROk SCHEMA_VERSION (request_id req) (JObj []) None ∧ sent b' = sent b ++ [o] ∧ healthy b' = healthy b)
  ∨ (∃ code msg, resp = bridge_err code (request_id req) msg ∧ sent b' = sent b
       ∧ ((code = ErrorCode.BadRequest ∧ (∀ o, method req ≠ as_method o) ∧ healthy b' = healthy b)
          ∨ (code = ErrorCode.Internal ∧ (poisoned b = true ∨ receiver b = false) ∧ healthy b' = false))).
Proof.
  intros Hs. unfold handle. rewrite Hs.
  destruct (from_method (method req)) as [o|] eqn:E.
  - apply from_method_inv in E as Hm.
    destruct (poisoned b) eqn:Ep; [right; do 2 eexists; split_and!; [done|done|right; split_and!; [done|by left|done]]|].
    destruct (receiver b) eqn:Er; [left; by exists o|].
    right. do 2 eexists. split_and!; [done|done|right; split_and!; [done|by right|done]].
  - right. do 2 eexists. split_and!; [done|done|]. left. split_and!; [done| |done].
    intros o Ho. by rewrite Ho, from_as_method in E.
Qed.
Definition sample_request (m : string) : Request := mkRequest SCHEMA_VERSION 5 None None None Priority.Interactive m JNull.
Lemma bridge_sends_what_it_acknowledges_witness :
  (λ _ : Request, @None Response) (sample_request METHOD_TOGGLE) = None
  ∧ let '(resp, b') := handle (λ _, None) (mkBridge [] true false true) (sample_request METHOD_TOGGLE) in
    resp = ROk SCHEMA_VERSION 5 (JObj []) None ∧ sent b' = [Toggle].
Proof.
  split; [reflexivity|].
  destruct (bridge_sends_what_it_acknowledges (λ _, None) (mkBridge [] true false true) (sample_request METHOD_TOGGLE) eq_refl)
    as [(o & Hm & _)|(code & msg & H & _)]; [split; reflexivity|discriminate H].
Defined.

End Stack.
