(* ===== verification/Chunk.v ===== *)
(** * The knowledge chunker

    [crates/sy-knowledge/src/knowledge/chunk.rs]: the sliding-window chunker
    that cuts a document into the pieces the embedder sees. *)

From S2P Require Import Prelude Text.
Import Text.
Local Open Scope list_scope.

Module Chunk.

Definition OVERLAP_TOKENS : nat := 64.
Definition MAX_CHUNK_CHARS : nat := Z.to_nat 1800.
Arguments MAX_CHUNK_CHARS : simpl never.

Record Chunk : Type := mkChunk { index : Z; ch_text : text }.

(** The loop of [split_oversized]. *)
Fixpoint split_loop (fuel : nat) (rest : text) : option (list text) :=
  match fuel with
  | O => None
  | S f =>
      if MAX_CHUNK_CHARS <? length rest then
        ps ← split_loop f (drop MAX_CHUNK_CHARS rest);
        Some (take MAX_CHUNK_CHARS rest :: ps)
      else Some (match rest with [] => [] | _ => [rest] end)
  end.

(** [split_oversized]. *)
Definition split_oversized (token : text) : option (list text) :=
  if length token <=? MAX_CHUNK_CHARS then Some [token]
  else split_loop (S (length token)) token.

(** The pieces of a text: its words, oversized ones cut. *)
Fixpoint pieces_of (tokens : list text) : option (list text) :=
  match tokens with
  | [] => Some []
  | token :: tokens' =>
      ps ← split_oversized token; qs ← pieces_of tokens'; Some (ps ++ qs)
  end.

(** How many pieces of [rest] the window takes: the inner loop, with [taken]
    pieces of [chars] characters (separators included) in the window. *)
Fixpoint grow (rest : list text) (chunk_tokens taken chars : nat) : nat :=
  match rest with
  | [] => taken
  | p :: rest' =>
      if taken <? chunk_tokens then
        let add := length p + (if 0 <? taken then 1 else 0) in
        if (0 <? taken) && (MAX_CHUNK_CHARS <? chars + add) then taken
        else grow rest' chunk_tokens (S taken) (chars + add)
      else taken
  end.

(** [pieces[start..end]]. *)
Definition slice {A} (l : list A) (start stop : nat) : list A := take (stop - start) (drop start l).

(** The outer loop. *)
Fixpoint chunk_loop (fuel : nat) (pieces : list text) (chunk_tokens start : nat) (idx : Z)
    : option (list Chunk) :=
  match fuel with
  | O => None
  | S f =>
      if start <? length pieces then
        let stop := start + grow (drop start pieces) chunk_tokens 0 0 in
        let c := mkChunk idx (join_space (slice pieces start stop)) in
        if stop =? length pieces then Some [c]
        else
          cs ← chunk_loop f pieces chunk_tokens
                 (start + Nat.max (stop - start - OVERLAP_TOKENS) 1) ((idx + 1) mod U32_MOD)%Z;
          Some (c :: cs)
      else Some []
  end.

(** [chunk_sized]. *)
Definition chunk_sized (txt : text) (chunk_tokens : nat) : option (list Chunk) :=
  let chunk_tokens := Nat.max chunk_tokens 1 in
  pieces ← pieces_of (split_whitespace txt);
  match pieces with
  | [] => Some []
  | _ => chunk_loop (S (length pieces)) pieces chunk_tokens 0 0
  end.

(** ** What the chunks are *)

(** A piece the chunker may work with. *)
Definition piece_ok (p : text) : Prop := 0 < length p <= MAX_CHUNK_CHARS.

(** A run of windows over [n] pieces, from [start] on: each is non-empty and
    of at most [k] pieces, and the next one starts [OVERLAP_TOKENS] pieces
    before the end of it (one piece after its start, when it is shorter). *)
Inductive windows (n k : nat) : nat → list (nat * nat) → Prop :=
| windows_last start : start < n → n - start <= k → windows n k start [(start, n)]
| windows_more start stop ws :
    start < stop → stop < n → stop - start <= k →
    windows n k (start + Nat.max (stop - start - OVERLAP_TOKENS) 1) ws →
    windows n k start ((start, stop) :: ws).

(** The chunks of windows over [pieces]. *)
Definition chunks_of (pieces : list text) (ws : list (nat * nat)) : list Chunk :=
  imap (λ i w, mkChunk (Z.of_nat i mod U32_MOD) (join_space (slice pieces w.1 w.2))) ws.

(** ** Pieces *)
Lemma split_loop_spec fuel rest :
  length rest < fuel → rest ≠ [] →
  ∃ ps, split_loop fuel rest = Some ps ∧ concat ps = rest ∧ Forall piece_ok ps.
Proof.
  assert (0 < MAX_CHUNK_CHARS) as Hmax by (unfold MAX_CHUNK_CHARS; lia).
  revert rest. induction fuel as [|f IH]; intros rest Hf Hne; [lia|]. cbn [split_loop].
  destruct (Nat.ltb_spec MAX_CHUNK_CHARS (length rest)) as [Hl|Hl].
  - destruct (IH (drop MAX_CHUNK_CHARS rest)) as (ps & -> & Hc & Hok).
    + rewrite length_drop. lia.
    + intros E%(f_equal length). rewrite length_drop in E. simpl in E. lia.
    + eexists. split; [done|]. simpl. rewrite Hc, take_drop. split; [done|].
      constructor; [|done]. unfold piece_ok. rewrite length_take. lia.
  - destruct rest as [|c rest]; [done|]. exists [c :: rest]. split; [done|].
    simpl. rewrite app_nil_r. split; [done|].
    constructor; [|constructor]. unfold piece_ok. simpl in *. lia.
Qed.

Lemma split_oversized_spec token :
  token ≠ [] → ∃ ps, split_oversized token = Some ps ∧ concat ps = token ∧ Forall piece_ok ps.
Proof.
  intros Hne. unfold split_oversized. destruct (Nat.leb_spec (length token) MAX_CHUNK_CHARS).
  - exists [token]. split; [done|]. simpl. rewrite app_nil_r. split; [done|].
    constructor; [|done]. split; [|done]. destruct token; [done|simpl; lia].
  - by apply split_loop_spec; [lia|].
Qed.

Lemma pieces_of_spec tokens :
  Forall (λ w, w ≠ []) tokens →
  ∃ ps, pieces_of tokens = Some ps ∧ concat ps = concat tokens ∧ Forall piece_ok ps.
Proof.
  induction 1 as [|token tokens Hne _ (qs & E & Hc & Hok)]; cbn [pieces_of].
  - by exists [].
  - destruct (split_oversized_spec token Hne) as (ps & -> & Hc' & Hok'). simpl. rewrite E. simpl.
    eexists. split; [done|]. rewrite concat_app, Hc, Hc'. split; [done|]. by apply Forall_app.
Qed.

(** ** Windows *)

(** Characters of a window of [ps], separators included. *)
Definition width (ps : list text) : nat := sum_list (length <$> ps) + (length ps - 1).

Lemma width_snoc ps p :
  width (ps ++ [p]) = width ps + length p + (if 0 <? length ps then 1 else 0).
Proof.
  unfold width. rewrite fmap_app, sum_list_with_app, length_app. simpl.
  destruct ps; simpl; lia.
Qed.

(** What [grow] takes, given the window [w] taken so far. *)
Lemma grow_spec rest k : forall w,
  Forall piece_ok rest → width w <= MAX_CHUNK_CHARS →
  let e := grow rest k (length w) (width w) in
  length w <= e <= length w + length rest ∧ e <= Nat.max k (length w)
  ∧ width (w ++ take (e - length w) rest) <= MAX_CHUNK_CHARS
  ∧ (length w = 0 → 0 < k → rest ≠ [] → 0 < e).
Proof.
  induction rest as [|p rest IH]; intros w Hok Hw; cbn [grow].
  { cbn zeta. rewrite Nat.sub_diag, take_0, app_nil_r. simpl. repeat split; try lia. done. }
  inversion_clear Hok as [|? ? [Hp1 Hp2] Hok']. cbn zeta.
  assert (forall e, e = length w → (length w = 0 → 0 < k → False) →
    length w <= e <= length w + length (p :: rest) ∧ e <= Nat.max k (length w)
    ∧ width (w ++ take (e - length w) (p :: rest)) <= MAX_CHUNK_CHARS
    ∧ (length w = 0 → 0 < k → p :: rest ≠ [] → 0 < e)) as Hstop.
  { intros e -> Hno. rewrite Nat.sub_diag, take_0, app_nil_r. repeat split; lia. }
  destruct (Nat.ltb_spec (length w) k) as [Hk|Hk]; [|apply Hstop; lia].
  destruct ((0 <? length w) && _) eqn:Eb.
  { apply andb_true_iff in Eb as [Eb _]. apply Nat.ltb_lt in Eb. apply Hstop; lia. }
  assert (width (w ++ [p]) <= MAX_CHUNK_CHARS) as Hw'.
  { rewrite width_snoc. destruct (Nat.ltb_spec 0 (length w)) as [H0|H0]; simpl in Eb.
    - apply Nat.ltb_ge in Eb. lia.
    - destruct w; [unfold width; simpl; lia|simpl in H0; lia]. }
  specialize (IH (w ++ [p]) Hok' Hw'). cbn zeta in IH.
  rewrite width_snoc, length_app in IH. cbn [length] in IH.
  rewrite Nat.add_1_r in IH. rewrite Nat.add_assoc.
  set (e := grow rest k (S (length w)) _) in *. destruct IH as (H1 & H2 & H3 & _).
  replace (e - length w) with (S (e - S (length w))) by lia. cbn [take length].
  rewrite <- app_assoc in H3. simpl in H3. repeat split; lia.
Qed.

Lemma chunk_loop_spec pieces k : forall fuel start idx,
  Forall piece_ok pieces → 0 < k → start < length pieces → length pieces - start < fuel →
  ∃ ws, chunk_loop fuel pieces k start (idx mod U32_MOD)
      = Some (imap (λ i w, mkChunk ((idx + Z.of_nat i) mod U32_MOD)
                             (join_space (slice pieces w.1 w.2))) ws)
    ∧ windows (length pieces) k start ws
    ∧ Forall (λ w, width (slice pieces w.1 w.2) <= MAX_CHUNK_CHARS) ws.
Proof.
  induction fuel as [|f IH]; intros start idx Hok Hk Hs Hf; [lia|]. cbn [chunk_loop].
  destruct (Nat.ltb_spec start (length pieces)); [|lia].
  destruct (grow_spec (drop start pieces) k [] (Forall_drop _ _ _ Hok)) as (H1 & H2 & H3 & H4).
  { unfold width. simpl. lia. }
  cbn [length width list_fmap sum_list_with] in H1, H2, H3, H4.
  change (width []) with 0 in *. set (g := grow (drop start pieces) k 0 0) in *.
  rewrite length_drop in H1.
  assert (0 < g) as Hg.
  { apply H4; [done|done|]. intros E%(f_equal length). rewrite length_drop in E. simpl in E. lia. }
  assert (width (slice pieces start (start + g)) <= MAX_CHUNK_CHARS) as Hwd.
  { unfold slice. replace (start + g - start) with (g - 0) by lia. exact H3. }
  destruct (Nat.eqb_spec (start + g) (length pieces)) as [E|E].
  - exists [(start, start + g)]. simpl. rewrite Z.add_0_r. split; [done|]. rewrite E.
    split; [apply windows_last; lia|]. rewrite <- E. by apply Forall_singleton.
  - replace (start + g - start) with g by lia.
    destruct (IH (start + Nat.max (g - OVERLAP_TOKENS) 1) (idx + 1)%Z Hok Hk)
      as (ws & Ew & Hws & Hall); [lia..|].
    rewrite Z.add_mod_idemp_l by done. rewrite Ew. simpl.
    exists ((start, start + g) :: ws). simpl. rewrite Z.add_0_r. split.
    { f_equal. f_equal. apply imap_ext. intros i w _. simpl. do 2 f_equal. lia. }
    split; [|by constructor]. apply windows_more; [lia..|].
    replace (start + g - start) with g by lia. done.
Qed.

Lemma chunk_sized_spec txt k :
  ∃ pieces ws, pieces_of (split_whitespace txt) = Some pieces
    ∧ concat pieces = filter (λ c, is_whitespace c = false) txt ∧ Forall piece_ok pieces
    ∧ chunk_sized txt k = Some (chunks_of pieces ws)
    ∧ (pieces = [] ∧ ws = [] ∨ windows (length pieces) (Nat.max k 1) 0 ws)
    ∧ Forall (λ w, width (slice pieces w.1 w.2) <= MAX_CHUNK_CHARS) ws.
Proof.
  destruct (pieces_of_spec (split_whitespace txt)) as (pieces & E & Hc & Hok).
  { apply split_ws_nonempty. }
  rewrite concat_split_whitespace in Hc. unfold chunk_sized. rewrite E. cbn [mbind option_bind].
  destruct pieces as [|p pieces0] eqn:Ep.
  - exists [], []. repeat split; auto.
  - rewrite <- Ep in *.
    destruct (chunk_loop_spec pieces (Nat.max k 1) (S (length pieces)) 0 0 Hok)
      as (ws & Ew & Hws & Hall); [lia|subst; simpl; lia|lia|].
    exists pieces, ws. split; [done|]. split; [done|]. split; [done|]. split; [|auto].
    change (0 mod U32_MOD)%Z with 0%Z in Ew. rewrite Ew. done.
Qed.

Lemma windows_bounds n k start ws :
  windows n k start ws → Forall (λ w, w.1 < w.2 <= n ∧ w.2 - w.1 <= k) ws.
Proof. induction 1; repeat constructor; simpl; try lia. done. Qed.

Lemma windows_cover n k start ws i :
  windows n k start ws → start <= i < n → Exists (λ w, w.1 <= i < w.2) ws.
Proof.
  intros H. revert i. induction H as [start Hs Hk|start stop ws H1 H2 H3 H4 IH]; intros i Hi.
  - left. simpl. lia.
  - destruct (decide (i < stop)); [left; simpl; lia|]. right. apply IH. lia.
Qed.

Lemma slice_nonempty (pieces : list text) s e :
  Forall piece_ok pieces → s < e <= length pieces → 0 < length (join_space (slice pieces s e)).
Proof.
  intros Hok Hse. rewrite length_join_space. unfold slice.
  destruct (drop s pieces) as [|p rest] eqn:E.
  { apply (f_equal length) in E. rewrite length_drop in E. simpl in E. lia. }
  apply (Forall_drop _ s) in Hok. rewrite E in Hok. inversion_clear Hok as [|? ? Hp _].
  unfold piece_ok in Hp. destruct (e - s) eqn:Ee; [lia|]. simpl. lia.
Qed.

(** ** Properties *)

(** Chunking ends, whatever the text and the token target, and every chunk
    is non-empty, of at most 1800 characters, and numbered by its position. *)
Theorem chunks_fit_embedder txt k :
  ∃ cs, chunk_sized txt k = Some cs
    ∧ Forall (λ c, 0 < length (ch_text c) <= MAX_CHUNK_CHARS) cs
    ∧ ∀ i c, cs !! i = Some c → index c = (Z.of_nat i mod U32_MOD)%Z.
Proof.
  destruct (chunk_sized_spec txt k) as (pieces & ws & _ & _ & Hok & -> & Hws & Hall).
  eexists. split; [done|]. split.
  - apply Forall_lookup. intros i c Hc. unfold chunks_of in Hc.
    rewrite list_lookup_imap in Hc. apply fmap_Some in Hc as (w & Ew & ->). simpl.
    pose proof (Forall_lookup_1 _ _ _ _ Hall Ew) as Hw. rewrite length_join_space in *.
    destruct Hws as [[-> ->]|Hws]; [done|].
    pose proof (Forall_lookup_1 _ _ _ _ (windows_bounds _ _ _ _ Hws) Ew) as [? _].
    pose proof (slice_nonempty pieces w.1 w.2 Hok ltac:(lia)) as Hne.
    rewrite length_join_space in Hne. unfold width in Hw. lia.
  - intros i c Hc. unfold chunks_of in Hc.
    rewrite list_lookup_imap in Hc. by apply fmap_Some in Hc as (w & Ew & ->).
Qed.

(** C10. No text is lost: the pieces the chunks are joined from are the text's
    characters other than whitespace, each chunk joins a window of at most
    [chunk_tokens] consecutive pieces, the windows overlap as
    [OVERLAP_TOKENS] says, and every piece is in some window. *)
Theorem chunks_cover_text txt k :
  ∃ pieces ws, chunk_sized txt k = Some (chunks_of pieces ws)
    ∧ concat pieces = filter (λ c, is_whitespace c = false) txt
    ∧ (pieces = [] ∧ ws = [] ∨ windows (length pieces) (Nat.max k 1) 0 ws)
    ∧ ∀ i, i < length pieces → Exists (λ w, w.1 <= i < w.2) ws.
Proof.
  destruct (chunk_sized_spec txt k) as (pieces & ws & _ & Hc & Hok & E & Hws & _).
  exists pieces, ws. split; [done|]. split; [done|]. split; [done|].
  intros i Hi. destruct Hws as [[-> ->]|Hws]; [simpl in Hi; lia|].
  apply (windows_cover _ _ _ _ _ Hws). lia.
Qed.

End Chunk.
