(* ===== verification/KnowText.v ===== *)
(** * Text for the knowledge index

    [crates/sy-knowledge/src/knowledge/]: what the indexer reads of a file
    ([extract.rs], [normalize.rs]), the pipelines that cut it into records
    ([pipeline/mod.rs], [generic.rs], [transcripts.rs], [telegram.rs] with its
    two parsers), and the sparse vector of a record ([sparse.rs]). JSON text,
    HTML and PDF are read by libraries and programs outside the source, which
    are parameters, and so are the hash of a point id and the character tables
    of the standard library. *)

From S2P Require Import Prelude Lists Text Paths Lines Utf8 Store Chunk.
Import Lists Text Paths Lines Utf8 Store.
Local Open Scope string_scope.
Local Open Scope nat_scope.
Local Open Scope list_scope.

(** ** JSON values *)

Module Value.

(** [serde_json::Value], with the text of its strings; a number is kept when it
    is an integer. *)
Inductive value : Type :=
  | VNull | VBool (b : bool) | VInt (n : Z) | VFloat | VStr (s : text) | VArr (l : list value)
  | VObj (m : list (text * value)).

Fixpoint vassoc (k : text) (m : list (text * value)) : option value :=
  match m with [] => None | (k', v) :: m => if decide (k' = k) then Some v else vassoc k m end.
(** [Value::get], [as_str], [as_i64]. *)
Definition vget (k : string) (v : value) : option value := match v with VObj m => vassoc (lit k) m | _ => None end.
Definition vstr (v : value) : option text := match v with VStr s => Some s | _ => None end.
Definition vi64 (v : value) : option Z :=
  match v with VInt n => if ((- 2 ^ 63 <=? n) && (n <? 2 ^ 63))%Z then Some n else None | _ => None end.

End Value.

(** ** Normalizing *)

Module Normalize.
Import Value.

Definition DENY_KEYS : list string :=
  ["id"; "date"; "date_unixtime"; "mtime"; "ctime"; "file"; "thumbnail"; "photo"; "sticker"; "width"; "height";
   "duration_seconds"; "mime_type"; "type"; "schema_version"; "version"; "hash"; "content_hash"; "point_id"].
Definition is_denied (key : text) : bool := existsb (λ d, bool_decide (lit d = map to_ascii_lowercase key)) DENY_KEYS.

(** [walk] from an empty buffer, which [json_to_text] returns. *)
Fixpoint json_to_text (v : value) : text :=
  match v with
  | VStr [] => []
  | VStr s => s ++ [10%Z]
  | VArr l => flat_map json_to_text l
  | VObj m => flat_map (λ kx, if is_denied kx.1 then [] else json_to_text kx.2) m
  | _ => []
  end.

Section jsonl.
Context (from_str : text → option value).
Definition jsonl_line (out line : text) : text :=
  match trim line with
  | [] => out
  | line =>
      match from_str line with
      | None => out
      | Some v =>
          match json_to_text v with
          | [] => out
          | chunk => out ++ (match out with [] => [] | _ => [10; 10]%Z end) ++ chunk
          end
      end
  end.
Definition jsonl_to_text (raw : list Z) : text :=
  match from_utf8 raw with None => [] | Some s => foldl jsonl_line [] (lines s) end.
End jsonl.

End Normalize.

(** ** Extraction *)

Module Extract.
Import Value Normalize.

Definition DEFAULT_MAX_BYTES : Z := 5 * 1024 * 1024.
Inductive SkipReason : Type := Binary | TooLarge | Unsupported | PdfToTextMissing | PdfFailed | ReadFailed (e : errno).
Inductive Extracted : Type := TextOf (t : text) | Skip (r : SkipReason).

Section extract.
(** [serde_json] on a text and on bytes, [html2text], and [pdftotext]: whether it
    is there, and its output when it succeeds. *)
Context (from_str : text → option value) (from_slice : list Z → option value) (html2text : list Z → text).
Context (which_pdftotext : bool) (pdftotext : path → option (list Z)).

Definition text_or_unsupported (t : text) : Extracted := match trim t with [] => Skip Unsupported | _ => TextOf t end.
Definition extract_text (st : store) (p : path) : Extracted :=
  match Store.read st p with
  | Err e => Skip (ReadFailed e)
  | Ok bytes =>
      match from_utf8 bytes with
      | None => Skip Binary
      | Some s => if existsb (Z.eqb 0) (take 1024 s) then Skip Binary else text_or_unsupported s
      end
  end.
Definition extract_html (st : store) (p : path) : Extracted :=
  match Store.read st p with Err e => Skip (ReadFailed e) | Ok bytes => text_or_unsupported (html2text bytes) end.
Definition extract_json (st : store) (p : path) : Extracted :=
  match Store.read st p with
  | Err e => Skip (ReadFailed e)
  | Ok bytes => match from_slice bytes with None => extract_text st p | Some v => text_or_unsupported (json_to_text v) end
  end.
Definition extract_jsonl (st : store) (p : path) : Extracted :=
  match Store.read st p with
  | Err e => Skip (ReadFailed e)
  | Ok bytes => let t := jsonl_to_text from_str bytes in match trim t with [] => extract_text st p | _ => TextOf t end
  end.
Definition extract_pdf (p : path) : Extracted :=
  if negb which_pdftotext then Skip PdfToTextMissing
  else match pdftotext p with None => Skip PdfFailed | Some out => text_or_unsupported (from_utf8_lossy out) end.

Definition extract_with_limit (st : store) (p : path) (max_bytes : Z) : result Extracted errno :=
  match file_len st p with
  | Err e => Err e
  | Ok len =>
      if (max_bytes <? len)%Z then Ok (Skip TooLarge)
      else
        let ext := map to_ascii_lowercase (default [] (extension p)) in
        Ok (if bool_decide (ext = lit "pdf") then extract_pdf p
            else if bool_decide (ext = lit "html") || bool_decide (ext = lit "htm") then extract_html st p
            else if bool_decide (ext = lit "json") then extract_json st p
            else if bool_decide (ext = lit "jsonl") || bool_decide (ext = lit "ndjson") then extract_jsonl st p
            else extract_text st p)
  end.
End extract.

End Extract.

(** ** Pipelines *)

(** [str::find]: what stands before the first occurrence, and what starts with it. *)
Fixpoint find_sub (pat s : text) : option (text * text) :=
  if starts_with s pat then Some ([], s)
  else match s with
       | [] => None
       | c :: s' => match find_sub pat s' with Some (a, b) => Some (c :: a, b) | None => None end
       end.
(** [join], with a newline. *)
Fixpoint join_nl (ls : list text) : text :=
  match ls with [] => [] | [l] => l | l :: ls => l ++ 10%Z :: join_nl ls end.

Module Pipeline.
Import Value.

Inductive SourceKind : Type :=
  | Telegram | ClaudeTranscripts | AgentHistory | Email | Slack | Notes | Code | Generic.
#[export] Instance SourceKind_eq_dec : EqDecision SourceKind.
Proof. solve_decision. Defined.
Definition as_kebab (k : SourceKind) : string :=
  match k with
  | Telegram => "telegram" | ClaudeTranscripts => "claude-transcripts" | AgentHistory => "agent-history"
  | Email => "email" | Slack => "slack" | Notes => "notes" | Code => "code" | Generic => "generic"
  end.

Record RecordPayload := mkPayload {
  chunk_index : Z; date : option text; from : option text; message_id : option Z; reply_to_id : option Z;
  has_media_ : option bool; model : option text; project_id : option text; rkind : option string; file_path : option text
}.
(** The default payload with an index. *)
Definition plain_payload (i : Z) : RecordPayload := mkPayload i None None None None None None None None None.
Record Rec := mkRec { rtext : text; payload : RecordPayload; chunk_id : string }.

Record Message := mkMessage {
  mid : option Z; mdate : option text; mfrom : option text; mreply : option Z; mmedia : bool;
  voice_media_of : option text; mtext : text
}.
#[export] Instance Message_eq_dec : EqDecision Message.
Proof. solve_decision. Defined.

Section pipelines.
(** [chunk::point_id], a blake3 hash of the key and the index, and [serde_json]. *)
Context (point_id : text → Z → string) (from_str : text → option value).

(** *** Generic files *)

Definition GENERIC_CHUNK_TOKENS : nat := 640.
Definition generic_records (key t : text) : list Rec :=
  match Chunk.Chunk.chunk_sized t GENERIC_CHUNK_TOKENS with
  | Some cs => map (λ c, mkRec (Chunk.Chunk.ch_text c) (plain_payload (Chunk.Chunk.index c)) (point_id key (Chunk.Chunk.index c))) cs
  | None => []
  end.

(** *** Transcripts *)

Definition turn_text (v : value) : text :=
  match vget "message" v ≫= vget "content" with
  | Some (VStr s) => s
  | Some (VArr blocks) => join_nl (omap (λ b, vget "text" b ≫= vstr) blocks)
  | _ =>
      match vget "content" v ≫= vstr with
      | Some s => s
      | None => default [] (vget "text" v ≫= vstr)
      end
  end.
Fixpoint string_field (v : value) (keys : list string) : option text :=
  match keys with
  | [] => None
  | k :: keys =>
      match vget k v ≫= vstr with
      | Some s => Some s
      | None =>
          match (vget "message" v ≫= vget k) ≫= vstr with Some s => Some s | None => string_field v keys end
      end
  end.
Definition project_id_from_key (key : text) : option text :=
  match find_sub (lit "projects/") key with
  | None => None
  | Some (_, at_) =>
      match head (split_on SLASH (drop 9 at_)) with Some [] => None | Some s => Some s | None => None end
  end.
Definition turn_record (key : text) (index : Z) (line : text) (project : option text) : option Rec :=
  match trim line with
  | [] => None
  | line =>
      match from_str line with
      | None => None
      | Some v =>
          match turn_text v with
          | [] => None
          | t => Some (mkRec t (mkPayload index (string_field v ["timestamp"; "ts"]) (string_field v ["role"]) None None None
                                  (string_field v ["model"]) project None None) (point_id key index))
          end
      end
  end.
Definition transcript_records (key t : text) : list Rec :=
  omap (λ il, turn_record key (Z.of_nat il.1) il.2 (project_id_from_key key)) (imap pair (lines t)).

(** *** Telegram: the JSON export *)

Definition array_start (t : text) : option text :=
  match find_sub ([34%Z] ++ lit "messages" ++ [34%Z]) t with
  | None => None
  | Some (_, r) => match find_sub [91%Z] r with None => None | Some (_, r) => Some (drop 1 r) end
  end.

(** The scan of [split_objects]: depth, inside a string, after a backslash, and
    the text of the object that is open. *)
Record Scan := mkScan { depth : Z; in_str : bool; esc : bool; open_obj : option text }.
Definition grow_obj (c : Z) (s : Scan) : option text := (λ o, o ++ [c]) <$> open_obj s.
Fixpoint scan_objects (s : Scan) (out : list text) (body : text) : list text :=
  match body with
  | [] => out
  | c :: body =>
      let o := grow_obj c s in
      if in_str s then
        if esc s then scan_objects (mkScan (depth s) true false o) out body
        else if (c =? 92)%Z then scan_objects (mkScan (depth s) true true o) out body
        else if (c =? 34)%Z then scan_objects (mkScan (depth s) false false o) out body
        else scan_objects (mkScan (depth s) true false o) out body
      else if (c =? 34)%Z then scan_objects (mkScan (depth s) true (esc s) o) out body
      else if (c =? 123)%Z then
        scan_objects (mkScan (depth s + 1) false (esc s) (if (depth s =? 0)%Z then Some [c] else o)) out body
      else if (c =? 125)%Z then
        if (depth s - 1 =? 0)%Z then
          scan_objects (mkScan 0 false (esc s) None) (match o with Some t => out ++ [t] | None => out end) body
        else scan_objects (mkScan (depth s - 1) false (esc s) o) out body
      else if ((c =? 93) && (depth s =? 0))%Z then out
      else scan_objects (mkScan (depth s) false (esc s) o) out body
  end.
Definition split_objects (body : text) : list text := scan_objects (mkScan 0 false false None) [] body.

Definition coalesce_text (t : option value) : text :=
  match t with
  | Some (VStr s) => s
  | Some (VArr items) =>
      flat_map (λ it, match it with VStr s => s | VObj _ => default [] (vget "text" it ≫= vstr) | _ => [] end) items
  | _ => []
  end.
Definition voice_media (v : value) : option text :=
  let inline := match vget "voice_message" v ≫= vstr with Some p => Some p | None => vget "video_message" v ≫= vstr end in
  match vget "media_type" v ≫= vstr with
  | Some mt =>
      if decide (mt = lit "voice_message" ∨ mt = lit "video_message") then
        match vget "file" v ≫= vstr with Some f => Some f | None => inline end
      else inline
  | None => inline
  end.
Definition has_media (v : value) : bool :=
  existsb (λ k, match vget k v with Some _ => true | None => false end)
    ["photo"; "voice_message"; "video_message"; "file"; "media_type"].
Definition message_from_value (v : value) : Message :=
  mkMessage (vget "id" v ≫= vi64) (vget "date" v ≫= vstr) (vget "from" v ≫= vstr)
    (vget "reply_to_message_id" v ≫= vi64) (has_media v) (voice_media v) (coalesce_text (vget "text" v)).
Definition json_parse (t : text) : list Message :=
  match array_start t with None => [] | Some body => map message_from_value (omap from_str (split_objects body)) end.

(** *** Telegram: the HTML export *)

Definition MESSAGE_MARKER : text := lit "<div class=" ++ [34%Z] ++ lit "message".
(** [split_blocks], for as many blocks as the text has characters. *)
Fixpoint split_blocks (fuel : nat) (rest : text) : list text :=
  match fuel with
  | O => []
  | S fuel =>
      match find_sub MESSAGE_MARKER rest with
      | None => []
      | Some (_, at_) =>
          let after := drop (length MESSAGE_MARKER) at_ in
          match find_sub MESSAGE_MARKER after with
          | None => [after]
          | Some (block, rest) => block :: split_blocks fuel rest
          end
      end
  end.
Definition class_needle (class : string) : text := lit "class=" ++ [34%Z] ++ lit class.
Definition title_of (block : text) (class : string) : option text :=
  match find_sub (class_needle class) block with
  | None => None
  | Some (_, at_) =>
      match find_sub [62%Z] at_ with
      | None => None
      | Some (open_tag, _) =>
          match find_sub (lit "title=" ++ [34%Z]) open_tag with
          | None => None
          | Some (_, ti) => fst <$> find_sub [34%Z] (drop 7 ti)
          end
      end
  end.
(** The loop of [div_body]: the depth, the body so far, and what follows it. *)
Fixpoint div_loop (fuel : nat) (d : Z) (body rest : text) : option text :=
  match fuel with
  | O => None
  | S fuel =>
      match find_sub (lit "</div>") rest with
      | None => None
      | Some (before_close, at_close) =>
          match find_sub (lit "<div") rest with
          | Some (before_open, at_open) =>
              if length before_open <? length before_close then
                div_loop fuel (d + 1) (body ++ before_open ++ lit "<div") (drop 4 at_open)
              else if (d - 1 =? 0)%Z then Some (body ++ before_close)
              else div_loop fuel (d - 1) (body ++ before_close ++ lit "</div>") (drop 6 at_close)
          | None =>
              if (d - 1 =? 0)%Z then Some (body ++ before_close)
              else div_loop fuel (d - 1) (body ++ before_close ++ lit "</div>") (drop 6 at_close)
          end
      end
  end.
Definition div_body (block : text) (class : string) : option text :=
  match find_sub (class_needle class) block with
  | None => None
  | Some (_, at_) =>
      match find_sub [62%Z] at_ with
      | None => None
      | Some (_, gt) => let rest := drop 1 gt in div_loop (S (length rest)) 1 [] rest
      end
  end.
Fixpoint strip_tags (in_tag : bool) (html : text) : text :=
  match html with
  | [] => []
  | c :: html =>
      if (c =? 60)%Z then strip_tags true html
      else if (c =? 62)%Z then strip_tags false html
      else if in_tag then strip_tags in_tag html else c :: strip_tags in_tag html
  end.
Definition inner_text (block : text) (class : string) : option text :=
  match div_body block class with
  | None => None
  | Some body => match trim (strip_tags false body) with [] => None | t => Some t end
  end.
Fixpoint until_quote (s : text) : text :=
  match s with [] => [] | c :: s => if ((c =? 34) || (c =? 39))%Z then [] else c :: until_quote s end.
Definition voice_href (block : text) : option text :=
  match find_sub (lit "voice_messages/") block with
  | Some (_, tail) => Some (until_quote tail)
  | None =>
      match find_sub (lit "round_video_messages/") block with Some (_, tail) => Some (until_quote tail) | None => None end
  end.
Definition html_message (block : text) : Message :=
  mkMessage None (title_of block "date") (inner_text block "from_name") None
    (contains block (lit "<a class=" ++ [34%Z] ++ lit "media") || contains block (lit "<img"))
    (voice_href block) (default [] (inner_text block "text")).
Definition html_parse (t : text) : list Message := map html_message (split_blocks (length t) t).

(** *** Conversation windows *)

Definition WINDOW_TOKENS : nat := 150.
Definition WINDOW_MAX_MSGS : nat := 60.
Definition tokens_of (m : Message) : nat := length (split_whitespace (mtext m)).
Definition window_lines (msgs : list Message) : list text :=
  omap (λ m, match trim (mtext m) with
             | [] => None
             | t => Some (match mfrom m with Some f => f ++ lit ": " ++ t | None => t end)
             end) msgs.
Definition window_into_record (msgs : list Message) (key : text) (idx : Z) : option Rec :=
  match msgs with
  | [] => None
  | anchor :: _ =>
      match window_lines msgs with
      | [] => None
      | ls =>
          let id_for_chunk := match mid anchor with Some i => (i mod U32_MOD)%Z | None => idx end in
          Some (mkRec (join_nl ls)
                  (mkPayload idx (mdate anchor) (mfrom anchor) (mid anchor) (mreply anchor)
                     (Some (existsb mmedia msgs)) None None None None)
                  (point_id key id_for_chunk))
      end
  end.
(** The loop of [window_records]: the records, the open window with its tokens,
    and the next index. *)
Definition Windows : Type := list Rec * list Message * nat * Z.
Definition close_window (key : text) (cur : list Message) (out : list Rec) (idx : Z) : list Rec * Z :=
  match window_into_record cur key idx with Some r => (out ++ [r], (idx + 1)%Z) | None => (out, idx) end.
Definition window_step (key : text) (s : Windows) (m : Message) : Windows :=
  let '(out, cur, cur_tokens, idx) := s in
  let tokens := tokens_of m in
  if negb (bool_decide (cur = []))
     && ((WINDOW_TOKENS <? cur_tokens + tokens) || (WINDOW_MAX_MSGS <=? length cur))
  then let '(out, idx) := close_window key cur out idx in (out, [m], tokens, idx)
  else (out, cur ++ [m], cur_tokens + tokens, idx).
Definition window_records (msgs : list Message) (key : text) : list Rec :=
  let '(out, cur, _, idx) := foldl (window_step key) ([], [], 0, 0%Z) msgs in (close_window key cur out idx).1.

Definition telegram_messages (t : text) : list Message :=
  match json_parse t with [] => html_parse t | msgs => msgs end.
Definition telegram_records (key t : text) : list Rec := window_records (telegram_messages t) key.

(** *** Voice notes *)

Definition VOICE_KIND : string := "telegram-voice".
Definition into_voice_record (m : Message) (media_key transcript : text) : Rec :=
  mkRec transcript
    (mkPayload 0 (mdate m) (mfrom m) (mid m) (mreply m) (Some true) None None (Some VOICE_KIND) (Some media_key))
    (point_id media_key 0).
(** [transcribe] is [transcribe_cached], [has_speech] what it is judged by. *)
Definition voice_records (transcribe : path → option text) (has_speech : text → bool) (key t : text) : list Rec :=
  let base := default [] (parent key) in
  omap (λ m,
    match voice_media_of m with
    | None => None
    | Some rel =>
        let media := join base rel in
        match transcribe media with
        | None => None
        | Some tr => if negb (has_speech tr) then None else Some (into_voice_record m media tr)
        end
    end) (telegram_messages t).

(** [pipeline::select] and [records]. *)
Definition records (k : SourceKind) (key t : text) : list Rec :=
  match k with
  | Telegram => telegram_records key t
  | ClaudeTranscripts => transcript_records key t
  | _ => generic_records key t
  end.
End pipelines.

(** *** What the windows hold *)

Section windows.
Context (point_id : text → Z → string).

Definition tokens (w : list Message) : nat := sum_list (tokens_of <$> w).
(** A window: one message, or no more of them than the caps. *)
Definition window_ok (w : list Message) : Prop :=
  w ≠ [] ∧ length w ≤ WINDOW_MAX_MSGS ∧ (length w = 1 ∨ tokens w ≤ WINDOW_TOKENS).
(** Each window is full: the first message of the next would not have fitted. *)
Definition full (ws : list (list Message)) : Prop :=
  ∀ i w w', ws !! i = Some w → ws !! S i = Some w' →
    ∃ m, head w' = Some m ∧ (WINDOW_TOKENS < tokens w + tokens_of m ∨ WINDOW_MAX_MSGS ≤ length w).
(** The records of windows, numbered as they are closed. *)
Definition numbered (key : text) (ws : list (list Message)) : list Rec * Z :=
  foldl (λ oi w, close_window point_id key w oi.1 oi.2) ([], 0%Z) ws.

Lemma numbered_snoc key ws w :
  numbered key (ws ++ [w]) = close_window point_id key w (numbered key ws).1 (numbered key ws).2.
Proof. unfold numbered. by rewrite foldl_app. Qed.
Lemma tokens_snoc w m : tokens (w ++ [m]) = tokens w + tokens_of m.
Proof. unfold tokens. rewrite fmap_app. induction w as [|x w IH]; cbn in *; lia. Qed.

Lemma full_snoc ws w m :
  full (ws ++ [w]) → WINDOW_TOKENS < tokens w + tokens_of m ∨ WINDOW_MAX_MSGS ≤ length w → full ((ws ++ [w]) ++ [[m]]).
Proof.
  intros H Hm i x x' Hx Hx'. destruct (decide (S i < length (ws ++ [w]))) as [Hi|Hi].
  - rewrite lookup_app_l in Hx, Hx' by lia. by apply (H i).
  - pose proof (lookup_lt_Some _ _ _ Hx') as Hl. rewrite !length_app in *. cbn in *.
    rewrite lookup_app_r in Hx' by (rewrite length_app; cbn; lia). rewrite length_app in Hx'. cbn in Hx'.
    replace (S i - (length ws + 1)) with 0 in Hx' by lia. injection Hx' as <-. exists m. split; [done|].
    rewrite lookup_app_l, lookup_app_r in Hx by (rewrite ?length_app; cbn; lia).
    replace (i - length ws) with 0 in Hx by lia. by injection Hx as <-.
Qed.
Lemma full_grow ws w m : w ≠ [] → full (ws ++ [w]) → full (ws ++ [w ++ [m]]).
Proof.
  intros Hw H i x x' Hx Hx'. pose proof (lookup_lt_Some _ _ _ Hx') as Hl. rewrite length_app in Hl. cbn in Hl.
  rewrite lookup_app_l in Hx by lia. destruct (decide (S i < length ws)) as [Hi|Hi].
  - rewrite lookup_app_l in Hx' by lia. apply (H i); by rewrite lookup_app_l by lia.
  - rewrite lookup_app_r in Hx' by lia. replace (S i - length ws) with 0 in Hx' by lia. injection Hx' as <-.
    destruct (H i x w) as (m' & Hm & Hf).
    + by rewrite lookup_app_l by lia.
    + rewrite lookup_app_r by lia. by replace (S i - length ws) with 0 by lia.
    + exists m'. split; [by destruct w|done].
Qed.
Lemma full_one w : full [w].
Proof. intros [|i] x x' _ Hx'; done. Qed.

(** The loop, when a window is open. *)
Lemma window_steps key msgs : ∀ ws cur n,
  cur ≠ [] → n = tokens cur → Forall window_ok (ws ++ [cur]) → full (ws ++ [cur]) →
  ∃ ws' cur',
    foldl (window_step point_id key) ((numbered key ws).1, cur, n, (numbered key ws).2) msgs
      = ((numbered key ws').1, cur', tokens cur', (numbered key ws').2)
    ∧ concat (ws' ++ [cur']) = concat (ws ++ [cur]) ++ msgs
    ∧ Forall window_ok (ws' ++ [cur']) ∧ full (ws' ++ [cur']).
Proof.
  induction msgs as [|m msgs IH]; intros ws cur n Hc -> Ho Hf.
  { exists ws, cur. by rewrite app_nil_r. }
  cbn [foldl]. unfold window_step at 2. rewrite bool_decide_eq_false_2 by done. cbn [negb andb].
  destruct ((WINDOW_TOKENS <? _) || _) eqn:E.
  - assert (WINDOW_TOKENS < tokens cur + tokens_of m ∨ WINDOW_MAX_MSGS ≤ length cur) as H.
    { apply orb_true_iff in E as [E%Nat.ltb_lt|E%Nat.leb_le]; [by left|by right]. }
    rewrite (surjective_pairing (close_window _ _ _ _ _)). rewrite <- numbered_snoc.
    destruct (IH (ws ++ [cur]) [m] (tokens_of m)) as (ws' & cur' & -> & Hcc & Ho' & Hf'); [done|unfold tokens; cbn; lia| | |].
    + apply Forall_app. split; [done|]. apply Forall_singleton. split_and!; [done|cbn; unfold WINDOW_MAX_MSGS; lia|by left].
    + by apply full_snoc.
    + exists ws', cur'. split_and!; [done| |done|done]. rewrite Hcc, (concat_app (ws ++ [cur])). cbn [concat]. by rewrite <- app_assoc.
  - apply orb_false_iff in E as [E1%Nat.ltb_ge E2%Nat.leb_gt].
    destruct (IH ws (cur ++ [m]) (tokens cur + tokens_of m)) as (ws' & cur' & -> & Hcc & Ho' & Hf').
    + by destruct cur.
    + by rewrite tokens_snoc.
    + apply Forall_app in Ho as [Ho _]. apply Forall_app. split; [done|]. apply Forall_singleton.
      split_and!; [by destruct cur|rewrite length_app; cbn; lia|right]. by rewrite tokens_snoc.
    + by apply full_grow.
    + exists ws', cur'. split_and!; [done| |done|done]. rewrite Hcc, !concat_app. cbn [concat]. by rewrite !app_nil_r, <- !app_assoc.
Qed.

(** A chat is cut into windows that hold every message once and in order:
    each is one message, or at most 60 of them with at most 150 words; none ends
    while the next message would still fit; and the records are those of the
    windows, numbered as they come. *)
Theorem windows_keep_messages msgs key :
  ∃ ws, concat ws = msgs ∧ Forall window_ok ws ∧ full ws ∧ window_records point_id msgs key = (numbered key ws).1.
Proof.
  destruct msgs as [|m msgs].
  { exists []. split_and!; [done|constructor| |done]. by intros [|i] ? ? ?. }
  destruct (window_steps key msgs [] [m] (tokens_of m)) as (ws & cur & E & Hcc & Ho & Hf); cbn [app].
  - done.
  - unfold tokens. cbn. lia.
  - apply Forall_singleton. split_and!; [done|cbn; unfold WINDOW_MAX_MSGS; lia|by left].
  - apply full_one.
  - exists (ws ++ [cur]). split_and!; [by rewrite Hcc|done|done|].
    unfold window_records. cbn [foldl]. cbn [numbered foldl fst snd] in E.
    unfold window_step at 2. cbn -[window_step foldl numbered tokens_of].
    replace (0 + tokens_of m) with (tokens_of m) by lia. rewrite E. by rewrite numbered_snoc.
Qed.
End windows.

(** *** Objects in the text of an export *)

(** The text of a JSON string after its quote, and of an object after its brace,
    by the characters that matter to the scan. *)
Inductive string_body : text → Prop :=
  | sb_nil : string_body []
  | sb_esc c s : string_body s → string_body (92 :: c :: s)%Z
  | sb_char c s : c ≠ 34%Z → c ≠ 92%Z → string_body s → string_body (c :: s).
Inductive object_body : text → Prop :=
  | ob_nil : object_body []
  | ob_char c t : c ≠ 34%Z → c ≠ 123%Z → c ≠ 125%Z → object_body t → object_body (c :: t)
  | ob_str s t : string_body s → object_body t → object_body (34%Z :: s ++ 34%Z :: t)
  | ob_obj o t : object_body o → object_body t → object_body (123%Z :: o ++ 125%Z :: t).
Definition object_text (o : text) : Prop := ∃ b, object_body b ∧ o = 123%Z :: b ++ [125%Z].
(** What stands between the objects of an array. *)
Definition separator (s : text) : Prop := Forall (λ c, c ≠ 34 ∧ c ≠ 123 ∧ c ≠ 125 ∧ c ≠ 93)%Z s.

Ltac scan_char := cbn [scan_objects in_str esc depth open_obj grow_obj fmap option_fmap option_map app];
  repeat match goal with
  | H : ?a ≠ ?b |- context [(?a =? ?b)%Z] => rewrite (proj2 (Z.eqb_neq a b) H)
  | |- context [(?a =? ?b)%Z] => first [change (a =? b)%Z with true | change (a =? b)%Z with false]
  end; cbv iota.

Lemma scan_string s d o out rest :
  string_body s → scan_objects (mkScan d true false (Some o)) out (s ++ 34%Z :: rest)
  = scan_objects (mkScan d false false (Some (o ++ s ++ [34%Z]))) out rest.
Proof.
  intros H. revert o. induction H as [|c s _ IH|c s H1 H2 _ IH]; intros o; scan_char; [done| |].
  - cbn [scan_objects in_str esc depth open_obj grow_obj fmap option_fmap option_map]. rewrite IH. by rewrite <- !app_assoc.
  - rewrite IH. by rewrite <- !app_assoc.
Qed.

Lemma scan_object b d o out rest :
  object_body b → (1 <= d)%Z → scan_objects (mkScan d false false (Some o)) out (b ++ rest)
  = scan_objects (mkScan d false false (Some (o ++ b))) out rest.
Proof.
  intros H. revert d o rest. induction H as [|c t H1 H2 H3 _ IH|s t Hs _ IH|x t _ IHx _ IH]; intros d o rest Hd.
  - by rewrite app_nil_r.
  - scan_char. replace (d =? 0)%Z with false by lia. rewrite andb_false_r. rewrite IH by done. by rewrite <- app_assoc.
  - scan_char. rewrite <- app_assoc. cbn [app]. rewrite scan_string by done. rewrite IH by done. do 3 f_equal.
    by rewrite <- !app_assoc.
  - scan_char. replace (d =? 0)%Z with false by lia. rewrite <- app_assoc. cbn [app]. rewrite IHx by lia. scan_char.
    replace (d + 1 - 1)%Z with d by lia. replace (d =? 0)%Z with false by lia. rewrite IH by done. do 3 f_equal.
    by rewrite <- !app_assoc.
Qed.

Lemma scan_object_text o out rest :
  object_text o → scan_objects (mkScan 0 false false None) out (o ++ rest)
  = scan_objects (mkScan 0 false false None) (out ++ [o]) rest.
Proof.
  intros (b & Hb & ->). cbn [app]. scan_char. rewrite <- app_assoc. change (0 + 1)%Z with 1%Z.
  rewrite scan_object by done. cbn [app]. scan_char. done.
Qed.
Lemma scan_separator s out rest :
  separator s → scan_objects (mkScan 0 false false None) out (s ++ rest) = scan_objects (mkScan 0 false false None) out rest.
Proof. induction 1 as [|c s (H1 & H2 & H3 & H4) _ IH]; [done|]. scan_char. cbn [andb]. exact IH. Qed.

(** An object cut short adds nothing. *)
Lemma cut_string s d o out p : string_body s → p `prefix_of` s → scan_objects (mkScan d true false o) out p = out.
Proof.
  intros H. revert o p. induction H as [|c s _ IH|c s H1 H2 _ IH]; intros o p Hp.
  - by apply prefix_nil_inv in Hp as ->.
  - destruct p as [|x p]; [done|]. apply prefix_cons_inv_1 in Hp as Hx. subst x. apply prefix_cons_inv_2 in Hp.
    scan_char. destruct p as [|x p]; [done|]. apply prefix_cons_inv_2 in Hp. cbn [scan_objects in_str esc]. by apply IH.
  - destruct p as [|x p]; [done|]. apply prefix_cons_inv_1 in Hp as Hx. subst x. apply prefix_cons_inv_2 in Hp.
    scan_char. by apply IH.
Qed.
Lemma prefix_app_cases (p a b : text) : p `prefix_of` a ++ b → p `prefix_of` a ∨ ∃ q, p = a ++ q ∧ q `prefix_of` b.
Proof. intros [k E]. apply app_eq_inv in E as [(l & -> & ->)|(l & -> & ->)]; [left; by eexists|right]. exists l. split; [done|by eexists]. Qed.

Lemma cut_object b d o out p :
  object_body b → (1 <= d)%Z → p `prefix_of` b → scan_objects (mkScan d false false (Some o)) out p = out.
Proof.
  intros H. revert d o p. induction H as [|c t H1 H2 H3 _ IH|s t Hs _ IH|x t Hx IHx _ IH]; intros d o p Hd Hp.
  - by apply prefix_nil_inv in Hp as ->.
  - destruct p as [|y p]; [done|]. apply prefix_cons_inv_1 in Hp as Hy. subst y. apply prefix_cons_inv_2 in Hp.
    scan_char. replace (d =? 0)%Z with false by lia. rewrite andb_false_r. by apply IH.
  - destruct p as [|y p]; [done|]. apply prefix_cons_inv_1 in Hp as Hy. subst y. apply prefix_cons_inv_2 in Hp.
    scan_char. apply prefix_app_cases in Hp as [Hp|(q & -> & Hq)]; [by eapply cut_string|].
    destruct q as [|y q]; [rewrite app_nil_r; by eapply cut_string|].
    apply prefix_cons_inv_1 in Hq as Hy. subst y. apply prefix_cons_inv_2 in Hq. rewrite scan_string by done. by apply IH.
  - destruct p as [|y p]; [done|]. apply prefix_cons_inv_1 in Hp as Hy. subst y. apply prefix_cons_inv_2 in Hp.
    scan_char. replace (d =? 0)%Z with false by lia. apply prefix_app_cases in Hp as [Hp|(q & -> & Hq)]; [apply IHx; [lia|done]|].
    destruct q as [|y q]; [rewrite app_nil_r; apply IHx; [lia|done]|].
    apply prefix_cons_inv_1 in Hq as Hy. subst y. apply prefix_cons_inv_2 in Hq. rewrite scan_object by (done || lia). scan_char.
    replace (d + 1 - 1)%Z with d by lia. replace (d =? 0)%Z with false by lia. by apply IH.
Qed.

(** An export that is cut off in the middle of a message still yields every
    message before the cut: the scan finds exactly the objects that are whole,
    whatever braces, brackets, quotes and escapes stand in their strings. *)
Theorem cut_export_keeps_messages (objs : list (text * text)) b cut :
  Forall (λ os, object_text os.1 ∧ separator os.2) objs → object_body b → cut = [] ∨ (∃ p, cut = 123%Z :: p ∧ p `prefix_of` b) →
  split_objects (concat (map (λ os, os.1 ++ os.2) objs) ++ cut) = map fst objs.
Proof.
  intros H Hb Hc. unfold split_objects. change (map fst objs) with ([] ++ map fst objs). generalize ([] : list text) as out.
  induction H as [|[o s] objs [Ho Hs] _ IH]; intros out; cbn [map concat app fst].
  - rewrite app_nil_r. destruct Hc as [->|(p & -> & Hp)]; [done|]. scan_char. change (0 + 1)%Z with 1%Z.
    by apply cut_object with b.
  - rewrite <- !app_assoc, scan_object_text, scan_separator by done. rewrite IH. by rewrite <- app_assoc.
Qed.
Lemma cut_export_keeps_messages_witness :
  split_objects ((lit "{x]{}}" ++ lit ", ") ++ lit "{y") = [lit "{x]{}}"].
Proof.
  apply (cut_export_keeps_messages [(lit "{x]{}}", lit ", ")] (lit "yz") (lit "{y")).
  - apply Forall_singleton. split.
    + exists (lit "x]{}"). split; [|reflexivity]. repeat (apply ob_char; [done..|]). apply (ob_obj [] []); constructor.
    + repeat constructor; done.
  - repeat (apply ob_char; [done..|]). constructor.
  - right. exists (lit "y"). split; [reflexivity|]. by exists (lit "z").
Defined.

(** *** What is left of a valid export *)

Section extraction.
Context (point_id : text → Z → string) (from_str : text → option value) (from_slice : list Z → option value).
Context (html2text : list Z → text) (which_pdftotext : bool) (pdftotext : path → option (list Z)).

(** The strings of a value. *)
Fixpoint strings (v : value) : list text :=
  match v with
  | VStr s => [s]
  | VArr l => flat_map strings l
  | VObj m => flat_map (λ kx, strings kx.2) m
  | _ => []
  end.

Fixpoint json_to_text_chars (c : Z) (v : value) : c ∈ Normalize.json_to_text v → c = 10%Z ∨ ∃ s, s ∈ strings v ∧ c ∈ s.
Proof.
  destruct v as [| | | |s|l|m]; cbn [Normalize.json_to_text strings]; try by intros ?%not_elem_of_nil.
  - destruct s as [|x s]; [by intros ?%not_elem_of_nil|]. intros [H|H%list_elem_of_singleton]%elem_of_app; [|by left].
    right. exists (x :: s). split; [apply list_elem_of_here|done].
  - induction l as [|v l IH]; cbn [flat_map]; [by intros ?%not_elem_of_nil|]. intros [H|H]%elem_of_app.
    + destruct (json_to_text_chars c v H) as [|(s & Hs & Hc)]; [by left|]. right. exists s. split; [|done].
      apply elem_of_app. by left.
    + destruct (IH H) as [|(s & Hs & Hc)]; [by left|]. right. exists s. split; [|done]. apply elem_of_app. by right.
  - induction m as [|[k v] m IH]; cbn [flat_map]; [by intros ?%not_elem_of_nil|]. intros [H|H]%elem_of_app.
    + cbn [fst snd] in H. destruct (Normalize.is_denied k); [by apply not_elem_of_nil in H|].
      destruct (json_to_text_chars c v H) as [|(s & Hs & Hc)]; [by left|]. right. exists s. split; [|done].
      apply elem_of_app. by left.
    + destruct (IH H) as [|(s & Hs & Hc)]; [by left|]. right. exists s. split; [|done]. apply elem_of_app. by right.
Qed.

Lemma find_sub_absent c pat s : c ∈ pat → c ∉ s → find_sub pat s = None.
Proof.
  intros Hp Hs. assert (∀ s, c ∉ s → starts_with s pat = false) as Hw.
  { intros t Ht. destruct (starts_with t pat) eqn:E; [|done]. apply starts_with_spec in E as [r ->]. contradict Ht.
    apply elem_of_app. by left. }
  induction s as [|x s IH]; cbn [find_sub]; rewrite Hw by done; [done|]. rewrite IH; [done|].
  intros H. apply Hs. by apply list_elem_of_further.
Qed.

(** The JSON export of a chat is extracted before its pipeline sees it: what
    reaches the pipeline is the strings of the export, and the pipeline looks
    for its keys in them. So an export that is valid JSON, and whose strings
    hold no double quote, is indexed as nothing at all; only one that does not
    parse is read as the pipeline means to. *)
Theorem valid_export_yields_nothing st p max bytes v key :
  file_len st p = Ok (Z.of_nat (length bytes)) → (Z.of_nat (length bytes) <= max)%Z → Store.read st p = Ok bytes →
  map to_ascii_lowercase (default [] (extension p)) = lit "json" →
  from_slice bytes = Some v → (∀ s, s ∈ strings v → 34%Z ∉ s) → trim (Normalize.json_to_text v) ≠ [] →
  Extract.extract_with_limit from_str from_slice html2text which_pdftotext pdftotext st p max
    = Ok (Extract.TextOf (Normalize.json_to_text v))
  ∧ records point_id from_str Telegram key (Normalize.json_to_text v) = [].
Proof.
  intros Hl Hm Hr He Hv Hs Ht. split.
  - unfold Extract.extract_with_limit. rewrite Hl. replace (max <? _)%Z with false by lia. rewrite He.
    change (bool_decide (lit "json" = lit "pdf")) with false. change (bool_decide (lit "json" = lit "html")) with false.
    change (bool_decide (lit "json" = lit "htm")) with false. change (bool_decide (lit "json" = lit "json")) with true.
    cbn [orb]. f_equal. unfold Extract.extract_json. rewrite Hr, Hv. unfold Extract.text_or_unsupported. by destruct (trim _).
  - assert (34%Z ∉ Normalize.json_to_text v) as Hq.
    { intros [|(s & Hin & Hc)]%json_to_text_chars; [done|]. by apply (Hs s Hin). }
    unfold records, telegram_records, telegram_messages, json_parse, array_start.
    assert (34%Z ∈ [34%Z] ++ lit "messages" ++ [34%Z]) as H1 by apply list_elem_of_here.
    assert (34%Z ∈ MESSAGE_MARKER) as H2 by (apply (bool_decide_unpack _); by vm_compute).
    rewrite (find_sub_absent 34 _ _ H1 Hq). unfold html_parse.
    assert (∀ n, split_blocks n (Normalize.json_to_text v) = []) as Hb; [|by rewrite Hb].
    intros [|n]; [done|]. cbn [split_blocks]. by rewrite (find_sub_absent 34 _ _ H2 Hq).
Qed.
End extraction.

Definition sample_export : value :=
  VObj [(lit "messages", VArr [VObj [(lit "id", VInt 11); (lit "from", VStr (lit "Alice")); (lit "text", VStr (lit "hello"))]])].
Lemma valid_export_yields_nothing_witness :
  let st : store := {[ components (lit "/e/result.json") := NFile (lit "{}") ]} in
  let slice := λ _ : list Z, Some sample_export in
  Store.read st (lit "/e/result.json") = Ok (lit "{}")
  ∧ Extract.extract_with_limit (λ _, None) slice (λ _, []) false (λ _, None) st (lit "/e/result.json") 100
    = Ok (Extract.TextOf (Normalize.json_to_text sample_export))
  ∧ records (λ _ _, "") (λ _, None) Telegram (lit "/e/result.json") (Normalize.json_to_text sample_export) = [].
Proof.
  intros st slice. split; [by vm_compute|].
  apply (valid_export_yields_nothing (λ _ _, "") (λ _, None) slice (λ _, []) false (λ _, None) st (lit "/e/result.json") 100 (lit "{}")
           sample_export (lit "/e/result.json")); [by vm_compute..| |by vm_compute].
  intros s Hs. assert (Forall (λ s, 34%Z ∉ s) (strings sample_export)) as H by (apply (bool_decide_unpack _); by vm_compute).
  eapply Forall_forall in H; done.
Defined.

(** The lines a transcript is turned into are not the lines its pipeline parses:
    with any parser that takes no bare word for an object, no turn is left. *)
Example transcript_yields_nothing :
  let turn := VObj [(lit "role", VStr (lit "user")); (lit "content", VStr (lit "hello there"))] in
  let parse := λ s : text, if bool_decide (s = lit "{turn}") then Some turn else None in
  Normalize.jsonl_to_text parse (lit "{turn}") = lit "user" ++ [10%Z] ++ lit "hello there" ++ [10%Z]
  ∧ transcript_records (λ _ _, "") parse (lit "k") (Normalize.jsonl_to_text parse (lit "{turn}")) = []
  ∧ length (transcript_records (λ _ _, "") parse (lit "k") (lit "{turn}")) = 1.
Proof. vm_compute. split_and!; done. Qed.

End Pipeline.

(** ** Sparse vectors *)

Module Sparse.

Definition FNV_OFFSET : Z := 14695981039346656037.
Definition FNV_PRIME : Z := 1099511628211.
Definition token_hash (bytes : list Z) : Z :=
  foldl (λ h b, (Z.lxor h b * FNV_PRIME) mod U64_MOD)%Z FNV_OFFSET bytes.
Definition token_index (token : text) : Z :=
  let h := token_hash (as_bytes token) in Z.lxor (Z.shiftr h 32) (Z.land h 4294967295).

Section encode.
(** The Unicode tables, and the weight of a count, a [f32]. *)
Context (is_alphanumeric : Z → bool) (to_lowercase : text → text) {F : Type} (tf_weight : Z → F).

Fixpoint split_tokens (acc s : text) : list text :=
  match s with
  | [] => flush acc
  | c :: s => if is_alphanumeric c then split_tokens (acc ++ [c]) s else flush acc ++ split_tokens [] s
  end.
Definition tokenize (t : text) : list text := map to_lowercase (split_tokens [] t).
(** An entry of the [BTreeMap] of counts incremented. *)
Fixpoint bump (i : Z) (counts : list (Z * Z)) : list (Z * Z) :=
  match counts with
  | [] => [(i, 1%Z)]
  | (j, n) :: counts' =>
      if (i =? j)%Z then (j, (n + 1)%Z) :: counts'
      else if (i <? j)%Z then (i, 1%Z) :: counts else (j, n) :: bump i counts'
  end.
Definition counts (tokens : list text) : list (Z * Z) := foldl (λ c t, bump (token_index t) c) [] tokens.
Definition sparse_encode (t : text) : list Z * list F :=
  let c := counts (tokenize t) in (map fst c, map (λ x, tf_weight x.2) c).
End encode.

(** *** The vector is that of the bag of tokens *)

Definition sorted_counts (l : list (Z * Z)) : Prop := StronglySorted (λ a b, (a.1 < b.1)%Z) l.
Fixpoint count_of (i : Z) (l : list (Z * Z)) : Z :=
  match l with [] => 0%Z | (j, n) :: l => ((if (j =? i)%Z then n else 0) + count_of i l)%Z end.

Lemma bump_count i j l : count_of j (bump i l) = (count_of j l + if (i =? j)%Z then 1 else 0)%Z.
Proof.
  induction l as [|[k n] l IH]; cbn [bump count_of]; [lia|].
  destruct (i =? k)%Z eqn:E; [apply Z.eqb_eq in E as ->; cbn [count_of]; destruct (k =? j)%Z; lia|].
  destruct (i <? k)%Z; cbn [count_of]; rewrite ?IH; lia.
Qed.
Lemma bump_bound i b l : (b < i)%Z → Forall (λ x, (b < x.1)%Z) l → Forall (λ x, (b < x.1)%Z) (bump i l).
Proof.
  intros Hi. induction 1 as [|[k n] l Hk Hl IH]; cbn [bump]; [by constructor|].
  destruct (i =? k)%Z; [by constructor|]. destruct (i <? k)%Z; by repeat constructor.
Qed.
Lemma bump_sorted i l : sorted_counts l → sorted_counts (bump i l).
Proof.
  unfold sorted_counts. induction 1 as [|[k n] l Hl IH Hk]; cbn [bump]; [by repeat constructor|].
  destruct (i =? k)%Z eqn:E; [by constructor|]. destruct (i <? k)%Z eqn:E'.
  - apply Z.ltb_lt in E'. constructor; [by constructor|]. constructor; [done|]. eapply Forall_impl; [done|].
    cbn. intros x ?. lia.
  - apply Z.ltb_ge in E'. apply Z.eqb_neq in E. constructor; [done|]. apply bump_bound; [cbn; lia|done].
Qed.
Lemma bump_positive i l : Forall (λ x, (0 < x.2)%Z) l → Forall (λ x, (0 < x.2)%Z) (bump i l).
Proof.
  induction 1 as [|[k n] l Hk Hl IH]; cbn [bump]; [by repeat constructor|].
  destruct (i =? k)%Z; [constructor; [cbn in *; lia|done]|]. destruct (i <? k)%Z; by repeat constructor.
Qed.

Lemma counts_snoc ts t : counts (ts ++ [t]) = bump (token_index t) (counts ts).
Proof. unfold counts. by rewrite foldl_app. Qed.
Lemma counts_ok ts : sorted_counts (counts ts) ∧ Forall (λ x, (0 < x.2)%Z) (counts ts).
Proof.
  induction ts as [|t ts [IH1 IH2]] using rev_ind; [by repeat constructor|]. rewrite counts_snoc.
  split; [by apply bump_sorted|by apply bump_positive].
Qed.
Lemma counts_count ts i : count_of i (counts ts) = Z.of_nat (length (filter (λ t, token_index t = i) ts)).
Proof.
  induction ts as [|t ts IH] using rev_ind; [done|]. rewrite counts_snoc, bump_count, IH, filter_app, length_app.
  rewrite filter_cons, filter_nil. destruct (decide (token_index t = i)) as [->|Hne].
  - rewrite Z.eqb_refl. cbn. lia.
  - rewrite (proj2 (Z.eqb_neq _ _) Hne). cbn. lia.
Qed.
Lemma count_of_zero i l : Forall (λ x, (i < x.1)%Z) l → count_of i l = 0%Z.
Proof.
  induction 1 as [|[k n] l Hk _ IH]; [done|]. cbn [count_of fst] in *. rewrite IH.
  replace (k =? i)%Z with false by lia. lia.
Qed.

(** A sorted list of positive counts is determined by them. *)
Lemma sorted_counts_eq l l' :
  sorted_counts l → sorted_counts l' → Forall (λ x, (0 < x.2)%Z) l → Forall (λ x, (0 < x.2)%Z) l' →
  (∀ i, count_of i l = count_of i l') → l = l'.
Proof.
  intros Hs. revert l'. induction Hs as [|[k n] l Hs IH Hk]; intros l' Hs' Hp Hp' H.
  - destruct l' as [|[k' n'] l']; [done|]. apply Forall_cons in Hp' as [Hp' _]. apply StronglySorted_inv in Hs' as [_ Hk'].
    pose proof (H k') as E. cbn [count_of] in E. rewrite Z.eqb_refl, (count_of_zero k') in E by done. cbn in *. lia.
  - apply Forall_cons in Hp as [Hn Hp]. destruct l' as [|[k' n'] l'].
    { pose proof (H k) as E. cbn [count_of] in E. rewrite Z.eqb_refl, (count_of_zero k) in E by done. cbn in *. lia. }
    apply Forall_cons in Hp' as [Hn' Hp']. apply StronglySorted_inv in Hs' as [Hs' Hk']. cbn in Hn, Hn'.
    assert (k = k') as <-.
    { destruct (Z.lt_trichotomy k k') as [Hlt|[|Hlt]]; [|done|]; exfalso.
      - pose proof (H k) as E. cbn [count_of] in E. rewrite Z.eqb_refl in E. replace (k' =? k)%Z with false in E by lia.
        rewrite (count_of_zero k l), (count_of_zero k l') in E; [lia| |exact Hk]. eapply Forall_impl; [exact Hk'|]. cbn. intros; lia.
      - pose proof (H k') as E. cbn [count_of] in E. rewrite Z.eqb_refl in E. replace (k =? k')%Z with false in E by lia.
        rewrite (count_of_zero k' l), (count_of_zero k' l') in E; [lia|exact Hk'|]. eapply Forall_impl; [exact Hk|]. cbn. intros; lia. }
    assert (n = n') as <-.
    { pose proof (H k) as E. cbn [count_of] in E. rewrite Z.eqb_refl, !count_of_zero in E by done. lia. }
    f_equal. apply IH; [done..|]. intros i. pose proof (H i) as E. cbn [count_of] in E. lia.
Qed.

(** The sparse vector of a text depends on how often each token occurs and
    on nothing else: two texts with the same tokens in any order have the same
    vector, its indices strictly ascend, so that none is repeated, and the
    counts it weighs are those of the tokens of each index. *)
Theorem sparse_is_bag_of_words (is_alphanumeric : Z → bool) (to_lowercase : text → text) {F} (tf_weight : Z → F) s t :
  tokenize is_alphanumeric to_lowercase s ≡ₚ tokenize is_alphanumeric to_lowercase t →
  sparse_encode is_alphanumeric to_lowercase tf_weight s = sparse_encode is_alphanumeric to_lowercase tf_weight t
  ∧ StronglySorted Z.lt (sparse_encode is_alphanumeric to_lowercase tf_weight s).1
  ∧ ∀ i, count_of i (counts (tokenize is_alphanumeric to_lowercase s))
         = Z.of_nat (length (filter (λ w, token_index w = i) (tokenize is_alphanumeric to_lowercase t))).
Proof.
  intros H. destruct (counts_ok (tokenize is_alphanumeric to_lowercase s)) as [Hs Hp].
  destruct (counts_ok (tokenize is_alphanumeric to_lowercase t)) as [Hs' Hp'].
  assert (∀ i, count_of i (counts (tokenize is_alphanumeric to_lowercase s))
         = Z.of_nat (length (filter (λ w, token_index w = i) (tokenize is_alphanumeric to_lowercase t)))) as Hc.
  { intros i. rewrite counts_count. by rewrite H. }
  split_and!; [|unfold sparse_encode; cbn [fst]|exact Hc].
  - unfold sparse_encode. rewrite (sorted_counts_eq _ _ Hs Hs' Hp Hp'); [done|]. intros i. by rewrite Hc, counts_count.
  - clear -Hs. induction Hs as [|x l _ IH Hx]; [constructor|]. constructor; [done|]. by apply Forall_fmap.
Qed.
Lemma sparse_is_bag_of_words_witness :
  let alnum := λ c : Z, negb (c =? 32)%Z in
  tokenize alnum id (lit "b a b") ≡ₚ tokenize alnum id (lit "b b a")
  ∧ sparse_encode alnum id id (lit "b a b") = sparse_encode alnum id id (lit "b b a").
Proof.
  intros alnum. assert (tokenize alnum id (lit "b a b") ≡ₚ tokenize alnum id (lit "b b a")) as H.
  { change ([lit "b"; lit "a"; lit "b"] ≡ₚ [lit "b"; lit "b"; lit "a"]). constructor. constructor. }
  split; [exact H|]. apply (sparse_is_bag_of_words alnum id id _ _ H).
Defined.

End Sparse.
