(* ===== verification/KnowIndex.v ===== *)
(** * The knowledge index

    [crates/sy-knowledge/src/knowledge/]: the registered sources ([sources.rs]),
    the folder manifests ([manifest.rs]), the index on disk ([state.rs]), the
    indexing pass of [cli.rs] ([collect_jobs], [run_index], [flush_batch]) and
    the passes and the loop of [daemon.rs] that run it. The vector store, the
    embedder, the directory walker, the globs and TOML are services and
    libraries outside the source: the store is an interface with its laws, the
    others are parameters. *)

From S2P Require Import Prelude Lists Text Paths Lines Utf8 Store KnowText.
Import Lists Text Paths Lines Utf8 Store Pipeline.
Local Open Scope string_scope.
Local Open Scope nat_scope.
Local Open Scope list_scope.

(** ** Sources *)

Module Sources.

Inductive SourceMode : Type := Explicit | Discover.
#[export] Instance SourceMode_eq_dec : EqDecision SourceMode.
Proof. solve_decision. Defined.
Record Source := mkSource { spath : text; enabled : bool; mode : SourceMode; sname : text; skind : SourceKind }.
Record KnowledgeSection := mkSection {
  schedule : option text; embedding_model : option text; qdrant_port : option Z; discover_home : option bool;
  cpu_throttle_ms : option Z; cpu_max_percent_ : option Z; nice : option Z; mcp_enabled_ : option bool;
  sources : list Source
}.
Definition set_sources (l : list Source) (k : KnowledgeSection) : KnowledgeSection :=
  mkSection (schedule k) (embedding_model k) (qdrant_port k) (discover_home k) (cpu_throttle_ms k) (cpu_max_percent_ k)
    (nice k) (mcp_enabled_ k) l.
Definition set_schedule_ (s : option text) (k : KnowledgeSection) : KnowledgeSection :=
  mkSection s (embedding_model k) (qdrant_port k) (discover_home k) (cpu_throttle_ms k) (cpu_max_percent_ k) (nice k)
    (mcp_enabled_ k) (sources k).
Definition set_mcp (b : bool) (k : KnowledgeSection) : KnowledgeSection :=
  mkSection (schedule k) (embedding_model k) (qdrant_port k) (discover_home k) (cpu_throttle_ms k) (cpu_max_percent_ k)
    (nice k) (Some b) (sources k).

Definition AGENT_HOMES : list string :=
  ["/.claude/"; "/.codex/"; "/.cursor/"; "/.gemini/"; "/.agents/"; "/.antigravity/"; "/.hermes/"].
Definition classify_kind (p : text) : SourceKind :=
  let lower := map to_ascii_lowercase p in
  if contains lower (lit ".claude/projects") then ClaudeTranscripts
  else if existsb (λ h, contains lower (lit h)) AGENT_HOMES then AgentHistory
  else if contains lower (lit "telegram") || contains lower (lit "result.json") || contains lower (lit "chatexport") then Telegram
  else Generic.
Definition default_name (p : text) : text := match file_name p with Some (c :: n) => c :: n | _ => p end.

(** [parse_interval]: seconds, the products at 64 bits as a release build has
    them. *)
Fixpoint span_digits (s : text) : text * text :=
  match s with
  | c :: s' => if ((48 <=? c) && (c <=? 57))%Z then let '(a, b) := span_digits s' in (c :: a, b) else ([], s)
  | [] => ([], [])
  end.
Inductive IntervalError : Type := EmptyInterval | NotANumber | UnknownUnit (u : text) | ZeroInterval.
Definition interval_unit (u : text) : option Z :=
  if bool_decide (u = []) || bool_decide (u = lit "s") then Some 1%Z
  else if bool_decide (u = lit "m") then Some 60%Z
  else if bool_decide (u = lit "h") then Some 3600%Z
  else if bool_decide (u = lit "d") then Some 86400%Z
  else None.
Definition parse_interval (s : text) : result Z IntervalError :=
  match trim s with
  | [] => Err EmptyInterval
  | s =>
      let '(num, u) := span_digits s in
      match parse_usize num with
      | None => Err NotANumber
      | Some n =>
          match interval_unit (if bool_decide (u = []) then lit "s" else u) with
          | None => Err (UnknownUnit u)
          | Some k => let secs := ((n * k) mod U64_MOD)%Z in if (secs =? 0)%Z then Err ZeroInterval else Ok secs
          end
      end
  end.

Section paths.
(** The home and working directories, and [fs::canonicalize]. *)
Context (home cwd : option path) (canonicalize : path → option path).

Definition expand (p : path) : result path text :=
  match strip_prefix (lit "~/") p with
  | Some rest => match home with Some h => Ok (join h rest) | None => Err (lit "HOME not set") end
  | None =>
      if bool_decide (p = lit "~") then match home with Some h => Ok h | None => Err (lit "HOME not set") end
      else if is_absolute p then Ok p
      else match cwd with Some c => Ok (join c p) | None => Err (lit "cwd") end
  end.
(** [Path::strip_prefix], by components. *)
Definition path_strip (base p : path) : option path :=
  if decide (components base `prefix_of` components p)
  then Some (from_components (drop (length (components base)) (components p))) else None.
Definition canonicalize_for_storage (p : path) : result text text :=
  let stored (abs : path) :=
    let canon := default abs (canonicalize abs) in
    match home with
    | None => canon
    | Some h => match path_strip h canon with Some s => lit "~/" ++ s | None => canon end
    end in
  if is_absolute p then Ok (stored p) else match cwd with Some c => Ok (stored (join c p)) | None => Err (lit "cwd") end.
Definition resolved (p : text) : path :=
  let q := match expand p with Ok q => q | Err _ => p end in default q (canonicalize q).
Definition same_path (a b : text) : bool := path_eq (resolved a) (resolved b).

(** [add], [remove], [set_schedule] and [set_mcp_enabled], on the section that is
    loaded, to the one that is written. *)
Definition add (p : path) (disabled : bool) (m : SourceMode) (k : KnowledgeSection)
    : result (bool * KnowledgeSection) text :=
  match canonicalize_for_storage p with
  | Err e => Err e
  | Ok abs =>
      if existsb (λ s, same_path (spath s) abs) (sources k) then Ok (false, k)
      else Ok (true, set_sources (sources k ++ [mkSource abs (negb disabled) m (default_name abs) (classify_kind abs)]) k)
  end.
Definition remove (p : path) (k : KnowledgeSection) : result (bool * KnowledgeSection) text :=
  match canonicalize_for_storage p with
  | Err e => Err e
  | Ok abs =>
      let kept := List.filter (λ s, negb (same_path (spath s) abs)) (sources k) in
      if length kept =? length (sources k) then Ok (false, k) else Ok (true, set_sources kept k)
  end.
Definition set_schedule (interval : text) (k : KnowledgeSection) : result KnowledgeSection IntervalError :=
  match parse_interval interval with Err e => Err e | Ok _ => Ok (set_schedule_ (Some interval) k) end.
Definition set_mcp_enabled (b : bool) (k : KnowledgeSection) : KnowledgeSection := set_mcp b k.

Definition roots (m : SourceMode) (k : KnowledgeSection) : list path :=
  map (λ s, match expand (spath s) with Ok q => q | Err _ => spath s end)
    (filter (λ s, enabled s = true ∧ mode s = m) (sources k)).
Definition enabled_paths (k : KnowledgeSection) : list path := roots Explicit k.
Definition discover_roots (k : KnowledgeSection) : list path := roots Discover k.
Definition kind_for_path (k : option KnowledgeSection) (root : path) : SourceKind :=
  match k ≫= λ k, List.find (λ s, same_path (spath s) root) (sources k) with
  | Some s => skind s
  | None => classify_kind root
  end.
End paths.

(** The settings an environment variable overrides; [k] is the section when it
    loads. *)
Definition DEFAULT_SCHEDULE : text := lit "15m".
Definition schedule_interval (k : option KnowledgeSection) : text := default DEFAULT_SCHEDULE (k ≫= schedule).
Definition env_true (v : text) : bool := existsb (λ t, bool_decide (lit t = v)) ["1"; "true"; "yes"; "on"].
Definition discover_home_enabled (env : option text) (k : option KnowledgeSection) : bool :=
  match env with Some v => env_true v | None => default true (k ≫= discover_home) end.
Definition mcp_enabled (env : option text) (k : option KnowledgeSection) : bool :=
  match env with Some v => env_true v | None => default true (k ≫= mcp_enabled_) end.
Definition cpu_throttle (env : option text) (k : option KnowledgeSection) : Duration :=
  match env ≫= parse_usize with Some n => from_millis n | None => from_millis (default 0%Z (k ≫= cpu_throttle_ms)) end.
Definition percent_ok (n : Z) : bool := (1 <=? n)%Z && (n <=? 100)%Z.
Definition parse_u8 (s : text) : option Z :=
  match parse_usize s with Some n => if (n <? 256)%Z then Some n else None | None => None end.
Definition cpu_max_percent (env : option text) (k : option KnowledgeSection) : option Z :=
  match env ≫= parse_u8 with
  | Some n => if percent_ok n then Some n else None
  | None => match k ≫= cpu_max_percent_ with Some n => if percent_ok n then Some n else None | None => None end
  end.

End Sources.

(** ** Folder manifests *)

Module KManifest.

Definition MANIFEST_FILENAME : text := lit "qdr.toml".
Record ManifestSection := mkMSection {
  s_name : option text; s_enabled : option bool; s_include : option (list text); s_exclude : option (list text);
  s_max_depth : option Z; s_max_file_bytes : option Z; s_respect_gitignore : option bool;
  s_follow_symlinks : option bool; s_schedule : option text; s_tags : option (list text)
}.
Record QdrManifest := mkManifest {
  folder : path; mname : text; menabled : bool; include : list text; exclude : list text; max_depth : option Z;
  max_file_bytes : Z; respect_gitignore : bool; follow_symlinks : bool; mschedule : option text; tags : list text
}.
Definition load (from_str : text → option ManifestSection) (st : store) (dir : path) : option QdrManifest :=
  match read_to_string st (join dir MANIFEST_FILENAME) with
  | Err _ => None
  | Ok body =>
      match from_str body with
      | None => None
      | Some s =>
          Some (mkManifest dir (match s_name s with Some n => n | None => default (lit "qdr") (file_name dir) end)
                  (default true (s_enabled s)) (default [] (s_include s)) (default [] (s_exclude s)) (s_max_depth s)
                  (default Extract.DEFAULT_MAX_BYTES (s_max_file_bytes s)) (default true (s_respect_gitignore s))
                  (default false (s_follow_symlinks s)) (s_schedule s) (default [] (s_tags s)))
      end
  end.

(** [ManifestGlobFilter]: a compiled glob set is a predicate. *)
Record GlobFilter := mkFilter { groot : path; ginclude : option (path → bool); gexclude : option (path → bool) }.
Section globs.
Context (build : list text → option (path → bool)).
Definition compile_set (globs : list text) : option (option (path → bool)) :=
  match globs with [] => Some None | _ => match build globs with Some g => Some (Some g) | None => None end end.
(** [glob_filter]: [None] when a glob is invalid. *)
Definition glob_filter (m : QdrManifest) : option (option GlobFilter) :=
  if bool_decide (include m = []) && bool_decide (exclude m = []) then Some None
  else match compile_set (include m), compile_set (exclude m) with
       | Some i, Some e => Some (Some (mkFilter (folder m) i e))
       | _, _ => None
       end.
End globs.
Definition matches (f : GlobFilter) (p : path) : bool :=
  let rel := default p (Sources.path_strip (groot f) p) in
  match ginclude f with Some inc => inc rel | None => true end
  && match gexclude f with Some exc => negb (exc rel) | None => true end.

(** [discover_all]: what each root yields, home first, one manifest a folder,
    sorted by it. [path_le] is the order of paths. *)
Definition insert_first (acc : list QdrManifest) (m : QdrManifest) : list QdrManifest :=
  if existsb (λ x, path_eq (folder x) (folder m)) acc then acc else acc ++ [m].
Definition discover_all (path_le : path → path → bool) (found : list (list QdrManifest)) : list QdrManifest :=
  sort_by (λ a b, path_le (folder a) (folder b)) (foldl insert_first [] (concat found)).
Definition enabled_folders (ms : list QdrManifest) : list path := map folder (filter (λ m, menabled m = true) ms).

End KManifest.

(** ** The index on disk *)

Module KState.

Definition CHUNK_SCHEMA_VERSION : Z := 1.
Record FileEntry := mkEntry { mtime : Z; content_hash : string; point_ids : list string }.
Record Index := mkIndex { files : gmap text FileEntry; last_sync_unix : Z; chunk_schema_version : Z }.
Definition default_index : Index := mkIndex ∅ 0 CHUNK_SCHEMA_VERSION.
Definition set_files (f : gmap text FileEntry) (i : Index) : Index := mkIndex f (last_sync_unix i) (chunk_schema_version i).
(** [resync_required]: the version the index was built under, when it is not the
    current one. *)
Definition resync_required (i : Index) : option Z :=
  if (chunk_schema_version i =? CHUNK_SCHEMA_VERSION)%Z then None else Some (chunk_schema_version i).
(** [load]: [index.json] when it is there, by [serde_json]. *)
Definition load (from_str : text → result Index text) (json : option text) : result Index text :=
  match json with
  | None => Ok default_index
  | Some s => match trim s with [] => Ok default_index | _ => from_str s end
  end.
(** [purge_index_subtree], on the index that is loaded. *)
Definition purge (dir : path) (i : Index) : Index :=
  set_files (filter (λ ke, starts_with ke.1 dir = false) (files i)) i.

End KState.

(** ** The indexing pass *)

Module KIndex.
Import Sources KManifest KState.

(** The points of the vector store: [PointPayload] with the dense and the sparse
    vector. *)
Record Point (V S : Type) := mkPoint {
  pid : string; vector : V; psparse : S; psource : text; pfile : text; pchunk : Z; pchunk_text : text; pmtime : Z; phash : string;
  ptags : list text; pkind : option string; psource_name : option text; pdate : option text; pfrom : option text; pmessage_id : option Z;
  preply_to : option Z; pmedia : option bool; pmodel : option text; pproject : option text
}.
Arguments mkPoint {V S}. Arguments pid {V S}. Arguments vector {V S}. Arguments pkind {V S}. Arguments psource_name {V S}.
Arguments pfrom {V S}. Arguments pfile {V S}. Arguments pchunk {V S}. Arguments pchunk_text {V S}.

(** What the pass asks of the store, and what it relies on: a call that succeeds
    has done all of its work; one that fails may have done any part of it. *)
Class VectorStore (C P : Type) (pid : P → string) := {
  points : C → gmap string P;
  upsert : list P → C → bool * C;
  delete_points : list string → C → bool * C;
  drop_collection : C → bool * C;
  ensure_collection : C → bool * C
}.
Class VectorStoreLaws (C P : Type) (pid : P → string) `{!VectorStore C P pid} := {
  upsert_ok ps c c' : upsert ps c = (true, c') → points c' = foldl (λ m p, <[pid p := p]> m) (points c) ps;
  delete_ok ids c c' : delete_points ids c = (true, c') → points c' = foldl (λ m i, delete i m) (points c) ids;
  drop_ok c c' : drop_collection c = (true, c') → points c' = ∅;
  ensure_ok c c' : ensure_collection c = (true, c') → points c' = points c
}.

Record IndexReport := mkReport { scanned : nat; indexed : nat; skipped : nat; deleted : nat; chunks : nat }.
Definition no_report : IndexReport := mkReport 0 0 0 0 0.
Definition one_scanned (r : IndexReport) := mkReport (S (scanned r)) (indexed r) (skipped r) (deleted r) (chunks r).
Definition one_indexed (r : IndexReport) := mkReport (scanned r) (S (indexed r)) (skipped r) (deleted r) (chunks r).
Definition one_skipped (r : IndexReport) := mkReport (scanned r) (indexed r) (S (skipped r)) (deleted r) (chunks r).
Definition one_deleted (r : IndexReport) := mkReport (scanned r) (indexed r) (skipped r) (S (deleted r)) (chunks r).
Definition one_chunk (r : IndexReport) := mkReport (scanned r) (indexed r) (skipped r) (deleted r) (S (chunks r)).

(** A job: what its walk yields, [None] where it meets an error. *)
Record IndexJob := mkJob {
  jfolder_exists : bool; source_tag : text; jkind : SourceKind; walk : list (option path); jfilter : option GlobFilter;
  jmax_bytes : Z; jtags : list text
}.
Record PendingFile := mkPending {
  qpath : path; key : text; hash : string; records_of : list Rec; qsource : text; qtags : list text; qkind : SourceKind
}.
Definition effective_kind (file_path : text) (job_kind : SourceKind) : SourceKind :=
  match classify_kind file_path with Generic => job_kind | specific => specific end.

Definition UPSERT_BATCH : nat := 64.

(** *** Collecting the jobs *)

Section collect.
Context (exists_dir : path → bool) (walk_explicit : path → list (option path)) (walk_manifest : QdrManifest → list (option path)).
Context (build : list text → option (path → bool)) (kind_for : path → SourceKind) (expand : path → result path text).
Definition explicit_job (root : path) : IndexJob :=
  mkJob (exists_dir root) root (kind_for root) (walk_explicit root) None Extract.DEFAULT_MAX_BYTES [].
Definition manifest_job (m : QdrManifest) : option IndexJob :=
  match glob_filter build m with
  | None => None
  | Some f => Some (mkJob (exists_dir (folder m)) (folder m) (kind_for (folder m)) (walk_manifest m) f (max_file_bytes m) (tags m))
  end.
Definition collect_jobs (only_source : option path) (enabled : list path) (ms : list QdrManifest)
    : result (list IndexJob) text :=
  match only_source with
  | Some s =>
      match expand s with
      | Err e => Err e
      | Ok root =>
          match List.find (λ m, path_eq (folder m) root && menabled m) ms with
          | Some m => match manifest_job m with Some j => Ok [j] | None => Err (lit "invalid glob") end
          | None => Ok [explicit_job root]
          end
      end
  | None =>
      Ok (map explicit_job (filter (λ r, exists_dir r = true) enabled)
          ++ omap manifest_job (filter (λ m, menabled m = true) ms))
  end.
End collect.

(** *** The pass *)

(** [RunCtx]: how many more times [cancelled] answers no, if it ever stops. *)
Definition RunCtx : Type := option nat.
Definition cancelled (ctx : RunCtx) : bool * RunCtx :=
  match ctx with None => (false, None) | Some O => (true, Some O) | Some (S n) => (false, Some n) end.

(** How a loop ends: it goes on, it is broken off, or the pass fails. *)
Inductive Flow (A : Type) : Type := Go (a : A) | Halt (a : A) | Fail (e : text) (a : A).
Arguments Go {A}. Arguments Halt {A}. Arguments Fail {A}.

Section run.
Context {C V S : Type} `{!VectorStore C (Point V S) pid}.
(** The files: whether a path is one, what is extracted of it, and its time of
    change when it is walked, embedded and recorded. *)
Context (is_file : path → bool) (extract : path → Z → result Extract.Extracted text).
Context (mtime_walk mtime_embed mtime_commit : path → Z).
(** The hash of a text, the records of a file, and the two encoders. *)
Context (hash_text : text → string) (file_records : SourceKind → text → text → list Rec).
Context (embed_batch : list text → result (list V) text) (sparse : text → S).

Record Scan := mkScan {
  s_files : gmap text FileEntry; s_col : C; s_report : IndexReport; seen : gset text; pending : list PendingFile;
  s_ctx : RunCtx
}.
Definition skip_file (s : Scan) : Scan :=
  mkScan (s_files s) (s_col s) (one_skipped (s_report s)) (seen s) (pending s) (s_ctx s).
Definition see_file (k : text) (s : Scan) : Scan :=
  mkScan (s_files s) (s_col s) (one_scanned (s_report s)) ({[k]} ∪ seen s) (pending s) (s_ctx s).
Definition queue_file (f : PendingFile) (s : Scan) : Scan :=
  mkScan (s_files s) (s_col s) (s_report s) (seen s) (pending s ++ [f]) (s_ctx s).

(** One entry of a walk that is a path. *)
Definition excluded (job : IndexJob) (p : path) : bool :=
  negb (is_file p) || bool_decide (file_name p = Some MANIFEST_FILENAME)
  || match jfilter job with Some f => negb (matches f p) | None => false end.
Definition visit (full : bool) (job : IndexJob) (p : path) (s : Scan) : Flow Scan :=
  if excluded job p then Go s
  else
    let s := see_file p s in
    let mt := mtime_walk p in
    let old := s_files s !! p in
    if negb full && match old with Some e => (mtime e =? mt)%Z | None => false end then Go s
    else
      match extract p (jmax_bytes job) with
      | Err e => Fail e s
      | Ok (Extract.Skip _) => Go (skip_file s)
      | Ok (Extract.TextOf t) =>
          let h := hash_text t in
          if negb full && match old with Some e => String.eqb (content_hash e) h && (mtime e =? mt)%Z | None => false end
          then Go s
          else
            let fk := effective_kind p (jkind job) in
            match file_records fk p t with
            | [] => Go (skip_file s)
            | rs =>
                let item := mkPending p p h rs (source_tag job) (jtags job) fk in
                match (if full then None else old) with
                | None => Go (queue_file item s)
                | Some e =>
                    let '(ok, c) := delete_points (point_ids e) (s_col s) in
                    let s := mkScan (delete p (s_files s)) c (s_report s) (seen s) (pending s) (s_ctx s) in
                    if ok then Go (queue_file item s) else Fail (lit "delete_points") s
                end
            end
      end.
Fixpoint scan_dents (full : bool) (job : IndexJob) (ds : list (option path)) (s : Scan) : Flow Scan :=
  match ds with
  | [] => Go s
  | d :: ds =>
      let '(stop, ctx) := cancelled (s_ctx s) in
      let s := mkScan (s_files s) (s_col s) (s_report s) (seen s) (pending s) ctx in
      if stop then Halt s
      else match d with
           | None => scan_dents full job ds s
           | Some p => match visit full job p s with Go s => scan_dents full job ds s | r => r end
           end
  end.
Fixpoint scan_jobs (full : bool) (jobs : list IndexJob) (s : Scan) : Flow Scan :=
  match jobs with
  | [] => Go s
  | job :: jobs =>
      if negb (jfolder_exists job) then scan_jobs full jobs s
      else match scan_dents full job (walk job) s with Go s => scan_jobs full jobs s | r => r end
  end.

(** [build_point]. *)
Definition build_point (v : V) (r : Rec) (item : PendingFile) : Point V S :=
  let pl := payload r in
  mkPoint (chunk_id r) v (sparse (rtext r)) (qsource item) (default (key item) (file_path pl)) (chunk_index pl) (rtext r)
    (mtime_embed (qpath item)) (hash item) (qtags item) (Some (default (as_kebab (qkind item)) (rkind pl))) None (date pl) (from pl)
    (message_id pl) (reply_to_id pl) (has_media_ pl) (model pl) (project_id pl).

(** The batch that is filling, the ids of the points of each pending file, and
    the store. *)
Record Emb := mkEmb { batch : list (nat * Rec); ids : list (list string); e_col : C; e_report : IndexReport; e_ctx : RunCtx }.
Definition note_id (ids : list (list string)) (vx : V * (nat * Rec)) : list (list string) :=
  alter (λ l, l ++ [chunk_id vx.2.2]) vx.2.1 ids.
Definition point_of (files : list PendingFile) (vx : V * (nat * Rec)) : option (Point V S) :=
  build_point vx.1 vx.2.2 <$> files !! vx.2.1.
Definition flush_batch (files : list PendingFile) (e : Emb) : Flow Emb :=
  match batch e with
  | [] => Go e
  | b =>
      let '(stop, ctx) := cancelled (e_ctx e) in
      if stop then Go (mkEmb [] (ids e) (e_col e) (e_report e) ctx)
      else
        match embed_batch (map (λ x, rtext x.2) b) with
        | Err msg => Fail msg (mkEmb b (ids e) (e_col e) (e_report e) ctx)
        | Ok vs =>
            let vb := zip vs b in
            let report := foldl (λ r _, one_chunk r) (e_report e) vb in
            let '(ok, c) := upsert (omap (point_of files) vb) (e_col e) in
            if ok then Go (mkEmb [] (foldl note_id (ids e) vb) c report ctx)
            else Fail (lit "upsert") (mkEmb b (foldl note_id (ids e) vb) c report ctx)
        end
  end.
Fixpoint embed_records (files : list PendingFile) (fi : nat) (rs : list Rec) (e : Emb) : Flow Emb :=
  match rs with
  | [] => Go e
  | r :: rs =>
      let e := mkEmb (batch e ++ [(fi, r)]) (ids e) (e_col e) (e_report e) (e_ctx e) in
      if UPSERT_BATCH <=? length (batch e) then
        match flush_batch files e with
        | Go e =>
            let '(stop, ctx) := cancelled (e_ctx e) in
            let e := mkEmb (batch e) (ids e) (e_col e) (e_report e) ctx in
            if stop then Halt e else embed_records files fi rs e
        | f => f
        end
      else embed_records files fi rs e
  end.
Fixpoint embed_files (files : list PendingFile) (todo : list (nat * PendingFile)) (e : Emb) : Flow Emb :=
  match todo with
  | [] => Go e
  | (fi, item) :: todo =>
      let '(stop, ctx) := cancelled (e_ctx e) in
      let e := mkEmb (batch e) (ids e) (e_col e) (e_report e) ctx in
      if stop then Halt e
      else match embed_records files fi (records_of item) e with Go e => embed_files files todo e | f => f end
  end.
Definition embed_all (files : list PendingFile) (c : C) (r : IndexReport) (ctx : RunCtx) : Flow Emb :=
  match embed_files files (imap pair files) (mkEmb [] (map (λ _, []) files) c r ctx) with
  | Go e | Halt e => flush_batch files e
  | f => f
  end.

(** A pending file whose points are in is recorded. *)
Definition commit_file (st : gmap text FileEntry * IndexReport) (x : PendingFile * list string)
    : gmap text FileEntry * IndexReport :=
  match x.2 with
  | [] => st
  | l => (<[key x.1 := mkEntry (mtime_commit (qpath x.1)) (hash x.1) l]> st.1, one_indexed st.2)
  end.
(** The files that were not seen leave the index, and their points the store;
    whether they do is not asked. *)
Definition drop_stale (seen : gset text) (files : gmap text FileEntry) (c : C) (r : IndexReport)
    : gmap text FileEntry * C * IndexReport :=
  let stale := filter (λ ke : text * FileEntry, ke.1 ∉ seen) files in
  (filter (λ ke : text * FileEntry, ke.1 ∈ seen) files,
   foldl (λ c ke, (delete_points (point_ids ke.2) c).2) c (map_to_list stale),
   foldl (λ r _, one_deleted r) r (map_to_list stale)).

(** What the pass does with the jobs: the report, the entries and the store. *)
Definition index_jobs (only_source full : bool) (jobs : list IndexJob) (files : gmap text FileEntry) (c : C) (ctx : RunCtx)
    : result IndexReport text * gmap text FileEntry * C :=
  match scan_jobs full jobs (mkScan files c no_report ∅ [] ctx) with
  | Fail e s => (Err e, s_files s, s_col s)
  | Go s | Halt s =>
      match embed_all (pending s) (s_col s) (s_report s) (s_ctx s) with
      | Fail e em => (Err e, s_files s, e_col em)
      | Go em | Halt em =>
          let '(files, r) := foldl commit_file (s_files s, e_report em) (zip (pending s) (ids em)) in
          if only_source then (Ok r, files, e_col em)
          else
            let '(stop, _) := cancelled (e_ctx em) in
            if stop then (Ok r, files, e_col em)
            else let '(files, c, r) := drop_stale (seen s) files (e_col em) r in (Ok r, files, c)
      end
  end.
Definition run_index (idx : Index) (only_source full : bool) (jobs : result (list IndexJob) text) (c : C) (ctx : RunCtx)
    : result IndexReport text * Index * C :=
  match resync_required idx, full with
  | Some _, false => (Err (lit "index was built under another chunk-schema"), idx, c)
  | _, _ =>
      let version := if full then CHUNK_SCHEMA_VERSION else chunk_schema_version idx in
      let done files := mkIndex files (last_sync_unix idx) version in
      match jobs with
      | Err e => (Err e, done (files idx), c)
      | Ok [] => (Ok no_report, done (files idx), c)
      | Ok jobs => let '(r, files, c) := index_jobs only_source full jobs (files idx) c ctx in (r, done files, c)
      end
  end.

(** *** The passes of the daemon *)

(** The stored index, and what the last pass is reported as. *)
Record Disk := mkDisk { index_json : option Index; store_ : C }.
Definition load_or_default (d : Disk) : Index := default default_index (index_json d).
Definition stamp (now : Z) (i : Index) : Index := mkIndex (files i) now (chunk_schema_version i).
(** [qdrant::recreate_collection], which does not ask whether the collection was
    dropped. *)
Definition recreate_collection (c : C) : bool * C := ensure_collection (drop_collection c).2.
(** [run_one_pass] and [run_full_resync]; [saved] is whether [state::save] does. *)
Definition run_one_pass (saved : bool) (now : Z) (jobs : result (list IndexJob) text) (ctx : RunCtx) (d : Disk)
    : option text * Disk :=
  match run_index (load_or_default d) false false jobs (store_ d) ctx with
  | (Ok _, idx, c) => (None, mkDisk (if saved then Some (stamp now idx) else index_json d) c)
  | (Err e, _, c) => (Some e, mkDisk (index_json d) c)
  end.
Definition run_full_resync (saved : bool) (now : Z) (jobs : result (list IndexJob) text) (ctx : RunCtx) (d : Disk)
    : option text * Disk :=
  let '(ok, c) := recreate_collection (store_ d) in
  if negb ok then (Some (lit "recreate_collection"), mkDisk (index_json d) c)
  else
    match run_index default_index false true jobs c ctx with
    | (Ok _, idx, c) => (None, mkDisk (if saved then Some (stamp now idx) else index_json d) c)
    | (Err e, _, c) => (Some e, mkDisk (index_json d) c)
    end.
End run.

(** ** What a pass does to the index and the store *)

Section facts.
Context {C V S : Type} `{Hstore : !VectorStore C (Point V S) pid} `{Hlaws : !VectorStoreLaws C (Point V S) pid}.
Context (is_file : path → bool) (extract : path → Z → result Extract.Extracted text).
Context (mtime_walk mtime_embed mtime_commit : path → Z).
Context (hash_text : text → string) (file_records : SourceKind → text → text → list Rec).
Context (embed_batch : list text → result (list V) text) (sparse : text → S).
(** The embedder answers with one vector a text. *)
Context (embed_length : ∀ ts vs, embed_batch ts = Ok vs → length vs = length ts).
(** A point id tells its file: the hash of the key and the index has no
    collisions; and the records of a file have different ids. *)
Context (owner : string → text).
Context (owner_records : ∀ fk k t r, r ∈ file_records fk k t → owner (chunk_id r) = k).
Context (ids_differ : ∀ fk k t, NoDup (map chunk_id (file_records fk k t))).

Local Notation visit := (visit is_file extract mtime_walk hash_text file_records).
Local Notation scan_dents := (scan_dents is_file extract mtime_walk hash_text file_records).
Local Notation scan_jobs := (scan_jobs is_file extract mtime_walk hash_text file_records).
Local Notation flush_batch := (flush_batch mtime_embed embed_batch sparse).
Local Notation point_of := (point_of mtime_embed sparse).
Local Notation build_point := (build_point mtime_embed sparse).
Local Notation embed_all := (embed_all mtime_embed embed_batch sparse).
Local Notation Scan := (@Scan C).

(** The points of the store are those the index says its files own. *)
Definition owned (files : gmap text FileEntry) (c : C) : Prop :=
  (∀ k e i, files !! k = Some e → i ∈ point_ids e → owner i = k)
  ∧ ∀ i, is_Some (points c !! i) ↔ ∃ e, files !! owner i = Some e ∧ i ∈ point_ids e.

(** The file a walk queues for embedding, from the entry the index has of it. *)
Definition wanted (full : bool) (old : option FileEntry) (jp : IndexJob * path) : option PendingFile :=
  let '(job, p) := jp in
  if excluded is_file job p then None
  else if negb full && match old with Some e => (mtime e =? mtime_walk p)%Z | None => false end then None
  else match extract p (jmax_bytes job) with
       | Ok (Extract.TextOf t) =>
           let fk := effective_kind p (jkind job) in
           match file_records fk p t with
           | [] => None
           | rs => Some (mkPending p p (hash_text t) rs (source_tag job) (jtags job) fk)
           end
       | _ => None
       end.

Lemma wanted_item full old job p item :
  wanted full old (job, p) = Some item →
  key item = p ∧ qpath item = p ∧ records_of item ≠ [] ∧ NoDup (map chunk_id (records_of item))
  ∧ ∀ r, r ∈ records_of item → owner (chunk_id r) = p.
Proof.
  unfold wanted. destruct (excluded is_file job p); [done|]. destruct (negb full && _); [done|].
  destruct (extract p _) as [[t|]|]; [|done..]. cbn zeta.
  pose proof (ids_differ (effective_kind p (jkind job)) p t) as Hn.
  pose proof (owner_records (effective_kind p (jkind job)) p t) as Ho.
  destruct (file_records _ p t) as [|r rs]; [done|]. intros [= <-]. cbn. split_and!; [done|done|done|exact Hn|exact Ho].
Qed.

Lemma foldl_delete_lookup (l : list string) (m : gmap string (Point V S)) i :
  foldl (λ m i, delete i m) m l !! i = if decide (i ∈ l) then None else m !! i.
Proof.
  revert m. induction l as [|j l IH]; intros m; cbn [foldl]; [by rewrite decide_False by apply not_elem_of_nil|].
  rewrite IH. destruct (decide (i ∈ l)) as [Hl|Hl].
  - rewrite decide_True; [done|]. by apply list_elem_of_further.
  - destruct (decide (i = j)) as [->|Hne].
    + rewrite lookup_delete_eq, decide_True; [done|]. apply list_elem_of_here.
    + rewrite lookup_delete_ne by done. rewrite decide_False; [done|]. by intros [|]%elem_of_cons.
Qed.

Lemma owned_delete files c k e c' :
  owned files c → files !! k = Some e → delete_points (point_ids e) c = (true, c') →
  owned (delete k files) c' ∧ ∀ i, owner i ≠ k → points c' !! i = points c !! i.
Proof.
  intros [Ho Hp] He Hc. apply delete_ok in Hc. split; [split|].
  - intros k' e' i [_ Hk]%lookup_delete_Some Hi. by eapply Ho.
  - intros i. rewrite Hc, foldl_delete_lookup. case_decide as Hi.
    + split; [by intros [? ?]|]. intros (e' & [Hne _]%lookup_delete_Some & _). destruct Hne. symmetry. by eapply Ho.
    + rewrite Hp. split; intros (e' & He' & Hi').
      * exists e'. split; [|done]. apply lookup_delete_Some. split; [|done]. intros ->. by simplify_eq.
      * apply lookup_delete_Some in He' as [_ He']. by exists e'.
  - intros i Hi. rewrite Hc, foldl_delete_lookup. case_decide as Hin; [|done]. destruct Hi. by eapply Ho.
Qed.

(** One entry of a walk. *)
Lemma visit_cases full job p s :
  let w := wanted full (s_files s !! p) (job, p) in
  match visit full job p s with
  | Go s' =>
      pending s' = pending s ++ option_list w ∧ s_ctx s' = s_ctx s
      ∧ seen s' = (if excluded is_file job p then ∅ else {[p]}) ∪ seen s
      ∧ match w, full, s_files s !! p with
        | Some _, false, Some e =>
            s_files s' = delete p (s_files s) ∧ delete_points (point_ids e) (s_col s) = (true, s_col s')
        | _, _, _ => s_files s' = s_files s ∧ s_col s' = s_col s
        end
  | Halt _ => False
  | Fail _ _ => True
  end.
Proof.
  intros w. unfold w, wanted, visit. destruct (excluded is_file job p).
  { rewrite app_nil_r, union_empty_l_L. by destruct full, (s_files s !! p). }
  change (s_files (see_file p s)) with (s_files s).
  destruct (negb full && match s_files s !! p with Some e => (mtime e =? mtime_walk p)%Z | None => false end) eqn:Eu.
  { cbn. rewrite app_nil_r. by destruct full, (s_files s !! p). }
  destruct (extract p _) as [[t|r]|e]; [|cbn; rewrite app_nil_r; by destruct full, (s_files s !! p)|done].
  cbn zeta.
  assert (negb full && match s_files s !! p with
    | Some e => (content_hash e =? hash_text t)%string && (mtime e =? mtime_walk p)%Z | None => false end = false) as ->.
  { destruct full, (s_files s !! p); cbn in *; [done..| |done]. rewrite Eu. by rewrite andb_false_r. }
  destruct (file_records _ p t) as [|r rs]; [cbn; rewrite app_nil_r; by destruct full, (s_files s !! p)|].
  destruct full; [cbn; by destruct (s_files s !! p)|]. cbn [see_file s_files].
  destruct (s_files s !! p) as [e|] eqn:Eo; [|by cbn].
  destruct (delete_points _ _) as [[] c'] eqn:Ed; [|done]. cbn. done.
Qed.
(** *** The scan *)

(** The paths the walks of the jobs yield, each with its job. *)
Definition walked (job : IndexJob) : list (IndexJob * path) := omap (λ d, pair job <$> d) (walk job).
Definition pairs (jobs : list IndexJob) : list (IndexJob * path) :=
  concat (map (λ job, if jfolder_exists job then walked job else []) jobs).
Definition queued (full : bool) (files0 : gmap text FileEntry) (ps : list (IndexJob * path)) : list PendingFile :=
  omap (λ jp, wanted full (files0 !! jp.2) jp) ps.
Definition seen_in (ps : list (IndexJob * path)) : gset text :=
  list_to_set (map snd (filter (λ jp, excluded is_file jp.1 jp.2 = false) ps)).

(** What the scan has done after the pairs [ps]. *)
Record scanned_to (full : bool) (files0 : gmap text FileEntry) (c0 : C) (ps : list (IndexJob * path)) (s : Scan) : Prop := {
  sc_pending : pending s = queued full files0 ps;
  sc_files : ∀ k, s_files s !! k = if decide (k ∈ map key (queued full files0 ps)) then None else files0 !! k;
  sc_seen : seen s = seen_in ps;
  sc_owned : owned (s_files s) (s_col s);
  sc_points : ∀ i, owner i ∉ map key (queued full files0 ps) → points (s_col s) !! i = points c0 !! i
}.

Lemma queued_snoc full files0 ps jp :
  queued full files0 (ps ++ [jp]) = queued full files0 ps ++ option_list (wanted full (files0 !! jp.2) jp).
Proof. unfold queued. rewrite omap_app. cbn. by destruct (wanted _ _ _). Qed.
Lemma queued_keys full files0 ps k : k ∈ map key (queued full files0 ps) → k ∈ map snd ps.
Proof.
  intros (item & -> & ([job p] & Hin & Hw)%list_elem_of_omap)%list_elem_of_fmap. apply wanted_item in Hw as [-> _].
  apply list_elem_of_fmap. by exists (job, p).
Qed.
Lemma seen_in_snoc ps jp :
  seen_in (ps ++ [jp]) = (if excluded is_file jp.1 jp.2 then ∅ else {[jp.2]}) ∪ seen_in ps.
Proof.
  unfold seen_in. rewrite filter_app, map_app, list_to_set_app_L, filter_cons, filter_nil. rewrite (comm_L (∪)). f_equal.
  destruct (excluded is_file jp.1 jp.2); [by rewrite decide_False|]. rewrite decide_True by done. cbn. set_solver.
Qed.

Lemma visit_step full files0 c0 ps job p s s' :
  (full = true → files0 = ∅) → scanned_to full files0 c0 ps s → p ∉ map snd ps →
  visit full job p s = Go s' → scanned_to full files0 c0 (ps ++ [(job, p)]) s' ∧ s_ctx s' = s_ctx s.
Proof.
  intros Hfull [Hp Hf Hs Ho Hc] Hn Hv. pose proof (visit_cases full job p s) as H. cbn zeta in H. rewrite Hv in H.
  assert (p ∉ map key (queued full files0 ps)) as Hpk by (intros Hk; by apply queued_keys in Hk).
  assert (s_files s !! p = files0 !! p) as Hold by (by rewrite Hf, decide_False).
  rewrite Hold in H. destruct H as (Hp' & Hx & Hs' & Hd). split; [|done].
  assert (pending s' = queued full files0 (ps ++ [(job, p)])) as Hq by (by rewrite queued_snoc, Hp', Hp).
  destruct (wanted full (files0 !! p) (job, p)) as [item|] eqn:Hw.
  - pose proof (wanted_item _ _ _ _ _ Hw) as (Hk & _).
    assert (∀ k, k ∈ map key (queued full files0 (ps ++ [(job, p)])) ↔ k = p ∨ k ∈ map key (queued full files0 ps)) as Hkeys.
    { intros k. rewrite queued_snoc. cbn [snd]. rewrite Hw. rewrite map_app. cbn. rewrite Hk.
      rewrite elem_of_app, list_elem_of_singleton. tauto. }
    destruct full, (files0 !! p) as [e|] eqn:He.
    + by rewrite Hfull, lookup_empty in He.
    + destruct Hd as [Hf' Hc']. split; [done| |by rewrite Hs', seen_in_snoc, Hs| |].
      * intros k. rewrite Hf', Hf. rewrite (Hfull eq_refl), lookup_empty. by do 2 case_decide.
      * by rewrite Hf', Hc'.
      * intros i Hi. rewrite Hc'. apply Hc. rewrite Hkeys in Hi. tauto.
    + destruct Hd as [Hf' Hdel]. destruct (owned_delete _ _ p e _ Ho Hold Hdel) as [Ho' Hkeep].
      split; [done| |by rewrite Hs', seen_in_snoc, Hs|by rewrite Hf'|].
      * intros k. rewrite Hf'. destruct (decide (k = p)) as [->|Hne].
        -- rewrite lookup_delete_eq. rewrite decide_True; [done|]. apply Hkeys. by left.
        -- rewrite lookup_delete_ne, Hf by done. apply decide_ext. rewrite Hkeys. tauto.
      * intros i Hi. rewrite Hkeys in Hi. rewrite Hkeep by tauto. apply Hc. tauto.
    + destruct Hd as [Hf' Hc']. split; [done| |by rewrite Hs', seen_in_snoc, Hs| |].
      * intros k. rewrite Hf', Hf. destruct (decide (k = p)) as [->|Hne].
        -- rewrite He. by do 2 case_decide.
        -- apply decide_ext. rewrite Hkeys. tauto.
      * by rewrite Hf', Hc'.
      * intros i Hi. rewrite Hc'. apply Hc. rewrite Hkeys in Hi. tauto.
  - assert (queued full files0 (ps ++ [(job, p)]) = queued full files0 ps) as Hsame.
    { rewrite queued_snoc. cbn [snd]. rewrite Hw. apply app_nil_r. }
    assert (s_files s' = s_files s ∧ s_col s' = s_col s) as [Hf' Hc'] by (by destruct full, (files0 !! p)).
    split; [done|intros k; by rewrite Hf', Hf, Hsame|by rewrite Hs', seen_in_snoc, Hs|by rewrite Hf', Hc'|].
    intros i Hi. rewrite Hc'. apply Hc. by rewrite <- Hsame.
Qed.

(** A cancellation stays one. *)
Definition not_cancelled (ctx : RunCtx) : Prop := (cancelled ctx).1 = false.
Lemma cancelled_ctx ctx : (cancelled ctx).1 = true → ¬ not_cancelled (cancelled ctx).2.
Proof. by destruct ctx as [[|n]|]. Qed.

Lemma with_ctx full files0 c0 ps s ctx :
  scanned_to full files0 c0 ps s → scanned_to full files0 c0 ps (mkScan (s_files s) (s_col s) (s_report s) (seen s) (pending s) ctx).
Proof. by intros []. Qed.

Lemma scan_dents_spec full files0 c0 job ds : ∀ ps s,
  (full = true → files0 = ∅) → scanned_to full files0 c0 ps s →
  NoDup (map snd ps ++ map snd (omap (λ d, pair job <$> d) ds)) →
  match scan_dents full job ds s with
  | Go s' => scanned_to full files0 c0 (ps ++ omap (λ d, pair job <$> d) ds) s'
  | Halt s' => ∃ k, scanned_to full files0 c0 (ps ++ take k (omap (λ d, pair job <$> d) ds)) s' ∧ ¬ not_cancelled (s_ctx s')
  | Fail _ _ => True
  end.
Proof.
  induction ds as [|d ds IH]; intros ps s Hfull Hs Hn; cbn [KIndex.scan_dents]; [by rewrite app_nil_r|].
  destruct (cancelled (s_ctx s)) as [stop ctx] eqn:Ec. pose proof (with_ctx _ _ _ _ _ ctx Hs) as Hs1. destruct stop.
  { exists 0. rewrite take_0, app_nil_r. split; [done|]. cbn [s_ctx].
    replace ctx with (cancelled (s_ctx s)).2 by (by rewrite Ec). apply cancelled_ctx. by rewrite Ec. }
  destruct d as [p|].
  - cbn [omap list_omap fmap option_fmap option_map] in *. cbn [map snd] in Hn.
    destruct (visit full job p _) as [s'|s'|e s'] eqn:Hv; [| |done].
    + assert (p ∉ map snd ps) as Hp.
      { apply NoDup_app in Hn as (_ & Hd & _). intros Hin. apply (Hd _ Hin). apply list_elem_of_here. }
      destruct (visit_step _ _ _ _ _ _ _ _ Hfull Hs1 Hp Hv) as [Hs' _].
      specialize (IH (ps ++ [(job, p)]) s' Hfull Hs'). rewrite map_app, <- !app_assoc in IH. specialize (IH Hn).
      cbn [app map snd] in IH. destruct (scan_dents full job ds s') as [s2|s2|e s2]; [done| |done].
      destruct IH as (k & H & Hc). exists (Datatypes.S k). by rewrite <- app_assoc in H.
    + pose proof (visit_cases full job p (mkScan (s_files s) (s_col s) (s_report s) (seen s) (pending s) ctx)) as H.
      cbn zeta in H. by rewrite Hv in H.
  - cbn [omap list_omap fmap option_fmap option_map] in *. by apply IH.
Qed.

Lemma pairs_cons job jobs : pairs (job :: jobs) = (if jfolder_exists job then walked job else []) ++ pairs jobs.
Proof. done. Qed.
Lemma scan_jobs_spec full files0 c0 jobs : ∀ ps s,
  (full = true → files0 = ∅) → scanned_to full files0 c0 ps s → NoDup (map snd ps ++ map snd (pairs jobs)) →
  match scan_jobs full jobs s with
  | Go s' => scanned_to full files0 c0 (ps ++ pairs jobs) s'
  | Halt s' => ∃ k, scanned_to full files0 c0 (ps ++ take k (pairs jobs)) s' ∧ ¬ not_cancelled (s_ctx s')
  | Fail _ _ => True
  end.
Proof.
  induction jobs as [|job jobs IH]; intros ps s Hfull Hs Hn; cbn [KIndex.scan_jobs]; [by rewrite app_nil_r|].
  rewrite pairs_cons in *. destruct (jfolder_exists job); cbn [negb app] in *; [|by apply IH].
  rewrite map_app in Hn. rewrite app_assoc in Hn. pose proof Hn as Hn1. apply NoDup_app in Hn1 as (Hn1 & _).
  pose proof (scan_dents_spec full files0 c0 job (walk job) ps s Hfull Hs Hn1) as H. fold (walked job) in H.
  destruct (scan_dents full job (walk job) s) as [s'|s'|e s']; [| |done].
  - specialize (IH (ps ++ walked job) s' Hfull H). rewrite map_app in IH. specialize (IH Hn).
    destruct (scan_jobs full jobs s') as [s2|s2|e s2]; [by rewrite app_assoc| |done].
    destruct IH as (k & H2 & Hc). exists (length (walked job) + k). split; [|done].
    rewrite take_app_add, app_assoc. exact H2.
  - destruct H as (k & H & Hc). exists (k `min` length (walked job)). split; [|done].
    rewrite take_app_le by lia. rewrite <- take_take, (take_ge (walked job)) by done. exact H.
Qed.

(** *** Embedding *)

Definition all_records (files : list PendingFile) : list (nat * Rec) :=
  concat (imap (λ fi item, map (pair fi) (records_of item)) files).
Definition put (m : gmap string (Point V S)) (p : Point V S) : gmap string (Point V S) := <[pid p := p]> m.

(** The store and the ids after the vectors [vs] went in, each with its record. *)
Record embedded (files : list PendingFile) (c0 : C) (vs : list (V * (nat * Rec))) (e : Emb) : Prop := {
  em_points : points (e_col e) = foldl put (points c0) (omap (point_of files) vs);
  em_ids : ids e = foldl note_id (map (λ _, []) files) vs
}.
Lemma embedded_ctx files c0 vs b e r ctx :
  embedded files c0 vs e → embedded files c0 vs (mkEmb b (ids e) (e_col e) r ctx).
Proof. by intros []. Qed.

Lemma flush_spec files c0 vs e :
  embedded files c0 vs e →
  match flush_batch files e with
  | Go e' => batch e' = [] ∧ ∃ vs', embedded files c0 vs' e'
               ∧ ((map snd vs' = map snd vs ++ batch e) ∨ (vs' = vs ∧ ¬ not_cancelled (e_ctx e')))
  | Halt _ => False
  | Fail _ _ => True
  end.
Proof.
  intros He. unfold KIndex.flush_batch. destruct (batch e) as [|x b] eqn:Eb.
  { split; [done|]. exists vs. split; [done|]. left. by rewrite app_nil_r. }
  destruct (cancelled (e_ctx e)) as [stop ctx] eqn:Ec. destruct stop.
  { split; [done|]. exists vs. split; [by apply embedded_ctx|]. right. split; [done|]. cbn [e_ctx].
    replace ctx with (cancelled (e_ctx e)).2 by (by rewrite Ec). apply cancelled_ctx. by rewrite Ec. }
  destruct (embed_batch _) as [vv|] eqn:Ev; [|done]. apply embed_length in Ev. rewrite length_map in Ev.
  destruct (upsert _ _) as [ok c] eqn:Eu. destruct ok; [|done]. split; [done|]. exists (vs ++ zip vv (x :: b)).
  destruct He as [Hp Hi]. split.
  - split; cbn [e_col ids].
    + apply upsert_ok in Eu. rewrite Eu, Hp, omap_app, foldl_app. done.
    + by rewrite Hi, foldl_app.
  - left. rewrite map_app. f_equal. apply snd_zip. by rewrite Ev.
Qed.

(** How far an embedding loop has come: what went in and the batch make up what
    it was given, or it was cancelled and some of that went in. *)
Definition embeds (files : list PendingFile) (c0 : C) (todo : list (nat * Rec)) (f : Flow Emb) : Prop :=
  match f with
  | Go e => ∃ vs, embedded files c0 vs e ∧ map snd vs ++ batch e = todo
  | Halt e => ¬ not_cancelled (e_ctx e) ∧ ∃ vs, embedded files c0 vs e ∧ map snd vs `prefix_of` todo
  | Fail _ _ => True
  end.

Lemma cancelled_again ctx : ¬ not_cancelled ctx → (cancelled ctx).1 = true.
Proof. unfold not_cancelled. by destruct (cancelled ctx).1. Qed.

Lemma embed_records_spec files c0 fi rs : ∀ vs e,
  embedded files c0 vs e →
  embeds files c0 (map snd vs ++ batch e ++ map (pair fi) rs) (embed_records mtime_embed embed_batch sparse files fi rs e).
Proof.
  induction rs as [|r rs IH]; intros vs e He; cbn [KIndex.embed_records map].
  { cbn. exists vs. by rewrite app_nil_r. }
  pose proof (embedded_ctx files c0 vs (batch e ++ [(fi, r)]) e (e_report e) (e_ctx e) He) as He1.
  destruct (UPSERT_BATCH <=? _).
  - pose proof (flush_spec files c0 vs _ He1) as Hf. cbn [batch] in Hf.
    destruct (flush_batch files _) as [e'|e'|m e']; [|done|done].
    destruct Hf as (Hb & vs' & He' & Hor). destruct (cancelled (e_ctx e')) as [stop ctx] eqn:Ec. destruct stop.
    + cbn. split.
      * replace ctx with (cancelled (e_ctx e')).2 by (by rewrite Ec). apply cancelled_ctx. by rewrite Ec.
      * exists vs'. split; [by apply embedded_ctx|]. destruct Hor as [->|[-> _]]; [|by eexists].
        eexists. by rewrite <- !app_assoc.
    + destruct Hor as [Hvs|[_ Hc]]; [|apply cancelled_again in Hc; by rewrite Ec in Hc].
      pose proof (embedded_ctx files c0 vs' (batch e') e' (e_report e') ctx He') as He2.
      specialize (IH vs' _ He2). cbn [batch] in IH. rewrite Hvs, Hb in IH. cbn [app] in IH.
      rewrite <- !app_assoc in IH. by rewrite Hb.
  - specialize (IH vs _ He1). cbn [batch] in IH. by rewrite <- app_assoc in IH.
Qed.

Lemma embed_files_spec files c0 todo : ∀ vs e,
  embedded files c0 vs e →
  embeds files c0 (map snd vs ++ batch e ++ concat (map (λ x, map (pair x.1) (records_of x.2)) todo))
    (embed_files mtime_embed embed_batch sparse files todo e).
Proof.
  induction todo as [|[fi item] todo IH]; intros vs e He; cbn [KIndex.embed_files map concat].
  { cbn. exists vs. by rewrite app_nil_r. }
  destruct (cancelled (e_ctx e)) as [stop ctx] eqn:Ec.
  pose proof (embedded_ctx files c0 vs (batch e) e (e_report e) ctx He) as He1. destruct stop.
  - cbn. split; [|exists vs; split; [done|by eexists]].
    replace ctx with (cancelled (e_ctx e)).2 by (by rewrite Ec). apply cancelled_ctx. by rewrite Ec.
  - pose proof (embed_records_spec files c0 fi (records_of item) vs _ He1) as H. cbn [batch] in H.
    destruct (embed_records _ _ _ _ _ _ _) as [e'|e'|m e']; [| |done].
    + destruct H as (vs' & He' & Hvs). specialize (IH vs' e' He'). rewrite app_assoc, Hvs in IH.
      cbn [fst snd]. by rewrite <- !app_assoc in IH.
    + destruct H as (Hc & vs' & He' & Hpre). split; [done|]. exists vs'. split; [done|]. etransitivity; [done|].
      cbn [fst snd]. eexists. by rewrite <- !app_assoc.
Qed.

Lemma embed_all_spec files c0 r ctx :
  match embed_all files c0 r ctx with
  | Go e => ∃ vs, embedded files c0 vs e ∧ map snd vs `prefix_of` all_records files
              ∧ (not_cancelled (e_ctx e) → map snd vs = all_records files)
  | Halt _ => False
  | Fail _ _ => True
  end.
Proof.
  unfold KIndex.embed_all.
  assert (embedded files c0 [] (mkEmb [] (map (λ _, []) files) c0 r ctx)) as H0 by done.
  pose proof (embed_files_spec files c0 (imap pair files) [] _ H0) as H. cbn [batch map app] in H.
  assert (concat (map (λ x, map (pair x.1) (records_of x.2)) (imap pair files)) = all_records files) as Ea.
  { unfold all_records. f_equal. apply list_eq. intros i. rewrite list_lookup_fmap, !list_lookup_imap.
    by destruct (files !! i). }
  rewrite Ea in H. destruct (embed_files _ _ _ _ _ _) as [e|e|m e]; [| |done].
  - destruct H as (vs & He & Hvs). pose proof (flush_spec files c0 vs e He) as Hf.
    destruct (flush_batch files e) as [e'|e'|m e']; [|done|done]. destruct Hf as (_ & vs' & He' & [Hv|[-> Hc]]).
    + exists vs'. rewrite Hv, Hvs. done.
    + exists vs. split_and!; [done|by eexists|done].
  - destruct H as (Hc & vs & He & Hpre). unfold KIndex.flush_batch. destruct (batch e).
    + by exists vs.
    + destruct (cancelled (e_ctx e)) as [stop ctx'] eqn:Ec. apply cancelled_again in Hc as Hs. rewrite Ec in Hs. cbn in Hs. subst stop.
      exists vs. split_and!; [by apply embedded_ctx|done|]. cbn [e_ctx].
      replace ctx' with (cancelled (e_ctx e)).2 by (by rewrite Ec). intros Hn. exfalso. revert Hn.
      apply cancelled_ctx. by rewrite Ec.
Qed.

(** *** Recording what went in *)

(** The files queued have different keys, and records whose ids tell their key. *)
Definition pending_ok (l : list PendingFile) : Prop :=
  NoDup (map key l)
  ∧ Forall (λ f, records_of f ≠ [] ∧ NoDup (map chunk_id (records_of f))
                 ∧ (∀ r, r ∈ records_of f → owner (chunk_id r) = key f) ∧ qpath f = key f) l.

Lemma queued_ok full files0 ps : NoDup (map snd ps) → pending_ok (queued full files0 ps).
Proof.
  intros Hn. split.
  - induction ps as [|[job p] ps IH]; [constructor|]. cbn [map snd] in Hn. apply NoDup_cons in Hn as [Hp Hn].
    unfold queued. cbn [omap list_omap]. destruct (wanted _ _ _) as [item|] eqn:Hw; [|by apply IH].
    apply wanted_item in Hw as [Hk _]. cbn [map]. constructor; [|by apply IH]. rewrite Hk. intros Hin.
    by apply queued_keys in Hin.
  - apply Forall_forall. intros f ([job p] & _ & Hw)%list_elem_of_omap. apply wanted_item in Hw as (-> & -> & ? & ? & ?).
    done.
Qed.

Definition ids_of (fi : nat) (vs : list (V * (nat * Rec))) : list string :=
  omap (λ x : V * (nat * Rec), if decide (x.2.1 = fi) then Some (chunk_id x.2.2) else None) vs.
Lemma ids_lookup (l : list PendingFile) vs fi :
  foldl note_id (map (λ _, []) l) vs !! fi = (λ _, ids_of fi vs) <$> l !! fi.
Proof.
  induction vs as [|x vs IH] using rev_ind; [cbn; rewrite list_lookup_fmap; by destruct (l !! fi)|].
  rewrite foldl_app. cbn [foldl]. unfold note_id at 1, ids_of. rewrite omap_app. cbn [omap list_omap].
  destruct (decide (x.2.1 = fi)) as [->|Hne].
  - rewrite list_lookup_alter_eq, IH. unfold ids_of. by destruct (l !! fi).
  - rewrite list_lookup_alter_ne, IH by done. unfold ids_of. rewrite app_nil_r. done.
Qed.

Lemma elem_of_all_records (l : list PendingFile) fi r :
  (fi, r) ∈ all_records l ↔ ∃ item, l !! fi = Some item ∧ r ∈ records_of item.
Proof.
  unfold all_records. rewrite elem_of_concat. split.
  - intros (rs & Hin & (i & item & -> & Hl)%elem_of_lookup_imap).
    apply list_elem_of_fmap in Hin as (r' & [= -> ->] & Hr). by exists item.
  - intros (item & Hl & Hr). exists (map (pair fi) (records_of item)). split.
    + apply list_elem_of_fmap. by exists r.
    + apply elem_of_lookup_imap. by exists fi, item.
Qed.
Lemma all_records_NoDup (l : list PendingFile) : pending_ok l → NoDup (map (λ x, chunk_id x.2) (all_records l)).
Proof.
  intros [Hk Hf]. unfold all_records.
  assert (map (λ x : nat * Rec, chunk_id x.2) (concat (imap (λ fi item, map (pair fi) (records_of item)) l))
          = concat (map (λ f, map chunk_id (records_of f)) l)) as ->.
  { rewrite concat_map. f_equal. apply list_eq. intros i.
    rewrite !list_lookup_fmap, list_lookup_imap. destruct (l !! i) as [f|]; [|done]. cbn. f_equal. by rewrite map_map. }
  induction l as [|f l IH]; [constructor|]. apply Forall_cons in Hf as [(_ & Hn & Ho & _) Hf]. cbn [map] in Hk.
  apply NoDup_cons in Hk as [Hfk Hk]. cbn [map concat]. apply NoDup_app. split_and!; [done| |by apply IH].
  intros i (r & -> & Hr)%list_elem_of_fmap (js & Hi & (f' & -> & Hf')%list_elem_of_fmap)%elem_of_concat.
  apply list_elem_of_fmap in Hi as (r' & E & Hr'). eapply Forall_forall in Hf as (_ & _ & Ho' & _); [|done].
  apply Hfk. rewrite <- (Ho r Hr), E, (Ho' r' Hr'). by apply list_elem_of_fmap_2.
Qed.

Lemma put_absent (m : gmap string (Point V S)) ps i : i ∉ map pid ps → foldl put m ps !! i = m !! i.
Proof.
  revert m. induction ps as [|p ps IH]; intros m Hi; [done|]. cbn [map foldl] in *. apply not_elem_of_cons in Hi as [Hp Hi].
  rewrite IH by done. unfold put. by rewrite lookup_insert_ne.
Qed.
Lemma put_present (m : gmap string (Point V S)) ps p : NoDup (map pid ps) → p ∈ ps → foldl put m ps !! pid p = Some p.
Proof.
  revert m. induction ps as [|q ps IH]; intros m Hn Hp; [by apply not_elem_of_nil in Hp|]. cbn [map foldl] in *.
  apply NoDup_cons in Hn as [Hq Hn]. apply elem_of_cons in Hp as [->|Hp]; [|by apply IH].
  rewrite put_absent by done. unfold put. by rewrite lookup_insert_eq.
Qed.

(** The points that go in are those of the records, under their ids. *)
Lemma points_in (l : list PendingFile) (vs : list (V * (nat * Rec))) :
  map snd vs `prefix_of` all_records l → pending_ok l →
  map pid (omap (point_of l) vs) = map (λ x, chunk_id x.2.2) vs ∧ NoDup (map (λ x, chunk_id x.2.2) vs)
  ∧ ∀ v fi r, (v, (fi, r)) ∈ vs → ∃ item, l !! fi = Some item ∧ r ∈ records_of item.
Proof.
  intros [k Hk] Hl. assert (∀ v fi r, (v, (fi, r)) ∈ vs → ∃ item, l !! fi = Some item ∧ r ∈ records_of item) as Hin.
  { intros v fi r Hv. apply elem_of_all_records. rewrite Hk. apply elem_of_app. left. apply list_elem_of_fmap.
    by exists (v, (fi, r)). }
  split_and!; [|pose proof (all_records_NoDup l Hl) as Hn|exact Hin].
  - clear Hk k. induction vs as [|[v [fi r]] vs IH]; [done|]. cbn [omap list_omap map fst snd].
    destruct (Hin v fi r (list_elem_of_here _ _)) as (item & Hi & _). unfold KIndex.point_of at 1. cbn [fst snd].
    rewrite Hi. cbn [fmap option_fmap option_map map]. f_equal. apply IH. intros v' fi' r' Hv. apply (Hin v').
    by apply list_elem_of_further.
  - rewrite Hk, map_app in Hn. apply NoDup_app in Hn as [Hn _]. by rewrite map_map in Hn.
Qed.

Lemma ids_of_elem fi vs i : i ∈ ids_of fi vs ↔ ∃ v r, (v, (fi, r)) ∈ vs ∧ i = chunk_id r.
Proof.
  unfold ids_of. rewrite list_elem_of_omap. split.
  - intros ([v [fi' r]] & Hin & H). cbn in H. destruct (decide (fi' = fi)) as [->|]; [|done]. injection H as <-. by exists v, r.
  - intros (v & r & Hin & ->). exists (v, (fi, r)). split; [done|]. cbn. by rewrite decide_True.
Qed.

Definition entry_of (f : PendingFile) (l : list string) : FileEntry := mkEntry (mtime_commit (qpath f)) (hash f) l.

Lemma commit_other (zs : list (PendingFile * list string)) st k :
  k ∉ map (λ z, key z.1) zs → (foldl (commit_file mtime_commit) st zs).1 !! k = st.1 !! k.
Proof.
  revert st. induction zs as [|[f l] zs IH]; intros st Hk; [done|]. cbn [map foldl fst] in *.
  apply not_elem_of_cons in Hk as [Hf Hk]. rewrite IH by done. unfold commit_file. cbn [snd fst].
  destruct l; [done|]. cbn [fst]. by rewrite lookup_insert_ne.
Qed.
Lemma commit_at (zs : list (PendingFile * list string)) st f l :
  NoDup (map (λ z, key z.1) zs) → (f, l) ∈ zs →
  (foldl (commit_file mtime_commit) st zs).1 !! key f
  = match l with [] => st.1 !! key f | _ => Some (entry_of f l) end.
Proof.
  revert st. induction zs as [|[g m] zs IH]; intros st Hn Hin; [by apply not_elem_of_nil in Hin|].
  cbn [map foldl fst] in *. apply NoDup_cons in Hn as [Hg Hn]. apply elem_of_cons in Hin as [[= -> ->]|Hin].
  - rewrite commit_other by done. unfold commit_file. cbn [snd fst]. destruct m; [done|]. cbn [fst]. by rewrite lookup_insert_eq.
  - rewrite IH by done. assert (key g ≠ key f) as Hne.
    { intros E. apply Hg. rewrite E. apply list_elem_of_fmap. by exists (f, l). }
    unfold commit_file. cbn [snd fst]. destruct m; [done|]. cbn [fst]. by rewrite lookup_insert_ne.
Qed.

(** The index and the store once the queued files [l] are recorded. *)
Record recorded (l : list PendingFile) (m0 : gmap text FileEntry) (c0 : C) (vs : list (V * (nat * Rec)))
    (m : gmap text FileEntry) (c : C) : Prop := {
  rc_owned : owned m c;
  rc_other : ∀ k, k ∉ map key l → m !! k = m0 !! k;
  rc_entry : ∀ fi f, l !! fi = Some f → m !! key f = match ids_of fi vs with [] => None | is_ => Some (entry_of f is_) end;
  rc_kept : ∀ i, owner i ∉ map key l → points c !! i = points c0 !! i;
  rc_points : ∀ v fi r f, (v, (fi, r)) ∈ vs → l !! fi = Some f → points c !! chunk_id r = Some (build_point v r f)
}.

Lemma commit_spec l m0 c0 vs e r :
  pending_ok l → owned m0 c0 → (∀ k, k ∈ map key l → m0 !! k = None) → embedded l c0 vs e →
  map snd vs `prefix_of` all_records l →
  recorded l m0 c0 vs (foldl (commit_file mtime_commit) (m0, r) (zip l (ids e))).1 (e_col e).
Proof.
  intros Hl [Ho Hp] Hm [Hpts Hids] Hpre. destruct (points_in l vs Hpre Hl) as (Hpid & Hnd & Hin).
  set (m := (foldl _ _ _).1). pose proof Hl as [Hk Hf].
  assert (∀ fi, ids e !! fi = (λ _, ids_of fi vs) <$> l !! fi) as Hlook by (intros; by rewrite Hids, ids_lookup).
  assert (length l = length (ids e)) as Hlen.
  { rewrite Hids. clear. induction vs as [|x vs IH] using rev_ind; [cbn [foldl]; by rewrite length_map|].
    rewrite foldl_app. cbn [foldl]. unfold note_id. by rewrite length_alter. }
  assert (map (λ z, key z.1) (zip l (ids e)) = map key l) as Hzk.
  { rewrite <- (map_map fst key). f_equal. apply fst_zip. lia. }
  assert (∀ k, k ∉ map key l → m !! k = m0 !! k) as Hother.
  { intros k H. unfold m. by rewrite commit_other by (by rewrite Hzk). }
  assert (∀ fi f, l !! fi = Some f → m !! key f = match ids_of fi vs with [] => None | is_ => Some (entry_of f is_) end) as Hentry.
  { intros fi f H. unfold m. rewrite (commit_at _ _ f (ids_of fi vs)).
    - destruct (ids_of fi vs); [|done]. cbn [fst]. apply Hm. apply list_elem_of_fmap_2. by eapply list_elem_of_lookup_2.
    - by rewrite Hzk.
    - apply list_elem_of_lookup. exists fi. rewrite lookup_zip_with, H, Hlook, H. done. }
  assert (∀ i, i ∉ map (λ x : V * (nat * Rec), chunk_id x.2.2) vs → points (e_col e) !! i = points c0 !! i) as Habs.
  { intros i H. rewrite Hpts. apply put_absent. by rewrite Hpid. }
  assert (∀ v fi r f, (v, (fi, r)) ∈ vs → l !! fi = Some f → points (e_col e) !! chunk_id r = Some (build_point v r f)) as Hput.
  { intros v fi rr f H Hfi. rewrite Hpts. change (chunk_id rr) with (pid (build_point v rr f)). apply put_present; [by rewrite Hpid|].
    apply list_elem_of_omap. exists (v, (fi, rr)). split; [done|]. unfold KIndex.point_of. cbn [fst snd]. by rewrite Hfi. }
  assert (∀ v fi rr f, (v, (fi, rr)) ∈ vs → l !! fi = Some f → owner (chunk_id rr) = key f) as Hown.
  { intros v fi rr f H Hfi. destruct (Hin _ _ _ H) as (f' & Hf' & Hr). simplify_eq. 
    eapply Forall_lookup in Hf as (_ & _ & Hf & _); [|exact Hfi]. by apply Hf. }
  assert (∀ i, owner i ∉ map key l → points (e_col e) !! i = points c0 !! i) as Hkept.
  { intros i H. apply Habs. intros ([v [fi rr]] & -> & Hv)%list_elem_of_fmap. cbn [snd] in H. apply H.
    destruct (Hin _ _ _ Hv) as (f & Hfi & _). rewrite (Hown _ _ _ _ Hv Hfi). apply list_elem_of_fmap_2.
    by eapply list_elem_of_lookup_2. }
  split; [|done|done|done|done]. split.
  - intros k en i He Hi. destruct (decide (k ∈ map key l)) as [Hkl|Hkl].
    + apply list_elem_of_fmap in Hkl as (f & -> & [fi Hfi]%list_elem_of_lookup). rewrite (Hentry fi f Hfi) in He.
      assert (i ∈ ids_of fi vs) as H by (destruct (ids_of fi vs); [done|by injection He as <-]).
      apply ids_of_elem in H as (v & rr & Hv & ->). by eapply Hown.
    + rewrite Hother in He by done. by eapply Ho.
  - intros i. destruct (decide (owner i ∈ map key l)) as [Hkl|Hkl].
    + apply list_elem_of_fmap in Hkl as (f & Hki & [fi Hfi]%list_elem_of_lookup).
      assert (i ∈ ids_of fi vs ↔ is_Some (points (e_col e) !! i)) as Hiff.
      { split.
        - intros (v & rr & Hv & ->)%ids_of_elem. rewrite (Hput _ _ _ _ Hv Hfi). by eexists.
        - intros Hs. destruct (decide (i ∈ map (λ x : V * (nat * Rec), chunk_id x.2.2) vs)) as [H|H].
          + apply list_elem_of_fmap in H as ([v [fi' rr]] & -> & Hv). cbn [snd] in *. apply ids_of_elem. exists v, rr.
            destruct (Hin _ _ _ Hv) as (f' & Hfi' & _). pose proof (Hown _ _ _ _ Hv Hfi') as E. rewrite Hki in E.
            assert (fi' = fi) as ->; [|done]. eapply NoDup_lookup; [exact Hk| |]; rewrite list_lookup_fmap.
            * by rewrite Hfi'; cbn; rewrite <- E.
            * by rewrite Hfi.
          + rewrite Habs in Hs by done. apply Hp in Hs as (en & He & _). rewrite Hm in He; [done|]. rewrite Hki.
            apply list_elem_of_fmap_2. by eapply list_elem_of_lookup_2. }
      rewrite <- Hiff, Hki, (Hentry fi f Hfi). destruct (ids_of fi vs) as [|x is_]; [split; [by intros ?%not_elem_of_nil|by intros (? & ? & _)]|].
      split; [intros H; by eexists|]. intros (en & [= <-] & H). done.
    + by rewrite Hother, Hkept.
Qed.

(** *** Dropping what was not seen *)
Lemma drop_entries (zs : list (text * FileEntry)) : ∀ m c,
  (∀ is_ c, (delete_points is_ c).1 = true) → owned m c → NoDup (map fst zs) → (∀ z, z ∈ zs → m !! z.1 = Some z.2) →
  let c' := foldl (λ c ke, (delete_points (point_ids ke.2) c).2) c zs in
  owned (foldl (λ m ke, delete ke.1 m) m zs) c' ∧ ∀ i, owner i ∉ map fst zs → points c' !! i = points c !! i.
Proof.
  induction zs as [|[k e] zs IH]; intros m c Hdel Ho Hn Hz; cbn zeta; [done|]. cbn [foldl map fst snd] in *.
  apply NoDup_cons in Hn as [Hk Hn].
  destruct (owned_delete m c k e (delete_points (point_ids e) c).2 Ho) as [Ho' Hkeep].
  - by apply (Hz (k, e)), list_elem_of_here.
  - rewrite (surjective_pairing (delete_points _ _)) at 1. by rewrite Hdel.
  - destruct (IH (delete k m) _ Hdel Ho' Hn) as [Ho2 Hkeep2].
    + intros z Hin. rewrite lookup_delete_ne; [by apply Hz, list_elem_of_further|]. intros ->. apply Hk.
      by apply list_elem_of_fmap_2.
    + split; [done|]. intros i [Hi1 Hi2]%not_elem_of_cons. rewrite Hkeep2 by done. by apply Hkeep.
Qed.

Lemma drop_stale_spec seen m c r :
  (∀ is_ c, (delete_points is_ c).1 = true) → owned m c →
  let '(m', c', _) := drop_stale seen m c r in
  owned m' c' ∧ (∀ k, m' !! k = if decide (k ∈ seen) then m !! k else None)
  ∧ ∀ i, owner i ∈ seen → points c' !! i = points c !! i.
Proof.
  intros Hdel Ho. unfold drop_stale. cbn zeta. set (stale := filter (λ ke : text * FileEntry, ke.1 ∉ seen) m).
  destruct (drop_entries (map_to_list stale) m c Hdel Ho) as [Ho' Hkeep].
  { apply NoDup_fst_map_to_list. }
  { intros [k e] Hin%elem_of_map_to_list. by apply map_lookup_filter_Some in Hin as [Hin _]. }
  assert (∀ k, filter (λ ke : text * FileEntry, ke.1 ∈ seen) m !! k = if decide (k ∈ seen) then m !! k else None) as Hl.
  { intros k. destruct (decide (k ∈ seen)) as [Hk|Hk].
    - destruct (m !! k) as [e|] eqn:E; [by apply map_lookup_filter_Some|]. apply map_lookup_filter_None. by left.
    - apply map_lookup_filter_None. by right. }
  split_and!; [|exact Hl|].
  - replace (filter (λ ke : text * FileEntry, ke.1 ∈ seen) m) with (foldl (λ m ke, delete ke.1 m) m (map_to_list stale)); [done|]. apply map_eq. intros k.
    rewrite Hl. assert (∀ zs m, foldl (λ (m : gmap text FileEntry) (ke : text * FileEntry), delete ke.1 m) m zs !! k
      = if decide (k ∈ map fst zs) then None else m !! k) as Hf.
    { clear. induction zs as [|[j e] zs IH]; intros m; [done|]. cbn [foldl map fst]. rewrite IH.
      destruct (decide (k ∈ map fst zs)); [rewrite decide_True; [done|by apply list_elem_of_further]|].
      destruct (decide (k = j)) as [->|Hne]; [rewrite lookup_delete_eq, decide_True; [done|apply list_elem_of_here]|].
      rewrite lookup_delete_ne, decide_False by (done || by intros [|]%elem_of_cons). done. }
    rewrite Hf. destruct (decide (k ∈ seen)) as [Hk|Hk].
    + rewrite decide_False; [done|]. intros ([j e] & -> & Hin%elem_of_map_to_list)%list_elem_of_fmap.
      by apply map_lookup_filter_Some in Hin as [_ Hin].
    + destruct (m !! k) as [e|] eqn:E; [|by case_decide]. rewrite decide_True; [done|]. apply list_elem_of_fmap. exists (k, e).
      split; [done|]. apply elem_of_map_to_list. by apply map_lookup_filter_Some.
  - intros i Hi. apply Hkeep. intros ([j e] & E & Hin%elem_of_map_to_list)%list_elem_of_fmap.
    apply map_lookup_filter_Some in Hin as [_ Hin]. cbn in *. by rewrite <- E in Hin.
Qed.

(** *** The cancellation flag is only set *)

Definition later (ctx ctx' : RunCtx) : Prop := (not_cancelled ctx' → not_cancelled ctx) ∧ (ctx = None → ctx' = None).
#[local] Instance later_refl : Reflexive later.
Proof. by intros ctx. Qed.
#[local] Instance later_trans : Transitive later.
Proof. intros a b c [H1 H2] [H3 H4]. split; auto. Qed.
Lemma later_cancelled ctx : later ctx (cancelled ctx).2.
Proof. split; destruct ctx as [[|n]|]; done. Qed.

(** The state a loop ends in. *)
Definition ends {A} (P : A → Prop) (f : Flow A) : Prop := match f with Go a | Halt a => P a | Fail _ _ => True end.

Lemma visit_later full job p s : ends (λ s', later (s_ctx s) (s_ctx s')) (visit full job p s).
Proof.
  pose proof (visit_cases full job p s) as H. cbn zeta in H. destruct (visit full job p s); cbn; [|done|done].
  by destruct H as (_ & -> & _).
Qed.
Lemma scan_dents_later full job ds : ∀ s, ends (λ s', later (s_ctx s) (s_ctx s')) (scan_dents full job ds s).
Proof.
  induction ds as [|d ds IH]; intros s; cbn [KIndex.scan_dents]; [done|].
  pose proof (later_cancelled (s_ctx s)) as Hc. destruct (cancelled (s_ctx s)) as [stop ctx]. cbn [snd] in Hc.
  set (s1 := mkScan _ _ _ _ _ ctx). change ctx with (s_ctx s1) in Hc. destruct stop; [done|]. destruct d as [p|].
  - pose proof (visit_later full job p s1) as Hv. destruct (visit full job p s1) as [s'|s'|e s']; [|cbn in *; by etransitivity|done].
    specialize (IH s'). destruct (scan_dents full job ds s'); cbn in *; [by do 2 (etransitivity; [done|])..|done].
  - specialize (IH s1). destruct (scan_dents full job ds s1); cbn in *; [by etransitivity..|done].
Qed.
Lemma scan_jobs_later full jobs : ∀ s, ends (λ s', later (s_ctx s) (s_ctx s')) (scan_jobs full jobs s).
Proof.
  induction jobs as [|job jobs IH]; intros s; cbn [KIndex.scan_jobs]; [done|]. destruct (negb _); [apply IH|].
  pose proof (scan_dents_later full job (walk job) s) as H. destruct (scan_dents full job (walk job) s) as [s'|s'|e s']; [|done|done].
  specialize (IH s'). destruct (scan_jobs full jobs s'); cbn in *; [by etransitivity..|done].
Qed.
Lemma flush_later files e : ends (λ e', later (e_ctx e) (e_ctx e')) (flush_batch files e).
Proof.
  unfold KIndex.flush_batch. destruct (batch e); [done|]. pose proof (later_cancelled (e_ctx e)) as Hc.
  destruct (cancelled (e_ctx e)) as [stop ctx]. destruct stop; [done|]. destruct (embed_batch _); [|done].
  by destruct (upsert _ _) as [[] c].
Qed.
Lemma embed_records_later files fi rs : ∀ e,
  ends (λ e', later (e_ctx e) (e_ctx e')) (embed_records mtime_embed embed_batch sparse files fi rs e).
Proof.
  induction rs as [|r rs IH]; intros e; cbn [KIndex.embed_records]; [done|]. set (e1 := mkEmb _ _ _ _ (e_ctx e)).
  destruct (UPSERT_BATCH <=? _); [|apply (IH e1)]. pose proof (flush_later files e1) as Hf.
  destruct (flush_batch files e1) as [e'|e'|m e']; [|done|done]. pose proof (later_cancelled (e_ctx e')) as Hc.
  destruct (cancelled (e_ctx e')) as [stop ctx]. cbn in Hf, Hc. destruct stop; [cbn; by etransitivity|].
  specialize (IH (mkEmb (batch e') (ids e') (e_col e') (e_report e') ctx)).
  destruct (embed_records _ _ _ _ _ _ _); cbn in *; [by do 2 (etransitivity; [done|])..|done].
Qed.
Lemma embed_files_later files todo : ∀ e,
  ends (λ e', later (e_ctx e) (e_ctx e')) (embed_files mtime_embed embed_batch sparse files todo e).
Proof.
  induction todo as [|[fi item] todo IH]; intros e; cbn [KIndex.embed_files]; [done|].
  pose proof (later_cancelled (e_ctx e)) as Hc. destruct (cancelled (e_ctx e)) as [stop ctx]. cbn in Hc. destruct stop; [done|].
  set (e1 := mkEmb _ _ _ _ ctx). pose proof (embed_records_later files fi (records_of item) e1) as Hr.
  destruct (embed_records _ _ _ _ _ _ _) as [e'|e'|m e']; [|cbn in *; by etransitivity|done].
  specialize (IH e'). destruct (embed_files _ _ _ _ _ _); cbn in *; [by do 2 (etransitivity; [done|])..|done].
Qed.
Lemma ctx_stays files c0 r ctx : ends (λ e', later ctx (e_ctx e')) (embed_all files c0 r ctx).
Proof.
  unfold KIndex.embed_all. pose proof (embed_files_later files (imap pair files) (mkEmb [] (map (λ _, []) files) c0 r ctx)) as H.
  destruct (embed_files _ _ _ _ _ _) as [e|e|m e]; [| |done]; pose proof (flush_later files e) as Hf;
    destruct (flush_batch files e); cbn in *; try done; by etransitivity.
Qed.

(** *** The whole pass *)

Local Notation index_jobs := (index_jobs is_file extract mtime_walk mtime_embed mtime_commit hash_text file_records embed_batch sparse).
Local Notation run_index := (run_index is_file extract mtime_walk mtime_embed mtime_commit hash_text file_records embed_batch sparse).

Lemma not_cancelled_none : not_cancelled None.
Proof. done. Qed.
(** How a pass that succeeds has gone: the part of the walks it scanned, what of
    it went in, and whether that is all of it. *)
Record passed (full : bool) (files0 : gmap text FileEntry) (c0 : C) (jobs : list IndexJob) (ps : list (IndexJob * path))
    (vs : list (V * (nat * Rec))) (m1 : gmap text FileEntry) (c1 : C) : Prop := {
  pa_pairs : ∃ k, ps = take k (pairs jobs);
  pa_recorded : ∃ m0 cs, scanned_to full files0 c0 ps (mkScan m0 cs no_report (seen_in ps) (queued full files0 ps) None)
                  ∧ recorded (queued full files0 ps) m0 cs vs m1 c1;
  pa_vs : map snd vs `prefix_of` all_records (queued full files0 ps)
}.

Lemma scan_start full files0 c0 ctx : owned files0 c0 → scanned_to full files0 c0 [] (mkScan files0 c0 no_report ∅ [] ctx).
Proof. by split. Qed.

(** After the scan [s] of the pairs [ps]: the embedding and the recording. *)
Lemma embed_and_commit full files0 c0 jobs k s :
  NoDup (map snd (pairs jobs)) → scanned_to full files0 c0 (take k (pairs jobs)) s →
  match embed_all (pending s) (s_col s) (s_report s) (s_ctx s) with
  | Go em =>
      ∃ vs, passed full files0 c0 jobs (take k (pairs jobs)) vs
              (foldl (commit_file mtime_commit) (s_files s, e_report em) (zip (pending s) (ids em))).1 (e_col em)
        ∧ (not_cancelled (e_ctx em) → map snd vs = all_records (queued full files0 (take k (pairs jobs))))
  | Halt _ => False
  | Fail _ _ => True
  end.
Proof.
  intros Hn Hs. pose proof (embed_all_spec (pending s) (s_col s) (s_report s) (s_ctx s)) as H.
  destruct (embed_all _ _ _ _) as [em|em|m em]; [|done|done]. destruct H as (vs & He & Hpre & Hall). exists vs.
  pose proof Hs as [Hp Hf Hseen Ho Hc]. rewrite Hp in *. split; [split|done].
  - by exists k.
  - exists (s_files s), (s_col s). split; [by split|]. apply commit_spec; try done.
    + apply queued_ok. rewrite <- firstn_map. eapply sublist_NoDup; [exact Hn|apply sublist_take].
    + intros q Hq. rewrite Hf. by rewrite decide_True.
  - done.
Qed.

Lemma index_core full files0 only jobs c ctx r files' c' :
  (full = true → files0 = ∅) → NoDup (map snd (pairs jobs)) → owned files0 c →
  index_jobs only full jobs files0 c ctx = (Ok r, files', c') →
  ∃ ps vs m1 c1, passed full files0 c jobs ps vs m1 c1
    ∧ ((ctx = None → only = true) ∧ files' = m1 ∧ c' = c1
       ∨ ps = pairs jobs ∧ map snd vs = all_records (queued full files0 ps) 
         ∧ ∃ r1 r2, drop_stale (seen_in ps) m1 c1 r1 = (files', c', r2)).
Proof.
  intros Hfull Hn Ho. unfold KIndex.index_jobs.
  pose proof (scan_jobs_spec full files0 c jobs [] _ Hfull (scan_start full files0 c ctx Ho) Hn) as Hs. cbn [app] in Hs.
  assert (∀ k s, scanned_to full files0 c (take k (pairs jobs)) s → (not_cancelled (s_ctx s) → take k (pairs jobs) = pairs jobs) →
    (ctx = None → s_ctx s = None) →
    match embed_all (pending s) (s_col s) (s_report s) (s_ctx s) with
    | Fail e em => (Err e, s_files s, e_col em)
    | Go em | Halt em =>
        let '(files, r) := foldl (commit_file mtime_commit) (s_files s, e_report em) (zip (pending s) (ids em)) in
        if only then (Ok r, files, e_col em)
        else
          let '(stop, _) := cancelled (e_ctx em) in
          if stop then (Ok r, files, e_col em)
          else let '(files, c, r) := drop_stale (seen s) files (e_col em) r in (Ok r, files, c)
    end = (Ok r, files', c') →
    ∃ ps vs m1 c1, passed full files0 c jobs ps vs m1 c1
    ∧ ((ctx = None → only = true) ∧ files' = m1 ∧ c' = c1
       ∨ ps = pairs jobs ∧ map snd vs = all_records (queued full files0 ps) 
         ∧ ∃ r1 r2, drop_stale (seen_in ps) m1 c1 r1 = (files', c', r2))) as Hrest.
  { intros k s Hk Hall Hctx. pose proof (embed_and_commit full files0 c jobs k s Hn Hk) as He.
    pose proof (ctx_stays (pending s) (s_col s) (s_report s) (s_ctx s)) as Hst.
    destruct (embed_all _ _ _ _) as [em|em|m em]; [|done|by intros]. intros H. destruct He as (vs & Hp & Hv).
    destruct (foldl _ _ _) as [m1 r1]. cbn [fst] in Hp. exists (take k (pairs jobs)), vs, m1, (e_col em).
    split; [done|]. destruct only; [left; by injection H as <- <- <-|].
    destruct (cancelled (e_ctx em)) as [stop ctx'] eqn:Ec. destruct stop.
    - left. injection H as <- <- <-. split; [|done]. intros Hnone. exfalso. destruct Hst as [_ Hst].
      rewrite (Hst (Hctx Hnone)) in Ec. done.
    - right. assert (not_cancelled (e_ctx em)) as Hnc by (unfold not_cancelled; by rewrite Ec).
      split_and!; [apply Hall; by apply Hst|by apply Hv|]. rewrite (sc_seen _ _ _ _ _ Hk) in H.
      destruct (drop_stale (seen_in _) m1 _ r1) as [[m2 c2] r2] eqn:Ed. injection H as <- <- <-. by exists r1, r2. }
  pose proof (scan_jobs_later full jobs (mkScan files0 c no_report ∅ [] ctx)) as Hl.
  destruct (scan_jobs full jobs _) as [s|s|e s]; [| |done].
  - apply (Hrest (length (pairs jobs))); [by rewrite take_ge|by rewrite take_ge|apply Hl].
  - destruct Hs as (k & Hk & Hc). apply (Hrest k); [done|done|apply Hl].
Qed.

Lemma index_owns_all full only jobs files0 c ctx r files' c' :
  (full = true → files0 = ∅) → NoDup (map snd (pairs jobs)) → (∀ is_ c, (delete_points is_ c).1 = true) →
  owned files0 c → index_jobs only full jobs files0 c ctx = (Ok r, files', c') → owned files' c'.
Proof.
  intros Hfull Hn Hdel Ho H. destruct (index_core _ _ _ _ _ _ _ _ _ Hfull Hn Ho H)
    as (ps & vs & m1 & c1 & [_ (m0 & cs & _ & Hrec) _] & [(_ & -> & ->)|(_ & _ & r1 & r2 & Hd)]).
  - by apply Hrec.
  - pose proof (drop_stale_spec (seen_in ps) m1 c1 r1 Hdel (rc_owned _ _ _ _ _ _ Hrec)) as Hs. rewrite Hd in Hs. apply Hs.
Qed.


Definition ids_at (fi : nat) (ms : list (nat * Rec)) : list string :=
  omap (λ x : nat * Rec, if decide (x.1 = fi) then Some (chunk_id x.2) else None) ms.
Lemma ids_at_file fi i rs : ids_at fi (map (pair i) rs) = if decide (i = fi) then map chunk_id rs else [].
Proof.
  induction rs as [|r rs IH]; [by case_decide|]. cbn [map]. unfold ids_at in *. cbn [omap list_omap fst snd].
  destruct (decide (i = fi)); [by rewrite IH|done].
Qed.
Lemma ids_at_all (l : list PendingFile) fi :
  ids_at fi (all_records l) = match l !! fi with Some f => map chunk_id (records_of f) | None => [] end.
Proof.
  induction l as [|f l IH] using rev_ind; [done|]. unfold all_records, ids_at in *. rewrite imap_app, concat_app, omap_app, IH.
  cbn [imap concat]. rewrite app_nil_r. fold (ids_at fi (map (pair (length l + 0)) (records_of f))). rewrite ids_at_file, Nat.add_0_r.
  destruct (decide (length l = fi)) as [<-|Hne].
  - rewrite lookup_ge_None_2 by done. by rewrite list_lookup_middle.
  - rewrite app_nil_r. destruct (decide (fi < length l)) as [Hlt|Hge]; [by rewrite lookup_app_l|].
    rewrite !lookup_ge_None_2; [done|rewrite length_app; cbn; lia|lia].
Qed.
Lemma ids_of_all (l : list PendingFile) fi vs :
  map snd vs = all_records l → ids_of fi vs = match l !! fi with Some f => map chunk_id (records_of f) | None => [] end.
Proof.
  intros Hv. rewrite <- ids_at_all, <- Hv. unfold ids_of, ids_at. clear Hv.
  induction vs as [|x vs IH]; [done|]. cbn [map omap list_omap]. by rewrite IH.
Qed.

Lemma queued_elem full files0 ps job p f :
  (job, p) ∈ ps → wanted full (files0 !! p) (job, p) = Some f → f ∈ queued full files0 ps.
Proof. intros Hin Hw. apply list_elem_of_omap. by exists (job, p). Qed.
Lemma queued_key full files0 ps job p :
  NoDup (map snd ps) → (job, p) ∈ ps → p ∈ map key (queued full files0 ps) → is_Some (wanted full (files0 !! p) (job, p)).
Proof.
  intros Hn Hin (f & Hk & ([job' p'] & Hin' & Hw)%list_elem_of_omap)%list_elem_of_fmap.
  pose proof (wanted_item _ _ _ _ _ Hw) as [Hk' _]. rewrite Hk' in Hk. subst p'. cbn [snd] in Hw.
  assert (job' = job) as ->; [|by exists f].
  apply list_elem_of_lookup in Hin as [i Hi], Hin' as [j Hj]. assert (i = j) as ->; [|congruence].
  eapply NoDup_lookup; [exact Hn| |]; rewrite list_lookup_fmap; [by rewrite Hi|by rewrite Hj].
Qed.
Lemma seen_in_spec ps k : k ∈ seen_in ps ↔ ∃ job, (job, k) ∈ ps ∧ excluded is_file job k = false.
Proof.
  unfold seen_in. rewrite elem_of_list_to_set, list_elem_of_fmap. split.
  - intros ([job p] & -> & [He Hin]%list_elem_of_filter). by exists job.
  - intros (job & Hin & He). exists (job, k). split; [done|]. by apply list_elem_of_filter.
Qed.


End facts.

End KIndex.

(** ** A store in memory, and passes over it *)

Module KSample.
Import KManifest KState KIndex.

Definition P : Type := Point unit unit.
#[export] Instance memory : VectorStore (gmap string P) P pid := {
  points c := c;
  upsert ps c := (true, foldl (λ m p, <[pid p := p]> m) c ps);
  delete_points is_ c := (true, foldl (λ m i, delete i m) c is_);
  drop_collection c := (true, ∅);
  ensure_collection c := (true, c)
}.
#[export] Instance memory_laws : VectorStoreLaws (gmap string P) P pid.
Proof. split; [by intros ps c c' [= <-]|by intros ids c c' [= <-]|by intros c c' [= <-]|by intros c c' [= <-]]. Qed.

(** Point ids that can be read back. *)
Fixpoint pos_str (p : positive) : string :=
  match p with xH => "" | xO p => String Ascii.zero (pos_str p) | xI p => String Ascii.one (pos_str p) end.
Fixpoint str_pos (s : string) : positive :=
  match s with EmptyString => xH | String c s => if Ascii.eqb c Ascii.one then xI (str_pos s) else xO (str_pos s) end.
Lemma str_pos_str p : str_pos (pos_str p) = p.
Proof. by induction p as [p IH|p IH|]; cbn; rewrite ?IH. Qed.
Definition sample_id (k : text) (i : Z) : string := pos_str (encode (k, i)).
Definition sample_owner (i : string) : text := match decode (A := text * Z) (str_pos i) with Some (k, _) => k | None => [] end.
(** One record a character. *)
Definition sample_records (_ : SourceKind) (k t : text) : list Rec :=
  imap (λ i c, mkRec [c] (plain_payload (Z.of_nat i)) (sample_id k (Z.of_nat i))) t.
Lemma sample_owner_records fk k t r : r ∈ sample_records fk k t → sample_owner (chunk_id r) = k.
Proof.
  intros (i & c & -> & _)%elem_of_lookup_imap. unfold sample_owner, sample_id. cbn. by rewrite str_pos_str, decode_encode.
Qed.
Lemma sample_ids_differ fk k t : NoDup (map chunk_id (sample_records fk k t)).
Proof.
  apply NoDup_alt. intros i j x Hi Hj. unfold sample_records in *. rewrite list_lookup_fmap, list_lookup_imap in Hi, Hj.
  destruct (t !! i); [|done]. destruct (t !! j); [|done]. cbn in Hi, Hj. injection Hi as <-. injection Hj as E.
  unfold sample_id in E. apply (f_equal str_pos) in E. rewrite !str_pos_str in E. apply encode_inj in E. injection E. lia.
Qed.
Definition sample_embed (ts : list text) : result (list unit) text := Ok (map (λ _, tt) ts).
Lemma sample_embed_length ts vs : sample_embed ts = Ok vs → length vs = length ts.
Proof. intros [= <-]. apply length_map. Qed.

(** A pass over a folder whose files change at the times given. *)
Definition sample_pass (extract : path → Z → result Extract.Extracted text) (before after : Z) (full : bool) (paths : list path)
    (files : gmap text FileEntry) (c : gmap string P) (ctx : RunCtx) :=
  index_jobs (λ _, true) extract (λ _, before) (λ _, after) (λ _, after) (λ _, "h") sample_records sample_embed (λ _, tt)
    false full [mkJob true (lit "/s") Generic (map Some paths) None 100 []] files c ctx.
Definition sample_text (t : text) (_ : path) (_ : Z) : result Extract.Extracted text := Ok (Extract.TextOf t).


Definition sample_job : IndexJob := mkJob true (lit "/s") Generic [Some (lit "/s/f")] None 100 [].
Definition sample_file : PendingFile :=
  mkPending (lit "/s/f") (lit "/s/f") "h" (sample_records Generic (lit "/s/f") (lit "ab")) (lit "/s") [] Generic.

(** A pass cancelled inside a file of more than one batch: the file is recorded
    with the points that went in, and the next pass finds it unchanged. *)
Definition long_text : text := replicate 65 97%Z.
Example cancelled_file_is_recorded :
  let '(_, files1, c1) := sample_pass (sample_text long_text) 1 1 false [lit "/s/f"] ∅ ∅ (Some 3) in
  let '(_, files2, c2) := sample_pass (sample_text long_text) 1 1 false [lit "/s/f"] files1 c1 None in
  (length ∘ point_ids <$> files1 !! lit "/s/f") = Some 64 ∧ (length ∘ point_ids <$> files2 !! lit "/s/f") = Some 64 ∧ size c2 = 64.
Proof. vm_compute. split_and!; done. Qed.

(** A file of which nothing is left to index keeps the points of what it held. *)
Example emptied_file_keeps_its_points :
  let '(_, files1, c1) := sample_pass (sample_text (lit "ab")) 1 1 false [lit "/s/f"] ∅ ∅ None in
  let '(_, files2, c2) := sample_pass (λ _ _, Ok (Extract.Skip Extract.Unsupported)) 2 2 false [lit "/s/f"] files1 c1 None in
  files2 = files1 ∧ size c2 = 2.
Proof. vm_compute. split; done. Qed.

(** A file that changes after it is read and before it is recorded is recorded
    with its new time and its old text: the next pass takes it as unchanged. *)
Example change_during_a_pass_is_lost :
  let '(_, files1, c1) := sample_pass (sample_text (lit "a")) 1 2 false [lit "/s/f"] ∅ ∅ None in
  let '(_, files2, c2) := sample_pass (sample_text (lit "b")) 2 2 false [lit "/s/f"] files1 c1 None in
  files2 = files1 ∧ (pchunk_text <$> c2 !! sample_id (lit "/s/f") 0) = Some (lit "a").
Proof. vm_compute. split; done. Qed.

(** A resync that fails after the collection is dropped leaves the old index on
    disk: the passes after it find every file unchanged, and the store empty. *)
Definition sample_resync (extract : path → Z → result Extract.Extracted text) (full : bool) (d : KIndex.Disk) :=
  (if full then run_full_resync else run_one_pass)
    (λ _, true) extract (λ _, 1%Z) (λ _, 1%Z) (λ _, 1%Z) (λ _, "h") sample_records sample_embed (λ _, tt)
    true 9%Z (Ok [mkJob true (lit "/s") Generic [Some (lit "/s/f")] None 100 []]) None d.
Example failed_resync_empties_the_store :
  let d0 := KIndex.mkDisk None (∅ : gmap string P) in
  let '(e1, d1) := sample_resync (sample_text (lit "ab")) false d0 in
  let '(e2, d2) := sample_resync (λ _ _, Err (lit "stat")) true d1 in
  let '(e3, d3) := sample_resync (sample_text (lit "ab")) false d2 in
  e1 = None ∧ size (store_ d1) = 2 ∧ e2 = Some (lit "stat") ∧ e3 = None ∧ size (store_ d3) = 0
  ∧ (files <$> index_json d3) = (files <$> index_json d1).
Proof. vm_compute. split_and!; done. Qed.

(** A resync of which the drop fails keeps every point of the collection that is
    still there, and forgets them: no later pass deletes them. *)
Section undropped.
Definition undropped : VectorStore (gmap string P) P pid :=
  {| points c := c; upsert := upsert; delete_points := delete_points; drop_collection c := (false, c); ensure_collection c := (true, c) |}.
#[local] Existing Instance undropped | 0.
Example undropped_points_are_orphans :
  let old := build_point (λ _, 1%Z) (λ _, tt) tt (mkRec (lit "x") (plain_payload 0) "old") (mkPending (lit "/s/gone") (lit "/s/gone") "h" [] (lit "/s") [] Generic) in
  let d0 := KIndex.mkDisk (Some (mkIndex {[lit "/s/gone" := mkEntry 1 "h" ["old"]]} 0 1)) {["old" := old]} in
  let '(e, d) := run_full_resync (λ _, true) (sample_text (lit "ab")) (λ _, 1%Z) (λ _, 1%Z) (λ _, 1%Z) (λ _, "h") sample_records
    sample_embed (λ _, tt) true 9%Z (Ok [mkJob true (lit "/s") Generic [Some (lit "/s/f")] None 100 []]) None d0 in
  e = None ∧ size (store_ d) = 3 ∧ (λ i, files i !! lit "/s/gone") <$> index_json d = Some None.
Proof. vm_compute. split_and!; done. Qed.
End undropped.

(** With no job left nothing is dropped. *)
Example last_source_keeps_its_points :
  let e := mkEntry 1 "h" ["x"] in
  (run_index (λ _, true) (sample_text []) (λ _, 1%Z) (λ _, 1%Z) (λ _, 1%Z) (λ _, "h") sample_records sample_embed (λ _, tt)
    (mkIndex {[lit "/s/f" := e]} 0 1) false false (Ok []) (∅ : gmap string P) None).1.2 = mkIndex {[lit "/s/f" := e]} 0 1.
Proof. reflexivity. Qed.

(** A retired folder takes the entries of its neighbours with it. *)
Example purge_takes_neighbours :
  files (purge (lit "/h/foo") (mkIndex {[lit "/h/foobar/x" := mkEntry 1 "h" ["x"]]} 0 1)) = ∅.
Proof. reflexivity. Qed.

End KSample.
