(* ===== verification/KnowSearch.v ===== *)
(** * Searching the knowledge index

    [crates/sy-knowledge/src/knowledge/]: the filter of a search
    ([cli.rs build_search_filter], [qdrant.rs build_filter], with the wire type
    of [crates/sy-ipc/src/aiplane.rs]), the expansion of a query by synonyms and
    by dates ([query.rs]), the confidence of a ranking ([calibrate.rs]), the
    search requests of the daemon ([daemon.rs handle_req],
    [handle_search_rerank]) and the metrics that grade them ([eval.rs]). The
    vector store, the models, the calendar and the floating-point numbers are
    parameters. *)

From S2P Require Import Prelude Lists Vocab Text Paths Lines Utf8 Store KnowText KnowIndex.
Import Lists Text Paths Lines Utf8 Store Pipeline Sources.
Local Open Scope string_scope.
Local Open Scope nat_scope.
Local Open Scope list_scope.

(** ** Filters *)

Module KFilter.
Import KIndex.

(** [ipc::SearchFilter]. *)
Record SearchFilter := mkSFilter {
  date_from : option text; date_to : option text; sfrom : list text; skinds : list text; include_sources : list text;
  exclude_sources : list text; exclude_kinds : list text
}.
Definition no_filter : SearchFilter := mkSFilter None None [] [] [] [] [].
Definition set_dates (a b : text) (f : SearchFilter) : SearchFilter :=
  mkSFilter (Some a) (Some b) (sfrom f) (skinds f) (include_sources f) (exclude_sources f) (exclude_kinds f).

Definition DEFAULT_EXCLUDED_KINDS : list text := map lit ["claude-transcripts"; "agent-history"].
Definition among (x : text) (l : list text) : bool := existsb (λ y, bool_decide (y = x)) l.
Definition build_search_filter (date_from date_to : option text) (from kind include_sources exclude_sources include_opts_in_kinds : list text)
    : SearchFilter :=
  mkSFilter date_from date_to from kind include_sources exclude_sources
    (List.filter (λ dk, negb (among dk kind) && negb (among dk include_opts_in_kinds)) DEFAULT_EXCLUDED_KINDS).
(** [include_opts_into_excluded_kinds], on what [sources::load] gives. *)
Definition include_opts_into_excluded_kinds (section : option KnowledgeSection) (include_sources : list text) : list text :=
  match include_sources, section with
  | [], _ | _, None => []
  | _, Some k =>
      List.filter (λ dk, existsb (λ s, bool_decide (lit (as_kebab (skind s)) = dk) && among (sname s) include_sources) (sources k))
        DEFAULT_EXCLUDED_KINDS
  end.

(** A condition on the payload of a point, and [qdrant::build_filter]: what must
    hold, and what must not. *)
Inductive Condition : Type :=
  | Range (key : string) (gte lte : option text)
  | MatchAny (key : string) (vals : list text)
  | MatchText (key : string) (t : text).
Definition QFilter : Type := list Condition * list Condition.
Definition any (key : string) (vals : list text) : list Condition := match vals with [] => [] | _ => [MatchAny key vals] end.
Definition build_filter (f : SearchFilter) (prefix : option text) : option QFilter :=
  let must :=
    (match date_from f, date_to f with None, None => [] | a, b => [Range "date" a b] end) ++
    any "from" (sfrom f) ++ any "kind" (skinds f) ++ any "source_name" (include_sources f) ++
    (match prefix with None => [] | Some p => [MatchText "file_path" p] end) in
  let must_not := any "source_name" (exclude_sources f) ++ any "kind" (exclude_kinds f) in
  match must, must_not with [], [] => None | _, _ => Some (must, must_not) end.

Section points.
Context {V S : Type}.
(** The keyword fields of the payload as [PointPayload] serializes them: a field
    without a value is left out. *)
Definition keyword (key : string) (p : Point V S) : option text :=
  if decide (key = "kind") then lit <$> pkind p
  else if decide (key = "source_name") then psource_name p
  else if decide (key = "from") then pfrom p
  else None.

(** How the store tells a condition: the value of a keyword field is one of
    those given. Dates and texts are left to the store. *)
Context (holds : Condition → Point V S → bool).
Definition any_of_values : Prop :=
  ∀ key vals p, key ∈ ["kind"; "source_name"; "from"] →
    holds (MatchAny key vals) p = match keyword key p with Some v => among v vals | None => false end.
Definition passes (f : option QFilter) (p : Point V S) : bool :=
  match f with
  | None => true
  | Some (must, must_not) => forallb (λ c, holds c p) must && forallb (λ c, negb (holds c p)) must_not
  end.

Lemma among_spec x l : among x l = true ↔ x ∈ l.
Proof.
  unfold among. rewrite existsb_exists. split.
  - intros (y & Hy & ->%bool_decide_eq_true). by apply list_elem_of_In.
  - intros H. exists x. split; [by apply list_elem_of_In|by apply bool_decide_eq_true].
Qed.
Lemma forallb_elem {A} (P : A → bool) l x : forallb P l = true → x ∈ l → P x = true.
Proof. rewrite forallb_forall. intros H Hx. by apply H, list_elem_of_In. Qed.

Lemma any_in key vals : vals ≠ [] → MatchAny key vals ∈ any key vals.
Proof. destruct vals; [done|]. intros _. by apply list_elem_of_singleton. Qed.

Lemma passes_parts must must_not p :
  passes (match must, must_not with [], [] => None | _, _ => Some (must, must_not) end) p = true →
  (∀ c, c ∈ must → holds c p = true) ∧ (∀ c, c ∈ must_not → holds c p = false).
Proof.
  intros H.
  assert (forallb (λ c, holds c p) must && forallb (λ c, negb (holds c p)) must_not = true) as [H1 H2]%andb_true_iff
    by by destruct must, must_not.
  split; intros c Hc; [by apply (forallb_elem (λ c, holds c p) must)|].
  by apply negb_true_iff, (forallb_elem (λ c, negb (holds c p)) must_not).
Qed.

(** A filter that forbids kinds forbids them, and one that names sources asks
    for one of them. *)
Lemma passes_excludes f prefix p k :
  any_of_values → k ∈ exclude_kinds f → passes (build_filter f prefix) p = true → lit <$> pkind p ≠ Some k.
Proof.
  intros Hany Hk [_ Hn]%passes_parts Ek.
  assert (exclude_kinds f ≠ []) as Hne by (intros E; rewrite E in Hk; by apply not_elem_of_nil in Hk).
  specialize (Hn (MatchAny "kind" (exclude_kinds f))). rewrite Hany in Hn by (repeat constructor).
  unfold keyword in Hn. rewrite decide_True, Ek in Hn by done. apply (proj2 (among_spec k _)) in Hk. rewrite Hk in Hn.
  discriminate Hn. apply elem_of_app. right. by apply any_in.
Qed.
Lemma passes_includes f prefix p :
  any_of_values → include_sources f ≠ [] → passes (build_filter f prefix) p = true → is_Some (psource_name p).
Proof.
  intros Hany Hne [Hm _]%passes_parts. specialize (Hm (MatchAny "source_name" (include_sources f))).
  rewrite Hany in Hm by (constructor 2; repeat constructor). unfold keyword in Hm.
  rewrite decide_False, decide_True in Hm by done. destruct (psource_name p); [done|]. discriminate Hm. do 3 (apply elem_of_app; right). apply elem_of_app; left. by apply any_in.
Qed.

End points.

End KFilter.

(** ** Queries *)

Module KQuery.
Import KFilter.

(** A literal with letters outside ASCII: the strings of this file are UTF-8. *)
Definition ulit (s : string) : text := from_utf8_lossy (lit s).
(** [str::split] at every character that satisfies [sep]. *)
Fixpoint split_when (sep : char → bool) (acc s : text) : list text :=
  match s with
  | [] => [acc]
  | c :: s => if sep c then acc :: split_when sep [] s else split_when sep (acc ++ [c]) s
  end.

Record SynGroup := mkSyn { canonical : text; aliases : list text }.
Definition terms (g : SynGroup) : list text := canonical g :: aliases g.

Section query.
(** [char::is_alphanumeric] and [str::to_lowercase]. *)
Context (is_alphanumeric : char → bool) (lower : text → text).

Definition words (s : text) : list text := split_when (λ c, negb (is_alphanumeric c)) [] s.
(** [load_synonyms], on the text of the file when there is one. *)
Definition load_synonyms (from_yaml : text → option (list SynGroup)) (file : option text) : list SynGroup :=
  match file with
  | None => []
  | Some t => match trim t with [] => [] | _ => default [] (from_yaml t) end
  end.
Definition query_mentions (query_lc term : text) : bool := among (lower term) (words query_lc).
Definition add_term (out term : text) : text := if query_mentions (lower out) term then out else out ++ [32%Z] ++ term.
Definition expand_group (query_lc out : text) (g : SynGroup) : text :=
  if existsb (query_mentions query_lc) (terms g) then foldl add_term out (terms g) else out.
Definition expand_synonyms (query : text) (synonyms : list SynGroup) : text :=
  foldl (expand_group (lower query)) query synonyms.

(** *** What the expansion adds *)

Context (Hsplit : ∀ a b, lower (a ++ 32%Z :: b) = lower a ++ 32%Z :: lower b) (Hspace : is_alphanumeric 32 = false).
(** A term that is one word, also when it is written small. *)
Definition one_word (t : text) : Prop := Forall (λ c, is_alphanumeric c = true) (lower t).

Lemma split_when_app sep acc a c b :
  sep c = true → split_when sep acc (a ++ c :: b) = split_when sep acc a ++ split_when sep [] b.
Proof.
  intros Hc. revert acc. induction a as [|x a IH]; intros acc; cbn [app split_when]; [by rewrite Hc|].
  destruct (sep x); [|apply IH]. by rewrite IH.
Qed.
Lemma split_when_word sep acc a : Forall (λ c, sep c = false) a → split_when sep acc a = [acc ++ a].
Proof.
  intros H. revert acc. induction H as [|c a Hc _ IH]; intros acc; cbn [split_when]; [by rewrite app_nil_r|].
  by rewrite Hc, IH, <- app_assoc.
Qed.
Lemma words_app a b : words (a ++ 32%Z :: b) = words a ++ words b.
Proof. apply split_when_app. by rewrite Hspace. Qed.
Lemma words_word t : one_word t → words (lower t) = [lower t].
Proof. intros H. apply (split_when_word _ []). eapply Forall_impl; [exact H|]. by intros c ->. Qed.

Lemma mentions_grows a b term :
  query_mentions (lower a) term = true → query_mentions (lower (a ++ 32%Z :: b)) term = true.
Proof. unfold query_mentions. rewrite !among_spec, Hsplit, words_app, elem_of_app. by left. Qed.
Lemma add_term_mentions out term : one_word term → query_mentions (lower (add_term out term)) term = true.
Proof.
  intros Ht. unfold add_term. destruct (query_mentions (lower out) term) eqn:E; [done|].
  unfold query_mentions. cbn [app]. rewrite among_spec, Hsplit, words_app, (words_word term Ht).
  apply elem_of_app. right. apply list_elem_of_here.
Qed.

(** What is added comes after the text, a blank before each term. *)
Inductive grown (q : text) : text → list text → Prop :=
  | grown_same : grown q q []
  | grown_term out ts t : grown q out ts → grown q (out ++ [32%Z] ++ t) (ts ++ [t]).
Lemma grown_mentions q out ts term :
  grown q out ts → query_mentions (lower q) term = true → query_mentions (lower out) term = true.
Proof. induction 1; intros Hq; [done|]. apply mentions_grows. auto. Qed.
Lemma grown_trans q a b ts us : grown q a ts → grown a b us → grown q b (ts ++ us).
Proof.
  intros Ha. induction 1 as [|out us t _ IH]; [by rewrite app_nil_r|]. rewrite (assoc (++) ts). by constructor.
Qed.
Lemma add_terms_grown l : ∀ out, ∃ ts, grown out (foldl add_term out l) ts ∧ ts ⊆ l.
Proof.
  induction l as [|t l IH]; intros out; [by exists []; split; [constructor|]|].
  cbn [foldl]. destruct (IH (add_term out t)) as (ts & Hg & Hts).
  assert (add_term out t = out ∨ add_term out t = out ++ [32%Z] ++ t) as [E|E]
    by (unfold add_term; destruct (query_mentions (lower out) t); tauto); rewrite E in *.
  - exists ts. split; [exact Hg|]. set_solver.
  - exists ([t] ++ ts). split; [|set_solver]. eapply grown_trans; [|exact Hg]. apply (grown_term out out [] t). constructor.
Qed.
Lemma add_terms_mentions l t out : t ∈ l → one_word t → query_mentions (lower (foldl add_term out l)) t = true.
Proof.
  intros Hin Ht. revert out. induction l as [|u l IH]; intros out; [by apply not_elem_of_nil in Hin|].
  cbn [foldl]. apply elem_of_cons in Hin as [<-|Hin]; [|by apply IH].
  destruct (add_terms_grown l (add_term out t)) as (ts & Hg & _). eapply grown_mentions; [exact Hg|]. by apply add_term_mentions.
Qed.

(** The sparse query of a search: the query as it was written, and after it
    terms of the synonym groups it mentions, nothing else; and every term of
    such a group that is one word is mentioned in the result, so the lexical leg
    matches it. *)
Theorem expansion_adds_the_groups query synonyms :
  let out := expand_synonyms query synonyms in
  let hit g := existsb (query_mentions (lower query)) (terms g) = true in
  (∃ ts, grown query out ts ∧ ∀ t, t ∈ ts → ∃ g, g ∈ synonyms ∧ hit g ∧ t ∈ terms g)
  ∧ (∀ g t, g ∈ synonyms → hit g → t ∈ terms g → one_word t → query_mentions (lower out) t = true).
Proof.
  cbn zeta. unfold expand_synonyms. set (q := lower query). clearbody q.
  enough (∀ out, (∃ ts, grown out (foldl (expand_group q) out synonyms) ts
      ∧ ∀ t, t ∈ ts → ∃ g, g ∈ synonyms ∧ existsb (query_mentions q) (terms g) = true ∧ t ∈ terms g)
    ∧ (∀ g t, g ∈ synonyms → existsb (query_mentions q) (terms g) = true → t ∈ terms g → one_word t →
        query_mentions (lower (foldl (expand_group q) out synonyms)) t = true)) as H by apply H.
  induction synonyms as [|g gs IH]; intros out.
  { split; [exists []; split; [constructor 1|by intros ? ?%not_elem_of_nil]|by intros ? ? ?%not_elem_of_nil]. }
  cbn [foldl]. destruct (IH (expand_group q out g)) as [(ts & Hg & Hts) Hm].
  assert (∃ us, grown out (expand_group q out g) us ∧ ∀ t, t ∈ us → existsb (query_mentions q) (terms g) = true ∧ t ∈ terms g) as (us & Hu & Hus).
  { unfold expand_group. destruct (existsb _ (terms g)) eqn:E; [|exists []; split; [constructor 1|by intros ? ?%not_elem_of_nil]].
    destruct (add_terms_grown (terms g) out) as (us & Hu & Hus). exists us. split; [exact Hu|]. intros t Ht. split; [done|]. by apply Hus. }
  split.
  - exists (us ++ ts). split; [by eapply grown_trans|]. intros t [Ht|Ht]%elem_of_app.
    + exists g. destruct (Hus t Ht). split_and!; try done. apply list_elem_of_here.
    + destruct (Hts t Ht) as (g' & Hg' & ? & ?). exists g'. split_and!; try done. by apply list_elem_of_further.
  - intros g' t [->|Hin]%elem_of_cons Hhit Ht Hw; [|by apply (Hm g')].
    eapply grown_mentions; [exact Hg|]. unfold expand_group. rewrite Hhit. by apply add_terms_mentions.
Qed.
End query.

(** *** Dates *)

(** What the source uses of [chrono], and [two_timer] on a query and a day: the
    first day, and the day after the last. *)
Class Calendar := {
  NaiveDate : Type; from_ymd_opt : Z → Z → Z → option NaiveDate; year_of : NaiveDate → Z;
  add_month : NaiveDate → option NaiveDate; pred_opt : NaiveDate → option NaiveDate; ymd_text : NaiveDate → text;
  two_timer : text → NaiveDate → option (NaiveDate * NaiveDate)
}.

Section dates.
Context (is_alphanumeric : char → bool) (lower : text → text) `{Calendar}.

Definition RU_NEW_YEAR_FROM : Z * Z * Z := (-1, 12, 31)%Z.
Definition RU_NEW_YEAR_TO : Z * Z * Z := (0, 1, 8)%Z.
Definition rfc3339 (d : NaiveDate) (end_of_day : bool) : text :=
  ymd_text d ++ (if end_of_day then lit "T23:59:59Z" else lit "T00:00:00Z").
Definition day_range (a b : NaiveDate) : text * text := (rfc3339 a false, rfc3339 b true).
Definition is_ascii_digit (c : char) : bool := (48 <=? c)%Z && (c <=? 57)%Z.
Definition year_in (query : text) : option Z :=
  List.find (λ t, Nat.eqb (length t) 4) (split_when (λ c, negb (is_ascii_digit c)) [] query) ≫= parse_digits 0.
Definition season_range (season : text) : option ((Z * Z) * (Z * Z)) :=
  if among season [lit "winter"; ulit "зима"] then Some ((1, 1), (2, 28))%Z
  else if among season [lit "spring"; ulit "весна"] then Some ((3, 1), (5, 31))%Z
  else if among season [lit "summer"; ulit "лето"] then Some ((6, 1), (8, 31))%Z
  else if among season [lit "fall"; lit "autumn"; ulit "осень"] then Some ((9, 1), (11, 30))%Z
  else None.
Definition MONTHS : list text :=
  map lit ["january"; "february"; "march"; "april"; "may"; "june"; "july"; "august"; "september"; "october"; "november"; "december"].
Definition english_month (q : text) (now : NaiveDate) : option (text * text) :=
  match head (omap (λ tok, position (λ m, bool_decide (m = tok)) MONTHS) (words is_alphanumeric q)) with
  | None => None
  | Some i =>
      let year := default (year_of now) (year_in q) in
      from ← from_ymd_opt year (Z.of_nat i + 1) 1;
      to ← add_month from ≫= pred_opt;
      Some (day_range from to)
  end.
Definition two_timer_range (query : text) (now : NaiveDate) : option (text * text) :=
  (λ r, day_range r.1 (default r.2 (pred_opt r.2))) <$> two_timer query now.
Definition expand_dates (query : text) (now : NaiveDate) : option (text * text) :=
  let q := lower query in
  let has w := among w (words is_alphanumeric q) in
  if has (ulit "новогодние") || (has (ulit "новый") && has (ulit "год")) || has (ulit "праздники") then
    let year := default (year_of now) (year_in q) in
    from ← from_ymd_opt (year + RU_NEW_YEAR_FROM.1.1) RU_NEW_YEAR_FROM.1.2 RU_NEW_YEAR_FROM.2;
    to ← from_ymd_opt year RU_NEW_YEAR_TO.1.2 RU_NEW_YEAR_TO.2;
    Some (day_range from to)
  else
    match head (omap season_range (words is_alphanumeric q)) with
    | Some ((fm, fd), (tm, td)) =>
        let year := default (year_of now) (year_in q) in
        let year := if has (lit "last") || has (ulit "прошлым") || has (ulit "прошлое") || has (ulit "прошлой") then (year - 1)%Z else year in
        from ← from_ymd_opt year fm fd;
        to ← from_ymd_opt year tm td;
        Some (day_range from to)
    | None =>
        match english_month q now with Some r => Some r | None => two_timer_range query now end
    end.
Definition maybe_fill_dates (f : SearchFilter) (query : text) (now : NaiveDate) : SearchFilter :=
  match date_from f, date_to f with
  | None, None => match expand_dates query now with Some (a, b) => set_dates a b f | None => f end
  | _, _ => f
  end.

Lemma fill_keeps f query now :
  let f' := maybe_fill_dates f query now in
  exclude_kinds f' = exclude_kinds f ∧ include_sources f' = include_sources f.
Proof.
  unfold maybe_fill_dates. destruct (date_from f), (date_to f); try done. by destruct (expand_dates query now) as [[]|].
Qed.
End dates.

(** ASCII letters and digits, for the samples. *)
Definition ascii_alnum (c : char) : bool :=
  ((48 <=? c) && (c <=? 57) || (65 <=? c) && (c <=? 90) || (97 <=? c) && (c <=? 122))%Z.
Lemma expansion_adds_the_groups_witness :
  let g := mkSyn (lit "X5") [lit "Chizhik"] in
  expand_synonyms ascii_alnum (map to_ascii_lowercase) (lit "report x5") [g] = lit "report x5 Chizhik"
  ∧ query_mentions ascii_alnum (map to_ascii_lowercase)
      (map to_ascii_lowercase (expand_synonyms ascii_alnum (map to_ascii_lowercase) (lit "report x5") [g])) (lit "Chizhik") = true.
Proof.
  split; [by vm_compute|].
  refine (proj2 (expansion_adds_the_groups ascii_alnum (map to_ascii_lowercase) _ _ (lit "report x5") [mkSyn (lit "X5") [lit "Chizhik"]])
            (mkSyn (lit "X5") [lit "Chizhik"]) (lit "Chizhik") _ _ _ _).
  - intros a b. by rewrite map_app.
  - reflexivity.
  - apply list_elem_of_here.
  - vm_compute. reflexivity.
  - constructor 2. constructor 1.
  - apply (bool_decide_unpack _). vm_compute. exact I.
Defined.

(** A term of two words is never found in a query, not even in one that is that
    term, and it is added again. *)
Example two_word_term_is_not_found :
  let ex q := expand_synonyms ascii_alnum (map to_ascii_lowercase) (lit q) [mkSyn (lit "Pyaterochka") [lit "X5 Group"]] in
  ex "X5 Group" = lit "X5 Group" ∧ ex "Pyaterochka X5 Group" = lit "Pyaterochka X5 Group X5 Group".
Proof. by vm_compute. Qed.

(** Days as year, month and day, for the samples. *)
#[local] Instance sample_calendar : Calendar := {|
  NaiveDate := Z * Z * Z; from_ymd_opt y m d := Some (y, m, d); year_of d := d.1.1;
  add_month d := Some (d.1.1, d.1.2 + 1, d.2)%Z; pred_opt d := Some (d.1.1, d.1.2 - 1, 31)%Z;
  ymd_text d := show_nat d.1.1 ++ lit "-" ++ show_nat d.1.2 ++ lit "-" ++ show_nat d.2; two_timer _ _ := None
|}.
(** The word may, anywhere in a query, makes it a search of that month; and so
    does any word for holidays of the days around the New Year. *)
Example may_is_a_month :
  expand_dates ascii_alnum (map to_ascii_lowercase) (lit "what may break the build") (2026, 1, 1)%Z
    = Some (lit "2026-5-1T00:00:00Z", lit "2026-5-31T23:59:59Z")
  ∧ expand_dates (λ c, ascii_alnum c || (1024 <=? c)%Z) (map to_ascii_lowercase) (ulit "майские праздники 2024") (2026, 1, 1)%Z
    = Some (lit "2023-12-31T00:00:00Z", lit "2024-1-8T23:59:59Z").
Proof. by vm_compute. Qed.

End KQuery.

(** ** Confidence *)

Module KCalibrate.

(** The operations on [f32] that the source uses, by the bits of the number. *)
Class Float32 := {
  fzero : Z; fone : Z; fhalf : Z; ftwo : Z;
  fadd : Z → Z → Z; fsub : Z → Z → Z; fmul : Z → Z → Z; ftanh : Z → Z; flt : Z → Z → bool
}.

Section calibrate.
Context `{Float32}.

Definition MARGIN_GAIN : Z := ftwo.
Definition NEUTRAL_MARGIN : Z := fhalf.
(** [f32::clamp], which keeps a value that compares with neither bound. *)
Definition probability (score : Z) : Z := if flt score fzero then fzero else if flt fone score then fone else score.
Definition margin_weight (margin : Z) : Z := fmul NEUTRAL_MARGIN (fadd fone (ftanh (fmul MARGIN_GAIN margin))).
Definition confidence (top_scores : list Z) : Z :=
  match top_scores with
  | [] => fzero
  | top1 :: rest =>
      let top1 := probability top1 in
      match rest with top2 :: _ => fmul top1 (margin_weight (fsub top1 (probability top2))) | [] => top1 end
  end.
Definition should_abstain (confidence threshold : Z) : bool := flt confidence threshold.
End calibrate.

End KCalibrate.

(** ** Search requests *)

Module KSearch.
Import KIndex KFilter KQuery KCalibrate.

Section search.
Context {V S : Type} `{Float32}.

(** [qdrant::SearchHit], with the payload of the point it is, and the rows of an
    answer. *)
Record SearchHit := mkHit { hid : string; hscore : Z; hpoint : Point V S }.
Record HitRow := mkRow { score : Z; row_id : string; row_file : text; row_chunk : Z; row_text : text; embed_score : option Z }.
Inductive Resp : Type := Search (hits : list HitRow) (confidence : Z) (abstained : bool) | Error (msg : text).

(** The models and the store: the embedding of a text, the queries of qdrant, the
    rerank of the pairs of a query and a text; the synonyms on disk, and the day
    it is. *)
Context (embed_one : text → result V text) (sparse : text → S).
Context (search_with_filter : V → nat → option QFilter → result (list SearchHit) text).
Context (query_hybrid : V → S → option QFilter → nat → result (list SearchHit) text).
Context (rerank : list (text * text) → result (list Workload.WorkloadOutput) text).
Context (is_alphanumeric : char → bool) (lower : text → text) `{Calendar} (synonyms : list SynGroup) (today : NaiveDate).

Definition embed_row (h : SearchHit) : HitRow :=
  mkRow (hscore h) (hid h) (pfile (hpoint h)) (pchunk (hpoint h)) (pchunk_text (hpoint h)) None.
(** The [Search] arm of [handle_req]; [default_search_confidence] is one. *)
Definition search (query : text) (limit : nat) (prefix : option text) (filter : option SearchFilter) : Resp :=
  match embed_one query with
  | Err e => Error (lit "embed: " ++ e)
  | Ok vec =>
      let f := maybe_fill_dates is_alphanumeric lower (default no_filter filter) query today in
      match search_with_filter vec limit (build_filter f prefix) with
      | Err e => Error (lit "qdrant search: " ++ e)
      | Ok hits => Search (map embed_row hits) fone false
      end
  end.

Definition score_of (o : Workload.WorkloadOutput) : option Z := match o with Workload.OutScore s => Some s | _ => None end.
(** The order of the ranking, the higher score first; [partial_cmp] calls two
    scores equal when neither is less. *)
Definition ranks_before (a b : Z * SearchHit) : bool := negb (flt a.1 b.1).
Definition rerank_row (x : Z * SearchHit) : HitRow :=
  mkRow x.1 (hid x.2) (pfile (hpoint x.2)) (pchunk (hpoint x.2)) (pchunk_text (hpoint x.2)) (Some (hscore x.2)).
Definition abstains (confidence : Z) (threshold : option Z) : bool :=
  match threshold with Some t => should_abstain confidence t | None => false end.

(** What follows the query of the store in [handle_search_rerank]. *)
Definition rank_hits (query : text) (limit : nat) (raw_hits : list SearchHit) (abstain_threshold : option Z) : Resp :=
  match raw_hits with
  | [] => Search [] (confidence []) (abstains (confidence []) abstain_threshold)
  | _ =>
      match rerank (map (λ h, (query, pchunk_text (hpoint h))) raw_hits) with
      | Err e => Error (lit "rerank worker: " ++ e)
      | Ok outputs =>
          match mapM score_of outputs with
          | None => Error (lit "rerank: unexpected output")
          | Some scores =>
              let scored := sort_by ranks_before (zip scores raw_hits) in
              let c := confidence (map fst scored) in
              if abstains c abstain_threshold then Search [] c true
              else Search (map rerank_row (take (Nat.min limit (length scored)) scored)) c false
          end
      end
  end.
Definition handle_search_rerank (query : text) (limit : nat) (prefix : option text) (candidates : nat) (filter : SearchFilter)
    (abstain_threshold : option Z) : Resp :=
  let n_candidates := Nat.max (Nat.max candidates limit) 1 in
  match embed_one query with
  | Err e => Error (lit "embed: " ++ e)
  | Ok qvec =>
      let pre_filter := build_filter (maybe_fill_dates is_alphanumeric lower filter query today) prefix in
      match query_hybrid qvec (sparse (expand_synonyms is_alphanumeric lower query synonyms)) pre_filter n_candidates with
      | Err e => Error (lit "qdrant hybrid query: " ++ e)
      | Ok raw_hits => rank_hits query limit raw_hits abstain_threshold
      end
  end.

(** *** What is searched *)

Section filtered.
(** A query of the store answers with points that pass its filter. *)
Context (holds : Condition → Point V S → bool) (Hany : any_of_values holds).
Context (Hdense : ∀ v n f hits, search_with_filter v n f = Ok hits → ∀ h, h ∈ hits → passes holds f (hpoint h) = true).
Context (Hhybrid : ∀ v s f n hits, query_hybrid v s f n = Ok hits → ∀ h, h ∈ hits → passes holds f (hpoint h) = true).

Definition row_of (r : HitRow) (h : SearchHit) : Prop :=
  row_id r = hid h ∧ row_file r = pfile (hpoint h) ∧ row_chunk r = pchunk (hpoint h) ∧ row_text r = pchunk_text (hpoint h).

Lemma rank_hits_rows query limit raw threshold rows c a r :
  rank_hits query limit raw threshold = Search rows c a → r ∈ rows → ∃ h, h ∈ raw ∧ row_of r h.
Proof.
  unfold rank_hits. intros E Hr. destruct raw as [|h0 raw]; [simplify_eq; by apply not_elem_of_nil in Hr|].
  destruct (rerank _) as [outputs|e]; [|done]. destruct (mapM score_of outputs) as [scores|]; [|done]. cbn zeta in E.
  set (scored := sort_by ranks_before (zip scores (h0 :: raw))) in *.
  destruct (abstains _ _); simplify_eq; [by apply not_elem_of_nil in Hr|].
  apply list_elem_of_fmap in Hr as ([s h] & -> & Hin). exists h. split; [|done].
  apply elem_of_take in Hin as (i & Hin%list_elem_of_lookup_2 & _). apply elem_of_sort_by in Hin. by apply elem_of_zip_r in Hin.
Qed.
(** A hit of a query of the store. *)
Definition answered (h : SearchHit) : Prop :=
  ∃ v s f n hits, (search_with_filter v n f = Ok hits ∨ query_hybrid v s f n = Ok hits) ∧ h ∈ hits.
Lemma request_rows (filter : SearchFilter) query limit prefix candidates threshold rows c a r :
  handle_search_rerank query limit prefix candidates filter threshold = Search rows c a ∨ search query limit prefix (Some filter) = Search rows c a →
  r ∈ rows →
  ∃ h f, row_of r h ∧ answered h ∧ passes holds (build_filter f prefix) (hpoint h) = true
    ∧ exclude_kinds f = exclude_kinds filter ∧ include_sources f = include_sources filter.
Proof.
  pose proof (fill_keeps is_alphanumeric lower filter query today) as [Hk Hi].
  set (f := maybe_fill_dates is_alphanumeric lower filter query today) in *.
  unfold handle_search_rerank, search. fold f. cbn [default]. destruct (embed_one query) as [v|e]; [|by intros [[=]|[=]]].
  intros [E|E] Hr.
  - destruct (query_hybrid _ _ _ _) as [raw|e] eqn:Eq; [|done].
    destruct (rank_hits_rows _ _ _ _ _ _ _ _ E Hr) as (h & Hh & Hrow). exists h, f. split_and!; try done; [|by eapply Hhybrid].
    eexists v, _, _, _, raw. split; [right; exact Eq|done].
  - fold f in E. destruct (search_with_filter _ _ _) as [hits|e] eqn:Eq; [|done]. simplify_eq.
    apply list_elem_of_fmap in Hr as (h & -> & Hh). exists h, f. split_and!; try done; [|by eapply Hdense].
    eexists v, (sparse []), _, _, hits. split; [left; exact Eq|done].
Qed.


(** A search that names sources finds nothing: the indexer writes no source
    name into a point, so on a store of points that it built the answer to a
    search with [include_sources] has no rows. *)
Theorem named_sources_find_nothing mtime_embed sparse_of filter query limit prefix candidates threshold rows c a :
  (∀ h, answered h → ∃ v r item, hpoint h = build_point mtime_embed sparse_of v r item) →
  include_sources filter ≠ [] →
  handle_search_rerank query limit prefix candidates filter threshold = Search rows c a ∨ search query limit prefix (Some filter) = Search rows c a →
  rows = [].
Proof.
  intros Hbuilt Hne E. destruct rows as [|r rows]; [done|]. exfalso.
  destruct (request_rows _ _ _ _ _ _ _ _ _ _ E (list_elem_of_here _ _)) as (h & f & _ & Ha & Hp & _ & Hi).
  rewrite <- Hi in Hne. destruct (passes_includes holds f prefix (hpoint h) Hany Hne Hp) as [x Hx].
  destruct (Hbuilt h Ha) as (v & r' & item & Eh). by rewrite Eh in Hx.
Qed.
End filtered.

(** *** The ranking *)

(** The scores are numbers, which [flt] orders. *)
Context (flt_asym : ∀ a b, flt a b = true → flt b a = false)
        (flt_cotrans : ∀ a b c, flt a c = true → flt a b = true ∨ flt b c = true).

Lemma ranks_total a b : ranks_before a b = true ∨ ranks_before b a = true.
Proof. unfold ranks_before. destruct (flt a.1 b.1) eqn:E; [right|by left]. by rewrite (flt_asym _ _ E). Qed.
Lemma ranks_trans a b c : ranks_before a b = true → ranks_before b c = true → ranks_before a c = true.
Proof.
  unfold ranks_before. rewrite !negb_true_iff. intros Hab Hbc. apply not_true_is_false. intros Hac.
  destruct (flt_cotrans _ b.1 _ Hac); congruence.
Qed.
Lemma StronglySorted_app_rel {A} (R : A → A → Prop) (l k : list A) :
  StronglySorted R (l ++ k) → ∀ x y, x ∈ l → y ∈ k → R x y.
Proof.
  induction l as [|z l IH]; intros Hs x y Hx Hy; [by apply not_elem_of_nil in Hx|].
  apply StronglySorted_inv in Hs as [Hs Hz]. apply elem_of_cons in Hx as [->|Hx]; [|by eapply IH].
  rewrite Forall_forall in Hz. apply Hz, elem_of_app. by right.
Qed.

Lemma sorted_mono {A} (R R' : A → A → Prop) (l : list A) :
  (∀ x y, R x y → R' x y) → StronglySorted R l → StronglySorted R' l.
Proof. intros HR. induction 1 as [|x l _ IH Hx]; constructor; [done|]. eapply Forall_impl; [exact Hx|]. auto. Qed.

End search.

(** *** Samples *)

(** Scores in hundredths, and a calendar without days to name. *)
#[local] Instance sample_floats : Float32 :=
  {| fzero := 0; fone := 100; fhalf := 50; ftwo := 200; fadd := Z.add; fsub := Z.sub; fmul a b := (a * b / 100)%Z;
     ftanh a := Z.max (-100) (Z.min 100 a); flt := Z.ltb |}%Z.
#[local] Existing Instance sample_calendar.
Definition sample_day : NaiveDate := (2026, 1, 1)%Z.
Definition sample_point (kind : SourceKind) (t : text) : Point unit unit :=
  build_point (λ _, 1%Z) (λ _, tt) tt (mkRec t (plain_payload 0) "a") (mkPending t t "h" [] t [] kind).
Definition sample_hits : list (SearchHit (V := unit) (S := unit)) :=
  [mkHit "a" 3 (sample_point Generic (lit "note")); mkHit "b" 2 (sample_point AgentHistory (lit "agent"));
   mkHit "c" 1 (sample_point Generic (lit "answer"))].
(** A store that checks the filter as [any_of_values] says. *)
Definition sample_holds (c : Condition) (p : Point unit unit) : bool :=
  match c with MatchAny k vals => match keyword k p with Some v => among v vals | None => false end | _ => true end.
Definition sample_store (f : option QFilter) (n : nat) : result (list SearchHit) text :=
  Ok (take n (List.filter (λ h, passes sample_holds f (hpoint h)) sample_hits)).
Definition sample_rerank (ps : list (text * text)) : result (list Workload.WorkloadOutput) text :=
  Ok (map (λ p, Workload.OutScore (if bool_decide (p.2 = lit "answer") then 90 else 20)%Z) ps).
Definition sample_search := handle_search_rerank (V := unit) (S := unit) (λ _, Ok tt) (λ _, tt) (λ _ _ f n, sample_store f n) sample_rerank
  ascii_alnum (map to_ascii_lowercase) [] sample_day.
Definition sample_plain := search (V := unit) (S := unit) (λ _, Ok tt) (λ _ n f, sample_store f n)
  ascii_alnum (map to_ascii_lowercase) sample_day.
Definition sample_filter (includes : list text) : SearchFilter := build_search_filter None None [] [] includes [] [].

Lemma sample_holds_ok : any_of_values sample_holds.
Proof. by intros key vals p _. Qed.
Lemma sample_store_hits f n hits h :
  sample_store f n = Ok hits → h ∈ hits → h ∈ sample_hits ∧ passes sample_holds f (hpoint h) = true.
Proof.
  unfold sample_store. generalize sample_hits as l. intros l [= <-] (i & Hh%list_elem_of_lookup_2 & _)%elem_of_take.
  by apply list_elem_of_In, filter_In in Hh as [Hh%list_elem_of_In ?].
Qed.
Definition sample_store_ok f n hits (E : sample_store f n = Ok hits) h (Hh : h ∈ hits) := proj2 (sample_store_hits f n hits h E Hh).

Lemma sample_asym a b : flt a b = true → flt b a = false.
Proof. cbn. rewrite Z.ltb_lt, Z.ltb_nlt. lia. Qed.
Lemma sample_cotrans a b c : flt a c = true → flt a b = true ∨ flt b c = true.
Proof. cbn. rewrite !Z.ltb_lt. lia. Qed.
Lemma named_sources_find_nothing_witness :
  ∃ rows c a, sample_plain (lit "q") 8 None (Some (sample_filter [lit "notes"])) = Search rows c a ∧ rows = [].
Proof.
  destruct (sample_plain (lit "q") 8 None (Some (sample_filter [lit "notes"]))) as [rows c a|e] eqn:E; [|discriminate E].
  exists rows, c, a. split; [done|].
  refine (named_sources_find_nothing (V := unit) (S := unit) (λ _, Ok tt) (λ _, tt) (λ _ n f, sample_store f n) (λ _ _ f n, sample_store f n)
            sample_rerank ascii_alnum (map to_ascii_lowercase) [] sample_day sample_holds sample_holds_ok
            (λ _ n f, sample_store_ok f n) (λ _ _ f n, sample_store_ok f n)
            (λ _, 1%Z) (λ _, tt) (sample_filter [lit "notes"]) (lit "q") 8 None 8 None rows c a _ _ (or_intror E)); [|discriminate].
  intros h (v & s & f & n & hits & Hq & Hh).
  assert (h ∈ sample_hits) as Hs.
  { destruct Hq as [Hq|Hq]; exact (proj1 (sample_store_hits _ _ _ _ Hq Hh)). }
  repeat (apply elem_of_cons in Hs as [->|Hs]; [by eexists _, _, _|]). exfalso. exact (not_elem_of_nil _ Hs).
Defined.

(** The answer of the worker is not counted: a candidate without a score is
    dropped. *)
Example missing_scores_drop_candidates :
  rank_hits (V := unit) (S := unit) (λ _, Ok [Workload.OutScore 20]%Z) (lit "q") 8 sample_hits None
    = Search [rerank_row (20%Z, mkHit "a" 3 (sample_point Generic (lit "note")))] 20 false.
Proof. by vm_compute. Qed.

End KSearch.

(** ** Grading *)

Module KEval.

(** The [f64] operations that the metrics use, by the bits of the number. *)
Class Float64 := { dzero : Z; dadd : Z → Z → Z; ddiv : Z → Z → Z; of_usize : nat → Z; dlt : Z → Z → bool }.

Definition RECALL_K : nat := 5.
Record LabelledQuery := mkLabel {
  lquery : text; expected : text; answerable : bool; lkind : option text; ldate_from : option text; ldate_to : option text
}.
Record RankedResult := mkRanked { rids : list text; abstained : bool; rconfidence : Z }.
Record Metrics := mkMetrics {
  recall_at_1 : Z; recall_at_5 : Z; mrr : Z; abstain_accuracy : Z; false_abstain_rate : Z; n : nat
}.
Record QueryOutcome := mkOutcome { oquery : text; oanswerable : bool; rank : option nat; oconfidence : Z; oabstained : bool }.
Record Tolerance := mkTol {
  min_recall_at_1 : Z; min_recall_at_5 : Z; min_mrr : Z; min_abstain_accuracy : Z; max_false_abstain_rate : Z
}.

Definition relevant (expected id : text) : bool := match expected with [] => false | _ => contains id expected end.
Definition hit_at (expected : text) (ids : list text) (rank : nat) : bool :=
  match ids !! rank with Some id => relevant expected id | None => false end.
Definition first_relevant_rank (expected : text) (ids : list text) : option nat := Datatypes.S <$> position (relevant expected) ids.

Section metrics.
Context `{Float64}.

(** What [metrics] counts. *)
Record Tally := mkTally { t_answerable : nat; t_r1 : nat; t_r5 : nat; t_rr : Z; t_correct : nat; t_suppressed : nat }.
Definition count (b : bool) (n : nat) : nat := if b then Datatypes.S n else n.
Definition tally_step (t : Tally) (x : LabelledQuery * RankedResult) : Tally :=
  let '(q, res) := x in
  if answerable q then
    let r1 := count (hit_at (expected q) (rids res) 0) (t_r1 t) in
    match first_relevant_rank (expected q) (rids res) with
    | Some rank =>
        let near := rank <=? RECALL_K in
        mkTally (Datatypes.S (t_answerable t)) r1 (count near (t_r5 t))
          (if near then dadd (t_rr t) (ddiv (of_usize 1) (of_usize rank)) else t_rr t)
          (count near (t_correct t)) (count (abstained res) (t_suppressed t))
    | None => mkTally (Datatypes.S (t_answerable t)) r1 (t_r5 t) (t_rr t) (t_correct t) (t_suppressed t)
    end
  else mkTally (t_answerable t) (t_r1 t) (t_r5 t) (t_rr t) (count (abstained res) (t_correct t)) (t_suppressed t).
Definition tally (l : list (LabelledQuery * RankedResult)) : Tally := foldl tally_step (mkTally 0 0 0 dzero 0 0) l.
Definition metrics (labelled : list LabelledQuery) (ranked : list RankedResult) : Metrics :=
  let n := Nat.min (length labelled) (length ranked) in
  let t := tally (take n (zip labelled ranked)) in
  let over_ans c := if t_answerable t =? 0 then dzero else ddiv (of_usize c) (of_usize (t_answerable t)) in
  mkMetrics (over_ans (t_r1 t)) (over_ans (t_r5 t)) (if t_answerable t =? 0 then dzero else ddiv (t_rr t) (of_usize (t_answerable t)))
    (if n =? 0 then dzero else ddiv (of_usize (t_correct t)) (of_usize n)) (over_ans (t_suppressed t)) n.
Definition per_query (labelled : list LabelledQuery) (ranked : list RankedResult) : list QueryOutcome :=
  map (λ x, mkOutcome (lquery x.1) (answerable x.1) (first_relevant_rank (expected x.1) (rids x.2)) (rconfidence x.2) (abstained x.2))
    (take (Nat.min (length labelled) (length ranked)) (zip labelled ranked)).
(** The metric that [Tolerance::regression] names. *)
Definition regression (tol : Tolerance) (m : Metrics) : option string :=
  let floors := [("recall_at_1", recall_at_1 m, min_recall_at_1 tol); ("recall_at_5", recall_at_5 m, min_recall_at_5 tol);
                 ("mrr", mrr m, min_mrr tol); ("abstain_accuracy", abstain_accuracy m, min_abstain_accuracy tol)] in
  match List.find (λ x, dlt x.1.2 x.2) floors with
  | Some (name, _, _) => Some name
  | None => if dlt (max_false_abstain_rate tol) (false_abstain_rate m) then Some "false_abstain_rate" else None
  end.

(** [parse_golden_set] and [run_eval], less the printing. *)
Definition parse_golden_set (from_str : text → option LabelledQuery) (body : text) : option (list LabelledQuery) :=
  mapM from_str (List.filter (λ l, negb (bool_decide (trim l = []))) (lines body)).
Inductive EvalEnd : Type := RunnerFailed | Drift (metric : string) | Passed (m : Metrics).
Definition run_eval (queries : list LabelledQuery) (runner : LabelledQuery → option RankedResult) (tol : Tolerance) : EvalEnd :=
  match mapM runner queries with
  | None => RunnerFailed
  | Some ranked =>
      let m := metrics queries ranked in
      match regression tol m with Some name => Drift name | None => Passed m end
  end.
End metrics.

(** *** What is counted *)

Section counts.
Context `{Float64}.
Definition found_by (k : nat) (x : LabelledQuery * RankedResult) : bool :=
  answerable x.1 && match first_relevant_rank (expected x.1) (rids x.2) with Some r => r <=? k | None => false end.
Definition refused (x : LabelledQuery * RankedResult) : bool := negb (answerable x.1) && abstained x.2.
Definition hidden (x : LabelledQuery * RankedResult) : bool :=
  answerable x.1 && abstained x.2 && existsb (relevant (expected x.1)) (rids x.2).
Definition number (f : LabelledQuery * RankedResult → bool) (l : list (LabelledQuery * RankedResult)) : nat := length (List.filter f l).

Lemma first_relevant_head e ids : (match first_relevant_rank e ids with Some r => r <=? 1 | None => false end) = hit_at e ids 0.
Proof.
  unfold first_relevant_rank, hit_at, position. destruct ids as [|i ids]; [done|]. cbn [list_find lookup list_lookup].
  destruct (decide (relevant e i = true)) as [->|Hn%not_true_is_false]; [done|]. rewrite Hn. by destruct (list_find _ ids) as [[]|].
Qed.
Lemma first_relevant_any e ids : (match first_relevant_rank e ids with Some _ => true | None => false end) = existsb (relevant e) ids.
Proof.
  unfold first_relevant_rank, position. induction ids as [|i ids IH]; [done|]. cbn [list_find existsb].
  destruct (decide (relevant e i = true)) as [->|Hn%not_true_is_false]; [done|]. rewrite Hn, <- IH. by destruct (list_find _ ids) as [[]|].
Qed.

Lemma number_snoc f l x : number f (l ++ [x]) = count (f x) (number f l).
Proof. unfold number. rewrite List.filter_app, length_app. cbn. destruct (f x); cbn; lia. Qed.

(** The integers of a tally count the rows they say: of the rows with an answer,
    those whose first hit has it, those that have it among the first five, and
    those of which it was found, at any rank, and withheld; and the rows judged
    rightly. *)
Definition tallied (t : Tally) (l : list (LabelledQuery * RankedResult)) : Prop :=
  t_answerable t = number (λ x, answerable x.1) l ∧ t_r1 t = number (found_by 1) l
  ∧ t_r5 t = number (found_by RECALL_K) l
  ∧ t_correct t = number (λ x, found_by RECALL_K x || refused x) l ∧ t_suppressed t = number hidden l.
Lemma tally_counts l : tallied (tally l) l.
Proof.
  unfold tally. induction l as [|[q res] l IH] using rev_ind; [done|].
  rewrite foldl_snoc. unfold tallied. rewrite !number_snoc. destruct IH as (<- & <- & <- & <- & <-).
  generalize (foldl tally_step (mkTally 0 0 0 dzero 0 0) l) as t. intros t. unfold tally_step, found_by, refused, hidden. cbn [fst snd].
  rewrite <- (first_relevant_any (expected q) (rids res)), <- (first_relevant_head (expected q) (rids res)).
  destruct (answerable q), (first_relevant_rank (expected q) (rids res)) as [r|], (abstained res); cbn [andb orb negb];
    rewrite ?orb_false_r; done.
Qed.
End counts.

(** The documentation of the false abstentions counts a gold hit of the first
    five; the code counts one of any rank. *)
Example gold_at_rank_six_is_a_false_abstain :
  hidden (mkLabel [] (lit "gold") true None None None,
          mkRanked (map lit ["a"; "b"; "c"; "d"; "e"; "gold"]) true 0) = true
  ∧ found_by RECALL_K (mkLabel [] (lit "gold") true None None None,
          mkRanked (map lit ["a"; "b"; "c"; "d"; "e"; "gold"]) true 0) = false.
Proof. by vm_compute. Qed.

End KEval.
