(* ===== verification/KnowDaemon.v ===== *)
(** * The knowledge daemon

    [crates/sy-knowledge/src/knowledge/]: which transcripts are speech and how
    they are kept ([transcribe.rs], [cli.rs prune]), what the daemon asks of the
    server it starts with ([qdrant.rs], [daemon.rs]), the gate of the degraded
    workers ([crates/sy-aiplane/src/aiplane/degraded.rs]), and the loop of
    [daemon.rs run]: the operations that wake it, the thread that acts on
    [Pause] and [Cancel] while a pass runs, and when a pass starts. *)

From S2P Require Import Prelude Lists Vocab Bridge Text Paths Lines Utf8 Store KnowText KnowIndex.
Import Lists Text Paths Lines Utf8 Store.
Local Open Scope string_scope.
Local Open Scope nat_scope.
Local Open Scope list_scope.

(** ** Transcripts *)

Module Transcribe.

Definition MIN_SPEECH_CHARS : nat := 4.
Definition TRANSCRIBED_KINDS : list string := [Pipeline.VOICE_KIND].

Section speech.
Context (is_alphanumeric : char → bool).
Definition CJK : list (Z * Z) := [(11904, 40959); (44032, 55215); (63744, 64255)]%Z.
Definition signal_weight (c : char) : nat :=
  if negb (is_alphanumeric c) then 0
  else (if existsb (λ r, (r.1 <=? c) && (c <=? r.2))%Z CJK then 1 else 0) + 1.
(** The depth of the brackets after a character: those around it count. *)
Definition depth_after (depth : nat) (c : char) : nat :=
  if (c =? 91)%Z || (c =? 40)%Z then S depth else if (c =? 93)%Z || (c =? 41)%Z then depth - 1 else depth.
Fixpoint signal_from (depth : nat) (s : text) : nat :=
  match s with
  | [] => 0
  | c :: s => let d := depth_after depth c in (if d =? 0 then signal_weight c else 0) + signal_from d s
  end.
Definition speech_signal (s : text) : nat := signal_from 0 s.
Definition has_speech (s : text) : bool := MIN_SPEECH_CHARS <=? speech_signal s.
(** [cli::junk_transcript_ids], and the points that [cli::prune] deletes with
    [--apply], a page at a time. *)
Definition junk_transcript_ids (points : list (string * text)) : list string :=
  map fst (List.filter (λ x, negb (has_speech x.2)) points).
Definition DELETE_PAGE : nat := 256.
Fixpoint pages (fuel : nat) (l : list string) : list (list string) :=
  match fuel, l with
  | S fuel, _ :: _ => take DELETE_PAGE l :: pages fuel (drop DELETE_PAGE l)
  | _, _ => []
  end.
Definition prune (scan_kind : string → option (list (string * text))) (apply : bool) : option (list string * list (list string)) :=
  points ← mapM scan_kind TRANSCRIBED_KINDS;
  let junk := junk_transcript_ids (concat points) in
  Some (junk, if apply then pages (length junk) junk else []).

Lemma signal_from_le depth s : signal_from depth s <= sum_list (signal_weight <$> s).
Proof.
  revert depth. induction s as [|c s IH]; intros depth; cbn [signal_from fmap list_fmap sum_list]; [done|].
  change (sum_list (list_fmap _ _ signal_weight s)) with (sum_list (signal_weight <$> s)). specialize (IH (depth_after depth c)).
  destruct (_ =? 0); simpl in *; lia.
Qed.
(** What is written between brackets says nothing. *)
Definition balanced (a : text) : Prop := Forall (λ c, c ≠ 91 ∧ c ≠ 40 ∧ c ≠ 93 ∧ c ≠ 41)%Z a.
Lemma depth_plain d c : (c ≠ 91 ∧ c ≠ 40 ∧ c ≠ 93 ∧ c ≠ 41)%Z → depth_after d c = d.
Proof. intros (? & ? & ? & ?). unfold depth_after. repeat (rewrite (proj2 (Z.eqb_neq _ _)) by done). done. Qed.
Lemma annotation_is_silent a s : balanced a → is_alphanumeric 93 = false →
  speech_signal ([91%Z] ++ a ++ [93%Z] ++ s) = speech_signal s.
Proof.
  intros Ha H93. unfold speech_signal. cbn [app signal_from]. change (depth_after 0 91) with 1. cbn [Nat.eqb].
  induction Ha as [|c a Hc _ IH]; cbn [app signal_from].
  - change (depth_after 1 93) with 0. unfold signal_weight. by rewrite H93.
  - by rewrite (depth_plain 1 c Hc).
Qed.
Lemma pages_concat fuel l : length l <= fuel → concat (pages fuel l) = l.
Proof.
  revert l. induction fuel as [|fuel IH]; intros [|x l] Hl; try done; [simpl in Hl; lia|].
  cbn [pages concat]. rewrite IH; [by rewrite take_drop|]. rewrite length_drop. unfold DELETE_PAGE. simpl in *. lia.
Qed.
End speech.

Section cache.
(** [blake3] in hexadecimal, and a transcriber. *)
Context (blake3_hex : list Z → text) (transcribe : path → result text text).
Definition sidecar_path (media : path) (content_hash : text) : path := media ++ [DOT] ++ content_hash ++ lit ".txt".
(** The transcript, whether the transcriber ran, and the files. *)
Definition transcribe_cached (st : store) (media : path) : result text text * bool * store :=
  match Store.read st media with
  | Err _ => (Err (lit "read media"), false, st)
  | Ok bytes =>
      let sidecar := sidecar_path media (blake3_hex bytes) in
      match read_to_string st sidecar with
      | Ok cached => (Ok cached, false, st)
      | Err _ =>
          match transcribe media with
          | Err e => (Err e, true, st)
          | Ok t =>
              match Store.write st sidecar (as_bytes t) with
              | Err _ => (Err (lit "write transcript"), true, st)
              | Ok st' => (Ok t, true, st')
              end
          end
      end
  end.

(** A media file is transcribed once: what a call answered is answered again,
    from the file it left, without the transcriber, as long as the media is the
    same; the media itself is never the file that is written. *)
Lemma transcribed_once st media bytes t ran st' :
  Store.read st media = Ok bytes → components (sidecar_path media (blake3_hex bytes)) ≠ components media → Forall is_char t →
  transcribe_cached st media = (Ok t, ran, st') → transcribe_cached st' media = (Ok t, false, st').
Proof.
  intros Hr Hne Ht. unfold transcribe_cached. rewrite Hr. cbn zeta.
  destruct (read_to_string st _) as [cached|e] eqn:Ec; [intros [= <- <- <-]; by rewrite Hr, Ec|].
  destruct (transcribe media) as [t'|e'] eqn:Et; [|done].
  destruct (Store.write st _ _) as [st1|e'] eqn:Ew; [|done]. intros [= -> <- <-].
  apply write_Ok in Ew as ->.
  assert (Store.read (<[components (sidecar_path media (blake3_hex bytes)) := NFile (as_bytes t)]> st) media = Ok bytes) as Hr'.
  { unfold Store.read, find in *. by rewrite lookup_insert_ne. }
  rewrite Hr'. cbn zeta. unfold read_to_string. rewrite read_insert. cbn [rbind]. by rewrite from_utf8_text.
Qed.
End cache.
End Transcribe.

(** ** Degraded workers *)

Module Degraded.

(** [DegradedWorkers]: the reason of each kind that is not up, by its name. *)
Definition DegradedWorkers : Type := gmap string text.
Definition record (kind : string) (reason : text) (g : DegradedWorkers) : DegradedWorkers := <[kind := reason]> g.
Definition clear (kind : string) (g : DegradedWorkers) : bool * DegradedWorkers :=
  (bool_decide (is_Some (g !! kind)), delete kind g).
Definition entries (g : DegradedWorkers) : list (string * text) := sort_by (λ a b, String.leb a.1 b.1) (map_to_list g).
Definition kinds (g : DegradedWorkers) : list string := map fst (entries g).
Fixpoint join_semi (l : list text) : text :=
  match l with [] => [] | [p] => p | p :: l => p ++ lit "; " ++ join_semi l end.
Definition summary (g : DegradedWorkers) : option text :=
  match entries g with
  | [] => None
  | l => Some (join_semi (map (λ kr, lit kr.1 ++ lit " worker unavailable: " ++ kr.2) l))
  end.
(** [spawn_worker_recovery], one round: the kinds that are ready again leave. *)
Definition recovery_round (ready : list string) (g : DegradedWorkers) : DegradedWorkers :=
  foldr (λ k g, (clear k g).2) g ready.
(** [indexing_blocked]: with a separate service, whether its status is fresh; and
    the kinds that indexing cannot do without. *)
Definition indexing_blocked (dedicated fresh : bool) (artifact_sets : list (string * bool)) (g : DegradedWorkers) : bool :=
  (dedicated && negb fresh) || existsb (λ s, s.2 && bool_decide (s.1 ∈ kinds g)) artifact_sets.

Lemma elem_of_kinds g k : k ∈ kinds g ↔ is_Some (g !! k).
Proof.
  unfold kinds, entries. rewrite list_elem_of_fmap. split.
  - intros ([k' r] & -> & H%elem_of_sort_by%elem_of_map_to_list). by exists r.
  - intros [r H]. exists (k, r). split; [done|]. by apply elem_of_sort_by, elem_of_map_to_list.
Qed.
(** A kind blocks the indexing from its failure until it is ready again, and the
    others never do. *)
Lemma blocked_until_ready sets g k r ready :
  (k, true) ∈ sets → k ∉ ready →
  indexing_blocked false true sets (recovery_round ready (record k r g)) = true.
Proof.
  intros Hs Hr. unfold indexing_blocked. cbn [andb orb negb]. apply existsb_exists. exists (k, true). split; [by apply list_elem_of_In|].
  cbn [fst snd andb]. apply bool_decide_eq_true, elem_of_kinds. exists r.
  induction ready as [|k' ready IH]; cbn [recovery_round foldr]; [by apply lookup_insert_eq|].
  apply not_elem_of_cons in Hr as [Hk Hr]. unfold clear at 1. cbn [snd]. apply lookup_delete_Some. split; [done|by apply IH].
Qed.

End Degraded.

(** ** The loop *)

Module KDaemon.
Import KManifest.

(** *** What the daemon starts with *)

(** [schema_is_pre_v2] on what [vectors.get("dense")] is, when the collection is
    there: whether it is an object. *)
Definition schema_migration_needed (dense_is_object : option (option bool)) : bool :=
  match dense_is_object with None => false | Some d => negb (bool_decide (d = Some true)) end.
Definition MIN_HYBRID_VERSION : Z * Z := (1, 16)%Z.
(** [parse_version] on the text of the version: its first two parts, as [u32]. *)
Definition parse_u32 (s : text) : option Z :=
  match s with
  | [] => None
  | c :: r =>
      match (if (c =? 43)%Z then r else s) with
      | [] => None
      | d => n ← parse_digits 0 d; if (n <? U32_MOD)%Z then Some n else None
      end
  end.
Definition parse_version (ver : option text) : option (Z * Z) :=
  v ← ver;
  match split_on DOT v with
  | a :: b :: _ => major ← parse_u32 a; minor ← parse_u32 b; Some (major, minor)
  | _ => None
  end.
Definition meets_min_version (v min : Z * Z) : bool := ((min.1 <? v.1) || (v.1 =? min.1) && (min.2 <=? v.2))%Z.
Definition qdrant_version_warning (server : option (Z * Z)) : bool :=
  match server with None => false | Some v => negb (meets_min_version v MIN_HYBRID_VERSION) end.

(** *** What wakes the loop *)

Definition FS_TICKLE_FLOOR : Duration := from_secs 30.
Definition DEGRADED_STATUS_SECS : Z := 30.
Inductive DaemonOp : Type := Ipc (op : Bridge.Op) | FsTickle | DiscoveryTickle.
(** The watcher on a burst of changed paths. *)
Definition watcher_ops (home : option path) (events : list path) : list DaemonOp :=
  let saw_qdr := existsb (λ p, bool_decide (file_name p = Some MANIFEST_FILENAME)) events in
  let saw_other := existsb (λ p, negb (bool_decide (file_name p = Some MANIFEST_FILENAME))) events in
  let saw_home := existsb (λ p, match home, parent p with Some h, Some d => path_eq d h | _, _ => false end) events in
  (if saw_qdr || saw_home then [DiscoveryTickle] else []) ++ (if saw_other then [FsTickle] else []).

(** The [want_] flags of an iteration, by the set of those that are up. *)
Inductive Want : Type :=
  | IndexUser | IndexFs | Rescan | Refresh | FullResync | ScheduleReload | WantPause | WantResume | WantTogglePause | WantCancel
  | WantShutdown.
#[export] Instance Want_eq_dec : EqDecision Want.
Proof. solve_decision. Defined.
Definition apply_op (op : DaemonOp) (w : list Want) : list Want :=
  match op with
  | Ipc Bridge.IndexNow => IndexUser :: w
  | Ipc Bridge.RefreshSources => [Refresh; Rescan; IndexUser] ++ w
  | Ipc Bridge.FullResync => FullResync :: w
  | Ipc Bridge.ReloadSchedule => ScheduleReload :: w
  | Ipc Bridge.RescanDiscovery => Rescan :: w
  | Ipc Bridge.Pause => WantPause :: w
  | Ipc Bridge.Resume => WantResume :: w
  | Ipc Bridge.TogglePause => WantTogglePause :: w
  | Ipc Bridge.OpCancel => WantCancel :: w
  | Ipc Bridge.OpShutdown => WantShutdown :: w
  | FsTickle => IndexFs :: w
  | DiscoveryTickle => Rescan :: w
  end.
Definition wants (ops : list DaemonOp) : list Want := foldl (λ w op, apply_op op w) [] ops.
Definition want (x : Want) (w : list Want) : bool := bool_decide (x ∈ w).
Definition drop_wants (l w : list Want) : list Want := filter (λ x, x ∉ l) w.

(** The thread that acts on the control operations at once: the two flags it
    shares with the loop, and what it passes on. *)
Record Ctl := mkCtl { paused : bool; cancel : bool }.
Definition bridge (op : Bridge.Op) (c : Ctl) : Ctl * list DaemonOp :=
  match op with
  | Bridge.Pause => (mkCtl true true, [])
  | Bridge.Resume => (mkCtl false (cancel c), if paused c then [Ipc Bridge.IndexNow] else [])
  | Bridge.TogglePause =>
      if negb (paused c) then (mkCtl true true, []) else (mkCtl false (cancel c), [Ipc Bridge.IndexNow])
  | Bridge.OpCancel => (mkCtl (paused c) true, [])
  | other => (c, [Ipc other])
  end.

(** *** One iteration *)

(** What an iteration keeps for the next. *)
Record Loop := mkLoop {
  active : list path; interval : Duration; last_run : Instant; last_fs_pass : Instant; first_pass : bool;
  warned_while_degraded : bool; last_degraded_status : Instant
}.
(** What it reads of the rest: the manifests that are found, the schedule, the
    state of the workers and the pause flag, the time, and the time when a pass
    it runs has ended. *)
Record Env := mkEnv {
  found : list QdrManifest; schedule : Duration; blocked : bool; paused_now : bool; now : Instant; ended : Instant
}.
(** What it does. *)
Inductive Action : Type :=
  | RetireFolder (folder : path)
  | Snapshot (paused : bool)
  | RebuildWatchers
  | Resync
  | Pass (throttle : bool).

Definition minus (a b : list path) : list path := List.filter (λ p, negb (existsb (path_eq p) b)) a.
Definition is_nil {A} (l : list A) : bool := match l with [] => true | _ => false end.

(** The rescan: the folders that went away lose their points and entries, and a
    change of the set asks for the watchers and a pass. *)
Definition rescan (e : Env) (l : Loop) (w : list Want) : Loop * list Want * list Action :=
  if want Rescan w then
    let new := enabled_folders (found e) in
    let added := minus new (active l) in
    let retired := minus (active l) new in
    let l' := mkLoop new (interval l) (last_run l) (last_fs_pass l) (first_pass l) (warned_while_degraded l) (last_degraded_status l) in
    if negb (is_nil added) || negb (is_nil retired)
    then (l', [Refresh; IndexUser] ++ w, map RetireFolder retired ++ [Snapshot (paused_now e)])
    else (l', w, map RetireFolder retired)
  else (l, w, []).
(** The gate of the degraded workers. *)
Definition gate (e : Env) (l : Loop) (w : list Want) : Loop * list Want * list Action :=
  if negb (blocked e)
  then (mkLoop (active l) (interval l) (last_run l) (last_fs_pass l) (first_pass l) false (last_degraded_status l), w, [])
  else
    let due := (from_secs DEGRADED_STATUS_SECS <=? saturating_since (now e) (last_degraded_status l))%Z in
    (mkLoop (active l) (interval l) (last_run l) (last_fs_pass l) (first_pass l) true (if due then now e else last_degraded_status l),
     drop_wants [IndexUser; IndexFs; FullResync] w,
     if due then [Snapshot (paused_now e)] else []).
(** Whether a pass is due, and which. *)
Definition fire (e : Env) (l : Loop) (w : list Want) : Loop * list Action :=
  let ran (fs : bool) := mkLoop (active l) (interval l) (ended e) (if fs then ended e else last_fs_pass l) (first_pass l)
                  (warned_while_degraded l) (last_degraded_status l) in
  if paused_now e then (l, [Snapshot true])
  else if want FullResync w then (ran true, [Resync])
  else
    let scheduled_due := negb (blocked e) && (interval l <=? saturating_since (now e) (last_run l))%Z in
    let fs_due := want IndexFs w && (FS_TICKLE_FLOOR <=? saturating_since (now e) (last_fs_pass l))%Z in
    if want IndexUser w || scheduled_due || fs_due then (ran fs_due, [Pass (scheduled_due || fs_due)]) else (l, []).
(** The body of the loop on the operations that were waiting; [None] ends it. *)
Definition tick (ops : list DaemonOp) (e : Env) (l : Loop) : option (Loop * list Action) :=
  let w := wants ops in
  if want WantShutdown w then None
  else
    let w := if first_pass l then IndexUser :: w else w in
    let l := mkLoop (active l) (if want ScheduleReload w then schedule e else interval l) (last_run l) (last_fs_pass l) false
               (warned_while_degraded l) (last_degraded_status l) in
    let '(l, w, a1) := rescan e l w in
    let a2 := (if want Refresh w then [RebuildWatchers] else []) : list Action in
    let '(l, w, a3) := gate e l w in
    let '(l, a4) := fire e l w in
    Some (l, a1 ++ a2 ++ a3 ++ a4).

(** *** When a pass runs *)
Lemma elem_of_apply_op x op w : x ∈ apply_op op w ↔ x ∈ apply_op op [] ∨ x ∈ w.
Proof. destruct op as [[]| |]; cbn [apply_op app]; rewrite !elem_of_cons, elem_of_nil; tauto. Qed.
Lemma elem_of_wants ops x : x ∈ wants ops ↔ ∃ op, op ∈ ops ∧ x ∈ apply_op op [].
Proof.
  unfold wants. enough (∀ w, x ∈ foldl (λ w op, apply_op op w) w ops ↔ x ∈ w ∨ ∃ op, op ∈ ops ∧ x ∈ apply_op op []) as H.
  { rewrite H, elem_of_nil. tauto. }
  induction ops as [|op ops IH]; intros w; cbn [foldl].
  - split; [by left|]. intros [?|(op & ?%not_elem_of_nil & _)]; done.
  - rewrite IH, elem_of_apply_op. split.
    + intros [[H|H]|(op' & Hop & H)]; [right; exists op|by left|right; exists op'];
        (split; [|done]); [apply list_elem_of_here|by apply list_elem_of_further].
    + intros [H|(op' & [->|Hop]%elem_of_cons & H)]; [by left; right|by left; left|right; by exists op'].
Qed.
Lemma want_spec x w : want x w = true ↔ x ∈ w.
Proof. apply bool_decide_eq_true. Qed.

(** The parts of an iteration, and what each leaves of the wants. *)
Lemma rescan_spec e l w l' w' a :
  rescan e l w = (l', w', a) →
  interval l' = interval l ∧ last_run l' = last_run l ∧ last_fs_pass l' = last_fs_pass l
  ∧ (∀ x, x ∈ w → x ∈ w') ∧ (∀ x, x ∈ w' → x ∈ w ∨ x = Refresh ∨ x = IndexUser)
  ∧ Resync ∉ a ∧ ∀ t, Pass t ∉ a.
Proof.
  unfold rescan. intros E. assert (∀ r b x, x ∈ map RetireFolder r ++ [Snapshot b] → x ≠ Resync ∧ ∀ t, x ≠ Pass t) as Hr.
  { intros r b x [(p & -> & _)%list_elem_of_fmap| ->%list_elem_of_singleton]%elem_of_app; done. }
  destruct (want Rescan w); [destruct (negb _ || negb _)|]; injection E as <- <- <-; cbn [interval last_run last_fs_pass];
    split_and!; try done; try by intros x; left.
  - intros x Hx. do 2 apply list_elem_of_further. done.
  - intros x [->|[->|Hx]%elem_of_cons]%elem_of_cons; auto.
  - intros Hin. by destruct (Hr _ _ _ Hin).
  - intros t Hin. destruct (Hr _ _ _ Hin) as [_ H]. by apply (H t).
  - intros (p & ? & _)%list_elem_of_fmap. done.
  - intros t (p & ? & _)%list_elem_of_fmap. done.
  - apply not_elem_of_nil.
  - intros t. apply not_elem_of_nil.
Qed.
Lemma gate_spec e l w l' w' a :
  gate e l w = (l', w', a) →
  interval l' = interval l ∧ last_run l' = last_run l ∧ last_fs_pass l' = last_fs_pass l
  ∧ (∀ x, x ∈ w' ↔ x ∈ w ∧ (blocked e = true → x ∉ [IndexUser; IndexFs; FullResync])) ∧ Resync ∉ a ∧ ∀ t, Pass t ∉ a.
Proof.
  unfold gate. intros E. destruct (blocked e); cbn [negb] in E; injection E as <- <- <-; split_and!; try done.
  - intros x. unfold drop_wants. rewrite list_elem_of_filter. tauto.
  - destruct (_ <=? _)%Z; [by intros ?%list_elem_of_singleton|apply not_elem_of_nil].
  - intros t. destruct (_ <=? _)%Z; [by intros ?%list_elem_of_singleton|apply not_elem_of_nil].
  - intros x. split; [done|]. by intros [? _].
  - apply not_elem_of_nil.
  - intros t. apply not_elem_of_nil.
Qed.

(** The last part decides: the wants it sees, after the gate. *)
Lemma tick_fires ops e l l' acts :
  tick ops e l = Some (l', acts) →
  ∃ l1 w acts4, fire e l1 w = (l', acts4)
    ∧ last_run l1 = last_run l ∧ last_fs_pass l1 = last_fs_pass l
    ∧ interval l1 = (if want ScheduleReload (wants ops) then schedule e else interval l)
    ∧ (∀ x, x ∈ w → (blocked e = true → x ∉ [IndexUser; IndexFs; FullResync]) ∧ (x ∈ wants ops ∨ x = IndexUser ∨ x = Refresh))
    ∧ (∀ x, x ∈ wants ops ∨ (x = IndexUser ∧ first_pass l = true) → blocked e = false → x ∈ w)
    ∧ (Resync ∈ acts ↔ Resync ∈ acts4) ∧ ∀ t, Pass t ∈ acts ↔ Pass t ∈ acts4.
Proof.
  unfold tick. destruct (want WantShutdown _); [done|]. cbn zeta.
  set (w0 := if first_pass l then IndexUser :: wants ops else wants ops).
  assert (∀ x, x ∈ w0 ↔ x ∈ wants ops ∨ (x = IndexUser ∧ first_pass l = true)) as Hw0.
  { intros x. unfold w0. destruct (first_pass l); rewrite ?elem_of_cons; naive_solver. }
  assert (want ScheduleReload w0 = want ScheduleReload (wants ops)) as ->.
  { unfold want. apply bool_decide_ext. rewrite Hw0. naive_solver. }
  set (l0 := mkLoop _ _ _ _ _ _ _). destruct (rescan e l0 w0) as [[l1 w1] a1] eqn:E1.
  destruct (gate e l1 w1) as [[l2 w2] a3] eqn:E3. destruct (fire e l2 w2) as [l3 a4] eqn:E4. intros [= <- <-].
  apply rescan_spec in E1 as (Hi1 & Hr1 & Hf1 & Hw1 & Hw1' & Ha1 & Hp1). cbn [l0 interval last_run last_fs_pass] in Hi1, Hr1, Hf1.
  apply gate_spec in E3 as (Hi2 & Hr2 & Hf2 & Hw2 & Ha3 & Hp3).
  exists l2, w2, a4. split_and!; [done|congruence|congruence|congruence| | | |].
  - intros x [Hx Hb]%Hw2. split; [done|]. destruct (Hw1' x Hx) as [[?|[? _]]%Hw0|[?|?]]; auto.
  - intros x Hx Hb. apply Hw2. split; [by apply Hw1, Hw0|]. by rewrite Hb.
  - rewrite !elem_of_app. split; [|by right; right; right]. intros [?|[?|[?|?]]]; try done.
    destruct (want Refresh w1); [by apply list_elem_of_singleton in H|by apply not_elem_of_nil in H].
  - intros t. rewrite !elem_of_app. split; [|by right; right; right]. intros [?|[?|[?|?]]]; try done; [by apply Hp1 in H| |by apply Hp3 in H].
    destruct (want Refresh w1); [by apply list_elem_of_singleton in H|by apply not_elem_of_nil in H].
Qed.



(** *** The loop beside the thread that controls it *)

(** A pass that an iteration has chosen, and one that runs. *)
Inductive Phase : Type := Waiting | Chosen | Running.
Record Sys := mkSys { ctl : Ctl; queue : list DaemonOp; loop : Loop; phase : Phase }.
Definition is_pass (a : Action) : bool := match a with Resync | Pass _ => true | _ => false end.
(** The steps: the control thread takes an operation, the watcher sends, the loop
    takes all that waits and decides; what it chose starts, which clears the
    cancel flag, and ends, which clears it again. *)
Inductive step : Sys → Sys → Prop :=
  | step_bridge op s c sent : bridge op (ctl s) = (c, sent) → step s (mkSys c (queue s ++ sent) (loop s) (phase s))
  | step_watch ops s : step s (mkSys (ctl s) (queue s ++ ops) (loop s) (phase s))
  | step_decide s e l acts :
      phase s = Waiting → paused_now e = paused (ctl s) → tick (queue s) e (loop s) = Some (l, acts) →
      step s (mkSys (ctl s) [] l (if existsb is_pass acts then Chosen else Waiting))
  | step_start s : phase s = Chosen → step s (mkSys (mkCtl (paused (ctl s)) false) (queue s) (loop s) Running)
  | step_end s : phase s = Running → step s (mkSys (mkCtl (paused (ctl s)) false) (queue s) (loop s) Waiting).
(** The steps of one pass: none of them ends it. *)
Inductive during : Sys → Sys → Prop :=
  | during_refl s : during s s
  | during_step s s1 s2 : during s s1 → step s1 s2 → phase s2 = Running → during s s2.

Lemma bridge_cancels op c c' sent : bridge op c = (c', sent) → cancel c = true → cancel c' = true.
Proof. intros E Hc. destruct op; cbn [bridge] in E; try destruct (negb (paused c)); by simplify_eq/=. Qed.

(** A running pass is told to stop: once [Pause] or [Cancel] is handled while
    a pass runs, the flag that the pass looks at stays up until the pass has
    ended, whatever else is sent, so its next look stops it. *)
Theorem control_reaches_a_running_pass s op c sent s' :
  phase s = Running → op = Bridge.Pause ∨ op = Bridge.OpCancel → bridge op (ctl s) = (c, sent) →
  during (mkSys c (queue s ++ sent) (loop s) (phase s)) s' → cancel (ctl s') = true.
Proof.
  intros Hrun Hop Hb Hd. remember (mkSys c (queue s ++ sent) (loop s) (phase s)) as s0 eqn:E0.
  assert (cancel (ctl s0) = true ∧ phase s0 = Running) as [H0 _].
  { subst s0. split; [|done]. by destruct Hop as [-> | ->]; cbn [bridge] in Hb; simplify_eq. }
  enough (phase s' = Running ∧ cancel (ctl s') = true) as [_ H] by exact H.
  induction Hd as [s0|s0 s1 s2 _ IH Hs Hp2]; [by subst|]. destruct (IH E0 H0) as [Hp1 Hc1]. split; [done|].
  destruct Hs as [op' s1 c' sent' Hb'|ops s1|s1 e l acts Hw _ _|s1 Hc|s1 _]; cbn [ctl phase] in *; [|done|congruence|congruence|done].
  by eapply bridge_cancels.
Qed.

(** A resume is not lost: until the loop takes it, a pass is asked for. *)
Lemma resume_asks c c' sent : paused c = true → bridge Bridge.Resume c = (c', sent) → paused c' = false ∧ Ipc Bridge.IndexNow ∈ sent.
Proof. intros Hp. cbn [bridge]. rewrite Hp. intros [= <- <-]. split; [done|apply list_elem_of_here]. Qed.

(** *** What gets lost *)

Definition idle_loop : Loop := mkLoop [] (from_secs 900) 0%Z 0%Z false false 0%Z.
Definition at_secs (t : Z) (blocked : bool) : Env := mkEnv [] (from_secs 900) blocked false (from_secs t) (from_secs t).

(** A pause that comes between the choice of a pass and its start is cleared by
    the start: the pass runs, and nothing stops it. *)
Example pause_before_the_start_is_lost :
  ∃ s1 s2 s3, step (mkSys (mkCtl false false) [Ipc Bridge.IndexNow] idle_loop Waiting) s1 ∧ step s1 s2 ∧ step s2 s3
    ∧ bridge Bridge.Pause (ctl s1) = (ctl s2, []) ∧ phase s3 = Running ∧ ctl s3 = mkCtl true false.
Proof.
  eexists _, _, _. split_and!.
  - apply (step_decide _ (at_secs 10 false)); reflexivity.
  - apply (step_bridge Bridge.Pause). reflexivity.
  - apply step_start. reflexivity.
  - reflexivity.
  - reflexivity.
  - reflexivity.
Qed.
(** A change of a file within half a minute of the last pass for one is
    forgotten, not put off: the next iterations have nothing to do. *)
Example early_change_is_dropped :
  tick [FsTickle] (at_secs 20 false) idle_loop = Some (idle_loop, [])
  ∧ tick [] (at_secs 40 false) idle_loop = Some (idle_loop, []).
Proof. by vm_compute. Qed.
(** So is what is asked while a worker is missing, an [IndexNow] and the
    migration of the schema alike. *)
Example asked_while_degraded_is_dropped :
  (λ x, x.2) <$> tick [Ipc Bridge.IndexNow; Ipc Bridge.FullResync] (at_secs 10 true) idle_loop = Some []
  ∧ (λ x, x.2) <$> (tick [Ipc Bridge.FullResync] (at_secs 10 true) idle_loop ≫= λ x, tick [] (at_secs 20 false) x.1) = Some [].
Proof. by vm_compute. Qed.
(** A pass that the user asked for is throttled when the schedule is due too. *)
Example asked_pass_is_throttled :
  (λ x, x.2) <$> tick [Ipc Bridge.IndexNow] (at_secs 900 false) idle_loop = Some [Pass true].
Proof. by vm_compute. Qed.

Lemma control_reaches_a_running_pass_witness :
  cancel (ctl (mkSys (mkCtl false true) [Ipc Bridge.IndexNow] idle_loop Running)) = true.
Proof.
  refine (control_reaches_a_running_pass (mkSys (mkCtl false false) [] idle_loop Running) Bridge.Pause (mkCtl true true) [] _
            eq_refl (or_introl eq_refl) eq_refl _).
  apply (during_step _ (mkSys (mkCtl true true) [] idle_loop Running)); [apply during_refl| |reflexivity].
  apply (step_bridge Bridge.Resume (mkSys (mkCtl true true) [] idle_loop Running)). reflexivity.
Defined.
End KDaemon.
