(* ===== verification/Policy.v ===== *)
(** * The agent's permission gate

    [crates/sy-agent/src/agt]: the policy schema and resolver
    ([policy/schema.rs], [policy/resolver.rs]), the prompt ([permission.rs])
    and the daemon's route from a [session/request_permission] call to the
    option it answers ([daemon.rs]). What the gate does besides deciding is the
    list of its effects, in order. *)

From S2P Require Import Prelude Text Wire.
From Stdlib Require Import Ascii.
Import Text.
Import Wire.
Local Open Scope string_scope.
Local Open Scope list_scope.

Module Policy.

(** ** Paths *)

(** The runs of [s] between slashes; [acc] is the run read so far. *)
Fixpoint split_slash (acc s : string) : list string :=
  match s with
  | "" => [acc]
  | String c s' =>
      if Ascii.eqb c "/"%char then acc :: split_slash "" s' else split_slash (acc ++ String c "")%string s'
  end.

Definition is_absolute (p : string) : bool :=
  match p with String c _ => Ascii.eqb c "/"%char | "" => false end.

(** [Path::iter]: the components; a leading [.] of a relative path counts, the
    other empty and [.] ones do not. *)
Definition path_iter (p : string) : list string :=
  let runs := split_slash "" p in
  let real := filter (λ s, s ≠ "" ∧ s ≠ ".") runs in
  if is_absolute p then "/" :: real
  else match runs with "." :: _ => "." :: real | _ => real end.

(** [Path::file_name]. *)
Definition file_name (p : string) : option string :=
  match last (path_iter p) with
  | Some s => if String.eqb s "/" || String.eqb s "." || String.eqb s ".." then None else Some s
  | None => None
  end.

(** The text before the last dot, when there is one. *)
Fixpoint before_last_dot (s : string) : option string :=
  match s with
  | "" => None
  | String c s' =>
      match before_last_dot s' with
      | Some b => Some (String c b)
      | None => if Ascii.eqb c "."%char then Some "" else None
      end
  end.

(** [Path::file_stem]. *)
Definition file_stem (p : string) : option string :=
  name ← file_name p;
  match before_last_dot name with
  | None | Some "" => Some name
  | Some b => Some b
  end.

(** [PathBuf::push], as [Path::join]. *)
Definition join (base p : string) : string :=
  if is_absolute p then p
  else if String.eqb base "" then p
  else match String.get (String.length base - 1) base with
       | Some c => if Ascii.eqb c "/"%char then base ++ p else base ++ "/" ++ p
       | None => p
       end%string.

(** ** Schema *)

Inductive ConsentMode : Type := Never | OncePerSession | EveryCall.
#[export] Instance ConsentMode_eq_dec : EqDecision ConsentMode.
Proof. solve_decision. Defined.

Record ExecAllow : Type := mkExec { ea_bin : string; ea_argv : list string }.
Record NetAllow : Type := mkNet { na_host : string; na_port : Z }.

Record Profile : Type := mkProfile {
  read_paths : list string;
  write_paths : list string;
  exec_allowlist : list ExecAllow;
  net_outbound_allowlist : list NetAllow;
  env_passthrough_allowlist : list string;
  max_runtime_seconds : Z;
  max_stdout_bytes : Z;
  max_memory_mb : Z;
  max_pids : Z;
  deny_network : bool;
  require_consent : ConsentMode;
}.

(** [policy::Decision] and [permission::Decision]. *)
Inductive PolicyDecision : Type := PAllow | PDeny | PConsentRequired (reason : string).
Inductive Decision : Type := Allow | Deny.

(** [Resolver]; the overlays in key order, as the [BTreeMap] has them. *)
Record Resolver : Type := mkResolver { r_profile : Profile; r_overlays : list (string * Profile) }.

(** ** Audit records and effects *)

Inductive AuditDecision : Type := AuditAllow | AuditDeny | AuditConsent.

(** The clock, trace and request a record is stamped with. *)
Record Ctx : Type := mkCtx { cx_ts : Z; cx_trace : option string; cx_request : option N }.

Record AuditRecord : Type := mkRecord {
  ar_ts : Z;
  ar_tool : string;
  ar_policy_sha : string;
  ar_decision : AuditDecision;
  ar_argv : list string;
  ar_request_id : option N;
  ar_trace_id : option string;
  ar_reason : option string;
}.

Inductive SessionStatus : Type := Awaiting | Working.

(** What handling a permission request does: audit records, the notification,
    consent tokens, and the session's events and reply. *)
Inductive Effect : Type :=
| EAudit (r : AuditRecord)
| ENotify (summary body : string)
| EIssue (tool : string) (argv : list string) (policy_diff : string) (ttl : Duration)
| EStatus (s : SessionStatus)
| EBroadcast (summary body : string)
| ERespond (req_id : json) (option_id : string)
| EAppend (msg : string).

(** How [notify-send] ended: not started, ended with some output, or timed out
    (or its output could not be read). *)
Inductive Notify : Type := SpawnFailed | Exited (stdout : text) | TimedOut.

Definition CONSENT_TOKEN_TTL : Duration := from_secs (5 * 60).

Section gate.
(** [toml] reading and writing profiles, [sha2] in hexadecimal, [globset]
    ([build_glob], then [is_match]; a pattern that does not build matches
    nothing) and [serde_json::Value::to_string]. *)
Context (toml_read : string → result Profile string) (toml_write : Profile → string).
Context (sha256_hex : string → string).
Context (glob_matches : string → string → bool).
Context (json_to_string : json → string).

(** *** Loading *)

(** The text of each readable file, by path. *)
Implicit Type files : gmap string string.

Definition parse_profile files (path : string) : result Profile string :=
  match files !! path with
  | None => Err ("read " ++ path)%string
  | Some t => match toml_read t with Ok p => Ok p | Err e => Err ("parse " ++ path)%string end
  end.

(** [substitute_repo]. *)
Definition substitute_repo (path repo : string) (home : option string) : string :=
  foldl (λ out c, join out (if String.eqb c "$REPO" then repo
                            else if String.eqb c "$HOME" then default c home else c))
    "" (path_iter path).

Definition expand_repo (p : Profile) (repo : string) (home : option string) : Profile :=
  let sub := λ path, substitute_repo path repo home in
  mkProfile (map sub (read_paths p)) (map sub (write_paths p)) (exec_allowlist p)
    (net_outbound_allowlist p) (env_passthrough_allowlist p) (max_runtime_seconds p)
    (max_stdout_bytes p) (max_memory_mb p) (max_pids p) (deny_network p) (require_consent p).

(** [Resolver::load]. *)
Definition load files (policy_root profile_name : string) (tool : option string)
    (repo : string) (home : option string) : result Resolver string :=
  rbind (parse_profile files (join (join policy_root "profiles") (profile_name ++ ".toml")%string))
    (λ profile,
      let profile := expand_repo profile repo home in
      match tool with
      | None => Ok (mkResolver profile [])
      | Some name =>
          let overlay_path := join (join policy_root "tools") (name ++ ".toml")%string in
          match files !! overlay_path with
          | None => Ok (mkResolver profile [])
          | Some _ =>
              rbind (parse_profile files overlay_path)
                (λ overlay, Ok (mkResolver profile [(name, expand_repo overlay repo home)]))
          end
      end).

(** *** Deciding *)

Fixpoint overlay_get (k : string) (l : list (string * Profile)) : option Profile :=
  match l with
  | [] => None
  | (k', p) :: l' => if String.eqb k' k then Some p else overlay_get k l'
  end.

(** [effective_profile] (and its clone, [effective]). *)
Definition effective (r : Resolver) (tool : string) : Profile :=
  default (r_profile r) (overlay_get (default tool (file_stem tool)) (r_overlays r)).

Definition bin_matches (pattern tool : string) : bool :=
  String.eqb pattern tool || glob_matches pattern tool.

Definition argv_glob_matches (globs : list string) (argv_joined : string) : bool :=
  existsb (λ pattern, glob_matches pattern argv_joined) globs.

Definition matches_allowlist (allowlist : list ExecAllow) (tool : string) (argv : list string)
    : option ExecAllow :=
  let argv_joined := String.concat " " argv in
  List.find (λ e, bin_matches (ea_bin e) tool && argv_glob_matches (ea_argv e) argv_joined) allowlist.

(** [Resolver::decide]. *)
Definition decide_tool (r : Resolver) (tool : string) (argv : list string) : PolicyDecision :=
  let p := effective r tool in
  match exec_allowlist p with
  | [] => PDeny
  | _ =>
      match matches_allowlist (exec_allowlist p) tool argv with
      | Some _ =>
          match require_consent p with
          | Never | OncePerSession => PAllow
          | EveryCall => PConsentRequired ("policy requires consent on every call to " ++ tool)%string
          end
      | None => PConsentRequired (tool ++ " is not in the allowlist for this profile")%string
      end
  end.

(** [Resolver::fingerprint]. *)
Definition fingerprint (r : Resolver) : string :=
  sha256_hex (toml_write (r_profile r)
    ++ String.concat "" (map (λ kp, kp.1 ++ String Ascii.zero "" ++ toml_write kp.2) (r_overlays r)))%string.

(** *** Prompting *)

(** [ask]: the answer of the notification. *)
Definition ask_answer (n : Notify) : Decision :=
  match n with
  | SpawnFailed => Allow
  | Exited out => if decide (trim out = lit "deny") then Deny else Allow
  | TimedOut => Allow
  end.

Definition ask (summary body : string) (n : Notify) : Decision * list Effect :=
  (ask_answer n, [ENotify summary body]).

(** [emit_policy_audit]. *)
Definition emit_policy_audit (r : Resolver) (tool : string) (argv : list string)
    (verdict : PolicyDecision) (cx : Ctx) : Effect :=
  let '(d, reason) := match verdict with
                      | PAllow => (AuditAllow, None)
                      | PDeny => (AuditDeny, Some ("policy denied " ++ tool)%string)
                      | PConsentRequired reason => (AuditConsent, Some reason)
                      end in
  EAudit (mkRecord (cx_ts cx) tool (fingerprint r) d argv (cx_request cx) (cx_trace cx) reason).

Definition ask_with_policy (r : Resolver) (tool : string) (argv : list string)
    (summary body : string) (n : Notify) (cx : Ctx) : Decision * list Effect :=
  let verdict := decide_tool r tool argv in
  let e := emit_policy_audit r tool argv verdict cx in
  match verdict with
  | PAllow => (Allow, [e])
  | PDeny => (Deny, [e])
  | PConsentRequired _ => let '(d, es) := ask summary body n in (d, e :: es)
  end.

(** *** The daemon's route *)

(** [load_session_resolver]. *)
Definition load_session_resolver files (cwd tool : string) (home : option string) : option Resolver :=
  let policy_root := join (join cwd "configs") "policy" in
  match files !! join (join policy_root "profiles") "normal.toml" with
  | None => None
  | Some _ =>
      match load files policy_root "normal" (file_stem tool) cwd home with
      | Ok r => Some r
      | Err _ => None
      end
  end.

(** [resolve_permission], given the resolver, how the notification would end,
    and what the consent channel delivers ([Some] an approval, [None] a dropped
    sender). *)
Definition resolve_permission (resolver : option Resolver) (tool : string) (argv : list string)
    (summary body : string) (n : Notify) (rx : option unit) (cx : Ctx) : Decision * list Effect :=
  match resolver with
  | None => ask summary body n
  | Some r =>
      let every_call := bool_decide (require_consent (effective r tool) = EveryCall) in
      if negb every_call then ask_with_policy r tool argv summary body n cx
      else
        match decide_tool r tool argv with
        | PConsentRequired _ =>
            let policy_diff := fingerprint r in
            let e := EAudit (mkRecord (cx_ts cx) tool policy_diff AuditConsent argv (cx_request cx)
                       (cx_trace cx) (Some "EveryCall consent: awaiting sy approve <token>")) in
            (match rx with Some _ => Allow | None => Deny end,
             [e; EIssue tool argv policy_diff CONSENT_TOKEN_TTL])
        | _ => ask_with_policy r tool argv summary body n cx
        end
  end.

(** [extract_tool_and_argv]. *)
Definition extract_tool_and_argv (params : json) : string * list string :=
  let tool_call := jget "toolCall" params in
  let tool := default "" (t ← tool_call;
    v ← (match jget "kind" t with Some v => Some v | None => jget "title" t end); json_str v) in
  let argv :=
    match (t ← tool_call; jget "rawInput" t) with
    | Some (JArr items) => map (λ v, default (json_to_string v) (json_str v)) items
    | Some other => [json_to_string other]
    | None => []
    end in
  (tool, argv).

(** [str::contains]. *)
Definition contains (s needle : string) : bool :=
  match String.index 0 needle s with Some _ => true | None => false end.

(** [pick]: the first option whose id or kind contains a needle. *)
Fixpoint pick (options : list json) (needles : list string) : option string :=
  match options with
  | [] => None
  | o :: options' =>
      let id := default "" (jget "optionId" o ≫= json_str) in
      let kind := default "" (jget "kind" o ≫= json_str) in
      if existsb (λ n, contains id n || contains kind n) needles then Some id
      else pick options' needles
  end.

(** The option [handle_permission] answers with. *)
Definition option_for (d : Decision) (options : list json) : string :=
  match d with
  | Allow => default "allow_once" (pick options ["allow"; "accept"])
  | Deny => default "reject_once" (pick options ["reject"; "deny"; "cancel"])
  end.

(** [handle_permission] of a session in [cwd]. *)
Definition handle_permission files (cwd : string) (home : option string) (req_id params : json)
    (n : Notify) (rx : option unit) (cx : Ctx) : list Effect :=
  let tool_call := jget "toolCall" params in
  let summary := default "permission request" (t ← tool_call; v ← jget "title" t; json_str v) in
  let body := match (t ← tool_call;
                     match jget "kind" t with Some v => Some v | None => jget "rawInput" t end) with
              | Some v => json_to_string v
              | None => "approve tool call?"
              end in
  let '(tool, argv) := extract_tool_and_argv params in
  let '(d, es) := resolve_permission (load_session_resolver files cwd tool home) tool argv
                    summary body n rx cx in
  let options := match jget "options" params with Some (JArr l) => l | _ => [] end in
  [EStatus Awaiting; EBroadcast summary body] ++ es
  ++ [ERespond req_id (option_for d options); EStatus Working;
      EAppend ("permission " ++ (match d with Allow => "allowed" | Deny => "denied" end)
               ++ ": " ++ summary)%string].

End gate.

(** ** Lemmas *)

Definition is_audit (e : Effect) : bool := match e with EAudit _ => true | _ => false end.
Definition is_notify (e : Effect) : bool := match e with ENotify _ _ => true | _ => false end.
Definition is_respond (e : Effect) : bool := match e with ERespond _ _ => true | _ => false end.

(** The audit decision of a verdict. *)
Definition audit_of (v : PolicyDecision) : AuditDecision :=
  match v with PAllow => AuditAllow | PDeny => AuditDeny | PConsentRequired _ => AuditConsent end.

Section laws.
Context (toml_read : string → result Profile string) (toml_write : Profile → string).
Context (sha256_hex : string → string) (glob_matches : string → string → bool).
Context (json_to_string : json → string).

Notation matches := (matches_allowlist glob_matches).
Notation route := (resolve_permission toml_write sha256_hex glob_matches).
Notation finger := (fingerprint toml_write sha256_hex).

(** Some entry of the allowlist covers the call. *)
Definition listed (p : Profile) (tool : string) (argv : list string) : Prop :=
  ∃ e, In e (exec_allowlist p) ∧ bin_matches glob_matches (ea_bin e) tool = true
    ∧ ∃ g, In g (ea_argv e) ∧ glob_matches g (String.concat " " argv) = true.

Lemma matches_listed p tool argv : is_Some (matches (exec_allowlist p) tool argv) ↔ listed p tool argv.
Proof.
  unfold matches_allowlist, listed, argv_glob_matches. split.
  - intros [e [Hin [Hb Hg%existsb_exists]%andb_true_iff]%List.find_some]. eauto.
  - intros (e & Hin & Hb & g & Hg & Hm). destruct (List.find _ _) eqn:E; [eauto|].
    eapply List.find_none in E; [|exact Hin]. simpl in E. rewrite Hb in E.
    assert (existsb (λ q, glob_matches q (String.concat " " argv)) (ea_argv e) = true) as Hex
      by (apply existsb_exists; eauto).
    rewrite Hex in E. done.
Qed.

Lemma option_for_offered d options :
  option_for d options = (match d with Allow => "allow_once" | Deny => "reject_once" end)
  ∨ ∃ o, In o options ∧ option_for d options = default "" (jget "optionId" o ≫= json_str).
Proof.
  assert (forall needles, pick options needles = None
    ∨ ∃ o, In o options ∧ pick options needles = Some (default "" (jget "optionId" o ≫= json_str))) as H.
  { intros needles. induction options as [|o options IH]; cbn [pick]; [by left|].
    destruct (existsb _ _); [right; exists o; split; [by left|done]|].
    destruct IH as [->|(o' & ? & ->)]; [by left|]. right. exists o'. split; [by right|done]. }
  unfold option_for.
  destruct d; [destruct (H ["allow"; "accept"]) as [->|(o & ? & ->)]
              |destruct (H ["reject"; "deny"; "cancel"]) as [->|(o & ? & ->)]]; eauto.
Qed.

Lemma filter_respond_route resolver tool argv summary body n rx cx :
  List.filter is_respond (route resolver tool argv summary body n rx cx).2 = [].
Proof.
  unfold resolve_permission, ask_with_policy, ask, emit_policy_audit.
  repeat (split_match; try done).
Qed.

(** ** Properties *)

(** C2. With a policy loaded, a tool call is allowed exactly when the profile
    in effect lists some program and: under [every_call], the operator approved
    the call's token; otherwise, the allowlist covers the call or the
    notification was not answered with deny. Under [every_call] no notification
    is shown, so silence never allows anything. *)
Theorem gate_allows_iff r tool argv summary body n rx cx :
  let p := effective r tool in
  let out := route (Some r) tool argv summary body n rx cx in
  (out.1 = Allow ↔ exec_allowlist p ≠ [] ∧
     match require_consent p with
     | EveryCall => rx = Some tt
     | _ => listed p tool argv ∨ ask_answer n = Allow
     end)
  ∧ (require_consent p = EveryCall → List.filter is_notify out.2 = []).
Proof.
  intros p out. subst out. unfold resolve_permission, ask_with_policy, decide_tool, emit_policy_audit.
  fold p. pose proof (matches_listed p tool argv) as Hm.
  destruct (exec_allowlist p) as [|e l] eqn:El.
  { destruct (require_consent p) eqn:Ec; simpl; (split; [|done]); naive_solver. }
  destruct (matches (e :: l) tool argv) as [e'|] eqn:Em.
  - assert (listed p tool argv) as Hl by (apply Hm; eauto).
    destruct (require_consent p) eqn:Ec; simpl; (split; [|done]).
    + naive_solver.
    + naive_solver.
    + destruct rx as [[]|]; naive_solver.
  - assert (¬ listed p tool argv) as Hl by (intros [? H]%Hm; done).
    destruct (require_consent p) eqn:Ec; simpl; (split; [|done]).
    + destruct (ask_answer n) eqn:Ea; simpl; naive_solver.
    + destruct (ask_answer n) eqn:Ea; simpl; naive_solver.
    + destruct rx as [[]|]; naive_solver.
Qed.

(** With a policy loaded, the gate's first effect is the one audit record of
    the call, with the policy's verdict and fingerprint; a prompt or a token
    comes after it. *)
Theorem gate_audits_before_asking r tool argv summary body n rx cx :
  ∃ rec rest, (route (Some r) tool argv summary body n rx cx).2 = EAudit rec :: rest
    ∧ List.filter is_audit rest = [] ∧ length rest <= 1
    ∧ ar_tool rec = tool ∧ ar_argv rec = argv ∧ ar_policy_sha rec = finger r
    ∧ ar_request_id rec = cx_request cx
    ∧ ar_decision rec = audit_of (decide_tool glob_matches r tool argv).
Proof.
  unfold resolve_permission, ask_with_policy, emit_policy_audit.
  destruct (decide_tool glob_matches r tool argv) eqn:Ev, (negb _); simpl;
    eexists _, _; (split; [done|]); repeat split; simpl; auto.
Qed.

(** A permission request is answered exactly once, with the gate's decision:
    either the fallback option or one the agent offered. *)
Theorem request_answered_once files cwd home req_id params n rx cx :
  let '(tool, argv) := extract_tool_and_argv json_to_string params in
  ∃ d opts summary body,
    d = (route (load_session_resolver toml_read files cwd tool home) tool argv summary body n rx cx).1
    ∧ opts = match jget "options" params with Some (JArr l) => l | _ => [] end
    ∧ List.filter is_respond (handle_permission toml_read toml_write sha256_hex glob_matches
        json_to_string files cwd home req_id params n rx cx) = [ERespond req_id (option_for d opts)]
    ∧ (option_for d opts = (match d with Allow => "allow_once" | Deny => "reject_once" end)
       ∨ ∃ o, In o opts ∧ option_for d opts = default "" (jget "optionId" o ≫= json_str)).
Proof.
  destruct (extract_tool_and_argv json_to_string params) as [tool argv] eqn:Et.
  unfold handle_permission. rewrite Et.
  match goal with |- context [route _ _ _ ?s ?b _ _ _] => set (summary := s); set (body := b) end.
  pose proof (filter_respond_route (load_session_resolver toml_read files cwd tool home)
    tool argv summary body n rx cx) as Hf.
  destruct (route _ _ _ summary body _ _ _) as [d es] eqn:Er. simpl in Hf.
  eexists d, _, summary, body. rewrite Er. split; [done|]. split; [done|]. split.
  - cbn [app List.filter is_respond]. by rewrite List.filter_app, Hf.
  - apply option_for_offered.
Qed.

(** A policy file that does not parse opens the gate: the daemon falls back
    to the bare prompt, which allows the call when it times out, and nothing is
    audited. *)
Theorem broken_policy_fails_open files cwd home tool argv summary body rx cx t e
    (Hf : files !! join (join (join (join cwd "configs") "policy") "profiles") "normal.toml" = Some t)
    (He : toml_read t = Err e) :
  route (load_session_resolver toml_read files cwd tool home) tool argv summary body TimedOut rx cx
  = (Allow, [ENotify summary body]).
Proof.
  unfold load_session_resolver, load, parse_profile. rewrite Hf.
  change ("normal" ++ ".toml")%string with "normal.toml". rewrite Hf, He. done.
Qed.

End laws.

(** An approval of one call is answered with the first offered option whose
    id or kind contains [allow], whatever that option means: one of kind
    [allow_always], which grants every later call too, wins over any option
    after it, and so does a refusal called [disallow]. *)
Theorem allow_picks_first_match (id : string) (rest : list json) :
  let opt id kind := JObj [("optionId", JStr id); ("kind", JStr kind)] in
  option_for Allow (opt id "allow_always" :: rest) = id
  ∧ option_for Allow (opt "disallow" "reject_once" :: rest) = "disallow".
Proof.
  split; [|reflexivity]. unfold option_for. cbn -[contains].
  change (contains "allow_always" "allow") with true. by rewrite orb_true_r.
Qed.

(** ** Witnesses *)
Lemma broken_policy_fails_open_witness :
  resolve_permission (λ _, "") id (λ _ _, false)
    (load_session_resolver (λ _, Err "bad") {["/w/configs/policy/profiles/normal.toml" := "x"]}
       "/w" "rm" None)
    "rm" ["-rf"] "s" "b" TimedOut None (mkCtx 0 None None) = (Allow, [ENotify "s" "b"]).
Proof. apply (broken_policy_fails_open (λ _, Err "bad") (λ _, "") id (λ _ _, false) _ _ _ _ _ _ _ _ _ "x" "bad"); reflexivity. Defined.

End Policy.
