(* ===== verification/Consent.v ===== *)
(** * Consent tokens

    [crates/sy-agent/src/agt/policy/consent.rs], the store of pending consents,
    and [AgtBridge::handle_approve] of [daemon.rs], which resolves them. A
    handler waits on the channel of its token; a dropped sender closes it. *)

From S2P Require Import Prelude Vocab Policy.
Import Policy.
Local Open Scope string_scope.
Local Open Scope list_scope.

Module Consent.

(** UUIDs, and the [oneshot] channels, numbered in order of creation. *)
Definition Token : Type := N.
Definition Chan : Type := N.

(** [PendingConsent]; [pc_decided] is the channel of its sender. *)
Record PendingConsent : Type := mkPending {
  pc_tool : string;
  pc_argv : list string;
  pc_policy_diff : string;
  pc_expires_at : Instant;
  pc_decided : Chan;
}.

(** What the receiving end of a channel has seen: nothing yet, the decision, or
    the sender's end; or it is gone itself. *)
Inductive Rx : Type := Waiting | Received | Closed | Dropped.

Inductive ConsentError : Type := NotFound | Expired.

(** [ConsentStore] with the channels. [h_issued] remembers the token and the
    deadline each channel was issued with, [h_decided] the decisions
    delivered and when. *)
Record Store : Type := mkStore {
  st_pending : gmap Token PendingConsent;
  st_rx : gmap Chan Rx;
  st_next : Chan;
  h_issued : gmap Chan (Token * Instant);
  h_decided : list (Token * Instant);
}.

Definition new : Store := mkStore ∅ ∅ 0%N ∅ [].

(** The sender of [c] sends, or goes away. *)
Definition settle (v : Rx) (c : Chan) (m : gmap Chan Rx) : gmap Chan Rx :=
  match m !! c with Some Waiting => <[c := v]> m | _ => m end.

Definition with_pending (s : Store) (p : gmap Token PendingConsent) (rx : gmap Chan Rx) : Store :=
  mkStore p rx (st_next s) (h_issued s) (h_decided s).

Definition is_live (now : Instant) (e : PendingConsent) : Prop := (now < pc_expires_at e)%Z.
#[export] Instance is_live_dec now e : base.Decision (is_live now e).
Proof. unfold is_live. apply _. Defined.

(** [cleanup_expired]. *)
Definition cleanup_expired (now : Instant) (s : Store) : Store :=
  let dead := filter (λ te, ¬ is_live now te.2) (st_pending s) in
  with_pending s (filter (λ te, is_live now te.2) (st_pending s))
    (foldr (λ te m, settle Closed (pc_decided te.2) m) (st_rx s) (map_to_list dead)).

(** [issue]; [now] is read again for the deadline, after the sweep. *)
Definition issue (tool : string) (argv : list string) (policy_diff : string) (ttl : Duration)
    (sweep now : Instant) (token : Token) (s : Store) : (Token * Chan) * Store :=
  let s := cleanup_expired sweep s in
  let c := st_next s in
  let rx := match st_pending s !! token with
            | Some old => settle Closed (pc_decided old) (st_rx s)
            | None => st_rx s
            end in
  ((token, c),
   mkStore (<[token := mkPending tool argv policy_diff (now + ttl)%Z c]> (st_pending s))
     (<[c := Waiting]> rx) (c + 1)%N (<[c := (token, (now + ttl)%Z)]> (h_issued s)) (h_decided s)).

(** [decide]. *)
Definition decide_token (token : Token) (now : Instant) (s : Store) : result unit ConsentError * Store :=
  match st_pending s !! token with
  | None => (Err NotFound, s)
  | Some e =>
      let p := delete token (st_pending s) in
      if (pc_expires_at e <=? now)%Z then
        (Err Expired, with_pending s p (settle Closed (pc_decided e) (st_rx s)))
      else
        (Ok tt, mkStore p (settle Received (pc_decided e) (st_rx s)) (st_next s) (h_issued s)
                  (h_decided s ++ [(token, now)]))
  end.

(** [snapshot]. *)
Definition snapshot (token : Token) (now : Instant) (s : Store) : option PendingConsent :=
  e ← st_pending s !! token; if (pc_expires_at e <=? now)%Z then None else Some e.

(** The waiting handler goes away. *)
Definition drop_receiver (c : Chan) (s : Store) : Store :=
  with_pending s (st_pending s) (settle Dropped c (st_rx s)).

(** ** [agt.approve] *)

(** [emit_approve_audit]; [dec] prints integers. *)
Definition emit_approve_audit (dec : Z → string) (snap : PendingConsent) (pid uid : option Z)
    (now : Instant) (cx : Ctx) : AuditRecord :=
  let remaining_ms := (saturating_since (pc_expires_at snap) now / 1000000)%Z in
  mkRecord (cx_ts cx) (pc_tool snap) (pc_policy_diff snap) AuditConsent (pc_argv snap)
    (cx_request cx) (cx_trace cx)
    (Some ("approver pid=" ++ dec (default 0%Z pid) ++ " uid=" ++ dec (default 0%Z uid)
           ++ " ttl_remaining_ms=" ++ dec remaining_ms))%string.

(** [handle_approve]; the clock is read by [snapshot], by [decide] and for the
    audit record. [parse] and [show] are [Uuid::parse_str] and [to_string]. *)
Definition handle_approve (parse : string → result Token string) (show : Token → string)
    (dec : Z → string) (token_str : string) (pid uid : option Z) (cx : Ctx)
    (now1 now2 now3 : Instant) (s : Store)
    : result string (ErrorCode.ErrorCode * string) * list AuditRecord * Store :=
  match parse token_str with
  | Err e => (Err (ErrorCode.BadRequest, "invalid token " ++ token_str ++ ": " ++ e)%string, [], s)
  | Ok token =>
      let snap := snapshot token now1 s in
      match decide_token token now2 s with
      | (Ok _, s') =>
          (Ok (show token),
           match snap with Some e => [emit_approve_audit dec e pid uid now3 cx] | None => [] end, s')
      | (Err NotFound, s') =>
          (Err (ErrorCode.BadRequest, "token " ++ show token ++ " not found")%string, [], s')
      | (Err Expired, s') =>
          (Err (ErrorCode.ConsentRequired, "token " ++ show token ++ " expired")%string, [], s')
      end
  end.

(** ** Runs *)

(** The store and the clock. *)
Record Sys : Type := mkSys { sy_store : Store; sy_now : Instant }.

(** The calls of the daemon and the passage of time; UUIDs do not repeat. *)
Inductive step : Sys → Sys → Prop :=
| step_tick s now now' : (now <= now')%Z → step (mkSys s now) (mkSys s now')
| step_issue s now tool argv diff ttl token :
    (∀ c dl, h_issued s !! c ≠ Some (token, dl)) →
    step (mkSys s now) (mkSys (issue tool argv diff ttl now now token s).2 now)
| step_decide s now token : step (mkSys s now) (mkSys (decide_token token now s).2 now)
| step_sweep s now : step (mkSys s now) (mkSys (cleanup_expired now s) now)
| step_drop s now c : step (mkSys s now) (mkSys (drop_receiver c s) now).

Definition reachable (y : Sys) : Prop := ∃ now, rtc step (mkSys new now) y.

(** The steps of a daemon where nothing issues a token or approves [token]. *)
Inductive quiet_step (token : Token) : Sys → Sys → Prop :=
| quiet_tick s now now' : (now <= now')%Z → quiet_step token (mkSys s now) (mkSys s now')
| quiet_decide s now token' :
    token' ≠ token → quiet_step token (mkSys s now) (mkSys (decide_token token' now s).2 now).

(** ** The invariant *)

(** The entry of [token] is the one its channel was issued with. *)
Definition entry_ok (s : Store) (token : Token) (e : PendingConsent) : Prop :=
  h_issued s !! pc_decided e = Some (token, pc_expires_at e)
  ∧ (st_rx s !! pc_decided e = Some Waiting ∨ st_rx s !! pc_decided e = Some Dropped).

Record inv (s : Store) : Prop := {
  inv_entry token e : st_pending s !! token = Some e → entry_ok s token e;
  inv_waiting c : st_rx s !! c = Some Waiting →
    ∃ token e, st_pending s !! token = Some e ∧ pc_decided e = c;
  inv_received c : st_rx s !! c = Some Received →
    ∃ token dl t, h_issued s !! c = Some (token, dl) ∧ (token, t) ∈ h_decided s ∧ (t < dl)%Z;
  inv_unique c c' token dl dl' : h_issued s !! c = Some (token, dl) →
    h_issued s !! c' = Some (token, dl') → c = c';
  inv_next c : is_Some (h_issued s !! c) → (c < st_next s)%N;
}.

Lemma lookup_settle v c m c' :
  settle v c m !! c' = (if decide (c = c') then match m !! c' with Some Waiting => Some v | o => o end
                        else m !! c').
Proof.
  unfold settle. case_decide as E; subst.
  - destruct (m !! c') as [[]|] eqn:E'; [by rewrite lookup_insert_eq|congruence..].
  - destruct (m !! c) as [[]|]; [by rewrite lookup_insert_ne|done..].
Qed.

Lemma lookup_settle_all {A} (f : A → Chan) l m c :
  foldr (λ x m, settle Closed (f x) m) m l !! c
  = match m !! c with
    | Some Waiting => if decide (c ∈ f <$> l) then Some Closed else Some Waiting
    | o => o
    end.
Proof.
  induction l as [|x l IH]; simpl.
  - destruct (m !! c) as [[]|]; try done; by rewrite decide_False by apply not_elem_of_nil.
  - rewrite lookup_settle, IH.
    destruct (decide (f x = c)) as [->|Hne].
    + destruct (m !! c) as [[]|]; try done.
      rewrite (decide_True (P := c ∈ c :: _)) by set_solver. by case_decide.
    + destruct (m !! c) as [[]|]; try done.
      destruct (decide (c ∈ f <$> l)); [rewrite decide_True by set_solver; done|].
      rewrite decide_False by set_solver. done.
Qed.

(** The sweep at [now] finds the entry of channel [c] past its deadline. *)
Definition swept (now : Instant) (s : Store) (c : Chan) : Prop :=
  ∃ token e, st_pending s !! token = Some e ∧ pc_decided e = c ∧ ¬ is_live now e.

Lemma sweep_rx now s c :
  st_rx (cleanup_expired now s) !! c = st_rx s !! c ∧ ¬ (st_rx s !! c = Some Waiting ∧ swept now s c)
  ∨ st_rx (cleanup_expired now s) !! c = Some Closed ∧ st_rx s !! c = Some Waiting ∧ swept now s c.
Proof.
  unfold cleanup_expired. cbn [st_rx with_pending]. rewrite lookup_settle_all.
  destruct (st_rx s !! c) as [[]|] eqn:E; try (left; split; [done|]; naive_solver).
  assert (c ∈ (λ te : Token * PendingConsent, pc_decided te.2) <$>
            map_to_list (filter (λ te : Token * PendingConsent, ¬ is_live now te.2) (st_pending s))
          ↔ swept now s c) as Hiff.
  { rewrite list_elem_of_fmap. unfold swept. split.
    - intros ([token e] & -> & Hin%elem_of_map_to_list). simpl.
      apply map_lookup_filter_Some in Hin as [? ?]. eauto.
    - intros (token & e & He & <- & Hl). exists (token, e). split; [done|].
      apply elem_of_map_to_list, map_lookup_filter_Some. done. }
  case_decide as Hd; [right|left]; rewrite Hiff in Hd; naive_solver.
Qed.

Lemma sweep_pending now s token e :
  st_pending (cleanup_expired now s) !! token = Some e ↔
  st_pending s !! token = Some e ∧ is_live now e.
Proof. unfold cleanup_expired. cbn. by rewrite map_lookup_filter_Some. Qed.

(** Two entries of the store never share a channel. *)
Lemma inv_same_chan s token token' e e' :
  inv s → st_pending s !! token = Some e → st_pending s !! token' = Some e' →
  pc_decided e = pc_decided e' → token = token'.
Proof.
  intros Hi He He' Ec. destruct (inv_entry _ Hi _ _ He) as [H1 _].
  destruct (inv_entry _ Hi _ _ He') as [H2 _]. congruence.
Qed.

Lemma inv_sweep now s : inv s → inv (cleanup_expired now s).
Proof.
  intros Hi. split.
  - intros token e [He Hl]%sweep_pending. destruct (inv_entry _ Hi _ _ He) as [H1 H2]. split; [done|].
    destruct (sweep_rx now s (pc_decided e)) as [[-> _]|(_ & _ & token' & e' & He' & Ec & Hl')]; [done|].
    rewrite (inv_same_chan _ _ _ _ _ Hi He' He Ec) in He'. congruence.
  - intros c Hc. destruct (sweep_rx now s c) as [[E Hn]|(E & _)]; [|congruence].
    rewrite E in Hc. destruct (inv_waiting _ Hi _ Hc) as (token & e & He & Ec).
    exists token, e. split; [|done]. apply sweep_pending. split; [done|].
    destruct (base.decide (is_live now e)); [done|]. exfalso. apply Hn. split; [done|]. by exists token, e.
  - intros c Hc. apply (inv_received _ Hi). destruct (sweep_rx now s c) as [[E _]|(E & _)]; congruence.
  - apply (inv_unique _ Hi).
  - apply (inv_next _ Hi).
Qed.

Lemma inv_issue tool argv diff ttl sweep now token s :
  inv s → (∀ c dl, h_issued s !! c ≠ Some (token, dl)) →
  inv (issue tool argv diff ttl sweep now token s).2.
Proof.
  intros Hi0 Hfresh. pose proof (inv_sweep sweep s Hi0) as Hi. unfold issue.
  change (h_issued s) with (h_issued (cleanup_expired sweep s)) in Hfresh.
  set (s1 := cleanup_expired sweep s) in *. clearbody s1. cbn.
  assert (st_pending s1 !! token = None) as Hno.
  { destruct (st_pending s1 !! token) as [e|] eqn:E; [|done].
    destruct (inv_entry _ Hi _ _ E) as [H _]. by destruct (Hfresh _ _ H). }
  rewrite Hno. set (c0 := st_next s1).
  assert (forall c x, h_issued s1 !! c = Some x → c ≠ c0) as Hlt.
  { intros c x Hc ->. pose proof (inv_next _ Hi c0 ltac:(eauto)). subst c0. lia. }
  split; cbn.
  - intros token' e He. apply lookup_insert_Some in He as [[<- <-]|[Hne He]].
    + split; simpl; rewrite lookup_insert_eq; auto.
    + destruct (inv_entry _ Hi _ _ He) as [H1 H2]. pose proof (Hlt _ _ H1).
      split; simpl; rewrite lookup_insert_ne by done; done.
  - intros c Hc. apply lookup_insert_Some in Hc as [[<- _]|[Hne Hc]].
    + eexists token, _. by rewrite lookup_insert_eq.
    + destruct (inv_waiting _ Hi _ Hc) as (token' & e & He & Ec). exists token', e.
      split; [|done]. rewrite lookup_insert_ne; [done|]. intros ->. congruence.
  - intros c Hc. apply lookup_insert_Some in Hc as [[_ ?]|[Hne Hc]]; [done|].
    rewrite lookup_insert_ne by done. by apply (inv_received _ Hi).
  - intros c c' t dl dl' Hc Hc'.
    apply lookup_insert_Some in Hc as [[<- Ec]|[Hne Hc]];
      apply lookup_insert_Some in Hc' as [[<- Ec']|[Hne' Hc']]; simplify_eq; [done| | |].
    + by destruct (Hfresh _ _ Hc').
    + by destruct (Hfresh _ _ Hc).
    + by eapply (inv_unique _ Hi).
  - intros c [x Hc]. apply lookup_insert_Some in Hc as [[<- _]|[Hne Hc]]; [lia|].
    pose proof (inv_next _ Hi c ltac:(eauto)). subst c0. lia.
Qed.

(** Taking one entry out and settling its channel keeps the invariant, provided
    a delivered decision is in the history. *)
Lemma inv_take s token e v hist :
  inv s → st_pending s !! token = Some e → v ≠ Waiting →
  (v = Received → ∃ t, (token, t) ∈ hist ∧ (t < pc_expires_at e)%Z) →
  (∀ x, x ∈ h_decided s → x ∈ hist) →
  inv (mkStore (delete token (st_pending s)) (settle v (pc_decided e) (st_rx s)) (st_next s)
         (h_issued s) hist).
Proof.
  intros Hi He Hv Hrec Hh. split; cbn.
  - intros token' e' [Hne He']%lookup_delete_Some.
    destruct (inv_entry _ Hi _ _ He') as [H1 H2]. split; [done|]. cbn. rewrite lookup_settle.
    case_decide as Ec; [|done]. by destruct (inv_same_chan _ _ _ _ _ Hi He He' Ec).
  - intros c Hc. rewrite lookup_settle in Hc. case_decide as Ec.
    { subst c. destruct (inv_entry _ Hi _ _ He) as [_ [H|H]]; rewrite H in Hc; congruence. }
    destruct (inv_waiting _ Hi _ Hc) as (token' & e' & He' & Ec'). exists token', e'.
    split; [|done]. rewrite lookup_delete_ne; [done|]. intros ->. congruence.
  - intros c Hc. rewrite lookup_settle in Hc. case_decide as Ec.
    + subst c. destruct (inv_entry _ Hi _ _ He) as [H1 [H|H]]; rewrite H in Hc; [|congruence].
      simplify_eq. destruct (Hrec eq_refl) as (t & Ht & Hlt). eauto 10.
    + destruct (inv_received _ Hi _ Hc) as (tk & dl & t & H1 & H2 & H3). eauto 10.
  - apply (inv_unique _ Hi).
  - apply (inv_next _ Hi).
Qed.

Lemma inv_decide token now s : inv s → inv (decide_token token now s).2.
Proof.
  intros Hi. unfold decide_token. destruct (st_pending s !! token) as [e|] eqn:He; [|done].
  destruct (Z.leb_spec (pc_expires_at e) now); cbn.
  - by apply (inv_take s token e Closed).
  - apply (inv_take s token e Received); [done..| |]; [|intros; set_solver].
    intros _. exists now. split; [set_solver|lia].
Qed.

Lemma consent_inv_drop c s : inv s → inv (drop_receiver c s).
Proof.
  intros Hi. split; cbn.
  - intros token e He. destruct (inv_entry _ Hi _ _ He) as [H1 H2]. split; [done|]. cbn.
    rewrite lookup_settle. case_decide; [|done]. destruct H2 as [-> | ->]; auto.
  - intros c' Hc. rewrite lookup_settle in Hc. case_decide; [|by apply (inv_waiting _ Hi)].
    destruct (st_rx s !! c') as [[]|]; congruence.
  - intros c' Hc. rewrite lookup_settle in Hc. apply (inv_received _ Hi). case_decide; [|done].
    destruct (st_rx s !! c') as [[]|]; congruence.
  - apply (inv_unique _ Hi).
  - apply (inv_next _ Hi).
Qed.

Lemma reachable_inv y : reachable y → inv (sy_store y).
Proof.
  intros [now Hr]. remember (mkSys new now) as y0 eqn:E0.
  assert (inv (sy_store y0)) as H0.
  { subst. split; cbn; intros *; rewrite ?lookup_empty; try done; by intros [? ?]. }
  clear E0. induction Hr as [y|y y1 y2 Hs _ IH]; [done|]. apply IH.
  destruct Hs; cbn [sy_store] in *; auto using inv_issue, inv_decide, inv_sweep, consent_inv_drop.
Qed.

(** The daemon's store of one pending token. *)
Definition run_token : Token := 7%N.
Definition run_issued : Store :=
  (issue "rm" ["-rf"] "sha" CONSENT_TOKEN_TTL 0%Z 0%Z run_token new).2.

(** ** Properties *)

(** C9. A waiting handler is told to go on only by an approval of the token it
    was issued, delivered strictly before the token's deadline, and that token
    was issued to no other handler. *)
Theorem consent_needs_approval y c
    (Hr : reachable y) (Hc : st_rx (sy_store y) !! c = Some Received) :
  ∃ token dl t, h_issued (sy_store y) !! c = Some (token, dl)
    ∧ (token, t) ∈ h_decided (sy_store y) ∧ (t < dl)%Z
    ∧ ∀ c' dl', h_issued (sy_store y) !! c' = Some (token, dl') → c' = c.
Proof.
  pose proof (reachable_inv _ Hr) as Hi.
  destruct (inv_received _ Hi _ Hc) as (token & dl & t & H1 & H2 & H3).
  exists token, dl, t. split; [done|]. split; [done|]. split; [done|].
  intros c' dl' Hc'. by eapply (inv_unique _ Hi).
Qed.

(** [agt.approve] with a parsed token: it succeeds exactly when the token is
    pending and not past its deadline, and then wakes the waiting handler and
    writes one audit record, of the call that was parked, even when the clock
    advances between its two looks at the store. On an error nothing is audited
    and no handler is woken, and the token is dead either way. *)
Theorem approve_outcome parse show dec str token pid uid cx now1 now2 now3 s
    (Hp : parse str = Ok token) (Hn : (now1 <= now2)%Z) :
  let '(res, audits, s') := handle_approve parse show dec str pid uid cx now1 now2 now3 s in
  st_pending s' = delete token (st_pending s)
  ∧ match st_pending s !! token with
    | None => is_ok res = false ∧ audits = [] ∧ s' = s
    | Some e =>
        if (now2 <? pc_expires_at e)%Z then
          res = Ok (show token)
          ∧ (st_rx s !! pc_decided e = Some Waiting → st_rx s' !! pc_decided e = Some Received)
          ∧ ∃ rec, audits = [rec] ∧ ar_tool rec = pc_tool e ∧ ar_argv rec = pc_argv e
              ∧ ar_policy_sha rec = pc_policy_diff e ∧ ar_decision rec = AuditConsent
        else is_ok res = false ∧ audits = []
          ∧ (st_rx s !! pc_decided e = Some Waiting → st_rx s' !! pc_decided e = Some Closed)
    end.
Proof.
  unfold handle_approve, decide_token, snapshot. rewrite Hp.
  destruct (st_pending s !! token) as [e|] eqn:He; cbn [mbind option_bind].
  - destruct (Z.leb_spec (pc_expires_at e) now2), (Z.ltb_spec now2 (pc_expires_at e)); try lia; cbn.
    + split; [done|]. split; [done|]. split; [done|]. intros Hw.
      rewrite lookup_settle, decide_True by done. by rewrite Hw.
    + destruct (Z.leb_spec (pc_expires_at e) now1); [lia|].
      split; [done|]. split; [done|]. split; [|by eexists].
      intros Hw. rewrite lookup_settle, decide_True by done. by rewrite Hw.
  - split; [|done]. symmetry. by apply delete_id.
Qed.

(** Sweeping at or after a token's deadline closes its channel, so the
    waiting handler denies the call; sweeping before leaves it waiting. *)
Theorem sweep_closes_expired y now token e
    (Hr : reachable y) (He : st_pending (sy_store y) !! token = Some e)
    (Hw : st_rx (sy_store y) !! pc_decided e = Some Waiting) :
  let s' := cleanup_expired now (sy_store y) in
  st_rx s' !! pc_decided e = Some (if (pc_expires_at e <=? now)%Z then Closed else Waiting)
  ∧ (st_pending s' !! token = None ↔ (pc_expires_at e <= now)%Z).
Proof.
  pose proof (reachable_inv _ Hr) as Hi. intros s'. split.
  - subst s'. destruct (Z.leb_spec (pc_expires_at e) now) as [Hl|Hl];
      destruct (sweep_rx now (sy_store y) (pc_decided e)) as [[E Hn]|(E & _ & t' & e' & He' & Ec & Hd)].
    + exfalso. apply Hn. split; [done|]. exists token, e. repeat split; [done|]. unfold is_live. lia.
    + done.
    + by rewrite E.
    + rewrite (inv_same_chan _ _ _ _ _ Hi He' He Ec) in He'. unfold is_live in Hd. naive_solver lia.
  - subst s'. split.
    + intros Hno. destruct (base.decide (is_live now e)) as [Hl|Hl]; [|unfold is_live in Hl; lia].
      pose proof (proj2 (sweep_pending now (sy_store y) token e) (conj He Hl)). congruence.
    + intros Hl. destruct (st_pending (cleanup_expired now (sy_store y)) !! token) as [e'|] eqn:E; [|done].
      apply sweep_pending in E as [E Hlive]. unfold is_live in Hlive. naive_solver lia.
Qed.

(** A token nobody approves does not expire by itself: as long as no other
    token is issued, its handler goes on waiting however much time passes, past
    its deadline included. *)
Theorem forgotten_token_waits token e y y'
    (Hr : reachable y) (He : st_pending (sy_store y) !! token = Some e)
    (Hw : st_rx (sy_store y) !! pc_decided e = Some Waiting)
    (Hq : rtc (quiet_step token) y y') :
  st_pending (sy_store y') !! token = Some e ∧ st_rx (sy_store y') !! pc_decided e = Some Waiting.
Proof.
  pose proof (reachable_inv _ Hr) as Hi. clear Hr.
  induction Hq as [y|y y1 y2 Hs _ IH]; [done|].
  destruct Hs as [s now now' _|s now token' Hne]; cbn [sy_store] in *; [by apply IH|].
  pose proof (inv_decide token' now s Hi) as Hi'. apply IH; [| |done]; clear IH;
    revert Hi'; unfold decide_token; destruct (st_pending s !! token') as [e'|] eqn:He'; try done;
    destruct (_ <=? _)%Z; cbn; intros _.
  - by rewrite lookup_delete_ne.
  - by rewrite lookup_delete_ne.
  - rewrite lookup_settle, decide_False; [done|]. intros Ec.
    by apply Hne, (inv_same_chan _ _ _ _ _ Hi He' He).
  - rewrite lookup_settle, decide_False; [done|]. intros Ec.
    by apply Hne, (inv_same_chan _ _ _ _ _ Hi He' He).
Qed.

(** ** Witnesses *)
Lemma run_issued_reachable : reachable (mkSys run_issued 0%Z).
Proof.
  exists 0%Z. apply rtc_once, step_issue. intros c dl. cbn. by rewrite lookup_empty.
Qed.

Lemma run_approved_reachable : reachable (mkSys (decide_token run_token 10%Z run_issued).2 10%Z).
Proof.
  destruct run_issued_reachable as [now Hr]. exists now.
  eapply rtc_r; [eapply rtc_r; [exact Hr|]|apply step_decide]. by apply step_tick.
Qed.

Lemma consent_needs_approval_witness :
  let s := (decide_token run_token 10%Z run_issued).2 in
  ∃ token dl t, h_issued s !! 0%N = Some (token, dl) ∧ (token, t) ∈ h_decided s ∧ (t < dl)%Z
    ∧ ∀ c' dl', h_issued s !! c' = Some (token, dl') → c' = 0%N.
Proof. exact (consent_needs_approval _ 0%N run_approved_reachable eq_refl). Defined.

Lemma approve_outcome_witness :
  let '(res, audits, s') := handle_approve (λ _, Ok run_token) (λ _, "7") (λ _, "0") "7" None None
                              (mkCtx 0%Z None None) 5%Z 6%Z 7%Z run_issued in
  st_pending s' = delete run_token (st_pending run_issued)
  ∧ match st_pending run_issued !! run_token with
    | None => is_ok res = false ∧ audits = [] ∧ s' = run_issued
    | Some e =>
        if (6 <? pc_expires_at e)%Z then
          res = Ok "7"
          ∧ (st_rx run_issued !! pc_decided e = Some Waiting → st_rx s' !! pc_decided e = Some Received)
          ∧ ∃ rec, audits = [rec] ∧ ar_tool rec = pc_tool e ∧ ar_argv rec = pc_argv e
              ∧ ar_policy_sha rec = pc_policy_diff e ∧ ar_decision rec = AuditConsent
        else is_ok res = false ∧ audits = []
          ∧ (st_rx run_issued !! pc_decided e = Some Waiting → st_rx s' !! pc_decided e = Some Closed)
    end.
Proof.
  exact (approve_outcome (λ _, Ok run_token) (λ _, "7") (λ _, "0") "7" run_token None None
           (mkCtx 0%Z None None) 5%Z 6%Z 7%Z run_issued eq_refl ltac:(lia)).
Defined.

Definition run_entry : PendingConsent := mkPending "rm" ["-rf"] "sha" CONSENT_TOKEN_TTL 0%N.

Lemma sweep_closes_expired_witness :
  st_rx (cleanup_expired CONSENT_TOKEN_TTL run_issued) !! 0%N = Some Closed
  ∧ (st_pending (cleanup_expired CONSENT_TOKEN_TTL run_issued) !! run_token = None
     ↔ (CONSENT_TOKEN_TTL <= CONSENT_TOKEN_TTL)%Z).
Proof.
  exact (sweep_closes_expired (mkSys run_issued 0%Z) CONSENT_TOKEN_TTL run_token run_entry
           run_issued_reachable eq_refl eq_refl).
Defined.

Lemma forgotten_token_waits_witness :
  st_pending run_issued !! run_token = Some run_entry
  ∧ st_rx run_issued !! 0%N = Some Waiting.
Proof.
  apply (forgotten_token_waits run_token run_entry (mkSys run_issued 0%Z)
           (mkSys run_issued (2 * CONSENT_TOKEN_TTL)%Z) run_issued_reachable eq_refl eq_refl).
  apply rtc_once, quiet_tick. done.
Defined.

End Consent.
