(* ===== verification/AuditLog.v ===== *)
(** * The audit log

    [crates/sy-agent/src/agt/audit/jsonl.rs]: the append-only JSONL file and
    its rotation into numbered archives. A directory is a map from its files to
    their bytes; rotation is the list of its file operations, so that a crash is
    a prefix of it. *)

From S2P Require Import Prelude.
From stdpp Require Import pretty countable.
Local Open Scope string_scope.
Local Open Scope list_scope.
Local Open Scope nat_scope.

Module Audit.

Definition ROTATE_THRESHOLD_BYTES : Z := (64 * 1024 * 1024)%Z.
Definition ARCHIVE_RETENTION : nat := 10.
Definition LIVE_FILE_NAME : string := "audit.jsonl".

(** The files of the audit directory. *)
Inductive AuditFile : Type := Live | Archive (n : nat) | Staged (n : nat).
#[export] Instance AuditFile_eq_dec : EqDecision AuditFile.
Proof. solve_decision. Defined.
#[export] Instance AuditFile_countable : Countable AuditFile.
Proof.
  refine (inj_countable'
    (λ x, match x with Live => None | Archive n => Some (inl n) | Staged n => Some (inr n) end)
    (λ x, match x with None => Live | Some (inl n) => Archive n | Some (inr n) => Staged n end) _).
  by intros [].
Defined.

(** [live_path], [archive_path] and [archive_unzipped_path], without the
    directory. *)
Definition file_name (f : AuditFile) : string :=
  match f with
  | Live => LIVE_FILE_NAME
  | Archive n => LIVE_FILE_NAME ++ "." ++ pretty n ++ ".zst"
  | Staged n => LIVE_FILE_NAME ++ "." ++ pretty n
  end%string.

Notation Dir := (gmap AuditFile string).

Section rotation.
(** The [zstd] encoder on a whole file. *)
Context (zstd : string → string).
Implicit Type d : Dir.

(** [fs::rename] of a file that is there. *)
Definition rename (src dst : AuditFile) d : Dir :=
  match d !! src with Some s => <[dst := s]> (delete src d) | None => d end.

(** The operations of [rotate] in order: [shift_archives], the rename of the
    live file, [compress_archive] and the removal of its input. *)
Definition evict d : Dir := delete (Archive ARCHIVE_RETENTION) d.
Definition shift_one (n : nat) d : Dir := rename (Archive n) (Archive (n + 1)) d.
Definition shifts : list nat := rev (seq 1 (ARCHIVE_RETENTION - 1)).
Definition compress_archive d : Dir :=
  match d !! Staged 1 with Some s => <[Archive 1 := zstd s]> d | None => d end.

Definition rotate_steps : list (Dir → Dir) :=
  evict :: map shift_one shifts
  ++ [rename Live (Staged 1); compress_archive; delete (Staged 1)].

Definition run_steps (steps : list (Dir → Dir)) d : Dir := foldl (λ d f, f d) d steps.

(** [rotate]; without a live file the rename fails after the shift. *)
Definition rotate d : result unit string * Dir :=
  match d !! Live with
  | Some _ => (Ok tt, run_steps rotate_steps d)
  | None => (Err "rename", run_steps (evict :: map shift_one shifts) d)
  end.

(** [rotate_if_needed]. *)
Definition rotate_if_needed d : result unit string * Dir :=
  match d !! Live with
  | None => (Ok tt, d)
  | Some s =>
      if (Z.of_nat (String.length s) <=? ROTATE_THRESHOLD_BYTES)%Z then (Ok tt, d) else rotate d
  end.

Definition newline : string := String (Ascii.ascii_of_nat 10) "".

(** [emit_jsonl] of a serialised record. *)
Definition emit_jsonl (line : string) d : result unit string * Dir :=
  rotate_if_needed (<[Live := (default "" (d !! Live) ++ line ++ newline)%string]> d).

(** Emitting records one after the other. *)
Fixpoint emit_all (lines : list string) d : result unit string * Dir :=
  match lines with
  | [] => (Ok tt, d)
  | l :: lines' =>
      match emit_jsonl l d with
      | (Ok _, d') => emit_all lines' d'
      | (Err e, d') => (Err e, d')
      end
  end.

(** ** The log it stands for *)

(** The directory holds the lines [live] not rotated yet and the rotated batches
    [arch], newest first. *)
Record holds d (live : string) (arch : list string) : Prop := {
  ho_live : d !! Live = if decide (live = "") then None else Some live;
  ho_arch n : d !! Archive n = match n with O => None | S n' => zstd <$> arch !! n' end;
  ho_staged n : d !! Staged n = None;
  ho_size : (Z.of_nat (String.length live) <= ROTATE_THRESHOLD_BYTES)%Z;
  ho_retention : length arch <= ARCHIVE_RETENTION;
}.

(** [d'] is [d] with the archives above [i] shifted up by one, the last gone. *)
Definition shifted (i : nat) d d' : Prop := ∀ x,
  d' !! x = match x with
            | Archive m => if m <=? i then d !! Archive m
                           else if m =? i + 1 then None
                           else if m <=? ARCHIVE_RETENTION then d !! Archive (m - 1)
                           else d !! Archive m
            | _ => d !! x
            end.

(** Everything emitted, as text. *)
Definition log_text (lines : list string) : string :=
  foldr (λ l s, l ++ newline ++ s)%string "" lines.

(** Batches and live lines, oldest first. *)
Definition all_text (batches : list string) (live : string) : string :=
  foldl (λ s b, b ++ s)%string live batches.

Lemma shifted_evict d : shifted (ARCHIVE_RETENTION - 1) d (evict d).
Proof.
  intros [|m|m]; unfold evict; [by rewrite lookup_delete_ne| |by rewrite lookup_delete_ne].
  unfold ARCHIVE_RETENTION. cbn [Nat.sub Nat.add].
  destruct (decide (m = 10)) as [->|Hm]; [by rewrite lookup_delete_eq|].
  rewrite lookup_delete_ne by congruence.
  destruct (Nat.leb_spec m 9), (Nat.eqb_spec m 10), (Nat.leb_spec m 10); (lia || done).
Qed.

Lemma shifted_one i d d' :
  0 < i < ARCHIVE_RETENTION → shifted i d d' → shifted (i - 1) d (shift_one i d').
Proof.
  unfold ARCHIVE_RETENTION. intros Hi Hs x. unfold shift_one, rename.
  pose proof (Hs (Archive i)) as Hsi. cbn in Hsi. rewrite Nat.leb_refl in Hsi.
  pose proof (Hs (Archive (i + 1))) as Hsi1. cbn in Hsi1.
  destruct (Nat.leb_spec (i + 1) i); [lia|]. rewrite Nat.eqb_refl in Hsi1.
  destruct (d' !! Archive i) as [s|] eqn:Ei.
  - destruct x as [|m|m]; [rewrite lookup_insert_ne, lookup_delete_ne by done; apply (Hs Live)| |
                           rewrite lookup_insert_ne, lookup_delete_ne by done; apply (Hs (Staged m))].
    destruct (decide (m = i + 1)) as [->|H1]; [|destruct (decide (m = i)) as [->|H2]].
    + rewrite lookup_insert_eq. destruct (Nat.leb_spec (i + 1) (i - 1)); [lia|].
      destruct (Nat.eqb_spec (i + 1) (i - 1 + 1)); [lia|].
      unfold ARCHIVE_RETENTION. destruct (Nat.leb_spec (i + 1) 10); [|lia].
      by replace (i + 1 - 1) with i by lia.
    + rewrite lookup_insert_ne, lookup_delete_eq by congruence.
      destruct (Nat.leb_spec i (i - 1)); [lia|]. destruct (Nat.eqb_spec i (i - 1 + 1)); [done|lia].
    + rewrite lookup_insert_ne, lookup_delete_ne by congruence. rewrite (Hs (Archive m)).
      destruct (Nat.leb_spec m i), (Nat.leb_spec m (i - 1)), (Nat.eqb_spec m (i + 1)),
        (Nat.eqb_spec m (i - 1 + 1)); (lia || done).
  - destruct x as [|m|m]; [apply (Hs Live)| |apply (Hs (Staged m))].
    destruct (decide (m = i + 1)) as [->|H1]; [|destruct (decide (m = i)) as [->|H2]].
    + rewrite (Hs (Archive (i + 1))). destruct (Nat.leb_spec (i + 1) (i - 1)); [lia|].
      destruct (Nat.leb_spec (i + 1) i); [lia|]. rewrite Nat.eqb_refl.
      destruct (Nat.eqb_spec (i + 1) (i - 1 + 1)); [lia|]. unfold ARCHIVE_RETENTION.
      destruct (Nat.leb_spec (i + 1) 10); [|lia]. replace (i + 1 - 1) with i by lia. congruence.
    + rewrite Ei. destruct (Nat.leb_spec i (i - 1)); [lia|].
      destruct (Nat.eqb_spec i (i - 1 + 1)); [done|lia].
    + rewrite (Hs (Archive m)).
      destruct (Nat.leb_spec m i), (Nat.leb_spec m (i - 1)), (Nat.eqb_spec m (i + 1)),
        (Nat.eqb_spec m (i - 1 + 1)); (lia || done).
Qed.

Lemma run_shifts i j : forall d d',
  i < ARCHIVE_RETENTION → shifted i d d' →
  shifted (i - Nat.min j i) d (run_steps (take j (map shift_one (rev (seq 1 i)))) d').
Proof.
  revert j. induction i as [|i IH]; intros j d d' Hi Hs.
  - rewrite Nat.min_0_r. simpl. by rewrite take_nil.
  - rewrite seq_S, rev_app_distr. destruct j as [|j]; [by rewrite Nat.sub_0_r|]. simpl.
    pose proof (shifted_one (S i) d d' ltac:(lia) Hs) as H1.
    replace (S i - 1) with i in H1 by lia. apply (IH j) in H1; [|lia].
    by replace (i - Nat.min j i) with (i - Nat.min j i) by lia.
Qed.

Lemma run_steps_app l k d : run_steps (l ++ k) d = run_steps k (run_steps l d).
Proof. apply foldl_app. Qed.

(** The directory once every archive has moved up. *)
Definition moved d : Dir := run_steps (evict :: map shift_one shifts) d.

Lemma moved_spec d : shifted 0 d (moved d).
Proof.
  pose proof (run_shifts (ARCHIVE_RETENTION - 1) (ARCHIVE_RETENTION - 1) d (evict d)) as H.
  unfold moved. change (run_steps (evict :: _) d) with (run_steps (map shift_one shifts) (evict d)).
  unfold shifts. unfold ARCHIVE_RETENTION in *. rewrite firstn_all2 in H by done.
  apply H; [lia|apply shifted_evict].
Qed.

Lemma rotate_eq d s :
  d !! Live = Some s →
  rotate d = (Ok tt, <[Archive 1 := zstd s]> (delete (Staged 1) (delete Live (moved d)))).
Proof.
  intros Hl. unfold rotate. rewrite Hl. f_equal. unfold rotate_steps.
  change (evict :: _ ++ _) with ((evict :: map shift_one shifts)
    ++ [rename Live (Staged 1); compress_archive; delete (Staged 1)]).
  rewrite run_steps_app. fold (moved d).
  assert (moved d !! Live = d !! Live) as Hml by exact (moved_spec d Live).
  cbn [run_steps foldl]. unfold rename. rewrite Hml, Hl.
  unfold compress_archive. rewrite lookup_insert_eq.
  rewrite delete_insert_ne by done. by rewrite delete_insert_eq.
Qed.

Lemma rotate_holds d s arch :
  d !! Live = Some s → (∀ n, d !! Archive n = match n with O => None | S n' => zstd <$> arch !! n' end) →
  (∀ n, d !! Staged n = None) → length arch <= ARCHIVE_RETENTION →
  ∃ d', rotate d = (Ok tt, d') ∧ holds d' "" (take ARCHIVE_RETENTION (s :: arch)).
Proof.
  intros Hl Ha Hst Hlen. rewrite (rotate_eq d s Hl). eexists. split; [done|]. split.
  - rewrite lookup_insert_ne, lookup_delete_ne, lookup_delete_eq by done. done.
  - intros n. destruct (decide (n = 1)) as [->|Hn1].
    { by rewrite lookup_insert_eq. }
    rewrite lookup_insert_ne, !lookup_delete_ne by congruence. rewrite (moved_spec d (Archive n)).
    destruct n as [|[|n]]; [apply Ha|done|]. cbn [Nat.leb Nat.eqb Nat.add].
    unfold ARCHIVE_RETENTION in *. replace (S (S n) - 1) with (S n) by lia. rewrite !Ha.
    destruct (Nat.leb_spec n 8) as [H|H].
    + by rewrite lookup_take_lt by lia.
    + rewrite lookup_take_ge by lia. by rewrite lookup_ge_None_2 by lia.
  - intros n. rewrite lookup_insert_ne by done.
    destruct (decide (n = 1)) as [->|Hn1]; [by rewrite lookup_delete_eq|].
    rewrite !lookup_delete_ne by congruence. rewrite (moved_spec d (Staged n)). apply Hst.
  - done.
  - rewrite length_take. lia.
Qed.

(** ** Emitting *)
Lemma append_assoc (a b c : string) : ((a ++ b) ++ c = a ++ (b ++ c))%string.
Proof. induction a as [|x a IH]; [done|]. change (String x ((a ++ b) ++ c) = String x (a ++ (b ++ c)))%string. by rewrite IH. Qed.

Lemma append_nil_r (a : string) : (a ++ "" = a)%string.
Proof. induction a as [|x a IH]; [done|]. change (String x (a ++ "") = String x a)%string. by rewrite IH. Qed.

Lemma append_newline_ne (a l : string) : (a ++ l ++ newline)%string ≠ "".
Proof. destruct a, l; done. Qed.

Lemma all_text_append bs : forall live t,
  all_text bs (live ++ t)%string = (all_text bs live ++ t)%string.
Proof.
  induction bs as [|b bs IH]; intros live t; [done|]. unfold all_text in *. simpl.
  by rewrite <- IH, append_assoc.
Qed.

(** What a directory holds, with the batches [gone] past retention, newest
    first: rotation only drops a batch behind ten newer ones, and every batch
    is over the threshold. *)
Record log_state d (text live : string) (arch gone : list string) : Prop := {
  ls_holds : holds d live arch;
  ls_text : text = all_text (arch ++ gone) live;
  ls_gone : gone ≠ [] → length arch = ARCHIVE_RETENTION;
  ls_big : Forall (λ b, (ROTATE_THRESHOLD_BYTES < Z.of_nat (String.length b))%Z) (arch ++ gone);
}.

Lemma emit_step d text live arch gone line :
  log_state d text live arch gone →
  ∃ d' live' arch' gone', emit_jsonl line d = (Ok tt, d')
    ∧ log_state d' (text ++ line ++ newline)%string live' arch' gone'.
Proof.
  intros [[Hl Ha Hst Hsz Hr] Ht Hg Hb]. unfold emit_jsonl, rotate_if_needed.
  assert (default "" (d !! Live) = live) as ->.
  { rewrite Hl. case_decide; by subst. }
  set (live1 := (live ++ line ++ newline)%string). rewrite lookup_insert_eq.
  assert ((text ++ line ++ newline)%string = all_text (arch ++ gone) live1) as Ht1.
  { subst live1. by rewrite Ht, all_text_append. }
  assert (forall x, x ≠ Live → <[Live:=live1]> d !! x = d !! x) as Hx
    by (intros; by rewrite lookup_insert_ne).
  destruct (Z.leb_spec (Z.of_nat (String.length live1)) ROTATE_THRESHOLD_BYTES) as [Hs|Hs].
  - eexists _, live1, arch, gone. split; [done|]. split; [|done..]. split; [| | |done|done].
    + rewrite lookup_insert_eq, decide_False; [done|]. apply append_newline_ne.
    + intros n. rewrite Hx by done. apply Ha.
    + intros n. rewrite Hx by done. apply Hst.
  - destruct (rotate_holds (<[Live:=live1]> d) live1 arch) as (d' & -> & Hd'); [| | |done|].
    { apply lookup_insert_eq. }
    { intros n. rewrite Hx by done. apply Ha. }
    { intros n. rewrite Hx by done. apply Hst. }
    exists d', "", (take ARCHIVE_RETENTION (live1 :: arch)),
      (drop ARCHIVE_RETENTION (live1 :: arch) ++ gone).
    split; [done|].
    assert (take ARCHIVE_RETENTION (live1 :: arch) ++ drop ARCHIVE_RETENTION (live1 :: arch) ++ gone
            = live1 :: arch ++ gone) as Ecat by (by rewrite app_assoc, take_drop).
    split; [done| | |].
    + rewrite Ecat, Ht1. unfold all_text. simpl. by rewrite append_nil_r.
    + intros Hne. rewrite length_take. cbn [length]. destruct gone as [|g gone].
      * rewrite app_nil_r in Hne.
        assert (length (drop ARCHIVE_RETENTION (live1 :: arch)) ≠ 0) as Hd
          by (by destruct (drop ARCHIVE_RETENTION (live1 :: arch))).
        rewrite length_drop in Hd. cbn [length] in Hd. lia.
      * rewrite Hg by done. unfold ARCHIVE_RETENTION. lia.
    + rewrite Ecat. by constructor.
Qed.

Lemma emit_all_state lines : forall d text live arch gone,
  log_state d text live arch gone →
  ∃ d' live' arch' gone', emit_all lines d = (Ok tt, d')
    ∧ log_state d' (text ++ log_text lines)%string live' arch' gone'.
Proof.
  induction lines as [|l lines IH]; intros d text live arch gone Hs; cbn [emit_all].
  - exists d, live, arch, gone. by rewrite append_nil_r.
  - destruct (emit_step _ _ _ _ _ l Hs) as (d1 & live1 & arch1 & gone1 & -> & Hs1).
    destruct (IH _ _ _ _ _ Hs1) as (d2 & live2 & arch2 & gone2 & -> & Hs2).
    exists d2, live2, arch2, gone2. split; [done|]. by rewrite !append_assoc in Hs2.
Qed.

Lemma empty_state : log_state ∅ "" "" [] [].
Proof. split; [|done..]. split; [done|by intros []|done|done|simpl; lia]. Qed.

(** The archives a crash during rotation leaves are the old ones, some of them
    moved up. *)
Lemma shifted_keeps i d d' n c :
  i < ARCHIVE_RETENTION → shifted i d d' → 0 < n < ARCHIVE_RETENTION →
  d !! Archive n = Some c → ∃ m, d' !! Archive m = Some c ∧ (n = m ∨ m = n + 1).
Proof.
  intros Hi Hs Hn Hc. unfold ARCHIVE_RETENTION in *. destruct (decide (n <= i)) as [Hl|Hl].
  - exists n. split; [|auto]. rewrite (Hs (Archive n)). by destruct (Nat.leb_spec n i); [|lia].
  - exists (n + 1). split; [|auto]. rewrite (Hs (Archive (n + 1))).
    destruct (Nat.leb_spec (n + 1) i); [lia|]. destruct (Nat.eqb_spec (n + 1) (i + 1)); [lia|].
    unfold ARCHIVE_RETENTION. destruct (Nat.leb_spec (n + 1) 10); [|lia].
    by replace (n + 1 - 1) with n by lia.
Qed.

(** A prefix of rotation: still shifting, or all shifted and up to three of the
    last operations done. *)
Lemma rotate_prefix j d :
  d !! Live ≠ None →
  (∃ i, i < ARCHIVE_RETENTION ∧ shifted i d (run_steps (take j rotate_steps) d))
  ∨ run_steps (take j rotate_steps) d = d
  ∨ ∃ k, run_steps (take j rotate_steps) d
         = run_steps (take k [rename Live (Staged 1); compress_archive; delete (Staged 1)]) (moved d).
Proof.
  intros _. destruct j as [|j]; [by right; left|].
  destruct (decide (j <= length shifts)) as [Hj|Hj].
  - left. exists (9 - Nat.min j 9). split; [unfold ARCHIVE_RETENTION; lia|].
    unfold rotate_steps. cbn [take]. rewrite take_app_le by (by rewrite length_map).
    exact (run_shifts 9 j d (evict d) ltac:(unfold ARCHIVE_RETENTION; lia) (shifted_evict d)).
  - right. right. exists (j - length shifts). unfold rotate_steps. cbn [take].
    rewrite take_app_ge by (rewrite length_map; lia). rewrite length_map.
    change (evict :: _ ++ ?x) with ((evict :: map shift_one shifts) ++ x). by rewrite run_steps_app.
Qed.

Lemma moved_archive d n c :
  0 < n < ARCHIVE_RETENTION → d !! Archive n = Some c → moved d !! Archive (n + 1) = Some c.
Proof.
  intros Hn Hc. rewrite (moved_spec d (Archive (n + 1))).
  destruct (Nat.leb_spec (n + 1) 0), (Nat.eqb_spec (n + 1) (0 + 1)); try lia.
  unfold ARCHIVE_RETENTION in *. destruct (Nat.leb_spec (n + 1) 10); [|lia].
  by replace (n + 1 - 1) with n by lia.
Qed.

(** The last three operations leave the other archives alone. *)
Lemma tail_steps k d live :
  d !! Live = Some live →
  ∃ d', run_steps (take k [rename Live (Staged 1); compress_archive; delete (Staged 1)]) d = d'
    ∧ (∀ n, n ≠ 1 → d' !! Archive n = d !! Archive n)
    ∧ (d' !! Live = Some live ∨ d' !! Staged 1 = Some live ∨ d' !! Archive 1 = Some (zstd live)).
Proof.
  intros Hl. set (d1 := <[Staged 1 := live]> (delete Live d)).
  assert (rename Live (Staged 1) d = d1) as E1 by (unfold rename; by rewrite Hl).
  assert (compress_archive d1 = <[Archive 1 := zstd live]> d1) as E2.
  { unfold compress_archive, d1. by rewrite lookup_insert_eq. }
  assert (forall n, d1 !! Archive n = d !! Archive n) as Hd1.
  { intros n. unfold d1. by rewrite lookup_insert_ne, lookup_delete_ne. }
  destruct k as [|[|[|k]]]; cbn [take run_steps foldl]; rewrite ?take_nil; cbn [foldl];
    rewrite ?E1, ?E2; (eexists; split; [reflexivity|]).
  - auto.
  - split; [auto|]. right. left. apply lookup_insert_eq.
  - split; [|right; right; apply lookup_insert_eq].
    intros n Hn. rewrite lookup_insert_ne by congruence. apply Hd1.
  - split; [|right; right; rewrite lookup_delete_ne by done; apply lookup_insert_eq].
    intros n Hn. rewrite lookup_delete_ne, lookup_insert_ne by congruence. apply Hd1.
Qed.

(** ** Properties *)

(** C4. Emitting any records into an empty directory succeeds and keeps the log:
    the archives, oldest first, then the live file hold every line emitted, in
    order, but for the oldest batches, which are dropped only behind ten newer
    archives; no other file is left, the live file is at most 64 MiB and every
    archived batch more. *)
Theorem audit_keeps_log (lines : list string) :
  ∃ d live arch gone, emit_all lines ∅ = (Ok tt, d) ∧ holds d live arch
    ∧ log_text lines = all_text (arch ++ gone) live
    ∧ (gone ≠ [] → length arch = ARCHIVE_RETENTION)
    ∧ Forall (λ b, (ROTATE_THRESHOLD_BYTES < Z.of_nat (String.length b))%Z) (arch ++ gone).
Proof.
  destruct (emit_all_state lines ∅ "" "" [] [] empty_state)
    as (d & live & arch & gone & E & [Hh Ht Hg Hb]).
  exists d, live, arch, gone. rewrite E. split; [done|]. split; [done|]. split; [exact Ht|]. done.
Qed.

(** A crash anywhere in a rotation loses no batch but the one rotation
    evicts: each of the nine newest archives is still an archive, at its place
    or the next, and the live batch is in the live file, in the staged file, or
    in the first archive. *)
Theorem rotation_crash_keeps_batches d live j (Hl : d !! Live = Some live) :
  let d' := run_steps (take j rotate_steps) d in
  (∀ n c, 0 < n < ARCHIVE_RETENTION → d !! Archive n = Some c →
     ∃ m, d' !! Archive m = Some c ∧ (n = m ∨ m = n + 1))
  ∧ (d' !! Live = Some live ∨ d' !! Staged 1 = Some live ∨ d' !! Archive 1 = Some (zstd live)).
Proof.
  intros d'. subst d'. pose proof (moved_spec d) as Hm.
  destruct (rotate_prefix j d ltac:(congruence)) as [(i & Hi & Hs)|[->|[k ->]]].
  - split; [intros n c; by eapply shifted_keeps|]. left. by rewrite (Hs Live).
  - split; [|auto]. eauto.
  - assert (moved d !! Live = d !! Live) as Hml by exact (Hm Live). rewrite Hl in Hml.
    destruct (tail_steps k (moved d) live Hml) as (d' & -> & Ha & Hlast). split; [|done].
    intros n c Hn Hc. exists (n + 1). split; [|auto]. rewrite Ha by lia. by apply moved_archive.
Qed.

End rotation.

(** ** Witnesses *)
Lemma rotation_crash_keeps_batches_witness :
  let d : Dir := {[ Live := "new"; Archive 1 := "old" ]} in
  let d' := run_steps (take 11 (rotate_steps id)) d in
  (∀ n c, 0 < n < ARCHIVE_RETENTION → d !! Archive n = Some c →
     ∃ m, d' !! Archive m = Some c ∧ (n = m ∨ m = n + 1))
  ∧ (d' !! Live = Some "new" ∨ d' !! Staged 1 = Some "new" ∨ d' !! Archive 1 = Some "new").
Proof. apply (rotation_crash_keeps_batches id _ "new" 11). reflexivity. Defined.

End Audit.
