(* ===== verification/AgtSession.v ===== *)
(** * Agent sessions

    [crates/sy-agent/src/agt/]: the requests, replies and events of the agent
    daemon and their form on the wire ([protocol.rs], [wire.rs]), a session with
    its transcript and its subscribers ([session.rs]), the connection to an
    agent process ([acp.rs AcpChild]), and what [daemon.rs] does with them:
    starting, prompting, stopping and following a session. The agent, the clock
    and the JSON text are outside the source. *)

From S2P Require Import Prelude Lists Text Lines Vocab Wire.
Import Lists Wire.
Local Open Scope string_scope.
Local Open Scope nat_scope.
Local Open Scope list_scope.
Local Open Scope sy_scope.

(** ** Requests, replies and events *)

Module Protocol.

Inductive ClientReq : Type :=
  | Run (agent cwd prompt : string)
  | ListSessions
  | Prompt (session_id text : string)
  | Stop (session_id : string)
  | Tail (session_id : string) (follow replay : bool)
  | PermissionDecision (request_id : string) (allow : bool)
  | Diag
  | Shutdown.

Inductive SessionStatus : Type := Starting | Running | Working | Awaiting | Stopped (code : Z) | Error (msg : string).
#[export] Instance SessionStatus_eq_dec : EqDecision SessionStatus.
Proof. solve_decision. Defined.
Definition label (s : SessionStatus) : string :=
  match s with
  | Starting => "starting" | Running => "running" | Working => "working" | Awaiting => "awaiting"
  | Stopped _ => "stopped" | Error _ => "error"
  end.
Inductive TranscriptEntry : Type :=
  | AgentText (text : string) | UserText (text : string) | ToolCall (tool : string) (input : json)
  | ToolResult (tool : string) (output : json) (ok : bool) | Plan (items : list string) | Status (msg : string).
Inductive DaemonEvent : Type :=
  | Transcript (session_id : string) (entry : TranscriptEntry) (ts : string)
  | StatusEvent (session_id : string) (status : SessionStatus)
  | Permission (session_id request_id summary body : string)
  | Closed (session_id reason : string).
Record SessionInfo : Type := mkInfo {
  id : string; agent : string; cwd : string; status : SessionStatus; created_at : string; last_activity : string; summary : string
}.
Record DiagEntry : Type := mkDiag { dname : string; dcommand : string; found : bool; version : string }.
(** The replies that [reply_to_result] packs. *)
Inductive ClientReply : Type :=
  | RunReply (session_id : string) | ListReply (sessions : list SessionInfo) | Ack | DiagReply (agents : list DiagEntry)
  | EventReply (event : DaemonEvent) | ErrorReply (message : string) (code : Z).

(** *** JSON of the types *)

Definition obj_str (k : string) (v : json) : result string string :=
  match jget k v with Some (JStr s) => Ok s | _ => Err ("field " ++ k)%string end.
Definition obj_bool (k : string) (v : json) : result bool string :=
  match jget k v with Some (JBool b) => Ok b | _ => Err ("field " ++ k)%string end.
Definition obj_any (k : string) (v : json) : result json string :=
  match jget k v with Some x => Ok x | None => Err ("field " ++ k)%string end.
Fixpoint all_of {A} (f : json → result A string) (l : list json) : result (list A) string :=
  match l with
  | [] => Ok []
  | v :: l => match f v, all_of f l with Ok a, Ok as_ => Ok (a :: as_) | Err e, _ | _, Err e => Err e end
  end.
Definition vec_of {A} (f : json → result A string) (v : json) : result (list A) string :=
  match v with JArr l => all_of f l | _ => Err "expected an array" end.
Definition string_of (v : json) : result string string := match v with JStr s => Ok s | _ => Err "expected a string" end.

(** Tagged by [state], in snake case. *)
Definition status_to (s : SessionStatus) : json :=
  JObj (("state", JStr (label s)) ::
    match s with Stopped c => [("code", JNum c)] | Error m => [("msg", JStr m)] | _ => [] end).
Definition status_of (v : json) : result SessionStatus string :=
  try tag <- obj_str "state" v;
  if String.eqb tag "starting" then Ok Starting
  else if String.eqb tag "running" then Ok Running
  else if String.eqb tag "working" then Ok Working
  else if String.eqb tag "awaiting" then Ok Awaiting
  else if String.eqb tag "stopped" then
    match jget "code" v with
    | Some (JNum c) => if ((- 2 ^ 31 <=? c) && (c <? 2 ^ 31))%Z then Ok (Stopped c) else Err "out of range"
    | _ => Err "field code"
    end
  else if String.eqb tag "error" then try m <- obj_str "msg" v; Ok (Error m)
  else Err "unknown variant".
(** Tagged by [kind], in snake case. *)
Definition entry_to (e : TranscriptEntry) : json :=
  JObj match e with
       | AgentText t => [("kind", JStr "agent_text"); ("text", JStr t)]
       | UserText t => [("kind", JStr "user_text"); ("text", JStr t)]
       | ToolCall t i => [("kind", JStr "tool_call"); ("tool", JStr t); ("input", i)]
       | ToolResult t o ok => [("kind", JStr "tool_result"); ("tool", JStr t); ("output", o); ("ok", JBool ok)]
       | Plan items => [("kind", JStr "plan"); ("items", JArr (map JStr items))]
       | Status m => [("kind", JStr "status"); ("msg", JStr m)]
       end.
Definition entry_of (v : json) : result TranscriptEntry string :=
  try tag <- obj_str "kind" v;
  if String.eqb tag "agent_text" then try t <- obj_str "text" v; Ok (AgentText t)
  else if String.eqb tag "user_text" then try t <- obj_str "text" v; Ok (UserText t)
  else if String.eqb tag "tool_call" then try t <- obj_str "tool" v; try i <- obj_any "input" v; Ok (ToolCall t i)
  else if String.eqb tag "tool_result" then
    try t <- obj_str "tool" v; try o <- obj_any "output" v; try ok <- obj_bool "ok" v; Ok (ToolResult t o ok)
  else if String.eqb tag "plan" then try i <- obj_any "items" v; try l <- vec_of string_of i; Ok (Plan l)
  else if String.eqb tag "status" then try m <- obj_str "msg" v; Ok (Status m)
  else Err "unknown variant".
(** Tagged by [kind]. *)
Definition event_to (e : DaemonEvent) : list (string * json) :=
  match e with
  | Transcript s e ts => [("kind", JStr "Transcript"); ("session_id", JStr s); ("entry", entry_to e); ("ts", JStr ts)]
  | StatusEvent s st => [("kind", JStr "Status"); ("session_id", JStr s); ("status", status_to st)]
  | Permission s r su b =>
      [("kind", JStr "Permission"); ("session_id", JStr s); ("request_id", JStr r); ("summary", JStr su); ("body", JStr b)]
  | Closed s r => [("kind", JStr "Closed"); ("session_id", JStr s); ("reason", JStr r)]
  end.
Definition event_of (v : json) : result DaemonEvent string :=
  try tag <- obj_str "kind" v;
  try s <- obj_str "session_id" v;
  if String.eqb tag "Transcript" then
    try e <- obj_any "entry" v; try e <- entry_of e; try ts <- obj_str "ts" v; Ok (Transcript s e ts)
  else if String.eqb tag "Status" then try st <- obj_any "status" v; try st <- status_of st; Ok (StatusEvent s st)
  else if String.eqb tag "Permission" then
    try r <- obj_str "request_id" v; try su <- obj_str "summary" v; try b <- obj_str "body" v; Ok (Permission s r su b)
  else if String.eqb tag "Closed" then try r <- obj_str "reason" v; Ok (Closed s r)
  else Err "unknown variant".
Definition info_to (i : SessionInfo) : json :=
  JObj [("id", JStr (id i)); ("agent", JStr (agent i)); ("cwd", JStr (cwd i)); ("status", status_to (status i));
        ("created_at", JStr (created_at i)); ("last_activity", JStr (last_activity i)); ("summary", JStr (summary i))].
Definition info_of (v : json) : result SessionInfo string :=
  try i <- obj_str "id" v; try a <- obj_str "agent" v; try c <- obj_str "cwd" v;
  try st <- obj_any "status" v; try st <- status_of st;
  try cr <- obj_str "created_at" v; try la <- obj_str "last_activity" v; try su <- obj_str "summary" v;
  Ok (mkInfo i a c st cr la su).
Definition diag_to (d : DiagEntry) : json :=
  JObj [("name", JStr (dname d)); ("command", JStr (dcommand d)); ("found", JBool (found d)); ("version", JStr (version d))].
Definition diag_of (v : json) : result DiagEntry string :=
  try n <- obj_str "name" v; try c <- obj_str "command" v; try f <- obj_bool "found" v; try ve <- obj_str "version" v;
  Ok (mkDiag n c f ve).

(** *** On the wire *)

Definition METHOD_RUN := "agt.run".
Definition METHOD_LIST := "agt.list".
Definition METHOD_PROMPT := "agt.prompt".
Definition METHOD_STOP := "agt.stop".
Definition METHOD_TAIL := "agt.tail".
Definition METHOD_PERMISSION_DECISION := "agt.permission_decision".
Definition METHOD_DIAG := "agt.diag".
Definition METHOD_SHUTDOWN := "agt.shutdown".
Definition METHOD_APPROVE := "agt.approve".
Definition ALL_METHODS : list string :=
  [METHOD_RUN; METHOD_LIST; METHOD_PROMPT; METHOD_STOP; METHOD_TAIL; METHOD_PERMISSION_DECISION; METHOD_DIAG; METHOD_SHUTDOWN; METHOD_APPROVE].

Definition to_request (r : ClientReq) : string * json :=
  match r with
  | Run a c p => (METHOD_RUN, JObj [("agent", JStr a); ("cwd", JStr c); ("prompt", JStr p)])
  | ListSessions => (METHOD_LIST, JObj [])
  | Prompt s t => (METHOD_PROMPT, JObj [("session_id", JStr s); ("text", JStr t)])
  | Stop s => (METHOD_STOP, JObj [("session_id", JStr s)])
  | Tail s f r => (METHOD_TAIL, JObj [("session_id", JStr s); ("follow", JBool f); ("replay", JBool r)])
  | PermissionDecision r a => (METHOD_PERMISSION_DECISION, JObj [("request_id", JStr r); ("allow", JBool a)])
  | Diag => (METHOD_DIAG, JObj [])
  | Shutdown => (METHOD_SHUTDOWN, JObj [])
  end.
Definition pluck_str (v : json) (k : string) : result string string :=
  match jget k v ≫= json_str with Some s => Ok s | None => Err ("missing string field: " ++ k)%string end.
Definition pluck_bool (v : json) (k : string) : result bool string :=
  match jget k v ≫= json_bool with Some b => Ok b | None => Err ("missing bool field: " ++ k)%string end.
Definition from_request (method : string) (params : json) : result ClientReq string :=
  if String.eqb method METHOD_RUN then
    try a <- pluck_str params "agent"; try c <- pluck_str params "cwd"; try p <- pluck_str params "prompt"; Ok (Run a c p)
  else if String.eqb method METHOD_LIST then Ok ListSessions
  else if String.eqb method METHOD_PROMPT then
    try s <- pluck_str params "session_id"; try t <- pluck_str params "text"; Ok (Prompt s t)
  else if String.eqb method METHOD_STOP then try s <- pluck_str params "session_id"; Ok (Stop s)
  else if String.eqb method METHOD_TAIL then
    try s <- pluck_str params "session_id"; try f <- pluck_bool params "follow"; try r <- pluck_bool params "replay"; Ok (Tail s f r)
  else if String.eqb method METHOD_PERMISSION_DECISION then
    try r <- pluck_str params "request_id"; try a <- pluck_bool params "allow"; Ok (PermissionDecision r a)
  else if String.eqb method METHOD_DIAG then Ok Diag
  else if String.eqb method METHOD_SHUTDOWN then Ok Shutdown
  else Err ("unknown agt method: " ++ method)%string.

Definition reply_to_result (r : ClientReply) : result json string :=
  match r with
  | RunReply s => Ok (JObj [("session_id", JStr s)])
  | ListReply l => Ok (JObj [("sessions", JArr (map info_to l))])
  | Ack => Ok (JObj [])
  | DiagReply l => Ok (JObj [("agents", JArr (map diag_to l))])
  | EventReply _ => Err "ClientReply::Event must flow as a streaming sy_ipc::Event, not Response.result"
  | ErrorReply m _ => Err m
  end.
Definition result_to_reply (method : string) (v : json) : result ClientReply string :=
  if String.eqb method METHOD_RUN then try s <- pluck_str v "session_id"; Ok (RunReply s)
  else if String.eqb method METHOD_LIST then
    try l <- vec_of info_of (default (JArr []) (jget "sessions" v)); Ok (ListReply l)
  else if String.eqb method METHOD_DIAG then
    try l <- vec_of diag_of (default (JArr []) (jget "agents" v)); Ok (DiagReply l)
  else if existsb (String.eqb method) [METHOD_PROMPT; METHOD_STOP; METHOD_PERMISSION_DECISION; METHOD_SHUTDOWN; METHOD_TAIL] then Ok Ack
  else Err ("no reply mapping for method: " ++ method)%string.

Definition EVENT_TRANSCRIPT := "transcript".
Definition EVENT_STATUS := "status".
Definition EVENT_PERMISSION := "permission".
Definition EVENT_CLOSED := "closed".
(** The kind of an event leaves its object for the envelope and is put back. *)
Definition event_to_stream_payload (e : DaemonEvent) : string * json :=
  (match e with
   | Transcript _ _ _ => EVENT_TRANSCRIPT | StatusEvent _ _ => EVENT_STATUS | Permission _ _ _ _ => EVENT_PERMISSION
   | Closed _ _ => EVENT_CLOSED
   end, JObj (List.filter (λ kv, negb (String.eqb kv.1 "kind")) (event_to e))).
Definition stream_payload_to_event (kind : string) (payload : json) : result DaemonEvent string :=
  let fields := match payload with JObj m => m | _ => [] end in
  try tag <- (if String.eqb kind EVENT_TRANSCRIPT then Ok "Transcript"
              else if String.eqb kind EVENT_STATUS then Ok "Status"
              else if String.eqb kind EVENT_PERMISSION then Ok "Permission"
              else if String.eqb kind EVENT_CLOSED then Ok "Closed"
              else Err ("unknown agt event kind: " ++ kind)%string);
  event_of (JObj (("kind", JStr tag) :: List.filter (λ kv, negb (String.eqb kv.1 "kind")) fields)).

(** *** Round trips *)

Definition status_ok (s : SessionStatus) : Prop := match s with Stopped c => (- 2 ^ 31 <= c < 2 ^ 31)%Z | _ => True end.
Definition event_ok (e : DaemonEvent) : Prop := match e with StatusEvent _ s => status_ok s | _ => True end.
(** What a method is answered with. *)
Definition reply_ok (req : ClientReq) (r : ClientReply) : Prop :=
  match req, r with
  | Run _ _ _, RunReply _ | Diag, DiagReply _ => True
  | ListSessions, ListReply l => Forall (λ i, status_ok (status i)) l
  | (Prompt _ _ | Stop _ | PermissionDecision _ _ | Shutdown), Ack => True
  | _, _ => False
  end.

Lemma status_round_trip s : status_ok s → status_of (status_to s) = Ok s.
Proof.
  destruct s; try done. intros [H1 H2]. unfold status_of, status_to. simpl.
  apply Z.leb_le in H1. apply Z.ltb_lt in H2. by rewrite H1, H2.
Qed.
Lemma all_of_map {A B} (f : json → result A string) (g : B → json) (h : B → A) l :
  Forall (λ x, f (g x) = Ok (h x)) l → all_of f (map g l) = Ok (map h l).
Proof. induction 1 as [|x l Hx _ IH]; [done|]. cbn [map all_of]. by rewrite Hx, IH. Qed.
Lemma all_of_id {A} (f : json → result A string) (g : A → json) l :
  Forall (λ x, f (g x) = Ok x) l → all_of f (map g l) = Ok l.
Proof. intros H. rewrite (all_of_map f g (λ x, x)) by done. by rewrite map_id. Qed.
Lemma entry_round_trip e : entry_of (entry_to e) = Ok e.
Proof.
  destruct e; try done. unfold entry_of, entry_to. cbn -[all_of].
  rewrite all_of_id; [done|]. by apply Forall_forall.
Qed.
Lemma info_round_trip i : status_ok (status i) → info_of (info_to i) = Ok i.
Proof. intros H. unfold info_of, info_to. cbn -[status_to status_of]. rewrite status_round_trip by done. by destruct i. Qed.

(** What a client says to the agent daemon is what it hears, and the other
    way: a request reads back from its method and parameters, the reply that
    fits it from the result, and an event from its kind and payload. *)
Theorem agent_wire_round_trip :
  (∀ req, from_request (to_request req).1 (to_request req).2 = Ok req)
  ∧ (∀ req r, reply_ok req r → ∃ v, reply_to_result r = Ok v ∧ result_to_reply (to_request req).1 v = Ok r)
  ∧ (∀ e, event_ok e → stream_payload_to_event (event_to_stream_payload e).1 (event_to_stream_payload e).2 = Ok e).
Proof.
  split_and!.
  - by intros [].
  - intros req r H. destruct req, r; try done; (eexists; split; [done|]); try done.
    + unfold result_to_reply. cbn -[all_of]. rewrite all_of_id; [done|]. eapply Forall_impl; [exact H|]. apply info_round_trip.
    + unfold result_to_reply. cbn -[all_of]. rewrite all_of_id; [done|]. apply Forall_forall. by intros [].
  - intros e H. destruct e; try done.
    + unfold stream_payload_to_event. cbn -[entry_to entry_of]. by rewrite entry_round_trip.
    + unfold stream_payload_to_event. cbn -[status_to status_of]. by rewrite status_round_trip.
Qed.
End Protocol.

(** ** A session *)

Module Session.
Import Protocol.

Inductive Completion : Type := TurnDone | StoppedDone | Errored.
Definition is_stopped (s : SessionStatus) : bool := match s with Stopped _ => true | _ => false end.
Definition is_error (s : SessionStatus) : bool := match s with Error _ => true | _ => false end.
Definition completion_kind (prev next : SessionStatus) : option Completion :=
  match prev, next with
  | Working, Running => Some TurnDone
  | p, Stopped _ => if is_stopped p then None else Some StoppedDone
  | p, Error _ => if is_error p then None else Some Errored
  | _, _ => None
  end.

(** The channel of a subscriber: what was put in, how much of it was taken out,
    and which ends are there. *)
Definition CAPACITY : nat := 256.
Record Chan := mkChan { sent : list DaemonEvent; taken : nat; rx_alive : bool; tx_alive : bool }.
Definition try_send (e : DaemonEvent) (c : Chan) : bool * Chan :=
  if rx_alive c && (length (sent c) - taken c <? CAPACITY)
  then (true, mkChan (sent c ++ [e]) (taken c) (rx_alive c) (tx_alive c))
  else (false, c).

Record Session := mkSession {
  info : SessionInfo; acp_session_id : string; transcript : list (string * TranscriptEntry); subscribers : list nat;
  chans : list Chan; jsonl : option (list (string * TranscriptEntry)); meta : option SessionInfo
}.
Definition set_info (i : SessionInfo) (s : Session) : Session :=
  mkSession i (acp_session_id s) (transcript s) (subscribers s) (chans s) (jsonl s) (meta s).
Definition set_chans (l : list Chan) (subs : list nat) (s : Session) : Session :=
  mkSession (info s) (acp_session_id s) (transcript s) subs l (jsonl s) (meta s).
Definition with_status (st : SessionStatus) (now : string) (i : SessionInfo) : SessionInfo :=
  mkInfo (id i) (agent i) (cwd i) st (created_at i) now (summary i).

(** [Session::new], with whether the transcript file opens. *)
Definition new (sid ag dir summ acp now : string) (opened : bool) : Session :=
  mkSession (mkInfo sid ag dir Starting now now summ) acp [] [] [] (if opened then Some [] else None) None.
(** A subscriber that cannot take an event at once loses its sender. *)
Fixpoint send_all (e : DaemonEvent) (subs : list nat) (l : list Chan) : list nat * list Chan :=
  match subs with
  | [] => ([], l)
  | k :: subs =>
      match l !! k with
      | None => send_all e subs l
      | Some c =>
          let '(ok, c') := try_send e c in
          if ok then let '(keep, l') := send_all e subs (<[k := c']> l) in (k :: keep, l')
          else send_all e subs (<[k := mkChan (sent c) (taken c) (rx_alive c) false]> l)
      end
  end.
Definition broadcast (e : DaemonEvent) (s : Session) : Session :=
  let '(subs, l) := send_all e (subscribers s) (chans s) in set_chans l subs s.
Definition persist_meta (s : Session) : Session :=
  mkSession (info s) (acp_session_id s) (transcript s) (subscribers s) (chans s) (jsonl s) (Some (info s)).
(** The session with an entry in its transcript and its file. *)
Definition push_entry (ts : string) (e : TranscriptEntry) (s : Session) : Session :=
  mkSession (with_status (status (info s)) ts (info s)) (acp_session_id s) (transcript s ++ [(ts, e)]) (subscribers s) (chans s)
    ((λ l, l ++ [(ts, e)]) <$> jsonl s) (meta s).
Definition append (ts : string) (e : TranscriptEntry) (s : Session) : Session :=
  persist_meta (broadcast (Transcript (id (info s)) e ts) (push_entry ts e s)).
Definition set_status (now : string) (st : SessionStatus) (s : Session) : Session * option Completion :=
  (persist_meta (broadcast (StatusEvent (id (info s)) st) (set_info (with_status st now (info s)) s)),
   completion_kind (status (info s)) st).
Definition subscribe (s : Session) : nat * Session :=
  (length (chans s), set_chans (chans s ++ [mkChan [] 0 true true]) (subscribers s ++ [length (chans s)]) s).
Definition replay (s : Session) : list DaemonEvent :=
  map (λ te, Transcript (id (info s)) te.2 te.1) (transcript s).

(** [entry_from_update]. *)
Definition content_text (u : json) : string :=
  default "" (c ← jget "content" u; t ← jget "text" c; json_str t).
Definition chunk_entry (f : string → TranscriptEntry) (u : json) : option TranscriptEntry :=
  match content_text u with "" => None | t => Some (f t) end.
Definition or_get (k k' : string) (u : json) : option json := match jget k u with Some v => Some v | None => jget k' u end.
Definition tool_entry (u : json) : TranscriptEntry :=
  let tool := default "tool" (or_get "title" "kind" u ≫= json_str) in
  let raw_output := jget "rawOutput" u in
  let st := default "" (jget "status" u ≫= json_str) in
  if String.eqb st "completed" || bool_decide (is_Some raw_output)
  then ToolResult tool (default JNull raw_output) (negb (String.eqb st "failed"))
  else ToolCall tool (default JNull (jget "rawInput" u)).
Definition entry_from_update (u : json) : option TranscriptEntry :=
  kind ← jget "sessionUpdate" u ≫= json_str;
  if String.eqb kind "agent_message_chunk" || String.eqb kind "agent_thought_chunk" then chunk_entry AgentText u
  else if String.eqb kind "user_message_chunk" then chunk_entry UserText u
  else if String.eqb kind "tool_call" || String.eqb kind "tool_call_update" then Some (tool_entry u)
  else if String.eqb kind "plan" then
    Some (Plan (omap (λ e, jget "content" e ≫= json_str) (default [] (jget "entries" u ≫= json_arr))))
  else Some (Status ("update: " ++ kind)%string).

(** *** What a session does over time *)

Inductive Op : Type :=
  | Append (ts : string) (e : TranscriptEntry) | SetStatus (now : string) (st : SessionStatus) | Send (e : DaemonEvent)
  | Subscribe | Take (k : nat) | Hangup (k : nat).
(** A subscriber takes what waits, or hangs up. *)
Definition run_op (o : Op) (s : Session) : Session :=
  match o with
  | Append ts e => append ts e s
  | SetStatus now st => (set_status now st s).1
  | Send e => broadcast e s
  | Subscribe => (subscribe s).2
  | Take k => set_chans (alter (λ c, mkChan (sent c) (Nat.min (S (taken c)) (length (sent c))) (rx_alive c) (tx_alive c)) k (chans s)) (subscribers s) s
  | Hangup k => set_chans (alter (λ c, mkChan (sent c) (taken c) false (tx_alive c)) k (chans s)) (subscribers s) s
  end.
Definition is_transcript (e : DaemonEvent) : bool := match e with Transcript _ _ _ => true | _ => false end.
(** Other events than those of the transcript go through [Send]. *)
Definition op_ok (o : Op) : Prop := match o with Send e => is_transcript e = false | _ => True end.
Definition entries (l : list DaemonEvent) : list DaemonEvent := List.filter is_transcript l.

(** What one broadcast does to each channel. *)
Definition after_send (e : DaemonEvent) (subs keep : list nat) (c c' : Chan) (k : nat) : Prop :=
  (k ∉ subs ∧ c' = c)
  ∨ (k ∈ subs ∧ k ∈ keep ∧ c' = mkChan (sent c ++ [e]) (taken c) (rx_alive c) (tx_alive c))
  ∨ (k ∈ subs ∧ k ∉ keep ∧ c' = mkChan (sent c) (taken c) (rx_alive c) false).
Lemma send_all_spec e subs : ∀ l keep l',
  NoDup subs → (∀ k, k ∈ subs → k < length l) → send_all e subs l = (keep, l') →
  keep `sublist_of` subs ∧ length l' = length l
  ∧ ∀ k c, l !! k = Some c → ∃ c', l' !! k = Some c' ∧ after_send e subs keep c c' k.
Proof.
  induction subs as [|j subs IH]; intros l keep l' Hnd Hin E; cbn [send_all] in E.
  { injection E as <- <-. split_and!; [done|done|]. intros k c Hk. exists c. split; [done|]. left. split; [apply not_elem_of_nil|done]. }
  apply NoDup_cons in Hnd as [Hj Hnd].
  destruct (l !! j) as [cj|] eqn:Ej; [|apply lookup_ge_None in Ej; specialize (Hin j (list_elem_of_here _ _)); lia].
  assert (∀ x k, k ∈ subs → k < length (<[j := x]> l)) as Hin'.
  { intros x k Hk. rewrite length_insert. apply Hin. by apply list_elem_of_further. }
  unfold try_send in E. destruct (rx_alive cj && _).
  - destruct (send_all e subs _) as [keep1 l1] eqn:E1. injection E as <- <-.
    apply IH in E1 as (Hk1 & Hl1 & Hc1); [|done|apply Hin']. rewrite length_insert in Hl1.
    split_and!; [by constructor|done|]. intros k c Hk. destruct (decide (k = j)) as [->|Hne].
    + replace c with cj in * by congruence. destruct (Hc1 j (mkChan (sent cj ++ [e]) (taken cj) (rx_alive cj) (tx_alive cj))) as (c' & Hc' & [[_ ->]|[[Hx _]|[Hx _]]]);
        [apply list_lookup_insert_eq; by eapply lookup_lt_Some| |done|done].
      exists (mkChan (sent cj ++ [e]) (taken cj) (rx_alive cj) (tx_alive cj)). split; [done|]. right. left. split_and!; [apply list_elem_of_here|apply list_elem_of_here|done].
    + destruct (Hc1 k c) as (c' & Hc' & H); [by rewrite list_lookup_insert_ne|]. exists c'. split; [done|].
      destruct H as [[Hx ->]|[(Hx & Hy & ->)|(Hx & Hy & ->)]]; [left|right; left|right; right]; rewrite ?elem_of_cons, ?not_elem_of_cons; tauto.
  - apply IH in E as (Hk1 & Hl1 & Hc1); [|done|apply Hin']. rewrite length_insert in Hl1.
    split_and!; [by constructor|done|]. intros k c Hk. destruct (decide (k = j)) as [->|Hne].
    + replace c with cj in * by congruence. destruct (Hc1 j (mkChan (sent cj) (taken cj) (rx_alive cj) false)) as (c' & Hc' & [[_ ->]|[[Hx _]|[Hx _]]]);
        [apply list_lookup_insert_eq; by eapply lookup_lt_Some| |done|done].
      exists (mkChan (sent cj) (taken cj) (rx_alive cj) false). split; [done|]. right. right. split_and!; [apply list_elem_of_here| |done].
      intros Hin2. apply Hj. by eapply elem_of_sublist.
    + destruct (Hc1 k c) as (c' & Hc' & H); [by rewrite list_lookup_insert_ne|]. exists c'. split; [done|].
      destruct H as [[Hx ->]|[(Hx & Hy & ->)|(Hx & Hy & ->)]]; [left|right; left|right; right]; rewrite ?elem_of_cons, ?not_elem_of_cons; tauto.
Qed.

(** The subscribers are the channels that still have their sender. *)
Record subs_ok (s : Session) : Prop := {
  subs_nodup : NoDup (subscribers s);
  subs_live k : k ∈ subscribers s ↔ ∃ c, chans s !! k = Some c ∧ tx_alive c = true
}.
(** The channel [k], opened when the transcript had [n] entries, got the entries
    that came after, in order, and without a gap; all of them while it has its
    sender. *)
Definition follows (k n : nat) (s : Session) : Prop :=
  ∃ c, chans s !! k = Some c ∧ entries (sent c) `prefix_of` drop n (replay s)
    ∧ (tx_alive c = true → entries (sent c) = drop n (replay s)).

Lemma subs_lt s k : subs_ok s → k ∈ subscribers s → k < length (chans s).
Proof. intros Hs (c & Hc & _)%(subs_live s Hs). by eapply lookup_lt_Some. Qed.
Lemma broadcast_chans e s : subs_ok s →
  ∃ keep l', broadcast e s = set_chans l' keep s ∧ keep `sublist_of` subscribers s ∧ length l' = length (chans s)
    ∧ ∀ k c, chans s !! k = Some c → ∃ c', l' !! k = Some c' ∧ after_send e (subscribers s) keep c c' k.
Proof.
  intros Hs. unfold broadcast. destruct (send_all e (subscribers s) (chans s)) as [keep l'] eqn:E. exists keep, l'. split; [done|].
  apply (send_all_spec e (subscribers s) (chans s)); [apply Hs|intros k; by apply subs_lt|done].
Qed.
Lemma subs_ok_same s s' : subscribers s' = subscribers s → chans s' = chans s → subs_ok s → subs_ok s'.
Proof. intros E1 E2 [H1 H2]. split; [by rewrite E1|]. intros k. by rewrite E1, E2. Qed.
Lemma broadcast_ok e s : subs_ok s → subs_ok (broadcast e s).
Proof.
  intros Hs. destruct (broadcast_chans e s Hs) as (keep & l' & -> & Hk & Hl & Hc). split; cbn [subscribers chans set_chans].
  - eapply sublist_NoDup; [apply Hs|exact Hk].
  - intros k. split.
    + intros Hin. assert (k ∈ subscribers s) as Hin0 by (by eapply elem_of_sublist).
      apply (subs_live s Hs) in Hin0 as Hin1. destruct Hin1 as (c & Hc0 & Ht). destruct (Hc k c Hc0) as (c' & Hc' & [[? _]|[(_ & _ & ->)|(_ & ? & _)]]); try done.
      by eexists.
    + intros (c' & Hc' & Ht). destruct (chans s !! k) as [c|] eqn:Ec; [|apply lookup_ge_None in Ec; apply lookup_lt_Some in Hc'; lia].
      destruct (Hc k c Ec) as (c2 & Hc2 & H). replace c2 with c' in * by congruence.
      destruct H as [[Hn ->]|[(_ & Hy & _)|(_ & _ & ->)]]; [|done|done]. exfalso. apply Hn. apply (subs_live s Hs). by exists c.
Qed.

(** One event goes to the channel of a follower, or ends it. *)
Lemma broadcast_follows e s k n (news : list DaemonEvent) s0 :
  subs_ok s → id (info s) = id (info s0) → subscribers s = subscribers s0 → chans s = chans s0 →
  (if is_transcript e then [e] else []) = news → replay s = replay s0 ++ news → n <= length (replay s0) →
  follows k n s0 → follows k n (broadcast e s).
Proof.
  intros Hs Hid Hsub Hch Hnews Hrep Hn (c & Hc & Hpre & Hall). destruct (broadcast_chans e s Hs) as (keep & l' & -> & _ & _ & H).
  rewrite <- Hch in Hc. destruct (H k c Hc) as (c' & Hc' & Ha). exists c'. split; [done|].
  change (replay (set_chans l' keep s)) with (replay s). rewrite Hrep, drop_app_le by lia.
  assert (entries (sent c) `prefix_of` drop n (replay s0) ++ news) as Hpre'.
  { etrans; [exact Hpre|]. by apply prefix_app_r. }
  destruct Ha as [[Hno ->]|[(Hin & _ & ->)|(_ & _ & ->)]]; cbn [sent tx_alive].
  - split; [done|]. intros Ht. exfalso. apply Hno. apply (subs_live s Hs). by exists c.
  - apply (subs_live s Hs) in Hin as (c2 & Hc2 & Ht). replace c2 with c in * by congruence.
    unfold entries in *. rewrite List.filter_app. cbn [List.filter].
    rewrite <- (Hall Ht), Hnews. split; [done|]. by intros _.
  - split; [done|]. discriminate.
Qed.

Lemma append_ok ts e s : subs_ok s → subs_ok (append ts e s).
Proof. intros Hs. unfold append. eapply subs_ok_same; [| |apply (broadcast_ok (Transcript (id (info s)) e ts) (push_entry ts e s))]; [done|done|]. by apply (subs_ok_same s). Qed.
Lemma alter_chan f k s : subs_ok s → (∀ c, tx_alive (f c) = tx_alive c) → subs_ok (set_chans (alter f k (chans s)) (subscribers s) s).
Proof.
  intros Hs Hf. split; cbn [subscribers chans set_chans]; [apply Hs|]. intros j. rewrite (subs_live s Hs j). destruct (decide (j = k)) as [->|Hne].
  - rewrite list_lookup_alter_eq. split; intros (c & Hc & Ht).
    + exists (f c). rewrite Hc. split; [done|]. by rewrite Hf.
    + apply fmap_Some in Hc as (c0 & -> & ->). exists c0. split; [done|]. by rewrite <- Hf.
  - by rewrite list_lookup_alter_ne.
Qed.
Lemma run_op_ok o s : subs_ok s → subs_ok (run_op o s).
Proof.
  intros Hs. destruct o; cbn [run_op].
  - by apply append_ok.
  - unfold set_status. cbn [fst]. eapply subs_ok_same; [| |apply (broadcast_ok (StatusEvent (id (info s)) st) (set_info (with_status st now (info s)) s))]; [done|done|].
    by apply (subs_ok_same s).
  - by apply broadcast_ok.
  - unfold subscribe. cbn [snd]. split; cbn [subscribers chans set_chans].
    + apply NoDup_app. split_and!; [apply Hs| |apply NoDup_singleton].
      intros k Hk ->%list_elem_of_singleton. apply (subs_lt s _ Hs) in Hk. lia.
    + intros k. rewrite elem_of_app, list_elem_of_singleton, (subs_live s Hs k). split.
      * intros [(c & Hc & Ht)| ->]; [exists c; split; [by apply lookup_app_l_Some|done]|].
        exists (mkChan [] 0 true true). split; [|done]. by rewrite lookup_app_r, Nat.sub_diag by lia.
      * intros (c & [Hc|[Hge Hc]]%lookup_app_Some & Ht); [left; by exists c|]. right.
        apply list_lookup_singleton_Some in Hc as [Hz _]. lia.
  - by apply alter_chan.
  - by apply alter_chan.
Qed.
Lemma new_ok sid ag dir summ acp now opened : subs_ok (new sid ag dir summ acp now opened).
Proof. split; [apply NoDup_nil_2|]. intros k. split; [by intros H%not_elem_of_nil|intros (c & Hc & _); done]. Qed.
Lemma run_op_replay o s : ∃ l, replay (run_op o s) = replay s ++ l.
Proof.
  assert (∀ e s, replay (broadcast e s) = replay s) as Hb.
  { intros e s0. unfold broadcast. by destruct (send_all _ _ _). }
  destruct o; cbn [run_op].
  - exists [Transcript (id (info s)) e ts]. unfold append. change (replay (persist_meta ?x)) with (replay x). rewrite Hb.
    unfold replay, push_entry. cbn [info transcript id with_status]. by rewrite map_app.
  - exists []. unfold set_status. cbn [fst]. change (replay (persist_meta ?x)) with (replay x). rewrite Hb. by rewrite app_nil_r.
  - exists []. by rewrite Hb, app_nil_r.
  - exists []. by rewrite app_nil_r.
  - exists []. by rewrite app_nil_r.
  - exists []. by rewrite app_nil_r.
Qed.
Lemma alter_follows f j k n s : (∀ c, tx_alive (f c) = tx_alive c ∧ sent (f c) = sent c) →
  follows k n s → follows k n (set_chans (alter f j (chans s)) (subscribers s) s).
Proof.
  intros Hf (c & Hc & Hpre & Hall). destruct (decide (k = j)) as [->|Hne].
  - exists (f c). cbn [chans set_chans]. rewrite list_lookup_alter_eq, Hc. destruct (Hf c) as [Ht Hs]. rewrite Ht, Hs. by split.
  - exists c. cbn [chans set_chans]. by rewrite list_lookup_alter_ne.
Qed.
Lemma run_op_follows o k n s : subs_ok s → op_ok o → n <= length (replay s) → follows k n s → follows k n (run_op o s).
Proof.
  intros Hs Ho Hn Hf. destruct o; cbn [run_op].
  - change (follows k n (append ts e s)) with (follows k n (broadcast (Transcript (id (info s)) e ts) (push_entry ts e s))).
    eapply (broadcast_follows _ _ k n [Transcript (id (info s)) e ts] s); try done; [by apply (subs_ok_same s)|].
    unfold replay, push_entry. cbn [info transcript id with_status]. by rewrite map_app.
  - change (follows k n (set_status now st s).1) with (follows k n (broadcast (StatusEvent (id (info s)) st) (set_info (with_status st now (info s)) s))).
    eapply (broadcast_follows _ _ k n [] s); try done; [by apply (subs_ok_same s)|]. by rewrite app_nil_r.
  - eapply (broadcast_follows _ _ k n [] s); try done; [cbn in Ho; by rewrite Ho|by rewrite app_nil_r].
  - destruct Hf as (c & Hc & Hpre & Hall). exists c. split; [|by split]. by apply lookup_app_l_Some.
  - by apply alter_follows.
  - by apply alter_follows.
Qed.
Definition run_ops (l : list Op) (s : Session) : Session := foldl (λ s o, run_op o s) s l.

(** What [agt.tail] with [replay] and [follow] delivers: the replay, and then
    the transcript events of its channel. *)
Definition tail_stream (s s' : Session) : option (list DaemonEvent) :=
  (λ c, replay s ++ entries (sent c)) <$> (chans s' !! (subscribe s).1).

(** C36. A follower that asks for a replay gets every entry of the transcript
    once, in order and without a gap, up to the point where its sender is
    dropped; while it has its sender, it has got the whole transcript. *)
Theorem tail_has_no_gap s l :
  subs_ok s → Forall op_ok l →
  let s' := run_ops l (subscribe s).2 in
  ∃ got, tail_stream s s' = Some got ∧ got `prefix_of` replay s'
    ∧ ((subscribe s).1 ∈ subscribers s' → got = replay s').
Proof.
  intros Hs Hl s'. set (k := (subscribe s).1). set (n := length (replay s)).
  assert (subs_ok s' ∧ (∃ m, replay s' = replay s ++ m) ∧ follows k n s') as (Hs' & [m Hm] & c & Hc & Hpre & Hall).
  { unfold s', run_ops.
    assert (subs_ok (subscribe s).2 ∧ (∃ m, replay (subscribe s).2 = replay s ++ m) ∧ follows k n (subscribe s).2) as H0.
    { split_and!; [by apply (run_op_ok Subscribe)|exists []; by rewrite app_nil_r|]. exists (mkChan [] 0 true true). split_and!.
      - unfold subscribe, k. cbn [snd fst chans set_chans subscribe]. by rewrite lookup_app_r, Nat.sub_diag by lia.
      - apply prefix_nil.
      - intros _. cbn. unfold n. change (replay (subscribe s).2) with (replay s). by rewrite drop_all. }
    revert H0. generalize (subscribe s).2. induction Hl as [|o l Ho _ IH]; intros t H0; [done|]. cbn [foldl]. apply IH.
    destruct H0 as (H1 & [m H2] & H3). split_and!; [by apply run_op_ok| |].
    - destruct (run_op_replay o t) as [x ->]. exists (m ++ x). by rewrite H2, app_assoc.
    - apply run_op_follows; try done. rewrite H2, length_app. unfold n. lia. }
  unfold n in Hpre, Hall. rewrite Hm, drop_app_length in Hpre, Hall.
  exists (replay s ++ entries (sent c)). unfold tail_stream. fold k. rewrite Hc, Hm. split_and!; [done|by apply prefix_app|].
  intros (c2 & Hc2 & Ht)%(subs_live s' Hs'). replace c2 with c in * by congruence. by rewrite (Hall Ht).
Qed.
Lemma tail_has_no_gap_witness :
  let s := append "t1" (UserText "hi") (new "a1" "claude" "/w" "hi" "acp" "t0" true) in
  let l := [SetStatus "t2" Working; Append "t3" (AgentText "hello"); Take 0; Append "t4" (AgentText "bye")] in
  let s' := run_ops l (subscribe s).2 in
  ∃ got, tail_stream s s' = Some got ∧ got `prefix_of` replay s'
    ∧ ((subscribe s).1 ∈ subscribers s' → got = replay s').
Proof. apply (tail_has_no_gap _ _); [apply append_ok, new_ok|repeat constructor]. Defined.
End Session.

(** ** The connection to an agent *)

Module Acp.
Import Protocol.

Inductive Inbound : Type :=
  | Notification (method : string) (params : json) | Request (id : json) (method : string) (params : json) | Closed.
(** What a line from the agent is to the reader: the answer to a request of
    ours, something for the session, or nothing. *)
Inductive Line : Type := Reply (key : Z) (payload : result json json) | In (i : Inbound) | Skip.
Definition params_of (v : json) : json := default JNull (jget "params" v).
Definition classify (v : json) : Line :=
  let err := jget "error" v in
  match jget "id" v, (m ← jget "method" v; json_str m), (bool_decide (is_Some (jget "result" v)) || bool_decide (is_Some err)) with
  | Some i, None, true =>
      Reply (default 0%Z (as_u64 i)) (match err with Some e => Err e | None => Ok (default JNull (jget "result" v)) end)
  | Some i, Some m, false => In (Request i m (params_of v))
  | None, Some m, _ => In (Notification m (params_of v))
  | _, _, _ => Skip
  end.

(** The lines that the daemon writes. *)
Definition request_line (k : Z) (method : string) (params : json) : json :=
  JObj [("jsonrpc", JStr "2.0"); ("id", JNum k); ("method", JStr method); ("params", params)].
Definition notify_line (method : string) (params : json) : json :=
  JObj [("jsonrpc", JStr "2.0"); ("method", JStr method); ("params", params)].
Definition respond_line (i : json) (r : result json string) : json :=
  match r with
  | Ok v => JObj [("jsonrpc", JStr "2.0"); ("id", i); ("result", v)]
  | Err e => JObj [("jsonrpc", JStr "2.0"); ("id", i); ("error", JObj [("code", JNum (-32000)); ("message", JStr e)])]
  end.

(** What [start_session] and [send_prompt] send. *)
Definition initialize_params : json :=
  JObj [("protocolVersion", JNum 1);
        ("clientCapabilities", JObj [("fs", JObj [("readTextFile", JBool false); ("writeTextFile", JBool false)]); ("terminal", JBool false)])].
Definition new_params (cwd : string) : json := JObj [("cwd", JStr cwd); ("mcpServers", JArr [])].
Definition prompt_params (acp_id text : string) : json :=
  JObj [("sessionId", JStr acp_id); ("prompt", JArr [JObj [("type", JStr "text"); ("text", JStr text)]])].
Definition cancel_params (acp_id : string) : json := JObj [("sessionId", JStr acp_id)].
(** The session id in the answer to [session/new]. *)
Definition session_id_of (new : json) : option string := v ← jget "sessionId" new; json_str v.
End Acp.

(** ** The turns of a session

    The tasks of one session share the child's mutex, which is fair: [waiting]
    is its queue. A prompt holds it from the writing of its line to the answer,
    as the guard in [child.lock().await.request(..).await] lives to the end of
    the statement. *)

Module Turns.
Import Protocol Acp.

Inductive Job : Type :=
  | JPrompt (text : string)
  | JRespond (id : json) (r : result json string) (permission : option (bool * string))
  | JCancel.
(** The inbound loop: at its [recv], waiting for the operator's decision, in the
    mutex's queue, or at its end. *)
Inductive Loop : Type := Idle | Deciding (id params : json) | Blocked | Ended.
Record Turn := mkTurn {
  session : Session.Session; holder : option Z; waiting : list Job; next_id : Z; written : list json;
  loop : Loop; inbox : list Inbound; registered : bool; stopping : nat; exited : bool;
  first : option string; broken : bool
}.
Definition set_session (s : Session.Session) (t : Turn) : Turn :=
  mkTurn s (holder t) (waiting t) (next_id t) (written t) (loop t) (inbox t) (registered t) (stopping t) (exited t) (first t) (broken t).
Definition set_loop (l : Loop) (t : Turn) : Turn :=
  mkTurn (session t) (holder t) (waiting t) (next_id t) (written t) l (inbox t) (registered t) (stopping t) (exited t) (first t) (broken t).
Definition set_inbox (i : list Inbound) (t : Turn) : Turn :=
  mkTurn (session t) (holder t) (waiting t) (next_id t) (written t) (loop t) i (registered t) (stopping t) (exited t) (first t) (broken t).
Definition enqueue (j : Job) (t : Turn) : Turn :=
  mkTurn (session t) (holder t) (waiting t ++ [j]) (next_id t) (written t) (loop t) (inbox t) (registered t) (stopping t) (exited t) (first t) (broken t).
Definition set_holder (h : option Z) (t : Turn) : Turn :=
  mkTurn (session t) h (waiting t) (next_id t) (written t) (loop t) (inbox t) (registered t) (stopping t) (exited t) (first t) (broken t).
Definition dequeue (js : list Job) (t : Turn) : Turn :=
  mkTurn (session t) (holder t) js (next_id t) (written t) (loop t) (inbox t) (registered t) (stopping t) (exited t) (first t) (broken t).
Definition set_next (n : Z) (t : Turn) : Turn :=
  mkTurn (session t) (holder t) (waiting t) n (written t) (loop t) (inbox t) (registered t) (stopping t) (exited t) (first t) (broken t).
(** [send_line]: lost when the writer is gone. *)
Definition write (v : json) (t : Turn) : Turn :=
  if broken t then t else
  mkTurn (session t) (holder t) (waiting t) (next_id t) (written t ++ [v]) (loop t) (inbox t) (registered t) (stopping t) (exited t) (first t) (broken t).
Definition set_stopping (n : nat) (t : Turn) : Turn :=
  mkTurn (session t) (holder t) (waiting t) (next_id t) (written t) (loop t) (inbox t) (registered t) n (exited t) (first t) (broken t).

(** [start_session], when the agent has answered [initialize] and
    [session/new]: the session is registered, and a task sends its first prompt. *)
Definition start (sid ag dir prompt acp now : string) (opened : bool) (summ : string) : Turn :=
  let s := Session.append now (UserText prompt) (Session.new sid ag dir summ acp now opened) in
  let s := (Session.set_status now Running s).1 in
  mkTurn s None [] 3
    [request_line 1 "initialize" initialize_params; request_line 2 "session/new" (new_params dir)] Idle [] true 0 false
    (Some prompt) false.
Definition begin_first (now : string) (t : Turn) : Turn :=
  match first t with
  | None => t
  | Some text =>
      mkTurn (Session.set_status now Working (session t)).1 (holder t) (waiting t ++ [JPrompt text]) (next_id t) (written t) (loop t)
        (inbox t) (registered t) (stopping t) (exited t) None (broken t)
  end.

(** The fate of a turn: [Running] again, or the error. *)
Definition finish_turn (now : string) (r : result json string) (t : Turn) : Turn :=
  let st := match r with Ok _ => Running | Err e => Error e end in
  set_session (Session.set_status now st (session t)).1 (set_holder None t).
(** [handle_permission] when its answer is written. *)
Definition after_permission (now : string) (allow : bool) (summ : string) (t : Turn) : Turn :=
  let s := (Session.set_status now Working (session t)).1 in
  set_session (Session.append now (Status ("permission " ++ (if allow then "allowed" else "denied") ++ ": " ++ summ)%string) s) t.
(** The first in the queue has the mutex. *)
Definition acquire (now : string) (t : Turn) : Turn :=
  match holder t, waiting t with
  | None, j :: js =>
      let t := dequeue js t in
      match j with
      | JPrompt text =>
          if broken t then finish_turn now (Err "acp child stdin closed") (set_next (next_id t + 1) t) else
          let t' := write (request_line (next_id t) "session/prompt" (prompt_params (Session.acp_session_id (session t)) text)) t in
          set_next (next_id t + 1) (set_holder (Some (next_id t)) t')
      | JRespond i r permission =>
          let t := set_loop Idle (write (respond_line i r) t) in
          match permission with
          | None => t
          | Some (allow, summ) => after_permission now allow summ t
          end
      | JCancel => set_stopping (S (stopping t)) (write (notify_line "session/cancel" (cancel_params (Session.acp_session_id (session t)))) t)
      end
  | _, _ => t
  end.
(** What [AcpChild::request] makes of an answer; [err] is [Value::to_string]. *)
Definition answer_of (err : json → string) (r : result json json) : result json string :=
  match r with Ok v => Ok v | Err e => Err ("acp error: " ++ err e)%string end.
(** A line from the agent, at the reader. *)
Definition on_line (now : string) (err : json → string) (v : json) (t : Turn) : Turn :=
  if exited t then t else
  match classify v with
  | Reply k r => match holder t with Some k' => if (k =? k')%Z then finish_turn now (answer_of err r) t else t | None => t end
  | In i => set_inbox (inbox t ++ [i]) t
  | Skip => t
  end.
Definition on_exit (t : Turn) : Turn :=
  if exited t then t else
  mkTurn (session t) (holder t) (waiting t) (next_id t) (written t) (loop t) (inbox t ++ [Closed]) (registered t) (stopping t) true (first t) (broken t).

(** The writer task ends: a write to the agent failed. *)
Definition on_broken (t : Turn) : Turn :=
  mkTurn (session t) (holder t) (waiting t) (next_id t) (written t) (loop t) (inbox t) (registered t) (stopping t) (exited t) (first t) true.

Definition tool_title (params : json) : string :=
  default "permission request" (c ← jget "toolCall" params; v ← jget "title" c; json_str v).
(** [handle_permission] up to the decision. *)
Definition begin_permission (now req_uuid body : string) (params : json) (t : Turn) : Turn :=
  let s := (Session.set_status now Awaiting (session t)).1 in
  set_session (Session.broadcast (Permission (id (Session.info s)) req_uuid (tool_title params) body) s) t.
(** The agent is gone. *)
Definition close_session (now : string) (t : Turn) : Turn :=
  let s := (Session.set_status now (Stopped 0) (session t)).1 in
  set_loop Ended (set_session (Session.broadcast (Protocol.Closed (id (Session.info s)) "agent process exited") s) t).
(** One round of [run_inbound_loop]. *)
Definition serve (now : string) (req_uuid body : string) (t : Turn) : Turn :=
  match loop t, inbox t with
  | Idle, i :: rest =>
      let t := set_inbox rest t in
      match i with
      | Notification m params =>
          if String.eqb m "session/update" then
            match Session.entry_from_update (default JNull (jget "update" params)) with
            | Some e => set_session (Session.append now e (session t)) t
            | None => t
            end
          else t
      | Request i m params =>
          if String.eqb m "session/request_permission" then
            set_loop (Deciding i params) (begin_permission now req_uuid body params t)
          else set_loop Blocked (enqueue (JRespond i (Err "method not implemented") None) t)
      | Closed => close_session now t
      end
  | _, _ => t
  end.
Definition permission_outcome (option_id : string) : json :=
  JObj [("outcome", JObj [("outcome", JStr "selected"); ("optionId", JStr option_id)])].
(** The decision on the permission is taken. *)
Definition decide (allow : bool) (option_id : string) (t : Turn) : Turn :=
  match loop t with
  | Deciding i params =>
      set_loop Blocked (enqueue (JRespond i (Ok (permission_outcome option_id)) (Some (allow, tool_title params))) t)
  | _ => t
  end.
(** [send_prompt] and [stop_session], for a session that is registered. *)
Definition send_prompt (now text : string) (t : Turn) : Turn :=
  if registered t then
    enqueue (JPrompt text) (set_session (Session.set_status now Working (Session.append now (UserText text) (session t))).1 t)
  else t.
Definition stop (t : Turn) : Turn := if registered t then enqueue JCancel t else t.
(** [stop_session] after its cancel was written and its sleep is over. *)
Definition stopped (now : string) (t : Turn) : Turn :=
  match stopping t with
  | O => t
  | S n =>
      let s := (Session.set_status now (Stopped 0) (session t)).1 in
      let s := Session.broadcast (Protocol.Closed (id (Session.info s)) "stopped") s in
      mkTurn s (holder t) (waiting t) (next_id t) (written t) (loop t) (inbox t) false n (exited t) (first t) (broken t)
  end.

Inductive Step : Type :=
  | SAcquire (now : string) | SLine (now : string) (err : json → string) (v : json) | SExit | SBroken | SBegin (now : string)
  | SServe (now req_uuid body : string) | SDecide (allow : bool) (option_id : string)
  | SPrompt (now text : string) | SStop | SStopped (now : string).
Definition step (o : Step) (t : Turn) : Turn :=
  match o with
  | SAcquire now => acquire now t
  | SLine now err v => on_line now err v t
  | SExit => on_exit t
  | SBroken => on_broken t
  | SBegin now => begin_first now t
  | SServe now u b => serve now u b t
  | SDecide a o => decide a o t
  | SPrompt now text => send_prompt now text t
  | SStop => stop t
  | SStopped now => stopped now t
  end.
Definition run (l : list Step) (t : Turn) : Turn := foldl (λ t o, step o t) t l.
(** A step that is not the agent's answer to the request [k]. *)
Definition not_answer (k : Z) (o : Step) : bool :=
  match o with SLine _ _ v => match classify v with Reply k' _ => negb (k =? k')%Z | _ => true end | _ => true end.

Lemma step_holds k o t : holder t = Some k → not_answer k o = true → holder (step o t) = Some k ∧ written (step o t) = written t.
Proof.
  intros Hh Hn. destruct o; cbn [step not_answer] in *.
  - unfold acquire. by rewrite Hh.
  - unfold on_line. destruct (exited t); [done|]. destruct (classify v) as [k' r|i|]; try done.
    rewrite Hh. destruct (Z.eqb_spec k' k) as [->|Hne]; [|done]. by rewrite Z.eqb_refl in Hn.
  - unfold on_exit. by destruct (exited t).
  - done.
  - unfold begin_first. by destruct (first t).
  - unfold serve. destruct (loop t), (inbox t) as [|[m p|i m p|] rest]; try done.
    + destruct (String.eqb _ _); [|done]. by destruct (Session.entry_from_update _).
    + by destruct (String.eqb _ _).
  - unfold decide. by destruct (loop t).
  - unfold send_prompt. by destruct (registered t).
  - unfold stop. by destruct (registered t).
  - unfold stopped. by destruct (stopping t).
Qed.

Module Sample.
Definition begun : Turn :=
  run [SBegin "t1"; SAcquire "t1"] (start "a1" "claude" "/w" "hi" "acp" "t0" true "hi").
Definition permission_line : json :=
  JObj [("id", JNum 7); ("method", JStr "session/request_permission"); ("params", JObj [("toolCall", JObj [("title", JStr "rm")])])].
Definition asked : list Step :=
  [SLine "t2" (λ _, "") permission_line; SServe "t2" "u" ""; SDecide true "allow_once"; SAcquire "t3"; SStop; SAcquire "t4"; SStopped "t5"; SExit].
End Sample.
End Turns.
