(* ===== verification/AgtSandbox.v ===== *)
(** * The agent sandbox and the policy command line

    [crates/sy-agent/src/agt/sandbox/] and [acp.rs]: where the policy directory
    is found, the profile an agent runs under, the [systemd-run] command line
    around it, and the layers put on before it runs: the scrubbed environment,
    the Landlock ruleset and the denied system calls. [policy/grant.rs] and
    [policy/cli.rs]: grants and their window, and the checks of [sy policy].
    Systemd, Landlock and seccomp are outside the source. *)

From stdpp Require Import pretty.
From S2P Require Import Prelude Text Paths Lines Wire Policy.
Local Open Scope string_scope.
Local Open Scope list_scope.
Local Open Scope sy_scope.

Module Sandbox.
Import Wire Policy.

(** ** Paths *)

(** The path with the components [cs]. *)
Definition render (cs : list string) : string := foldl join "" cs.
Definition path_eq (p q : string) : bool := bool_decide (path_iter p = path_iter q).
Definition parent (p : string) : option string :=
  match path_iter p with
  | [] | ["/"] => None
  | cs => Some (render (removelast cs))
  end.
(** [d] and then its parents: what the loop of [resolve_policy_root] visits. *)
Definition ancestors (d : string) : list string :=
  let cs := path_iter d in
  map (λ n, render (take n cs)) (reverse (seq (if is_absolute d then 1 else 0) (length cs + if is_absolute d then 0 else 1))).

(** ** The policy directory *)

Record Env : Type := mkEnv { sy_root : option string; xdg_config_home : option string; home_dir : option string }.
Section resolve.
Context (is_dir : string → bool).
Definition usable (candidate : string) : bool := is_dir (join candidate "profiles").
Definition config_home (env : Env) : option string :=
  match xdg_config_home env with
  | Some v => if String.eqb v "" then (λ h, join h ".config") <$> home_dir env else Some v
  | None => (λ h, join h ".config") <$> home_dir env
  end.
(** The candidates, in the order they are tried. *)
Definition candidates (env : Env) (cwd : string) : list string :=
  match sy_root env with Some r => [join r "configs/policy"] | None => [] end
  ++ match config_home env with Some c => [join c "policy"] | None => [] end
  ++ map (λ d, join (join d "configs") "policy") (ancestors cwd)
  ++ ["/usr/share/sy/configs/policy"].
Definition resolve_policy_root (env : Env) (cwd : string) : result string string :=
  match List.find usable (candidates env cwd) with
  | Some c => Ok c
  | None => Err ("no policy/profiles directory found under $XDG_CONFIG_HOME or any ancestor of " ++ cwd)%string
  end.
End resolve.

(** [resolve_profile]. *)
Definition resolve_profile (toml_read : string → result Profile string) (files : gmap string string) (policy_root profile_name : string)
    (tool : option string) (repo : string) (home : option string) : result Profile string :=
  try r <- load toml_read files policy_root profile_name tool repo home; Ok (effective r (default "" tool)).

(** [extend_read_paths_with_bin_dir]; [canonical] is what [canonicalize] says. *)
Definition set_read_paths (l : list string) (p : Profile) : Profile :=
  mkProfile l (write_paths p) (exec_allowlist p) (net_outbound_allowlist p) (env_passthrough_allowlist p)
    (max_runtime_seconds p) (max_stdout_bytes p) (max_memory_mb p) (max_pids p) (deny_network p) (require_consent p).
Definition add_path (d : string) (l : list string) : list string := if existsb (path_eq d) l then l else l ++ [d].
Definition extend_read_paths_with_bin_dir (bin : string) (canonical : option string) (p : Profile) : Profile :=
  let l := match parent bin with
           | Some d => if String.eqb d "" then read_paths p else add_path d (read_paths p)
           | None => read_paths p
           end in
  set_read_paths (match canonical with Some c => match parent c with Some d => add_path d l | None => l end | None => l end) p.

(** ** The command line *)

Definition cap (name unit : string) (n : Z) : list string :=
  if (0 <? n)%Z then ["-p"; (name ++ "=" ++ pretty n ++ unit)%string] else [].
Definition build_systemd_run_argv (p : Profile) (profile_name bin : string) (argv : list string) (cwd self_exe : string) : list string :=
  ["--user"; "--scope"; "--collect"; "--quiet"]
  ++ cap "MemoryMax" "M" (max_memory_mb p) ++ cap "TasksMax" "" (max_pids p) ++ cap "RuntimeMaxSec" "" (max_runtime_seconds p)
  ++ ["--"; self_exe; "agt"; "sandbox-exec"; "--profile"; profile_name; "--bin"; bin; "--cwd"; cwd; "--"]
  ++ argv.

Record AgentSpec : Type := mkSpec {
  aname : string; acommand : string; aargs : list string; aenv : list (string * string);
  aversion_args : list string; asandbox_profile : option string
}.
Definition default_version_args : list string := ["--version"].
Definition default_sandbox_profile : option string := Some "normal".
Definition build_acp_command (spec : AgentSpec) (cwd self_exe : string) (systemd_run : option string) (profile_resolved : option Profile) :
    string * list string :=
  match asandbox_profile spec, systemd_run, profile_resolved with
  | Some name, Some systemd, Some p => (systemd, build_systemd_run_argv p name (acommand spec) (aargs spec) cwd self_exe)
  | _, _, _ => (acommand spec, aargs spec)
  end.
Definition resolve_spawn_command toml_read (files : gmap string string) is_dir (env : Env) (spec : AgentSpec) (cwd self_exe : string)
    (systemd_run : option string) : result (string * list string) string :=
  match asandbox_profile spec, systemd_run with
  | Some name, Some _ =>
      try root <- resolve_policy_root is_dir env cwd;
      try p <- resolve_profile toml_read files root name (file_stem (acommand spec)) cwd (home_dir env);
      Ok (build_acp_command spec cwd self_exe systemd_run (Some p))
  | _, _ => Ok (build_acp_command spec cwd self_exe systemd_run None)
  end.
(** [registry::find] over the loaded registry, and what [load] makes of an empty
    one. *)
Definition REGISTRY : Z := 3.
Definition check_registry (path : string) (agents : list AgentSpec) : result (list AgentSpec) (Z * string) :=
  match agents with
  | [] => Err (REGISTRY, ("agent registry empty (edit " ++ path ++ " to add an [[agent]] block)")%string)
  | _ => Ok agents
  end.
Definition find (name path : string) (agents : list AgentSpec) : result AgentSpec (Z * string) :=
  try l <- check_registry path agents;
  match List.find (λ a, String.eqb (aname a) name) l with
  | Some a => Ok a
  | None => Err (REGISTRY, ("agent not found in registry: " ++ name)%string)
  end.

(** ** The layers *)

(** [env_scrub::scrub]. *)
Definition scrub (env : gmap string string) (allowlist : list string) : gmap string string :=
  foldl (λ out k, match env !! k with Some v => <[k := v]> out | None => out end) ∅ allowlist.

Inductive Rule : Type := ReadRule (path : string) | WriteRule (path : string) | ConnectRule (port : Z).
Record Ruleset : Type := mkRuleset { handles_net : bool; rules : list Rule }.
Section landlock.
(** Which paths open, and whether the kernel knows TCP rules. *)
Context (opens : string → bool) (abi_net : bool).
Definition path_rule (what : string) (mk : string → Rule) (p : string) : result Rule string :=
  if opens p then Ok (mk p) else Err ("open " ++ what ++ " " ++ p ++ " for landlock")%string.
Fixpoint add_rules (f : string → result Rule string) (l : list string) : result (list Rule) string :=
  match l with
  | [] => Ok []
  | p :: l => try r <- f p; try rs <- add_rules f l; Ok (r :: rs)
  end.
Definition build (p : Profile) : result Ruleset string :=
  let needs_net := match net_outbound_allowlist p with [] => false | _ => true end in
  if needs_net && negb abi_net then Err "kernel rejects AccessNet::ConnectTcp (need Linux 6.7+)"
  else
    try r <- add_rules (path_rule "read_path" ReadRule) (read_paths p);
    try w <- add_rules (path_rule "write_path" WriteRule) (write_paths p);
    Ok (mkRuleset needs_net (r ++ w ++ map (λ e, ConnectRule (na_port e)) (net_outbound_allowlist p))).
End landlock.

Definition DENY_SYSCALLS : list string :=
  ["add_key"; "bpf"; "clock_settime"; "delete_module"; "finit_module"; "init_module"; "kexec_file_load"; "kexec_load"; "keyctl";
   "mount"; "pivot_root"; "process_vm_readv"; "process_vm_writev"; "ptrace"; "reboot"; "request_key"; "setns"; "settimeofday";
   "swapoff"; "swapon"; "umount2"; "unshare"].
Inductive Layer : Type := NoNewPrivs | Landlock (r : Ruleset) | Seccomp (denied : list string).
Definition apply_layers opens abi_net (p : Profile) : result (list Layer) string :=
  try r <- build opens abi_net p; Ok [NoNewPrivs; Landlock r; Seccomp DENY_SYSCALLS].
(** What is executed, and under what. *)
Record Exec : Type := mkExec { xbin : string; xargv : list string; xenv : gmap string string; xlayers : list Layer }.
Definition fork_and_exec opens abi_net (env : gmap string string) (p : Profile) (bin : string) (argv : list string) : result Exec string :=
  let scrubbed := scrub env (env_passthrough_allowlist p) in
  try layers <- apply_layers opens abi_net p; Ok (mkExec bin argv scrubbed layers).
(** [sandbox_exec] up to the exec: the profile of the policy directory, with the
    binary's directories readable. *)
Definition sandbox_exec toml_read (files : gmap string string) is_dir opens abi_net (env : Env) (vars : gmap string string)
    (profile_name bin : string) (canonical : option string) (cwd : string) (argv : list string) : result Exec string :=
  try root <- resolve_policy_root is_dir env cwd;
  try p <- resolve_profile toml_read files root profile_name (file_stem bin) cwd (home_dir env);
  fork_and_exec opens abi_net vars (extend_read_paths_with_bin_dir bin canonical p) bin argv.

(** What Landlock does with a ruleset: an access it handles needs a rule, one it
    does not handle is free. *)
Definition may_connect (r : Ruleset) (port : Z) : Prop := handles_net r = true → ConnectRule port ∈ rules r.
Definition landlock_of (x : Exec) : option Ruleset := match xlayers x with [_; Landlock r; _] => Some r | _ => None end.

(** *** The sandbox keeps to its profile *)
Lemma scrub_lookup env l k : scrub env l !! k = (if bool_decide (k ∈ l) then env !! k else None).
Proof.
  unfold scrub. assert (∀ l (acc : gmap string string), (∀ x v, acc !! x = Some v → env !! x = Some v) →
    foldl (λ out k, match env !! k with Some v => <[k := v]> out | None => out end) acc l !! k
    = (if bool_decide (k ∈ l) then env !! k else acc !! k)) as H; [|rewrite H by done; by rewrite lookup_empty].
  clear l. induction l as [|j l IH]; intros acc Hacc; [done|]. cbn [foldl]. rewrite IH.
  2:{ intros x v. destruct (env !! j) as [w|] eqn:Ej; [|apply Hacc]. rewrite lookup_insert_Some. intros [[-> ->]|[_ H]]; [done|by apply Hacc]. }
  destruct (bool_decide_reflect (k ∈ l)) as [Hin|Hin].
  - by rewrite bool_decide_eq_true_2 by (by apply list_elem_of_further).
  - destruct (decide (k = j)) as [->|Hne].
    + rewrite bool_decide_eq_true_2 by apply list_elem_of_here. destruct (env !! j) as [w|] eqn:Ej; [by rewrite lookup_insert_eq|].
      destruct (acc !! j) as [w|] eqn:Ea; [|done]. apply Hacc in Ea. congruence.
    + rewrite bool_decide_eq_false_2 by (rewrite elem_of_cons; tauto). destruct (env !! j); [by rewrite lookup_insert_ne|done].
Qed.
Lemma add_rules_ok f mk l rs : (∀ p r, f p = Ok r → r = mk p) → add_rules f l = Ok rs → rs = map mk l.
Proof.
  intros Hf. revert rs. induction l as [|p l IH]; intros rs E; cbn [add_rules] in E; [by injection E as <-|].
  destruct (f p) as [r|] eqn:Er; [|done]. cbn [rbind] in E. destruct (add_rules f l) as [rs'|] eqn:Ers; [|done].
  cbn [rbind] in E. injection E as <-. cbn. by rewrite <- (Hf _ _ Er), <- (IH rs').
Qed.
Lemma build_ok opens abi_net p r : build opens abi_net p = Ok r →
  r = mkRuleset (match net_outbound_allowlist p with [] => false | _ => true end)
        (map ReadRule (read_paths p) ++ map WriteRule (write_paths p) ++ map (λ e, ConnectRule (na_port e)) (net_outbound_allowlist p)).
Proof.
  unfold build. set (net := match net_outbound_allowlist p with [] => false | _ => true end). destruct (net && negb abi_net); [done|].
  destruct (add_rules _ (read_paths p)) as [rs|] eqn:Er; [|done]. cbn [rbind].
  destruct (add_rules _ (write_paths p)) as [ws|] eqn:Ew; [|done]. cbn [rbind]. intros E. injection E as <-.
  apply (add_rules_ok _ ReadRule) in Er; [|intros q x Hq; unfold path_rule in Hq; destruct (opens q); congruence].
  apply (add_rules_ok _ WriteRule) in Ew; [|intros q x Hq; unfold path_rule in Hq; destruct (opens q); congruence].
  by subst.
Qed.

Lemma in_map_of {A B} (f : A → B) y l : y ∈ map f l ↔ ∃ x, y = f x ∧ x ∈ l.
Proof. apply list_elem_of_fmap. Qed.

Definition strict_profile : Profile := mkProfile ["/repo"] [] [] [] ["PATH"] 60 0 512 64 true EveryCall.
End Sandbox.

(** ** Grants and [sy policy] *)

Module PolicyCli.
Import Text Paths Lines.
Import Wire.
Import Policy (Profile, ExecAllow, ea_bin, exec_allowlist, deny_network, max_runtime_seconds, max_memory_mb, require_consent, ConsentMode, Never).

(** Milliseconds since the epoch, of an instant that may lie before it, and of a
    duration. *)
Definition U64_MAX : Z := U64_MOD - 1.
Definition saturating_ms (ns : Z) : Z := Z.min (ns / 1000000) U64_MAX.
Definition epoch_ms (t : Z) : Z := if (t <? 0)%Z then 0%Z else saturating_ms t.
Definition saturating_add (a b : Z) : Z := Z.min (a + b) U64_MAX.
Record Grant : Type := mkGrant {
  tool : string; scope : string; ttl_ms : Z; granted_at_ms : Z; granted_by_pid : Z; granted_by_tty : option string
}.
Definition new_at (tool scope : string) (ttl : Duration) (pid : Z) (tty : option string) (granted_at : Z) : Grant :=
  mkGrant tool scope (saturating_ms ttl) (epoch_ms granted_at) pid tty.
Definition is_active (g : Grant) (now : Z) : bool :=
  let now_ms := epoch_ms now in
  ((granted_at_ms g <=? now_ms) && (now_ms <? saturating_add (granted_at_ms g) (ttl_ms g)))%Z.

(** [parse_ttl_ms]. *)
Inductive TtlError : Type := EmptyTtl | NoUnit | BadNumber (num : text) | Overflows.
Definition unit_of (s : text) : option (text * Z) :=
  match strip_suffix (lit "ms") s with
  | Some r => Some (r, 1%Z)
  | None =>
      match strip_suffix (lit "s") s with
      | Some r => Some (r, 1000%Z)
      | None =>
          match strip_suffix (lit "m") s with
          | Some r => Some (r, 60000%Z)
          | None => match strip_suffix (lit "h") s with Some r => Some (r, 3600000%Z) | None => None end
          end
      end
  end.
Definition parse_ttl_ms (raw : text) : result Z TtlError :=
  match Text.trim raw with
  | [] => Err EmptyTtl
  | s =>
      match unit_of s with
      | None => Err NoUnit
      | Some (num, factor) =>
          match parse_usize (Text.trim num) with
          | None => Err (BadNumber num)
          | Some n => if (n * factor <? U64_MOD)%Z then Ok (n * factor)%Z else Err Overflows
          end
      end
  end.

(** [lint_profile]. *)
Inductive Severity : Type := SFail | SWarn.
#[export] Instance Severity_eq_dec : EqDecision Severity.
Proof. solve_decision. Defined.
Definition LINT_RUNTIME_MAX_SECS : Z := 600.
Definition LINT_MEMORY_MAX_MB : Z := 8192.
Definition consent_never (p : Profile) : bool := match require_consent p with Never => true | _ => false end.
Definition lint_checks (p : Profile) : list (string * Severity) :=
  (if negb (deny_network p) && existsb (λ e, String.eqb (ea_bin e) "*") (exec_allowlist p)
   then [("trusted_network_with_star_exec", SFail)] else [])
  ++ (if (LINT_RUNTIME_MAX_SECS <? max_runtime_seconds p)%Z then [("runtime_cap_high", SWarn)] else [])
  ++ (if (LINT_MEMORY_MAX_MB <? max_memory_mb p)%Z then [("memory_cap_high", SWarn)] else [])
  ++ (if consent_never p && match exec_allowlist p with [] => false | _ => true end
      then [("consent_never_with_allowlist", SWarn)] else []).
Record Summary : Type := mkSummary { fails : nat; warns : nat; passes : nat }.
Definition count (v : Severity) (l : list (string * Severity)) : nat := length (List.filter (λ c, bool_decide (c.2 = v)) l).
Definition summary (l : list (string * Severity)) : Summary :=
  mkSummary (count SFail l) (count SWarn l) (match l with [] => 1 | _ => 0 end).
Definition EXIT_USAGE : Z := 2.
Definition EXIT_LINT_FAIL : Z := 3.
Definition lint_exit (p : Profile) : Z := if (0 <? fails (summary (lint_checks p)))%nat then EXIT_LINT_FAIL else 0%Z.

(** [approve_preflight] and the confirmation of [trust]. *)
Inductive ApprovePreflight : Type := Proceed (token : text) | RefuseNoTty.
Definition proceed_with (t : option text) : ApprovePreflight :=
  match Text.trim <$> t with Some (c :: s) => Proceed (c :: s) | _ => RefuseNoTty end.
Definition approve_preflight (token : option text) (yes token_from_stdin is_tty : bool) (stdin_payload : option text) : ApprovePreflight :=
  if is_tty then proceed_with token
  else if yes && token_from_stdin then proceed_with stdin_payload
  else RefuseNoTty.
(** [approve] up to the call: what is piped is read only for [--token-from-stdin]
    off a terminal. *)
Definition approve_token (token : option text) (yes token_from_stdin is_tty : bool) (piped : text) : ApprovePreflight :=
  let piped := if negb is_tty && token_from_stdin then piped else [] in
  approve_preflight token yes token_from_stdin is_tty (match piped with [] => None | _ => Some piped end).
Definition TRUST_CONFIRMATION_STRING : text := lit "TRUST THIS PROFILE".
Definition trust (confirm yes interactive : bool) (piped : text) : result unit Z :=
  if negb confirm then Err EXIT_USAGE
  else if interactive then Ok ()
  else if negb yes then Err EXIT_USAGE
  else if bool_decide (Text.trim piped = TRUST_CONFIRMATION_STRING) then Ok () else Err EXIT_USAGE.
(** What [explain] prints for a decision. *)
Definition explain_decision (d : Policy.PolicyDecision) : string * string :=
  match d with
  | Policy.PAllow => ("Allow", "")
  | Policy.PDeny => ("Deny", "exec_allowlist is empty (strict default)")
  | Policy.PConsentRequired reason => ("ConsentRequired", reason)
  end.

(** *** Windows and confirmations *)
Lemma granted_window g now : (0 <= granted_at_ms g)%Z → (granted_at_ms g + ttl_ms g <= U64_MAX)%Z →
  is_active g now = true ↔ (granted_at_ms g <= epoch_ms now < granted_at_ms g + ttl_ms g)%Z.
Proof. intros H1 H2. unfold is_active, saturating_add. rewrite Z.min_l by lia. rewrite andb_true_iff, Z.leb_le, Z.ltb_lt. tauto. Qed.
(** A grant ends, whatever it was issued with, and is active only while its
    window lasts. *)
Lemma grant_window tool scope ttl pid tty at_ now :
  (0 <= at_)%Z → (0 <= ttl)%Z → (at_ + ttl < 1000000 * U64_MAX)%Z →
  let g := new_at tool scope ttl pid tty at_ in
  is_active g now = true ↔ (at_ / 1000000 <= epoch_ms now < at_ / 1000000 + ttl / 1000000)%Z.
Proof.
  intros H1 H2 H3 g. unfold g, new_at.
  assert (at_ / 1000000 + ttl / 1000000 <= U64_MAX)%Z as Hs.
  { assert (1000000 * (at_ / 1000000) <= at_)%Z by (apply Z.mul_div_le; lia).
    assert (1000000 * (ttl / 1000000) <= ttl)%Z by (apply Z.mul_div_le; lia). lia. }
  assert (0 <= at_ / 1000000)%Z by (apply Z.div_pos; lia). assert (0 <= ttl / 1000000)%Z by (apply Z.div_pos; lia).
  assert (epoch_ms at_ = at_ / 1000000)%Z as Ea.
  { unfold epoch_ms, saturating_ms. rewrite (proj2 (Z.ltb_ge at_ 0)) by lia. apply Z.min_l. lia. }
  assert (saturating_ms ttl = ttl / 1000000)%Z as Et by (unfold saturating_ms; apply Z.min_l; lia).
  rewrite Ea, Et. apply granted_window; cbn [granted_at_ms ttl_ms]; lia.
Qed.
(** Off a terminal nothing is approved or trusted without its two flags and what
    is piped. *)
Lemma approve_off_terminal token yes from_stdin piped t :
  approve_token token yes from_stdin false piped = Proceed t → yes = true ∧ from_stdin = true ∧ t = Text.trim piped ∧ t ≠ [].
Proof.
  unfold approve_token, approve_preflight. cbn [negb andb]. destruct yes, from_stdin; cbn [andb]; try done.
  unfold proceed_with. destruct piped as [|c s]; [done|]. cbn [fmap option_fmap option_map].
  destruct (Text.trim (c :: s)) as [|d u] eqn:E; [done|]. intros H. injection H as <-. done.
Qed.
Lemma trust_off_terminal confirm yes piped :
  trust confirm yes false piped = Ok () → confirm = true ∧ yes = true ∧ Text.trim piped = TRUST_CONFIRMATION_STRING.
Proof. unfold trust. destruct confirm, yes; cbn [negb]; try done. by destruct (bool_decide_reflect (Text.trim piped = TRUST_CONFIRMATION_STRING)). Qed.
(** The command fails exactly on a profile that lets every program reach the
    network. *)
Lemma lint_fails_iff p :
  lint_exit p = EXIT_LINT_FAIL ↔ deny_network p = false ∧ ∃ e, e ∈ exec_allowlist p ∧ ea_bin e = "*".
Proof.
  unfold lint_exit, summary, fails, lint_checks, count. rewrite !List.filter_app, !length_app.
  replace (length (List.filter _ (if (LINT_RUNTIME_MAX_SECS <? max_runtime_seconds p)%Z then _ else _))) with 0 by (by destruct (_ <? _)%Z).
  replace (length (List.filter _ (if (LINT_MEMORY_MAX_MB <? max_memory_mb p)%Z then _ else _))) with 0 by (by destruct (_ <? _)%Z).
  replace (length (List.filter _ (if consent_never p && _ then _ else _))) with 0 by (by destruct (_ && _)).
  assert (existsb (λ e, String.eqb (ea_bin e) "*") (exec_allowlist p) = true ↔ ∃ e, e ∈ exec_allowlist p ∧ ea_bin e = "*") as Hex.
  { rewrite existsb_exists. setoid_rewrite list_elem_of_In. by setoid_rewrite String.eqb_eq. }
  destruct (deny_network p); cbn [negb andb]; [split; [done|by intros [? _]]|].
  destruct (existsb _ _); cbn [length List.filter snd]; [by rewrite <- Hex|]. split; [done|]. by intros [_ H%Hex].
Qed.
End PolicyCli.
