(* ===== verification/AgtClient.v ===== *)
(** * The agent daemon's sessions and its clients

    [crates/sy-agent/src/agt/]: the sessions of [daemon.rs] and its answers to a
    request, the command line's side of a call and of a followed stream
    ([client.rs], [mod.rs]), the inspector with its keys and its scrolling
    ([inspector.rs]), and what the bar and the menu say of the agents that run
    ([waybar.rs], [menu.rs], [proc_scan.rs], [launcher.rs]). *)

From S2P Require Import Prelude Lists Text Paths Lines Utf8 Wire FileWalk AgtSession.
Local Open Scope string_scope.
Local Open Scope nat_scope.
Local Open Scope list_scope.
Local Open Scope sy_scope.

(** The characters of a [String]. *)
Definition chars (s : string) : list Z := Utf8.from_utf8_lossy (Text.lit s).

(** ** The sessions of the daemon *)

Module AgtDaemon.
Import Wire Protocol.

Definition Daemon : Type := gmap string Turns.Turn.
Definition no_such (sid : string) : string := ("no such session: " ++ sid)%string.
Definition with_session (sid : string) (f : Turns.Turn → Turns.Turn) (d : Daemon) : result Daemon string :=
  match d !! sid with None => Err (no_such sid) | Some t => Ok (<[sid := f t]> d) end.
Definition infos (d : Daemon) : list SessionInfo := map (λ kt, Session.info (Turns.session kt.2)) (map_to_list d).
(** The newest first. *)
Definition newest_first (a b : SessionInfo) : bool := Walk.text_leb (chars (created_at b)) (chars (created_at a)).
Definition list_reply (d : Daemon) : ClientReply := ListReply (Lists.sort_by newest_first (infos d)).

(** What outside code makes of a start: the agent's failure, or a session with a
    fresh id. *)
Inductive Answer : Type := Now (r : ClientReply) | WhenStopped (sid : string).
Definition handle_unary (now : string) (started : string → string → string → result (string * Turns.Turn) string)
    (agents : list DiagEntry) (req : ClientReq) (d : Daemon) : result (Answer * Daemon) string :=
  match req with
  | Run a c p =>
      try st <- started a c p;
      Ok (Now (RunReply st.1), <[st.1 := st.2]> d)
  | ListSessions => Ok (Now (list_reply d), d)
  | Prompt sid text => try d' <- with_session sid (Turns.send_prompt now text) d; Ok (Now Ack, d')
  | Stop sid => try d' <- with_session sid Turns.stop d; Ok (WhenStopped sid, d')
  | PermissionDecision _ _ | Shutdown => Ok (Now Ack, d)
  | Diag => Ok (Now (DiagReply agents), d)
  | Tail _ _ _ => Err "tail flows through the streaming branch"
  end.
(** The end of [stop_session]: the session leaves the map and the caller hears. *)
Definition finish_stop (now sid : string) (d : Daemon) : option (ClientReply * Daemon) :=
  t ← d !! sid;
  match Turns.stopping t with O => None | S _ => Some (Ack, delete sid d) end.
(** [stream_tail_v1]: what is sent at once, and the channel that is followed. *)
Inductive StreamEvent : Type := SEvent (e : DaemonEvent) | SError (code message : string) | SClosed.
Definition stream_tail (sid : string) (follow replay : bool) (d : Daemon) : list StreamEvent * option nat * Daemon :=
  match d !! sid with
  | None => ([SError "NotFound" (no_such sid)], None, d)
  | Some t =>
      let s := Turns.session t in
      let events := if replay then map SEvent (Session.replay s) else [] in
      if follow then (events, Some (Session.subscribe s).1, <[sid := Turns.set_session (Session.subscribe s).2 t]> d)
      else (events, None, d)
  end.
(** [notify_completion]. *)
Definition completion_note (i : SessionInfo) (k : Session.Completion) : string * string * string :=
  (match k with Session.Errored => "critical" | _ => "normal" end,
   ("agt " ++ agent i ++ match k with Session.TurnDone => " idle" | Session.StoppedDone => " stopped" | Session.Errored => " error" end)%string,
   ("[" ++ id i ++ "] " ++ match status i with Error msg => msg | _ => summary i end)%string).
End AgtDaemon.

(** ** The command line's side *)

Module AgtClient.
Import Wire Protocol AgtDaemon.

Definition DAEMON_UNAVAILABLE : Z := 1.
Definition NO_SESSION : Z := 4.
Definition CLIENT_DEADLINE_MS : Z := 30000.
Definition contains (s pat : string) : bool := Lines.contains (Text.lit s) (Text.lit pat).
Definition error_exit_code (message : string) : Z := if contains message "no such session" then NO_SESSION else DAEMON_UNAVAILABLE.
(** An error with its exit code. *)
Definition AgtError : Type := (Z * string).
Definition decode_response (method : string) (r : result json string) : result ClientReply AgtError :=
  match r with
  | Ok v => match result_to_reply method v with Ok x => Ok x | Err e => Err (DAEMON_UNAVAILABLE, e) end
  | Err msg => Err (error_exit_code msg, msg)
  end.
Definition legacy_code_for (code : string) : Z := if String.eqb code "NotFound" then 2%Z else 1%Z.
Definition daemon_error (message : string) (code : Z) : AgtError := (if (code =? 2)%Z then NO_SESSION else DAEMON_UNAVAILABLE, message).
Definition unexpected_reply : AgtError := (DAEMON_UNAVAILABLE, "unexpected daemon reply").
(** [prompt_session] and [stop_session]; [list]. *)
Definition expect_ack (r : ClientReply) : result unit AgtError :=
  match r with Ack => Ok () | ErrorReply m c => Err (daemon_error m c) | _ => Err unexpected_reply end.
Definition expect_list (r : ClientReply) : result (list SessionInfo) AgtError :=
  match r with ListReply l => Ok l | ErrorReply m c => Err (daemon_error m c) | _ => Err unexpected_reply end.

(** A frame of the stream as the client receives it. *)
Inductive Recv : Type := Frame (kind : string) (params : json) | Eof | Broken (e : string).
Definition CLOSED : string := "closed".
Definition frame_of (e : StreamEvent) : Recv :=
  match e with
  | SEvent e => Frame (event_to_stream_payload e).1 (event_to_stream_payload e).2
  | SError c m => Frame "error" (JObj [("code", JStr c); ("message", JStr m)])
  | SClosed => Frame CLOSED JNull
  end.
Definition str_or (k d : string) (v : json) : string := default d (x ← jget k v; json_str x).
(** [stream_events], with the callback of [tail]: the events printed, and how it
    ends. A stream that stops short is an end of file. *)
Fixpoint tail_stream (l : list Recv) : list DaemonEvent * result unit AgtError :=
  match l with
  | [] | Eof :: _ => ([], Ok ())
  | Broken e :: _ => ([], Err (DAEMON_UNAVAILABLE, e))
  | Frame kind params :: l =>
      if String.eqb kind CLOSED then ([], Ok ())
      else if String.eqb kind "error" then
        ([], Err (daemon_error (str_or "message" "daemon error" params) (legacy_code_for (str_or "code" "Internal" params))))
      else match stream_payload_to_event kind params with
           | Err e => ([], Err (DAEMON_UNAVAILABLE, ("decode event: " ++ e)%string))
           | Ok e => let '(es, r) := tail_stream l in (e :: es, r)
           end
  end.

Definition not_closed (e : DaemonEvent) : Prop := match e with Closed _ _ => False | _ => True end.
Lemma tail_stream_events es l : Forall (λ e, event_ok e ∧ not_closed e) es →
  tail_stream (map (λ e, frame_of (SEvent e)) es ++ l) = (es ++ (tail_stream l).1, (tail_stream l).2).
Proof.
  induction 1 as [|e es [He Hn] _ IH]; [cbn [map app]; apply surjective_pairing|]. cbn [map app].
  revert IH. generalize (map (λ e, frame_of (SEvent e)) es ++ l). intros rest IH. cbn [frame_of tail_stream].
  assert (String.eqb (event_to_stream_payload e).1 CLOSED = false) as -> by (by destruct e).
  assert (String.eqb (event_to_stream_payload e).1 "error" = false) as -> by (by destruct e).
  assert (stream_payload_to_event (event_to_stream_payload e).1 (event_to_stream_payload e).2 = Ok e) as ->; [|by rewrite IH].
  destruct e; try done; unfold stream_payload_to_event.
  - cbn -[entry_to entry_of]. by rewrite entry_round_trip.
  - cbn -[status_to status_of]. by rewrite status_round_trip.
Qed.
Lemma contains_app p a : Lines.contains (p ++ a) p = true.
Proof.
  assert (Paths.starts_with (p ++ a) p = true) as H.
  { unfold Paths.starts_with. replace (Paths.strip_prefix p (p ++ a)) with (Some a); [done|].
    induction p as [|c p IH]; [done|]. cbn. by rewrite Z.eqb_refl. }
  destruct (p ++ a); cbn [Lines.contains]; by rewrite H.
Qed.

(** A session that the daemon does not have is the same to every command:
    prompt, stop and tail fail with the exit code of a missing session, and
    change nothing. A tail of a session that it has, without follow, prints
    exactly its transcript. The event that says why a session closed has the kind
    that ends a stream, so a tail ends there without printing it. *)
Theorem missing_session_is_reported now started agents d sid :
  (d !! sid = None →
    (∀ text, ∃ msg, handle_unary now started agents (Prompt sid text) d = Err msg ∧ decode_response METHOD_PROMPT (Err msg) = Err (NO_SESSION, msg))
    ∧ (∃ msg, handle_unary now started agents (Stop sid) d = Err msg ∧ decode_response METHOD_STOP (Err msg) = Err (NO_SESSION, msg))
    ∧ ∀ follow replay, (stream_tail sid follow replay d).2 = d
        ∧ ∃ msg, tail_stream (map frame_of ((stream_tail sid follow replay d).1.1 ++ [SClosed])) = ([], Err (NO_SESSION, msg)))
  ∧ (∀ t, d !! sid = Some t →
      tail_stream (map frame_of ((stream_tail sid false true d).1.1 ++ [SClosed])) = (Session.replay (Turns.session t), Ok ()))
  ∧ (∀ i reason l, tail_stream (frame_of (SEvent (Closed i reason)) :: l) = ([], Ok ())).
Proof.
  assert (∀ s, error_exit_code (no_such s) = NO_SESSION) as Hcode.
  { intros s. unfold error_exit_code, contains, no_such. replace (Text.lit ("no such session: " ++ s)) with (Text.lit "no such session" ++ Text.lit (": " ++ s)).
    - by rewrite contains_app.
    - done. }
  split_and!; [|  |done].
  - intros E. split_and!.
    + intros text. exists (no_such sid). unfold handle_unary, with_session. rewrite E. split; [done|]. unfold decode_response. by rewrite Hcode.
    + exists (no_such sid). unfold handle_unary, with_session. rewrite E. split; [done|]. unfold decode_response. by rewrite Hcode.
    + intros follow rep. unfold stream_tail. rewrite E. split; [done|]. by exists (no_such sid).
  - intros t E. unfold stream_tail. rewrite E. cbn [fst]. rewrite map_app, map_map.
    rewrite tail_stream_events; [by rewrite app_nil_r|]. unfold Session.replay. apply Forall_forall. intros e He.
    apply list_elem_of_fmap in He as (x & -> & _). done.
Qed.
End AgtClient.

(** ** The inspector *)

Module Inspector.
Import Text Lines Protocol.

Inductive Key : Type :=
  | CtrlC | CtrlD | CtrlL | Enter | Backspace | Char (c : Z) | ScrollUp (n : nat) | ScrollDown (n : nat) | Home | End.
(** The body of a control sequence up to its final byte, and what follows. *)
Definition final_byte (c : Z) : bool := ((65 <=? c) && (c <=? 90) || (97 <=? c) && (c <=? 122) || (c =? 126))%Z.
Fixpoint split_final (l : list Z) : option (list Z * list Z) :=
  match l with
  | [] => None
  | c :: l => if final_byte c then Some ([c], l) else '(seq, rest) ← split_final l; Some (c :: seq, rest)
  end.
Section keys.
Context (body_rows : nat).
Definition page : nat := Nat.max (body_rows - 2) 1.
Definition decode_csi (seq : list Z) : option Key :=
  last_ ← last seq;
  if (last_ =? 65)%Z then Some (ScrollUp 1)
  else if (last_ =? 66)%Z then Some (ScrollDown 1)
  else if (last_ =? 72)%Z then Some Home
  else if (last_ =? 70)%Z then Some End
  else if (last_ =? 126)%Z then
    head ← hd_error (Paths.split_on 59%Z (removelast seq));
    if bool_decide (head = lit "5") then Some (ScrollUp page)
    else if bool_decide (head = lit "6") then Some (ScrollDown page)
    else if bool_decide (head = lit "1" ∨ head = lit "7") then Some Home
    else if bool_decide (head = lit "4" ∨ head = lit "8") then Some End
    else None
  else None.
Definition plain_key (b : Z) : list Key :=
  (if b =? 4 then [CtrlD] else if b =? 3 then [CtrlC] else if (b =? 13) || (b =? 10) then [Enter]
   else if (b =? 127) || (b =? 8) then [Backspace] else if b =? 12 then [CtrlL]
   else if (32 <=? b) && (b <? 127) then [Char b] else [])%Z.
(** [parse_keys]; each round reads a byte at least. *)
Fixpoint parse_loop (fuel : nat) (buf : list Z) : list Key * list Z :=
  match fuel with
  | O => ([], buf)
  | S fuel =>
      match buf with
      | [] => ([], [])
      | b :: r =>
          if (b =? 27)%Z then
            match r with
            | [] => ([], buf)
            | d :: body =>
                if (d =? 91)%Z then
                  match split_final body with
                  | None => ([], buf)
                  | Some (seq, rest) =>
                      let '(ks, over) := parse_loop fuel rest in
                      (match decode_csi seq with Some k => k :: ks | None => ks end, over)
                  end
                else parse_loop fuel r
            end
          else let '(ks, over) := parse_loop fuel r in (plain_key b ++ ks, over)
      end
  end.
Definition parse_keys (buf : list Z) : list Key * list Z := parse_loop (length buf) buf.
(** The keys of what is read in pieces, as the loop reads them: what is over of
    one piece goes before the next. *)
Fixpoint read_all (pending : list Z) (pieces : list (list Z)) : list Key * list Z :=
  match pieces with
  | [] => ([], pending)
  | p :: ps =>
      let '(ks, over) := parse_keys (pending ++ p) in
      let '(ks', over') := read_all over ps in (ks ++ ks', over')
  end.

Lemma split_final_length l seq rest : split_final l = Some (seq, rest) → length rest < length l.
Proof.
  revert seq rest. induction l as [|c l IH]; intros seq rest E; [done|]. cbn [split_final] in E. destruct (final_byte c).
  - injection E as _ <-. cbn. lia.
  - destruct (split_final l) as [[s r]|]; [|done]. cbn in E. injection E as _ <-. specialize (IH s r eq_refl). cbn. lia.
Qed.
Lemma split_final_app l seq rest x : split_final l = Some (seq, rest) → split_final (l ++ x) = Some (seq, rest ++ x).
Proof.
  revert seq rest. induction l as [|c l IH]; intros seq rest E; [done|]. cbn [split_final app] in *. destruct (final_byte c).
  - by injection E as <- <-.
  - destruct (split_final l) as [[s r]|]; [|done]. cbn in E. injection E as <- <-. by rewrite (IH s r).
Qed.
Lemma parse_loop_more n m buf : length buf <= n → length buf <= m → parse_loop n buf = parse_loop m buf.
Proof.
  revert m buf. induction n as [|n IH]; intros m buf Hn Hm.
  - destruct buf; [|cbn in Hn; lia]. by destruct m.
  - destruct buf as [|b r]; [by destruct m|]. destruct m as [|m]; [cbn in Hm; lia|]. cbn [parse_loop]. cbn [length] in *.
    destruct (b =? 27)%Z; [|by rewrite (IH m r) by lia]. destruct r as [|d body]; [done|]. cbn [length] in *.
    destruct (d =? 91)%Z; [|apply IH; cbn; lia]. destruct (split_final body) as [[seq rest]|] eqn:E; [|done].
    apply split_final_length in E. by rewrite (IH m rest) by lia.
Qed.
Lemma parse_keys_app a b :
  parse_keys (a ++ b) = let '(ks, over) := parse_keys a in let '(ks', over') := parse_keys (over ++ b) in (ks ++ ks', over').
Proof.
  unfold parse_keys at 1 2. generalize (le_n (length a)). generalize (length a) at 2 3. intros n Hn. revert a Hn.
  induction n as [|n IH]; intros a Hn.
  { destruct a; [|cbn in Hn; lia]. cbn [parse_loop app]. fold (parse_keys b). by destruct (parse_keys b). }
  destruct a as [|c r]. { cbn [parse_loop app]. fold (parse_keys b). by destruct (parse_keys b). }
  assert (∀ r' : list Z, length r' <= n → parse_loop (length (r' ++ b)) (r' ++ b)
    = let '(ks, over) := parse_loop n r' in let '(ks', over') := parse_keys (over ++ b) in (ks ++ ks', over')) as IH' by (intros; by apply IH).
  cbn [length] in Hn. change ((c :: r) ++ b) with (c :: (r ++ b)). cbn [length parse_loop].
  destruct (c =? 27)%Z eqn:Ec.
  - destruct r as [|d body].
    { cbn [app]. unfold parse_keys. cbn [length parse_loop app]. rewrite Ec. match goal with |- ?x = _ => by destruct x end. }
    cbn [app]. cbn [length] in Hn. destruct (d =? 91)%Z eqn:Ed.
    + destruct (split_final body) as [[seq rest]|] eqn:E.
      * rewrite (split_final_app _ _ _ b E). apply split_final_length in E.
        rewrite (parse_loop_more _ (length (rest ++ b)) (rest ++ b)) by (rewrite ?length_app; cbn; rewrite ?length_app; lia).
        rewrite IH' by lia. destruct (parse_loop n rest) as [ks over]. destruct (parse_keys (over ++ b)). by destruct (decode_csi seq).
      * change ((c :: d :: body) ++ b) with (c :: d :: (body ++ b)). unfold parse_keys. cbn [length parse_loop app]. rewrite Ec, Ed.
        match goal with |- ?x = _ => by destruct x end.
    + change (d :: (body ++ b)) with ((d :: body) ++ b). rewrite IH' by (cbn; lia). done.
  - rewrite IH' by lia. destruct (parse_loop n r) as [ks over]. destruct (parse_keys (over ++ b)). by rewrite app_assoc.
Qed.
Lemma parse_keys_left buf : parse_keys (parse_keys buf).2 = ([], (parse_keys buf).2).
Proof.
  pose proof (parse_keys_app buf []) as H. rewrite app_nil_r in H. destruct (parse_keys buf) as [ks over]. rewrite app_nil_r in H. cbn [snd].
  destruct (parse_keys over) as [ks' over']. injection H as H1 H2. subst over'.
  destruct ks' as [|k ks']; [done|]. apply (f_equal length) in H1. rewrite length_app in H1. cbn in H1. lia.
Qed.

(** How the terminal cuts its bytes does not matter: the keys of an input
    read in any pieces, and the bytes left over, are those of the whole input. *)
Theorem keys_survive_chunking pieces : read_all [] pieces = parse_keys (concat pieces).
Proof.
  assert (∀ pending, parse_keys pending = ([], pending) → read_all pending pieces = parse_keys (pending ++ concat pieces)) as H; [|by apply H].
  induction pieces as [|p ps IH]; intros pending Hp; cbn [read_all concat]; [by rewrite app_nil_r|].
  rewrite app_assoc, (parse_keys_app (pending ++ p)). pose proof (parse_keys_left (pending ++ p)) as Hl.
  destruct (parse_keys (pending ++ p)) as [ks over]. by rewrite (IH over Hl).
Qed.
End keys.

(** *** What it shows *)

Record State := mkState { transcript : list text; input : text; istatus : text; permission : option text; scroll_offset : nat }.
Definition default_state : State := mkState [] [] [] None 0.
Definition set_scroll (n : nat) (s : State) : State := mkState (transcript s) (input s) (istatus s) (permission s) n.
Definition set_input (t : text) (s : State) : State := mkState (transcript s) t (istatus s) (permission s) (scroll_offset s).
Definition ESC : text := [27%Z].
Definition RESET : text := ESC ++ lit "[0m".
Definition render_entry (e : TranscriptEntry) : list text :=
  match e with
  | AgentText t => lines (chars t)
  | UserText t => map (λ l, ESC ++ lit "[36m> " ++ l ++ RESET) (lines (chars t))
  | ToolCall tool _ => [ESC ++ lit "[33m" ++ [183%Z] ++ lit " tool: " ++ chars tool ++ RESET]
  | ToolResult tool _ ok => [ESC ++ lit "[33m" ++ [if ok then 10003%Z else 10007%Z] ++ lit " " ++ chars tool ++ RESET]
  | Plan items => map (λ i, ESC ++ lit "[35m" ++ [8226%Z] ++ lit " " ++ chars i ++ RESET) items
  | Status msg => [ESC ++ lit "[2m[" ++ chars msg ++ lit "]" ++ RESET]
  end.
Definition MAX_LINES : nat := N.to_nat 4000.
(** [apply_event]. *)
Definition push_lines (ls : list text) (s : State) : State :=
  mkState (transcript s ++ ls) (input s) (istatus s) (permission s) (scroll_offset s).
Definition keep_view (appended : nat) (s : State) : State :=
  if (0 <? appended) && (0 <? scroll_offset s) then set_scroll (scroll_offset s + appended) s else s.
Definition trim_lines (s : State) : State :=
  let n := length (transcript s) in
  if MAX_LINES <? n then
    let d := n - MAX_LINES in
    mkState (drop d (transcript s)) (input s) (istatus s) (permission s) (scroll_offset s - d)
  else s.
Definition apply_event (e : DaemonEvent) (s : State) : State :=
  match e with
  | Transcript _ entry _ => let ls := render_entry entry in trim_lines (keep_view (length ls) (push_lines ls s))
  | StatusEvent _ st => trim_lines (mkState (transcript s) (input s) (chars (label st)) (permission s) (scroll_offset s))
  | Permission _ _ summ _ => trim_lines (mkState (transcript s) (input s) (istatus s) (Some (chars summ)) (scroll_offset s))
  | Closed _ reason =>
      let ls := [ESC ++ lit "[2m" ++ [9472%Z; 9472%Z] ++ lit " closed: " ++ chars reason ++ RESET] in
      trim_lines (keep_view 1 (push_lines ls s))
  end.
(** The part of the transcript that [draw] shows, and the offset it uses. *)
Definition body_of (rows : nat) : nat := rows - 3.
Definition window (rows : nat) (s : State) : list text :=
  let n := length (transcript s) in
  let offset := Nat.min (scroll_offset s) (n - body_of rows) in
  let end_ := n - offset in
  drop (end_ - body_of rows) (take end_ (transcript s)).

(** *** What a key does *)

(** The state behind its mutex, and whether someone holds it. A lock that is
    held by the one who asks for it is waited for without end. *)
Inductive Guard : Type := Free (s : State) | Held (s : State) | Hung.
Definition lock (m : Guard) : Guard := match m with Free s => Held s | _ => Hung end.
Definition modify (f : State → State) (m : Guard) : Guard := match m with Held s => Held (f s) | _ => m end.
Definition unlock (m : Guard) : Guard := match m with Held s => Free s | _ => m end.
Inductive Effect : Type := Detach | SendStop | SendPrompt (t : text) | ClearScreen.
Definition with_lock (f : State → State) (m : Guard) : Guard := unlock (modify f (lock m)).
Definition held (m : Guard) : option State := match m with Free s | Held s => Some s | Hung => None end.
(** An assignment evaluates its right side first, and the guard that this takes
    lives to the end of the statement. *)
Definition scroll_down (n : nat) (m : Guard) : Guard :=
  let rhs := lock m in
  match held rhs with
  | Some s => let v := scroll_offset s - n in unlock (modify (set_scroll v) (lock rhs))
  | None => Hung
  end.
Definition handle_key (rows : nat) (k : Key) (m : Guard) : Guard * list Effect :=
  match k with
  | CtrlD => (m, [Detach])
  | CtrlC => (m, [SendStop; Detach])
  | CtrlL => (m, [ClearScreen])
  | Enter =>
      (with_lock (λ s, set_scroll 0 (set_input [] s)) m,
       match m with Free s => match trim (input s) with [] => [] | t => [SendPrompt t] end | _ => [] end)
  | Backspace => (with_lock (λ s, set_input (removelast (input s)) s) m, [])
  | Char c => (with_lock (λ s, set_input (input s ++ [c]) s) m, [])
  | ScrollUp n => (with_lock (λ s, set_scroll (Nat.min (scroll_offset s + n) (length (transcript s) - body_of rows)) s) m, [])
  | ScrollDown n => (scroll_down n m, [])
  | Home => (with_lock (λ s, set_scroll (length (transcript s) - body_of rows) s) m, [])
  | End => (with_lock (set_scroll 0) m, [])
  end.

(** Scrolling down locks what it holds; every other key leaves the lock free. *)
Lemma scrolling_down_hangs rows k s : (handle_key rows k (Free s)).1 = Hung ↔ ∃ n, k = ScrollDown n.
Proof. destruct k; cbn; split; try done; try (by intros [? ?]); by eexists. Qed.
(** While the transcript is not full, a view that is scrolled up shows the same
    lines after an event. *)
Lemma view_stays rows e s :
  0 < scroll_offset s ≤ length (transcript s) - body_of rows → length (transcript (apply_event e s)) < MAX_LINES →
  window rows (apply_event e s) = window rows s.
Proof.
  intros Ho Hl.
  assert (∀ s', length (transcript (trim_lines s')) < MAX_LINES → trim_lines s' = s') as Ht.
  { intros s' H. unfold trim_lines in *. destruct (Nat.ltb_spec MAX_LINES (length (transcript s'))); [|done].
    cbn [transcript] in H. rewrite length_drop in H. lia. }
  assert (∀ ls, ls = [] ∨ 0 < length ls → window rows (keep_view (length ls) (push_lines ls s)) = window rows s) as Hw.
  { intros ls Hls. unfold keep_view. cbn [scroll_offset push_lines]. rewrite (proj2 (Nat.ltb_lt 0 (scroll_offset s))) by lia.
    destruct Hls as [->|Hls]; [cbn; unfold window, push_lines; cbn; by rewrite app_nil_r|].
    rewrite (proj2 (Nat.ltb_lt _ _) Hls). cbn [andb]. unfold window. cbn [transcript set_scroll push_lines scroll_offset]. rewrite length_app.
    rewrite !Nat.min_l by lia. replace (length (transcript s) + length ls - (scroll_offset s + length ls)) with (length (transcript s) - scroll_offset s) by lia.
    by rewrite take_app_le by lia. }
  destruct e; cbn [apply_event] in *; rewrite Ht by done; try done.
  - apply Hw. destruct (render_entry entry); [by left|]. right. cbn. lia.
  - apply (Hw [_]). right. cbn. lia.
Qed.
(** A full transcript moves the view: the offset counts from the end, and what
    is cut off is the beginning. *)
Lemma full_view_slides :
  let s := mkState (map (λ n, [Z.of_nat n]) (seq 0 MAX_LINES)) [] [] None 10 in
  let e := Transcript "a" (AgentText "x") "t" in
  window 8 (apply_event e s) ≠ window 8 s.
Proof. vm_compute. discriminate. Qed.
(** The banner of a permission stays when the decision is taken. *)
Lemma permission_banner_stays e s : permission s ≠ None → permission (apply_event e s) ≠ None.
Proof.
  intros H. assert (∀ s', permission (trim_lines s') = permission s') as Ht by (intros s'; unfold trim_lines; by destruct (_ <? _)).
  assert (∀ n s', permission (keep_view n s') = permission s') as Hk by (intros n s'; unfold keep_view; by destruct (_ && _)).
  destruct e; cbn [apply_event]; rewrite Ht, ?Hk; done.
Qed.
End Inspector.

(** ** The bar, the menu and the agents that are not ours *)

Module AgtBar.
Import Text Lines Protocol.

Definition PROVIDERS : list (text * list text) :=
  [(lit "claude", [lit "claude"; lit "claude-code"; lit "claude-code-acp"]); (lit "cursor", [lit "cursor-agent"]);
   (lit "aider", [lit "aider"]); (lit "codex", [lit "codex"]); (lit "goose", [lit "goose"])].
Record UnmanagedAgent := mkUnmanaged { provider : text; pid : Z; cmd : text; tty : option text; age_secs : option Z }.
(** A process: its command line, what its input is, and its age. *)
Record Process := mkProcess { p_pid : Z; cmdline : list Z; fd0 : option text; p_age : option Z }.
Definition base_name (argv0 : text) : text := default argv0 (last (Paths.split_on Paths.SLASH argv0)).
Definition provider_of (base : text) : option text :=
  fst <$> List.find (λ np, bool_decide (base ∈ np.2)) PROVIDERS.
(** [trim_start_matches]. *)
Fixpoint trim_dev (fuel : nat) (s : text) : text :=
  match fuel, Paths.strip_prefix (lit "/dev/") s with S fuel, Some r => trim_dev fuel r | _, _ => s end.
Definition read_tty (link : text) : option text :=
  if Paths.starts_with link (lit "/dev/pts/") || Paths.starts_with link (lit "/dev/tty") then
    Some (trim_dev (length link) link)
  else None.
(** One entry of [scan]; [from_utf8] is [str::from_utf8]. *)
Definition scan_one (from_utf8 : list Z → option text) (self_pid : Z) (p : Process) : option UnmanagedAgent :=
  if (p_pid p =? self_pid)%Z then None else
  match cmdline p with
  | [] => None
  | bytes =>
      argv0 ← (hd_error (Paths.split_on 0%Z bytes) ≫= from_utf8);
      prov ← provider_of (base_name argv0);
      Some (mkUnmanaged prov (p_pid p)
              (join_space (omap from_utf8 (List.filter (λ s, negb (bool_decide (s = []))) (Paths.split_on 0%Z bytes))))
              (fd0 p ≫= read_tty) (p_age p))
  end.
Definition agent_before (a b : UnmanagedAgent) : bool :=
  if bool_decide (provider a = provider b) then (pid a <=? pid b)%Z else Walk.text_leb (provider a) (provider b).
Definition scan from_utf8 self_pid (ps : list Process) : list UnmanagedAgent :=
  Lists.sort_by agent_before (omap (scan_one from_utf8 self_pid) ps).
Definition two_digits (n : Z) : text := if (n <? 10)%Z then lit "0" ++ Paths.show_nat n else Paths.show_nat n.
Definition format_age (secs : Z) : text :=
  (if (secs <? 60)%Z then Paths.show_nat secs ++ lit "s"
   else if (secs <? 3600)%Z then Paths.show_nat (secs / 60) ++ lit "m"
   else if (secs <? 86400)%Z then Paths.show_nat (secs / 3600) ++ lit "h" ++ two_digits (secs mod 3600 / 60) ++ lit "m"
   else Paths.show_nat (secs / 86400) ++ lit "d" ++ two_digits (secs mod 86400 / 3600) ++ lit "h")%Z.

(** [waybar.rs]. *)
Definition severity_class (sessions : list SessionInfo) (total : nat) : text :=
  if total =? 0 then lit "idle"
  else if existsb (λ s, match status s with Awaiting => true | _ => false end) sessions then lit "awaiting"
  else if existsb (λ s, match status s with Working => true | _ => false end) sessions then lit "busy"
  else lit "active".
(** The counts by provider, in order. *)
Fixpoint bump (p : text) (l : list (text * Z)) : list (text * Z) :=
  match l with
  | [] => [(p, 1%Z)]
  | (q, n) :: l' =>
      if bool_decide (p = q) then (q, n + 1)%Z :: l'
      else if Walk.text_leb p q then (p, 1%Z) :: l else (q, n) :: bump p l'
  end.
Definition counts (l : list UnmanagedAgent) : list (text * Z) := foldl (λ m a, bump (provider a) m) [] l.
Fixpoint join_with (sep : text) (ls : list text) : text :=
  match ls with [] => [] | [l] => l | l :: ls => l ++ sep ++ join_with sep ls end.
Definition build_tooltip (sessions : list SessionInfo) (unmanaged : list UnmanagedAgent) : text :=
  match sessions, unmanaged with
  | [], [] => lit "no agents running"
  | _, _ =>
      let managed := match sessions with
                     | [] => []
                     | _ => lit "managed:" :: map (λ s, lit "  " ++ chars (id s) ++ lit " " ++ chars (agent s) ++ lit " [" ++ chars (label (status s)) ++ lit "]") sessions
                     end in
      let others := match unmanaged with
                    | [] => []
                    | _ => match managed with [] => [] | _ => [[]] end
                           ++ lit "unmanaged:" :: map (λ pn, lit "  " ++ pn.1 ++ lit ": " ++ Paths.show_nat pn.2) (counts unmanaged)
                    end in
      join_with (lit "\n") (managed ++ others)
  end.

(** [menu.rs]. *)
Definition ELLIPSIS : Z := 8230.
Definition truncate (s : text) (max : nat) : text := if length s <=? max then s else take (max - 1) s ++ [ELLIPSIS].
Definition pad_right (n : nat) (s : text) : text := s ++ repeat 32%Z (n - length s).
Definition pad_left (n : nat) (s : text) : text := repeat 32%Z (n - length s) ++ s.
Definition mark (st : SessionStatus) : text :=
  match st with
  | Awaiting => lit "!" | Working => lit "*" | Running => [183%Z] | Stopped _ | Error _ => lit "x" | Starting => lit " "
  end.
Definition format_session (s : SessionInfo) : text :=
  mark (status s) ++ lit " [" ++ pad_right 6 (chars (agent s)) ++ lit "] " ++ pad_right 8 (chars (id s)) ++ lit " "
  ++ pad_right 8 (chars (label (status s))) ++ lit " " ++ truncate (chars (summary s)) 56.
Definition format_unmanaged (a : UnmanagedAgent) : text :=
  lit "  [" ++ pad_right 6 (provider a) ++ lit "] " ++ pad_left 6 (Paths.show_nat (pid a)) ++ lit "  "
  ++ pad_right 10 (default [8212%Z] (tty a)) ++ lit "  " ++ pad_right 6 (from_option format_age [8212%Z] (age_secs a)) ++ lit "  "
  ++ truncate (cmd a) 56.
Definition exclude_managed (unmanaged : list UnmanagedAgent) (_ : list SessionInfo) : list UnmanagedAgent := unmanaged.
Inductive Action : Type := Noop | NewSession | OpenInspector (sid : string) | StopSession (sid : string) | LegacyFocus (p : Z) | LegacySignal (p : Z) (sig : text).
Definition rule : text := lit "  " ++ [9472%Z; 9472%Z] ++ lit " unmanaged " ++ repeat 9472%Z 15.
Definition arm : text := lit "    " ++ [9492%Z; 9472%Z] ++ lit " ".
Definition items (sessions : list SessionInfo) (unmanaged : list UnmanagedAgent) : list (text * Action) :=
  (lit "+ new session  (Super+A)", NewSession)
  :: match sessions with
     | [] => [(lit "  (no sy-managed sessions)", Noop)]
     | _ => mjoin (map (λ s, [(format_session s, OpenInspector (id s)); (arm ++ lit "stop  " ++ chars (id s), StopSession (id s))]) sessions)
     end
  ++ match exclude_managed unmanaged sessions with
     | [] => []
     | l => (rule, Noop) :: mjoin (map (λ a, [(format_unmanaged a, LegacyFocus (pid a));
                                              (arm ++ lit "SIGTERM  pid " ++ Paths.show_nat (pid a), LegacySignal (pid a) (lit "-TERM"))]) l)
     end.
Fixpoint trim_newlines (s : text) : text := match s with [] => [] | c :: r => if (c =? 10)%Z then trim_newlines r else s end.
Definition chosen (l : list (text * Action)) (choice : text) : option Action :=
  match reverse (trim_newlines (reverse choice)) with
  | [] => None
  | c => snd <$> List.find (λ ia, bool_decide (ia.1 = c)) l
  end.

(** [launcher.rs]: the agents as they are offered, the last one first, and what
    is kept of an edited prompt. *)
Definition swap_first {A} (i : nat) (l : list A) : list A :=
  match l, l !! i with
  | x :: _, Some y => <[0 := y]> (<[i := x]> l)
  | _, _ => l
  end.
Definition offer (names : list text) (last_ : option text) : list text :=
  match last_ with
  | None => names
  | Some a => match Lists.position (λ n, bool_decide (n = a)) names with Some i => swap_first i names | None => names end
  end.
Definition clean_prompt (content : text) : text :=
  trim (join_with [10%Z] (List.filter (λ l, negb (Paths.starts_with l (lit "#"))) (lines content))).
Inductive PromptFrom : Type := FromArgs (p : text) | FromEditor | FromFuzzel.
Definition prompt_source (prompt : option text) (editor : bool) : PromptFrom :=
  match prompt, editor with Some p, _ => FromArgs p | None, true => FromEditor | None, false => FromFuzzel end.
Definition fuzzel_prompt (s : text) : option text := match trim s with [] => None | t => Some t end.
(** The prompt to send, when there is one. *)
Definition resolve_prompt (prompt : option text) (editor : bool) (typed edited : text) : option text :=
  p ← match prompt_source prompt editor with
      | FromArgs p => Some p
      | FromEditor => Some (clean_prompt edited)
      | FromFuzzel => q ← fuzzel_prompt typed; if bool_decide (trim q = lit ":e") then Some (clean_prompt edited) else Some q
      end;
  match trim p with [] => None | _ => Some p end.

(** Whatever is chosen from the menu is one of its entries, and what looks like
    one agent's row acts on that agent. *)
Lemma chosen_is_an_item l choice a : chosen l choice = Some a → ∃ t, (t, a) ∈ l.
Proof.
  unfold chosen. destruct (reverse _) as [|c cs]; [done|]. destruct (List.find _ l) as [[t b]|] eqn:E; [|done]. cbn. intros H. injection H as <-.
  apply List.find_some in E as [E _]. exists t. by apply list_elem_of_In.
Qed.
(** The last used agent comes first, and no agent is lost. *)
Lemma swap_first_Permutation {A} i (l : list A) : swap_first i l ≡ₚ l.
Proof.
  destruct l as [|x l]; [done|]. unfold swap_first. destruct ((x :: l) !! i) as [y|] eqn:E; [|done].
  destruct i as [|i]; [by injection E as ->|]. change (l !! i = Some y) in E. change (y :: <[i := x]> l ≡ₚ x :: l). apply list_elem_of_split_length in E as (l1 & l2 & -> & ->).
  rewrite insert_app_r_alt, Nat.sub_diag by lia. change (<[0 := x]> (y :: l2)) with (x :: l2). rewrite <- !Permutation_middle. by constructor.
Qed.
Lemma offer_keeps_agents names last_ : offer names last_ ≡ₚ names.
Proof. unfold offer. destruct last_ as [a|]; [|done]. destruct (Lists.position _ names); [apply swap_first_Permutation|done]. Qed.
End AgtBar.
