(* ===== verification/Units.v ===== *)
(** * Units and services

    [src/supervision/]: what [sy apply] does with the unit files of the
    repository ([apply.rs]): the difference between them and the links of the
    user's unit directory, and making it so; the units that a unit is bound to;
    and [sy service] ([service.rs], [status.rs], [logs.rs]): the unit of a name,
    the state behind [systemctl show] and the exit code of a status. *)

From Stdlib Require Import Ascii.
From stdpp Require Import pretty.
From S2P Require Import Prelude Text Paths Lines Policy AgtSandbox.
Local Open Scope string_scope.
Local Open Scope list_scope.
Local Open Scope sy_scope.

(** ** Applying the units *)

Module Apply.

(** What stands at a name of the unit directory. *)
Inductive Node : Type := Link (target : string) | File | Dir.
Notation Dirs := (gmap string Node).
(** A regular file of the source directory; [None] if it cannot be read. *)
Record Source : Type := mkSource { sname : string; sbody : option (list Z) }.
Record Opts : Type := mkOpts { source_dir : string; target_dir : string; legacy : string; dry_run : bool; yes : bool; daemon_reload : bool }.
Record UnitDiff : Type := mkDiff {
  created : list string; updated : list string; unchanged : list string; removed : list string;
  update_requires_confirm : list string; removed_stale_requires_confirm : list string; bound_to : list (string * list (list Z))
}.
Definition no_diff : UnitDiff := mkDiff [] [] [] [] [] [] [].

(** *** The units a unit is bound to *)

Definition eq_ignore_ascii_case (a b : list Z) : bool := bool_decide (map Text.to_ascii_lowercase a = map Text.to_ascii_lowercase b).
Definition is_comment (l : list Z) : bool :=
  match l with [] => true | c :: _ => ((c =? 35) || (c =? 59))%Z end.
Definition is_header (l : list Z) : bool := Paths.starts_with l (Text.lit "[") && Paths.ends_with l (Text.lit "]").
Definition scan_line (st : bool * list (list Z)) (raw : list Z) : bool * list (list Z) :=
  let line := Text.trim raw in
  if is_comment line then st
  else if is_header line then (eq_ignore_ascii_case line (Text.lit "[Unit]"), st.2)
  else if negb st.1 then st
  else match Paths.strip_prefix (Text.lit "BindsTo=") line with
       | Some rest => (st.1, st.2 ++ Text.split_whitespace rest)
       | None => st
       end.
Definition binds_to (body : list Z) : list (list Z) := (foldl scan_line (false, []) (Lines.lines body)).2.

Section apply.
(** [canonicalize], and which entries the source directory has. *)
Context (canonicalize : string → option string) (source_exists : string → bool).

Definition add_created (n : string) (d : UnitDiff) : UnitDiff :=
  mkDiff (created d ++ [n]) (updated d) (unchanged d) (removed d) (update_requires_confirm d) (removed_stale_requires_confirm d) (bound_to d).
Definition add_updated (n : string) (d : UnitDiff) : UnitDiff :=
  mkDiff (created d) (updated d ++ [n]) (unchanged d) (removed d) (update_requires_confirm d) (removed_stale_requires_confirm d) (bound_to d).
Definition add_unchanged (n : string) (d : UnitDiff) : UnitDiff :=
  mkDiff (created d) (updated d) (unchanged d ++ [n]) (removed d) (update_requires_confirm d) (removed_stale_requires_confirm d) (bound_to d).
Definition add_confirm (n : string) (d : UnitDiff) : UnitDiff :=
  mkDiff (created d) (updated d) (unchanged d) (removed d) (update_requires_confirm d ++ [n]) (removed_stale_requires_confirm d) (bound_to d).
Definition set_removed (l stale : list string) (d : UnitDiff) : UnitDiff :=
  mkDiff (created d) (updated d) (unchanged d) l (update_requires_confirm d) stale (bound_to d).
Definition add_bound (n : string) (ts : list (list Z)) (d : UnitDiff) : UnitDiff :=
  mkDiff (created d) (updated d) (unchanged d) (removed d) (update_requires_confirm d) (removed_stale_requires_confirm d)
    (match ts with [] => bound_to d | _ => bound_to d ++ [(n, ts)] end).

(** The path that a link of the unit directory stands for. *)
Definition resolve (o : Opts) (link : string) : string := if Policy.is_absolute link then link else Policy.join (target_dir o) link.
Definition points_to (o : Opts) (link canonical_source : string) : bool :=
  let r := resolve o link in Sandbox.path_eq (default r (canonicalize r)) canonical_source.
Definition classify_one (o : Opts) (t : Dirs) (n : string) (d : UnitDiff) : result UnitDiff string :=
  match canonicalize (Policy.join (source_dir o) n) with
  | None => Err ("canonicalize " ++ n)%string
  | Some cs =>
      Ok (match t !! n with
          | None => add_created n d
          | Some (Link l) => if points_to o l cs then add_unchanged n d else add_updated n d
          | Some _ => add_confirm n d
          end)
  end.
Definition collect_binds_to (s : Source) (d : UnitDiff) : result UnitDiff string :=
  match sbody s with
  | None => Err ("read " ++ sname s ++ " for BindsTo scan")%string
  | Some b => Ok (add_bound (sname s) (binds_to b) d)
  end.
Fixpoint classify_all (o : Opts) (t : Dirs) (l : list Source) (d : UnitDiff) : result UnitDiff string :=
  match l with
  | [] => Ok d
  | s :: l =>
      if String.eqb (sname s) ".gitkeep" then classify_all o t l d
      else try d <- classify_one o t (sname s) d; try d <- collect_binds_to s d; classify_all o t l d
  end.
(** A link of ours whose source is gone. *)
Definition is_stale (o : Opts) (nn : string * Node) : bool :=
  match nn.2 with
  | Link l => negb (source_exists nn.1) && match Sandbox.parent (resolve o l) with Some p => Sandbox.path_eq p (source_dir o) | None => false end
  | _ => false
  end.
Definition stale_links (o : Opts) (t : Dirs) : list string := map fst (List.filter (is_stale o) (map_to_list t)).
(** The difference; [legacy_present] says whether the old system unit exists. *)
Definition diff_units (o : Opts) (legacy_present : bool) (srcs : list Source) (t : Dirs) : result UnitDiff string :=
  try d <- classify_all o t srcs no_diff;
  Ok (set_removed (stale_links o t) (if legacy_present then [legacy o] else []) d).

(** *** Making it so *)

Definition place_symlink (o : Opts) (n : string) (t : Dirs) : result Dirs string :=
  match canonicalize (Policy.join (source_dir o) n) with
  | None => Err ("canonicalize " ++ n)%string
  | Some cs => match t !! n with Some Dir => Err ("remove " ++ n)%string | _ => Ok (<[n := Link cs]> t) end
  end.
(** As far as the first failure; the directory as it then is. *)
Fixpoint place_all (o : Opts) (l : list string) (t : Dirs) : Dirs * result unit string :=
  match l with
  | [] => (t, Ok ())
  | n :: l => match place_symlink o n t with Ok t => place_all o l t | Err e => (t, Err e) end
  end.
Definition remove_all (l : list string) (t : Dirs) : Dirs := foldl (λ t n, delete n t) t l.
(** Whether the old system unit stands after [remove_legacy]. *)
Definition remove_legacy (uid : Z) (present : bool) : bool := present && negb (uid =? 0)%Z.
Definition apply_diff (o : Opts) (uid : Z) (d : UnitDiff) (t : Dirs) (legacy_present : bool) : Dirs * bool * result unit string :=
  match place_all o (created d ++ updated d) t with
  | (t, Err e) => (t, legacy_present, Err e)
  | (t, Ok _) =>
      let t := remove_all (removed d) t in
      if yes o then
        match place_all o (update_requires_confirm d) t with
        | (t, Err e) => (t, legacy_present, Err e)
        | (t, Ok _) => (t, match removed_stale_requires_confirm d with [] => legacy_present | _ => remove_legacy uid legacy_present end, Ok ())
        end
      else (t, legacy_present, Ok ())
  end.
(** The commands that follow. *)
Inductive Command : Type := DaemonReload | EnableTarget.
(** The run: [is_dir] says whether the source directory is one, [reload_ok] how
    the first command ends, [spawn_ok] whether the second can be started (how it
    ends is not looked at). *)
Definition sync_units (o : Opts) (uid : Z) (is_dir reload_ok spawn_ok : bool) (legacy_present : bool) (srcs : list Source) (t : Dirs) :
    Dirs * bool * list Command * result UnitDiff string :=
  if negb is_dir then (t, legacy_present, [], Err "source is not a directory")
  else match diff_units o legacy_present srcs t with
  | Err e => (t, legacy_present, [], Err e)
  | Ok d =>
      if dry_run o then (t, legacy_present, [], Ok d)
      else
        match apply_diff o uid d t legacy_present with
        | (t, lp, Err e) => (t, lp, [], Err e)
        | (t, lp, Ok _) =>
            if negb (daemon_reload o) then (t, lp, [], Ok d)
            else if negb reload_ok then (t, lp, [DaemonReload], Err "systemctl --user daemon-reload exited")
            else if negb (bool_decide ("sy.target" ∈ map sname srcs)) then (t, lp, [DaemonReload], Ok d)
            else (t, lp, [DaemonReload; EnableTarget], if spawn_ok then Ok d else Err "spawn systemctl --user enable sy.target")
        end
  end.

(** *** What a run leaves behind *)

Definition names (l : list Source) : list string := List.filter (λ n, negb (String.eqb n ".gitkeep")) (map sname l).
Inductive Kind : Type := KCreated | KUpdated | KUnchanged | KConfirm.
#[local] Instance Kind_eq_dec : EqDecision Kind.
Proof. solve_decision. Defined.
Definition source_of (o : Opts) (n : string) : option string := canonicalize (Policy.join (source_dir o) n).
Definition kind (o : Opts) (t : Dirs) (n : string) : Kind :=
  match t !! n with
  | None => KCreated
  | Some (Link l) => if points_to o l (default "" (source_of o n)) then KUnchanged else KUpdated
  | Some _ => KConfirm
  end.
Definition of_kind (o : Opts) (t : Dirs) (k : Kind) (l : list string) : list string := List.filter (λ n, bool_decide (kind o t n = k)) l.
(** The node at [n] after a run that succeeds. *)
Definition after (o : Opts) (srcs : list Source) (t : Dirs) (n : string) : option Node :=
  if bool_decide (n ∈ names srcs) then
    match kind o t n with
    | KUnchanged => t !! n
    | KConfirm => if yes o then Link <$> source_of o n else t !! n
    | KCreated | KUpdated => Link <$> source_of o n
    end
  else if bool_decide (n ∈ stale_links o t) then None else t !! n.

Lemma names_cons s l : names (s :: l) = if String.eqb (sname s) ".gitkeep" then names l else sname s :: names l.
Proof. unfold names. cbn. by destruct (String.eqb _ _). Qed.
Lemma of_kind_cons o t k n l : of_kind o t k (n :: l) = (if bool_decide (kind o t n = k) then [n] else []) ++ of_kind o t k l.
Proof. unfold of_kind. cbn. by destruct (bool_decide _). Qed.
Lemma elem_of_kind o t k n l : n ∈ of_kind o t k l ↔ n ∈ l ∧ kind o t n = k.
Proof. unfold of_kind. rewrite !list_elem_of_In, filter_In, bool_decide_eq_true. done. Qed.
Lemma mem_kind o t k n l : n ∈ l → bool_decide (n ∈ of_kind o t k l) = bool_decide (kind o t n = k).
Proof. intros H. apply bool_decide_ext. rewrite elem_of_kind. tauto. Qed.
Lemma mem_app (n : string) l l' : bool_decide (n ∈ l ++ l') = bool_decide (n ∈ l) || bool_decide (n ∈ l').
Proof. rewrite (bool_decide_ext _ (n ∈ l ∨ n ∈ l')) by apply elem_of_app. apply bool_decide_or. Qed.
Lemma classify_one_spec o t n d d' : classify_one o t n d = Ok d' →
  is_Some (source_of o n) ∧ bound_to d' = bound_to d ∧ removed d' = removed d
  ∧ created d' = created d ++ of_kind o t KCreated [n] ∧ updated d' = updated d ++ of_kind o t KUpdated [n]
  ∧ unchanged d' = unchanged d ++ of_kind o t KUnchanged [n] ∧ update_requires_confirm d' = update_requires_confirm d ++ of_kind o t KConfirm [n].
Proof.
  unfold classify_one, of_kind. cbn [List.filter]. unfold kind. change (canonicalize (Policy.join (source_dir o) n)) with (source_of o n).
  destruct (source_of o n) as [cs|]; [|done]. intros E. injection E as <-. cbn [default]. split; [done|].
  destruct (t !! n) as [[l| |]|]; cbn; rewrite ?app_nil_r; try done. by destruct (points_to o l cs); cbn; rewrite ?app_nil_r.
Qed.
Lemma classify_all_spec o t l : ∀ d d', classify_all o t l d = Ok d' →
  Forall (λ n, is_Some (source_of o n)) (names l) ∧ removed d' = removed d
  ∧ created d' = created d ++ of_kind o t KCreated (names l) ∧ updated d' = updated d ++ of_kind o t KUpdated (names l)
  ∧ unchanged d' = unchanged d ++ of_kind o t KUnchanged (names l)
  ∧ update_requires_confirm d' = update_requires_confirm d ++ of_kind o t KConfirm (names l).
Proof.
  induction l as [|s l IH]; intros d d' E; cbn [classify_all] in E.
  { injection E as <-. cbn. by rewrite !app_nil_r. }
  rewrite names_cons. destruct (String.eqb (sname s) ".gitkeep"); [by apply IH|].
  destruct (classify_one o t (sname s) d) as [d1|] eqn:E1; [|done]. cbn [rbind] in E.
  destruct (collect_binds_to s d1) as [d2|] eqn:E2; [|done]. cbn [rbind] in E. apply IH in E as (H1 & H2 & H3 & H4 & H5 & H6).
  apply classify_one_spec in E1 as (G1 & _ & G2 & G3 & G4 & G5 & G6). unfold collect_binds_to in E2. destruct (sbody s) as [b|]; [|done].
  injection E2 as <-. cbn [add_bound removed created updated unchanged update_requires_confirm] in *.
  rewrite !of_kind_cons, !app_assoc. unfold of_kind in G3, G4, G5, G6. cbn [List.filter] in G3, G4, G5, G6.
  rewrite H2, H3, H4, H5, H6, G2, G3, G4, G5, G6. split_and!; try done. by constructor.
Qed.
Lemma place_all_spec o l : ∀ t t', place_all o l t = (t', Ok ()) →
  ∀ n, t' !! n = if bool_decide (n ∈ l) then Link <$> source_of o n else t !! n.
Proof.
  induction l as [|m l IH]; intros t t' E n; cbn [place_all] in E; [by injection E as <-|].
  unfold place_symlink in E. change (canonicalize (Policy.join (source_dir o) m)) with (source_of o m) in E.
  destruct (source_of o m) as [cs|] eqn:Em; [|done].
  assert (place_all o l (<[m := Link cs]> t) = (t', Ok ())) as E' by (by destruct (t !! m) as [[]|]).
  rewrite (IH _ _ E' n). destruct (bool_decide_reflect (n ∈ l)) as [Hin|Hin].
  - by rewrite bool_decide_eq_true_2 by (by apply list_elem_of_further).
  - destruct (decide (n = m)) as [->|Hne].
    + rewrite bool_decide_eq_true_2 by apply list_elem_of_here. by rewrite lookup_insert_eq, Em.
    + rewrite bool_decide_eq_false_2 by (rewrite elem_of_cons; tauto). by rewrite lookup_insert_ne.
Qed.
Lemma remove_all_lookup l t n : remove_all l t !! n = if bool_decide (n ∈ l) then None else t !! n.
Proof.
  unfold remove_all. revert t. induction l as [|m l IH]; intros t; [done|]. cbn [foldl]. rewrite IH.
  destruct (bool_decide_reflect (n ∈ l)) as [Hin|Hin].
  - by rewrite bool_decide_eq_true_2 by (by apply list_elem_of_further).
  - destruct (decide (n = m)) as [->|Hne].
    + rewrite bool_decide_eq_true_2 by apply list_elem_of_here. by rewrite lookup_delete_eq.
    + rewrite bool_decide_eq_false_2 by (rewrite elem_of_cons; tauto). by rewrite lookup_delete_ne.
Qed.
Lemma elem_of_stale o t n : n ∈ stale_links o t ↔ ∃ l, t !! n = Some (Link l) ∧ is_stale o (n, Link l) = true.
Proof.
  unfold stale_links. rewrite Sandbox.in_map_of. split.
  - intros ([m x] & -> & H). rewrite list_elem_of_In, filter_In, <- list_elem_of_In, elem_of_map_to_list in H. destruct H as [H1 H2].
    cbn [fst]. destruct x as [l| |]; try done. by exists l.
  - intros (l & H1 & H2). exists (n, Link l). split; [done|]. rewrite list_elem_of_In, filter_In, <- list_elem_of_In, elem_of_map_to_list. done.
Qed.

Lemma diff_units_spec o lp srcs t d : diff_units o lp srcs t = Ok d →
  Forall (λ n, is_Some (source_of o n)) (names srcs) ∧ removed d = stale_links o t
  ∧ created d = of_kind o t KCreated (names srcs) ∧ updated d = of_kind o t KUpdated (names srcs)
  ∧ unchanged d = of_kind o t KUnchanged (names srcs) ∧ update_requires_confirm d = of_kind o t KConfirm (names srcs).
Proof.
  unfold diff_units. destruct (classify_all o t srcs no_diff) as [d1|] eqn:E; [|done]. cbn [rbind]. intros E'. injection E' as <-.
  apply classify_all_spec in E as (H1 & H2 & H3 & H4 & H5 & H6). done.
Qed.
Lemma diff_units_stale o lp srcs t d : diff_units o lp srcs t = Ok d → removed_stale_requires_confirm d = if lp then [legacy o] else [].
Proof. unfold diff_units. destruct (classify_all o t srcs no_diff); [|done]. intros E. by injection E as <-. Qed.
Lemma not_stale_source o srcs t n : (∀ s, s ∈ srcs → source_exists (sname s) = true) → n ∈ names srcs → n ∉ stale_links o t.
Proof.
  intros He Hn (l & _ & Hs)%elem_of_stale. unfold names in Hn. rewrite list_elem_of_In, filter_In, <- list_elem_of_In, Sandbox.in_map_of in Hn.
  destruct Hn as [(s & -> & Hs') _]. unfold is_stale in Hs. cbn [fst snd] in Hs. by rewrite (He s Hs') in Hs.
Qed.
Lemma apply_diff_spec o uid lp lp' srcs t t' d :
  (∀ s, s ∈ srcs → source_exists (sname s) = true) →
  diff_units o lp srcs t = Ok d → apply_diff o uid d t lp = (t', lp', Ok ()) → ∀ n, t' !! n = after o srcs t n.
Proof.
  intros He Ed Ea n. apply diff_units_spec in Ed as (_ & Hr & Hc & Hu & _ & Hf). unfold apply_diff in Ea. rewrite Hr, Hc, Hu, Hf in Ea.
  destruct (place_all o (_ ++ _) t) as [t1 [[]|]] eqn:E1; [|done].
  assert (∀ m, remove_all (stale_links o t) t1 !! m = if bool_decide (m ∈ stale_links o t) then None
    else if bool_decide (m ∈ of_kind o t KCreated (names srcs) ++ of_kind o t KUpdated (names srcs)) then Link <$> source_of o m else t !! m) as H1.
  { intros m. rewrite remove_all_lookup. by rewrite (place_all_spec _ _ _ _ E1 m). }
  unfold after. destruct (yes o).
  - destruct (place_all o (of_kind o t KConfirm _) _) as [t2 [[]|]] eqn:E2; [|done]. injection Ea as <- _.
    rewrite (place_all_spec _ _ _ _ E2 n), H1. clear E1 E2 H1.
    destruct (bool_decide_reflect (n ∈ names srcs)) as [Hin|Hin].
    + rewrite (bool_decide_eq_false_2 _ (not_stale_source o srcs t n He Hin)).
      rewrite mem_app, !mem_kind by done. by destruct (kind o t n).
    + rewrite !bool_decide_eq_false_2 with (P := n ∈ of_kind _ _ _ _) by (rewrite elem_of_kind; tauto).
      rewrite (bool_decide_eq_false_2 (n ∈ _ ++ _)) by (rewrite elem_of_app, !elem_of_kind; tauto). done.
  - injection Ea as <- _. rewrite H1. clear E1 H1. destruct (bool_decide_reflect (n ∈ names srcs)) as [Hin|Hin].
    + rewrite (bool_decide_eq_false_2 _ (not_stale_source o srcs t n He Hin)).
      rewrite mem_app, !mem_kind by done. by destruct (kind o t n).
    + rewrite (bool_decide_eq_false_2 (n ∈ _ ++ _)) by (rewrite elem_of_app, !elem_of_kind; tauto). done.
Qed.

Lemma classify_all_total o t l : ∀ d d1, classify_all o t l d = Ok d1 → ∀ t' d', ∃ d2, classify_all o t' l d' = Ok d2.
Proof.
  induction l as [|s l IH]; intros d d1 E t' d'; cbn [classify_all] in *; [by eexists|].
  destruct (String.eqb (sname s) ".gitkeep"); [by eapply IH|]. unfold classify_one, collect_binds_to in *.
  destruct (canonicalize _) as [cs|]; [|done]. cbn [rbind] in *. destruct (sbody s) as [b|]; [|done]. cbn [rbind] in *. by eapply IH.
Qed.
Lemma kind_at o t t' n : t' !! n = t !! n → kind o t' n = kind o t n.
Proof. intros H. unfold kind. by rewrite H. Qed.
Lemma kind_link o t n cs : source_of o n = Some cs → Policy.is_absolute cs = true → canonicalize cs = Some cs →
  t !! n = Some (Link cs) → kind o t n = KUnchanged.
Proof.
  intros Hs Ha Hc H. unfold kind. rewrite H, Hs. cbn [default]. unfold points_to, resolve. rewrite Ha, Hc. cbn [default].
  unfold Sandbox.path_eq. by rewrite bool_decide_eq_true_2.
Qed.
Lemma of_kind_nil o t k l : (∀ n, n ∈ l → kind o t n ≠ k) → of_kind o t k l = [].
Proof. intros H. apply elem_of_nil_inv. intros n [Hn Hk]%elem_of_kind. by apply (H n Hn). Qed.

(** Each source has a canonical path and is there. *)
Record sources_ok (o : Opts) (srcs : list Source) : Prop := {
  sources_exist s : s ∈ srcs → source_exists (sname s) = true;
  sources_canonical n cs : source_of o n = Some cs → Policy.is_absolute cs = true ∧ canonicalize cs = Some cs
}.

(** C40. A run of [sy apply] that succeeds leaves at each name exactly what the
    difference says: a link to the source at the name of every unit, except that
    without consent a file in its place stays, and nothing at the name of a
    stale link; every other entry is as it was. A dry run changes nothing, and a
    run after one that succeeded finds nothing left to do. *)
Theorem apply_converges o uid is_dir reload_ok spawn_ok lp srcs t t' lp' cmds d :
  sources_ok o srcs → sync_units o uid is_dir reload_ok spawn_ok lp srcs t = (t', lp', cmds, Ok d) →
  if dry_run o then t' = t ∧ lp' = lp ∧ cmds = []
  else (∀ n, t' !! n = after o srcs t n)
    ∧ ∃ d', diff_units o lp' srcs t' = Ok d' ∧ created d' = [] ∧ updated d' = [] ∧ removed d' = []
      ∧ update_requires_confirm d' = (if yes o then [] else update_requires_confirm d)
      ∧ (yes o = true → uid = 0%Z → removed_stale_requires_confirm d' = []).
Proof.
  intros [He Hc]. unfold sync_units. destruct is_dir; [|done]. cbn [negb]. destruct (diff_units o lp srcs t) as [d0|] eqn:Ed; [|done]. destruct (dry_run o).
  { intros E. by injection E as <- <- <- _. }
  destruct (apply_diff o uid d0 t lp) as [[t1 lp1] [[]|]] eqn:Ea; [|done]. intros E.
  assert (t' = t1 ∧ lp' = lp1 ∧ d = d0) as (-> & -> & ->) by (repeat case_match; by simplify_eq). clear E.
  pose proof (apply_diff_spec o uid lp lp1 srcs t t1 d0 He Ed Ea) as Ht. split; [done|].
  pose proof (diff_units_stale _ _ _ _ _ Ed) as Hold.
  assert (∃ d1, diff_units o lp1 srcs t1 = Ok d1) as (d1 & E1).
  { unfold diff_units in *. destruct (classify_all o t srcs no_diff) as [x|] eqn:Ex; [|done].
    destruct (classify_all_total o t srcs _ _ Ex t1 no_diff) as [y ->]. by eexists. }
  exists d1. split; [done|]. pose proof (diff_units_stale _ _ _ _ _ E1) as Hlegacy. apply diff_units_spec in E1 as (Hsome & Hr & Hcr & Hu & _ & Hf). apply diff_units_spec in Ed as (_ & _ & _ & _ & _ & Hf0).
  assert (∀ n, n ∈ names srcs → kind o t1 n = KUnchanged ∨ (yes o = false ∧ kind o t1 n = KConfirm ∧ kind o t n = KConfirm)) as Hk.
  { intros n Hn. rewrite Forall_forall in Hsome. destruct (Hsome n Hn) as [cs Hs]. destruct (Hc n cs Hs) as [Ha Hcc].
    specialize (Ht n). unfold after in Ht. rewrite bool_decide_eq_true_2, Hs in Ht by done.
    destruct (kind o t n) eqn:Ek; try (left; by apply (kind_link o t1 n cs)).
    - left. by rewrite (kind_at o t t1 n Ht).
    - destruct (yes o); [left; by apply (kind_link o t1 n cs)|]. right. by rewrite (kind_at o t t1 n Ht). }
  assert (∀ n, n ∈ names srcs → yes o = false → kind o t n = KConfirm → kind o t1 n = KConfirm) as Hkeep.
  { intros n Hn Hy Hk1. rewrite <- Hk1. apply kind_at. specialize (Ht n). unfold after in Ht.
    by rewrite bool_decide_eq_true_2, Hk1, Hy in Ht by done. }
  split_and!.
  - rewrite Hcr. apply of_kind_nil. intros n Hn. destruct (Hk n Hn) as [->|(_ & -> & _)]; done.
  - rewrite Hu. apply of_kind_nil. intros n Hn. destruct (Hk n Hn) as [->|(_ & -> & _)]; done.
  - rewrite Hr. apply elem_of_nil_inv. intros n (l & Hl & Hst)%elem_of_stale. rewrite Ht in Hl. unfold after in Hl.
    destruct (bool_decide_reflect (n ∈ names srcs)) as [Hin|_].
    + apply (not_stale_source o srcs t1 n He Hin). apply elem_of_stale. exists l. split; [|done]. rewrite Ht. unfold after. by rewrite bool_decide_eq_true_2.
    + destruct (bool_decide_reflect (n ∈ stale_links o t)) as [_|Hno]; [done|]. apply Hno. apply elem_of_stale. by exists l.
  - rewrite Hf, Hf0. destruct (yes o) eqn:Ey.
    + apply of_kind_nil. intros n Hn. destruct (Hk n Hn) as [->|(? & _)]; done.
    + unfold of_kind. apply List.filter_ext_in. intros n Hn%list_elem_of_In. apply bool_decide_ext.
      destruct (Hk n Hn) as [H1|(_ & H1 & H2)]; [|by rewrite H1, H2]. split; [by rewrite H1|]. intros H2. by apply (Hkeep n Hn).
  - intros Hy ->. rewrite Hlegacy. unfold apply_diff in Ea. destruct (place_all o _ t) as [u [[]|]]; [|done]. rewrite Hy in Ea.
    destruct (place_all o (update_requires_confirm d0) _) as [u' [[]|]]; [|done]. injection Ea as _ <-.
    rewrite Hold. unfold remove_legacy. by destruct lp.
Qed.
End apply.

Definition sample_opts : Opts := mkOpts "/repo/configs/systemd/user" "/home/u/.config/systemd/user" "/etc/systemd/system/sy-knowledge.service" false true true.
Definition sample_sources : list Source :=
  [mkSource "sy.target" (Some (Text.lit "[Unit]")); mkSource "sy-aiplane.service" (Some (Text.lit "BindsTo=x"))].
Definition sample_dir : Dirs :=
  {["sy.target" := File; "sy-aiplane.service" := Link "/old/sy-aiplane.service"; "mine.service" := File; "sy-gone.service" := Link "/repo/configs/systemd/user/sy-gone.service"]}.
Definition in_repo (n : string) : bool := String.eqb n "sy.target" || String.eqb n "sy-aiplane.service".
Definition canonical (p : string) : option string := if Policy.is_absolute p then Some p else None.
Definition summary (r : Dirs * bool * list Command * result UnitDiff string) : option (list string * list string * list string) :=
  match r.2 with Ok d => Some (created d, updated d, removed d) | Err _ => None end.
Lemma sample_run :
  summary (sync_units canonical in_repo sample_opts 0 true true true true sample_sources sample_dir) = Some ([], ["sy-aiplane.service"], ["sy-gone.service"]).
Proof. vm_compute. reflexivity. Qed.
Lemma apply_converges_witness :
  let r := sync_units canonical in_repo sample_opts 0 true true true true sample_sources sample_dir in
  ∃ d, r.2 = Ok d ∧ created d = [] ∧ updated d = ["sy-aiplane.service"] ∧ removed d = ["sy-gone.service"]
    ∧ if dry_run sample_opts then r.1.1.1 = sample_dir ∧ r.1.1.2 = true ∧ r.1.2 = []
      else (∀ n, r.1.1.1 !! n = after canonical in_repo sample_opts sample_sources sample_dir n)
        ∧ ∃ d', diff_units canonical in_repo sample_opts r.1.1.2 sample_sources r.1.1.1 = Ok d' ∧ created d' = [] ∧ updated d' = [] ∧ removed d' = []
          ∧ update_requires_confirm d' = (if yes sample_opts then [] else update_requires_confirm d)
          ∧ (yes sample_opts = true → 0%Z = 0%Z → removed_stale_requires_confirm d' = []).
Proof.
  cbv zeta. pose proof sample_run as Hrun. revert Hrun.
  destruct (sync_units canonical in_repo sample_opts 0 true true true true sample_sources sample_dir) as [[[t' lp'] cmds] [d|e]] eqn:E; [|discriminate].
  unfold summary. cbn [fst snd]. intros Hrun. injection Hrun as Hc Hu Hr. exists d.
  split; [reflexivity|]. split; [exact Hc|]. split; [exact Hu|]. split; [exact Hr|].
  apply (apply_converges canonical in_repo sample_opts 0 true true true true sample_sources sample_dir t' lp' cmds d); [|exact E].
  clear. split.
  - intros s. unfold sample_sources. rewrite !elem_of_cons. intros [->|[->|Hx]]; [reflexivity|reflexivity|exfalso; exact (not_elem_of_nil _ Hx)].
  - intros n cs. unfold source_of, canonical. destruct (Policy.is_absolute (Policy.join _ _)) eqn:Ea; [|discriminate]. intros H.
    assert (Policy.is_absolute cs = true) as Hcs by congruence. by rewrite Hcs.
Defined.
(** A source directory that is reached through a link is not the parent of the
    links that point into it: what is gone from it stays linked. *)
Example stale_behind_a_link :
  let o := mkOpts "/home/u/repo/units" "/t" "/l" true false false in
  stale_links (λ _, false) o {["gone.service" := Link "/data/repo/units/gone.service"]} = []
  ∧ stale_links (λ _, false) o {["gone.service" := Link "/home/u/repo/units/gone.service"]} = ["gone.service"].
Proof. by vm_compute. Qed.
End Apply.

(** ** Services *)

Module Service.

Definition GENERIC : Z := 1.
Definition USAGE : Z := 2.
Definition DRIFT : Z := 3.
Definition NOT_READY : Z := 4.
Definition CANONICAL : list string := ["aiplane"; "knowledge"; "qdrant"; "stack-bar"; "agentd"].
Definition starts (s pre : string) : bool := String.prefix pre s.
Definition ends (s suf : string) : bool := Paths.ends_with (Text.lit s) (Text.lit suf).
(** [name_to_unit]; the error is an exit code. *)
Definition name_to_unit (name : string) : result string Z :=
  if bool_decide (name ∈ CANONICAL) then Ok ("sy-" ++ name ++ ".service")%string
  else if String.eqb name "sy.target" || (starts name "sy-" && (ends name ".service" || ends name ".socket" || ends name ".target"))
  then Ok name
  else Err USAGE.

Inductive ServiceStatus : Type := NotInstalled | Stopped | Starting | Ready | Failed.
Definition from_systemctl (active sub result_ load : string) : ServiceStatus :=
  if String.eqb load "not-found" || String.eqb load "" then NotInstalled
  else if String.eqb active "active" then Ready
  else if String.eqb active "activating" then Starting
  else if String.eqb active "inactive" then Stopped
  else if String.eqb active "failed" then Failed
  else Stopped.
(** [str::split_once] on the equals sign. *)
Fixpoint split_eq (s : string) : option (string * string) :=
  match s with
  | "" => None
  | String c r => if Ascii.eqb c "="%char then Some ("", r) else '(a, b) ← split_eq r; Some (String c a, b)
  end.
(** [parse_show] over the lines; a later line of a key replaces an earlier one. *)
Definition parse_show (ls : list string) : gmap string string :=
  foldl (λ m l, match split_eq l with Some (k, v) => <[k := v]> m | None => m end) ∅ ls.
Record StatusRecord : Type := mkStatus { name_ : string; unit_ : string; state : ServiceStatus; active_state : string; sub_state : string; result_of : string }.
(** [status_record], over what [systemctl show] printed; [None] if it failed. *)
Definition status_record (name unit_name : string) (out : option (list string)) : result StatusRecord Z :=
  match out with
  | None => Err GENERIC
  | Some ls =>
      let kv := parse_show ls in
      let get k := default "" (kv !! k) in
      Ok (mkStatus name unit_name (from_systemctl (get "ActiveState") (get "SubState") (get "Result") (get "LoadState"))
            (get "ActiveState") (get "SubState") (get "Result"))
  end.
(** The exit code of [sy service status]. *)
Definition status_exit (r : result StatusRecord Z) : Z :=
  match r with
  | Err c => c
  | Ok s => match state s with Ready => 0%Z | Starting | NotInstalled => NOT_READY | Stopped | Failed => DRIFT end
  end.
Record LogsOpts : Type := mkLogs { follow : bool; lines : option nat; since : option string; trace : option string }.
Definition build_argv (unit_name : string) (o : LogsOpts) : list string :=
  ["--user"; "-u"; unit_name; "--no-pager"] ++ (if follow o then ["-f"] else [])
  ++ match lines o with Some n => ["-n"; pretty n] | None => [] end
  ++ match since o with Some t => ["--since"; t] | None => [] end
  ++ match trace o with Some i => [("SY_TRACE_ID=" ++ i)%string] | None => [] end.
(** [dispatch]: the command that is run, or the status. *)
Inductive ServiceCmd : Type := Verb (verb name : string) | Status (name : string) | Logs (name : string) (o : LogsOpts).
Inductive Run : Type := Systemctl (verb unit_name : string) | Show (unit_name : string) | Journalctl (argv : list string).
Definition dispatch (c : ServiceCmd) : result Run Z :=
  match c with
  | Verb v n => try u <- name_to_unit n; Ok (Systemctl v u)
  | Status n => try u <- name_to_unit n; Ok (Show u)
  | Logs n o => try u <- name_to_unit n; Ok (Journalctl (build_argv u o))
  end.

Lemma prefix_nil s : String.prefix "" s = true.
Proof. by destruct s. Qed.
(** Only units of sy are ever named. *)
Lemma units_are_ours name u : name_to_unit name = Ok u → String.prefix "sy-" u = true ∨ u = "sy.target".
Proof.
  unfold name_to_unit. case_bool_decide; [intros E; injection E as <-; left; cbn; apply prefix_nil|].
  destruct (String.eqb_spec name "sy.target") as [->|]; [intros E; injection E as <-; by right|]. cbn [orb].
  unfold starts. destruct (String.prefix "sy-" name) eqn:Ep; cbn [andb]; [|discriminate].
  destruct (_ || _); intros E; [|discriminate]. injection E as <-. by left.
Qed.
(** A status exits with success exactly if the unit is loaded and active. *)
Lemma status_succeeds_iff name u ls :
  status_exit (status_record name u (Some ls)) = 0%Z ↔
  let kv := parse_show ls in
  default "" (kv !! "ActiveState") = "active" ∧ default "" (kv !! "LoadState") ≠ "not-found" ∧ default "" (kv !! "LoadState") ≠ "".
Proof.
  cbn zeta. unfold status_record, status_exit, from_systemctl. cbn [state].
  destruct (String.eqb_spec (default "" (parse_show ls !! "LoadState")) "not-found") as [->|H1]; cbn [orb]; [split; [done|naive_solver]|].
  destruct (String.eqb_spec (default "" (parse_show ls !! "LoadState")) "") as [->|H2]; [split; [done|naive_solver]|].
  destruct (String.eqb_spec (default "" (parse_show ls !! "ActiveState")) "active") as [->|H3]; [done|].
  repeat (destruct (String.eqb _ _); [split; [done|naive_solver]|]). split; [done|naive_solver].
Qed.
End Service.
