(* ===== verification/StackBar.v ===== *)
(** * The bar of the desktop stack

    [src/crates/sy-desktop-shell/src/stack/bar/]: dragging out of the panel on
    its own Wayland connection ([drag.rs]) and the bar itself ([app.rs]): its
    state, the messages of the widgets, the popups it opens and takes back, and
    what is shown of an item. *)

From S2P Require Import Prelude Text Lists Paths Lines Utf8 Store Stack AgtSandbox.
Import Text Lists Paths Lines Utf8.
Local Open Scope string_scope.
Local Open Scope nat_scope.
Local Open Scope list_scope.
Local Open Scope sy_scope.

(** ** Dragging *)

Module Drag.

(** Positions are what the protocol carries: multiples of 1/256 of a pixel. *)
Notation Point := (Z * Z)%type.
Definition DRAG_THRESHOLD : Z := 6 * 256.
Record Gesture : Type := mkGesture { origin : option Point; dragged : bool }.
Definition press (p : Point) (g : Gesture) : Gesture := mkGesture (Some p) false.
Definition release (g : Gesture) : Gesture := mkGesture None (dragged g).
(** [motion]: whether the pointer is as far from the press as the threshold. *)
Definition motion (p : Point) (g : Gesture) : bool :=
  match origin g with
  | Some o => let dx := (o.1 - p.1)%Z in let dy := (o.2 - p.2)%Z in (DRAG_THRESHOLD * DRAG_THRESHOLD <=? dx * dx + dy * dy)%Z
  | None => false
  end.

Record Payload : Type := mkPayload { mime : string; payload_bytes : list Z }.
Definition text_payload (b : list Z) : result Payload text :=
  match from_utf8 b with Some _ => Ok (mkPayload "text/plain;charset=utf-8" b) | None => Err (lit "invalid utf-8") end.
Definition mime_types (p : Payload) : list string :=
  if String.eqb (mime p) "text/uri-list" then ["text/uri-list"] else ["text/plain;charset=utf-8"; "text/plain"].
(** [Payload::file]; the URL of a path is the url crate's. *)
Definition file_payload (from_file_path : path → option (list Z)) (p : path) : result Payload text :=
  match from_file_path p with
  | Some uri => Ok (mkPayload "text/uri-list" (uri ++ [13; 10]%Z))
  | None => Err (lit "drag file path must be absolute")
  end.

(** The manager and the device are there once a [NativeDrag] is made; a source
    is named by a number. *)
Record DragState : Type := mkDrag {
  pointer : bool; surface : option nat; serial : Z; position : Point; gesture : Gesture; payload : option Payload;
  source : option nat; next_source : nat
}.
Definition set_gesture (g : Gesture) (s : DragState) : DragState :=
  mkDrag (pointer s) (surface s) (serial s) (position s) g (payload s) (source s) (next_source s).
Definition set_payload (p : option Payload) (s : DragState) : DragState :=
  mkDrag (pointer s) (surface s) (serial s) (position s) (gesture s) p (source s) (next_source s).
Definition set_pointer (b : bool) (s : DragState) : DragState :=
  mkDrag b (surface s) (serial s) (position s) (gesture s) (payload s) (source s) (next_source s).
Definition set_position (f : option nat) (p : Point) (s : DragState) : DragState :=
  mkDrag (pointer s) f (serial s) p (gesture s) (payload s) (source s) (next_source s).
Definition set_serial (n : Z) (s : DragState) : DragState :=
  mkDrag (pointer s) (surface s) n (position s) (gesture s) (payload s) (source s) (next_source s).
Definition set_source (o : option nat) (s : DragState) : DragState :=
  mkDrag (pointer s) (surface s) (serial s) (position s) (gesture s) (payload s) o (next_source s).
Definition release_press (s : DragState) : DragState := set_gesture (release (gesture s)) (set_payload None s).

(** The events of the seat, the pointer and the sources, and what is asked for. *)
Inductive WlEvent : Type :=
  | Capabilities (has_pointer : bool)
  | Enter (f : nat) (p : Point)
  | Button (n : Z) (pressed : bool)
  | Motion (p : Point)
  | Send (id : nat) (p : Payload) (m : string)
  | SourceDone (id : nat).
Inductive Request : Type :=
  | GetPointer | ReleasePointer
  | StartDrag (id : nat) (f : nat) (n : Z) (p : Payload) (mimes : list string)
  | WriteAll (b : list Z) | DestroySource (id : nat).
Definition on_event (e : WlEvent) (s : DragState) : DragState * list Request :=
  match e with
  | Capabilities has =>
      if has && negb (pointer s) then (set_pointer true s, [GetPointer])
      else if negb has then (set_gesture (release (gesture s)) (set_pointer false s), if pointer s then [ReleasePointer] else [])
      else (s, [])
  | Enter f p => (set_position (Some f) p s, [])
  | Button n true => (set_gesture (press (position s) (gesture s)) (set_serial n s), [])
  | Button n false => (release_press s, [])
  | Motion p => (set_position (surface s) p s, [])
  | Send _ p m => (s, if existsb (String.eqb m) (mime_types p) then [WriteAll (payload_bytes p)] else [])
  | SourceDone i =>
      let s := if bool_decide (source s = Some i)
               then let s := set_source None s in if dragged (gesture s) then set_gesture (release (gesture s)) s else s
               else s in
      (s, [DestroySource i])
  end.
Fixpoint dispatch (es : list WlEvent) (s : DragState) : DragState * list Request :=
  match es with
  | [] => (s, [])
  | e :: es => let '(s, o) := on_event e s in let '(s, o') := dispatch es s in (s, o ++ o')
  end.
Definition start (s : DragState) : DragState * list Request :=
  match surface s, payload s with
  | Some f, Some p =>
      (mkDrag (pointer s) (surface s) (serial s) (position s) (mkGesture (origin (gesture s)) true) None (Some (next_source s)) (S (next_source s)),
       [StartDrag (next_source s) f (serial s) p (mime_types p)])
  | _, _ => (s, [])
  end.
Definition prepare (p : Payload) (s : DragState) : DragState :=
  set_payload (Some p) (set_gesture (mkGesture (origin (gesture s)) false) s).
Definition active (s : DragState) : bool := bool_decide (is_Some (source s)).
(** [pump] over the events that are read; [ok] says whether reading them ends
    without an error. *)
Definition pump (es : list WlEvent) (ok : bool) (s : DragState) : DragState * list Request :=
  let '(s, o) := dispatch es s in
  if ok && motion (position s) (gesture s) && negb (dragged (gesture s))
  then let '(s, o') := start s in (s, o ++ o') else (s, o).

(** *** What a drag carries *)

(** What is done to a [NativeDrag]. *)
Inductive Op : Type := Pump (es : list WlEvent) (ok : bool) | Prepare (p : Payload) | CancelPress.
Definition apply (o : Op) (s : DragState) : DragState * list Request :=
  match o with Pump es ok => pump es ok s | Prepare p => (prepare p s, []) | CancelPress => (release_press s, []) end.
Fixpoint run (os : list Op) (s : DragState) : DragState * list Request :=
  match os with
  | [] => (s, [])
  | o :: os => let '(s, r) := apply o s in let '(s, r') := run os s in (s, r ++ r')
  end.
Definition new_drag : DragState := mkDrag true None 0 (0, 0)%Z (mkGesture None false) None None 0.
Definition is_start (r : Request) : bool := match r with StartDrag _ _ _ _ _ => true | _ => false end.
Definition starts (rs : list Request) : nat := length (List.filter is_start rs).
Definition prepares (os : list Op) : nat := length (List.filter (λ o, match o with Prepare _ => true | _ => false end) os).
Definition loaded (s : DragState) : nat := match payload s with Some _ => 1 | None => 0 end.

Lemma starts_app a b : starts (a ++ b) = starts a + starts b.
Proof. unfold starts. by rewrite List.filter_app, length_app. Qed.
Lemma on_event_loaded e s : starts (on_event e s).2 = 0 ∧ loaded (on_event e s).1 ≤ loaded s.
Proof.
  destruct e as [has|f p|n b|p|i p m|i]; cbn; try (split; [done|unfold loaded; cbn; lia]).
  - destruct has, (pointer s) eqn:E; cbn; done.
  - destruct b; cbn; split; try done. unfold loaded. cbn. lia.
  - split; [|done]. by destruct (existsb _ _).
  - split; [done|]. destruct (bool_decide _); [|done]. cbn. by destruct (dragged _).
Qed.
Lemma dispatch_loaded es : ∀ s, starts (dispatch es s).2 = 0 ∧ loaded (dispatch es s).1 ≤ loaded s.
Proof.
  induction es as [|e es IH]; intros s; cbn [dispatch]; [done|]. destruct (on_event_loaded e s) as [H1 H2].
  destruct (on_event e s) as [s1 r1]. cbn [fst snd] in *. destruct (IH s1) as [H3 H4]. destruct (dispatch es s1) as [s2 r2].
  cbn [fst snd] in *. rewrite starts_app. lia.
Qed.
Lemma apply_loaded o s : starts (apply o s).2 + loaded (apply o s).1 ≤ loaded s + prepares [o].
Proof.
  destruct o as [es ok|p|]; cbn [apply].
  - unfold pump. destruct (dispatch_loaded es s) as [H1 H2]. destruct (dispatch es s) as [s1 r1]. cbn [fst snd] in *.
    destruct (ok && _ && _); [|cbn [fst snd]; lia]. unfold start. destruct (surface s1), (payload s1) eqn:E; cbn [fst snd]; rewrite ?app_nil_r; try lia.
    rewrite starts_app, H1. unfold loaded in *. rewrite E in H2. cbn. lia.
  - cbn. lia.
  - cbn. lia.
Qed.
(** Each payload that is set is dragged at most once. *)
Lemma one_drag_per_payload os : ∀ s, starts (run os s).2 + loaded (run os s).1 ≤ loaded s + prepares os.
Proof.
  induction os as [|o os IH]; intros s; cbn [run]; [cbn; lia|]. pose proof (apply_loaded o s) as H. destruct (apply o s) as [s1 r1]. cbn [fst snd] in H.
  specialize (IH s1). destruct (run os s1) as [s2 r2]. cbn [fst snd] in *. rewrite starts_app.
  assert (prepares (o :: os) = prepares [o] + prepares os) as -> by (unfold prepares; cbn; by destruct o). lia.
Qed.
(** A press that is released, or taken back, starts no drag. *)
Lemma release_stops s : motion (position (release_press s)) (gesture (release_press s)) = false ∧ loaded (release_press s) = 0.
Proof. done. Qed.
Lemma origin_pressed e s : origin (gesture s) = None → origin (gesture (on_event e s).1) ≠ None → ∃ n, e = Button n true.
Proof.
  intros H. destruct e as [has|f p|n b|p|i p m|i]; cbn; try done.
  - destruct has, (pointer s); cbn; try done.
  - destruct b; [by eexists|done].
  - destruct (bool_decide _); cbn; [|done]. by destruct (dragged _).
Qed.
End Drag.

(** ** The bar *)

Module Bar.
#[local] Existing Instance Stack.Kind_eq_dec.

(** *** State *)

Definition BAR_WIDTH : Z := 28.
Definition WAYBAR_HEIGHT_PX : Z := 24.
Definition POPUP_WIDTH : Z := 160.
Definition POPUP_HEIGHT : Z := 200.
Definition HOVER_POPUP_WIDTH : Z := 320.
Definition HOVER_POPUP_HEIGHT : Z := 300.
Definition HOVER_EXCLUSIVE_ZONE : Z := -1.
Definition HOVER_THUMB_PX : Z := 256.
Definition HOVER_TEXT_MAX_LINES : nat := 24.
Definition HOVER_DEBOUNCE_MS : Z := 250.
Definition MAX_CLIPS : nat := 8.

Inductive SlotSource : Type := Clip | Stacked.
#[export] Instance SlotSource_eq_dec : EqDecision SlotSource.
Proof. solve_decision. Defined.
Record HoverArm : Type := mkArm { arm_source : SlotSource; arm_id : text; armed_at : Instant }.
Inductive PopupKind : Type := Action | Hover.
#[export] Instance PopupKind_eq_dec : EqDecision PopupKind.
Proof. solve_decision. Defined.
Record PopupCtx : Type := mkCtx { item_id : text; ctx_source : SlotSource; ctx_kind : PopupKind }.
Notation Popups := (gmap nat PopupCtx).
Record ClipEntry : Type := mkClip { clip_id : text; clip_preview : text; clip_kind : string; image_ext : option string }.
Definition CLIP_BINARY : string := "[[ binary data".
(** [clip::top] over the lines that cliphist lists. *)
Fixpoint split_tab (s : text) : text * option text :=
  match s with
  | [] => ([], None)
  | c :: r => if (c =? 9)%Z then ([], Some r) else let '(a, b) := split_tab r in (c :: a, b)
  end.
Definition clip_of_line (l : text) : option ClipEntry :=
  let '(a, b) := split_tab l in
  let i := trim a in
  if bool_decide (i = []) then None
  else let preview := default [] b in
       let ext := Stack.parse_image_ext preview in
       Some (mkClip i preview (if bool_decide (is_Some ext) || starts_with preview (lit CLIP_BINARY) then "image" else "text") ext).
Definition top (n : nat) (out : option text) : list ClipEntry :=
  match out with None => [] | Some s => omap clip_of_line (take n (lines s)) end.

Record Bar : Type := mkBar {
  drag : option Drag.DragState; pressed : option (text * SlotSource); palette : text; clips : list ClipEntry; items : list Stack.Item;
  visible : bool; ipc_rx : list Stack.Op; bar_id : option nat; popups : Popups; cursor : Z * Z;
  hover_armed : option HoverArm; hover_popup : option nat; next_id : nat
}.
Definition set_drag d b := mkBar d (pressed b) (palette b) (clips b) (items b) (visible b) (ipc_rx b) (bar_id b) (popups b) (cursor b) (hover_armed b) (hover_popup b) (next_id b).
Definition set_pressed x b := mkBar (drag b) x (palette b) (clips b) (items b) (visible b) (ipc_rx b) (bar_id b) (popups b) (cursor b) (hover_armed b) (hover_popup b) (next_id b).
Definition set_palette x b := mkBar (drag b) (pressed b) x (clips b) (items b) (visible b) (ipc_rx b) (bar_id b) (popups b) (cursor b) (hover_armed b) (hover_popup b) (next_id b).
Definition set_data c i b := mkBar (drag b) (pressed b) (palette b) c i (visible b) (ipc_rx b) (bar_id b) (popups b) (cursor b) (hover_armed b) (hover_popup b) (next_id b).
Definition set_visible x b := mkBar (drag b) (pressed b) (palette b) (clips b) (items b) x (ipc_rx b) (bar_id b) (popups b) (cursor b) (hover_armed b) (hover_popup b) (next_id b).
Definition set_rx x b := mkBar (drag b) (pressed b) (palette b) (clips b) (items b) (visible b) x (bar_id b) (popups b) (cursor b) (hover_armed b) (hover_popup b) (next_id b).
Definition set_bar_id x b := mkBar (drag b) (pressed b) (palette b) (clips b) (items b) (visible b) (ipc_rx b) x (popups b) (cursor b) (hover_armed b) (hover_popup b) (next_id b).
Definition set_popups m h b := mkBar (drag b) (pressed b) (palette b) (clips b) (items b) (visible b) (ipc_rx b) (bar_id b) m (cursor b) (hover_armed b) h (next_id b).
Definition set_cursor x b := mkBar (drag b) (pressed b) (palette b) (clips b) (items b) (visible b) (ipc_rx b) (bar_id b) (popups b) x (hover_armed b) (hover_popup b) (next_id b).
Definition set_armed x b := mkBar (drag b) (pressed b) (palette b) (clips b) (items b) (visible b) (ipc_rx b) (bar_id b) (popups b) (cursor b) x (hover_popup b) (next_id b).
(** [Id::unique]. *)
Definition unique (b : Bar) : nat * Bar :=
  (next_id b, mkBar (drag b) (pressed b) (palette b) (clips b) (items b) (visible b) (ipc_rx b) (bar_id b) (popups b) (cursor b) (hover_armed b) (hover_popup b) (S (next_id b))).

(** *** Hovering *)

Definition arm_hover (now : Instant) (src : SlotSource) (i : text) (s : option HoverArm) : option HoverArm * bool :=
  match s with
  | Some a => if bool_decide (arm_source a = src) && bool_decide (arm_id a = i) then (s, false) else (Some (mkArm src i now), true)
  | None => (Some (mkArm src i now), true)
  end.
Definition disarm_hover_if_matches (src : SlotSource) (i : text) (s : option HoverArm) : option HoverArm :=
  match s with
  | Some a => if bool_decide (arm_source a = src) && bool_decide (arm_id a = i) then None else s
  | None => None
  end.
Definition hover_should_fire (now : Instant) (threshold : Duration) (s : option HoverArm) : option HoverArm :=
  match s with Some a => if (threshold <=? saturating_since now (armed_at a))%Z then Some a else None | None => None end.

(** *** Messages *)

Inductive Msg : Type :=
  | Tick | DragTick
  | SlotPressed (i : text) (src : SlotSource)
  | SlotLeftClicked (i : text) (src : SlotSource)
  | SlotRightClicked (i : text) (src : SlotSource)
  | MenuAction (i : text) (src : SlotSource) (action : string)
  | ClosePopup
  | WindowOpened (w : nat) | WindowClosed (w : nat)
  | CursorMoved (p : Z * Z) | LeftReleased | OtherEvent
  | SlotHoverEnter (i : text) (src : SlotSource)
  | SlotHoverExit (i : text) (src : SlotSource)
  | HoverDebounceTick.
(** What an update asks for: of the compositor, of other programs and of systemd. *)
Inductive Task : Type :=
  | RemoveWindow (w : nat)
  | AnchorSizeChange (w : nat) (size : Z * Z)
  | ExclusiveZoneChange (w : nat) (zone : Z)
  | NewPopUp (w : nat) (size position : Z * Z)
  | NewLayerShell (w : nat) (size : Z * Z) (zone : Z) (margin : Z * Z * Z * Z)
  | SpawnAction (i : text) (action : string) (src : SlotSource)
  | NotifySend (arg : text)
  | Ready
  | Wayland (r : Drag.Request).
(** What an update finds: the clock, the events of the drag connection, what
    cliphist lists and decodes, the theme and the disk. *)
Record World : Type := mkWorld {
  now : Instant; wl_events : list Drag.WlEvent; wl_ok : bool; cliphist : option text; decode : text → option (list Z);
  runtime_dir : option path; theme : text; disk : Stack.Disk
}.

Definition bar_size (visible : bool) : Z * Z := if visible then (BAR_WIDTH, 0)%Z else (1, 1)%Z.
Definition bar_zone (visible : bool) : Z := if visible then BAR_WIDTH else 0%Z.
Definition popup_actions (src : SlotSource) : list (string * string) :=
  match src with
  | Clip => [("copy", "copy"); ("preview", "preview"); ("remove", "remove")]
  | Stacked => [("copy", "copy"); ("preview", "preview"); ("move to…", "move"); ("link", "link"); ("onto…", "onto");
      ("call agent…", "agent"); ("remove", "remove")]
  end.
Definition close_all_popups (b : Bar) : Bar * list Task :=
  (set_popups ∅ None b, map RemoveWindow (map fst (map_to_list (popups b)))).

Section update.
(** The text of items.json, the URL of a path, and the path without links. *)
Context (from_str : text → result (list Stack.Item) text) (from_file_path : path → option (list Z)) (canonicalize : Stack.Disk → Stack.Link → option path).

(** [state::load().unwrap_or_default()]. *)
Definition load_items (w : World) : list Stack.Item := match Stack.load from_str (disk w) with Ok l => l | Err _ => [] end.
Definition pump_drag (w : World) (b : Bar) : Bar * list Task :=
  match drag b with
  | None => (b, [])
  | Some d =>
      let '(d, rs) := Drag.pump (wl_events w) (wl_ok w) d in
      let b := set_drag (Some d) b in
      (if Drag.dragged (Drag.gesture d) && negb (Drag.active d) then set_pressed None b else b, map Wayland rs)
  end.
(** [clip::export]. *)
Definition export (w : World) (i : text) : result path text :=
  match runtime_dir w with
  | None => Err (lit "XDG_RUNTIME_DIR is required to export clipboard entries")
  | Some base =>
      match decode w i with
      | None => Err (lit "cliphist decode")
      | Some bytes => fst (Stack.export_bytes_at (Stack.files (disk w)) (join base (lit "sy/clip")) i bytes)
      end
  end.
Definition drag_payload (w : World) (b : Bar) (i : text) (src : SlotSource) : result Drag.Payload text :=
  match src with
  | Clip =>
      match List.find (λ c, bool_decide (clip_id c = i)) (clips b) with
      | None => Err (lit "clipboard entry disappeared")
      | Some c =>
          if String.eqb (clip_kind c) "text"
          then match decode w i with Some bytes => Drag.text_payload bytes | None => Err (lit "cliphist decode") end
          else try p <- export w i; Drag.file_payload from_file_path p
      end
  | Stacked =>
      try it <- Stack.find (items b) i;
      if negb (bool_decide (is_Some (Stack.ipath it))) && String.eqb (Stack.content_kind it) "text"
      then try bytes <- Stack.read_payload i (disk w); Drag.text_payload bytes
      else try l <- fst (Stack.link_path it (disk w));
           match canonicalize (disk w) l with Some p => Drag.file_payload from_file_path p | None => Err (lit "canonicalize") end
  end.

(** The queued operations, up to the first [Toggle] that resizes the bar. *)
Fixpoint drain (w : World) (ops : list Stack.Op) (b : Bar) : Bar * option (list Task) :=
  match ops with
  | [] => (set_rx [] b, None)
  | Stack.Refresh :: ops => drain w ops b
  | Stack.ReloadTheme :: ops => drain w ops (set_palette (theme w) b)
  | Stack.Toggle :: ops =>
      let b := set_visible (negb (visible b)) b in
      match bar_id b with
      | Some i => (set_rx ops b, Some [AnchorSizeChange i (bar_size (visible b)); ExclusiveZoneChange i (bar_zone (visible b))])
      | None => drain w ops b
      end
  end.
Definition tick (w : World) (b : Bar) : Bar * list Task :=
  match drain w (ipc_rx b) b with
  | (b, Some ts) => (b, ts)
  | (b, None) => (set_data (top MAX_CLIPS (cliphist w)) (load_items w) b, [])
  end.
Definition slot_pressed (w : World) (i : text) (src : SlotSource) (b : Bar) : Bar * list Task :=
  let '(b, t1) := pump_drag w b in
  let '(b, t2) :=
    match drag b with
    | None => (b, [])
    | Some d =>
        match drag_payload w b i src with
        | Ok p => (set_drag (Some (Drag.prepare p d)) b, [])
        | Err e => (b, [NotifySend e])
        end
    end in
  let '(b, t3) := close_all_popups (set_armed None (set_pressed (Some (i, src)) b)) in (b, t1 ++ t2 ++ t3).
Definition was_dragged (b : Bar) : bool := match drag b with Some d => Drag.dragged (Drag.gesture d) | None => false end.
Definition slot_left_clicked (w : World) (i : text) (src : SlotSource) (b : Bar) : Bar * list Task :=
  let '(b, t) := pump_drag w b in
  let taken := pressed b in
  let b := set_pressed None b in
  if negb (bool_decide (taken = Some (i, src))) || was_dragged b then (b, t)
  else (b, t ++ [SpawnAction i "copy" src; NotifySend (lit "copied")]).
Definition cancel_press (b : Bar) : Bar := set_drag (Drag.release_press <$> drag b) b.
Definition slot_right_clicked (i : text) (src : SlotSource) (b : Bar) : Bar * list Task :=
  let b := set_armed None (cancel_press (set_pressed None b)) in
  let '(b, t) := close_all_popups b in
  let '(w, b) := unique b in
  let b := set_popups (<[w := mkCtx i src Action]> (popups b)) (hover_popup b) b in
  let height := Z.max (Z.of_nat (length (popup_actions src)) * 28 + 80) POPUP_HEIGHT in
  (b, t ++ [NewPopUp w (POPUP_WIDTH, height) ((- POPUP_WIDTH - 4)%Z, Z.max (snd (cursor b) - 8) 0)]).
Definition window_opened (i : nat) (b : Bar) : Bar * list Task :=
  if negb (bool_decide (is_Some (popups b !! i))) && negb (bool_decide (is_Some (bar_id b))) then (set_bar_id (Some i) b, [Ready]) else (b, []).
Definition window_closed (i : nat) (b : Bar) : Bar :=
  set_popups (delete i (popups b)) (if bool_decide (hover_popup b = Some i) then None else hover_popup b) b.
Definition dragging (b : Bar) : bool := match drag b with Some d => Drag.active d | None => false end.
Definition hover_enter (w : World) (i : text) (src : SlotSource) (b : Bar) : Bar * list Task :=
  if bool_decide (is_Some (pressed b)) || dragging b then (b, [])
  else
    let '(a, fresh) := arm_hover (now w) src i (hover_armed b) in
    let b := set_armed a b in
    match hover_popup b with
    | Some p => if fresh then (set_popups (delete p (popups b)) None b, [RemoveWindow p]) else (b, [])
    | None => (b, [])
    end.
Definition hover_exit (i : text) (src : SlotSource) (b : Bar) : Bar * list Task :=
  let b := set_armed (disarm_hover_if_matches src i (hover_armed b)) b in
  match hover_popup b with
  | Some p =>
      match popups b !! p with
      | Some c => if bool_decide (item_id c = i) && bool_decide (ctx_source c = src)
                  then (set_popups (delete p (popups b)) None b, [RemoveWindow p]) else (b, [])
      | None => (b, [])
      end
  | None => (b, [])
  end.
Definition self_heal (b : Bar) : Bar :=
  match hover_popup b with
  | Some p => if bool_decide (is_Some (popups b !! p)) then b else set_popups (popups b) None b
  | None => b
  end.
Definition open_hover (a : HoverArm) (b : Bar) : Bar * list Task :=
  let '(w, b) := unique b in
  let b := set_popups (<[w := mkCtx (arm_id a) (arm_source a) Hover]> (popups b)) (Some w) b in
  (b, [NewLayerShell w (HOVER_POPUP_WIDTH, HOVER_POPUP_HEIGHT) HOVER_EXCLUSIVE_ZONE
         (Z.max (snd (cursor b) + WAYBAR_HEIGHT_PX - 8) WAYBAR_HEIGHT_PX, (BAR_WIDTH + 4)%Z, 0%Z, 0%Z)]).
Definition debounce (w : World) (b : Bar) : Bar * list Task :=
  let '(b, t) := pump_drag w b in
  let b := self_heal b in
  if bool_decide (is_Some (hover_popup b)) then (b, t)
  else match hover_should_fire (now w) (from_millis HOVER_DEBOUNCE_MS) (hover_armed b) with
       | None => (b, t)
       | Some a => let '(b, t') := open_hover a b in (b, t ++ t')
       end.
Definition update (w : World) (m : Msg) (b : Bar) : Bar * list Task :=
  match m with
  | Tick => tick w b
  | DragTick => pump_drag w b
  | SlotPressed i src => slot_pressed w i src b
  | SlotLeftClicked i src => slot_left_clicked w i src b
  | SlotRightClicked i src => slot_right_clicked i src b
  | MenuAction i src action => let '(b, t) := close_all_popups b in (b, SpawnAction i action src :: t)
  | ClosePopup => close_all_popups b
  | WindowOpened i => window_opened i b
  | WindowClosed i => (window_closed i b, [])
  | CursorMoved p => (set_cursor p b, [])
  | LeftReleased => (cancel_press (set_pressed None b), [])
  | OtherEvent => (b, [])
  | SlotHoverEnter i src => hover_enter w i src b
  | SlotHoverExit i src => hover_exit i src b
  | HoverDebounceTick => debounce w b
  end.
End update.

(** *** What is shown *)

Inductive ColorKey : Type := CText | CCode | CImage | CArchive | CConfig | CFile.
Definition is_one_of (e : text) (l : list string) : bool := existsb (λ x, bool_decide (lit x = e)) l.
Definition CODE_EXTS : list string :=
  ["rs"; "go"; "py"; "js"; "ts"; "c"; "h"; "cpp"; "hpp"; "sh"; "lua"; "rb"; "java"; "kt"; "swift"; "zig"].
Definition TEXT_EXTS : list string := ["md"; "rst"; "txt"; "log"].
Definition CONFIG_EXTS : list string := ["toml"; "yaml"; "yml"; "json"; "kdl"; "ini"; "conf"; "cfg"; "env"].
(** The code point of the icon, and the colour of its kind. *)
Definition glyph_for_item (it : Stack.Item) : Z * ColorKey :=
  match Stack.ipath it with
  | Some p =>
      let e := Stack.ext_lower p in
      if is_one_of e ["png"; "jpg"; "jpeg"; "gif"; "webp"; "bmp"; "tiff"; "svg"] then (60248%Z, CImage)
      else if is_one_of e ["pdf"] then (60311%Z, CFile)
      else if is_one_of e ["zip"; "tar"; "gz"; "xz"; "bz2"; "7z"; "rar"] then (60056%Z, CArchive)
      else if is_one_of e CODE_EXTS then (60137%Z, CCode)
      else if is_one_of e TEXT_EXTS then (60228%Z, CText)
      else if is_one_of e CONFIG_EXTS then (60152%Z, CConfig)
      else (60027%Z, CFile)
  | None =>
      if String.eqb (Stack.content_kind it) "text" then (60228%Z, CText)
      else if String.eqb (Stack.content_kind it) "image" then (60248%Z, CImage)
      else if String.eqb (Stack.content_kind it) "binary" then (60137%Z, CCode)
      else (60027%Z, CFile)
  end.
(** The entry of the palette. *)
Definition resolve_glyph_color (k : ColorKey) : string :=
  match k with CCode => "blue" | CArchive => "orange" | CConfig => "fg_dim" | CText | CImage | CFile => "fg" end.
Definition ELLIPSIS : Z := 8230.
Definition short (s : text) : text := take 200 s ++ if 200 <? length s then [ELLIPSIS] else [].
Definition by_kind (l : list Stack.Item) (k : Stack.Kind) : list Stack.Item :=
  sort_by (λ a b, (Stack.created_at b <=? Stack.created_at a)%Z) (List.filter (λ it, bool_decide (Stack.kind it = k)) l).
(** The slots from the top, each with its icon. *)
Record Slot : Type := mkSlot { slot_id : text; slot_source : SlotSource; slot_glyph : Z; slot_color : string }.
Definition clip_slot (c : ClipEntry) : Slot :=
  let '(g, k) := if String.eqb (clip_kind c) "image" then (60248%Z, CImage) else (60362%Z, CText) in mkSlot (clip_id c) Clip g (resolve_glyph_color k).
Definition stack_slot (it : Stack.Item) : Slot :=
  let '(g, k) := glyph_for_item it in mkSlot (Stack.id it) Stacked g (resolve_glyph_color k).
Definition bar_view (b : Bar) : list (list Slot) :=
  if negb (visible b) then [] else [map clip_slot (clips b); map stack_slot (by_kind (items b) Stack.App); map stack_slot (by_kind (items b) Stack.User)].

(** The title and the line below it. *)
Definition popup_header (d : Stack.Disk) (b : Bar) (i : text) (src : SlotSource) : text * text :=
  match src with
  | Clip => (lit "clipboard", match List.find (λ c, bool_decide (clip_id c = i)) (clips b) with Some c => short (clip_preview c) | None => [] end)
  | Stacked =>
      match List.find (λ it, bool_decide (Stack.id it = i)) (items b) with
      | Some it =>
          (Stack.name it,
           match Stack.ipath it with
           | Some p => p
           | None => match Stack.read_payload i d with Ok bytes => default [] (short <$> from_utf8 bytes) | Err _ => [] end
           end)
      | None => (lit "item " ++ i, [])
      end
  end.

Definition read_item_text (d : Stack.Disk) (it : Stack.Item) : option (list Z) :=
  if String.eqb (Stack.content_kind it) "text" then match Stack.read_payload (Stack.id it) d with Ok b => Some b | Err _ => None end
  else
    match Stack.ipath it with
    | Some p =>
        if is_one_of (Stack.ext_lower p) (CODE_EXTS ++ TEXT_EXTS ++ CONFIG_EXTS)
        then match Store.read (Stack.files d) p with Ok b => Some b | Err _ => None end
        else None
    | None => None
    end.
Section thumbnails.
(** Whether the image library decodes the bytes. *)
Context (is_image : list Z → bool).
Definition thumb_name (k : text) (sz : Z) : text := k ++ [46]%Z ++ show_nat sz ++ lit ".png".
(** [thumbnail_path]: the name in the cache, made if it is not there. *)
Definition thumbnail_path (d : Stack.Disk) (it : Stack.Item) (sz : Z) : result (option text) text :=
  if negb (Stack.is_image_item it) then Ok None
  else
    let n := thumb_name (Stack.id it) sz in
    if bool_decide (n ∈ Stack.thumbs d) then Ok (Some n)
    else
      match match Stack.ipath it with Some p => Store.read (Stack.files d) p | None => match Stack.read_payload (Stack.id it) d with Ok b => Ok b | Err _ => Err Store.ENOENT end end with
      | Ok b => if is_image b then Ok (Some n) else Err (lit "decode")
      | Err _ => Err (lit "decode")
      end.
Definition decode_to_thumb (w : World) (i : text) (sz : Z) : result text text :=
  let n := thumb_name (lit "clip-" ++ i) sz in
  if bool_decide (n ∈ Stack.thumbs (disk w)) then Ok n
  else match decode w i with Some b => if is_image b then Ok n else Err (lit "decode clip") | None => Err (lit "cliphist decode") end.
Inductive HoverBody : Type := Note (s : text) | Thumb (n : text) | Lines_ (s : text) | Header (n sub : text) (sz : Z).
Definition hover_clip_body (w : World) (b : Bar) (i : text) : HoverBody :=
  match List.find (λ c, bool_decide (clip_id c = i)) (clips b) with
  | None => Note (lit "(clip entry vanished)")
  | Some c =>
      match image_ext c, decode_to_thumb w (clip_id c) HOVER_THUMB_PX with
      | Some _, Ok n => Thumb n
      | _, _ => Lines_ (short (clip_preview c))
      end
  end.
Definition hover_stack_body (d : Stack.Disk) (b : Bar) (i : text) : HoverBody :=
  match List.find (λ it, bool_decide (Stack.id it = i)) (items b) with
  | None => Note (lit "(stack item vanished)")
  | Some it =>
      match snd (glyph_for_item it), thumbnail_path d it HOVER_THUMB_PX with
      | CImage, Ok (Some n) => Thumb n
      | _, _ =>
          match read_item_text d it with
          | Some bytes => Lines_ (Stack.text_preview bytes HOVER_TEXT_MAX_LINES)
          | None => Header (short (Stack.name it)) (short (default [] (Stack.ipath it))) (Stack.size it)
          end
      end
  end.
End thumbnails.
(** What the window [w] shows. *)
Inductive View : Type := BarView (slots : list (list Slot)) | PopupView (header : text * text) (actions : list (string * string)) | HoverView (body : HoverBody).
Definition view (is_image : list Z → bool) (wd : World) (b : Bar) (w : nat) : View :=
  match popups b !! w with
  | Some p =>
      match ctx_kind p with
      | Action => PopupView (popup_header (disk wd) b (item_id p) (ctx_source p)) (popup_actions (ctx_source p))
      | Hover => HoverView (match ctx_source p with Clip => hover_clip_body is_image wd b (item_id p) | Stacked => hover_stack_body is_image (disk wd) b (item_id p) end)
      end
  | None => BarView (bar_view b)
  end.

(** *** The windows on the screen *)

Definition new_bar (d : option Drag.DragState) (pal : text) (its : list Stack.Item) : Bar :=
  mkBar d None pal [] its true [] None ∅ (0, 0)%Z None None 0.
(** The popups that are on the screen after a task, as the compositor sees it. *)
Definition on_screen (sc : gset nat) (t : Task) : gset nat :=
  match t with
  | RemoveWindow w => sc ∖ {[w]}
  | NewPopUp w _ _ | NewLayerShell w _ _ _ => {[w]} ∪ sc
  | _ => sc
  end.
Definition closed_by (m : Msg) : gset nat := match m with WindowClosed w => {[w]} | _ => ∅ end.

Record tracked (b : Bar) (sc : gset nat) : Prop := {
  tracked_screen : sc = dom (popups b);
  tracked_hover w c : popups b !! w = Some c → ctx_kind c = Hover → hover_popup b = Some w;
  tracked_live w : hover_popup b = Some w → ∃ c, popups b !! w = Some c ∧ ctx_kind c = Hover;
  tracked_action v w c c' : popups b !! v = Some c → popups b !! w = Some c' → ctx_kind c = Action → ctx_kind c' = Action → v = w;
  tracked_fresh w : is_Some (popups b !! w) → w < next_id b
}.
(** What the invariant speaks of. *)
Definition same_popups (b b' : Bar) : Prop := popups b' = popups b ∧ hover_popup b' = hover_popup b ∧ next_id b' = next_id b.
Lemma tracked_same b b' sc : same_popups b b' → tracked b sc → tracked b' sc.
Proof. intros (H1 & H2 & H3) [T1 T2 T3 T4 T5]. split; rewrite ?H1, ?H2, ?H3; done. Qed.
Lemma screen_wayland rs sc : foldl on_screen sc (map Wayland rs) = sc.
Proof. induction rs; [done|]. cbn. done. Qed.
Lemma screen_removed l sc : foldl on_screen sc (map RemoveWindow l) = sc ∖ list_to_set l.
Proof. revert sc. induction l as [|w l IH]; intros sc; cbn; [set_solver|]. rewrite IH. set_solver. Qed.
Lemma pump_drag_same w b : same_popups b (pump_drag w b).1 ∧ ∀ sc, foldl on_screen sc (pump_drag w b).2 = sc.
Proof.
  unfold pump_drag. destruct (drag b) as [d|]; [|done]. destruct (Drag.pump _ _ _) as [d' rs]. cbn [fst snd]. split; [|intros; apply screen_wayland].
  by destruct (_ && _).
Qed.
Lemma closed_tracked b sc : tracked b sc → tracked (close_all_popups b).1 (foldl on_screen sc (close_all_popups b).2).
Proof.
  intros [T1 T2 T3 T4 T5]. unfold close_all_popups. cbn [fst snd]. rewrite screen_removed. split; cbn; try done.
  - rewrite T1, dom_empty_L. apply set_eq. intros x. rewrite elem_of_difference, elem_of_list_to_set, Sandbox.in_map_of.
    rewrite elem_of_dom. split; [|set_solver]. intros [[c Hc] H]. exfalso. apply H. exists (x, c). by rewrite elem_of_map_to_list.
  - intros w [c H]. by rewrite lookup_empty in H.
Qed.
Lemma closed_empty b : popups (close_all_popups b).1 = ∅ ∧ hover_popup (close_all_popups b).1 = None.
Proof. done. Qed.
(** Taking a popup back. *)
Lemma removed_tracked b sc w h :
  tracked b sc → h = (if bool_decide (hover_popup b = Some w) then None else hover_popup b) →
  tracked (set_popups (delete w (popups b)) h b) (sc ∖ {[w]}).
Proof.
  intros [T1 T2 T3 T4 T5] ->. split; cbn.
  - by rewrite T1, dom_delete_L.
  - intros v c [Hv H]%lookup_delete_Some Hk. specialize (T2 v c H Hk). rewrite T2. rewrite bool_decide_eq_false_2; [done|]. congruence.
  - intros v. destruct (bool_decide_reflect (hover_popup b = Some w)) as [|Hne]; [done|]. intros H. destruct (T3 v H) as (c & Hc & Hk).
    exists c. rewrite lookup_delete_ne by congruence. done.
  - intros v v' c c' [_ H]%lookup_delete_Some [_ H']%lookup_delete_Some. by apply (T4 v v' c c').
  - intros v [c [_ H]%lookup_delete_Some]. apply T5. by exists c.
Qed.
(** Opening one. *)
Lemma opened_tracked b sc c h :
  tracked b sc → let w := next_id b in
  (ctx_kind c = Hover → hover_popup b = None ∧ h = Some w) →
  (ctx_kind c = Action → h = hover_popup b ∧ ∀ v c', popups b !! v = Some c' → ctx_kind c' ≠ Action) →
  tracked (set_popups (<[w := c]> (popups b)) h (unique b).2) ({[w]} ∪ sc).
Proof.
  intros [T1 T2 T3 T4 T5] w Hh Ha. assert (popups b !! w = None) as Hw.
  { destruct (popups b !! w) eqn:E; [|done]. assert (w < next_id b) by (apply T5; by eexists). unfold w in *. lia. }
  split; cbn [popups set_popups unique fst snd hover_popup next_id].
  - by rewrite dom_insert_L, T1.
  - intros v c' [[<- <-]|[Hne H]]%lookup_insert_Some Hk; [by apply Hh|]. specialize (T2 v c' H Hk). destruct (ctx_kind c) eqn:Ek.
    + destruct (Ha eq_refl) as [-> _]. done.
    + destruct (Hh eq_refl) as [H0 _]. congruence.
  - intros v Hv. destruct (ctx_kind c) eqn:Ek.
    + destruct (Ha eq_refl) as [-> _]. destruct (T3 v Hv) as (c' & H & Hk). exists c'. split; [|done]. rewrite lookup_insert_ne; [done|]. congruence.
    + destruct (Hh eq_refl) as [_ ->]. injection Hv as <-. exists c. by rewrite lookup_insert_eq.
  - intros v v' d d' [[<- <-]|[Hne H]]%lookup_insert_Some [[<- <-]|[Hne' H']]%lookup_insert_Some Hk Hk'; [done|..].
    + destruct (Ha Hk) as [_ Hno]. by destruct (Hno v' d' H').
    + destruct (Ha Hk') as [_ Hno]. by destruct (Hno v d H).
    + by apply (T4 v v' d d').
  - intros v [c' [[<- <-]|[Hne H]]%lookup_insert_Some]; [unfold w; lia|]. assert (v < next_id b) by (apply T5; by eexists). lia.
Qed.

Section runs.
Context (from_str : text → result (list Stack.Item) text) (from_file_path : path → option (list Z)) (canonicalize : Stack.Disk → Stack.Link → option path).

Lemma drain_same w ops b : same_popups b (drain w ops b).1 ∧ ∀ ts sc, (drain w ops b).2 = Some ts → foldl on_screen sc ts = sc.
Proof.
  revert b. induction ops as [|[]]; intros b; cbn [drain].
  - done.
  - apply IHops.
  - destruct (bar_id b) eqn:E; cbn [bar_id set_visible]; rewrite E; [|exact (IHops (set_visible (negb (visible b)) b))].
    cbn [fst snd]. split; [done|]. intros ts sc H. by injection H as <-.
  - exact (IHops (set_palette (theme w) b)).
Qed.
Lemma tick_tracked w b sc : tracked b sc → tracked (tick from_str w b).1 (foldl on_screen sc (tick from_str w b).2).
Proof.
  intros T. unfold tick. destruct (drain_same w (ipc_rx b) b) as [H1 H2]. destruct (drain w (ipc_rx b) b) as [b' [ts|]]; cbn [fst snd] in *.
  - rewrite (H2 ts sc eq_refl). by apply (tracked_same b).
  - cbn. by apply (tracked_same b).
Qed.
Lemma pressed_tracked w i src b sc : tracked b sc →
  tracked (slot_pressed from_file_path canonicalize w i src b).1 (foldl on_screen sc (slot_pressed from_file_path canonicalize w i src b).2).
Proof.
  intros T. unfold slot_pressed. destruct (pump_drag_same w b) as [H1 H2]. destruct (pump_drag w b) as [b1 t1]. cbn [fst snd] in *.
  apply (tracked_same b b1) in T; [|done].
  assert (∃ b2 t2, match drag b1 with
    | None => (b1, [])
    | Some d => match drag_payload from_file_path canonicalize w b1 i src with
                | Ok p => (set_drag (Some (Drag.prepare p d)) b1, [])
                | Err e => (b1, [NotifySend e])
                end
    end = (b2, t2) ∧ tracked b2 sc ∧ ∀ sc, foldl on_screen sc t2 = sc) as (b2 & t2 & -> & T2 & H3).
  { destruct (drag b1) as [d|]; [|by eexists _, _]. destruct (drag_payload _ _ _ _ _ _); [|by eexists _, _].
    eexists _, _. split; [done|]. split; [|done]. by apply (tracked_same b1). }
  rewrite (surjective_pairing (close_all_popups _)). cbn [fst snd]. rewrite !foldl_app, H2, H3.
  apply closed_tracked. by apply (tracked_same b2).
Qed.
Lemma left_tracked w i src b sc : tracked b sc →
  tracked (slot_left_clicked w i src b).1 (foldl on_screen sc (slot_left_clicked w i src b).2).
Proof.
  intros T. unfold slot_left_clicked. destruct (pump_drag_same w b) as [H1 H2]. destruct (pump_drag w b) as [b1 t1]. cbn [fst snd] in *.
  destruct (negb _ || _); cbn [fst snd]; rewrite ?foldl_app, H2; by apply (tracked_same b).
Qed.
Lemma right_tracked i src b sc : tracked b sc →
  tracked (slot_right_clicked i src b).1 (foldl on_screen sc (slot_right_clicked i src b).2).
Proof.
  intros T. unfold slot_right_clicked. rewrite (surjective_pairing (close_all_popups _)).
  set (b1 := set_armed None _). assert (tracked b1 sc) as T1 by (by apply (tracked_same b)). apply closed_tracked in T1.
  destruct (closed_empty b1) as [He Hn]. cbn [unique fst snd]. rewrite foldl_app. cbn [foldl on_screen].
  apply (opened_tracked (close_all_popups b1).1 _ (mkCtx i src Action) (hover_popup (close_all_popups b1).1)); [done|done|]. intros _. split; [done|]. intros v c H.
  by rewrite He, lookup_empty in H.
Qed.
Lemma enter_tracked w i src b sc : tracked b sc →
  tracked (hover_enter w i src b).1 (foldl on_screen sc (hover_enter w i src b).2).
Proof.
  intros T. unfold hover_enter. destruct (_ || _); [done|]. destruct (arm_hover _ _ _ _) as [a fresh]. cbn [hover_popup set_armed].
  destruct (hover_popup b) as [p|] eqn:E; [|by apply (tracked_same b)]. destruct fresh; [|by apply (tracked_same b)].
  cbn [fst snd foldl on_screen popups set_armed].
  apply (removed_tracked (set_armed a b) sc p None); [by apply (tracked_same b)|]. by rewrite bool_decide_eq_true_2.
Qed.
Lemma exit_tracked i src b sc : tracked b sc →
  tracked (hover_exit i src b).1 (foldl on_screen sc (hover_exit i src b).2).
Proof.
  intros T. unfold hover_exit. set (b1 := set_armed _ b). assert (tracked b1 sc) as T1 by (by apply (tracked_same b)). clearbody b1. clear T b.
  destruct (hover_popup b1) as [p|] eqn:E; [|done]. destruct (popups b1 !! p) as [c|]; [|done]. destruct (_ && _); [|done].
  cbn [fst snd foldl on_screen]. apply removed_tracked; [done|]. by rewrite bool_decide_eq_true_2.
Qed.
(** The slot whose popup is shown is always there to be shown. *)
Lemma self_heal_idle b sc : tracked b sc → self_heal b = b.
Proof.
  intros T. unfold self_heal. destruct (hover_popup b) as [p|] eqn:E; [|done]. destruct (tracked_live _ _ T p E) as (c & -> & _).
  by rewrite bool_decide_eq_true_2.
Qed.
Lemma debounce_tracked w b sc : tracked b sc →
  tracked (debounce w b).1 (foldl on_screen sc (debounce w b).2).
Proof.
  intros T. unfold debounce. destruct (pump_drag_same w b) as [H1 H2]. destruct (pump_drag w b) as [b1 t1]. cbn [fst snd] in *.
  apply (tracked_same b b1) in T; [|done]. rewrite (self_heal_idle b1 sc T).
  destruct (bool_decide_reflect (is_Some (hover_popup b1))) as [|Hno]; [by rewrite H2|].
  destruct (hover_should_fire _ _ _) as [a|]; [|by rewrite H2]. unfold open_hover. cbn [unique fst snd]. rewrite foldl_app, H2. cbn [foldl on_screen].
  apply (opened_tracked b1 sc (mkCtx (arm_id a) (arm_source a) Hover) (Some (next_id b1))); [done| |done]. intros _. split; [|done]. by apply eq_None_not_Some.
Qed.
Lemma update_tracked w m b sc : tracked b sc →
  let r := update from_str from_file_path canonicalize w m b in tracked r.1 (foldl on_screen (sc ∖ closed_by m) r.2).
Proof.
  intros T. cbn zeta. destruct m; cbn [update closed_by]; try (rewrite difference_empty_L).
  - by apply tick_tracked.
  - destruct (pump_drag_same w b) as [H1 ->]. by apply (tracked_same b).
  - by apply pressed_tracked.
  - by apply left_tracked.
  - by apply right_tracked.
  - rewrite (surjective_pairing (close_all_popups b)). cbn [fst snd foldl on_screen]. by apply closed_tracked.
  - by apply closed_tracked.
  - unfold window_opened. destruct (_ && _); [|done]. by apply (tracked_same b).
  - cbn [fst snd foldl]. apply removed_tracked; done.
  - by apply (tracked_same b).
  - by apply (tracked_same b).
  - done.
  - by apply enter_tracked.
  - by apply exit_tracked.
  - by apply debounce_tracked.
Qed.

(** A run of the bar over the messages, with what it finds at each, and the
    popups on the screen. *)
Fixpoint run (ms : list (World * Msg)) (b : Bar) (sc : gset nat) : Bar * gset nat :=
  match ms with
  | [] => (b, sc)
  | (w, m) :: ms => let '(b, ts) := update from_str from_file_path canonicalize w m b in run ms b (foldl on_screen (sc ∖ closed_by m) ts)
  end.
Lemma run_tracked ms b sc : tracked b sc → tracked (run ms b sc).1 (run ms b sc).2.
Proof.
  revert b sc. induction ms as [|[w m] ms IH]; intros b sc T; cbn [run]; [done|].
  pose proof (update_tracked w m b sc T) as T'. cbn zeta in T'. destruct (update _ _ _ _ _ _) as [b' ts]. by apply IH.
Qed.
Lemma tracked_size b sc : tracked b sc → size sc ≤ 2.
Proof.
  intros [T1 T2 T3 T4 T5]. subst sc. set (h := match hover_popup b with Some p => {[p]} | None => ∅ end : gset nat).
  assert (size h ≤ 1) as Hh by (unfold h; destruct (hover_popup b); [by rewrite size_singleton|rewrite size_empty; lia]).
  set (A := dom (filter (λ kc, ctx_kind kc.2 = Action) (popups b)) : gset nat).
  assert (∀ v w, v ∈ A → w ∈ A → v = w) as Huniq.
  { intros v w. unfold A. rewrite !elem_of_dom. intros [c [H Hk]%map_lookup_filter_Some] [c' [H' Hk']%map_lookup_filter_Some].
    by apply (T4 v w c c'). }
  assert (size A ≤ 1) as Ha.
  { destruct (set_choose_or_empty A) as [[v Hv]|Hno]; [|by rewrite Hno, size_empty; lia].
    rewrite <- (size_singleton (C := gset nat) v). apply subseteq_size. intros w Hw. apply elem_of_singleton. by apply Huniq. }
  transitivity (size (A ∪ h)).
  - apply subseteq_size. intros w [c H]%elem_of_dom. apply elem_of_union. destruct (ctx_kind c) eqn:Ek.
    + left. unfold A. apply elem_of_dom. exists c. by apply map_lookup_filter_Some.
    + right. unfold h. rewrite (T2 w c H Ek). by apply elem_of_singleton.
  - rewrite size_union_alt. assert (size (h ∖ A) ≤ size h) by (apply subseteq_size; set_solver). lia.
Qed.

End runs.

(** A copy follows a press of the same slot, which it uses up. *)
Lemma click_copies_the_pressed w i src b j action src' :
  SpawnAction j action src' ∈ (slot_left_clicked w i src b).2 →
  pressed b = Some (i, src) ∧ j = i ∧ src' = src ∧ action = "copy" ∧ pressed (slot_left_clicked w i src b).1 = None.
Proof.
  unfold slot_left_clicked. assert (∀ rs, SpawnAction j action src' ∉ map Wayland rs) as Hrs by (intros rs (r & ? & _)%Sandbox.in_map_of; done).
  unfold pump_drag. destruct (drag b) as [d|] eqn:Ed.
  - destruct (Drag.pump _ _ _) as [d' rs]. cbn [fst snd]. destruct (Drag.dragged (Drag.gesture d') && negb (Drag.active d')) eqn:Eg.
    + cbn [pressed set_pressed]. rewrite bool_decide_eq_false_2 by done. cbn [negb orb snd]. intros H. by destruct (Hrs _ H).
    + cbn [pressed set_drag]. destruct (bool_decide_reflect (pressed b = Some (i, src))) as [Hp|Hp]; cbn [negb orb].
      * destruct (was_dragged _); cbn [fst snd]; [intros H; by destruct (Hrs _ H)|]. rewrite elem_of_app, !elem_of_cons.
        intros [H|[[= -> -> ->]|[H|H]]]; [by destruct (Hrs _ H)|done|done|by apply elem_of_nil in H].
      * cbn [snd]. intros H. by destruct (Hrs _ H).
  - cbn [fst snd pressed]. destruct (bool_decide_reflect (pressed b = Some (i, src))) as [Hp|Hp]; cbn [negb orb snd]; [|by intros H%elem_of_nil].
    destruct (was_dragged _); cbn [fst snd app]; [by intros H%elem_of_nil|]. rewrite !elem_of_cons.
    intros [[= -> -> ->]|[H|H]]; [done|done|by apply elem_of_nil in H].
Qed.
(** A preview opens only for a slot that the pointer has rested on. *)
Lemma preview_waits w b v sz z mg :
  NewLayerShell v sz z mg ∈ (debounce w b).2 →
  ∃ a, hover_armed b = Some a ∧ (from_millis HOVER_DEBOUNCE_MS <= saturating_since (now w) (armed_at a))%Z
    ∧ popups (debounce w b).1 !! v = Some (mkCtx (arm_id a) (arm_source a) Hover).
Proof.
  unfold debounce. assert (hover_armed (pump_drag w b).1 = hover_armed b ∧ NewLayerShell v sz z mg ∉ (pump_drag w b).2) as [Ha Hno].
  { unfold pump_drag. destruct (drag b); [|split; [done|by intros H%elem_of_nil]]. destruct (Drag.pump _ _ _). cbn [fst snd]. split; [by destruct (_ && _)|].
    by intros (r & ? & _)%Sandbox.in_map_of. }
  destruct (pump_drag w b) as [b1 t]. cbn [fst snd] in *. assert (hover_armed (self_heal b1) = hover_armed b1) as Hh.
  { unfold self_heal. destruct (hover_popup b1); [|done]. by destruct (bool_decide _). }
  destruct (bool_decide _); [done|]. unfold hover_should_fire. rewrite Hh, Ha. destruct (hover_armed b) as [a|]; [|done].
  destruct (Z.leb_spec (from_millis HOVER_DEBOUNCE_MS) (saturating_since (now w) (armed_at a))) as [Hle|]; [|done].
  cbn [open_hover unique fst snd]. rewrite elem_of_app, list_elem_of_singleton. intros [H|[= -> _ _ _]]; [done|]. exists a. split; [done|]. split; [done|].
  cbn. by rewrite lookup_insert_eq.
Qed.
(** A file whose name says text is kept with the kind of a snippet, which has a
    payload of its own: its preview has no lines. *)
Lemma text_files_have_no_preview d it :
  Stack.content_kind it = "text" → Stack.blobs d !! Stack.id it = None → read_item_text d it = None.
Proof. intros H Hb. unfold read_item_text, Stack.read_payload. by rewrite H, Hb. Qed.

Definition sample_file : Stack.Item := Stack.mkItem (lit "a1") Stack.User (Some (lit "/n.rs")) (lit "n.rs") 0 (Stack.sniff_kind (lit "/n.rs")) 2.
Definition sample_disk : Stack.Disk := Stack.mkDisk None ∅ ∅ ∅ {[components (lit "/n.rs") := Store.NFile (lit "fn")]}.
Definition sample_world (t : Z) : World := mkWorld (from_millis t) [] true None (λ _, None) None [] sample_disk.
Example source_file_shows_no_lines :
  Store.read (Stack.files sample_disk) (lit "/n.rs") = Ok (lit "fn")
  ∧ hover_stack_body (λ _, false) sample_disk (new_bar None [] [sample_file]) (lit "a1") = Header (lit "n.rs") (lit "/n.rs") 2.
Proof. by vm_compute. Qed.
(** A menu does not keep a preview from opening beside it. *)
Example menu_and_preview :
  let ms := [(sample_world 0, SlotRightClicked (lit "a1") Stacked); (sample_world 10, SlotHoverEnter (lit "b2") Stacked); (sample_world 300, HoverDebounceTick)] in
  (run (λ _, Ok []) (λ _, None) (λ _ _, None) ms (new_bar None [] []) ∅).2 = {[0; 1]}.
Proof. by vm_compute. Qed.
(** Before the window of the bar is known, an operation that hides the bar turns
    its flag and asks for nothing: the window keeps its size. *)
Example early_toggle :
  let b := set_rx [Stack.Toggle] (new_bar None [] []) in
  let r := tick (λ _, Ok []) (sample_world 0) b in visible r.1 = false ∧ r.2 = [].
Proof. by vm_compute. Qed.

End Bar.
