(* ===== verification/Sensors.v ===== *)
(** * Sensors

    [src/crates/sy-core/src/sensors/]: the readers behind the monitor. Each takes
    the text of a kernel file, of sysfs knobs or of a vendor tool apart
    ([cpu.rs], [mem.rs], [load.rs], [net.rs], [disk.rs], [gpu_amd.rs],
    [gpu_nvidia.rs], [npu_xdna.rs]). Floating point is the binary arithmetic of
    the standard library's [SpecFloat] at the widths of [f32] and [f64]. *)

From Stdlib Require Import SpecFloat.
From S2P Require Import Prelude Text Lists Paths Lines Wire PluginWire.
Import Text Lists Paths Lines Wire.
Local Open Scope string_scope.
Local Open Scope nat_scope.
Local Open Scope list_scope.
Local Open Scope sy_scope.

(** ** Floating point *)

Module Float.

Notation f32 := spec_float (only parsing).
Notation f64 := spec_float (only parsing).
(** [as f32] of an integer and of an [f64]; [as f64] of an integer. *)
Definition f32_of_Z (n : Z) : f32 := binary_normalize 24 128 n 0 false.
Definition f64_of_Z (n : Z) : f64 := binary_normalize 53 1024 n 0 false.
Definition f32_of_f64 (x : f64) : f32 :=
  match x with
  | S754_finite s m e => binary_normalize 24 128 (if s then Z.neg m else Z.pos m) e s
  | _ => x
  end.
Definition add32 : f32 → f32 → f32 := SFadd 24 128.
Definition div32 : f32 → f32 → f32 := SFdiv 24 128.
Definition mul64 : f64 → f64 → f64 := SFmul 53 1024.
Definition div64 : f64 → f64 → f64 := SFdiv 53 1024.
Definition zero32 : f32 := S754_zero false.
(** [Iterator::sum] starts from minus zero. *)
Definition sum32 (l : list f32) : f32 := foldl add32 (S754_zero true) l.
(** [f32::to_bits]: 32 bits. *)
Definition to_bits (x : f32) : Z :=
  let sign (s : bool) := (if s then 2 ^ 31 else 0)%Z in
  (match x with
   | S754_zero s => sign s
   | S754_infinity s => sign s + Z.shiftl 255 23
   | S754_nan => Z.shiftl 255 23 + 2 ^ 22
   | S754_finite s m e => sign s + if Z.pos m <? 2 ^ 23 then Z.pos m else Z.shiftl (e + 150) 23 + (Z.pos m - 2 ^ 23)
   end mod U32_MOD)%Z.
Lemma to_bits_range x : u32_range (to_bits x).
Proof. unfold u32_range, to_bits. apply Z.mod_pos_bound. done. Qed.

(** [str::parse::<f32>]: the nearest value of the decimal. *)
Definition nearest32 (neg : bool) (n : Z) (e10 : Z) : f32 :=
  if (n =? 0)%Z then S754_zero neg
  else
    let s := if neg then (-1)%Z else 1%Z in
    if (0 <=? e10)%Z then binary_normalize 24 128 (s * (n * 10 ^ e10))%Z 0%Z neg
    else
      let d := (10 ^ (- e10))%Z in
      let k := (Z.log2 d + 64)%Z in
      let q := (n * 2 ^ k / d)%Z in
      binary_normalize 24 128 (s * (2 * q + if (n * 2 ^ k mod d =? 0)%Z then 0 else 1))%Z (- k - 1)%Z neg.
Definition is_digit (c : Z) : bool := ((48 <=? c) && (c <=? 57))%Z.
Fixpoint take_digits (s : text) : text * text :=
  match s with
  | c :: r => if is_digit c then let '(a, b) := take_digits r in (c :: a, b) else ([], s)
  | [] => ([], [])
  end.
Definition split_sign (s : text) : bool * text :=
  match s with
  | c :: r => if (c =? 45)%Z then (true, r) else if (c =? 43)%Z then (false, r) else (false, s)
  | [] => (false, s)
  end.
Definition parse_exponent (s : text) : option Z :=
  match s with
  | [] => Some 0%Z
  | c :: r =>
      if ((c =? 101) || (c =? 69))%Z
      then let '(neg, r) := split_sign r in
           let '(d, r) := take_digits r in
           match d, r with _ :: _, [] => Some (if neg then (- read_nat d)%Z else read_nat d) | _, _ => None end
      else None
  end.
Definition is_word (s : text) (w : string) : bool := bool_decide (map to_ascii_lowercase s = lit w).
Definition parse_f32 (s : text) : option f32 :=
  let '(neg, r) := split_sign s in
  if is_word r "inf" || is_word r "infinity" then Some (S754_infinity neg)
  else if is_word r "nan" then Some S754_nan
  else
    let '(i, r) := take_digits r in
    let '(f, r) := match r with c :: r' => if (c =? 46)%Z then take_digits r' else ([], r) | [] => ([], r) end in
    match i ++ f with
    | [] => None
    | _ => e ← parse_exponent r; Some (nearest32 neg (read_nat (i ++ f)) (e - Z.of_nat (length f)))
    end.
Example parse_loads :
  to_bits <$> parse_f32 (lit "0.25") = Some 1048576000%Z ∧ to_bits <$> parse_f32 (lit "1.10") = Some 1066192077%Z
  ∧ to_bits <$> parse_f32 (lit "-3e2") = Some 3281387520%Z ∧ parse_f32 (lit ".") = None ∧ parse_f32 (lit "1x") = None.
Proof. by vm_compute. Qed.
End Float.
Import Float.

(** ** The readers *)

Module Sensors.

(** [str::split_ascii_whitespace]. *)
Definition is_ascii_whitespace (c : Z) : bool := ((c =? 32) || (c =? 9) || (c =? 10) || (c =? 12) || (c =? 13))%Z.
Fixpoint split_ascii (acc s : text) : list text :=
  match s with
  | [] => flush acc
  | c :: s => if is_ascii_whitespace c then flush acc ++ split_ascii [] s else split_ascii (acc ++ [c]) s
  end.
Definition split_ascii_whitespace (s : text) : list text := split_ascii [] s.
Definition parse_u64 (s : text) : option Z := parse_usize s.
Definition parse_below (b : Z) (s : text) : option Z := n ← parse_usize s; if (n <? b)%Z then Some n else None.
Definition parse_u32 : text → option Z := parse_below U32_MOD.
Definition parse_u8 : text → option Z := parse_below 256.
Definition parse_i32 (s : text) : option Z :=
  match s with
  | c :: r => if (c =? 45)%Z
              then match r with c' :: _ => if (c' =? 43)%Z then None else n ← parse_usize r; if (n <=? 2 ^ 31)%Z then Some (- n)%Z else None | [] => None end
              else parse_below (2 ^ 31) s
  | [] => None
  end.
Definition saturating_sub (a b : Z) : Z := Z.max 0 (a - b).

(** *** [cpu.rs] *)

Record CpuSample : Type := mkCpu { per_core_util_pct : list f32; freq_mhz : list Z; cpu_temp_c : option f32 }.
Record CoreTicks : Type := mkTicks { idx : Z; busy : Z; total : Z }.
Definition scrape_line (l : text) : option CoreTicks :=
  rest ← strip_prefix (lit "cpu") l;
  first ← head rest;
  if negb (is_digit first) then None
  else
    match split_ascii_whitespace rest with
    | [] => None
    | h :: fields =>
        i ← parse_u32 h;
        match omap parse_u64 fields with
        | n0 :: n1 :: n2 :: n3 :: n4 :: ns =>
            let idle_and_wait := wrapping_add64 n3 n4 in
            let t := foldl wrapping_add64 0%Z (n0 :: n1 :: n2 :: n3 :: n4 :: ns) in
            Some (mkTicks i (saturating_sub t idle_and_wait) t)
        | _ => None
        end
    end.
Definition scrape_cores (raw : text) : list CoreTicks := omap scrape_line (lines raw).
Definition util_pct (p c : CoreTicks) : f32 :=
  let d_total := saturating_sub (total c) (total p) in
  if (d_total =? 0)%Z then zero32
  else f32_of_f64 (mul64 (div64 (f64_of_Z (saturating_sub (busy c) (busy p))) (f64_of_Z d_total)) (f64_of_Z 100)).
Definition same_core (i : Z) (p : CoreTicks) : bool := (idx p =? i)%Z.
Definition parse_proc_stat (prev curr : text) : CpuSample :=
  let prev_cores := scrape_cores prev in
  mkCpu (omap (λ c, (λ p, util_pct p c) <$> List.find (same_core (idx c)) prev_cores) (scrape_cores curr)) [] None.

(** *** [mem.rs] and [load.rs] *)

Record MemSample : Type := mkMem { total_mib : Z; used_mib : Z; swap_used_mib : Z }.
Definition value_of (key : string) (l : text) : option (option Z) :=
  rest ← strip_prefix (lit key) l; rest ← strip_prefix (lit ":") rest;
  Some (h ← head (split_ascii_whitespace (trim rest)); parse_u64 h).
(** The first line of the key decides. *)
Fixpoint read_kb_lines (ls : list text) (key : string) : option Z :=
  match ls with
  | [] => None
  | l :: ls => match value_of key l with Some v => v | None => read_kb_lines ls key end
  end.
Definition read_kb (raw : text) (key : string) : option Z := read_kb_lines (lines raw) key.
Definition parse_meminfo (raw : text) : option MemSample :=
  t ← read_kb raw "MemTotal"; a ← read_kb raw "MemAvailable"; st ← read_kb raw "SwapTotal"; sf ← read_kb raw "SwapFree";
  Some (mkMem (t / 1024) (saturating_sub t a / 1024) (saturating_sub st sf / 1024)).
Record LoadSample : Type := mkLoad { one : f32; five : f32; fifteen : f32 }.
Definition parse_loadavg (raw : text) : option LoadSample :=
  match split_ascii_whitespace raw with
  | a :: b :: c :: _ => x ← parse_f32 a; y ← parse_f32 b; z ← parse_f32 c; Some (mkLoad x y z)
  | _ => None
  end.

(** *** [net.rs] and [disk.rs] *)

Record NetInterface : Type := mkNet { net_name : text; rx_bytes : Z; tx_bytes : Z }.
Definition net_line (l : text) : option NetInterface :=
  '(h, rest) ← Transport.split_once 58 l;
  let n := trim h in
  if bool_decide (n = []) then None
  else
    let nums := omap parse_u64 (split_ascii_whitespace rest) in
    rx ← nums !! 0; tx ← nums !! 8; Some (mkNet n rx tx).
Definition parse_proc_net_dev (raw : text) : list NetInterface := omap net_line (drop 2 (lines raw)).
Record DiskDevice : Type := mkDisk {
  disk_name : text; reads : Z; writes : Z; sectors_read : Z; sectors_written : Z; io_in_progress : Z;
  logical_block_size : option Z; nr_requests : option Z
}.
Definition disk_line (l : text) : option DiskDevice :=
  let fields := split_ascii_whitespace l in
  if length fields <? 14 then None
  else
    let f i := fields !! i ≫= parse_u64 in
    n ← fields !! 2; r ← f 3; sr ← f 5; w ← f 7; sw ← f 9; io ← f 11; Some (mkDisk n r w sr sw io None None).
Definition parse_diskstats (raw : text) : list DiskDevice := omap disk_line (lines raw).
(** [sample]: the knobs of each device; [sysfs] reads a file below [/sys/block]. *)
Definition read_queue_u32 (sysfs : text → option text) (n : text) (knob : string) : option Z :=
  b ← sysfs (lit "/sys/block/" ++ n ++ lit "/queue/" ++ lit knob); parse_u32 (trim b).
Definition sample_disk (sysfs : text → option text) (diskstats : option text) : option (list DiskDevice) :=
  raw ← diskstats;
  Some (map (λ d, mkDisk (disk_name d) (reads d) (writes d) (sectors_read d) (sectors_written d) (io_in_progress d)
               (read_queue_u32 sysfs (disk_name d) "logical_block_size") (read_queue_u32 sysfs (disk_name d) "nr_requests"))
          (parse_diskstats raw)).

(** *** [gpu_amd.rs] and [gpu_nvidia.rs] *)

Record GpuAmdSample : Type := mkAmd {
  amd_name : text; busy_pct : option Z; vram_used_bytes : option Z; vram_total_bytes : option Z; amd_temp_c : option f32; amd_power_w : option f32
}.
Definition parse_drm_card (n : text) (files : string → option text) : GpuAmdSample :=
  let get k (p : text → option Z) := s ← files k; p (trim s) in
  mkAmd n (get "gpu_busy_percent" parse_u8) (get "mem_info_vram_used" parse_u64) (get "mem_info_vram_total" parse_u64)
    ((λ mdeg, div32 (f32_of_Z mdeg) (f32_of_Z 1000)) <$> get "temp1_input" parse_i32)
    ((λ uw, div32 (f32_of_Z uw) (f32_of_Z 1000000)) <$> get "power1_average" parse_u64).
(** Whether a directory of [/sys/class/drm] is a card. *)
Definition is_card (n : text) : bool := match strip_prefix (lit "card") n with Some s => forallb is_digit s | None => false end.
Record GpuNvidiaSample : Type := mkNvidia {
  nv_index : Z; nv_name : text; nv_util_pct : option Z; nv_vram_used_mib : option Z; nv_vram_total_mib : option Z;
  nv_temp_c : option f32; nv_power_w : option f32
}.
Definition smi_line (l : text) : option GpuNvidiaSample :=
  match map trim (split_on 44 (trim l)) with
  | [i; n; u; mu; mt; t; p] =>
      i ← parse_u32 i;
      if bool_decide (n = []) then None
      else Some (mkNvidia i n (parse_u8 u) (parse_u64 mu) (parse_u64 mt) (parse_f32 t) (parse_f32 p))
  | _ => None
  end.
Definition parse_smi_csv (raw : text) : list GpuNvidiaSample := omap smi_line (lines raw).

(** *** [npu_xdna.rs] *)

Inductive NpuSource : Type := V1 | AmdgpuTopFallback.
Record NpuXdnaSample : Type := mkNpu {
  present : bool; active : bool; npu_util_pct : Z; fw_version : option text; holders : list text; bdf : option text;
  npu_power_w : option f32; npu_source : NpuSource
}.
Definition binary_util (active_now : bool) : Z := if active_now then 100%Z else 0%Z.
Definition parse_pm_runtime (prev : option (Z * Z)) (curr : Z * Z) (active_now : bool) : Z :=
  match prev with
  | None => binary_util active_now
  | Some (pa, ps) =>
      let d_active := saturating_sub (curr.1) pa in
      let d_suspended := saturating_sub (curr.2) ps in
      let t := wrapping_add64 d_active d_suspended in
      if (t =? 0)%Z then binary_util active_now else Z.min ((d_active * 100) mod U64_MOD / t) 100
  end.
Definition parse_cache (raw : text) : option (Z * Z) :=
  match split_whitespace raw with
  | a :: s :: _ => a ← parse_u64 a; s ← parse_u64 s; Some (a, s)
  | _ => None
  end.
(** [try_v1], over the knobs of the device and the cache; [None] where a read
    fails. It leaves the counters in the cache. *)
Record V1Reads : Type := mkReads {
  accel_exists : bool; runtime_active : option text; runtime_suspended : option text; power_state : option text;
  cached : option text; fw_file : option text; device_link : option text
}.
Definition read_pm_counters (r : V1Reads) : option (Z * Z) :=
  a ← runtime_active r; s ← runtime_suspended r; a ← parse_u64 (trim a); s ← parse_u64 (trim s); Some (a, s).
Definition non_empty (s : text) : option text := if bool_decide (s = []) then None else Some s.
Fixpoint trim_zeros (fuel : nat) (s : text) : text :=
  match fuel with
  | 0 => s
  | S k => match strip_prefix (lit "0000:") s with Some r => trim_zeros k r | None => s end
  end.
Definition read_bdf (r : V1Reads) : option text := l ← device_link r; n ← file_name l; Some (trim_zeros (length n) n).
Definition cache_line (c : Z * Z) : text := show_nat c.1 ++ [32]%Z ++ show_nat c.2 ++ [10]%Z.
Definition try_v1 (r : V1Reads) : option (NpuXdnaSample * text) :=
  if negb (accel_exists r) then None
  else
    curr ← read_pm_counters r;
    let act := match power_state r with Some v => bool_decide (trim v = lit "D0") | None => false end in
    let prev := cached r ≫= parse_cache in
    Some (mkNpu true act (parse_pm_runtime prev curr act) (f ← fw_file r; non_empty (trim f)) [] (read_bdf r) None V1, cache_line curr).
(** [parse_amdgpu_top_xdna]; the JSON reader and [as_f64] are those of serde. *)
Definition parse_amdgpu_top_xdna (from_str : text → option json) (as_f64 : json → option f64) (raw : text) : option NpuXdnaSample :=
  v ← from_str raw;
  let xdna := default v (jget "xdna" v) in
  u ← match jget "util_pct" xdna ≫= as_u64 with Some u => Some u | None => jget "utilization" xdna ≫= as_u64 end;
  let u := Z.min u 100 in
  Some (mkNpu true (default (0 <? u)%Z (jget "active" xdna ≫= json_bool)) u (lit <$> (jget "fw_version" xdna ≫= json_str)) [] None
          (f32_of_f64 <$> (jget "power_w" xdna ≫= as_f64)) AmdgpuTopFallback).
Definition absent : NpuXdnaSample := mkNpu false false 0 None [] None None V1.
Definition with_holders (hs : list text) (s : NpuXdnaSample) : NpuXdnaSample :=
  mkNpu (present s) (active s) (npu_util_pct s) (fw_version s) hs (bdf s) (npu_power_w s) (npu_source s).
(** [sample]; [top] is what the tool prints, [hs] who holds the device. *)
Definition sample_npu (r : V1Reads) (top : option NpuXdnaSample) (hs : list text) : NpuXdnaSample :=
  let s := match try_v1 r with Some (s, _) => s | None => default absent top end in
  if present s then with_holders hs s else s.

(** *** What the readers promise *)
Lemma parse_digits_range s : ∀ acc n, (0 <= acc < U64_MOD)%Z → parse_digits acc s = Some n → u64_range n.
Proof.
  induction s as [|c s IH]; intros acc n Ha; cbn [parse_digits]; [by intros [= <-]|].
  destruct ((48 <=? c) && (c <=? 57))%Z eqn:Ec; [|done]. destruct (Z.ltb_spec (undigit acc c) U64_MOD) as [Hlt|]; [|done].
  apply IH. unfold undigit in *. lia.
Qed.
Lemma parse_usize_range s n : parse_usize s = Some n → u64_range n.
Proof.
  assert (0 <= 0 < U64_MOD)%Z as H0 by done. unfold parse_usize. destruct s as [|c s]; [done|].
  destruct (c =? 43)%Z; [|by apply parse_digits_range]. destruct s; [done|]. by apply parse_digits_range.
Qed.
Lemma read_kb_range raw key n : read_kb raw key = Some n → u64_range n.
Proof.
  unfold read_kb. induction (lines raw) as [|l ls IH]; cbn [read_kb_lines]; [done|]. destruct (value_of key l) as [o|] eqn:Ev; [|done].
  intros ->. unfold value_of in Ev. destruct (strip_prefix (lit key) l) as [r|]; [|done]. cbn [mbind option_bind] in Ev.
  destruct (strip_prefix (lit ":") r) as [r'|]; [|done]. cbn [mbind option_bind] in Ev. injection Ev as Ev.
  destruct (head _) as [w|]; [|done]. by apply parse_usize_range in Ev.
Qed.
(** A used figure never exceeds the total. *)
Lemma used_within_total raw s : parse_meminfo raw = Some s → (0 <= used_mib s <= total_mib s)%Z.
Proof.
  unfold parse_meminfo. destruct (read_kb raw "MemTotal") as [t|] eqn:Et; [|done]. destruct (read_kb raw "MemAvailable") as [a|] eqn:Ea; [|done].
  cbn [mbind option_bind]. destruct (read_kb raw "SwapTotal") as [st|]; [|done]. cbn [mbind option_bind]. destruct (read_kb raw "SwapFree"); [|done].
  cbn [mbind option_bind]. intros E. injection E as <-. cbn [used_mib total_mib].
  apply read_kb_range in Et, Ea. unfold u64_range, saturating_sub in *. split; [apply Z.div_pos; lia|]. apply Z.div_le_mono; lia.
Qed.
Lemma binary_util_percent b : (0 <= binary_util b <= 100)%Z.
Proof. destruct b; cbn; lia. Qed.
(** The utilisation of the accelerator is a percentage, whatever the counters and
    the cache hold. *)
Lemma pm_runtime_percent prev curr b : (0 <= parse_pm_runtime prev curr b <= 100)%Z.
Proof.
  unfold parse_pm_runtime. destruct prev as [[pa ps]|]; [|apply binary_util_percent].
  destruct (Z.eqb_spec (wrapping_add64 (saturating_sub curr.1 pa) (saturating_sub curr.2 ps)) 0) as [|Hn]; [apply binary_util_percent|].
  unfold wrapping_add64 in *. pose proof (Z.mod_pos_bound (saturating_sub curr.1 pa + saturating_sub curr.2 ps) U64_MOD eq_refl).
  split; [|lia]. apply Z.min_glb; [|lia]. apply Z.div_pos; [apply Z.mod_pos_bound; done|lia].
Qed.
(** While a core loses no idle time between the reads, it is not busier than the
    time that passed; the kernel lets the time it waits for devices go down, and
    then the figure is above a hundred. *)
Lemma busy_within_total (p c : CoreTicks) (ip ic : Z) :
  busy p = saturating_sub (total p) ip → busy c = saturating_sub (total c) ic → (ip <= ic)%Z → (ip <= total p)%Z → (ic <= total c)%Z →
  (saturating_sub (busy c) (busy p) <= saturating_sub (total c) (total p))%Z.
Proof. unfold saturating_sub. lia. Qed.
Example util_above_a_hundred :
  map to_bits (per_core_util_pct (parse_proc_stat (lit "cpu0 50 0 0 40 10") (lit "cpu0 70 0 0 40 0"))) = [to_bits (f32_of_Z 200)].
Proof. by vm_compute. Qed.
(** The cores come in the order of the file. *)
Example cores_keep_the_file_order :
  let s := lit "cpu1 1 0 0 1 0" ++ [10]%Z ++ lit "cpu0 1 0 0 0 1" in map idx (scrape_cores s) = [1; 0]%Z.
Proof. by vm_compute. Qed.
(** A counter that does not read moves the ones after it: the row is kept, with
    the packets in the place of the bytes. *)
Example malformed_counter_shifts :
  net_line (lit "eth0: x 2 3 4 5 6 7 8 9 10 11") = Some (mkNet (lit "eth0") 2 10)
  ∧ net_line (lit "eth0: 1 2 3 4 5 6 7 8 9 10 11") = Some (mkNet (lit "eth0") 1 9).
Proof. by vm_compute. Qed.
End Sensors.
