(* ===== verification/Monitor.v ===== *)
(** * The system monitor

    [src/crates/sy-monitor/src/mon/] with the snapshot of
    [src/crates/sy-core/src/mon/snapshot.rs]: the aggregator, which samples the
    host every second, pushes a row into the history ring, scrapes the planes and
    publishes a snapshot ([collect/]); the methods it serves over it; the tile;
    and the popup with its keys, its filter and its stream ([app.rs], [state.rs],
    [view/filter.rs]). *)

From Stdlib Require Import SpecFloat.
From S2P Require Import Prelude Text Lists Paths Lines Utf8 Vocab Wire Ring PluginWire AgtSandbox Sensors.
Import Text Lists Paths Lines Wire Float.
Local Open Scope string_scope.
Local Open Scope nat_scope.
Local Open Scope list_scope.
Local Open Scope sy_scope.

(** ** The snapshot *)

Module Snapshot.

Record CpuPanel : Type := mkCpu { per_core_util_pct : list f32; freq_mhz : list Z; temp_c : f32; load_avg : f32 * f32 * f32 }.
Record MemPanel : Type := mkMem { total_mib : Z; used_mib : Z; swap_used_mib : Z }.
Record GpuPanel : Type := mkGpu { gpu_vendor : string; gpu_name : text; gpu_util_pct : Z; vram_used_mib : Z; vram_total_mib : Z; gpu_temp_c : f32; gpu_power_w : f32 }.
Record NpuPanel : Type := mkNpu { npu_vendor : string; npu_util_pct : Z; npu_active : bool; npu_fw_version : text; npu_power_w : f32; npu_holders : list text }.
Record NetIfacePanel : Type := mkNet { net_name : text; rx_bytes : Z; tx_bytes : Z }.
Record DiskDevicePanel : Type := mkDisk { disk_name : text; reads : Z; writes : Z; io_in_progress : Z }.
Record AiplanePanel : Type := mkAiplane { queue_depth : gmap string Z; warm : gmap string Z; latency_p99_ms : gmap string f32; errors_total : Z }.
Record KnowledgePanel : Type := mkKnowledge { collections : Z; docs_indexed : Z; embed_throughput : f32; search_qps : f32 }.
Record AgentsPanel : Type := mkAgents { running : Z; rss_total_mib : Z; policy_denials_recent : Z }.
Record PlanePanel : Type := mkPlane { plane_name : string; plane_state : string; restarts : Z }.
Record MonError : Type := mkError { plane : string; kind : string; message : string }.
Record SystemSnapshot : Type := mkSnapshot {
  schema_version : Z; captured_at_ms : Z; cpu : CpuPanel; mem : MemPanel; gpu : list GpuPanel; npu : NpuPanel;
  net : list NetIfacePanel; disk : list DiskDevicePanel; aiplane : AiplanePanel; knowledge : KnowledgePanel;
  agents : AgentsPanel; planes : list PlanePanel; errors : list MonError
}.
Definition SCHEMA_VERSION : Z := 2.
Definition default_snapshot : SystemSnapshot :=
  mkSnapshot SCHEMA_VERSION 0 (mkCpu [] [] zero32 (zero32, zero32, zero32)) (mkMem 0 0 0) [] (mkNpu "" 0 false [] zero32 []) [] []
    (mkAiplane ∅ ∅ ∅ 0) (mkKnowledge 0 0 zero32 zero32) (mkAgents 0 0 0) [] [].
End Snapshot.

(** ** The aggregator *)

Module Collect.
Import Snapshot.

(** *** A sample of the host, and its row *)

Record HostSample : Type := mkHost {
  h_cpu : option Sensors.CpuSample; h_mem : option Sensors.MemSample; h_load : option Sensors.LoadSample;
  h_net : option (list Sensors.NetInterface); h_disk : option (list Sensors.DiskDevice);
  h_amd : list Sensors.GpuAmdSample; h_nvidia : list Sensors.GpuNvidiaSample; h_npu : option Sensors.NpuXdnaSample
}.
Definition no_sample : HostSample := mkHost None None None None None [] [] None.
Definition RING_METRICS : nat := 16.
Definition mean32 (l : list f32) : f32 := div32 (sum32 l) (f32_of_Z (Z.of_nat (length l))).
(** [row[i] = v], for a row that has the column. *)
Definition set_col (i : nat) (v : f32) (row : list f32) : list f32 := <[i := v]> row.
Definition project_row (s : HostSample) (n_metrics : nat) : list f32 :=
  let row := replicate n_metrics zero32 in
  let row := match h_cpu s with
             | Some c => match Sensors.per_core_util_pct c with [] => row | u => set_col 0 (mean32 u) row end
             | None => row
             end in
  let row := match h_mem s with
             | Some m => set_col 2 (f32_of_Z (Sensors.swap_used_mib m)) (set_col 1 (f32_of_Z (Sensors.used_mib m)) row)
             | None => row
             end in
  match h_load s with Some l => set_col 3 (Sensors.one l) row | None => row end.

(** *** Scraping a plane *)

Definition HEADER_BODY_DELIM : list Z := [13; 10; 13; 10]%Z.
(** What [fetch_metrics_body] makes of the bytes read to the end. *)
Definition body_of (buf : list Z) : result (list Z) string :=
  match Transport.find_subslice buf HEADER_BODY_DELIM with
  | Some i => Ok (drop (i + length HEADER_BODY_DELIM) buf)
  | None => Err "response missing CRLFCRLF header/body delimiter"
  end.
(** A sample of an exposition: its name, its labels and a gauge, if it is one,
    already clamped to [u32] ([v.max(0.0).min(u32::MAX as f64) as u32]). *)
Record PromSample : Type := mkProm { metric : string; labels : gmap string string; gauge : option Z }.
Record PlaneMetrics : Type := mkMetrics { metrics_plane : string; samples : list PromSample }.
Section scrape.
(** The exposition parser of the prometheus_parse crate, over the lines. *)
Context (prometheus : list text → option (list PromSample)).
Definition parse_body (body : list Z) : result (list PromSample) string :=
  match Utf8.from_utf8 body with
  | None => Err "metrics body is not UTF-8"
  | Some t => match prometheus (lines t) with Some l => Ok l | None => Err "prometheus_parse rejected exposition body" end
  end.
(** How the exchange with the socket of a plane ends. *)
Inductive Exchange : Type := Failed (e : string) | ReadAll (buf : list Z) | Elapsed.
Definition scrape_plane (p : string) (x : Exchange) : result PlaneMetrics string :=
  match x with
  | Failed e => Err e
  | ReadAll buf => try body <- body_of buf; try l <- parse_body body; Ok (mkMetrics p l)
  | Elapsed => Err "scrape >500ms"
  end.
Definition scrape_all (ps : list (string * Exchange)) : list (string * result PlaneMetrics string) :=
  map (λ px, (px.1, scrape_plane px.1 px.2)) ps.
End scrape.

(** *** The snapshot of a tick *)

Definition KIND_SCRAPE_FAILED : string := "scrape_failed".
Definition KIND_TIMEOUT : string := "timeout".
Definition HOST_PLANE : string := "host".
Definition KNOWN_PLANES : list string := ["aiplane"; "knowledge"; "agt"; "supervisor"; "stack-bar"].
Definition amd_panel (a : Sensors.GpuAmdSample) : GpuPanel :=
  mkGpu "amd" (Sensors.amd_name a) (default 0%Z (Sensors.busy_pct a)) (default 0%Z (Sensors.vram_used_bytes a) / (1024 * 1024))%Z
    (default 0%Z (Sensors.vram_total_bytes a) / (1024 * 1024))%Z (default zero32 (Sensors.amd_temp_c a)) (default zero32 (Sensors.amd_power_w a)).
Definition nvidia_panel (n : Sensors.GpuNvidiaSample) : GpuPanel :=
  mkGpu "nvidia" (Sensors.nv_name n) (default 0%Z (Sensors.nv_util_pct n)) (default 0%Z (Sensors.nv_vram_used_mib n))
    (default 0%Z (Sensors.nv_vram_total_mib n)) (default zero32 (Sensors.nv_temp_c n)) (default zero32 (Sensors.nv_power_w n)).
Definition cpu_panel (h : HostSample) (p : CpuPanel) : CpuPanel :=
  let p := match h_cpu h with
           | Some c => mkCpu (Sensors.per_core_util_pct c) (Sensors.freq_mhz c) (default (temp_c p) (Sensors.cpu_temp_c c)) (load_avg p)
           | None => p
           end in
  match h_load h with
  | Some l => mkCpu (per_core_util_pct p) (freq_mhz p) (temp_c p) (Sensors.one l, Sensors.five l, Sensors.fifteen l)
  | None => p
  end.
Definition apply_host (s : SystemSnapshot) (h : HostSample) : SystemSnapshot :=
  mkSnapshot (schema_version s) (captured_at_ms s) (cpu_panel h (cpu s))
    (match h_mem h with Some m => mkMem (Sensors.total_mib m) (Sensors.used_mib m) (Sensors.swap_used_mib m) | None => mem s end)
    (map amd_panel (h_amd h) ++ map nvidia_panel (h_nvidia h))
    (match h_npu h with
     | Some n => mkNpu "amd-xdna" (Sensors.npu_util_pct n) (Sensors.active n) (default [] (Sensors.fw_version n)) (default zero32 (Sensors.npu_power_w n)) (Sensors.holders n)
     | None => npu s
     end)
    (match h_net h with Some l => map (λ i, mkNet (Sensors.net_name i) (Sensors.rx_bytes i) (Sensors.tx_bytes i)) l | None => net s end)
    (match h_disk h with Some l => map (λ d, mkDisk (Sensors.disk_name d) (Sensors.reads d) (Sensors.writes d) (Sensors.io_in_progress d)) l | None => disk s end)
    (aiplane s) (knowledge s) (agents s) (planes s) (errors s).
Definition set_queue_depth (m : gmap string Z) (s : SystemSnapshot) : SystemSnapshot :=
  mkSnapshot (schema_version s) (captured_at_ms s) (cpu s) (mem s) (gpu s) (npu s) (net s) (disk s)
    (mkAiplane m (warm (aiplane s)) (latency_p99_ms (aiplane s)) (errors_total (aiplane s))) (knowledge s) (agents s) (planes s) (errors s).
Definition apply_sample (s : SystemSnapshot) (x : PromSample) : SystemSnapshot :=
  if String.eqb (metric x) "sy_queue_depth"
  then match labels x !! "kind", gauge x with
       | Some k, Some v => set_queue_depth (<[k := v]> (queue_depth (aiplane s))) s
       | _, _ => s
       end
  else s.
Definition apply_plane (s : SystemSnapshot) (m : PlaneMetrics) : SystemSnapshot :=
  if String.eqb (metrics_plane m) "aiplane" then foldl apply_sample s (samples m) else s.
Definition set_errors (es : list MonError) (s : SystemSnapshot) : SystemSnapshot :=
  mkSnapshot (schema_version s) (captured_at_ms s) (cpu s) (mem s) (gpu s) (npu s) (net s) (disk s) (aiplane s) (knowledge s) (agents s) (planes s) es.
Definition set_captured (t : Z) (s : SystemSnapshot) : SystemSnapshot :=
  mkSnapshot (schema_version s) t (cpu s) (mem s) (gpu s) (npu s) (net s) (disk s) (aiplane s) (knowledge s) (agents s) (planes s) (errors s).
Definition fold_plane (st : SystemSnapshot * list MonError) (p : string * result PlaneMetrics string) : SystemSnapshot * list MonError :=
  match p.2 with
  | Ok m => (apply_plane st.1 m, st.2)
  | Err e => (st.1, st.2 ++ [mkError p.1 KIND_SCRAPE_FAILED e])
  end.
Definition fold_into_snapshot (h : HostSample) (ps : list (string * result PlaneMetrics string)) (es : list MonError) : SystemSnapshot * list MonError :=
  let '(s, es) := foldl fold_plane (apply_host default_snapshot h, es) ps in (set_errors es s, es).

(** How the sampler ends within its 500 ms. *)
Inductive Sampled : Type := Took (h : HostSample) | Panicked (e : string) | TimedOut.
Definition sample_of (x : Sampled) : HostSample * list MonError :=
  match x with
  | Took h => (h, [])
  | Panicked e => (no_sample, [mkError HOST_PLANE "panic" ("host sampler panicked: " ++ e)])
  | TimedOut => (no_sample, [mkError HOST_PLANE KIND_TIMEOUT "host sampler exceeded 500 ms budget"])
  end.
(** [run_once]: a tick, with the ring and its file. A row that cannot be pushed
    is an error of the tick. *)
Definition row_of (h : HostSample) (n : nat) : list Z := map to_bits (project_row h n).
Definition push_row (row : list Z) (es : list MonError) (r : Ring.Ring) (fs : Ring.FS) : Ring.Ring * Ring.FS * list MonError :=
  match Ring.push row r fs with
  | (Ok r, fs) => (r, fs, es)
  | (Err _, fs) => (r, fs, es ++ [mkError HOST_PLANE "ring_push_failed" "push"])
  end.
Definition run_once (n_metrics : nat) (x : Sampled) (ps : list (string * result PlaneMetrics string)) (now_ms : Z) (r : Ring.Ring) (fs : Ring.FS) :
    Ring.Ring * Ring.FS * SystemSnapshot * list MonError :=
  let '(h, es) := sample_of x in
  let '(r, fs, es) := push_row (row_of h n_metrics) es r fs in
  let '(s, es) := fold_into_snapshot h ps es in
  (r, fs, set_captured now_ms s, es).
(** [emit_supervisor_plane_states]. *)
Definition supervisor_plane_states (plane_paths : list string) (es : list MonError) : list (string * string) :=
  let failed := map plane (List.filter (λ e, String.eqb (kind e) KIND_SCRAPE_FAILED) es) in
  map (λ p, (p, if existsb (String.eqb p) failed then "failed" else "ready")) plane_paths.
Definition KNOWN_STATES : list string := ["ready"; "stopped"; "starting"; "failed"; "not_installed"; "active"; "inactive"; "activating"].
(** [emit_plane_state]: the gauges that are set. *)
Definition emit_plane_state (records : list (string * string)) : list (string * string * bool) :=
  flat_map (λ r, map (λ s, (r.1, s, String.eqb s r.2)) KNOWN_STATES
                 ++ if existsb (String.eqb r.2) KNOWN_STATES then [] else [(r.1, r.2, true)]) records.
End Collect.

(** ** The methods of the aggregator *)

Module Serve.
Import Snapshot Collect.

Definition METHOD_SNAPSHOT : string := "system.mon.snapshot".
Definition METHOD_SUBSCRIBE : string := "system.mon.subscribe".
Definition METHOD_HISTORY : string := "system.mon.history".
Definition METRIC_COLUMNS : list (string * nat) := [("sy_cpu_util", 0); ("sy_mem_used_mib", 1); ("sy_swap_used_mib", 2); ("sy_load_avg_1m", 3)].
Fixpoint find_column (m : string) (l : list (string * nat)) : option nat :=
  match l with [] => None | (n, i) :: l => if String.eqb n m then Some i else find_column m l end.
Definition column_for_metric (m : string) : result nat string :=
  match find_column m METRIC_COLUMNS with Some i => Ok i | None => Err ("unknown metric " ++ m)%string end.
Definition MON_SECONDS_MIN : Z := 1.
Definition MON_SECONDS_MAX : Z := 600.
Record MonHistoryParams : Type := mkParams { p_metric : string; p_seconds : Z }.
Definition u32_of_json (v : json) : result Z string :=
  match as_u64 v with Some n => if (n <? U32_MOD)%Z then Ok n else Err "expected u32" | None => Err "expected u32" end.
Definition history_params (v : json) : result MonHistoryParams string :=
  try _ <- struct_shape 2 v;
  try m <- field 0 "metric" v;
  match struct_field 1 "seconds" v with
  | None => Err "missing field `seconds`"
  | Some s => try s <- u32_of_json s; Ok (mkParams m s)
  end.
Definition validate (p : MonHistoryParams) : result unit string :=
  if (p_seconds p <? MON_SECONDS_MIN)%Z || (MON_SECONDS_MAX <? p_seconds p)%Z then Err "seconds out of range [1, 600]" else Ok ().
(** [stamp_history]: a second between samples, the newest at the capture. *)
Definition stamp_history (values : list Z) (captured : Z) : list (Z * Z) :=
  imap (λ i v, (Z.max 0 (captured - (Z.of_nat (length values) - 1 - Z.of_nat i) * 1000), v)%Z) values.

(** What the handlers share. [locked]: a tick holds the ring. *)
Record Aggregator : Type := mkAgg { latest : SystemSnapshot; ring : Ring.Ring; ring_fs : Ring.FS; locked : bool }.
Inductive Reply : Type :=
  | System (r : Response) | SnapshotOk (s : SystemSnapshot) | HistoryOk (m : string) (pairs : list (Z * Z))
  | Fail (c : ErrorCode.ErrorCode) (msg : string).
(** [blocking_lock] on a worker of the runtime panics. *)
Inductive Outcome : Type := Answer (r : Reply) | Panic.
Definition handle_history (a : Aggregator) (req : Request) : Outcome :=
  match history_params (params req) with
  | Err e => Answer (Fail ErrorCode.BadRequest ("system.mon.history params: " ++ e))
  | Ok p =>
      match validate p with
      | Err e => Answer (Fail ErrorCode.BadRequest ("system.mon.history params: " ++ e))
      | Ok _ =>
          match column_for_metric (p_metric p) with
          | Err e => Answer (Fail ErrorCode.BadRequest e)
          | Ok i =>
              if locked a then Panic
              else match Ring.read_metric i (Z.to_nat (p_seconds p)) (ring a) (ring_fs a) with
                   | Err _ => Answer (Fail ErrorCode.Internal "ring.read_metric")
                   | Ok vs => Answer (HistoryOk (p_metric p) (stamp_history vs (captured_at_ms (latest a))))
                   end
          end
      end
  end.
Definition handle_unary (system : Request → option Response) (a : Aggregator) (req : Request) : Outcome :=
  match system req with
  | Some r => Answer (System r)
  | None =>
      if String.eqb (method req) METHOD_SNAPSHOT then Answer (SnapshotOk (latest a))
      else if String.eqb (method req) METHOD_HISTORY then handle_history a req
      else if String.eqb (method req) METHOD_SUBSCRIBE
      then Answer (Fail ErrorCode.BadRequest "system.mon.subscribe must be invoked over the streaming channel")
      else Answer (Fail ErrorCode.BadRequest ("unknown method " ++ method req))
  end.
(** [handle_client]: the answers to the frames of a connection, each beside the
    state it finds, and how the connection ends. *)
Inductive End_ : Type := Closed | Streaming (id : N) | Crashed.
Fixpoint handle_client (system : Request → option Response) (frames : list (Aggregator * option Request)) : list (N * Reply) * End_ :=
  match frames with
  | [] => ([], Closed)
  | (_, None) :: _ => ([], Closed)
  | (a, Some req) :: frames =>
      if String.eqb (method req) METHOD_SUBSCRIBE then ([], Streaming (request_id req))
      else match handle_unary system a req with
           | Panic => ([], Crashed)
           | Answer r => let '(l, e) := handle_client system frames in ((request_id req, r) :: l, e)
           end
  end.

(** *** The stream of snapshots *)

(** The broadcast channel: how many ticks were sent, and how many a receiver has
    taken. It keeps the last sixteen; a receiver that is further behind is told
    so, and goes on with the oldest that is kept. *)
Definition TICK_BROADCAST_CAPACITY : nat := 16.
Definition recv (sent pos : nat) : option nat :=
  if sent <=? pos then None
  else if TICK_BROADCAST_CAPACITY <? sent - pos then Some (sent - TICK_BROADCAST_CAPACITY) else Some (S pos).
(** [stream_subscribe] until it waits: a frame with the latest snapshot for each
    signal, a lag being one. *)
Fixpoint stream (fuel : nat) (a : Aggregator) (sent pos : nat) : list SystemSnapshot * nat :=
  match fuel with
  | 0 => ([], pos)
  | S k => match recv sent pos with
           | None => ([], pos)
           | Some pos => let '(l, p) := stream k a sent pos in (latest a :: l, p)
           end
  end.
(** The frames a receiver is owed. *)
Definition owed (sent pos : nat) : nat := if TICK_BROADCAST_CAPACITY <? sent - pos then S TICK_BROADCAST_CAPACITY else sent - pos.
Lemma stream_within n : ∀ a sent pos, n = sent - pos → n <= TICK_BROADCAST_CAPACITY → stream (S n) a sent pos = (replicate n (latest a), Nat.max sent pos).
Proof.
  induction n as [|n IH]; intros a sent pos Hn Hc.
  - cbn [stream]. unfold recv. destruct (Nat.leb_spec sent pos) as [Hle|]; [|lia]. cbn. f_equal. lia.
  - cbn [stream]. unfold recv at 1. destruct (Nat.leb_spec sent pos) as [|Hlt]; [lia|].
    destruct (Nat.ltb_spec TICK_BROADCAST_CAPACITY (sent - pos)) as [|_]; [lia|].
    specialize (IH a sent (S pos) ltac:(lia) ltac:(lia)). cbn [stream] in IH. rewrite IH. cbn [replicate]. f_equal. lia.
Qed.
(** A receiver gets a frame for each tick it missed, and seventeen if it missed
    more: one for the lag and one for each tick that is kept. *)
Lemma stream_frames a sent pos : pos <= sent →
  stream (owed sent pos + 1) a sent pos = (replicate (owed sent pos) (latest a), sent).
Proof.
  intros Hle. unfold owed. destruct (Nat.ltb_spec TICK_BROADCAST_CAPACITY (sent - pos)) as [Hlt|Hge].
  - rewrite Nat.add_1_r. cbn [stream]. unfold recv at 1. destruct (Nat.leb_spec sent pos); [lia|].
    destruct (Nat.ltb_spec TICK_BROADCAST_CAPACITY (sent - pos)); [|lia].
    pose proof (stream_within TICK_BROADCAST_CAPACITY a sent (sent - TICK_BROADCAST_CAPACITY) ltac:(lia) ltac:(lia)) as H2.
    cbn [stream] in H2. rewrite H2. cbn [replicate]. f_equal. lia.
  - rewrite Nat.add_1_r. rewrite (stream_within (sent - pos) a sent pos eq_refl Hge). f_equal. lia.
Qed.

(** *** What a history is *)

Record Tick : Type := mkTick { t_sample : Sampled; t_planes : list (string * result PlaneMetrics string); t_now : Z }.
(** [run_one_tick]: the snapshot is published once the ring is let go. *)
Definition run_one_tick (t : Tick) (a : Aggregator) : Aggregator :=
  let '(r, fs, s, _) := run_once RING_METRICS (t_sample t) (t_planes t) (t_now t) (ring a) (ring_fs a) in mkAgg s r fs false.
Definition run_ticks (ts : list Tick) (a : Aggregator) : Aggregator := foldl (λ a t, run_one_tick t a) a ts.
Definition row_of_tick (t : Tick) : list Z := row_of (sample_of (t_sample t)).1 RING_METRICS.
Definition captured (ts : list Tick) (d : Z) : Z := match last ts with Some t => t_now t | None => d end.

Lemma project_row_length h n : length (project_row h n) = n.
Proof.
  unfold project_row, set_col. destruct (h_cpu h) as [c|], (h_mem h), (h_load h); try destruct (Sensors.per_core_util_pct c);
    by rewrite ?length_insert, length_replicate.
Qed.
Lemma row_of_ok h n : Ring.row_ok n (row_of h n).
Proof.
  split; [unfold row_of; by rewrite length_map, project_row_length|]. unfold row_of. apply Forall_forall. intros x.
  rewrite list_elem_of_fmap. intros (y & -> & _). apply to_bits_range.
Qed.
Lemma set_captured_time t s : captured_at_ms (set_captured t s) = t.
Proof. done. Qed.
Lemma run_one_tick_ring t a :
  let p := Ring.push (row_of_tick t) (ring a) (ring_fs a) in
  ring (run_one_tick t a) = match p.1 with Ok r => r | Err _ => ring a end ∧ ring_fs (run_one_tick t a) = p.2
  ∧ captured_at_ms (latest (run_one_tick t a)) = t_now t ∧ locked (run_one_tick t a) = false.
Proof.
  cbv zeta. unfold run_one_tick, run_once, row_of_tick. destruct (sample_of (t_sample t)) as [h es]. cbn [fst]. unfold push_row.
  destruct (Ring.push (row_of h RING_METRICS) (ring a) (ring_fs a)) as [[r|e] fs]; cbn [fst snd];
    by destruct (fold_into_snapshot h (t_planes t) _) as [s es'].
Qed.
Lemma run_ticks_hold ts : ∀ a hist,
  Ring.ring_holds (ring_fs a) (ring a) hist → Ring.r_n_metrics (ring a) = RING_METRICS →
  (Ring.r_head (ring a) + Z.of_nat (length ts) + Z.of_nat (Ring.r_n_secs (ring a)) < U64_MOD)%Z → locked a = false →
  let a' := run_ticks ts a in
  Ring.ring_holds (ring_fs a') (ring a') (hist ++ map row_of_tick ts) ∧ Ring.r_n_metrics (ring a') = RING_METRICS
  ∧ Ring.r_n_secs (ring a') = Ring.r_n_secs (ring a) ∧ locked a' = false ∧ captured_at_ms (latest a') = captured ts (captured_at_ms (latest a)).
Proof.
  induction ts as [|t ts IH]; intros a hist Hr Hm Hb Hl; cbn [run_ticks foldl].
  { rewrite app_nil_r. done. }
  cbn [length] in Hb. destruct (Ring.rh_head _ _ _ Hr) as [Hh _].
  assert (Ring.row_ok (Ring.r_n_metrics (ring a)) (row_of_tick t)) as Hok by (rewrite Hm; apply row_of_ok).
  destruct (Ring.push_holds _ _ _ _ Hr Hok ltac:(lia)) as (r1 & fs1 & Hp & Hr1 & E1 & El).
  destruct (run_one_tick_ring t a) as (Hring & Hfs & Hcap & Hlk). rewrite Hp in Hring, Hfs. cbn [fst snd] in Hring, Hfs.
  destruct (IH (run_one_tick t a) (hist ++ [row_of_tick t])) as (H1 & H2 & H3 & H4 & H5).
  - by rewrite Hring, Hfs.
  - rewrite Hring. by subst r1.
  - rewrite Hring. subst r1. cbn [Ring.r_head Ring.r_n_secs]. lia.
  - done.
  - fold (run_ticks ts (run_one_tick t a)). rewrite <- app_assoc in H1. cbn [app] in H1. split; [done|]. split; [done|].
    split; [rewrite H3, Hring; by subst r1|]. split; [done|]. rewrite H5, Hcap. unfold captured. rewrite last_cons. by destruct (last ts).
Qed.
Lemma read_history system a req m secs idx vs :
  system req = None → method req = METHOD_HISTORY → history_params (params req) = Ok (mkParams m secs) →
  (1 <= secs <= 600)%Z → column_for_metric m = Ok idx → locked a = false → Ring.read_metric idx (Z.to_nat secs) (ring a) (ring_fs a) = Ok vs →
  handle_unary system a req = Answer (HistoryOk m (stamp_history vs (captured_at_ms (latest a)))).
Proof.
  intros Hs Hm Hp Hr Hc Hl Hv. unfold handle_unary. rewrite Hs, Hm. cbn [String.eqb]. change (String.eqb METHOD_HISTORY METHOD_SNAPSHOT) with false.
  change (String.eqb METHOD_HISTORY METHOD_HISTORY) with true. cbn iota. unfold handle_history. rewrite Hp. unfold validate, MON_SECONDS_MIN, MON_SECONDS_MAX. cbn [p_seconds p_metric].
  destruct (Z.ltb_spec secs 1); [lia|]. destruct (Z.ltb_spec 600 secs); [lia|]. cbn [orb]. by rewrite Hc, Hl, Hv.
Qed.
Lemma stamp_history_spec vs t :
  map snd (stamp_history vs t) = vs
  ∧ ∀ i p, stamp_history vs t !! i = Some p → p.1 = Z.max 0 (t - (Z.of_nat (length (stamp_history vs t)) - 1 - Z.of_nat i) * 1000)%Z.
Proof.
  unfold stamp_history. split.
  - change (map snd ?l) with (snd <$> l). apply list_eq. intros i. rewrite list_lookup_fmap, list_lookup_imap. by destruct (vs !! i).
  - intros i p. rewrite list_lookup_imap, length_imap. destruct (vs !! i) as [v|]; [|done]. intros E. by injection E as <-.
Qed.
Lemma column_in_row m idx : column_for_metric m = Ok idx → idx < RING_METRICS.
Proof.
  unfold column_for_metric, METRIC_COLUMNS, RING_METRICS. cbn [find_column]. repeat case_match; intros E; simplify_eq; lia.
Qed.

(** C34. The history of a metric is what the ticks wrote: asked for [secs] seconds
    between two ticks, the aggregator answers with the column of the metric in
    the rows of the last ticks, as many as asked for, were run and fit the ring,
    oldest first; the newest is stamped with the time of the last tick and each
    sample before it a second earlier. *)
Theorem history_serves_the_ticks system a hist t ts req m secs idx :
  Ring.ring_holds (ring_fs a) (ring a) hist → Ring.r_n_metrics (ring a) = RING_METRICS → locked a = false →
  (Ring.r_head (ring a) + Z.of_nat (S (length ts)) + Z.of_nat (Ring.r_n_secs (ring a)) < U64_MOD)%Z →
  system req = None → method req = METHOD_HISTORY → history_params (params req) = Ok (mkParams m secs) →
  (1 <= secs <= 600)%Z → column_for_metric m = Ok idx →
  ∃ pairs, handle_unary system (run_ticks (ts ++ [t]) a) req = Answer (HistoryOk m pairs)
    ∧ map snd pairs = map (λ row, nth idx row 0%Z) (Ring.lastn (Nat.min (Z.to_nat secs) (Ring.r_n_secs (ring a))) (hist ++ map row_of_tick (ts ++ [t])))
    ∧ ∀ i p, pairs !! i = Some p → p.1 = Z.max 0 (t_now t - (Z.of_nat (length pairs) - 1 - Z.of_nat i) * 1000)%Z.
Proof.
  intros Hr Hn Hl Hb Hs Hm Hp Hsecs Hc.
  destruct (run_ticks_hold (ts ++ [t]) a hist Hr Hn ltac:(rewrite length_app; cbn; lia) Hl) as (H1 & H2 & H3 & H4 & H5).
  pose proof (column_in_row m idx Hc) as Hi. rewrite <- H2 in Hi. pose proof (Ring.ring_read _ _ _ idx (Z.to_nat secs) H1 Hi) as Hread.
  unfold captured in H5. rewrite last_snoc in H5.
  pose proof (read_history system _ req m secs idx _ Hs Hm Hp Hsecs Hc H4 Hread) as Hans. rewrite H5, H3 in Hans.
  eexists. split; [exact Hans|]. apply stamp_history_spec.
Qed.

Definition sample_fs : Ring.FS := Ring.mkFS {["h" := Ring.init_file 3 RING_METRICS (Ring.expected_len 3 RING_METRICS)]} ∅.
Definition sample_agg : Aggregator := mkAgg default_snapshot (Ring.mkRing "h" true 3 RING_METRICS 0 0) sample_fs false.
Definition host (mib : Z) : HostSample := mkHost None (Some (Sensors.mkMem (4 * mib) mib 0)) None None None [] [] None.
Definition sample_tick (now_ms mib : Z) : Tick := mkTick (Took (host mib)) [("agt", Err "connect")] now_ms.
Definition history_request (secs : Z) : Request :=
  mkRequest Wire.SCHEMA_VERSION 7 None None None Priority.Interactive METHOD_HISTORY (JObj [("metric", JStr "sy_mem_used_mib"); ("seconds", JNum secs)]).
Lemma sample_holds : Ring.ring_holds (ring_fs sample_agg) (ring sample_agg) [].
Proof.
  apply Ring.fresh_holds; [split; [lia|reflexivity]|split; [unfold RING_METRICS; lia|reflexivity]|]. apply lookup_singleton_eq.
Qed.
Lemma history_serves_the_ticks_witness :
  (∀ v w, to_bits (f32_of_Z 8) = v → to_bits (f32_of_Z 9) = w →
   handle_unary (λ _, None) (run_ticks ([sample_tick 5000 7; sample_tick 6000 8] ++ [sample_tick 7000 9]) sample_agg) (history_request 2)
     = Answer (HistoryOk "sy_mem_used_mib" [(6000, v); (7000, w)]%Z))
  ∧ ∃ pairs, handle_unary (λ _, None) (run_ticks ([sample_tick 5000 7; sample_tick 6000 8] ++ [sample_tick 7000 9]) sample_agg) (history_request 2)
      = Answer (HistoryOk "sy_mem_used_mib" pairs)
    ∧ map snd pairs = map (λ row, nth 1 row 0%Z) (Ring.lastn (Nat.min (Z.to_nat 2) (Ring.r_n_secs (ring sample_agg)))
        ([] ++ map row_of_tick ([sample_tick 5000 7; sample_tick 6000 8] ++ [sample_tick 7000 9])))
    ∧ ∀ i p, pairs !! i = Some p → p.1 = Z.max 0 (t_now (sample_tick 7000 9) - (Z.of_nat (length pairs) - 1 - Z.of_nat i) * 1000)%Z.
Proof.
  split.
  - intros v w <- <-. vm_compute. reflexivity.
  - apply (history_serves_the_ticks (λ _, None) sample_agg [] (sample_tick 7000 9) [sample_tick 5000 7; sample_tick 6000 8]
      (history_request 2) "sy_mem_used_mib" 2 1); [exact sample_holds|reflexivity|reflexivity|reflexivity|reflexivity|reflexivity|reflexivity|lia|reflexivity].
Defined.

(** A request for a history that comes while a tick holds the ring ends the
    connection with a panic; the other requests are answered. *)
Lemma history_panics_during_a_tick system a req m secs idx :
  locked a = true → system req = None → method req = METHOD_HISTORY → history_params (params req) = Ok (mkParams m secs) →
  (1 <= secs <= 600)%Z → column_for_metric m = Ok idx →
  handle_unary system a req = Panic ∧ ∀ frames, handle_client system ((a, Some req) :: frames) = ([], Crashed).
Proof.
  intros Hl Hs Hm Hp Hr Hc. assert (handle_unary system a req = Panic) as H.
  { unfold handle_unary. rewrite Hs, Hm. change (String.eqb METHOD_HISTORY METHOD_SNAPSHOT) with false.
    change (String.eqb METHOD_HISTORY METHOD_HISTORY) with true. cbn iota. unfold handle_history. rewrite Hp.
    unfold validate, MON_SECONDS_MIN, MON_SECONDS_MAX. cbn [p_seconds p_metric].
    destruct (Z.ltb_spec secs 1); [lia|]. destruct (Z.ltb_spec 600 secs); [lia|]. cbn [orb]. by rewrite Hc, Hl. }
  split; [done|]. intros frames. cbn [handle_client]. rewrite Hm. change (String.eqb METHOD_HISTORY METHOD_SUBSCRIBE) with false. by rewrite H.
Qed.
Lemma only_history_panics system a req : handle_unary system a req = Panic → method req = METHOD_HISTORY ∧ locked a = true.
Proof.
  unfold handle_unary. destruct (system req); [done|]. destruct (String.eqb _ _); [done|].
  destruct (String.eqb_spec (method req) METHOD_HISTORY) as [E|]; [|by destruct (String.eqb _ _)].
  unfold handle_history. destruct (history_params _) as [p|]; [|done]. destruct (validate p); [|done]. destruct (column_for_metric _); [|done].
  destruct (locked a) eqn:El; [done|]. by destruct (Ring.read_metric _ _ _ _).
Qed.
(** The kinds of error of a tick that scrapes are of the planes that failed. *)
Lemma supervisor_ready_iff ps es p :
  (p, "ready") ∈ supervisor_plane_states ps es ↔ p ∈ ps ∧ ∀ e, e ∈ es → kind e = KIND_SCRAPE_FAILED → plane e ≠ p.
Proof.
  unfold supervisor_plane_states. rewrite Sandbox.in_map_of. split.
  - intros (q & E & Hq). destruct (existsb (String.eqb q) _) eqn:Ex; [done|]. injection E as ->. split; [done|].
    intros e He Hk Hpe. rewrite <- not_true_iff_false, existsb_exists in Ex. apply Ex. exists (plane e). split; [|rewrite Hpe; apply String.eqb_refl].
    apply in_map_iff. exists e. split; [done|]. apply filter_In. split; [by apply list_elem_of_In|]. by rewrite Hk.
  - intros [Hp Hno]. exists p. split; [|done]. destruct (existsb (String.eqb p) _) eqn:Ex; [|done].
    apply existsb_exists in Ex as (q & Hq & E%String.eqb_eq). subst q. apply in_map_iff in Hq as (e & <- & He).
    apply filter_In in He as [He Hk%String.eqb_eq]. exfalso. apply (Hno e); [by apply list_elem_of_In|done|done].
Qed.
End Serve.

(** ** The tile of the bar *)

Module Tile.
Import Snapshot.
Definition is_healthy (s : string) : bool := existsb (String.eqb s) ["active"; "running"; "Running"; "Active"].
Definition classify (s : option SystemSnapshot) : string :=
  match s with
  | None => "down"
  | Some s => match errors s with
              | [] => if existsb (λ p, negb (is_healthy (plane_state p))) (planes s) then "degraded" else "ok"
              | _ => "degraded"
              end
  end.
(** What the aggregator puts into a snapshot names no plane: only the errors of
    the tick can make the tile degraded. *)
Lemma no_planes_folded h ps es : planes (Collect.fold_into_snapshot h ps es).1 = [].
Proof.
  unfold Collect.fold_into_snapshot. assert (∀ st, planes st.1 = [] → planes (foldl Collect.fold_plane st ps).1 = []) as H.
  { induction ps as [|p ps IH]; intros st Hs; [done|]. cbn [foldl]. apply IH. unfold Collect.fold_plane. destruct p.2 as [m|]; [|done]. cbn [fst].
    unfold Collect.apply_plane. destruct (String.eqb _ _); [|done]. revert Hs. generalize (st.1). induction (Collect.samples m) as [|x xs IHx]; intros s Hs; [done|].
    cbn [foldl]. apply IHx. unfold Collect.apply_sample. destruct (String.eqb _ _); [|done]. destruct (Collect.labels x !! "kind"), (Collect.gauge x); done. }
  specialize (H (Collect.apply_host default_snapshot h, es) eq_refl). destruct (foldl _ _ ps) as [s es']. done.
Qed.
End Tile.

(** ** The popup *)

Module Popup.
Import Snapshot.

Inductive PanelId : Type := Host | Accel | Net | Disk | Aiplane | Knowledge | Agents | Supervisor.
#[export] Instance PanelId_eq_dec : EqDecision PanelId.
Proof. solve_decision. Defined.
Definition ALL : list PanelId := [Host; Accel; Net; Disk; Aiplane; Knowledge; Agents; Supervisor].
Definition from_digit (d : Z) : option PanelId := if ((1 <=? d) && (d <=? 8))%Z then ALL !! Z.to_nat (d - 1) else None.
Definition index (p : PanelId) : nat := default 0 (position (λ q, bool_decide (q = p)) ALL).
Definition nth_panel (i : nat) : PanelId := default Host (ALL !! (i mod length ALL)).
Definition next (p : PanelId) : PanelId := nth_panel (index p + 1).
Definition prev (p : PanelId) : PanelId := nth_panel (index p + length ALL - 1).

(** A filter is kept as its pattern; the history is the ring and its file. *)
Record State : Type := mkState {
  latest : option SystemSnapshot; history : Ring.Ring; banner : option Z; focused_panel : PanelId; expanded : option PanelId;
  filter : option text; scroll : Z
}.
Definition new (r : Ring.Ring) : State := mkState None r None Host None None 0.
Definition set_filter (f : option text) (s : State) : State := mkState (latest s) (history s) (banner s) (focused_panel s) (expanded s) f (scroll s).
Definition set_focus (p : PanelId) (s : State) : State := mkState (latest s) (history s) (banner s) p (expanded s) (filter s) (scroll s).

Inductive Key : Type := Escape | Backspace | Enter | Tab | OtherNamed | Character (s : text) | Unidentified.
Inductive Message : Type :=
  | Frame (s : SystemSnapshot) | SubscribeFailed | KeyPressed (k : Key) | Close | CycleFocus (forward : bool) | FocusPanel (p : PanelId)
  | ToggleExpand | OpenFilter | CloseFilter | FilterChar (c : Z) | FilterBackspace | Scroll (delta : Z).
Definition keypress_to_message (k : Key) (shift filter_open : bool) : option Message :=
  if filter_open then
    match k with
    | Escape => Some CloseFilter
    | Backspace => Some FilterBackspace
    | Enter => Some CloseFilter
    | Character s => FilterChar <$> head s
    | _ => None
    end
  else
    match k with
    | Escape => Some Close
    | Tab => Some (CycleFocus (negb shift))
    | Enter => Some ToggleExpand
    | Character s =>
        c ← head s;
        if (c =? 47)%Z then Some OpenFilter
        else if (c =? 106)%Z then Some (Scroll 1)
        else if (c =? 107)%Z then Some (Scroll (-1))
        else if ((49 <=? c) && (c <=? 56))%Z then FocusPanel <$> from_digit (c - 48)
        else None
    | _ => None
    end.

Definition I32_MAX : Z := 2 ^ 31 - 1.
Definition I32_MIN : Z := - 2 ^ 31.
Definition saturating_add32 (a b : Z) : Z := Z.max I32_MIN (Z.min I32_MAX (a + b)).
Section popup.
(** Whether the regex crate takes a pattern. *)
Context (is_regex : text → bool).

Definition apply_char (c : Z) (s : State) : State :=
  match filter s with
  | Some p => let p := p ++ [c] in if is_regex p then set_filter (Some p) s else s
  | None => s
  end.
Definition apply_backspace (s : State) : State :=
  match filter s with
  | Some p => match p with [] => s | _ => let p := removelast p in if is_regex p then set_filter (Some p) s else s end
  | None => s
  end.
(** [update], with the message it sends on. *)
Definition update (m : Message) (s : State) : State * option Message :=
  match m with
  | Frame x => (mkState (Some x) (history s) None (focused_panel s) (expanded s) (filter s) (scroll s), None)
  | SubscribeFailed =>
      (mkState (latest s) (history s) (Some (default 0%Z (captured_at_ms <$> latest s))) (focused_panel s) (expanded s) (filter s) (scroll s), None)
  | KeyPressed k => (s, keypress_to_message k false (bool_decide (is_Some (filter s))))
  | Close => (s, None)
  | CycleFocus forward => (set_focus (if forward then next (focused_panel s) else prev (focused_panel s)) s, None)
  | FocusPanel p => (set_focus p s, None)
  | ToggleExpand =>
      (mkState (latest s) (history s) (banner s) (focused_panel s) (match expanded s with Some _ => None | None => Some (focused_panel s) end) (filter s) (scroll s), None)
  | OpenFilter => (set_filter (Some []) s, None)
  | CloseFilter => (set_filter None s, None)
  | FilterChar c => (apply_char c s, None)
  | FilterBackspace => (apply_backspace s, None)
  | Scroll d => (mkState (latest s) (history s) (banner s) (focused_panel s) (expanded s) (filter s) (saturating_add32 (scroll s) d), None)
  end.
(** A message from outside, and the one that it sends on. *)
Definition deliver (m : Message) (s : State) : State :=
  let '(s, o) := update m s in match o with Some m => (update m s).1 | None => s end.
Definition run (ms : list Message) (s : State) : State := foldl (λ s m, deliver m s) s ms.
End popup.
Definition metric_matches (is_match : text → text → bool) (f : option text) (n : text) : bool :=
  match f with Some p => is_match p n | None => true end.
Definition DEFAULT_HISTORY_SIZE : nat := 600.
Record ViewData : Type := mkView { cpu_sparkline_recent : list Z; latest_captured_at_ms : option Z; view_banner : option Z }.
Definition view_data (fs : Ring.FS) (s : State) : ViewData :=
  mkView (match Ring.read_metric 0 DEFAULT_HISTORY_SIZE (history s) fs with Ok l => l | Err _ => [] end)
    (captured_at_ms <$> latest s) (banner s).

(** [subscribe_stream]: what the connection brings, and the messages it gives. *)
Inductive Incoming : Type := Closed | SnapshotFrame (s : option SystemSnapshot) | OtherEvent | ReadError.
Fixpoint stream_messages (l : list Incoming) : list Message :=
  match l with
  | [] => [SubscribeFailed]
  | Closed :: _ => [SubscribeFailed]
  | SnapshotFrame (Some s) :: l => Frame s :: stream_messages l
  | SnapshotFrame None :: _ => [SubscribeFailed]
  | OtherEvent :: l => stream_messages l
  | ReadError :: _ => [SubscribeFailed]
  end.
(** [connected]: the socket was there and the subscription was accepted. *)
Definition subscribe_stream (connected : bool) (l : list Incoming) : list Message :=
  if connected then stream_messages l else [SubscribeFailed].

(** *** Lemmas *)
Lemma next_prev p : next (prev p) = p ∧ prev (next p) = p.
Proof. destruct p; split; reflexivity. Qed.
Lemma digits_reach_all p : ∃ d, (1 <= d <= 8)%Z ∧ from_digit d = Some p.
Proof. exists (Z.of_nat (index p) + 1)%Z. destruct p; (split; [by vm_compute|reflexivity]). Qed.
(** The focus never goes back, whatever is pressed: the key message does not
    carry the shift. *)
Lemma focus_never_goes_back is_regex k s : (update is_regex (KeyPressed k) s).2 ≠ Some (CycleFocus false).
Proof.
  cbn [update snd]. unfold keypress_to_message. destruct (bool_decide _).
  - destruct k as [| | | | |t|]; try done. by destruct (head t).
  - destruct k as [| | | | |t|]; try done. destruct (head t) as [c|]; [|done]. cbn [mbind option_bind].
    repeat (destruct (_ =? _)%Z; [done|]). destruct (_ && _)%Z; [|done]. by destruct (from_digit _).
Qed.
(** Nor does escape close anything. *)
Lemma escape_does_nothing is_regex s : filter s = None → deliver is_regex (KeyPressed Escape) s = s.
Proof. intros H. unfold deliver. cbn [update]. rewrite H. reflexivity. Qed.
(** The last thing on the stream is that it failed, and it is said once. *)
Lemma stream_fails_once c l : ∃ fs, subscribe_stream c l = fs ++ [SubscribeFailed] ∧ SubscribeFailed ∉ fs.
Proof.
  assert (∃ fs, [SubscribeFailed] = fs ++ [SubscribeFailed] ∧ SubscribeFailed ∉ fs) as H0 by (exists []; split; [done|apply not_elem_of_nil]).
  unfold subscribe_stream. destruct c; [|done]. induction l as [|x l (fs & E & H)]; [done|].
  destruct x as [|[s|]| |]; cbn [stream_messages]; try done; [|by exists fs].
  exists (Frame s :: fs). rewrite E. split; [done|]. rewrite elem_of_cons. intros [|]; done.
Qed.

(** A pattern in which every group is escaped. *)
Definition PAREN : Z := 40.
Definition BACKSLASH : Z := 92.
Fixpoint escaped_after (b : bool) (p : text) : Prop :=
  match p with
  | [] => True
  | c :: p => (c = PAREN → b = true) ∧ escaped_after (bool_decide (c = BACKSLASH)) p
  end.
Definition no_group (p : text) : Prop := escaped_after false p.
Lemma escaped_app b p c : escaped_after b (p ++ [c]) ↔
  escaped_after b p ∧ (c = PAREN → match last p with Some d => d = BACKSLASH | None => b = true end).
Proof.
  revert b. induction p as [|d p IH]; intros b; cbn [app escaped_after].
  - cbn. tauto.
  - rewrite IH, last_cons. destruct (last p) as [x|]; [tauto|]. rewrite bool_decide_eq_true. tauto.
Qed.
Lemma no_group_removelast p : no_group p → no_group (removelast p).
Proof.
  destruct (decide (p = [])) as [->|Hp]; [done|]. rewrite (app_removelast_last 0%Z Hp) at 1. unfold no_group. rewrite escaped_app. tauto.
Qed.

Section filter_laws.
Context (is_regex : text → bool).
(** An open group that is not closed is not a pattern. *)
Hypothesis open_group : ∀ p, no_group p → last p ≠ Some BACKSLASH → is_regex (p ++ [PAREN]) = false.

Definition filter_ok (s : State) : Prop := ∀ p, filter s = Some p → no_group p.
Lemma apply_char_ok c s : filter_ok s → filter_ok (apply_char is_regex c s).
Proof.
  intros H. unfold apply_char. destruct (filter s) as [p|] eqn:Ef; [|done]. destruct (is_regex (p ++ [c])) eqn:Er; [|done].
  intros q Hq. cbn in Hq. injection Hq as <-. specialize (H p Ef). unfold no_group. rewrite escaped_app. split; [done|]. intros ->.
  destruct (last p) as [d|] eqn:El.
  - destruct (decide (d = BACKSLASH)) as [|Hd]; [done|]. rewrite open_group in Er; [done|done|]. rewrite El. congruence.
  - rewrite open_group in Er; [done|done|by rewrite El].
Qed.
Lemma filter_update_ok m s : filter_ok s → filter_ok (update is_regex m s).1.
Proof.
  intros H. destruct m; cbn [update fst]; try exact H; try (intros q Hq; by discriminate).
  - intros q Hq. cbn in Hq. by injection Hq as <-.
  - by apply apply_char_ok.
  - unfold apply_backspace. destruct (filter s) as [p|] eqn:Ef; [|done]. destruct p as [|c p]; [done|]. destruct (is_regex _); [|done].
    intros q Hq. cbn [filter set_filter] in Hq. injection Hq as <-. exact (no_group_removelast (c :: p) (H _ Ef)).
Qed.
Lemma deliver_ok m s : filter_ok s → filter_ok (deliver is_regex m s).
Proof.
  intros H. unfold deliver. pose proof (filter_update_ok m s H) as H1. destruct (update is_regex m s) as [s1 [m1|]]; cbn [fst] in H1; [|done].
  by apply filter_update_ok.
Qed.
(** No pattern with a group can be typed into the filter: each key is taken
    only if the pattern is one with it, and a group is not until it is closed. A
    parenthesis is in the pattern only after a backslash. *)
Lemma no_group_is_typed r ms p : filter (run is_regex ms (new r)) = Some p → no_group p.
Proof.
  assert (∀ s, filter_ok s → filter_ok (run is_regex ms s)) as H.
  { unfold run. induction ms as [|m ms IH]; intros s Hs; [done|]. cbn [foldl]. apply IH. by apply deliver_ok. }
  apply (H (new r)). intros q Hq. done.
Qed.
End filter_laws.

(** A reader of patterns that takes the escaped parentheses only. *)
Fixpoint plain_pattern (b : bool) (p : text) : bool :=
  match p with [] => true | c :: p => (negb ((c =? PAREN) || (c =? 41))%Z || b) && plain_pattern (c =? BACKSLASH)%Z p end.
Example group_is_dropped r :
  filter (run (plain_pattern false) (map KeyPressed [Character (lit "/"); Character (lit "a"); Character (lit "("); Character (lit "b"); Character (lit ")")]) (new r))
  = Some (lit "ab").
Proof. by vm_compute. Qed.
End Popup.
