(* ===== verification/KnowAuto.v ===== *)
(** * Knowledge: storage repair, agent wiring, auto-configuration

    [Repair] ([sy-knowledge/src/knowledge/repair.rs]) is the pass over the files
    of the vector store before it starts: broken segments are moved aside.
    [Mcp] ([auto_mcp.rs]) writes, removes and reads the entry of the knowledge
    server in the configuration of each agent; [Auto] ([auto.rs],
    [knowledge/autoconfig.rs]) chooses the detectors, makes the suggestions that
    need no walk of a folder, renders manifests and applies a plan. *)

From S2P Require Import Prelude Lists Text Paths Lines Utf8 Wire KnowIndex KnowSearch.

Open Scope string_scope.
Open Scope nat_scope.
Open Scope list_scope.

Module Repair.
Import Text Paths Lines.

(** A file by what [stat] and [read] answer for it, a directory by whether it
    can be listed and its entries in the order [read_dir] gives. *)
Record file := mkFile { len : result Z text; body : result (list Z) text }.
Inductive tree : Type :=
| File (f : file)
| Dir (listable : bool) (es : list (text * tree)).
Notation entries := (list (text * tree)) (only parsing).

Definition is_dir (t : tree) : bool := match t with Dir _ _ => true | File _ => false end.
Definition lookup_e (n : text) (es : entries) : option tree :=
  snd <$> find (λ e, bool_decide (e.1 = n)) es.
Definition remove_e (n : text) (es : entries) : entries :=
  List.filter (λ e, negb (bool_decide (e.1 = n))) es.
Definition set_e (n : text) (t : tree) (es : entries) : entries :=
  match lookup_e n es with
  | Some _ => map (λ e, if bool_decide (e.1 = n) then (n, t) else e) es
  | None => es ++ [(n, t)]
  end.

Record QuarantinedSegment := mkQuarantined {
  collection : text; shard : text; segment_id : text; reason : text; new_name : text }.
Record RepairReport := mkReport {
  quarantined : list QuarantinedSegment; swept_atomicwrite : nat; shards_scanned : nat }.
Definition no_report : RepairReport := mkReport [] 0 0.

Definition SEGMENTS : text := lit "segments".
Definition QUARANTINE : text := lit "segments.quarantine".
Definition ATOMICWRITE : text := lit ".atomicwrite".

(** The order of paths: component by component. *)
Definition text_lt (a b : text) : bool :=
  (fix go (a b : text) : bool :=
     match a, b with
     | _, [] => false
     | [], _ :: _ => true
     | x :: a', y :: b' => if (x <? y)%Z then true else if (y <? x)%Z then false else go a' b'
     end) a b.
Fixpoint key_leb (a b : list text) : bool :=
  match a, b with
  | [], _ => true
  | _ :: _, [] => false
  | x :: a', y :: b' => if text_lt x y then true else if text_lt y x then false else key_leb a' b'
  end.

Fixpoint collect_json_files (dir : list text) (t : tree) : list (list text * file) :=
  match t with
  | File _ => []
  | Dir listable es =>
    if listable then
      flat_map (λ e, match e.2 with
                     | Dir _ _ => collect_json_files (dir ++ [e.1]) e.2
                     | File f => if bool_decide (ext_of e.1 = Some (lit "json")) then [(dir ++ [e.1], f)] else []
                     end) es
    else []
  end.

(** [shard_name.parse::<u32>()]. *)
Definition is_shard (n : text) : bool :=
  match parse_usize n with Some v => (v <? U32_MOD)%Z | None => false end.

Section repair.
(** [serde_json::from_slice] with the text of its error, [remove_dir_all]
    ([None]: gone; otherwise what it leaves), the clock, read once for each
    segment moved, and the refusals of [rename]. *)
Context (parses : list Z → result unit text) (remove_dir_all : tree → option tree).
Context (now : nat → Z) (rename_refused : text → option text).

Definition validate_json (f : file) : result unit text :=
  match len f with
  | Err e => Err (lit "stat: " ++ e)
  | Ok n =>
    if (n =? 0)%Z then Err (lit "0-byte file")
    else match body f with
         | Err e => Err (lit "read: " ++ e)
         | Ok b => match parses b with Err e => Err (lit "parse: " ++ e) | Ok _ => Ok tt end
         end
  end.

Fixpoint first_failure (hits : list (list text * file)) : option text :=
  match hits with
  | [] => None
  | (p, f) :: hits' =>
    match validate_json f with
    | Ok _ => first_failure hits'
    | Err why => Some (join_slash p ++ lit ": " ++ why)
    end
  end.
Definition first_bad_json (seg : tree) : option text :=
  first_failure (Lists.sort_by (λ a b, key_leb a.1 b.1) (collect_json_files [] seg)).

(** A directory that an interrupted atomic write left behind. *)
Definition leaks (e : text * tree) : bool := is_dir e.2 && starts_with e.1 ATOMICWRITE.
Definition sweep_atomicwrite (listable : bool) (es : entries) : entries * nat :=
  if listable then
    foldr (λ e acc,
      if leaks e then
        match remove_dir_all e.2 with
        | None => (acc.1, S acc.2)
        | Some rest => ((e.1, rest) :: acc.1, acc.2)
        end
      else (e :: acc.1, acc.2)) ([], 0) es
  else (es, 0).

(** The entries of the shard and the name of the segment in the quarantine.
    [rename] replaces an empty directory, and nothing else. *)
Definition quarantine_segment (es : entries) (listable : bool) (segs : entries) (id : text) (seg : tree) (ts : Z)
    : result (entries * text) text :=
  match default (Dir true []) (lookup_e QUARANTINE es) with
  | File _ => Err (lit "mkdir")
  | Dir ql qs =>
    let name := show_nat ts ++ lit "-" ++ id in
    match rename_refused id, lookup_e name qs with
    | Some why, _ => Err why
    | None, Some (File _) | None, Some (Dir _ (_ :: _)) => Err (lit "rename")
    | None, _ =>
      Ok (set_e SEGMENTS (Dir listable (remove_e id segs)) (set_e QUARANTINE (Dir ql (set_e name seg qs)) es), name)
    end
  end.

Definition with_segment (q : QuarantinedSegment) (r : RepairReport) : RepairReport :=
  mkReport (quarantined r ++ [q]) (swept_atomicwrite r) (shards_scanned r).

(** The loop over the segments of a shard: [todo] is what [read_dir] listed. *)
Fixpoint repair_segments (coll sh : text) (todo : entries) (es : entries) (r : RepairReport)
    : entries * RepairReport * option text :=
  match todo with
  | [] => (es, r, None)
  | (id, seg) :: todo' =>
    match (if is_dir seg then first_bad_json seg else None), lookup_e SEGMENTS es with
    | Some why, Some (Dir listable segs) =>
      match quarantine_segment es listable segs id seg (now (length (quarantined r))) with
      | Err e => (es, r, Some e)
      | Ok (es', name) =>
        repair_segments coll sh todo' es' (with_segment (mkQuarantined coll sh id why name) r)
      end
    | _, _ => repair_segments coll sh todo' es r
    end
  end.

Definition repair_shard (coll sh : text) (t : tree) (r : RepairReport) : tree * RepairReport * option text :=
  match t with
  | File _ => (t, r, None)
  | Dir listable es =>
    if is_shard sh then
      let '(es1, n) := sweep_atomicwrite listable es in
      let r1 := mkReport (quarantined r) (swept_atomicwrite r + n) (S (shards_scanned r)) in
      match lookup_e SEGMENTS es1 with
      | Some (Dir true segs) =>
        let '(es2, r2, e) := repair_segments coll sh segs es1 r1 in (Dir listable es2, r2, e)
      | Some (Dir false _) => (Dir listable es1, r1, Some (lit "read_dir"))
      | _ => (Dir listable es1, r1, None)
      end
    else (t, r, None)
  end.

(** A loop over the entries of a directory that stops at the first error. *)
Fixpoint each (f : text → tree → RepairReport → tree * RepairReport * option text) (es : entries) (r : RepairReport)
    : entries * RepairReport * option text :=
  match es with
  | [] => ([], r, None)
  | (n, t) :: es' =>
    let '(t1, r1, e1) := f n t r in
    match e1 with
    | Some e => ((n, t1) :: es', r1, Some e)
    | None => let '(es2, r2, e2) := each f es' r1 in ((n, t1) :: es2, r2, e2)
    end
  end.

Definition repair_collection (coll : text) (t : tree) (r : RepairReport) : tree * RepairReport * option text :=
  match t with
  | File _ => (t, r, None)
  | Dir true es => let '(es1, r1, e) := each (repair_shard coll) es r in (Dir true es1, r1, e)
  | Dir false _ => (t, r, Some (lit "read_dir"))
  end.

(** The argument is [<storage>/collections], if it exists. *)
Definition quarantine_corrupt_segments (collections : option tree) : option tree * result RepairReport text :=
  match collections with
  | None => (None, Ok no_report)
  | Some (Dir true es) =>
    let '(es1, r, e) := each repair_collection es no_report in
    (Some (Dir true es1), match e with Some why => Err why | None => Ok r end)
  | Some t => (Some t, Err (lit "read_dir"))
  end.

(** ** The entries of a directory *)
Lemma lookup_e_Some n es t : lookup_e n es = Some t → (n, t) ∈ es.
Proof.
  unfold lookup_e. intros ([m t'] & Hf & [= ->])%fmap_Some.
  apply List.find_some in Hf as [Hin Hb]. apply bool_decide_eq_true in Hb. simpl in Hb. subst.
  by apply list_elem_of_In.
Qed.

Lemma lookup_set_e n m t es :
  lookup_e m (set_e n t es) = if decide (m = n) then Some t else lookup_e m es.
Proof.
  assert (Hmap : ∀ es, lookup_e m (map (λ e : text * tree, if bool_decide (e.1 = n) then (n, t) else e) es) =
                 if decide (m = n) then (λ _, t) <$> lookup_e m es else lookup_e m es).
  { unfold lookup_e. clear. intros es. induction es as [|[k u] es IH]; simpl; [by case_decide|].
    destruct (bool_decide_reflect (k = n)) as [->|Hk]; simpl.
    - case_decide as Hm; [subst; by rewrite !bool_decide_eq_true_2|].
      rewrite !bool_decide_eq_false_2 by (intros ->; done). exact IH.
    - destruct (bool_decide_reflect (k = m)) as [->|Hkm]; [by rewrite decide_False|exact IH]. }
  unfold set_e. destruct (lookup_e n es) as [u|] eqn:Hn.
  - rewrite Hmap. case_decide; [subst; by rewrite Hn|done].
  - clear Hmap. unfold lookup_e in *. induction es as [|[k u] es IH]; simpl in *.
    + case_decide; [subst; by rewrite bool_decide_eq_true_2|]. by rewrite bool_decide_eq_false_2 by (intros ->; done).
    + destruct (bool_decide_reflect (k = n)) as [->|Hk]; [discriminate|].
      destruct (bool_decide_reflect (k = m)) as [->|Hkm]; [by rewrite decide_False|by apply IH].
Qed.

Lemma elem_of_remove_e e n es : e ∈ remove_e n es ↔ e ∈ es ∧ e.1 ≠ n.
Proof.
  unfold remove_e. rewrite !list_elem_of_In, List.filter_In, negb_true_iff, bool_decide_eq_false. tauto.
Qed.

Lemma elem_of_set_e e n t es : e ∈ set_e n t es → e = (n, t) ∨ e ∈ es.
Proof.
  unfold set_e. destruct (lookup_e n es).
  - intros (e' & -> & He)%list_elem_of_fmap. case_bool_decide; auto.
  - intros [He | ->%list_elem_of_singleton]%elem_of_app; auto.
Qed.

(** ** Soundness of a repaired shard *)

Definition bad (seg : tree) : option text := if is_dir seg then first_bad_json seg else None.

Lemma quarantine_segment_Ok es l segs id seg ts es' name :
  quarantine_segment es l segs id seg ts = Ok (es', name) →
  name = show_nat ts ++ lit "-" ++ id ∧
  lookup_e SEGMENTS es' = Some (Dir l (remove_e id segs)) ∧
  (∃ ql qs, default (Dir true []) (lookup_e QUARANTINE es) = Dir ql qs ∧
     lookup_e QUARANTINE es' = Some (Dir ql (set_e name seg qs)) ∧
     match lookup_e name qs with None | Some (Dir _ []) => True | _ => False end) ∧
  (∀ e, e ∈ es' → e ∈ es ∨ e.1 = SEGMENTS ∨ e.1 = QUARANTINE).
Proof.
  unfold quarantine_segment. intros H.
  destruct (default _ _) as [|ql qs] eqn:Hq; [discriminate|].
  assert (Hn : es' = set_e SEGMENTS (Dir l (remove_e id segs))
                 (set_e QUARANTINE (Dir ql (set_e (show_nat ts ++ lit "-" ++ id) seg qs)) es) ∧
               name = show_nat ts ++ lit "-" ++ id ∧
               match lookup_e (show_nat ts ++ lit "-" ++ id) qs with None | Some (Dir _ []) => True | _ => False end).
  { destruct (rename_refused id); [discriminate|].
    destruct (lookup_e _ qs) as [[|? [|? ?]]|]; simplify_eq; auto. }
  destruct Hn as (-> & -> & Hfree). split; [done|]. rewrite !lookup_set_e.
  split; [done|]. split.
  - exists ql, qs. split; [done|]. split; [|done]. done.
  - intros e [->|[->|?]%elem_of_set_e]%elem_of_set_e; auto.
Qed.

Lemma repair_segments_spec coll sh todo es r es' r' l segs :
  repair_segments coll sh todo es r = (es', r', None) → lookup_e SEGMENTS es = Some (Dir l segs) →
  (∃ segs', lookup_e SEGMENTS es' = Some (Dir l segs') ∧
     ∀ e, e ∈ segs' → e ∈ segs ∧ (e ∈ todo → bad e.2 = None)) ∧
  shards_scanned r' = shards_scanned r ∧
  (∀ e, e ∈ es' → e ∈ es ∨ e.1 = SEGMENTS ∨ e.1 = QUARANTINE).
Proof.
  revert es r segs. induction todo as [|[id seg] todo IH]; intros es r segs; simpl.
  - intros [= -> ->] Hs. split; [|by auto]. exists segs. split; [done|].
    intros e He. split; [done|]. intros Hn. exfalso. exact (not_elem_of_nil _ Hn).
  - fold (bad seg). intros H Hs. rewrite Hs in H. destruct (bad seg) as [why|] eqn:Hb.
    + destruct (quarantine_segment _ _ _ _ _ _) as [[es1 name]|] eqn:Hq; [|discriminate].
      apply quarantine_segment_Ok in Hq as (_ & Hs1 & _ & Hin1).
      destruct (IH _ _ _ H Hs1) as ((segs' & Hs' & Hall) & Hsc & Hin). split; [|split].
      * exists segs'. split; [done|]. intros e He. destruct (Hall e He) as [[He1 Hne]%elem_of_remove_e Ht].
        split; [done|]. intros [->|Hin']%elem_of_cons; [done|by apply Ht].
      * by rewrite Hsc.
      * intros e He. destruct (Hin e He) as [[?|?]%Hin1|?]; auto.
    + destruct (IH _ _ _ H Hs) as ((segs' & Hs' & Hall) & Hsc & Hin). split; [|by auto].
      exists segs'. split; [done|]. intros e He. destruct (Hall e He) as [He1 Ht].
      split; [done|]. intros [->|Hin']%elem_of_cons; [done|by apply Ht].
Qed.

Lemma repair_segments_sound coll sh todo es r :
  (∀ e, e ∈ todo → bad e.2 = None) → repair_segments coll sh todo es r = (es, r, None).
Proof.
  induction todo as [|[id seg] todo IH]; [done|]. intros H. simpl. fold (bad seg).
  pose proof (H (id, seg) ltac:(by left)) as Hb. simpl in Hb. rewrite Hb.
  apply IH. intros e He. apply H. by right.
Qed.

Lemma sweep_keeps l es e : e ∈ es → leaks e = false → e ∈ (sweep_atomicwrite l es).1.
Proof.
  destruct l; [|done]. simpl. induction es as [|e' es IH]; intros He Hl; [by apply elem_of_nil in He|]. simpl.
  apply elem_of_cons in He as [->|He]; [rewrite Hl; by left|].
  destruct (leaks e'); [destruct (remove_dir_all e'.2)|]; simpl; try right; by apply IH.
Qed.

Lemma sweep_lookup l es n : starts_with n ATOMICWRITE = false →
  lookup_e n (sweep_atomicwrite l es).1 = lookup_e n es.
Proof.
  intros Hn. destruct l; [|done]. simpl. induction es as [|[m t] es IH]; [done|]. simpl.
  assert (Hm : leaks (m, t) = true → m ≠ n).
  { unfold leaks. simpl. rewrite andb_true_iff. intros [_ Hs] ->. by rewrite Hs in Hn. }
  assert (Hc : ∀ (u : tree) l, lookup_e n ((m, u) :: l) = if bool_decide (m = n) then Some u else lookup_e n l).
  { intros u l. unfold lookup_e. simpl. by case_bool_decide. }
  rewrite Hc. destruct (leaks (m, t)); simpl.
  - rewrite bool_decide_eq_false_2 by by apply Hm.
    destruct (remove_dir_all t); simpl; [rewrite Hc, bool_decide_eq_false_2 by by apply Hm|]; exact IH.
  - rewrite Hc. case_bool_decide; [done|exact IH].
Qed.

Lemma sweep_clean es : (∀ t, remove_dir_all t = None) →
  ∀ e, e ∈ (sweep_atomicwrite true es).1 → leaks e = false.
Proof.
  intros Hrm e. simpl. induction es as [|e' es IH]; simpl; [intros H; by apply elem_of_nil in H|].
  destruct (leaks e') eqn:Hl; [by rewrite Hrm|]. simpl. intros [->|He]%elem_of_cons; auto.
Qed.

Lemma sweep_nothing l es : (l = true → ∀ e, e ∈ es → leaks e = false) → sweep_atomicwrite l es = (es, 0).
Proof.
  destruct l; [|done]. intros H. specialize (H eq_refl). simpl. induction es as [|e es IH]; [done|]. simpl.
  rewrite IH by (intros; apply H; by right). by rewrite (H e) by by left.
Qed.

(** What a pass leaves in a shard: no segment that it would condemn. *)
Definition shard_sound (sh : text) (t : tree) : Prop :=
  ∀ l es ls segs id seg, t = Dir l es → is_shard sh = true → lookup_e SEGMENTS es = Some (Dir ls segs) →
  (id, seg) ∈ segs → is_dir seg = true → first_bad_json seg = None.

Definition bump (k : nat) (r : RepairReport) : RepairReport :=
  mkReport (quarantined r) (swept_atomicwrite r) (k + shards_scanned r).

(** [f] leaves what satisfies [P], and run again finds nothing to do. *)
Definition converges (f : text → tree → RepairReport → tree * RepairReport * option text)
    (P : text → tree → Prop) : Prop :=
  ∀ n t r t' r', f n t r = (t', r', None) →
    P n t' ∧ ∃ k, shards_scanned r' = k + shards_scanned r ∧
    ((∀ t, remove_dir_all t = None) → ∀ r0, f n t' r0 = (t', bump k r0, None)).

Lemma repair_shard_converges coll : converges (repair_shard coll) shard_sound.
Proof.
  intros sh t r t' r'. destruct t as [f|l es]; simpl.
  { intros [= <- <-]. split; [by intros ????????|]. exists 0. split; [done|]. intros _ []; done. }
  destruct (is_shard sh) eqn:Hsh; [|intros [= <- <-]; split;
    [intros ???????; congruence|exists 0; split; [done|]; intros _ []; simpl; by rewrite Hsh]].
  destruct (sweep_atomicwrite l es) as [es1 n] eqn:Hsw.
  assert (He1 : es1 = (sweep_atomicwrite l es).1) by by rewrite Hsw.
  set (r1 := mkReport _ _ _). destruct (lookup_e SEGMENTS es1) as [[f|ls segs]|] eqn:Hs1.
  2: destruct ls; [|discriminate].
  2: destruct (repair_segments _ _ _ _ _) as [[es2 r2] e] eqn:Hrun; intros [= <- <- ->];
     destruct (repair_segments_spec _ _ _ _ _ _ _ _ _ Hrun Hs1) as ((segs' & Hs2 & Hall) & Hsc & Hin);
     assert (Hsound : ∀ e, e ∈ segs' → bad e.2 = None) by (intros e [? Ht]%Hall; by apply Ht);
     split; [intros ?????? [= <- <-] _ Hs He Hd; rewrite Hs2 in Hs; injection Hs as <- <-;
             specialize (Hsound _ He); unfold bad in Hsound; simpl in Hsound; by rewrite Hd in Hsound|];
     exists 1; split; [by rewrite Hsc|]; intros Hrm r0; simpl; rewrite Hsh.
  1, 3: intros [= <- <-]; split; [intros ?????? [= <- <-] _ Hs; by rewrite Hs1 in Hs|];
        exists 1; split; [done|]; intros Hrm r0; simpl; rewrite Hsh.
  all: rewrite sweep_nothing; [|intros -> e0 He; subst es1;
         first [by apply (sweep_clean es)|destruct (Hin _ He) as [?|Hn]; [by apply (sweep_clean es)|];
                unfold leaks; by destruct Hn as [-> | ->]; rewrite andb_false_r]].
  - rewrite Hs1. unfold bump. by rewrite Nat.add_0_r.
  - rewrite Hs1. unfold bump. by rewrite Nat.add_0_r.
  - rewrite Hs2, repair_segments_sound by done. unfold bump. by rewrite Nat.add_0_r.
Qed.

Lemma each_converges f P : converges f P → ∀ es r es' r', each f es r = (es', r', None) →
  Forall (λ e, P e.1 e.2) es' ∧ ∃ k, shards_scanned r' = k + shards_scanned r ∧
  ((∀ t, remove_dir_all t = None) → ∀ r0, each f es' r0 = (es', bump k r0, None)).
Proof.
  intros Hf. induction es as [|[n t] es IH]; intros r es' r'; simpl.
  { intros [= <- <-]. split; [done|]. exists 0. split; [done|]. by intros _ []. }
  destruct (f n t r) as [[t1 r1] [e|]] eqn:H1; [discriminate|].
  destruct (each f es r1) as [[es2 r2] e2] eqn:H2. intros [= <- <- ->].
  apply Hf in H1 as (HP & k1 & Hk1 & Hr1). apply IH in H2 as (HF & k2 & Hk2 & Hr2).
  split; [by constructor|]. exists (k2 + k1). split; [lia|]. intros Hrm r0. simpl.
  rewrite Hr1, Hr2 by done. unfold bump. simpl. by rewrite Nat.add_assoc.
Qed.

Definition collection_sound (coll : text) (t : tree) : Prop :=
  ∀ l es sh s, t = Dir l es → (sh, s) ∈ es → shard_sound sh s.

Lemma repair_collection_converges : converges repair_collection collection_sound.
Proof.
  intros coll t r t' r'. destruct t as [f|[] es]; simpl; [| |discriminate].
  { intros [= <- <-]. split; [by intros ????|]. exists 0. split; [done|]. by intros _ []. }
  destruct (each _ es r) as [[es1 r1] e] eqn:H. intros [= <- <- ->].
  destruct (each_converges _ _ (repair_shard_converges coll) _ _ _ _ H) as (HF & k & Hk & Hr).
  split.
  - intros ? ? sh s [= <- <-] Hin. rewrite Forall_forall in HF. exact (HF _ Hin).
  - exists k. split; [done|]. intros Hrm r0. simpl. by rewrite Hr.
Qed.


(** ** Nothing is lost *)

Definition in_quarantine (es : entries) (name : text) (seg : tree) : Prop :=
  ∃ ql qs, lookup_e QUARANTINE es = Some (Dir ql qs) ∧ lookup_e name qs = Some seg.

Lemma bad_is_full seg why : bad seg = Some why → ∃ l e es, seg = Dir l (e :: es).
Proof.
  destruct seg as [f|l [|e es]]; [done| |by eauto].
  unfold bad, first_bad_json. destruct l; done.
Qed.

Lemma quarantine_segment_keeps es l segs id seg ts es' name name' b e0 t0 :
  quarantine_segment es l segs id seg ts = Ok (es', name) →
  in_quarantine es name' (Dir b (e0 :: t0)) → in_quarantine es' name' (Dir b (e0 :: t0)).
Proof.
  intros (_ & _ & (ql & qs & Hd & Hq & Hfree) & _)%quarantine_segment_Ok (ql' & qs' & Hq' & Hn).
  rewrite Hq' in Hd. injection Hd as -> ->. exists ql, (set_e name seg qs). split; [done|].
  rewrite lookup_set_e. case_decide as He; [|done]. subst. by rewrite Hn in Hfree.
Qed.

Lemma repair_segments_keeps coll sh todo es r es' r' l segs :
  repair_segments coll sh todo es r = (es', r', None) → lookup_e SEGMENTS es = Some (Dir l segs) →
  (∀ name b e0 t0, in_quarantine es name (Dir b (e0 :: t0)) → in_quarantine es' name (Dir b (e0 :: t0))) ∧
  (∀ q, q ∈ quarantined r → q ∈ quarantined r') ∧
  (∀ e, e ∈ segs → (∀ e', e' ∈ todo → e'.1 = e.1 → bad e'.2 = None) →
     ∃ segs', lookup_e SEGMENTS es' = Some (Dir l segs') ∧ e ∈ segs') ∧
  (∀ id seg why, (id, seg) ∈ todo → bad seg = Some why →
     ∃ name, in_quarantine es' name seg ∧ mkQuarantined coll sh id why name ∈ quarantined r').
Proof.
  revert es r segs. induction todo as [|[id seg] todo IH]; intros es r segs; simpl.
  { intros [= -> ->] Hs. split; [done|]. split; [done|]. split; [by eauto|].
    intros ??? Hn. exfalso. exact (not_elem_of_nil _ Hn). }
  fold (bad seg). intros H Hs. rewrite Hs in H. destruct (bad seg) as [why|] eqn:Hb.
  - destruct (quarantine_segment _ _ _ _ _ _) as [[es1 name]|] eqn:Hq; [|discriminate].
    pose proof (λ n b e0 t0, quarantine_segment_keeps _ _ _ _ _ _ _ _ n b e0 t0 Hq) as Hkeep.
    apply quarantine_segment_Ok in Hq as (_ & Hs1 & (ql & qs & _ & Hq1 & _) & _).
    destruct (IH _ _ _ H Hs1) as (Hk & Hr & Hl & Hc). split; [auto|]. split; [|split].
    + intros q Hin. apply Hr. simpl. apply elem_of_app. by left.
    + intros e He Hne. apply Hl; [|intros e' Hin; apply Hne; by right].
      apply elem_of_remove_e. split; [done|]. intros Heq.
      pose proof (Hne (id, seg) ltac:(by left) (eq_sym Heq)) as Hb'. simpl in Hb'. congruence.
    + intros id' seg' why' [[= -> ->]|Hin]%elem_of_cons Hb'; [|by apply Hc].
      rewrite Hb in Hb'. injection Hb' as <-. destruct (bad_is_full _ _ Hb) as (b & e0 & t0 & ->).
      exists name. split.
      * apply Hk. exists ql. eexists. split; [exact Hq1|]. rewrite lookup_set_e. by rewrite decide_True.
      * apply Hr. simpl. apply elem_of_app. right. by apply list_elem_of_singleton.
  - destruct (IH _ _ _ H Hs) as (Hk & Hr & Hl & Hc). split; [done|]. split; [done|]. split.
    + intros e He Hne. apply Hl; [done|]. intros e' Hin. apply Hne. by right.
    + intros id' seg' why' [[= -> ->]|Hin]%elem_of_cons Hb'; [congruence|by apply Hc].
Qed.

(** A pass over a shard keeps every healthy segment where it is, and every
    condemned one, with all its files, in the quarantine under the name the
    report gives. *)
Theorem repair_keeps_every_segment coll sh l es r t' r' ls segs id seg :
  repair_shard coll sh (Dir l es) r = (t', r', None) → is_shard sh = true →
  lookup_e SEGMENTS es = Some (Dir ls segs) → NoDup segs.*1 → (id, seg) ∈ segs →
  ∃ es', t' = Dir l es' ∧
  match bad seg with
  | None => ∃ segs', lookup_e SEGMENTS es' = Some (Dir ls segs') ∧ (id, seg) ∈ segs'
  | Some why => ∃ name, in_quarantine es' name seg ∧ mkQuarantined coll sh id why name ∈ quarantined r'
  end.
Proof.
  simpl. intros H Hsh Hs Hnd Hin. rewrite Hsh in H.
  destruct (sweep_atomicwrite l es) as [es1 n] eqn:Hsw.
  assert (Hs1 : lookup_e SEGMENTS es1 = Some (Dir ls segs)).
  { pose proof (sweep_lookup l es SEGMENTS eq_refl) as Hsl. rewrite Hsw in Hsl. simpl in Hsl. by rewrite Hsl. }
  rewrite Hs1 in H. destruct ls; [|discriminate].
  destruct (repair_segments _ _ _ _ _) as [[es2 r2] e] eqn:Hrun. injection H as <- <- ->.
  destruct (repair_segments_keeps _ _ _ _ _ _ _ _ _ Hrun Hs1) as (_ & _ & Hl & Hc).
  exists es2. split; [done|]. destruct (bad seg) as [why|] eqn:Hb; [by apply Hc|].
  apply Hl; [done|]. intros [id' seg'] Hin' Heq. simpl in Heq. subst id'.
  apply list_elem_of_lookup in Hin as [i Hi]. apply list_elem_of_lookup in Hin' as [j Hj].
  assert (i = j) as <-.
  { apply (NoDup_lookup segs.*1 _ _ id Hnd); rewrite list_lookup_fmap; [by rewrite Hi|by rewrite Hj]. }
  rewrite Hi in Hj. injection Hj as <-. exact Hb.
Qed.
End repair.

Definition parses_braces (b : list Z) : result unit text :=
  match b with 123%Z :: _ => Ok tt | _ => Err (lit "expected value") end.
Definition sample_file (b : list Z) : tree := File (mkFile (Ok (Z.of_nat (length b))) (Ok b)).
(** The storage of the module's tests: one good segment, one with an empty
    configuration, and a leftover directory. *)
Definition sample_store : tree :=
  Dir true [(lit "sy_knowledge", Dir true
    [(lit "0", Dir true
      [(lit ".atomicwriteX1aB", Dir true []);
       (SEGMENTS, Dir true
         [(lit "aaaa", Dir true [(lit "segment.json", sample_file (lit "{}"))]);
          (lit "bbbb", Dir true [(lit "segment.json", sample_file (lit "{}"));
             (lit "vector_storage", Dir true [(lit "config.json", sample_file [])])])])]);
     (lit "snapshots", Dir true [])])].
Definition repair_sample := quarantine_corrupt_segments parses_braces (λ _, None) (λ _, 17%Z) (λ _, None).

Example sample_is_repaired :
  (repair_sample (Some sample_store)).2 =
  Ok (mkReport [mkQuarantined (lit "sy_knowledge") (lit "0") (lit "bbbb")
                  (lit "vector_storage/config.json: 0-byte file") (lit "17-bbbb")] 1 1).
Proof. vm_compute. reflexivity. Qed.

End Repair.

(** * The entry of the knowledge server in the configuration of the agents *)

Module Mcp.
Import Text Paths Wire.

Definition SERVER_NAME : string := "sy-knowledge".

Inductive McpAgent : Type := Claude | Cursor | Gemini | Codex | Goose | Hermes | Antigravity | Agents.
#[export] Instance McpAgent_eq_dec : EqDecision McpAgent.
Proof. solve_decision. Defined.
Definition ALL_AGENTS : list McpAgent := [Claude; Cursor; Codex; Gemini; Goose; Hermes; Antigravity; Agents].

Definition id (a : McpAgent) : string :=
  match a with
  | Claude => "claude" | Cursor => "cursor" | Gemini => "gemini" | Codex => "codex"
  | Goose => "goose" | Hermes => "hermes" | Antigravity => "antigravity" | Agents => "agents"
  end.
Definition label (a : McpAgent) : string :=
  match a with
  | Claude => "Claude Code" | Cursor => "Cursor IDE" | Gemini => "Gemini CLI" | Codex => "OpenAI Codex CLI"
  | Goose => "Goose" | Hermes => "Hermes Agent" | Antigravity => "Google Antigravity"
  | Agents => "Custom agents (~/.agents/)"
  end.

Record McpEntry := mkEntry { command : string; args : list string }.
#[export] Instance McpEntry_eq_dec : EqDecision McpEntry.
Proof. solve_decision. Defined.

(** ** Objects, mappings and tables *)

(** [BTreeMap::insert], on a map listed in the order of its keys. *)
Fixpoint obj_insert {V} (k : string) (v : V) (m : list (string * V)) : list (string * V) :=
  match m with
  | [] => [(k, v)]
  | (k', v') :: m' =>
    if String.eqb k' k then (k, v) :: m'
    else if String.ltb k k' then (k, v) :: m else (k', v') :: obj_insert k v m'
  end.
(** The insertion of a YAML mapping and of a TOML table: at the end, or in
    place. *)
Fixpoint map_insert {V} (k : string) (v : V) (m : list (string * V)) : list (string * V) :=
  match m with
  | [] => [(k, v)]
  | (k', v') :: m' => if String.eqb k' k then (k, v) :: m' else (k', v') :: map_insert k v m'
  end.
Definition obj_remove {V} (k : string) (m : list (string * V)) : list (string * V) :=
  List.filter (λ e, negb (String.eqb e.1 k)) m.
Fixpoint get {V} (k : string) (m : list (string * V)) : option V :=
  match m with [] => None | (k', v) :: m' => if String.eqb k' k then Some v else get k m' end.

Lemma get_insert {V} k (v : V) m k' : get k' (obj_insert k v m) = if decide (k' = k) then Some v else get k' m.
Proof.
  induction m as [|[k0 v0] m IH]; simpl.
  - case_decide; [subst; by rewrite String.eqb_refl|]. by rewrite (proj2 (String.eqb_neq k k')) by congruence.
  - destruct (String.eqb_spec k0 k) as [->|H0]; simpl.
    + case_decide as H; [subst; by rewrite String.eqb_refl|]. by rewrite (proj2 (String.eqb_neq k k')) by congruence.
    + destruct (String.ltb k k0); simpl.
      * case_decide as H; [subst; by rewrite String.eqb_refl|]. by rewrite (proj2 (String.eqb_neq k k')) by congruence.
      * rewrite IH. case_decide as H; [|done]. subst. by rewrite (proj2 (String.eqb_neq k0 k)).
Qed.

Lemma get_map_insert {V} k (v : V) m k' : get k' (map_insert k v m) = if decide (k' = k) then Some v else get k' m.
Proof.
  induction m as [|[k0 v0] m IH]; simpl.
  - case_decide; [subst; by rewrite String.eqb_refl|]. by rewrite (proj2 (String.eqb_neq k k')) by congruence.
  - destruct (String.eqb_spec k0 k) as [->|H0]; simpl.
    + case_decide as H; [subst; by rewrite String.eqb_refl|]. by rewrite (proj2 (String.eqb_neq k k')) by congruence.
    + rewrite IH. case_decide as H; [|done]. subst. by rewrite (proj2 (String.eqb_neq k0 k)).
Qed.

Lemma get_remove {V} k (m : list (string * V)) k' :
  get k' (obj_remove k m) = if decide (k' = k) then None else get k' m.
Proof.
  induction m as [|[k0 v0] m IH]; simpl; [by case_decide|].
  destruct (String.eqb_spec k0 k) as [->|H0]; simpl; rewrite IH; case_decide as H; try done.
  - by rewrite (proj2 (String.eqb_neq k k')) by congruence.
  - subst. by rewrite (proj2 (String.eqb_neq k0 k)).
Qed.

Lemma assoc_get k m : assoc k m = get k m.
Proof. induction m as [|[k' v] m IH]; simpl; [done|]. by rewrite IH. Qed.

(** ** Formats

    What a configuration format does with one document: its parser and
    printer, the entry of a server, its insertion ([Err]: the document has
    another shape) and removal ([None]: there is nothing to remove). *)
Record format (D : Type) := mkFormat {
  parse : text → result D text;
  print : D → text;
  absent : result D text;
  blank_is_empty : bool;
  blank_on_remove : bool;
  private : bool;
  default_ext : text;
  section : string;
  top : string → D → option D;
  get_entry : string → D → option McpEntry;
  set_entry : string → McpEntry → D → result D text;
  del_entry : string → D → option D }.
Arguments parse {D}. Arguments print {D}. Arguments absent {D}. Arguments blank_is_empty {D}.
Arguments blank_on_remove {D}. Arguments private {D}. Arguments default_ext {D}. Arguments section {D}.
Arguments top {D}. Arguments get_entry {D}. Arguments set_entry {D}. Arguments del_entry {D}.

(** What the file operations rely on. *)
Class FormatLaws {D} (f : format D) : Prop := {
  get_set n e d d' : set_entry f n e d = Ok d' → get_entry f n d' = Some e;
  get_set_ne n m e d d' : set_entry f n e d = Ok d' → m ≠ n → get_entry f m d' = get_entry f m d;
  top_set n e d d' k : set_entry f n e d = Ok d' → k ≠ section f → top f k d' = top f k d;
  get_undel n d : del_entry f n d = None → get_entry f n d = None;
  get_del n d d' : del_entry f n d = Some d' → get_entry f n d' = None;
  get_del_ne n m d d' : del_entry f n d = Some d' → m ≠ n → get_entry f m d' = get_entry f m d;
  top_del n d d' k : del_entry f n d = Some d' → k ≠ section f → top f k d' = top f k d }.

(** *** JSON: Claude, Cursor, Gemini *)

Definition as_object (v : json) : option (list (string * json)) := match v with JObj m => Some m | _ => None end.
Definition strings_of (l : list json) : list string := omap json_str l.

Definition entry_with (cmd : string) (v : json) : option McpEntry :=
  c ← jget cmd v ≫= json_str;
  Some (mkEntry c (default [] (strings_of <$> (jget "args" v ≫= json_arr)))).
Definition json_to_entry : json → option McpEntry := entry_with "command".

Definition json_get (n : string) (v : json) : option McpEntry :=
  (jget "mcpServers" v ≫= jget n) ≫= json_to_entry.
Definition json_set (n : string) (e : McpEntry) (root : json) : result json text :=
  let m := default [] (as_object root) in
  match default (JObj []) (assoc "mcpServers" m) with
  | JObj servers =>
    Ok (JObj (obj_insert "mcpServers"
      (JObj (obj_insert n (JObj [("args", JArr (map JStr (args e))); ("command", JStr (command e))]) servers)) m))
  | _ => Err (lit "`mcpServers` is not a JSON object")
  end.
Definition json_del (n : string) (root : json) : option json :=
  m ← as_object root;
  servers ← assoc "mcpServers" m ≫= as_object;
  _ ← assoc n servers;
  Some (JObj (obj_insert "mcpServers" (JObj (obj_remove n servers)) m)).

(** *** YAML: Goose, Hermes *)

Definition yaml_get (key cmd n : string) (v : json) : option McpEntry := (jget key v ≫= jget n) ≫= entry_with cmd.
Definition yaml_set (key : string) (made : string → McpEntry → json) (n : string) (e : McpEntry) (root : json)
    : result json text :=
  match root with
  | JObj m =>
    match default (JObj []) (assoc key m) with
    | JObj servers => Ok (JObj (map_insert key (JObj (map_insert n (made n e) servers)) m))
    | _ => Err (lit "`" ++ lit key ++ lit "` is not a YAML mapping")
    end
  | _ => Err (lit "top-level is not a YAML mapping")
  end.
Definition yaml_del (key n : string) (root : json) : option json :=
  m ← as_object root;
  servers ← assoc key m ≫= as_object;
  _ ← assoc n servers;
  Some (JObj (map_insert key (JObj (obj_remove n servers)) m)).

Definition goose_made (n : string) (e : McpEntry) : json :=
  JObj [("enabled", JBool true); ("type", JStr "stdio"); ("name", JStr n); ("display_name", JStr "sy knowledge");
        ("description", JStr "Semantic search over sy's knowledge plane."); ("cmd", JStr (command e));
        ("args", JArr (map JStr (args e))); ("env_keys", JArr []); ("envs", JObj []); ("timeout", JNum 300);
        ("bundled", JBool false)].
Definition hermes_made (n : string) (e : McpEntry) : json :=
  JObj [("command", JStr (command e)); ("args", JArr (map JStr (args e))); ("enabled", JBool true)].

(** *** TOML: Codex *)

(** [toml_edit::Item]; a value that is neither a string nor an array, an inline
    table for one, by its text. *)
Inductive item : Type :=
| IStr (s : string)
| IArr (l : list item)
| ITable (m : list (string * item))
| IValue (raw : text).
Definition as_table (i : item) : option (list (string * item)) := match i with ITable m => Some m | _ => None end.
Definition item_str (i : item) : option string := match i with IStr s => Some s | _ => None end.
Definition item_arr (i : item) : option (list item) := match i with IArr l => Some l | _ => None end.
Definition item_strings (l : list item) : list string := omap item_str l.
Definition item_top (k : string) (d : item) : option item := as_table d ≫= get k.

Definition codex_get (n : string) (d : item) : option McpEntry :=
  table ← item_top "mcp_servers" d ≫= as_table;
  entry ← get n table ≫= as_table;
  c ← get "command" entry ≫= item_str;
  Some (mkEntry c (default [] (item_strings <$> (get "args" entry ≫= item_arr)))).
Definition codex_set (n : string) (e : McpEntry) (d : item) : result item text :=
  let m := default [] (as_table d) in
  match default (ITable []) (get "mcp_servers" m) with
  | ITable servers =>
    Ok (ITable (map_insert "mcp_servers"
      (ITable (map_insert n (ITable [("command", IStr (command e)); ("args", IArr (map IStr (args e)))]) servers)) m))
  | _ => Err (lit "`mcp_servers` is not a table")
  end.
Definition codex_del (n : string) (d : item) : option item :=
  m ← as_table d;
  servers ← get "mcp_servers" m ≫= as_table;
  _ ← get n servers;
  Some (ITable match obj_remove n servers with
               | [] => obj_remove "mcp_servers" m
               | servers' => map_insert "mcp_servers" (ITable servers') m
               end).

(** *** The four formats and their laws *)

Section formats.
(** [serde_json], [serde_yml] and [toml_edit]. *)
Context (from_str : text → result json text) (to_vec_pretty : json → text).
Context (yaml_from_str : text → result json text) (yaml_to_string : json → text).
Context (toml_parse : text → result item text) (toml_to_string : item → text).

Definition json_format : format json :=
  mkFormat json from_str (λ v, to_vec_pretty v ++ [10%Z]) (Ok (JObj [])) true true false (lit "json") "mcpServers"
    jget json_get json_set json_del.
Definition codex_format : format item :=
  mkFormat item toml_parse toml_to_string (toml_parse []) false false false (lit "toml") "mcp_servers"
    item_top codex_get codex_set codex_del.
Definition goose_format : format json :=
  mkFormat json yaml_from_str yaml_to_string (Ok (JObj [])) true false false (lit "toml") "extensions"
    jget (yaml_get "extensions" "cmd") (yaml_set "extensions" goose_made) (yaml_del "extensions").
Definition hermes_format : format json :=
  mkFormat json yaml_from_str yaml_to_string (Ok (JObj [])) true false true (lit "yaml") "mcp_servers"
    jget (yaml_get "mcp_servers" "command") (yaml_set "mcp_servers" hermes_made) (yaml_del "mcp_servers").

Lemma omap_strings l : strings_of (map JStr l) = l.
Proof. unfold strings_of. induction l as [|x l IH]; [done|]. simpl. by f_equal. Qed.
Lemma omap_items l : item_strings (map IStr l) = l.
Proof. unfold item_strings. induction l as [|x l IH]; [done|]. simpl. by f_equal. Qed.


#[local] Arguments String.eqb : simpl never.

Ltac read_back := repeat first
  [ progress simpl
  | rewrite assoc_get
  | rewrite get_insert
  | rewrite get_map_insert
  | rewrite get_remove
  | rewrite decide_True by done
  | rewrite decide_False by done
  | rewrite String.eqb_refl
  | rewrite (proj2 (String.eqb_neq _ _)) by congruence ].

#[export] Instance json_laws : FormatLaws json_format.
Proof.
  split; simpl; unfold json_set, json_del, json_get, json_to_entry, entry_with.
  - intros n e d d' H. destruct (default _ _) as [| | | | | |s]; simplify_eq. read_back.
    rewrite omap_strings. by destruct e.
  - intros n m e d d' H Hm. destruct d as [| | | | | |o]; simpl in *;
      try (simplify_eq; by read_back).
    destruct (assoc "mcpServers" o) as [[| | | | | |s]|] eqn:Ho; simpl in *; simplify_eq; by read_back.
  - intros n e d d' k H Hk. destruct d as [| | | | | |o]; simpl in *; [..|destruct (default _ _) eqn:?];
      simplify_eq; by read_back.
  - intros n d H. destruct d as [| | | | | |o]; try done. simpl in *.
    destruct (assoc "mcpServers" o) as [[| | | | | |s]|]; try done. simpl in *. by destruct (assoc n s).
  - intros n d d' H. destruct d as [| | | | | |o]; try discriminate. simpl in H.
    destruct (assoc "mcpServers" o) as [[| | | | | |s]|]; try discriminate. simpl in H.
    destruct (assoc n s); try discriminate. simpl in H. simplify_eq. by read_back.
  - intros n m d d' H Hm. destruct d as [| | | | | |o]; try discriminate. simpl in *.
    destruct (assoc "mcpServers" o) as [[| | | | | |s]|]; try discriminate. simpl in *.
    destruct (assoc n s); try discriminate. simpl in H. simplify_eq. by read_back.
  - intros n d d' k H Hk. destruct d as [| | | | | |o]; try discriminate. simpl in *.
    destruct (assoc "mcpServers" o) as [[| | | | | |s]|]; try discriminate. simpl in *.
    destruct (assoc n s); try discriminate. simpl in H. simplify_eq. by read_back.
Qed.

Section yaml.
Context (key cmd : string) (made : string → McpEntry → json).
Context (Hmade : ∀ n e, entry_with cmd (made n e) = Some e).

Lemma yaml_get_set n e d d' : yaml_set key made n e d = Ok d' → yaml_get key cmd n d' = Some e.
Proof.
  unfold yaml_set, yaml_get. destruct d as [| | | | | |o]; try discriminate.
  destruct (default _ _) as [| | | | | |s]; try discriminate. intros [= <-]. by read_back.
Qed.
Lemma yaml_get_set_ne n m e d d' :
  yaml_set key made n e d = Ok d' → m ≠ n → yaml_get key cmd m d' = yaml_get key cmd m d.
Proof.
  unfold yaml_set, yaml_get. intros H Hm. destruct d as [| | | | | |o]; try discriminate. simpl.
  destruct (assoc key o) as [[| | | | | |s]|] eqn:Ho; simpl in *; simplify_eq; by read_back.
Qed.
Lemma yaml_top_set n e d d' k : yaml_set key made n e d = Ok d' → k ≠ key → jget k d' = jget k d.
Proof.
  unfold yaml_set. intros H Hk. destruct d as [| | | | | |o]; try discriminate.
  destruct (default _ _) as [| | | | | |s]; simplify_eq. by read_back.
Qed.
Lemma yaml_del_inv n d d' : yaml_del key n d = Some d' →
  ∃ o s, d = JObj o ∧ assoc key o = Some (JObj s) ∧ d' = JObj (map_insert key (JObj (obj_remove n s)) o).
Proof.
  unfold yaml_del. destruct d as [| | | | | |o]; try discriminate. simpl.
  destruct (assoc key o) as [[| | | | | |s]|] eqn:Ho; try discriminate. simpl.
  destruct (assoc n s); try discriminate. intros [= <-]. eauto.
Qed.
Lemma yaml_get_undel n d : yaml_del key n d = None → yaml_get key cmd n d = None.
Proof.
  unfold yaml_del, yaml_get. destruct d as [| | | | | |o]; try done. simpl.
  destruct (assoc key o) as [[| | | | | |s]|]; try done. simpl. by destruct (assoc n s).
Qed.
Lemma yaml_get_del n d d' : yaml_del key n d = Some d' → yaml_get key cmd n d' = None.
Proof. intros (o & s & -> & Ho & ->)%yaml_del_inv. unfold yaml_get. by read_back. Qed.
Lemma yaml_get_del_ne n m d d' :
  yaml_del key n d = Some d' → m ≠ n → yaml_get key cmd m d' = yaml_get key cmd m d.
Proof.
  intros (o & s & -> & Ho & ->)%yaml_del_inv Hm. unfold yaml_get. simpl. rewrite Ho. by read_back.
Qed.
Lemma yaml_top_del n d d' k : yaml_del key n d = Some d' → k ≠ key → jget k d' = jget k d.
Proof. intros (o & s & -> & Ho & ->)%yaml_del_inv Hk. by read_back. Qed.
End yaml.

Lemma goose_back n e : entry_with "cmd" (goose_made n e) = Some e.
Proof.
  transitivity (Some (mkEntry (command e) (strings_of (map JStr (args e))))); [reflexivity|].
  rewrite omap_strings. by destruct e.
Qed.
Lemma hermes_back n e : entry_with "command" (hermes_made n e) = Some e.
Proof.
  transitivity (Some (mkEntry (command e) (strings_of (map JStr (args e))))); [reflexivity|].
  rewrite omap_strings. by destruct e.
Qed.

#[export] Instance goose_laws : FormatLaws goose_format.
Proof.
  split; simpl; eauto using yaml_get_set, yaml_get_set_ne, yaml_top_set, yaml_get_undel, yaml_get_del,
     yaml_get_del_ne, yaml_top_del, goose_back.
Qed.
#[export] Instance hermes_laws : FormatLaws hermes_format.
Proof.
  split; simpl; eauto using yaml_get_set, yaml_get_set_ne, yaml_top_set, yaml_get_undel, yaml_get_del,
     yaml_get_del_ne, yaml_top_del, hermes_back.
Qed.

#[export] Instance codex_laws : FormatLaws codex_format.
Proof.
  assert (Hdel : ∀ n d d', codex_del n d = Some d' → ∃ o s, d = ITable o ∧ get "mcp_servers" o = Some (ITable s) ∧
    d' = ITable match obj_remove n s with
                | [] => obj_remove "mcp_servers" o
                | s' => map_insert "mcp_servers" (ITable s') o
                end).
  { unfold codex_del. intros n d d'. destruct d as [| |o|]; try discriminate. simpl.
    destruct (get "mcp_servers" o) as [[| |s|]|] eqn:Ho; try discriminate. simpl.
    destruct (get n s); try discriminate. intros [= <-]. eauto. }
  split; simpl; unfold codex_set, codex_get, item_top.
  - intros n e d d' H. destruct (default _ _) as [| |s|]; simplify_eq. read_back.
    rewrite omap_items. by destruct e.
  - intros n m e d d' H Hm. destruct d as [| |o|]; simpl in *; try (simplify_eq; by read_back).
    destruct (get "mcp_servers" o) as [[| |s|]|] eqn:Ho; simpl in *; simplify_eq; by read_back.
  - intros n e d d' k H Hk. destruct d as [| |o|]; simpl in *; [..|destruct (default _ _) eqn:?|];
      simplify_eq; by read_back.
  - unfold codex_del, item_top. intros n d H. destruct d as [| |o|]; try done. simpl in *.
    destruct (get "mcp_servers" o) as [[| |s|]|]; try done. simpl in *. by destruct (get n s).
  - intros n d d' (o & s & -> & Ho & ->)%Hdel. pose proof (get_remove n s n) as Hg. rewrite decide_True in Hg by done.
    destruct (obj_remove n s); read_back; [done|]. simpl in Hg. by rewrite Hg.
  - intros n m d d' (o & s & -> & Ho & ->)%Hdel Hm. pose proof (get_remove n s m) as Hg. rewrite decide_False in Hg by done.
    destruct (obj_remove n s); read_back; rewrite Ho; simpl; rewrite <- Hg; by read_back.
  - intros n d d' k (o & s & -> & Ho & ->)%Hdel Hk. destruct (obj_remove n s); by read_back.
Qed.

(** ** Files

    A file by its permission bits and what [read_to_string] answers; the
    directories; the bits a created file gets. *)
Record fnode := mkNode { mode : Z; content : result text text }.
Record Fs := mkFs { files : gmap path fnode; dirs : gset path }.
Definition is_file (fs : Fs) (p : path) : bool := bool_decide (is_Some (files fs !! p)).
Definition is_dir (fs : Fs) (p : path) : bool := bool_decide (p ∈ dirs fs).
Definition exists_ (fs : Fs) (p : path) : bool := is_file fs p || is_dir fs p.
Definition set_files (m : gmap path fnode) (fs : Fs) : Fs := mkFs m (dirs fs).

(** [with_extension(format!("{ext}.sy-tmp"))]. *)
Definition tmp_of (default_ext : text) (p : path) : path :=
  match extension p with
  | Some _ => p ++ lit ".sy-tmp"
  | None => p ++ [DOT] ++ default_ext ++ lit ".sy-tmp"
  end.

Context (new_mode : Z) (create_refused : path → option text).

(** [atomic_write_json], [atomic_write_str] and [atomic_write_str_private];
    [File::create] keeps the bits of a file that is there. *)
Definition atomic_write (keep_mode : bool) (default_ext : text) (p : path) (body : text) (fs : Fs)
    : Fs * result unit text :=
  let tmp := tmp_of default_ext p in
  let old := default 384%Z ((λ n, Z.land (mode n) 511) <$> files fs !! p) in
  match create_refused tmp with
  | Some why => (fs, Err why)
  | None =>
    if is_dir fs tmp then (fs, Err (lit "create"))
    else
      let made := match files fs !! tmp with Some n => mode n | None => new_mode end in
      let node := mkNode (if keep_mode then old else made) (Ok body) in
      if is_dir fs p then (set_files (<[tmp := node]> (files fs)) fs, Err (lit "rename"))
      else (set_files (<[p := node]> (delete tmp (files fs))) fs, Ok tt)
  end.

Section entry.
Context {D : Type} (f : format D).

Definition load (blank : bool) (p : path) (fs : Fs) : result D text :=
  match files fs !! p with
  | None => absent f
  | Some n =>
    match content n with
    | Err e => Err e
    | Ok b => if blank && bool_decide (trim b = []) then absent f else parse f b
    end
  end.

Definition read_entry (p : path) (n : string) (fs : Fs) : option McpEntry :=
  match files fs !! p with
  | None => None
  | Some node =>
    match content node with
    | Err _ => None
    | Ok b => match parse f b with Ok d => get_entry f n d | Err _ => None end
    end
  end.

Definition write_entry (p : path) (n : string) (e : McpEntry) (fs : Fs) : Fs * result unit text :=
  match rbind (load (blank_is_empty f) p fs) (set_entry f n e) with
  | Err why => (fs, Err why)
  | Ok d => atomic_write (private f) (default_ext f) p (print f d) fs
  end.

Definition remove_entry (p : path) (n : string) (fs : Fs) : Fs * result bool text :=
  if is_file fs p then
    match load (blank_on_remove f) p fs with
    | Err why => (fs, Err why)
    | Ok d =>
      match del_entry f n d with
      | None => (fs, Ok false)
      | Some d' =>
        match atomic_write (private f) (default_ext f) p (print f d') fs with
        | (fs', Ok _) => (fs', Ok true)
        | (fs', Err why) => (fs', Err why)
        end
      end
    end
  else (fs, Ok false).

Lemma atomic_write_Ok keep ext p body fs fs' :
  atomic_write keep ext p body fs = (fs', Ok tt) →
  is_dir fs p = false ∧ dirs fs' = dirs fs ∧
  (∃ m, files fs' !! p = Some (mkNode m (Ok body)) ∧
        (keep = true → m = default 384%Z ((λ n, Z.land (mode n) 511) <$> files fs !! p))) ∧
  ∀ q, q ≠ p → q ≠ tmp_of ext p → files fs' !! q = files fs !! q.
Proof.
  unfold atomic_write. destruct (create_refused _); [discriminate|].
  destruct (is_dir fs (tmp_of ext p)); [discriminate|]. destruct (is_dir fs p); intros [= <-].
  split; [done|]. split; [done|]. split.
  - eexists. simpl. rewrite lookup_insert_eq. split; [done|]. by intros ->.
  - intros q Hp Ht. simpl. by rewrite lookup_insert_ne, lookup_delete_ne by congruence.
Qed.

Lemma read_written p n fs m b d :
  files fs !! p = Some (mkNode m (Ok b)) → parse f b = Ok d → read_entry p n fs = get_entry f n d.
Proof. unfold read_entry. intros -> Hp. simpl. by rewrite Hp. Qed.
End entry.

(** ** Agents *)

Definition format_of (a : McpAgent) : option {D & format D} :=
  match a with
  | Claude | Cursor | Gemini => Some (existT json json_format)
  | Codex => Some (existT item codex_format)
  | Goose => Some (existT json goose_format)
  | Hermes => Some (existT json hermes_format)
  | Antigravity | Agents => None
  end.

Context (home : option path).
(** An empty [HOME] counts as none. *)
Definition home_dir : option path := match home with Some [] => None | h => h end.

Definition agent_home (h : path) (a : McpAgent) : path :=
  join h (lit match a with
              | Claude => ".claude" | Cursor => ".cursor" | Gemini => ".gemini" | Codex => ".codex"
              | Goose => ".config/goose" | Hermes => ".hermes" | Antigravity => ".antigravity" | Agents => ".agents"
              end).
Definition config_path (h : path) (a : McpAgent) : path :=
  match a with
  | Claude => join h (lit ".claude.json")
  | Cursor => join (agent_home h a) (lit "mcp.json")
  | Gemini => join (agent_home h a) (lit "settings.json")
  | Codex => join (agent_home h a) (lit "config.toml")
  | Goose | Hermes => join (agent_home h a) (lit "config.yaml")
  | Antigravity | Agents => agent_home h a
  end.
Definition installed (h : path) (a : McpAgent) (fs : Fs) : bool :=
  match a with
  | Claude => exists_ fs (agent_home h a) || exists_ fs (config_path h a)
  | _ => is_dir fs (agent_home h a)
  end.

Record CurrentState := mkState { spath : path; writable : bool; registered : option McpEntry }.

Definition read_state (a : McpAgent) (fs : Fs) : option CurrentState :=
  match home_dir with
  | None => None
  | Some h =>
    if installed h a fs then
      Some match format_of a with
           | Some (existT _ f) => mkState (config_path h a) true (read_entry f (config_path h a) SERVER_NAME fs)
           | None => mkState (config_path h a) false None
           end
    else None
  end.

Definition apply_add (a : McpAgent) (e : McpEntry) (fs : Fs) : Fs * result bool text :=
  match read_state a fs with
  | None => (fs, Err (lit (label a) ++ lit " home dir missing; nothing to write"))
  | Some st =>
    match format_of a with
    | None => (fs, Err (lit (label a) ++ lit ": no canonical MCP config path is supported yet"))
    | Some (existT _ f) =>
      if bool_decide (registered st = Some e) then (fs, Ok false)
      else match write_entry f (spath st) SERVER_NAME e fs with
           | (fs', Ok _) => (fs', Ok true)
           | (fs', Err why) => (fs', Err why)
           end
    end
  end.

Definition apply_remove (a : McpAgent) (fs : Fs) : Fs * result bool text :=
  match read_state a fs with
  | None => (fs, Ok false)
  | Some st =>
    match format_of a, registered st with
    | Some (existT _ f), Some _ => remove_entry f (spath st) SERVER_NAME fs
    | _, _ => (fs, Ok false)
    end
  end.

(** [resolved_sy_command] and [desired_entry]: the path of the executable,
    with its links resolved when they can be. *)
Definition resolved_sy_command (current_exe : option string) (canonicalize : string → option string)
    (which_sy : option string) : string :=
  match current_exe with
  | Some p => default p (canonicalize p)
  | None => default "sy" which_sy
  end.
Definition desired_entry (cmd : string) : McpEntry := mkEntry cmd ["knowledge"; "mcp"].

Lemma format_lawful a x : format_of a = Some x → FormatLaws (projT2 x).
Proof. destruct a; intros [= <-]; simpl; apply _. Qed.

(** The document an operation writes is what its text parses to: the round trip
    of the format's library, at this document. *)
Definition add_written_back (a : McpAgent) (e : McpEntry) (fs : Fs) : Prop :=
  match format_of a, home_dir with
  | Some (existT _ f), Some h =>
    ∀ d d', load f (blank_is_empty f) (config_path h a) fs = Ok d → set_entry f SERVER_NAME e d = Ok d' →
    parse f (print f d') = Ok d'
  | _, _ => True
  end.
Definition remove_written_back (a : McpAgent) (fs : Fs) : Prop :=
  match format_of a, home_dir with
  | Some (existT _ f), Some h =>
    ∀ d d', load f (blank_on_remove f) (config_path h a) fs = Ok d → del_entry f SERVER_NAME d = Some d' →
    parse f (print f d') = Ok d'
  | _, _ => True
  end.

Definition registered_in (a : McpAgent) (fs : Fs) : option McpEntry := read_state a fs ≫= registered.
(** The files an operation on the agent may touch. *)
Definition touches (a : McpAgent) (q : path) : Prop :=
  match format_of a, home_dir with
  | Some (existT _ f), Some h => q = config_path h a ∨ q = tmp_of (default_ext f) (config_path h a)
  | _, _ => False
  end.

Lemma installed_kept h a fs fs' : dirs fs' = dirs fs → is_Some (files fs' !! config_path h a) →
  installed h a fs = true → installed h a fs' = true.
Proof.
  intros Hd Hp. unfold installed, exists_, is_dir, is_file. rewrite Hd.
  destruct a; try done. intros _. by rewrite (bool_decide_eq_true_2 _ Hp), orb_true_r.
Qed.

Lemma read_state_Some a fs st : read_state a fs = Some st →
  ∃ h, home_dir = Some h ∧ installed h a fs = true ∧ spath st = config_path h a ∧
  registered st = match format_of a with
                  | Some (existT _ f) => read_entry f (config_path h a) SERVER_NAME fs
                  | None => None
                  end.
Proof.
  unfold read_state. destruct home_dir as [h|]; [|discriminate]. destruct (installed h a fs) eqn:Hi; [|discriminate].
  intros [= <-]. exists h. split; [done|]. split; [exact Hi|]. by destruct (format_of a) as [[D f]|].
Qed.

Lemma registered_written a h D (f : format D) fs fs' m d :
  format_of a = Some (existT D f) → home_dir = Some h → installed h a fs = true → dirs fs' = dirs fs →
  files fs' !! config_path h a = Some (mkNode m (Ok (print f d))) → parse f (print f d) = Ok d →
  ∃ st, read_state a fs' = Some st ∧ spath st = config_path h a ∧ registered st = get_entry f SERVER_NAME d.
Proof.
  intros Hf Hh Hi Hd Hw Hp. unfold read_state. rewrite Hh, Hf.
  rewrite (installed_kept h a fs fs') by (done || by rewrite Hw). eexists. split; [done|]. split; [done|]. simpl.
  by apply (read_written f _ _ _ m (print f d)).
Qed.

Lemma already_registered a e fs st D (f : format D) :
  read_state a fs = Some st → format_of a = Some (existT D f) → registered st = Some e →
  registered_in a fs = Some e ∧ apply_add a e fs = (fs, Ok false).
Proof.
  intros Hs Hf Hr. unfold registered_in, apply_add. rewrite Hs, Hf. simpl. rewrite Hr.
  split; [done|]. by rewrite bool_decide_eq_true_2.
Qed.

(** C17. Adding the knowledge server to an agent's configuration, when it
    answers, leaves exactly the entry asked for registered, whatever the format
    of the agent and whatever was registered before; a second add then changes
    nothing and says so; [false] means nothing was written; and no file but the
    configuration and its temporary is touched. *)
Theorem added_entry_is_read_back a e fs fs' b :
  add_written_back a e fs → apply_add a e fs = (fs', Ok b) →
  registered_in a fs' = Some e ∧ apply_add a e fs' = (fs', Ok false) ∧ (b = false → fs' = fs) ∧
  ∀ q, ¬ touches a q → files fs' !! q = files fs !! q.
Proof.
  intros Hback Hadd. unfold apply_add in Hadd. destruct (read_state a fs) as [st|] eqn:Hs; [|discriminate].
  destruct (format_of a) as [[D f]|] eqn:Hf; [|discriminate].
  case_bool_decide as Hr; [injection Hadd as <- <-; destruct (already_registered _ _ _ _ _ _ Hs Hf Hr); auto|].
  destruct (read_state_Some _ _ _ Hs) as (h & Hh & Hi & Hp & _).
  unfold add_written_back in Hback. rewrite Hf, Hh in Hback. rewrite Hp in Hadd. unfold write_entry in Hadd.
  destruct (load _ _ _ _) as [d|] eqn:Hl; [|discriminate]. simpl in Hadd.
  destruct (set_entry f SERVER_NAME e d) as [d'|] eqn:Hset; [|discriminate].
  destruct (atomic_write _ _ _ _ _) as [fs1 [[]|]] eqn:Hw; [|discriminate]. injection Hadd as <- <-.
  apply atomic_write_Ok in Hw as (_ & Hd & (m & Hin & _) & Hrest).
  destruct (registered_written _ _ _ _ _ _ _ _ Hf Hh Hi Hd Hin (Hback _ _ eq_refl Hset)) as (st' & Hs' & _ & Hreg).
  pose proof (format_lawful _ _ Hf) as Hlaw. simpl in Hlaw. rewrite (get_set _ _ _ _ Hset) in Hreg.
  destruct (already_registered _ _ _ _ _ _ Hs' Hf Hreg). split; [done|]. split; [done|]. split; [done|].
  intros q Hq. unfold touches in Hq. rewrite Hf, Hh in Hq. apply Hrest; tauto.
Qed.

Lemma blank_refused a x t : format_of a = Some x → (∀ t v, trim t = [] → from_str t ≠ Ok v) → trim t = [] →
  blank_on_remove (projT2 x) = true → ∀ d, parse (projT2 x) t ≠ Ok d.
Proof. destruct a; intros [= <-] Hb Ht; simpl; try discriminate; intros _ d; by apply Hb. Qed.

(** Removing it, when the call answers, leaves it unregistered, for an agent
    whose files are there; blank JSON does not parse. *)
Theorem removed_entry_is_gone a fs fs' b :
  (∀ t v, trim t = [] → from_str t ≠ Ok v) → remove_written_back a fs →
  apply_remove a fs = (fs', Ok b) →
  registered_in a fs' = None ∧ (b = false → fs' = fs) ∧ ∀ q, ¬ touches a q → files fs' !! q = files fs !! q.
Proof.
  intros Hblank Hback Hrem. unfold apply_remove in Hrem.
  destruct (read_state a fs) as [st|] eqn:Hs.
  2: { injection Hrem as <- <-. unfold registered_in. by rewrite Hs. }
  destruct (format_of a) as [[D f]|] eqn:Hf.
  2: { injection Hrem as <- <-. unfold registered_in. rewrite Hs. split; [|done].
       apply read_state_Some in Hs as (h & _ & _ & _ & Hr). by rewrite Hf in Hr. }
  destruct (read_state_Some _ _ _ Hs) as (h & Hh & Hi & Hp & Hreg). rewrite Hf in Hreg.
  destruct (registered st) as [e|] eqn:Hr.
  2: { injection Hrem as <- <-. unfold registered_in. rewrite Hs. by split. }
  unfold remove_written_back in Hback. rewrite Hf, Hh in Hback. rewrite Hp in Hrem. unfold remove_entry in Hrem.
  unfold read_entry in Hreg. unfold load in Hrem, Hback. unfold is_file in Hrem.
  destruct (files fs !! config_path h a) as [[m [t|]]|] eqn:Hfile; try discriminate Hreg.
  simpl in *. destruct (parse f t) as [d|] eqn:Hparse; [|discriminate].
  assert (Hnb : blank_on_remove f && bool_decide (trim t = []) = false).
  { apply not_true_iff_false. rewrite andb_true_iff, bool_decide_eq_true. intros [Hb Ht].
    exact (blank_refused _ _ _ Hf Hblank Ht Hb _ Hparse). }
  rewrite Hnb in *. pose proof (format_lawful _ _ Hf) as Hlaw. simpl in Hlaw.
  destruct (del_entry f SERVER_NAME d) as [d'|] eqn:Hdel.
  2: { apply get_undel in Hdel. congruence. }
  destruct (atomic_write _ _ _ _ _) as [fs1 [[]|]] eqn:Hw; [|discriminate]. injection Hrem as <- <-.
  apply atomic_write_Ok in Hw as (_ & Hd & (m' & Hin & _) & Hrest).
  destruct (registered_written _ _ _ _ _ _ _ _ Hf Hh Hi Hd Hin (Hback _ _ eq_refl Hdel)) as (st' & Hs' & _ & Hreg').
  rewrite (get_del _ _ _ Hdel) in Hreg'. unfold registered_in. rewrite Hs'. split; [done|]. split; [done|].
  intros q Hq. unfold touches in Hq. rewrite Hf, Hh in Hq. apply Hrest; tauto.
Qed.

(** Hermes' configuration keeps its permission bits through an edit. *)
Lemma hermes_keeps_its_mode h e fs fs' n :
  home_dir = Some h → files fs !! config_path h Hermes = Some n → (0 <= mode n < 512)%Z →
  apply_add Hermes e fs = (fs', Ok true) → mode <$> files fs' !! config_path h Hermes = Some (mode n).
Proof.
  intros Hh Hn Hm Hadd. unfold apply_add in Hadd. destruct (read_state Hermes fs) as [st|] eqn:Hs; [|discriminate].
  destruct (read_state_Some _ _ _ Hs) as (h' & Hh' & _ & Hp & _). rewrite Hh in Hh'. injection Hh' as <-.
  simpl in Hadd. case_bool_decide; [discriminate|]. rewrite Hp in Hadd. unfold write_entry in Hadd.
  destruct (rbind _ _) as [d|]; [|discriminate].
  destruct (atomic_write _ _ _ _ _) as [fs1 [[]|]] eqn:Hw; [|discriminate]. injection Hadd as <-.
  apply atomic_write_Ok in Hw as (_ & _ & (m & Hin & Hk) & _). rewrite Hin. simpl.
  rewrite (Hk eq_refl), Hn. simpl. f_equal. change 511%Z with (Z.ones 9). by rewrite Z.land_ones, Z.mod_small by lia.
Qed.
End formats.

(** ** A sample: Claude's configuration, private to the user *)

Definition sample_entry : McpEntry := desired_entry "/usr/bin/sy".
Definition sample_doc : json :=
  JObj [("mcpServers", JObj [(SERVER_NAME, JObj [("args", JArr [JStr "knowledge"; JStr "mcp"]);
                                                 ("command", JStr "/usr/bin/sy")])])].
Definition sample_from_str (t : text) : result json text :=
  if bool_decide (t = lit "{}") then Ok (JObj [])
  else if bool_decide (t = lit "doc" ++ [10%Z]) then Ok sample_doc else Err (lit "expected value").
Definition sample_pretty (v : json) : text := lit "doc".
Definition no_toml (t : text) : result item text := Ok (ITable []).
Definition sample_fs : Fs := mkFs {[ lit "/h/.claude.json" := mkNode 384 (Ok (lit "{}")) ]} {[ lit "/h/.claude" ]}.
Definition sample_add (a : McpAgent) : McpEntry → Fs → Fs * result bool text :=
  apply_add sample_from_str sample_pretty sample_from_str sample_pretty no_toml (λ _, []) 420 (λ _, None)
    (Some (lit "/h")) a.

Lemma added_entry_is_read_back_witness :
  (sample_add Claude sample_entry sample_fs).2 = Ok true ∧
  sample_add Claude sample_entry (sample_add Claude sample_entry sample_fs).1 =
    ((sample_add Claude sample_entry sample_fs).1, Ok false).
Proof.
  split; [vm_compute; reflexivity|].
  destruct (added_entry_is_read_back sample_from_str sample_pretty sample_from_str sample_pretty no_toml (λ _, [])
              420 (λ _, None) (Some (lit "/h")) Claude sample_entry sample_fs
              (sample_add Claude sample_entry sample_fs).1 true) as (_ & H & _).
  - simpl. intros d d' Hl. vm_compute in Hl. injection Hl as <-. intros Hs. vm_compute in Hs. injection Hs as <-.
    vm_compute. reflexivity.
  - vm_compute. reflexivity.
  - exact H.
Defined.

(** An edit leaves a private configuration of Claude readable by everybody the
    umask allows. *)
Example claude_rewrite_widens :
  mode <$> files (sample_add Claude sample_entry sample_fs).1 !! lit "/h/.claude.json" = Some 420%Z ∧
  mode <$> files sample_fs !! lit "/h/.claude.json" = Some 384%Z.
Proof. split; vm_compute; reflexivity. Qed.
End Mcp.

(** * [sy auto-configure] *)

Module Auto.
Import Text Paths Utf8 KQuery.
#[local] Existing Instance Mcp.McpEntry_eq_dec.

Record ManifestTemplate := mkTemplate {
  tname : text; include : list text; exclude : list text; tags : list text;
  max_depth : option Z; max_file_bytes : option Z }.
Inductive Action : Type :=
| AddKnowledgeSource (p : path) (m : Sources.SourceMode)
| DropQdrManifest (folder : path) (t : ManifestTemplate)
| AddMcpServer (a : Mcp.McpAgent) (n : string) (command : string) (args : list string)
| RemoveMcpServer (a : Mcp.McpAgent) (n : string)
| Hint (message : text).
Record Suggestion := mkSuggestion { detector_id : string; action : Action; reason : text }.
Record ProbeEnv := mkEnv {
  home : path; xdg_documents : option path; xdg_download : option path;
  installed_bins : list text; flatpak_apps : list text }.
Record Detector := mkDetector { id : string; label : text; default_on : bool; probe : ProbeEnv → list Suggestion }.

Definition has_app (key : string) (env : ProbeEnv) : bool :=
  bool_decide (lit key ∈ installed_bins env) || existsb (λ a, Lines.contains a (lit key)) (flatpak_apps env).

Definition select_detectors (all : list Detector) (only skip : list string) : list Detector :=
  List.filter (λ d,
    if negb (bool_decide (only = [])) then bool_decide (id d ∈ only)
    else if default_on d then negb (bool_decide (id d ∈ skip))
    else bool_decide (id d ∈ only)) all.

Definition suggest (d : string) (a : Action) (r : text) : Suggestion := mkSuggestion d a r.
Definition drop_qdr_manifest (d : string) (folder : path) (t : ManifestTemplate) (r : text) : Suggestion :=
  mkSuggestion d (DropQdrManifest folder t) r.
Definition folder_basename (p : path) : text := default (lit "folder") (file_name p).
Definition lits (l : list string) : list text := map lit l.

(** ** Manifests *)

Definition hex_digit (n : Z) : char := (if n <? 10 then 48 + n else 55 + n)%Z.
(** [{:04X}] of a number below 16^4. *)
Definition hex4 (n : Z) : text :=
  [hex_digit (n / 4096 mod 16); hex_digit (n / 256 mod 16); hex_digit (n / 16 mod 16); hex_digit (n mod 16)]%Z.
Definition escape_char (c : char) : text :=
  (if c =? 34 then [92; 34]
   else if c =? 92 then [92; 92]
   else if c =? 10 then [92; 110]
   else if c =? 13 then [92; 114]
   else if c =? 9 then [92; 116]
   else if c <? 32 then 92 :: 117 :: hex4 c
   else [c])%Z.
Definition toml_str (s : text) : text := [34%Z] ++ concat (map escape_char s) ++ [34%Z].

Fixpoint join_with (sep : text) (l : list text) : text :=
  match l with
  | [] => []
  | [x] => x
  | x :: l' => x ++ sep ++ join_with sep l'
  end.
Definition toml_str_array (l : list text) : text := lit "[" ++ join_with (lit ", ") (map toml_str l) ++ lit "]".

Definition line (s : text) : text := s ++ [10%Z].
Definition array_line (key : string) (l : list text) : text :=
  match l with [] => [] | _ => line (lit key ++ toml_str_array l) end.
Definition number_line (key : string) (n : option Z) : text :=
  match n with None => [] | Some n => line (lit key ++ show_nat n) end.
Definition render_manifest (t : ManifestTemplate) : text :=
  line (lit "# Auto-generated by `sy auto-configure`. Edit freely.") ++ line (lit "[knowledge]") ++
  line (lit "name    = " ++ toml_str (tname t)) ++ array_line "tags    = " (tags t) ++
  array_line "include = " (include t) ++ array_line "exclude = " (exclude t) ++
  number_line "max_depth = " (max_depth t) ++ number_line "max_file_bytes = " (max_file_bytes t).

(** ** Probes *)

Section probes.
(** An entry of a walk: its path and whether the walk saw a directory. *)
Context (is_dir is_file : path → bool) (entries_of : path → nat) (walk_capped : path → nat → list (path * bool)).

Definition under (env : ProbeEnv) (rel : string) : path := join (home env) (lit rel).

Definition push_root (roots : list path) (p : path) : list path :=
  if is_dir p && negb (existsb (path_eq p) roots) then roots ++ [p] else roots.
Definition note_probe_roots (env : ProbeEnv) : list path :=
  foldl push_root [] (option_list (xdg_documents env) ++
    map (under env) ["Documents"; "Notes"; "notes"; "Obsidian"; "Vault"; "Vaults"; "Knowledge"; "knowledge"]).

Definition probe_xdg_documents (env : ProbeEnv) : list Suggestion :=
  match xdg_documents env with
  | None => []
  | Some d => [suggest "xdg-documents" (AddKnowledgeSource d Sources.Discover)
      (lit "XDG Documents at " ++ d ++ ulit " — register as discovery root so per-folder qdr.toml decides what's indexed")]
  end.
Definition probe_xdg_downloads (env : ProbeEnv) : list Suggestion :=
  match xdg_download env with
  | None => []
  | Some d => [suggest "xdg-downloads" (AddKnowledgeSource d Sources.Discover)
      (lit "XDG Downloads at " ++ d ++ ulit " — register as discovery root (drop qdr.toml in subfolders worth indexing)")]
  end.
Definition probe_home_knowledge (env : ProbeEnv) : list Suggestion :=
  match List.find (λ root, is_dir root && negb (entries_of root =? 0)) (map (under env) ["knowledge"; "Knowledge"]) with
  | None => []
  | Some root => [suggest "home-knowledge-dir" (AddKnowledgeSource root Sources.Discover)
      (lit "Curated knowledge folder at " ++ root ++
       ulit " — register as discovery root so per-subfolder qdr.toml decides what's indexed")]
  end.

(** *** Telegram exports *)

Definition insert_path (seen : list path) (p : path) : list path :=
  if existsb (path_eq p) seen then seen else seen ++ [p].
Definition export_of (e : path * bool) : option path :=
  match file_name e.1 with
  | None => None
  | Some base =>
    if is_dir e.1 && starts_with base (lit "ChatExport_") then Some e.1
    else if bool_decide (base = lit "result.json") then
      match parent e.1 with
      | Some p => if existsb (λ n, is_dir (join p (lit n))) ["photos"; "video_files"; "voice_messages"] then Some p else None
      | None => None
      end
    else None
  end.
Definition path_under (f k : path) : bool := bool_decide (components k `prefix_of` components f).
Definition keep_outermost (found : list path) : list path :=
  foldl (λ keep f, if existsb (path_under f) keep then keep else keep ++ [f]) []
    (Lists.sort_by (λ a b, Repair.key_leb (components a) (components b)) found).
Definition telegram_roots (env : ProbeEnv) : list path :=
  List.filter is_dir (option_list (xdg_download env) ++ option_list (xdg_documents env) ++
                      map (under env) ["knowledge"; "Knowledge"]).
Definition telegram_template (folder : path) : ManifestTemplate :=
  mkTemplate (lit "telegram-" ++ folder_basename folder) (lits ["**/messages*.html"; "**/result.json"; "**/*.txt"])
    (lits ["**/photos/**"; "**/stickers/**"; "**/voice_messages/**"; "**/video_files/**"; "**/round_video_messages/**";
           "**/files/**"; "**/contacts/**"; "**/css/**"; "**/js/**"; "**/images/**"])
    (lits ["telegram"; "chat"]) None (Some (100 * 1024 * 1024)%Z).
Definition probe_telegram_exports (env : ProbeEnv) : list Suggestion :=
  let found := foldl insert_path [] (omap export_of (concat (map (λ r, walk_capped r 4) (telegram_roots env)))) in
  map (λ f, drop_qdr_manifest "telegram-exports" f (telegram_template f) (lit "Telegram chat export at " ++ f))
    (keep_outermost found) ++
  if (has_app "telegram" env || has_app "org.telegram.desktop" env) && bool_decide (found = []) then
    [suggest "telegram-exports"
       (Hint (ulit "Telegram is installed but no chat exports were found. Live `tdata/` is encrypted — to make messages searchable, open Telegram → Settings → Advanced → Export Chat History (JSON or HTML)."))
       (lit "Telegram detected but no exports")]
  else [].

(** *** Note applications *)

(** The marker of an application below the roots of notes: the folder that
    holds it, each once. *)
Definition marked (is_marker : path * bool → bool) (also : path → bool) (env : ProbeEnv) : list path :=
  foldl insert_path [] (List.filter also (omap (λ e, if is_marker e then parent e.1 else None)
    (concat (map (λ r, walk_capped r 4) (note_probe_roots env))))).
Definition named (n : string) (e : path * bool) : bool := bool_decide (file_name e.1 = Some (lit n)).

Definition probe_obsidian (env : ProbeEnv) : list Suggestion :=
  map (λ f, drop_qdr_manifest "obsidian-vaults" f
         (mkTemplate (lit "obsidian-" ++ folder_basename f) (lits ["**/*.md"; "**/*.canvas"])
            (lits [".obsidian/**"; ".trash/**"]) (lits ["obsidian"]) None None) (lit "Obsidian vault at " ++ f))
    (marked (λ e, named ".obsidian" e && e.2) (λ _, true) env).
Definition probe_logseq (env : ProbeEnv) : list Suggestion :=
  map (λ f, drop_qdr_manifest "logseq-graphs" f
         (mkTemplate (lit "logseq-" ++ folder_basename f) (lits ["pages/**/*.md"; "journals/**/*.md"; "assets/**/*.md"])
            (lits ["logseq/**"; "**/.recycle/**"]) (lits ["logseq"]) None None) (lit "Logseq graph at " ++ f))
    (marked (λ e, named "logseq" e && e.2) (λ p, is_dir (join p (lit "pages"))) env).
Definition probe_zettlr (env : ProbeEnv) : list Suggestion :=
  map (λ f, drop_qdr_manifest "zettlr-projects" f
         (mkTemplate (lit "zettlr-" ++ folder_basename f) (lits ["**/*.md"]) [] (lits ["zettlr"]) None None)
         (lit "Zettlr project at " ++ f))
    (marked (λ e, named ".zettlr-roots" e && is_file e.1) (λ _, true) env).
Definition probe_joplin (env : ProbeEnv) : list Suggestion :=
  map (λ c, drop_qdr_manifest "joplin-export" c
         (mkTemplate (lit "joplin") (lits ["**/*.md"]) [] (lits ["joplin"]) None None) (lit "Joplin notes folder at " ++ c))
    (foldl insert_path [] (List.filter is_dir
       [under env "Joplin"; match xdg_documents env with Some d => join d (lit "Joplin") | None => [] end])).

(** *** Bruno collections: the folder of the first request of each root. *)
Definition bru_folder (entries : list (path * bool)) (seen : list path) : option path :=
  (fix go (l : list (path * bool)) : option path :=
     match l with
     | [] => None
     | e :: l' =>
       if is_file e.1 && bool_decide (extension e.1 = Some (lit "bru")) then
         match parent e.1 with
         | Some p => if existsb (path_eq p) seen then go l' else Some p
         | None => go l'
         end
       else go l'
     end) entries.
Definition bruno_folders (roots : list path) : list path :=
  foldl (λ seen r, match bru_folder (walk_capped r 5) seen with Some p => seen ++ [p] | None => seen end) [] roots.
Definition probe_bruno (env : ProbeEnv) : list Suggestion :=
  map (λ f, drop_qdr_manifest "bruno-collections" f
         (mkTemplate (lit "bruno-" ++ folder_basename f) (lits ["**/*.bru"; "**/*.json"]) [] (lits ["bruno"; "api"]) None None)
         (lit "Bruno collection at " ++ f))
    (bruno_folders (List.filter is_dir (map (under env) [".var/app/com.usebruno.Bruno"; "Bruno"; "bruno"]))).

(** *** Agents and dotfiles *)

Definition common_excludes : list text :=
  lits ["**/credentials*"; "**/*token*"; "**/oauth*"; "**/auth.json"; "**/*.key"; "**/.credentials.json"; "**/.env*";
        "**/*.pem"; "**/*.p12"; "**/cache/**"; "**/Cache/**"; "**/CachedData/**"; "**/Code Cache/**"; "**/GPUCache/**";
        "**/blob_storage/**"; "**/Service Worker/**"; "**/Crashpad/**"; "**/tool-results/mcp-sy-knowledge-*";
        "**/tool_results/mcp-sy-knowledge-*"; "**/paste-cache/**"; "**/.tmp/**"; "**/tmp/**"; "**/plugins/**";
        "**/agent-tools/**"].
Definition probe_agent_histories (env : ProbeEnv) : list Suggestion :=
  omap (λ rl : string * string,
    let folder := under env rl.1 in
    if is_dir folder then
      Some (drop_qdr_manifest "agent-histories" folder
        (mkTemplate (lit "agent-" ++ lit rl.2)
          (lits ["**/*.md"; "**/*.jsonl"; "**/*.txt"; "file-history/**/*.html"; "skills/**/*.md"; "sessions/**/*.json";
                 "history/**/*.jsonl"; "history/**/*.json"]) common_excludes (lits ["agent"; rl.2]) None
          (Some (5 * 1024 * 1024)%Z)) (lit "AI-agent history at " ++ folder))
    else None)
  [(".claude", "claude"); (".codex", "codex"); (".gemini", "gemini"); (".cursor", "cursor");
   (".antigravity", "antigravity"); (".agents", "agents"); (".hermes", "hermes")].
Definition probe_dotfiles (env : ProbeEnv) : list Suggestion :=
  omap (λ n,
    let p := under env n in
    if is_dir p then
      Some (drop_qdr_manifest "dotfiles" p
        (mkTemplate (lit "dotfiles-" ++ lit n)
          (lits ["**/*.md"; "**/*.toml"; "**/*.yaml"; "**/*.yml"; "**/*.conf"; "**/*.config"; "**/*.sh"])
          (lits ["**/secrets*"; "**/.env*"; "**/*.key"; "**/*token*"]) (lits ["dotfiles"]) None
          (Some (2 * 1024 * 1024)%Z)) (lit "Dotfiles repo at " ++ p))
    else None) ["dotfiles"; ".dotfiles"].

(** *** The knowledge server in the agents *)

(** [auto_mcp::read_state], [sources::mcp_enabled] and
    [auto_mcp::desired_entry], as they answer during the run. *)
Context (read_state : Mcp.McpAgent → option Mcp.CurrentState) (mcp_enabled : bool) (desired : Mcp.McpEntry).

Definition mcp_suggestion (a : Mcp.McpAgent) (env : ProbeEnv) : list Suggestion :=
  let d := ("mcp-" ++ Mcp.id a)%string in
  let name := lit (Mcp.label a) in
  match read_state a with
  | None => []
  | Some st =>
    if negb (Mcp.writable st) then
      [suggest d (Hint (name ++ lit " detected at " ++ Mcp.spath st ++
         ulit " — no canonical MCP config path is supported yet. Drop a writer in src/auto_mcp.rs once the schema is confirmed."))
         (name ++ lit " present, no writable MCP config")]
    else if negb mcp_enabled then
      match Mcp.registered st with
      | Some _ => [suggest d (RemoveMcpServer a Mcp.SERVER_NAME)
                     (lit "[knowledge].mcp_enabled = false; remove sy-knowledge from " ++ name)]
      | None => []
      end
    else if bool_decide (Mcp.registered st = Some desired) then []
    else [suggest d (AddMcpServer a Mcp.SERVER_NAME (Mcp.command desired) (Mcp.args desired))
            (match Mcp.registered st with
             | Some _ => lit "update sy-knowledge entry in " ++ name
             | None => lit "register sy-knowledge in " ++ name
             end)]
  end.

Definition detectors : list Detector :=
  [mkDetector "xdg-documents" (lit "XDG Documents folder as discovery root") true probe_xdg_documents;
   mkDetector "xdg-downloads" (lit "XDG Downloads folder as discovery root") true probe_xdg_downloads;
   mkDetector "home-knowledge-dir" (lit "Curated ~/knowledge or ~/Knowledge folder") true probe_home_knowledge;
   mkDetector "telegram-exports" (lit "Telegram chat exports (ChatExport_*, result.json)") true probe_telegram_exports;
   mkDetector "obsidian-vaults" (lit "Obsidian vaults (.obsidian markers)") true probe_obsidian;
   mkDetector "logseq-graphs" (lit "Logseq graphs (logseq/ + pages/ siblings)") true probe_logseq;
   mkDetector "joplin-export" (lit "Joplin notes export folders") true probe_joplin;
   mkDetector "zettlr-projects" (lit "Zettlr projects (.zettlr-roots)") true probe_zettlr;
   mkDetector "bruno-collections" (lit "Bruno API collections (*.bru trees)") true probe_bruno;
   mkDetector "agent-histories" (lit "AI-agent histories (.claude / .codex / .gemini / .cursor)") true probe_agent_histories;
   mkDetector "dotfiles" (lit "Dotfiles repo (~/dotfiles or ~/.dotfiles)") false probe_dotfiles;
   mkDetector "mcp-claude" (lit "Wire `sy-knowledge` MCP into Claude Code (~/.claude.json)") true (mcp_suggestion Mcp.Claude);
   mkDetector "mcp-cursor" (lit "Wire `sy-knowledge` MCP into Cursor IDE (~/.cursor/mcp.json)") true (mcp_suggestion Mcp.Cursor);
   mkDetector "mcp-codex" (lit "Wire `sy-knowledge` MCP into OpenAI Codex CLI (~/.codex/config.toml)") true (mcp_suggestion Mcp.Codex);
   mkDetector "mcp-gemini" (lit "Wire `sy-knowledge` MCP into Gemini CLI (~/.gemini/settings.json)") true (mcp_suggestion Mcp.Gemini);
   mkDetector "mcp-goose" (lit "Wire `sy-knowledge` MCP into Goose (~/.config/goose/config.yaml)") true (mcp_suggestion Mcp.Goose);
   mkDetector "mcp-hermes" (lit "Wire `sy-knowledge` MCP into Hermes Agent (~/.hermes/config.yaml)") true (mcp_suggestion Mcp.Hermes);
   mkDetector "mcp-antigravity" (lit "Wire `sy-knowledge` MCP into Google Antigravity") false (mcp_suggestion Mcp.Antigravity);
   mkDetector "mcp-agents" (lit "Wire `sy-knowledge` MCP into custom ~/.agents/ runtime") false (mcp_suggestion Mcp.Agents)].
End probes.

(** ** Applying a plan *)

(** The sources of [sy.toml], the manifests by their folders, and the agents'
    configurations; then the counts of the run. *)
Record World (C : Type) := mkWorld { section : Sources.KnowledgeSection; manifests : gmap (list text) text; agents : C }.
Arguments mkWorld {C}. Arguments section {C}. Arguments manifests {C}. Arguments agents {C}.
Record Counts := mkCounts { added : nat; wrote : nat; mcp_changed : nat; skipped : nat; errs : list text }.
Definition no_counts : Counts := mkCounts 0 0 0 0 [].

Section apply.
Context {C : Type}.
(** [canonicalize], home and working directory of [sources::add]; refusals of
    [fs::write]; the two operations of [auto_mcp]. *)
Context (home cwd : option path) (canonicalize : path → option path) (write_refused : path → option text).
Context (apply_add : Mcp.McpAgent → Mcp.McpEntry → C → C * result bool text).
Context (apply_remove : Mcp.McpAgent → C → C * result bool text).

Definition write_manifest (folder : path) (t : ManifestTemplate) (force : bool) (m : gmap (list text) text)
    : gmap (list text) text * result bool text :=
  match m !! components folder with
  | Some _ => if force then
                match write_refused folder with
                | Some why => (m, Err why)
                | None => (<[components folder := render_manifest t]> m, Ok true)
                end
              else (m, Ok false)
  | None => match write_refused folder with
            | Some why => (m, Err why)
            | None => (<[components folder := render_manifest t]> m, Ok true)
            end
  end.

Definition add_source (p : path) (m : Sources.SourceMode) (k : Sources.KnowledgeSection)
    : Sources.KnowledgeSection * result bool text :=
  match Sources.add home cwd canonicalize p false m k with
  | Ok (b, k') => (k', Ok b)
  | Err e => (k, Err e)
  end.

Definition one_added (c : Counts) : Counts := mkCounts (S (added c)) (wrote c) (mcp_changed c) (skipped c) (errs c).
Definition one_wrote (c : Counts) : Counts := mkCounts (added c) (S (wrote c)) (mcp_changed c) (skipped c) (errs c).
Definition one_changed (c : Counts) : Counts := mkCounts (added c) (wrote c) (S (mcp_changed c)) (skipped c) (errs c).
Definition one_skipped (c : Counts) : Counts := mkCounts (added c) (wrote c) (mcp_changed c) (S (skipped c)) (errs c).
Definition one_err (e : text) (c : Counts) : Counts :=
  mkCounts (added c) (wrote c) (mcp_changed c) (skipped c) (errs c ++ [e]).
Definition counted (yes : Counts → Counts) (what : text) (r : result bool text) (c : Counts) : Counts :=
  match r with Ok true => yes c | Ok false => one_skipped c | Err e => one_err (what ++ lit ": " ++ e) c end.

Definition apply_one (force : bool) (s : Suggestion) (wc : World C * Counts) : World C * Counts :=
  let '(w, c) := wc in
  match action s with
  | Hint _ => (w, c)
  | AddKnowledgeSource p m =>
    let '(k, r) := add_source p m (section w) in
    (mkWorld k (manifests w) (agents w), counted one_added (lit "add source " ++ p) r c)
  | DropQdrManifest folder t =>
    let '(ms, r) := write_manifest folder t force (manifests w) in
    (mkWorld (section w) ms (agents w), counted one_wrote (lit "write manifest " ++ folder) r c)
  | AddMcpServer a n cmd ags =>
    let '(f, r) := apply_add a (Mcp.mkEntry cmd ags) (agents w) in
    (mkWorld (section w) (manifests w) f, counted one_changed (lit "mcp add " ++ lit (Mcp.id a)) r c)
  | RemoveMcpServer a n =>
    let '(f, r) := apply_remove a (agents w) in
    (mkWorld (section w) (manifests w) f, counted one_changed (lit "mcp remove " ++ lit (Mcp.id a)) r c)
  end.

Definition run_plan (force : bool) (plan : list Suggestion) (w : World C) : World C * Counts :=
  foldl (λ wc s, apply_one force s wc) (w, no_counts) plan.

(** What [apply_suggestions] answers, and whether the daemon is told to read
    the sources again. *)
Definition apply_suggestions (force : bool) (plan : list Suggestion) (w : World C) : World C * result Counts nat * bool :=
  let '(w', c) := run_plan force plan w in
  (w', match errs c with [] => Ok c | es => Err (length es) end, 0 <? added c).
End apply.

(** ** Strings of a manifest *)

(** A TOML basic string, after its opening quote, by the grammar of TOML: the
    text it stands for and what follows it. Control characters other than the
    tab are refused, U+007F among them. *)
Definition hex_value (c : char) : option Z :=
  if ((48 <=? c) && (c <=? 57))%Z then Some (c - 48)%Z
  else if ((65 <=? c) && (c <=? 70))%Z then Some (c - 55)%Z
  else if ((97 <=? c) && (c <=? 102))%Z then Some (c - 87)%Z else None.
Definition simple_escape (c : char) : option char :=
  (if c =? 98 then Some 8 else if c =? 116 then Some 9 else if c =? 110 then Some 10 else if c =? 102 then Some 12
   else if c =? 114 then Some 13 else if c =? 34 then Some 34 else if c =? 92 then Some 92 else None)%Z.
Fixpoint basic_string (s : text) : option (text * text) :=
  match s with
  | [] => None
  | c :: s' =>
    if (c =? 34)%Z then Some ([], s')
    else if (c =? 92)%Z then
      match s' with
      | 117%Z :: a :: b :: c' :: d :: r =>
        a ← hex_value a; b ← hex_value b; c' ← hex_value c'; d ← hex_value d;
        '(t, rest) ← basic_string r; Some ((a * 4096 + b * 256 + c' * 16 + d)%Z :: t, rest)
      | e :: r => e ← simple_escape e; '(t, rest) ← basic_string r; Some (e :: t, rest)
      | [] => None
      end
    else if ((c <? 32) && negb (c =? 9) || (c =? 127))%Z then None
    else '(t, rest) ← basic_string s'; Some (c :: t, rest)
  end.

Lemma hex_value_digit n : (0 <= n < 16)%Z → hex_value (hex_digit n) = Some n.
Proof.
  intros Hn. unfold hex_digit, hex_value. destruct (Z.ltb_spec n 10).
  - rewrite (proj2 (Z.leb_le 48 _)), (proj2 (Z.leb_le _ 57)) by lia. simpl. f_equal. lia.
  - rewrite (proj2 (Z.leb_gt _ 57)), andb_false_r by lia.
    rewrite (proj2 (Z.leb_le 65 _)), (proj2 (Z.leb_le _ 70)) by lia. simpl. f_equal. lia.
Qed.

Lemma escape_char_reads c r t rest : (0 <= c)%Z → c ≠ 127%Z →
  basic_string r = Some (t, rest) → basic_string (escape_char c ++ r) = Some (c :: t, rest).
Proof.
  intros Hc Hdel Hr. unfold escape_char.
  repeat match goal with |- context [(c =? ?n)%Z] =>
    destruct (Z.eqb_spec c n) as [->|?]; [simpl; rewrite Hr; done|] end.
  destruct (Z.ltb_spec c 32).
  - unfold hex4. simpl. rewrite !hex_value_digit by (apply Z.mod_pos_bound; lia). simpl. rewrite Hr. simpl.
    do 3 f_equal. Z.to_euclidean_division_equations. lia.
  - simpl. rewrite (proj2 (Z.eqb_neq c 34)), (proj2 (Z.eqb_neq c 92)), (proj2 (Z.eqb_neq c 127)) by done.
    rewrite (proj2 (Z.ltb_ge c 32)) by lia. simpl. by rewrite Hr.
Qed.

(** A string written into a manifest is the string a TOML reader finds
    there, whatever quotes, backslashes, line ends or control characters it
    holds, and the reader goes on right behind it: a folder name cannot break
    out of its field. The one exception is U+007F. *)
Theorem toml_str_reads_back s rest :
  Forall (λ c, (0 <= c)%Z ∧ c ≠ 127%Z) s →
  ∃ body, toml_str s ++ rest = 34%Z :: body ∧ basic_string body = Some (s, rest).
Proof.
  intros Hs. exists (concat (map escape_char s) ++ 34%Z :: rest).
  split; [unfold toml_str; simpl; by rewrite <- app_assoc|].
  induction Hs as [|c s [Hc Hd] _ IH]; [done|]. simpl. rewrite <- app_assoc. by apply escape_char_reads.
Qed.

Lemma toml_str_reads_back_witness :
  ∃ body, toml_str (lit "C:\x" ++ [10; 7]%Z) ++ lit "!" = 34%Z :: body ∧
          basic_string body = Some (lit "C:\x" ++ [10; 7]%Z, lit "!").
Proof. apply (toml_str_reads_back (lit "C:\x" ++ [10; 7]%Z) (lit "!")). apply (bool_decide_unpack _). vm_compute. exact I. Defined.

(** U+007F goes in as it is, and no TOML reader takes it. *)
Example delete_is_not_escaped :
  toml_str [127%Z] = [34; 127; 34]%Z ∧ basic_string [127; 34]%Z = None.
Proof. split; reflexivity. Qed.

(** ** The folders of exports *)
Lemma text_lt_irrefl a : Repair.text_lt a a = false.
Proof. induction a as [|x a IH]; [done|]. simpl. by rewrite Z.ltb_irrefl. Qed.

Lemma key_leb_prefix a b : a `prefix_of` b → Repair.key_leb b a = true → a = b.
Proof.
  intros [e ->]. induction a as [|x a IH]; simpl; [by destruct e|].
  rewrite text_lt_irrefl. intros H. f_equal. by apply IH.
Qed.

Lemma text_lt_cmp a b : Repair.text_lt a b = true ∨ a = b ∨ Repair.text_lt b a = true.
Proof.
  revert b. induction a as [|x a IH]; intros [|y b]; simpl; auto.
  destruct (Z.ltb_spec x y); [auto|]. destruct (Z.ltb_spec y x); [auto|].
  assert (x = y) as -> by lia. destruct (IH b) as [?|[->|?]]; auto.
Qed.
Lemma text_lt_trans a b c : Repair.text_lt a b = true → Repair.text_lt b c = true → Repair.text_lt a c = true.
Proof.
  revert b c. induction a as [|x a IH]; intros [|y b] [|z c]; simpl; try done.
  destruct (Z.ltb_spec x y), (Z.ltb_spec y z), (Z.ltb_spec x z); try done; try lia;
    repeat match goal with |- context [(?u <? ?v)%Z] => destruct (Z.ltb_spec u v) end; try done; try lia.
  by apply IH.
Qed.
Lemma key_leb_total a b : Repair.key_leb a b = true ∨ Repair.key_leb b a = true.
Proof.
  revert b. induction a as [|x a IH]; intros [|y b]; simpl; auto.
  destruct (text_lt_cmp x y) as [H|[->|H]]; [rewrite H; auto| |rewrite H; auto].
  rewrite text_lt_irrefl. apply IH.
Qed.
Lemma key_leb_cons x a y b : Repair.key_leb (x :: a) (y :: b) = true ↔
  Repair.text_lt x y = true ∨ x = y ∧ Repair.key_leb a b = true.
Proof.
  simpl. destruct (Repair.text_lt x y) eqn:Hxy; [tauto|]. destruct (Repair.text_lt y x) eqn:Hyx.
  - split; [done|]. intros [?|[-> _]]; [done|]. by rewrite text_lt_irrefl in Hyx.
  - destruct (text_lt_cmp x y) as [?|[->|?]]; [congruence| |congruence]. split; [auto|]. by intros [?|[_ ?]].
Qed.
Lemma key_leb_trans a b c : Repair.key_leb a b = true → Repair.key_leb b c = true → Repair.key_leb a c = true.
Proof.
  revert b c. induction a as [|x a IH]; intros [|y b] [|z c]; try done.
  rewrite !key_leb_cons. intros [?|[-> ?]] [?|[-> ?]]; eauto using text_lt_trans.
Qed.

Definition nested (a b : path) : Prop := components a `prefix_of` components b.

Lemma keep_spec l keep :
  StronglySorted (λ a b, Repair.key_leb (components a) (components b) = true) l →
  (∀ k f, k ∈ keep → f ∈ l → Repair.key_leb (components k) (components f) = true) →
  (∀ i j k k', keep !! i = Some k → keep !! j = Some k' → nested k k' → i = j) →
  let kept := foldl (λ keep f, if existsb (path_under f) keep then keep else keep ++ [f]) keep l in
  (∀ k, k ∈ keep → k ∈ kept) ∧ (∀ k, k ∈ kept → k ∈ keep ∨ k ∈ l) ∧
  (∀ f, f ∈ l → ∃ k, k ∈ kept ∧ nested k f) ∧
  (∀ i j k k', kept !! i = Some k → kept !! j = Some k' → nested k k' → i = j).
Proof.
  revert keep. induction l as [|f l IH]; intros keep Hs Hle Hk; simpl.
  { split; [done|]. split; [auto|]. split; [|done]. intros f Hf. exfalso. exact (not_elem_of_nil _ Hf). }
  apply StronglySorted_inv in Hs as [Hs Hf]. rewrite Forall_forall in Hf.
  destruct (existsb (path_under f) keep) eqn:He.
  - destruct (IH keep Hs) as (H1 & H2 & H3 & H4); [intros; apply Hle; [done|by right]|done|].
    split; [done|]. split; [intros k Hin; destruct (H2 k Hin); auto; right; by right|]. split; [|done].
    intros g [->|Hg]%elem_of_cons; [|by apply H3]. apply existsb_exists in He as (k & Hin & Hu).
    apply list_elem_of_In in Hin. apply bool_decide_eq_true in Hu. exists k. auto.
  - assert (Hnot : ∀ k, k ∈ keep → ¬ nested k f).
    { intros k Hin Hn. apply not_true_iff_false in He. apply He. apply existsb_exists.
      exists k. split; [by apply list_elem_of_In|]. by apply bool_decide_eq_true. }
    destruct (IH (keep ++ [f]) Hs) as (H1 & H2 & H3 & H4).
    + intros k g [Hin | ->%list_elem_of_singleton]%elem_of_app Hg; [apply Hle; [done|by right]|by apply Hf].
    + assert (Hnew : ∀ k, k ∈ keep → ¬ nested f k).
      { intros k Hin Hn. pose proof (key_leb_prefix _ _ Hn (Hle k f Hin ltac:(by left))) as Heq.
        apply (Hnot k Hin). unfold nested. by rewrite Heq. }
      intros i j k k' [Hi|[? Hi]]%lookup_app_Some [Hj|[? Hj]]%lookup_app_Some Hn; [by eauto| | |].
      * apply list_lookup_singleton_Some in Hj as [? <-]. exfalso. eapply Hnot; [|exact Hn].
        apply list_elem_of_lookup; eauto.
      * apply list_lookup_singleton_Some in Hi as [? <-]. exfalso. eapply Hnew; [|exact Hn].
        apply list_elem_of_lookup; eauto.
      * apply list_lookup_singleton_Some in Hi as [? _]. apply list_lookup_singleton_Some in Hj as [? _]. lia.
    + split; [intros k Hin; apply H1, elem_of_app; by left|]. split; [|split; [|done]].
      * intros k Hin. destruct (H2 k Hin) as [[?| ->%list_elem_of_singleton]%elem_of_app|]; auto; right; [by left|by right].
      * intros g [->|Hg]%elem_of_cons; [|by apply H3]. exists f. split; [|unfold nested; reflexivity].
        apply H1, elem_of_app. right. by apply list_elem_of_singleton.
Qed.

(** The folders that get a manifest are found ones, cover every found one, and
    none of them lies in another. *)
Theorem outermost_folders found :
  (∀ k, k ∈ keep_outermost found → k ∈ found) ∧
  (∀ f, f ∈ found → ∃ k, k ∈ keep_outermost found ∧ nested k f) ∧
  (∀ i j k k', keep_outermost found !! i = Some k → keep_outermost found !! j = Some k' → nested k k' → i = j).
Proof.
  destruct (keep_spec (Lists.sort_by (λ a b, Repair.key_leb (components a) (components b)) found) [])
    as (_ & H2 & H3 & H4).
  - apply Lists.sort_by_sorted; [intros; apply key_leb_total|intros ???; apply key_leb_trans].
  - intros k f Hk. exfalso. exact (not_elem_of_nil _ Hk).
  - intros i j k k' Hi. by rewrite lookup_nil in Hi.
  - split; [|split; [|exact H4]].
    + intros k Hk. destruct (H2 k Hk) as [Hn|Hin]; [exfalso; exact (not_elem_of_nil _ Hn)|].
      by apply Lists.elem_of_sort_by in Hin.
    + intros f Hf. apply H3. by apply Lists.elem_of_sort_by.
Qed.

(** ** Applying a plan twice *)

Section twice.
Context {C : Type} (home cwd : option path) (canonicalize : path → option path) (write_refused : path → option text).
Context (apply_add : Mcp.McpAgent → Mcp.McpEntry → C → C * result bool text).
Context (apply_remove : Mcp.McpAgent → C → C * result bool text).
Notation step := (apply_one home cwd canonicalize write_refused apply_add apply_remove).
Notation run := (run_plan home cwd canonicalize write_refused apply_add apply_remove).

(** What a suggestion asks for is there. *)
Definition settled (s : Suggestion) (w : World C) : Prop :=
  match action s with
  | AddKnowledgeSource p m =>
    ∃ abs, Sources.canonicalize_for_storage home cwd canonicalize p = Ok abs ∧
           existsb (λ s, Sources.same_path home cwd canonicalize (Sources.spath s) abs) (Sources.sources (section w)) = true
  | DropQdrManifest folder t => is_Some (manifests w !! components folder)
  | _ => True
  end.
Definition local_action (s : Suggestion) : bool :=
  match action s with AddMcpServer _ _ _ _ | RemoveMcpServer _ _ => false | _ => true end.
Definition not_hint (s : Suggestion) : bool := match action s with Hint _ => false | _ => true end.

Lemma same_path_refl a : Sources.same_path home cwd canonicalize a a = true.
Proof. unfold Sources.same_path, path_eq. by apply bool_decide_eq_true_2. Qed.

Lemma errs_grow force s w c w' c' : step force s (w, c) = (w', c') → errs c' = [] → errs c = [].
Proof.
  unfold apply_one. intros H He.
  assert (Hc : ∀ yes what r, (∀ c, errs (yes c) = errs c) → errs (counted yes what r c) = [] → errs c = []).
  { intros yes what [[]|e] Hy; simpl; [by rewrite Hy|done|]. by destruct (errs c). }
  destruct (action s); repeat case_match; simplify_eq; first [done | eapply Hc; [|exact He]; done].
Qed.

Lemma step_settles force s w c w' c' : step force s (w, c) = (w', c') → errs c' = [] →
  settled s w' ∧ ∀ s', settled s' w → settled s' w'.
Proof.
  unfold apply_one, settled. intros H He. destruct (action s) as [p m|folder t|a n cmd ags|a n|msg].
  - unfold add_source, Sources.add in H.
    destruct (Sources.canonicalize_for_storage _ _ _ p) as [abs|e] eqn:Hp.
    2: { simpl in H. injection H as <- <-. simpl in He. by destruct (errs c). }
    destruct (existsb _ _) eqn:Hin; injection H as <- <-; simpl; split; eauto.
    + exists abs. split; [done|]. by rewrite existsb_app, Hin; simpl; rewrite same_path_refl.
    + intros s'. destruct (action s'); try done. intros (abs' & Hc & Hex). exists abs'. split; [done|].
      by rewrite existsb_app, Hex.
  - unfold write_manifest in H. destruct (manifests w !! components folder) as [b|] eqn:Hm.
    + destruct force; [destruct (write_refused folder)|]; injection H as <- <-; simpl in *;
        try (by destruct (errs c)); split; eauto; try (by rewrite lookup_insert_eq); [].
      intros s'. destruct (action s'); try done. simpl. intros Hs. by apply lookup_insert_is_Some'; right.
    + destruct (write_refused folder); injection H as <- <-; simpl in *; [by destruct (errs c)|].
      rewrite lookup_insert_eq. split; [eauto|]. intros s'. destruct (action s'); try done. simpl. intros Hs.
      apply lookup_insert_is_Some'. by right.
  - destruct (apply_add _ _ _) as [f r]. injection H as <- <-. split; [done|]. intros s'. by destruct (action s').
  - destruct (apply_remove _ _) as [f r]. injection H as <- <-. split; [done|]. intros s'. by destruct (action s').
  - injection H as <- <-. auto.
Qed.

Lemma run_settles force plan w c w' c' :
  foldl (λ wc s, step force s wc) (w, c) plan = (w', c') → errs c' = [] →
  errs c = [] ∧ (∀ s, settled s w → settled s w') ∧ Forall (λ s, settled s w') plan.
Proof.
  revert w c. induction plan as [|s plan IH]; intros w c; cbn [foldl]; [intros [= <- <-]; auto|].
  destruct (step force s (w, c)) as [w1 c1] eqn:H1. intros H He.
  destruct (IH _ _ H He) as (Hc1 & Hk & HF). destruct (step_settles _ _ _ _ _ _ H1 Hc1) as [Hs Hk1].
  split; [by eapply errs_grow|]. split; [auto|]. constructor; auto.
Qed.

Lemma settled_step s w c : settled s w → local_action s = true →
  step false s (w, c) = (w, if not_hint s then one_skipped c else c).
Proof.
  unfold settled, local_action, not_hint, apply_one. destruct w as [k ms f].
  destruct (action s) as [p m|folder t|a n cmd ags|a n|msg]; try done; simpl; intros Hs _.
  - destruct Hs as (abs & Hc & Hin). unfold add_source, Sources.add. by rewrite Hc, Hin.
  - destruct Hs as [b Hb]. unfold write_manifest. by rewrite Hb.
Qed.

(** A plan of sources and manifests that was applied without an error, with
    or without [--force], is complete: applied again it adds no source, writes
    no manifest, fails nowhere, leaves everything as it is, and reports every
    action as skipped. *)
Theorem applied_plan_is_settled force plan w w' c :
  Forall (λ s, local_action s = true) plan → run force plan w = (w', c) → errs c = [] →
  run false plan w' = (w', mkCounts 0 0 0 (length (List.filter not_hint plan)) []).
Proof.
  unfold run_plan. intros Hl H He. destruct (run_settles _ _ _ _ _ _ H He) as (_ & _ & HF). clear H He.
  change (mkCounts 0 0 0 (length (List.filter not_hint plan)) [])
    with (mkCounts 0 0 0 (0 + length (List.filter not_hint plan)) []).
  unfold no_counts. generalize 0 at 4 8. induction plan as [|s plan IH]; intros n; cbn [foldl List.filter]; [by rewrite Nat.add_0_r|].
  apply Forall_cons in Hl as [Hs Hl]. apply Forall_cons in HF as [Hset HF].
  rewrite settled_step by done. destruct (not_hint s); simpl; [|by apply IH].
  change (one_skipped (mkCounts 0 0 0 n [])) with (mkCounts 0 0 0 (S n) []).
  rewrite IH by done. do 2 f_equal. lia.
Qed.
End twice.

(** [configure]: the plan of the chosen detectors, and its application when it
    was asked for. *)
Definition plan_of (all : list Detector) (only skip : list string) (env : ProbeEnv) : list Suggestion :=
  flat_map (λ d, probe d env) (select_detectors all only skip).
Definition configure {C} (apply_plan : bool → list Suggestion → World C → World C * result Counts nat * bool)
    (apply : bool) (all : list Detector) (only skip : list string) (force : bool) (env : ProbeEnv) (w : World C)
    : World C * result Counts nat * bool :=
  let plan := plan_of all only skip env in
  if apply then apply_plan force plan w else (w, Ok no_counts, false).

(** Which detectors run: those named by [--only], or else those on by default
    that [--skip] does not name. *)
Lemma select_detectors_spec all only skip d : d ∈ select_detectors all only skip ↔
  d ∈ all ∧ if bool_decide (only = []) then default_on d = true ∧ id d ∉ skip else id d ∈ only.
Proof.
  unfold select_detectors. rewrite !list_elem_of_In, List.filter_In.
  destruct (bool_decide_reflect (only = [])) as [->|Ho]; simpl.
  - destruct (default_on d).
    + rewrite negb_true_iff, bool_decide_eq_false, list_elem_of_In. tauto.
    + split; [by intros [_ ?]|by intros (_ & ? & _)].
  - rewrite bool_decide_eq_true, list_elem_of_In. tauto.
Qed.

(** ** Samples *)

Definition sample_env : ProbeEnv := mkEnv (lit "/h") (Some (lit "/h/Documents")) None [] [].
Definition sample_dirs (p : path) : bool :=
  existsb (λ d, bool_decide (p = lit d)) ["/h/Documents"; "/h/knowledge"; "/h/.claude"; "/h/Bruno"].
Definition sample_walk (p : path) (n : nat) : list (path * bool) :=
  if bool_decide (p = lit "/h/Bruno")
  then [(lit "/h/Bruno/api/v1/a.bru", false); (lit "/h/Bruno/top.bru", false)]
  else if bool_decide (p = lit "/h/knowledge")
  then [(lit "/h/knowledge/tg/ChatExport_1", true); (lit "/h/knowledge/.obsidian", true)] else [].
Definition sample_detectors : list Detector :=
  detectors (λ p, sample_dirs p || ends_with p (lit "ChatExport_1")) (λ p, ends_with p (lit ".bru")) (λ _, 1)
    sample_walk (λ _, None) true (Mcp.desired_entry "/usr/bin/sy").
Definition sample_plan : list Suggestion := plan_of sample_detectors [] ["xdg-downloads"] sample_env.
Definition sample_world : World unit :=
  mkWorld (Sources.mkSection None None None None None None None None []) ∅ tt.
Definition sample_run :=
  run_plan (C := unit) (Some (lit "/h")) None (λ _, None) (λ _, None) (λ _ _ _, (tt, Ok true)) (λ _ _, (tt, Ok true)).

Example sample_counts : (sample_run false sample_plan sample_world).2 = mkCounts 2 4 0 0 [].
Proof. vm_compute. reflexivity. Qed.

Lemma applied_plan_is_settled_witness :
  sample_run false sample_plan (sample_run false sample_plan sample_world).1 =
  ((sample_run false sample_plan sample_world).1, mkCounts 0 0 0 6 []).
Proof.
  apply (applied_plan_is_settled (Some (lit "/h")) None (λ _, None) (λ _, None) (λ _ _ _, (tt, Ok true))
           (λ _ _, (tt, Ok true)) false sample_plan sample_world _ (sample_run false sample_plan sample_world).2).
  - apply (bool_decide_unpack _). vm_compute. exact I.
  - vm_compute. reflexivity.
  - vm_compute. reflexivity.
Defined.

(** The collection is the folder of the first request of the walk, here
    [api/v1], although [top.bru] lies above it. *)
Example bruno_takes_the_first_folder :
  map (λ s, action s) (probe_bruno sample_dirs (λ p, ends_with p (lit ".bru")) sample_walk sample_env) =
  [DropQdrManifest (lit "/h/Bruno/api/v1")
     (mkTemplate (lit "bruno-v1") (lits ["**/*.bru"; "**/*.json"]) [] (lits ["bruno"; "api"]) None None)].
Proof. vm_compute. reflexivity. Qed.

(** [--skip] has no effect beside [--only]. *)
Example skip_beside_only :
  map id (select_detectors sample_detectors ["dotfiles"] ["dotfiles"]) = ["dotfiles"].
Proof. reflexivity. Qed.

(** An agent that is wired gets no suggestion, so nothing is reported as
    already wired. *)
Example wired_agent_is_not_reported :
  mcp_suggestion (λ _, Some (Mcp.mkState [] true (Some (Mcp.desired_entry "sy")))) true (Mcp.desired_entry "sy")
    Mcp.Claude sample_env = [].
Proof. vm_compute. reflexivity. Qed.
End Auto.
