(* ===== verification/Applets.v ===== *)
(** * Desktop applets

    [sy-desktop-shell/src/]: the PolicyKit agent ([Polkit]: [polkit.rs],
    [polkit/backend.rs], [polkit/ui.rs]), the silent hours ([Silent]:
    [silent.rs]), the archive of notifications ([Notif]: [notif.rs]), the network
    tile and menus ([Net]: [net.rs], [wifi.rs]) and the mobile broadband profiles
    ([Wwan]: [wwan.rs]). Programs they run ([nmcli], [pactl], [date],
    [dbus-monitor]) enter by their output. *)

From S2P Require Import Prelude Lists Text Paths Lines Utf8 Wire KnowSearch.
Import Lists Text Paths Lines Utf8.
Local Open Scope string_scope.
Local Open Scope nat_scope.
Local Open Scope list_scope.

Module Polkit.

Inductive PamEvent : Type :=
| Prompt (t : text) (echo : bool)
| Info (t : text)
| Error (t : text)
| Complete (ok : bool).
#[export] Instance PamEvent_eq_dec : EqDecision PamEvent.
Proof. solve_decision. Defined.

Definition guidance (e : PamEvent) : text :=
  match e with
  | Prompt _ false => lit "Enter your password."
  | Prompt _ true => lit "Answer the authentication prompt."
  | Info t => if contains (map to_ascii_lowercase t) (lit "touch") then lit "Touch your FIDO security key."
              else lit "Follow the authentication instructions below."
  | Error _ => lit "Authentication needs your attention."
  | Complete true => lit "Authenticated."
  | Complete false => lit "Authentication failed. Try again."
  end.

(** ** Lines of the helper *)

Definition octal_digit (b : Z) : option Z := if ((48 <=? b) && (b <=? 55))%Z then Some (b - 48)%Z else None.
Definition escaped_byte (b : Z) : Z :=
  (if b =? 110 then 10 else if b =? 114 then 13 else if b =? 116 then 9 else if b =? 98 then 8
   else if b =? 102 then 12 else if b =? 118 then 11 else b)%Z.
(** [u8::try_from]. *)
Definition push_octal (o : Z) (rest : option (list Z)) : option (list Z) :=
  if (o <? 256)%Z then cons o <$> rest else None.

(** The loop of [parse_line] over the bytes; [None] is its error. *)
Fixpoint unescape (bs : list Z) : option (list Z) :=
  match bs with
  | [] => Some []
  | b :: bs1 =>
    if (b =? 92)%Z then
      match bs1 with
      | [] => None
      | e :: bs2 =>
        match octal_digit e with
        | None => cons (escaped_byte e) <$> unescape bs2
        | Some o1 =>
          match bs2 with
          | [] => push_octal o1 (Some [])
          | d2 :: bs3 =>
            match octal_digit d2 with
            | None => push_octal o1 (unescape bs2)
            | Some o2 =>
              match bs3 with
              | [] => push_octal (o1 * 8 + o2) (Some [])
              | d3 :: bs4 =>
                match octal_digit d3 with
                | None => push_octal (o1 * 8 + o2) (unescape bs3)
                | Some o3 => push_octal ((o1 * 8 + o2) * 8 + o3) (unescape bs4)
                end
              end
            end
          end
        end
      end
    else cons b <$> unescape bs1
  end.

Definition parse_event (line : text) : result PamEvent text :=
  match strip_prefix (lit "PAM_PROMPT_ECHO_OFF ") line, strip_prefix (lit "PAM_PROMPT_ECHO_ON ") line,
        strip_prefix (lit "PAM_TEXT_INFO ") line, strip_prefix (lit "PAM_ERROR_MSG ") line with
  | Some t, _, _, _ => Ok (Prompt t false)
  | None, Some t, _, _ => Ok (Prompt t true)
  | None, None, i, e =>
    if bool_decide (line = lit "SUCCESS") then Ok (Complete true)
    else if bool_decide (line = lit "FAILURE") then Ok (Complete false)
    else match i, e with
         | Some t, _ => Ok (Info t)
         | None, Some t => Ok (Error t)
         | None, None => Err (lit "Unexpected PolicyKit helper message")
         end
  end.
Definition parse_line (line : list Z) : result PamEvent text :=
  match unescape line with
  | None => Err (lit "Truncated helper escape")
  | Some bytes => match from_utf8 bytes with
                  | None => Err (lit "invalid utf-8")
                  | Some decoded => parse_event decoded
                  end
  end.

(** ** The helper's session

    What the loop of [helper] takes in: a control of the dialog, the end of its
    channel, a line of the helper (with whether the dialog still listens), the
    end of its output, a failed read or write, and the timeout. *)
Inductive Control : Type := Response (t : text) | Cancel.
Inductive Input : Type :=
| Command (c : option Control) (writable : bool)
| Line (l : list Z) (listening : bool)
| Closed
| ReadError
| TimedOut.
Record Session := mkSession { awaiting : bool; input : list text; told : list PamEvent }.

Definition INVALID : list Z := [10; 13; 0]%Z.
Definition valid_response (t : text) : bool := forallb (λ c, negb (bool_decide (c ∈ INVALID))) t.

(** One turn: the session goes on, or it has ended. *)
Definition turn (i : Input) (s : Session) : Session * option (result bool text) :=
  match i with
  | Command (Some (Response r)) writable =>
    if awaiting s then
      if valid_response r then
        if writable then (mkSession false (input s ++ [r]) (told s), None) else (s, Some (Err (lit "write")))
      else (s, Some (Err (lit "Invalid authentication response")))
    else (s, None)
  | Command (Some Cancel) _ | Command None _ => (s, Some (Err (lit "Authentication cancelled")))
  | Line l listening =>
    match parse_line l with
    | Err e => (s, Some (Err e))
    | Ok (Complete ok) => (s, Some (Ok ok))
    | Ok e =>
      let s' := mkSession (match e with Prompt _ _ => true | _ => awaiting s end) (input s) (told s ++ [e]) in
      if listening then (s', None)
      else (mkSession (awaiting s') (input s) (told s), Some (Err (lit "Authentication dialog closed")))
    end
  | Closed => (s, Some (Err (lit "PolicyKit helper closed without a result")))
  | ReadError => (s, Some (Err (lit "read")))
  | TimedOut => (s, Some (Err (lit "Authentication timed out")))
  end.
Fixpoint converse (ins : list Input) (s : Session) : Session * option (result bool text) :=
  match ins with
  | [] => (s, None)
  | i :: ins' => match turn i s with (s', None) => converse ins' s' | r => r end
  end.
(** The cookie is the first line of the helper's input. *)
Definition helper (cookie : text) (ins : list Input) : Session * option (result bool text) :=
  converse ins (mkSession false [cookie] []).

Definition is_prompt (e : PamEvent) : bool := match e with Prompt _ _ => true | _ => false end.
Definition asked (ins : list Input) : nat :=
  length (List.filter (λ i, match i with
    | Line l _ => match parse_line l with Ok e => is_prompt e | Err _ => false end
    | _ => false
    end) ins).

Lemma converse_writes ins s s' r : converse ins s = (s', r) →
  ∃ rs, input s' = input s ++ rs ∧ length rs <= (if awaiting s then 1 else 0) + asked ins ∧
  Forall (λ t, valid_response t = true) rs ∧
  (∀ t, t ∈ rs → Command (Some (Response t)) true ∈ ins).
Proof.
  revert s. induction ins as [|i ins IH]; intros s; simpl.
  { intros [= <- <-]. exists []. rewrite app_nil_r. split; [done|]. split; [simpl; lia|]. split; [done|].
    intros t Ht. exfalso. exact (not_elem_of_nil _ Ht). }
  assert (Hstop : ∀ s1, input s1 = input s → s' = s1 →
            ∃ rs, input s' = input s ++ rs ∧ length rs <= (if awaiting s then 1 else 0) + asked (i :: ins) ∧
            Forall (λ t, valid_response t = true) rs ∧ (∀ t, t ∈ rs → Command (Some (Response t)) true ∈ i :: ins)).
  { intros s1 H1 ->. exists []. rewrite app_nil_r. split; [done|]. split; [simpl; lia|]. split; [done|].
    intros t Ht. exfalso. exact (not_elem_of_nil _ Ht). }
  assert (Hgo : ∀ s1, converse ins s1 = (s', r) → input s1 = input s →
            (if awaiting s1 then 1 else 0) + asked ins <= (if awaiting s then 1 else 0) + asked (i :: ins) →
            ∃ rs, input s' = input s ++ rs ∧ length rs <= (if awaiting s then 1 else 0) + asked (i :: ins) ∧
            Forall (λ t, valid_response t = true) rs ∧ (∀ t, t ∈ rs → Command (Some (Response t)) true ∈ i :: ins)).
  { intros s1 Hc Hi Hn. destruct (IH _ Hc) as (rs & H1 & H2 & H3 & H4). exists rs. rewrite H1, Hi.
    split; [done|]. split; [lia|]. split; [done|]. intros t Ht. right. by apply H4. }
  assert (Hcons : ∀ i, asked ins <= asked (i :: ins)).
  { intros j. unfold asked. simpl. destruct (match j with Line _ _ => _ | _ => _ end); simpl; lia. }
  specialize (Hcons i).
  destruct i as [[[t|]|] w|l listening| | |]; cbn [turn]; try (by intros [= <- <-]; eapply Hstop; [|reflexivity]).
  - destruct (awaiting s) eqn:Ha; [|intros H; eapply Hgo; [exact H|done|rewrite Ha; lia]].
    destruct (valid_response t) eqn:Hv; [|by intros [= <- <-]; eapply Hstop; [|reflexivity]].
    destruct w; [|by intros [= <- <-]; eapply Hstop; [|reflexivity]].
    intros Hc. destruct (IH _ Hc) as (rs & H1 & H2 & H3 & H4). simpl in *. exists (t :: rs).
    rewrite H1, <- app_assoc. split; [done|]. split; [simpl; lia|]. split; [by constructor|].
    intros u [->|Hu]%elem_of_cons; [by left|right; by apply H4].
  - destruct (parse_line l) as [e|] eqn:Hp; [|by intros [= <- <-]; eapply Hstop; [|reflexivity]].
    assert (Hn : (if is_prompt e then 1 else if awaiting s then 1 else 0) + asked ins <=
                 (if awaiting s then 1 else 0) + asked (Line l listening :: ins)).
    { unfold asked. simpl. rewrite Hp. destruct (is_prompt e); simpl; destruct (awaiting s); lia. }
    destruct e as [p b|p|p|b]; [| | |by intros [= <- <-]; eapply Hstop; [|reflexivity]];
      (destruct listening; [intros Hc; eapply Hgo; [exact Hc|done|exact Hn]
                           |by intros [= <- <-]; eapply Hstop; [|reflexivity]]).
Qed.


(** ** Escapes

    The other side: [g_strescape], as GLib documents it, by which the helper
    writes its messages: a backslash before backslash and quote, the letters for
    the six control characters that have one, three octal digits for the other
    controls and for what is not ASCII. *)
Definition octal3 (b : Z) : list Z := [92; 48 + b / 64; 48 + b / 8 mod 8; 48 + b mod 8]%Z.
Definition strescape_byte (b : Z) : list Z :=
  (if b =? 8 then [92; 98] else if b =? 12 then [92; 102] else if b =? 10 then [92; 110] else if b =? 13 then [92; 114]
   else if b =? 9 then [92; 116] else if b =? 11 then [92; 118] else if b =? 92 then [92; 92] else if b =? 34 then [92; 34]
   else if (b <? 32) || (127 <=? b) then octal3 b else [b])%Z.
Definition strescape (bs : list Z) : list Z := concat (map strescape_byte bs).

Lemma octal_digit_of d : (0 <= d < 8)%Z → octal_digit (48 + d) = Some d.
Proof.
  intros H. unfold octal_digit. rewrite (proj2 (Z.leb_le 48 _)), (proj2 (Z.leb_le _ 55)) by lia. simpl. f_equal. lia.
Qed.

Lemma unescape_strescape_byte b r : (0 <= b < 256)%Z → unescape (strescape_byte b ++ r) = cons b <$> unescape r.
Proof.
  intros Hb. unfold strescape_byte.
  repeat match goal with |- context [(b =? ?n)%Z] => destruct (Z.eqb_spec b n) as [->|?]; [reflexivity|] end.
  destruct ((b <? 32) || (127 <=? b))%Z.
  - unfold octal3. simpl.
    rewrite !octal_digit_of; [|split; [apply Z.mod_pos_bound; lia|apply Z.mod_pos_bound; lia]|..].
    + unfold push_octal.
      assert ((b / 64 * 8 + b / 8 mod 8) * 8 + b mod 8 = b)%Z as -> by (Z.to_euclidean_division_equations; lia).
      by rewrite (proj2 (Z.ltb_lt b 256)) by lia.
    + split; apply Z.mod_pos_bound; lia.
    + split; [apply Z.div_pos; lia|apply Z.div_lt_upper_bound; lia].
  - simpl. by rewrite (proj2 (Z.eqb_neq b 92)).
Qed.

(** What the helper escapes is read back byte for byte, line ends and other
    scripts included. *)
Theorem helper_text_reads_back bs : Forall (λ b, 0 <= b < 256)%Z bs → unescape (strescape bs) = Some bs.
Proof.
  unfold strescape. induction 1 as [|b bs Hb _ IH]; [done|]. simpl. by rewrite unescape_strescape_byte, IH.
Qed.

(** ** The agent's table of requests *)

(** Whom the request is for: the user of the session if it is offered, else the
    first that is. *)
Definition pick_user (current : option Z) (users : list Z) : option Z :=
  head (sort_by (λ a b, negb (bool_decide (Some a ≠ current)) || bool_decide (Some b ≠ current)) users).

(** [active]: the requests that are open, each with the number of its control
    channel; [begin] is [authenticate] up to its dialog, [finish] the drop of the
    guard. *)
Record Agent := mkAgent { active : list (text * nat); channels : nat }.
Definition begin (cookie : text) (a : Agent) : Agent * result nat text :=
  match active a with
  | _ :: _ => (a, Err (lit "Another authentication request is already open"))
  | [] => (mkAgent [(cookie, channels a)] (S (channels a)), Ok (channels a))
  end.
Definition finish (cookie : text) (a : Agent) : Agent :=
  mkAgent (List.filter (λ e, negb (bool_decide (e.1 = cookie))) (active a)) (channels a).
(** [cancel_authentication]: the channel that gets [Cancel]. *)
Definition cancel_authentication (cookie : text) (a : Agent) : option nat :=
  snd <$> List.find (λ e, bool_decide (e.1 = cookie)) (active a).

Lemma one_request_at_a_time a cookie a' r :
  length (active a) <= 1 → begin cookie a = (a', r) →
  length (active a') <= 1 ∧ match r with
  | Ok c => active a = [] ∧ cancel_authentication cookie a' = Some c ∧ active (finish cookie a') = []
  | Err _ => a' = a ∧ active a ≠ []
  end.
Proof.
  unfold begin, cancel_authentication, finish. destruct (active a) as [|e l] eqn:Ha; intros Hl [= <- <-]; simpl.
  - rewrite bool_decide_eq_true_2 by done. auto.
  - by rewrite Ha.
Qed.

(** ** The dialog *)

Inductive Event : Type :=
| Started (cookie action message user : text) (control : nat)
| Pam (cookie : text) (e : PamEvent)
| Finished (cookie : text) (error : option text).
Record Dialog := mkDialog {
  window : bool; cookie : text; action : text; message : text; user : text; instruction : text; detail : text;
  prompt : option (text * bool); response : text; control : option nat }.
Inductive Msg : Type := Tick (events : list Event) | InputText (t : text) | Submit | CancelPressed | CloseRequested.
Definition PHONE_GUIDANCE : text :=
  lit "Approve the request on your phone. If it is unavailable, wait for your security key or password prompt.".

Definition on_event (e : Event) (d : Dialog) : Dialog :=
  match e with
  | Started c a m u ctl => mkDialog true c a m u PHONE_GUIDANCE [] None [] (Some ctl)
  | Pam c e =>
    if bool_decide (c = cookie d) then
      mkDialog (window d) (cookie d) (action d) (message d) (user d) (guidance e)
        (match e with Info t | Error t => t | _ => detail d end)
        (match e with Prompt t echo => Some (t, echo) | _ => prompt d end) (response d) (control d)
    else d
  | Finished c err =>
    if bool_decide (c = cookie d) then
      match err with
      | Some why => mkDialog (window d) (cookie d) (action d) (message d) (user d)
                      (lit "Authentication did not complete.") why None [] None
      | None => mkDialog false (cookie d) (action d) (message d) (user d) (instruction d) (detail d) None [] None
      end
    else d
  end.
Definition cancel (d : Dialog) : Dialog * list (nat * Control) :=
  (mkDialog false (cookie d) (action d) (message d) (user d) (instruction d) (detail d) (prompt d) [] None,
   match control d with Some c => [(c, Cancel)] | None => [] end).
Definition update (m : Msg) (d : Dialog) : Dialog * list (nat * Control) :=
  match m with
  | Tick es => (foldl (λ d e, on_event e d) d es, [])
  | InputText t => (mkDialog (window d) (cookie d) (action d) (message d) (user d) (instruction d) (detail d)
                      (prompt d) t (control d), [])
  | Submit =>
    match prompt d, control d with
    | Some _, Some c =>
      (mkDialog (window d) (cookie d) (action d) (message d) (user d) (KQuery.ulit "Checking your response…") (detail d)
         None [] (control d), [(c, Response (response d))])
    | _, _ => (d, [])
    end
  | CancelPressed => cancel d
  | CloseRequested => if window d then cancel d else (d, [])
  end.

(** A response goes out only in answer to a prompt, over the channel of the
    request the dialog shows, and takes the prompt with it; nothing typed stays
    behind, for the next request or any other. *)
Lemma response_answers_the_prompt m d d' c t :
  update m d = (d', [(c, Response t)]) →
  is_Some (prompt d) ∧ control d = Some c ∧ t = response d ∧ prompt d' = None ∧ response d' = [].
Proof.
  unfold update, cancel. intros H. repeat case_match; simplify_eq; eauto.
Qed.
Lemma started_forgets_what_was_typed c a m u ctl d :
  response (on_event (Started c a m u ctl) d) = [] ∧ prompt (on_event (Started c a m u ctl) d) = None.
Proof. done. Qed.

(** A cancelled dialog keeps its prompt: the next text is typed to nobody. *)
Example cancel_keeps_the_prompt d p : prompt d = Some p → prompt (cancel d).1 = Some p.
Proof. by intros H. Qed.

(** A password asked for and given, and the session's end. *)
Definition sample_inputs : list Input :=
  [Command (Some (Response (lit "early"))) true; Line (lit "PAM_PROMPT_ECHO_OFF Password:") true;
   Command (Some (Response (lit "secret"))) true; Command (Some (Response (lit "again"))) true;
   Line (lit "PAM_TEXT_INFO Touch\nkey") true; Line (lit "SUCCESS") true].
Example sample_writes : input (helper (lit "cookie") sample_inputs).1 = [lit "cookie"; lit "secret"].
Proof. vm_compute. reflexivity. Qed.
End Polkit.

Module Silent.

Record HM := mkHM { h : Z; m : Z }.
Definition parse_u8 (s : text) : option Z :=
  match parse_usize s with Some n => if (n <? 256)%Z then Some n else None | None => None end.
(** [splitn(2, ':')]: what is before the first colon, and what is after it. *)
Fixpoint split_colon (s : text) : text * option text :=
  match s with
  | [] => ([], None)
  | c :: s' => if (c =? 58)%Z then ([], Some s') else let '(a, b) := split_colon s' in (c :: a, b)
  end.
Definition parse (s : text) : option HM :=
  let '(a, b) := split_colon (trim s) in
  h ← parse_u8 a; m ← parse_u8 (default (lit "0") b);
  if ((23 <? h) || (59 <? m))%Z then None else Some (mkHM h m).
Definition minutes (t : HM) : Z := (h t * 60 + m t)%Z.

Definition in_window (now start stop : HM) : bool :=
  let n := minutes now in let s := minutes start in let e := minutes stop in
  (if s <=? e then (s <=? n) && (n <? e) else (s <=? n) || (n <? e))%Z.

Record WindowCfg := mkCfg { start : text; stop : text }.
Definition default_cfg : WindowCfg := mkCfg (lit "23:00") (lit "10:00").
(** The file when it parses, then the two variables of the environment. *)
Definition load_cfg (file : option WindowCfg) (env_start env_end : option text) : WindowCfg :=
  let c := default default_cfg file in mkCfg (default (start c) env_start) (default (stop c) env_end).

Definition effective (cfg : WindowCfg) (now : HM) (override : text) : bool :=
  if bool_decide (override = lit "on") then true
  else if bool_decide (override = lit "off") then false
  else match parse (start cfg), parse (stop cfg) with
       | Some s, Some e => in_window now s e
       | _, _ => false
       end.

(** The two files of the cache, and what the user and the bar are told. *)
Inductive Told : Type := Transition (on : bool) (loud_hint : bool) | Loud (sink : text) | Refresh.
Record State := mkState { override : text; last : option bool; last_loud : option text; told : list Told }.
Definition tell (l : list Told) (s : State) : State := mkState (override s) (last s) (last_loud s) (told s ++ l).

(** What the programs answer during one operation: the clock, the default sink
    and whether it is quiet. *)
Record Env := mkEnv { cfg : WindowCfg; now : HM; sink : option text; quiet : text → bool }.
Definition is_active (e : Env) (s : State) : bool := effective (cfg e) (now e) (override s).
Definition loud_hint (e : Env) : bool := match sink e with Some n => negb (quiet e n) | None => false end.
Definition announce_transition (on : bool) (e : Env) : Told := Transition on (on && loud_hint e).

Definition set_state (new : text) (e : Env) (s : State) : State :=
  let was := is_active e s in
  let s1 := mkState new (last s) (last_loud s) (told s) in
  let on := is_active e s1 in
  tell ((if bool_decide (was = on) then [] else [announce_transition on e]) ++ [Refresh])
    (mkState new (Some on) (last_loud s) (told s)).
Definition toggle (e : Env) (s : State) : State :=
  set_state (if is_active e s then lit "off" else lit "on") e s.

Definition handle_tick (e : Env) (s : State) : State :=
  let on := is_active e s in
  let s1 := if bool_decide (on = default false (last s)) then s
            else tell [announce_transition on e; Refresh] (mkState (override s) (Some on) (last_loud s) (told s)) in
  if on then
    match sink e with
    | None => s1
    | Some n =>
      if quiet e n then mkState (override s1) (last s1) None (told s1)
      else if bool_decide (last_loud s1 = Some n) then s1
      else tell [Loud n] (mkState (override s1) (last s1) (Some n) (told s1))
    end
  else mkState (override s1) (last s1) None (told s1).

(** ** [pactl] *)

(** The active port of the sink of that name. *)
Fixpoint scan_sinks (sink_name : text) (ls : list text) (name : text) (port : option text) : option text :=
  match ls with
  | [] => if bool_decide (name = sink_name) then port else None
  | l :: ls' =>
    let t := trim_start l in
    match strip_prefix (lit "Name: ") t, strip_prefix (lit "Active Port: ") t with
    | Some rest, _ =>
      match (if bool_decide (name = sink_name) then port else None) with
      | Some p => Some p
      | None => scan_sinks sink_name ls' (trim rest) None
      end
    | None, Some rest => scan_sinks sink_name ls' name (Some (trim rest))
    | None, None => scan_sinks sink_name ls' name port
    end
  end.
Definition active_port_for (sink_name : text) (out : text) : option text :=
  scan_sinks sink_name (lines out) [] None.

Fixpoint tabs (l : text) : nat := match l with c :: l' => if (c =? 9)%Z then S (tabs l') else 0 | [] => 0 end.
Definition kebab (c : Z) : bool :=
  ((97 <=? c) && (c <=? 122) || (48 <=? c) && (c <=? 57) || (c =? 45))%Z.
(** The name before the first colon and space. *)
Fixpoint before_sep (s : text) : option text :=
  match s with
  | 58%Z :: 32%Z :: _ => Some []
  | c :: s' => cons c <$> before_sep s'
  | [] => None
  end.
Definition port_header (l : text) : option text :=
  if tabs l =? 2 then
    name ← before_sep (trim_start l);
    if negb (bool_decide (name = [])) && negb (existsb (λ c, (c =? 58)%Z) name) && forallb kebab name
    then Some name else None
  else None.
Fixpoint until_quote (s : text) : option text :=
  match s with [] => None | c :: s' => if (c =? 34)%Z then Some [] else cons c <$> until_quote s' end.
Fixpoint scan_cards (ls : list text) (current : option text) (map : gmap text text) : gmap text text :=
  match ls with
  | [] => map
  | l :: ls' =>
    match port_header l with
    | Some name => scan_cards ls' (Some name) map
    | None =>
      scan_cards ls' current
        match current, strip_prefix (lit "port.type = " ++ [34%Z]) (trim_start l) ≫= until_quote with
        | Some c, Some ty => <[c := ty]> map
        | _, _ => map
        end
    end
  end.
Definition port_type_map (out : text) : gmap text text := scan_cards (lines out) None ∅.

Definition sink_is_quiet (sinks cards : option text) (name : text) : bool :=
  if starts_with name (lit "bluez_output.") then true
  else match sinks ≫= active_port_for name with
       | None => false
       | Some port =>
         match default ∅ (port_type_map <$> cards) !! port with
         | Some ty => bool_decide (ty = lit "headphones") || bool_decide (ty = lit "headset")
         | None => false
         end
       end.

(** ** Theorems *)

(** The window and its complement: every minute of the day is in exactly one of
    the windows from [s] to [e] and from [e] to [s], across midnight too. *)
Lemma window_complement n s e : minutes s ≠ minutes e → in_window n s e = negb (in_window n e s).
Proof.
  intros H. unfold in_window.
  destruct (Z.leb_spec (minutes s) (minutes e)), (Z.leb_spec (minutes e) (minutes s)); try lia;
    destruct (Z.leb_spec (minutes s) (minutes n)), (Z.ltb_spec (minutes n) (minutes e)),
      (Z.leb_spec (minutes e) (minutes n)), (Z.ltb_spec (minutes n) (minutes s)); done || lia.
Qed.

(** A toggle turns the mode to the other state, whatever the override was and
    whatever the clock shows; it says so once, and a tick of the watcher that
    follows has nothing to add about it. *)
Theorem toggle_flips e s :
  is_active e (toggle e s) = negb (is_active e s) ∧
  told (toggle e s) = told s ++ [announce_transition (negb (is_active e s)) e; Refresh] ∧
  ∀ e', is_active e' (toggle e s) = is_active e (toggle e s) →
  ∀ t, t ∈ told (handle_tick e' (toggle e s)) → t ∈ told (toggle e s) ∨ ∃ n, t = Loud n.
Proof.
  unfold toggle, set_state. set (was := is_active e s).
  assert (Hon : is_active e (mkState (if was then lit "off" else lit "on") (last s) (last_loud s) (told s)) = negb was)
    by by destruct was.
  rewrite Hon. rewrite bool_decide_eq_false_2 by by destruct was. unfold tell. simpl.
  split; [by destruct was|]. split; [done|].
  intros e' He'. unfold handle_tick. rewrite He'. simpl.
  assert (is_active e (mkState (if was then lit "off" else lit "on") (Some (negb was)) (last_loud s)
            (told s ++ [announce_transition (negb was) e; Refresh])) = negb was) as -> by by destruct was.
  rewrite bool_decide_eq_true_2 by done. intros t.
  destruct (negb was); [|by left]. destruct (sink e') as [n|]; [|by left].
  destruct (quiet e' n); [by left|]. case_bool_decide; [by left|]. simpl.
  intros [Ht|Ht%list_elem_of_singleton]%elem_of_app; eauto.
Qed.

(** A tick leaves the recorded state true, and with nothing changed the next
    tick says nothing: each transition and each loud sink is told once. *)
Theorem ticks_settle e s :
  default false (last (handle_tick e s)) = is_active e (handle_tick e s) ∧
  handle_tick e (handle_tick e s) = handle_tick e s.
Proof.
  assert (Hov : ∀ s, is_active e (handle_tick e s) = is_active e s).
  { intros s0. unfold handle_tick, is_active. repeat case_match; try case_bool_decide; done. }
  assert (Hlast : ∀ s, default false (last (handle_tick e s)) = is_active e s).
  { intros s0. unfold handle_tick. case_bool_decide as Hb; unfold tell; simpl;
      destruct (is_active e s0); repeat case_match; try case_bool_decide; simpl; congruence || done. }
  split; [by rewrite Hlast, Hov|].
  set (s' := handle_tick e s). unfold handle_tick at 1. rewrite (Hov s : is_active e s' = _), (Hlast s : default false (last s') = _).
  rewrite bool_decide_eq_true_2 by done.
  destruct (is_active e s) eqn:Ha.
  - destruct (sink e) as [n|] eqn:Hs; [|done].
    assert (Hl : if quiet e n then last_loud s' = None else last_loud s' = Some n).
    { unfold s', handle_tick. rewrite Ha, Hs. destruct (quiet e n); [done|].
      case_bool_decide as Hb; [by rewrite Hb|done]. }
    destruct (quiet e n).
    + destruct s'; simpl in *. by subst.
    + by rewrite bool_decide_eq_true_2.
  - assert (Hl : last_loud s' = None) by (unfold s', handle_tick; by rewrite Ha).
    destruct s'; simpl in *. by subst.
Qed.

(** A window whose ends are equal is empty, not the whole day. *)
Example equal_ends_never n s : in_window n s s = false.
Proof. unfold in_window. rewrite Z.leb_refl. destruct (Z.leb_spec (minutes s) (minutes n)), (Z.ltb_spec (minutes n) (minutes s)); done || lia. Qed.
Example night_wraps : map (λ t, effective default_cfg t (lit "auto")) [mkHM 22 59; mkHM 23 0; mkHM 3 30; mkHM 10 0] =
  [false; true; true; false].
Proof. reflexivity. Qed.
End Silent.

Module Notif.

Definition SCAN_DAYS : nat := 30.
Record Record_ := mkRecord {
  id : text; ts : Z; app : text; icon : text; summary : text; body : text; read : bool }.
Definition set_read (b : bool) (r : Record_) : Record_ :=
  mkRecord (id r) (ts r) (app r) (icon r) (summary r) (body r) b.

(** ** The archive

    A day as [date(1)] names it; a day's file by the text it holds. *)
Definition Day : Type := Z * Z * Z.

Section archive.
Context (ts_to_ymd : Z → Day) (parse_day : text → option (list Record_)) (print_day : list Record_ → text).
(** A day whose file cannot be written. *)
Context (unwritable : Day → bool).

Definition read_day (files : gmap Day text) (d : Day) : list Record_ :=
  match files !! d with
  | None => []
  | Some s => if bool_decide (trim s = []) then [] else default [] (parse_day s)
  end.
Definition write_day (files : gmap Day text) (d : Day) (items : list Record_) : option (gmap Day text) :=
  if unwritable d then None else Some (<[d := print_day items]> files).
Definition append_record (r : Record_) (files : gmap Day text) : option (gmap Day text) :=
  write_day files (ts_to_ymd (ts r)) (read_day files (ts_to_ymd (ts r)) ++ [r]).

(** The days scanned, from [now] back in steps of 86400 seconds. *)
Definition scanned (now : Z) (days : nat) : list Day :=
  map (λ back, ts_to_ymd (Z.max 0 (now - Z.of_nat back * 86400))) (seq 0 days).
Definition newest_first (a b : Record_) : bool := (ts b <=? ts a)%Z.
Definition list_recent (now : Z) (days : nat) (files : gmap Day text) : list Record_ :=
  concat (map (λ d, sort_by newest_first (read_day files d)) (scanned now days)).
Definition unread_count (now : Z) (files : gmap Day text) : nat :=
  length (List.filter (λ r, negb (read r)) (list_recent now SCAN_DAYS files)).

(** [clear] stops at the first day that cannot be written. *)
Fixpoint clear_days (ds : list Day) (files : gmap Day text) : gmap Day text * bool :=
  match ds with
  | [] => (files, true)
  | d :: ds' =>
    let items := read_day files d in
    if existsb (λ r, negb (read r)) items then
      match write_day files d (map (set_read true) items) with
      | None => (files, false)
      | Some files' => clear_days ds' files'
      end
    else clear_days ds' files
  end.
Definition clear (now : Z) (files : gmap Day text) : gmap Day text * bool := clear_days (scanned now SCAN_DAYS) files.

(** The first record of that id in a day. *)
Fixpoint mark_first (i : text) (b : bool) (l : list Record_) : option (list Record_) :=
  match l with
  | [] => None
  | r :: l' => if bool_decide (id r = i) then Some (set_read b r :: l') else cons r <$> mark_first i b l'
  end.
Fixpoint mark_days (i : text) (b : bool) (ds : list Day) (files : gmap Day text) : option (gmap Day text) :=
  match ds with
  | [] => Some files
  | d :: ds' =>
    match mark_first i b (read_day files d) with
    | Some items => write_day files d items
    | None => mark_days i b ds' files
    end
  end.
Definition mark_read (i : text) (b : bool) (now : Z) (files : gmap Day text) : option (gmap Day text) :=
  mark_days i b (scanned now SCAN_DAYS) files.

(** ** Theorems *)

(** What is printed is read back, and it is not blank. *)
Context (print_back : ∀ l, parse_day (print_day l) = Some l ∧ trim (print_day l) ≠ []).

Lemma day_read_written files files' d items : write_day files d items = Some files' →
  read_day files' d = items ∧ ∀ d', d' ≠ d → read_day files' d' = read_day files d'.
Proof.
  unfold write_day. destruct (unwritable d); [discriminate|]. intros [= <-]. unfold read_day.
  destruct (print_back items) as [Hp Hb]. split.
  - by rewrite lookup_insert_eq, bool_decide_eq_false_2, Hp.
  - intros d' Hne. by rewrite lookup_insert_ne by congruence.
Qed.

(** A record that arrives is at the end of its day, before it nothing changes. *)
Lemma appended_record_is_there r files files' : append_record r files = Some files' →
  read_day files' (ts_to_ymd (ts r)) = read_day files (ts_to_ymd (ts r)) ++ [r] ∧
  ∀ d, d ≠ ts_to_ymd (ts r) → read_day files' d = read_day files d.
Proof. apply day_read_written. Qed.

Lemma clear_days_spec ds files files' : clear_days ds files = (files', true) →
  ∀ d, read_day files' d = if decide (d ∈ ds) then map (set_read true) (read_day files d) else read_day files d.
Proof.
  revert files. induction ds as [|d ds IH]; intros files; cbn [clear_days].
  { intros [= <-] d. by rewrite decide_False by apply not_elem_of_nil. }
  assert (Hall : ∀ l, existsb (λ r, negb (read r)) l = false → map (set_read true) l = l).
  { induction l as [|r l IHl]; [done|]. simpl. rewrite orb_false_iff, negb_false_iff. intros [Hr Hl].
    rewrite IHl by done. f_equal. destruct r; simpl in *; by subst. }
  assert (Htwice : ∀ l, map (set_read true) (map (set_read true) l) = map (set_read true) l).
  { intros l. rewrite map_map. by apply map_ext. }
  destruct (existsb _ (read_day files d)) eqn:He.
  - destruct (write_day files d _) as [files1|] eqn:Hw; [|discriminate]. intros H d0.
    destruct (day_read_written _ _ _ _ Hw) as [Hd Hne]. rewrite (IH _ H d0).
    destruct (decide (d0 = d)) as [->|Hd0].
    + destruct (decide (d ∈ d :: ds)) as [_|[]]; [|by left]. rewrite Hd. destruct (decide (d ∈ ds)); [apply Htwice|done].
    + rewrite (Hne d0 Hd0). destruct (decide (d0 ∈ ds)) as [Hin|Hin].
      * by rewrite decide_True by (by right).
      * by rewrite decide_False by (intros [?|?]%elem_of_cons; done).
  - intros H d0. rewrite (IH _ H d0). destruct (decide (d0 = d)) as [->|Hd0].
    + destruct (decide (d ∈ d :: ds)) as [_|[]]; [|by left]. destruct (decide (d ∈ ds)); [done|by rewrite Hall by done].
    + destruct (decide (d0 ∈ ds)) as [Hin|Hin].
      * by rewrite decide_True by (by right).
      * by rewrite decide_False by (intros [?|?]%elem_of_cons; done).
Qed.

Lemma cleared_days_read ds files files' : clear_days ds files = (files', true) →
  List.filter (λ r, negb (read r)) (concat (map (λ d, sort_by newest_first (read_day files' d)) ds)) = [] ∧
  ∀ d, map id (read_day files' d) = map id (read_day files d) ∧ (d ∉ ds → read_day files' d = read_day files d).
Proof.
  intros H. pose proof (clear_days_spec _ _ _ H) as Hd. split.
  - destruct (List.filter _ _) as [|r l] eqn:Hf; [done|]. exfalso.
    assert (Hin : In r (r :: l)) by by left. rewrite <- Hf in Hin. apply List.filter_In in Hin as [Hin Hr].
    apply list_elem_of_In, elem_of_concat in Hin as (items & Hin & Hds).
    apply list_elem_of_fmap in Hds as (d & -> & Hds).
    apply elem_of_sort_by in Hin. rewrite Hd, decide_True in Hin by done.
    apply list_elem_of_fmap in Hin as (r0 & -> & _). done.
  - intros d. rewrite Hd. destruct (decide (d ∈ ds)) as [Hin|Hin]; [|done].
    split; [rewrite map_map; by apply map_ext|done].
Qed.

(** Clearing, when every day could be written, leaves nothing unread to count,
    loses no record and touches no older day. *)
Theorem cleared_means_none_unread now files files' :
  clear now files = (files', true) →
  unread_count now files' = 0 ∧
  ∀ d, map id (read_day files' d) = map id (read_day files d) ∧
       (d ∉ scanned now SCAN_DAYS → read_day files' d = read_day files d).
Proof.
  unfold clear, unread_count, list_recent. generalize (scanned now SCAN_DAYS). intros ds H.
  destruct (cleared_days_read _ _ _ H) as [Hf Hd]. by rewrite Hf.
Qed.
End archive.

(** ** The watcher

    The lines of [dbus-monitor]. *)
Record Pending := mkPending { papp : text; picon : text; psummary : text; got : nat }.
Definition parse_string_arg (line : text) : option text :=
  rest ← strip_prefix (lit "string " ++ [34%Z]) (trim line); strip_suffix [34%Z] rest.
Definition is_notify (line : text) : bool :=
  starts_with line (lit "method call") && contains line (lit "member=Notify").

(** One line: what is pending, and the notification that is complete: its
    application, icon, summary and body. *)
Definition on_line (line : text) (p : option Pending) : option Pending * option (text * text * text * text) :=
  match p with
  | None => (if is_notify line then Some (mkPending [] [] [] 0) else None, None)
  | Some p =>
    match parse_string_arg line with
    | None => (Some p, None)
    | Some s =>
      match got p with
      | 0 => (Some (mkPending s (picon p) (psummary p) 1), None)
      | 1 => (Some (mkPending (papp p) s (psummary p) 2), None)
      | 2 => (Some (mkPending (papp p) (picon p) s 3), None)
      | _ => (None, if bool_decide (papp p = lit "sy") then None else Some (papp p, picon p, psummary p, s))
      end
    end
  end.
Fixpoint watch (ls : list text) (p : option Pending) : list (text * text * text * text) :=
  match ls with
  | [] => []
  | l :: ls' => let '(p', n) := on_line l p in option_list n ++ watch ls' p'
  end.

Definition quoted (s : text) : text := lit "   string " ++ [34%Z] ++ s ++ [34%Z].
(** How [dbus-monitor] shows a call of [Notify] whose strings have one line
    each, and the lines it shows after the body. *)
Definition shown (app icon summary body : text) (rest : list text) : list text :=
  [lit "method call time=1 sender=:1.1 interface=org.freedesktop.Notifications; member=Notify"; quoted app;
   lit "   uint32 0"; quoted icon; quoted summary; quoted body] ++ rest.

Lemma trim_end_quote (y : text) : reverse (trim_start (reverse (y ++ [34%Z]))) = y ++ [34%Z].
Proof.
  rewrite reverse_app. change (reverse [34%Z]) with [34%Z]. simpl. by rewrite reverse_cons, reverse_involutive.
Qed.
Lemma parse_quoted s : parse_string_arg (quoted s) = Some s.
Proof.
  unfold parse_string_arg, quoted.
  assert (trim (lit "   string " ++ [34%Z] ++ s ++ [34%Z]) = (lit "string " ++ [34%Z]) ++ s ++ [34%Z]) as ->.
  { unfold trim.
    change (trim_start (lit "   string " ++ [34%Z] ++ s ++ [34%Z])) with ((lit "string " ++ [34%Z] ++ s) ++ [34%Z]).
    by rewrite trim_end_quote, <- !app_assoc. }
  rewrite strip_prefix_app. simpl. by apply strip_suffix_Some.
Qed.

Lemma watch_step l ls p p' n : on_line l p = (p', n) → watch (l :: ls) p = option_list n ++ watch ls p'.
Proof. intros H. cbn [watch]. by rewrite H. Qed.
Lemma watch_string s ls p : watch (quoted s :: ls) (Some p) =
  match got p with
  | 0 => watch ls (Some (mkPending s (picon p) (psummary p) 1))
  | 1 => watch ls (Some (mkPending (papp p) s (psummary p) 2))
  | 2 => watch ls (Some (mkPending (papp p) (picon p) s 3))
  | _ => (if bool_decide (papp p = lit "sy") then [] else [(papp p, picon p, psummary p, s)]) ++ watch ls None
  end.
Proof.
  destruct (got p) as [|[|[|n]]] eqn:Hg;
    (erewrite watch_step; [|unfold on_line; rewrite parse_quoted, Hg; reflexivity]); try done.
  f_equal. by case_bool_decide.
Qed.
Lemma watch_nothing ls ls' : Forall (λ l, is_notify l = false) ls → watch (ls ++ ls') None = watch ls' None.
Proof. induction 1 as [|l ls Hl _ IH]; [done|]. simpl. by rewrite Hl. Qed.

(** A notification whose four strings have one line each is archived as it was
    sent, unless it is the program's own; the lines that follow it up to the next
    call are ignored. *)
Theorem one_line_notification_is_kept app icon summary body rest ls :
  Forall (λ l, is_notify l = false) rest →
  watch (shown app icon summary body rest ++ ls) None =
  (if bool_decide (app = lit "sy") then [] else [(app, icon, summary, body)]) ++ watch ls None.
Proof.
  intros Hr. unfold shown. rewrite <- app_assoc. cbn [Datatypes.app].
  erewrite watch_step; [|vm_compute; reflexivity]. cbn [option_list Datatypes.app].
  rewrite watch_string. cbn [got picon psummary papp].
  erewrite watch_step; [|vm_compute; reflexivity]. cbn [option_list Datatypes.app].
  do 3 (rewrite watch_string; cbn [got picon psummary papp]). by rewrite watch_nothing.
Qed.

Definition hints : list text :=
  map lit ["   array ["; "   ]"; "   array ["; "      dict entry("] ++
  [lit "         string " ++ [34%Z] ++ lit "urgency" ++ [34%Z]] ++
  map lit ["         variant             byte 1"; "      )"; "   ]"; "   int32 -1"].

(** A body of two lines is not found, and the first string that follows, here
    the name of a hint, is archived as the body. *)
Example two_line_body_is_lost :
  watch ([lit "method call time=1 sender=:1.1 interface=org.freedesktop.Notifications; member=Notify";
          quoted (lit "mail"); lit "   uint32 0"; quoted []; quoted (lit "New mail");
          lit "   string " ++ [34%Z] ++ lit "From: Ann"; lit "See you" ++ [34%Z]] ++ hints) None =
  [(lit "mail", [], lit "New mail", lit "urgency")].
Proof. vm_compute. reflexivity. Qed.

(** Without hints the next notification is swallowed: its application becomes
    the body. *)
Example next_notification_is_swallowed :
  watch ([lit "method call time=1 sender=:1.1 interface=org.freedesktop.Notifications; member=Notify";
          quoted (lit "mail"); lit "   uint32 0"; quoted []; quoted (lit "New mail");
          lit "   string " ++ [34%Z] ++ lit "From: Ann"; lit "See you" ++ [34%Z]] ++
         shown (lit "chat") [] (lit "Bob") (lit "hello") []) None =
  [(lit "mail", [], lit "New mail", lit "chat")].
Proof. vm_compute. reflexivity. Qed.

(** A day of 25 hours, two of its moments 24 hours apart: its file is listed
    twice. *)
Example long_day_counts_twice :
  let long_day := λ t : Z,
    (if (5000000 <=? t) && (t <? 5090000) then (2025, 10, 26) else (2025, 9, t / 86400))%Z in
  let one := mkRecord (lit "a") 5000100 (lit "mail") [] (lit "s") [] false in
  unread_count long_day (λ _, Some [one]) 5089000 {[ (2025, 10, 26)%Z := lit "x" ]} = 2.
Proof. vm_compute. reflexivity. Qed.
End Notif.

Module Net.

(** ** [nmcli -t] *)

(** Fields apart by colons, a backslash taking the next character as it is. *)
Fixpoint fields (s cur : text) (esc : bool) : list text :=
  match s with
  | [] => [cur]
  | c :: s' =>
    if esc then fields s' (cur ++ [c]) false
    else if (c =? 92)%Z then fields s' cur true
    else if (c =? 58)%Z then cur :: fields s' [] false
    else fields s' (cur ++ [c]) false
  end.
Definition parse_colon_fields (l : text) : list text := fields l [] false.

(** How [nmcli] writes a field. *)
Definition nm_escape (f : text) : text :=
  concat (map (λ c, if (c =? 92) || (c =? 58) then [92; c] else [c])%Z f).
Fixpoint nm_line (fs : list text) : text :=
  match fs with
  | [] => []
  | [f] => nm_escape f
  | f :: fs' => nm_escape f ++ 58%Z :: nm_line fs'
  end.

Lemma fields_escape f s cur : fields (nm_escape f ++ s) cur false = fields s (cur ++ f) false.
Proof.
  unfold nm_escape. revert cur. induction f as [|c f IH]; intros cur; simpl; [by rewrite app_nil_r|].
  rewrite <- app_assoc. destruct (Z.eqb_spec c 92) as [->|H92]; simpl; [by rewrite IH, <- app_assoc|].
  destruct (Z.eqb_spec c 58) as [->|H58]; simpl; [by rewrite IH, <- app_assoc|].
  rewrite (proj2 (Z.eqb_neq c 92)), (proj2 (Z.eqb_neq c 58)) by done. by rewrite IH, <- app_assoc.
Qed.

(** The fields of a line are those the tool wrote, colons and backslashes in
    names included. *)
Theorem fields_round_trip fs : fs ≠ [] → parse_colon_fields (nm_line fs) = fs.
Proof.
  unfold parse_colon_fields. induction fs as [|f [|g fs] IH]; [done|intros _|intros _].
  - simpl. rewrite <- (app_nil_r (nm_escape f)), fields_escape. done.
  - change (nm_line (f :: g :: fs)) with (nm_escape f ++ 58%Z :: nm_line (g :: fs)).
    rewrite fields_escape. simpl. f_equal. by apply IH.
Qed.

(** ** Wireless networks *)

Record Wifi := mkWifi { in_use : bool; ssid : text; signal_pct : Z; security : text }.
Definition parse_u32 (s : text) : option Z :=
  match parse_usize s with Some n => if (n <? U32_MOD)%Z then Some n else None | None => None end.
Definition parse_nmcli_line (l : text) : option Wifi :=
  match parse_colon_fields l with
  | a :: s :: g :: sec :: _ =>
    Some (mkWifi (bool_decide (a = lit "*")) s (default 0%Z (parse_u32 g)) (match sec with [] => lit "open" | _ => sec end))
  | _ => None
  end.
Definition stronger (a b : Wifi) : bool :=
  if in_use a then if in_use b then (signal_pct b <=? signal_pct a)%Z else true
  else if in_use b then false else (signal_pct b <=? signal_pct a)%Z.
(** [dedup_by]: of neighbours with one name the first stays. *)
Fixpoint dedup (l : list Wifi) : list Wifi :=
  match l with
  | [] => []
  | w :: l' =>
    match dedup l' with
    | v :: r => if bool_decide (ssid v = ssid w) then w :: r else w :: v :: r
    | [] => [w]
    end
  end.
Definition wifi_list (out : text) : list Wifi :=
  dedup (sort_by stronger
    (List.filter (λ w, negb (bool_decide (ssid w = [])) && negb (bool_decide (ssid w = lit "--")))
      (omap parse_nmcli_line (lines out)))).

(** [{:<n}] and [{:>3}]. *)
Definition pad_right (n : nat) (s : text) : text := s ++ repeat 32%Z (n - length s).
Definition pad_left (n : nat) (s : text) : text := repeat 32%Z (n - length s) ++ s.
Definition row (w : Wifi) : text :=
  lit (if in_use w then "* " else "  ") ++ pad_right 24 (ssid w) ++ lit " " ++
  pad_left 3 (show_nat (signal_pct w)) ++ lit "%  " ++ security w.
(** [pick]: the network that is taken for the chosen row. *)
Definition resolve_pick (entries : list Wifi) (choice : text) : option Wifi :=
  List.find (λ w, contains (trim choice) (ssid w)) entries.
(** [connect]: whether a profile of that name is saved, by the raw lines. *)
Definition is_saved (out ssid : text) : bool := existsb (λ l, bool_decide (l = ssid)) (lines out).

(** Of two networks, the chosen one's name holding the other's, the other is
    connected to when it comes first. *)
Example wrong_network_is_picked :
  let home := mkWifi false (lit "Home") 80 (lit "WPA2") in
  let guest := mkWifi false (lit "Home-Guest") 60 (lit "WPA2") in
  resolve_pick [home; guest] (row guest) = Some home.
Proof. vm_compute. reflexivity. Qed.
(** The same name twice, with another in between by its signal. *)
Example name_is_listed_twice :
  map ssid (wifi_list (concat (map (λ l, lit l ++ [10%Z])
    [" :Cafe:80:WPA2"; " :Home:70:WPA2"; " :Cafe:60:WPA2"]))) = [lit "Cafe"; lit "Home"; lit "Cafe"].
Proof. vm_compute. reflexivity. Qed.
(** A saved name with a colon is not recognised. *)
Example saved_colon_is_missed :
  is_saved (nm_line [lit "A:B"] ++ [10%Z]) (lit "A:B") = false.
Proof. vm_compute. reflexivity. Qed.

(** ** Connections *)

Definition active_connections (out : text) : list (text * text * text) :=
  omap (λ l, match parse_colon_fields l with
             | n :: t :: d :: _ => if bool_decide (t = lit "loopback") then None else Some (n, t, d)
             | _ => None
             end) (lines out).
Definition parse_saved_by_type (out : text) (up : text → bool) (want : text → bool) : list (text * bool) :=
  omap (λ l, match parse_colon_fields l with
             | n :: t :: _ => if want t then Some (n, up n) else None
             | _ => None
             end) (lines out).
Definition is_up (act : list (text * text * text)) (n : text) : bool := existsb (λ c, bool_decide (c.1.1 = n)) act.
Definition saved_vpns (act : list (text * text * text)) (out : text) : list (text * bool) :=
  parse_saved_by_type out (is_up act) (λ t, bool_decide (t = lit "vpn") || bool_decide (t = lit "wireguard")).
Definition saved_wwan (act : list (text * text * text)) (out : text) : list (text * bool) :=
  parse_saved_by_type out (is_up act) (λ t, bool_decide (t = lit "gsm")).

(** *** The menu *)

Inductive Action : Type :=
| Noop | ToggleWifi (on : bool) | ToggleNet (on : bool) | Nmtui
| ConnUp (n : text) | ConnDown (n : text) | WwanUp (n : text) | ConnectWifi (ssid : text).
Definition menu_items (wifi_on net_on : bool) (act : list (text * text * text)) (vpns wwan : list (text * bool))
    (wifis : list Wifi) : list (text * Action) :=
  (match act with
   | [] => [(lit "  (disconnected)", Noop)]
   | _ => map (λ c, (lit "* " ++ pad_right 10 c.1.2 ++ lit " " ++ c.1.1 ++ lit "  [" ++ c.2 ++ lit "]", ConnDown c.1.1)) act
   end) ++
  [(lit "  wi-fi       " ++ lit (if wifi_on then "on   (click to disable)" else "off  (click to enable)"), ToggleWifi wifi_on);
   (lit "  networking  " ++ lit (if net_on then "on   (click to disable)" else "off  (click to enable)"), ToggleNet net_on);
   (KQuery.ulit "  nmtui…", Nmtui)] ++
  map (λ v : text * bool, (lit (if v.2 then "* vpn  down  " else "  vpn  up    ") ++ v.1,
                           if v.2 then ConnDown v.1 else ConnUp v.1)) vpns ++
  map (λ v : text * bool, (lit (if v.2 then "* wwan down  " else "  wwan up    ") ++ v.1,
                           if v.2 then ConnDown v.1 else WwanUp v.1)) wwan ++
  map (λ w, (lit (if in_use w then "* " else "  ") ++ lit "wifi " ++ pad_right 24 (ssid w) ++ lit " " ++
             pad_left 3 (show_nat (signal_pct w)) ++ lit "%  " ++ security w, ConnectWifi (ssid w))) wifis.
Fixpoint trim_newlines (s : text) : text :=
  match s with
  | [] => []
  | c :: s' => match trim_newlines s' with [] => if (c =? 10)%Z then [] else [c] | r => c :: r end
  end.
(** The action of the row that came back, if it is one of the rows. *)
Definition chosen (items : list (text * Action)) (choice : text) : option Action :=
  match trim_newlines choice with
  | [] => None
  | c => snd <$> List.find (λ i, bool_decide (i.1 = c)) items
  end.
(** The calls of [nmcli] an action makes. *)
Definition commands (a : Action) : list (list text) :=
  match a with
  | ToggleWifi on => [[lit "radio"; lit "wifi"; lit (if on then "off" else "on")]]
  | ToggleNet on => [[lit "networking"; lit (if on then "off" else "on")]]
  | ConnUp n => [[lit "connection"; lit "up"; lit "id"; n]]
  | ConnDown n => [[lit "connection"; lit "down"; lit "id"; n]]
  | WwanUp n => [[lit "radio"; lit "wwan"; lit "on"]; [lit "connection"; lit "up"; lit "id"; n]]
  | Noop | Nmtui | ConnectWifi _ => []
  end.

(** ** The tile of captive portals *)

Inductive Conn : Type := None_ | Unknown | PortalC | Limited | Full.
#[export] Instance Conn_eq_dec : EqDecision Conn.
Proof. solve_decision. Defined.
Definition parse_conn (s : text) : Conn :=
  let t := trim s in
  if bool_decide (t = lit "full") then Full
  else if bool_decide (t = lit "limited") then Limited
  else if bool_decide (t = lit "portal") then PortalC
  else if bool_decide (t = lit "none") then None_
  else Unknown.
Definition is_live (c : Conn) : bool := match c with Full | PortalC | Limited => true | _ => false end.
Record DevConn := mkDev { kind : text; name : text; ip4 : Conn; ip6 : Conn }.
Inductive Portal : Type := POk | Captive (l : list text) | NoInternet (l : list text).

Definition parse_device_connectivity (out : text) : list DevConn :=
  omap (λ l, match parse_colon_fields l with
             | _ :: k :: n :: a :: b :: _ => Some (mkDev k n (parse_conn a) (parse_conn b))
             | _ => None
             end) (lines out).
Definition uplink (d : DevConn) : bool :=
  existsb (λ k, bool_decide (kind d = lit k)) ["wifi"; "gsm"; "ethernet"] && (is_live (ip4 d) || is_live (ip6 d)).
Definition has (c : Conn) (d : DevConn) : bool := bool_decide (ip4 d = c) || bool_decide (ip6 d = c).
Definition label (d : DevConn) : text :=
  if bool_decide (name d = []) || bool_decide (name d = lit "--") then kind d
  else kind d ++ lit " (" ++ name d ++ lit ")".
Definition classify_portal (devs : list DevConn) : Portal :=
  match List.filter uplink devs with
  | [] => POk
  | ups =>
    if existsb (has Full) ups then POk
    else match map label (List.filter (has PortalC) ups) with
         | [] => NoInternet (map label ups)
         | captive => Captive captive
         end
  end.
Definition portal_class (p : Portal) : string :=
  match p with POk => "hidden" | Captive _ => "portal" | NoInternet _ => "limited" end.

(** The tile shows exactly when some uplink is live and none of them has the
    Internet; then it is a portal exactly when one of them meets one. *)
Theorem tile_shows_when_cut_off devs :
  (portal_class (classify_portal devs) = "hidden" ↔
     (∀ d, d ∈ devs → uplink d = true → False) ∨ ∃ d, d ∈ devs ∧ uplink d = true ∧ has Full d = true) ∧
  (portal_class (classify_portal devs) = "portal" ↔
     (∀ d, d ∈ devs → uplink d = true → has Full d = false) ∧
     ∃ d, d ∈ devs ∧ uplink d = true ∧ has PortalC d = true).
Proof.
  assert (Hin : ∀ d, In d (List.filter uplink devs) ↔ d ∈ devs ∧ uplink d = true).
  { intros d. by rewrite List.filter_In, list_elem_of_In. }
  unfold classify_portal. destruct (List.filter uplink devs) as [|u us] eqn:Hf.
  - simpl in *. split; split; try done.
    + intros _. left. intros d Hd Hu. by apply (Hin d).
    + intros [_ (d & Hd & Hu & _)]. exfalso. by apply (Hin d).
  - destruct (existsb (has Full) (u :: us)) eqn:Hfull.
    + apply existsb_exists in Hfull as (d & Hd & Hh). apply Hin in Hd as [Hd Hu]. split; split; try done.
      * intros _. right. eauto.
      * intros [Hno _]. by rewrite (Hno d) in Hh.
    + assert (Hno : ∀ d, d ∈ devs → uplink d = true → has Full d = false).
      { intros d Hd Hu. apply not_true_iff_false. intros Hh. apply not_true_iff_false in Hfull. apply Hfull.
        apply existsb_exists. exists d. split; [by apply Hin|done]. }
      destruct (List.filter (has PortalC) (u :: us)) as [|c cs] eqn:Hc; simpl; split; split; try done.
      * intros [Hn|(d & Hd & Hu & Hh)]; [exfalso; destruct (proj1 (Hin u)) as [? ?]; [by left|by eapply Hn]|].
        by rewrite (Hno d) in Hh.
      * intros [_ (d & Hd & Hu & Hh)]. exfalso. assert (H : In d (List.filter (has PortalC) (u :: us))).
        { apply List.filter_In. split; [by apply Hin|done]. }
        by rewrite Hc in H.
      * intros [Hn|(d & Hd & Hu & Hh)]; [exfalso; destruct (proj1 (Hin u)) as [? ?]; [by left|by eapply Hn]|].
        by rewrite (Hno d) in Hh.
      * intros _. split; [done|]. exists c. assert (H : In c (List.filter (has PortalC) (u :: us))) by (rewrite Hc; by left).
        apply List.filter_In in H as [H Hp]. apply Hin in H as [? ?]. done.
Qed.
End Net.

Module Wwan.
Import Net.

Definition CONN_PREFIX : text := lit "sy-wwan-".
Record Profile := mkProfile {
  pname : text; apn : text; autoconnect : bool; home_only : bool; username : option text; password : option text }.
Definition conn_name (p : Profile) : text := CONN_PREFIX ++ pname p.
Definition yesno (b : bool) : text := lit (if b then "yes" else "no").
Definition setting_pairs (p : Profile) : list (text * text) :=
  [(lit "connection.autoconnect", yesno (autoconnect p)); (lit "gsm.home-only", yesno (home_only p));
   (lit "gsm.username", default [] (username p)); (lit "gsm.password", default [] (password p))].
Definition flat (l : list (text * text)) : list text := flat_map (λ kv, [kv.1; kv.2]) l.
Definition add_args (p : Profile) : list text :=
  map lit ["connection"; "add"; "type"; "gsm"; "con-name"] ++ [conn_name p; lit "ifname"; lit "*"; lit "gsm.apn"; apn p] ++
  flat (setting_pairs p).
Definition modify_args (p : Profile) : list text :=
  [lit "connection"; lit "modify"; conn_name p; lit "gsm.apn"; apn p] ++ flat (setting_pairs p).

(** ** [mmcli] *)

Fixpoint split_once_colon (s : text) : option (text * text) :=
  match s with
  | [] => None
  | c :: s' => if (c =? 58)%Z then Some ([], s') else '(a, b) ← split_once_colon s'; Some (c :: a, b)
  end.
Definition after_bar (s : text) : text := default s (List.last (map Some (split_on 124%Z s)) None).
Definition eq_ignore_case (a b : text) : bool := bool_decide (map to_ascii_lowercase a = map to_ascii_lowercase b).
Fixpoint find_map {A B} (f : A → option B) (l : list A) : option B :=
  match l with [] => None | x :: l' => match f x with Some y => Some y | None => find_map f l' end end.
Definition field (t : text) (key : text) : option text :=
  find_map (λ l, '(lhs, rhs) ← split_once_colon l;
                 if eq_ignore_case (trim (after_bar lhs)) key then
                   match trim rhs with [] => None | v => Some v end
                 else None) (lines t).

(** ** The connections of NetworkManager

    By their names, of which there may be several alike, with their settings. *)
Notation Settings := (gmap text text).
Notation Conns := (list (text * gmap text text)).

Definition sets (l : list (text * text)) (s : Settings) : Prop := ∀ k v, (k, v) ∈ l → s !! k = Some v.
Definition declared (p : Profile) : list (text * text) := (lit "gsm.apn", apn p) :: setting_pairs p.

(** What this program relies on: [nmcli -t -f NAME connection show] prints the
    names, escaped, one to a line; [add] that succeeds makes one more connection,
    with the settings given; [modify] that succeeds, on a name that one connection
    has, gives that one the settings, and [delete] takes that one away. *)
Class NetworkManager := {
  nmcli : list text → Conns → result Conns text;
  show_names : Conns → text;
  show_spec c : show_names c = concat (map (λ e, nm_escape e.1 ++ [10%Z]) c);
  add_spec p c c' : nmcli (add_args p) c = Ok c' →
    ∃ s, c' ≡ₚ (conn_name p, s) :: c ∧ sets (declared p) s;
  modify_spec p c c' s rest : nmcli (modify_args p) c = Ok c' → NoDup (map fst c) →
    c ≡ₚ (conn_name p, s) :: rest → ∃ s', c' ≡ₚ (conn_name p, s') :: rest ∧ sets (declared p) s';
  delete_spec n c c' s rest : nmcli [lit "connection"; lit "delete"; n] c = Ok c' → NoDup (map fst c) →
    c ≡ₚ (n, s) :: rest → c' ≡ₚ rest }.

Section reconcile.
Context {N : NetworkManager}.

(** The raw comparison with a line. *)
Definition connection_exists (n : text) (c : Conns) : bool := existsb (λ l, bool_decide (l = n)) (lines (show_names c)).

Fixpoint enable_profiles (ps : list Profile) (c : Conns) : Conns * result unit text :=
  match ps with
  | [] => (c, Ok tt)
  | p :: ps' =>
    match nmcli (if connection_exists (conn_name p) c then modify_args p else add_args p) c with
    | Err e => (c, Err e)
    | Ok c' => enable_profiles ps' c'
    end
  end.
(** [enable], after ModemManager and the radio switch. *)
Definition enable (manager radio : result unit text) (config : result (list Profile) text) (c : Conns)
    : Conns * result unit text :=
  match manager, radio, config with
  | Ok _, Ok _, Ok ps => enable_profiles ps c
  | Err e, _, _ | Ok _, Err e, _ | Ok _, Ok _, Err e => (c, Err e)
  end.
Fixpoint disable_profiles (ps : list Profile) (removed : nat) (c : Conns) : Conns * result nat text :=
  match ps with
  | [] => (c, Ok removed)
  | p :: ps' =>
    if connection_exists (conn_name p) c then
      match nmcli [lit "connection"; lit "delete"; conn_name p] c with
      | Err e => (c, Err e)
      | Ok c' => disable_profiles ps' (S removed) c'
      end
    else disable_profiles ps' removed c
  end.

(** ** Theorems *)

(** Names of letters, digits and the like: the tool prints them as they are,
    one to a line. *)
Definition plain (n : text) : Prop := Forall (λ c, c ≠ 92 ∧ c ≠ 58 ∧ c ≠ 10 ∧ c ≠ 13)%Z n.

Lemma escape_plain n : plain n → nm_escape n = n.
Proof.
  unfold nm_escape. induction 1 as [|c n (H1 & H2 & _) _ IH]; [done|]. simpl.
  by rewrite (proj2 (Z.eqb_neq c 92)), (proj2 (Z.eqb_neq c 58)), IH.
Qed.
Lemma plain_line n : plain n → is_line n.
Proof.
  intros H. unfold plain in H. rewrite Forall_forall in H. split.
  - intros Hin. by destruct (H _ Hin) as (_ & _ & ? & _).
  - intros Hl. apply last_Some in Hl as [l ->]. destruct (H 13%Z) as (_ & _ & _ & ?); [|done].
    apply elem_of_app. right. by apply list_elem_of_singleton.
Qed.
Lemma exists_plain n c : Forall (λ e, plain e.1) c → connection_exists n c = true ↔ n ∈ map fst c.
Proof.
  intros H. unfold connection_exists. rewrite show_spec.
  assert (map (λ e : text * Settings, nm_escape e.1 ++ [10%Z]) c = map (λ l, l ++ [10%Z]) (map fst c)) as ->.
  { rewrite map_map. induction H as [|e c He _ IH]; [done|]. simpl. by rewrite escape_plain, IH. }
  rewrite lines_printed.
  - rewrite existsb_exists. split.
    + intros (l & Hin & Hb). apply bool_decide_eq_true in Hb. subst. by apply list_elem_of_In.
    + intros Hin. exists n. split; [by apply list_elem_of_In|]. by apply bool_decide_eq_true.
  - clear -H. induction H as [|e c He _ IH]; constructor; [by apply plain_line|done].
Qed.

Lemma conn_name_prefix p : starts_with (conn_name p) CONN_PREFIX = true.
Proof. apply starts_with_spec. by exists (pname p). Qed.

(** One profile of [enable]. *)
Lemma reconcile_spec p c c' : Forall (λ e, plain e.1) c → NoDup (map fst c) → plain (conn_name p) →
  nmcli (if connection_exists (conn_name p) c then modify_args p else add_args p) c = Ok c' →
  Forall (λ e, plain e.1) c' ∧ NoDup (map fst c') ∧
  (∃ s, (conn_name p, s) ∈ c' ∧ sets (declared p) s) ∧
  ∀ n, n ≠ conn_name p → ∀ s, (n, s) ∈ c' ↔ (n, s) ∈ c.
Proof.
  intros Hc Hnd Hp Hrun.
  assert (H : ∃ s rest, c' ≡ₚ (conn_name p, s) :: rest ∧ sets (declared p) s ∧ conn_name p ∉ map fst rest ∧
            (c ≡ₚ rest ∨ ∃ s0, c ≡ₚ (conn_name p, s0) :: rest)).
  { destruct (connection_exists (conn_name p) c) eqn:He.
    - apply (exists_plain _ _ Hc) in He. apply list_elem_of_fmap in He as ([n s0] & Hn & Hin). simpl in Hn. subst n.
      apply list_elem_of_split in Hin as (l1 & l2 & ->).
      assert (Hperm : l1 ++ (conn_name p, s0) :: l2 ≡ₚ (conn_name p, s0) :: (l1 ++ l2)) by by rewrite Permutation_middle.
      destruct (modify_spec _ _ _ _ _ Hrun Hnd Hperm) as (s' & Hc' & Hs). exists s', (l1 ++ l2).
      split; [done|]. split; [done|]. split; [|by right; exists s0].
      rewrite Hperm in Hnd. by apply NoDup_cons in Hnd as [? _].
    - destruct (add_spec _ _ _ Hrun) as (s & Hc' & Hs). exists s, c. split; [done|]. split; [done|].
      split; [|by left]. intros Hin. apply (exists_plain _ _ Hc) in Hin. congruence. }
  destruct H as (s & rest & Hc' & Hs & Hnin & Hor).
  assert (Hrest : Forall (λ e, plain e.1) rest ∧ NoDup (map fst rest)).
  { destruct Hor as [Hperm|[s0 Hperm]]; rewrite Hperm in Hc, Hnd; [done|].
    apply Forall_cons in Hc as [_ Hc]. apply NoDup_cons in Hnd as [_ Hnd]. done. }
  destruct Hrest as [Hr1 Hr2]. rewrite Hc'. split; [by constructor|]. split; [by constructor|]. split.
  - exists s. rewrite Hc'. split; [by left|done].
  - intros n Hn t. rewrite Hc'. destruct Hor as [-> | [s0 ->]]; rewrite !elem_of_cons; split; intros H;
      repeat match goal with H : _ ∨ _ |- _ => destruct H end; simplify_eq; auto.
Qed.

(** Enabling that succeeds: every declared profile has exactly one connection,
    with the settings declared, and every connection of another name is as it
    was, so those outside the prefix are. Names are plain; see
    [name_with_a_colon]. *)
Theorem enable_mirrors_the_profiles ps c c' :
  NoDup (map conn_name ps) → Forall (λ p, plain (conn_name p)) ps → Forall (λ e, plain e.1) c → NoDup (map fst c) →
  enable_profiles ps c = (c', Ok tt) →
  NoDup (map fst c') ∧ (∀ p, p ∈ ps → ∃ s, (conn_name p, s) ∈ c' ∧ sets (declared p) s) ∧
  (∀ n s, n ∉ map conn_name ps → (n, s) ∈ c' ↔ (n, s) ∈ c) ∧
  ∀ n s, starts_with n CONN_PREFIX = false → (n, s) ∈ c' ↔ (n, s) ∈ c.
Proof.
  intros Hps Hpl Hc Hnd Hrun.
  assert (H : NoDup (map fst c') ∧ (∀ p, p ∈ ps → ∃ s, (conn_name p, s) ∈ c' ∧ sets (declared p) s) ∧
              ∀ n s, n ∉ map conn_name ps → (n, s) ∈ c' ↔ (n, s) ∈ c).
  { revert c Hps Hpl Hc Hnd Hrun. induction ps as [|p ps IH]; intros c Hps Hpl Hc Hnd; cbn [enable_profiles].
    { intros [= <-]. split; [done|]. split; [|done]. intros p Hp. exfalso. exact (not_elem_of_nil _ Hp). }
    destruct (nmcli _ c) as [c1|] eqn:H1; [|discriminate]. intros Hrun.
    apply Forall_cons in Hpl as [Hpp Hpl]. cbn [map] in Hps. apply NoDup_cons in Hps as [Hnin Hps].
    destruct (reconcile_spec p c c1 Hc Hnd Hpp H1) as (Hc1 & Hnd1 & Hp1 & Hne).
    destruct (IH c1 Hps Hpl Hc1 Hnd1 Hrun) as (Hnd' & Hall & Hoth). split; [done|]. split.
    - intros q [->|Hq]%elem_of_cons; [|by apply Hall]. destruct Hp1 as (s & Hin & Hs). exists s.
      split; [|done]. by apply Hoth.
    - intros n s Hn. cbn [map] in Hn. rewrite not_elem_of_cons in Hn. destruct Hn as [Hn1 Hn2].
      rewrite (Hoth n s Hn2). by apply Hne. }
  destruct H as (H1 & H2 & H3). split; [done|]. split; [done|]. split; [done|].
  intros n s Hn. apply H3. intros (p & -> & _)%list_elem_of_fmap. by rewrite conn_name_prefix in Hn.
Qed.
End reconcile.

(** ** A sample NetworkManager *)

Module Sim.
Fixpoint pairs_of (args : list text) : list (text * text) :=
  match args with k :: v :: r => (k, v) :: pairs_of r | _ => [] end.
Definition with_pairs (l : list (text * text)) (s : Settings) : Settings := foldl (λ s kv, <[kv.1 := kv.2]> s) s l.
Definition run (args : list text) (c : Conns) : result Conns text :=
  match args with
  | _ :: verb :: a1 :: rest =>
    if bool_decide (verb = lit "add") then
      match rest with
      | _ :: _ :: n :: settings => Ok (c ++ [(n, with_pairs (pairs_of settings) ∅)])
      | _ => Err (lit "usage")
      end
    else if existsb (λ e, bool_decide (e.1 = a1)) c then
      if bool_decide (verb = lit "modify") then
        Ok (map (λ e, if bool_decide (e.1 = a1) then (e.1, with_pairs (pairs_of rest) e.2) else e) c)
      else Ok (List.filter (λ e, negb (bool_decide (e.1 = a1))) c)
    else Err (lit "unknown connection")
  | _ => Err (lit "usage")
  end.

Lemma with_pairs_sets p s : sets (declared p) (with_pairs (declared p) s).
Proof.
  intros k v Hin. unfold with_pairs, declared, setting_pairs in *. cbn [foldl fst snd] in *.
  repeat (apply elem_of_cons in Hin as [[= -> ->]|Hin];
    [repeat first [rewrite lookup_insert_eq; reflexivity | rewrite lookup_insert_ne by done]|]).
  exfalso. exact (not_elem_of_nil _ Hin).
Qed.
Lemma not_in_map_id {B} n (f : text * B → text * B) rest : n ∉ map fst rest →
  map (λ e, if bool_decide (e.1 = n) then f e else e) rest = rest ∧
  List.filter (λ e, negb (bool_decide (e.1 = n))) rest = rest.
Proof.
  induction rest as [|e rest IH]; [done|]. cbn [map]. rewrite not_elem_of_cons. intros [Hne Hn].
  destruct (IH Hn) as [H1 H2]. cbn [List.filter]. rewrite bool_decide_eq_false_2 by congruence. simpl.
  by rewrite H1, H2.
Qed.
Lemma filter_Permutation_ {B} (f : B → bool) l k : l ≡ₚ k → List.filter f l ≡ₚ List.filter f k.
Proof.
  induction 1 as [|x l k _ IH|x y l|l k m _ IH1 _ IH2]; simpl; [done| | |by etrans].
  - destruct (f x); by rewrite IH.
  - destruct (f x), (f y); try done. constructor.
Qed.

#[export, program] Instance sim : NetworkManager := {|
  nmcli := run; show_names c := concat (map (λ e, nm_escape e.1 ++ [10%Z]) c) |}.
Next Obligation. done. Qed.
Next Obligation.
  intros p c c' H. unfold add_args in H. cbn [run Datatypes.app map] in H. rewrite bool_decide_eq_true_2 in H by done.
  injection H as <-. exists (with_pairs (declared p) (<[lit "ifname" := lit "*"]> ∅)).
  split; [symmetry; apply Permutation_cons_append|]. apply with_pairs_sets.
Qed.
Next Obligation.
  intros p c c' s rest H Hnd Hp. unfold modify_args in H. cbn [run Datatypes.app map] in H.
  rewrite bool_decide_eq_false_2 in H by done. destruct (existsb _ c); [|discriminate].
  rewrite bool_decide_eq_true_2 in H by done. injection H as <-. rewrite Hp in Hnd.
  cbn [map] in Hnd. apply NoDup_cons in Hnd as [Hn _]. exists (with_pairs (declared p) s).
  split; [|apply with_pairs_sets]. rewrite Hp. cbn [map fst snd]. rewrite bool_decide_eq_true_2 by done.
  by rewrite (proj1 (not_in_map_id _ _ _ Hn)).
Qed.
Next Obligation.
  intros n c c' s rest H Hnd Hp. cbn [run] in H. rewrite bool_decide_eq_false_2 in H by done.
  destruct (existsb _ c); [|discriminate]. rewrite bool_decide_eq_false_2 in H by done. injection H as <-.
  rewrite (filter_Permutation_ _ _ _ Hp). cbn [List.filter fst]. rewrite bool_decide_eq_true_2 by done. simpl.
  rewrite Hp in Hnd. apply NoDup_cons in Hnd as [Hn _]. by rewrite (proj2 (not_in_map_id n id _ Hn)).
Qed.
End Sim.
#[local] Existing Instance Sim.sim.

(** A name with a colon is printed with a backslash, so its connection is never
    found: each run of [enable] adds another of the same name, and [disable]
    removes none. *)
Example name_with_a_colon :
  let p := mkProfile (lit "a:b") (lit "internet") true false None None in
  let twice := (enable_profiles [p] (enable_profiles [p] []).1).1 in
  map fst twice = [conn_name p; conn_name p] ∧ disable_profiles [p] 0 twice = (twice, Ok 0).
Proof. split; vm_compute; reflexivity. Qed.
Example enabled_twice_is_one :
  let p := mkProfile (lit "megafon") (lit "internet") true false None None in
  map fst (enable_profiles [p] (enable_profiles [p] [(lit "home", ∅)]).1).1 = [lit "home"; conn_name p].
Proof. vm_compute. reflexivity. Qed.
End Wwan.
