(* ===== verification/Doctor.v ===== *)
(** * The doctors

    [Report] ([src/src/doctor/mod.rs]) tallies the outcomes of a list of checks
    and turns them into an exit code; [Checks] ([src/src/doctor/checks.rs] with
    [sy-ipc/src/paths.rs]) are the checks of [sy doctor]; [MonDoctor]
    ([sy-monitor/src/mon/doctor.rs], [doctor_support.rs]) and [FileDoctor]
    ([sy-filemanager/src/file/doctor.rs]) are the monitor's and the file
    manager's own; [Crash] ([src/src/crash/]) lists and shows the records of panics
    and core dumps. What a check asks of the host (files, environment, programs,
    sockets) is the record [Host]; JSON text, the Prometheus parser and the
    debug form of a string are parameters. *)

From Stdlib Require Import SpecFloat.
From stdpp Require Import pretty.
From S2P Require Import Prelude Lists Text Paths Lines Utf8 Vocab Wire KnowText Sensors Monitor KnowDaemon.
Import Lists Text Paths Lines Utf8 Value Float.
Local Open Scope string_scope.
Local Open Scope nat_scope.
Local Open Scope list_scope.

(** ** Reports *)

Module Report.

Definition SCHEMA_VERSION : Z := 1.
Definition EXIT_OK : Z := 0.
Definition EXIT_FAIL : Z := 1.
Definition EXIT_USAGE : Z := 2.
Definition EXIT_DRIFT : Z := 3.

Inductive Status : Type := Pass | Warn | Fail | Skip.
#[export] Instance Status_eq_dec : EqDecision Status.
Proof. solve_decision. Defined.

Record CheckResult : Type := mkResult {
  name : string; status : Status; message : option text; fix_ : option text; details : option value
}.
Record Summary : Type := mkSummary { pass : Z; warn : Z; fail : Z; skip : Z }.
Record DoctorReport : Type := mkReport { version : Z; summary : Summary; checks : list CheckResult }.

(** A turn of the loop of [from_checks]. *)
Definition tally (s : Summary) (c : CheckResult) : Summary :=
  match status c with
  | Pass => mkSummary (pass s + 1) (warn s) (fail s) (skip s)
  | Warn => mkSummary (pass s) (warn s + 1) (fail s) (skip s)
  | Fail => mkSummary (pass s) (warn s) (fail s + 1) (skip s)
  | Skip => mkSummary (pass s) (warn s) (fail s) (skip s + 1)
  end%Z.
Definition from_checks (cs : list CheckResult) : DoctorReport :=
  mkReport SCHEMA_VERSION (foldl tally (mkSummary 0 0 0 0) cs) cs.
Definition exit_code (r : DoctorReport) : Z :=
  if (0 <? fail (summary r))%Z then EXIT_FAIL
  else if (0 <? warn (summary r))%Z then EXIT_DRIFT
  else EXIT_OK.

(** [dyn Check], on a host. *)
Record Check (H : Type) : Type := mkCheck { check_name : string; run_check : H → CheckResult }.
Arguments mkCheck {H} _ _.
Arguments check_name {H} _.
Arguments run_check {H} _ _.
Record DoctorOpts : Type := mkOpts { json_ : bool; only : option text }.

Definition run {H} (cs : list (Check H)) (opts : DoctorOpts) (h : H) : DoctorReport :=
  let prefix := default [] (only opts) in
  let chosen := List.filter (λ c, bool_decide (prefix = []) || starts_with (lit (check_name c)) prefix) cs in
  from_checks (map (λ c, run_check c h) chosen).

Definition tag (s : Status) : text :=
  match s with Pass => lit "PASS" | Warn => lit "WARN" | Fail => lit "FAIL" | Skip => lit "SKIP" end.
Definition EM_DASH : text := [32; 8212; 32]%Z.
Definition NL : text := [10%Z].
Definition FIX : text := NL ++ lit "     fix: ".
Definition human_line (tag : text) (name : text) (message hint : option text) : text :=
  tag ++ [32%Z] ++ name
  ++ match message with Some m => EM_DASH ++ m | None => [] end
  ++ match hint with Some f => FIX ++ f | None => [] end ++ NL.
Definition summary_line (s : Summary) : text :=
  NL ++ lit "summary: pass=" ++ show_nat (pass s) ++ lit " warn=" ++ show_nat (warn s) ++ lit " fail=" ++ show_nat (fail s)
  ++ lit " skip=" ++ show_nat (skip s) ++ NL.
Definition write_human (r : DoctorReport) : text :=
  concat (map (λ c, human_line (tag (status c)) (lit (name c)) (message c) (fix_ c)) (checks r)) ++ summary_line (summary r).

(** What [dispatch] leaves: what is on standard output, and the exit code. *)
Definition dispatch {H} (to_string_pretty : DoctorReport → text) (cs : list (Check H)) (opts : DoctorOpts) (h : H)
  : text * Z :=
  let report := run cs opts h in
  if match only opts with Some p => negb (bool_decide (p = [])) | None => false end
     && bool_decide (checks report = [])
  then ([], EXIT_USAGE)
  else ((if json_ opts then to_string_pretty report ++ NL else write_human report), exit_code report).

(** *** Lemmas *)

Definition with_status (s : Status) (cs : list CheckResult) : list CheckResult :=
  List.filter (λ c, bool_decide (status c = s)) cs.
Definition count (s : Status) (cs : list CheckResult) : Z := Z.of_nat (length (with_status s cs)).
Lemma count_cons s c cs : count s (c :: cs) = ((if bool_decide (status c = s) then 1 else 0) + count s cs)%Z.
Proof. unfold count, with_status. cbn [List.filter]. case_bool_decide; cbn [length]; lia. Qed.
Lemma count_nonneg s cs : (0 <= count s cs)%Z.
Proof. unfold count. lia. Qed.
Lemma count_pos s cs : (0 < count s cs)%Z ↔ ∃ c, c ∈ cs ∧ status c = s.
Proof.
  induction cs as [|c cs IH]; [split; [done|intros (c & H & _); exfalso; exact (not_elem_of_nil _ H)]|].
  rewrite count_cons. pose proof (count_nonneg s cs). case_bool_decide as E.
  - split; [intros _; exists c; by rewrite elem_of_cons; auto|lia].
  - rewrite Z.add_0_l, IH. split; intros (d & Hd & Es); exists d; rewrite elem_of_cons in *; naive_solver.
Qed.
Lemma foldl_tally cs s :
  foldl tally s cs =
  mkSummary (pass s + count Pass cs) (warn s + count Warn cs) (fail s + count Fail cs) (skip s + count Skip cs).
Proof.
  revert s. induction cs as [|c cs IH]; intros s; cbn [foldl].
  - unfold count. cbn. rewrite !Z.add_0_r. by destruct s.
  - rewrite IH, !count_cons. unfold tally. destruct (status c) eqn:E; cbn [pass warn fail skip]; f_equal;
      repeat case_bool_decide; try done; lia.
Qed.

(** The summary counts each outcome, and its four counts add up. *)
Theorem summary_counts cs :
  let s := summary (from_checks cs) in
  pass s = count Pass cs ∧ warn s = count Warn cs ∧ fail s = count Fail cs ∧ skip s = count Skip cs
  ∧ (pass s + warn s + fail s + skip s = Z.of_nat (length cs))%Z.
Proof.
  cbn zeta. unfold from_checks. cbn [summary]. rewrite foldl_tally. cbn [pass warn fail skip]. rewrite !Z.add_0_l.
  do 4 (split; [done|]). induction cs as [|c cs IH]; [done|]. rewrite !count_cons. cbn [length].
  destruct (status c); repeat case_bool_decide; try done; lia.
Qed.

(** The exit code is the worst outcome: 1 with a failure, 3 with a warning and
    no failure, and 0 otherwise. *)
Lemma exit_code_worst cs :
  exit_code (from_checks cs) =
  if bool_decide (Exists (λ c, status c = Fail) cs) then 1%Z
  else if bool_decide (Exists (λ c, status c = Warn) cs) then 3%Z else 0%Z.
Proof.
  unfold exit_code. destruct (summary_counts cs) as (_ & Hw & Hf & _). rewrite Hw, Hf.
  assert (∀ s, (0 <? count s cs)%Z = bool_decide (Exists (λ c, status c = s) cs)) as E.
  { intros s. apply eq_bool_prop_intro. rewrite bool_decide_spec, Is_true_true, Z.ltb_lt, count_pos, Exists_exists. done. }
  by rewrite !E.
Qed.

Definition selected {H} (opts : DoctorOpts) (c : Check H) : bool := starts_with (lit (check_name c)) (default [] (only opts)).
Lemma elem_of_run {H} (cs : list (Check H)) opts h r :
  r ∈ checks (run cs opts h) ↔ ∃ c, c ∈ cs ∧ selected opts c = true ∧ r = run_check c h.
Proof.
  unfold run, from_checks, selected. cbn [checks]. rewrite list_elem_of_fmap. split.
  - intros (c & -> & Hc). apply list_elem_of_In, filter_In in Hc as [Hc Hp]. exists c. rewrite list_elem_of_In. split_and!; [done| |done].
    apply orb_true_iff in Hp as [Hp|Hp]; [|done]. apply bool_decide_eq_true in Hp. by rewrite Hp.
  - intros (c & Hc & Hp & ->). exists c. split; [done|]. apply list_elem_of_In, filter_In. split; [by apply list_elem_of_In|].
    rewrite Hp. apply orb_true_r.
Qed.

(** [sy doctor] ends with 2 exactly when a prefix was given and no check has it;
    otherwise with 1 when a selected check fails, with 3 when none fails and one
    warns, and with 0 when all of them pass or are skipped. *)
Theorem dispatch_exit {H} pretty (cs : list (Check H)) opts h :
  let code := (dispatch pretty cs opts h).2 in
  let answers s := ∃ c, c ∈ cs ∧ selected opts c = true ∧ status (run_check c h) = s in
  (code = EXIT_USAGE ↔ (∃ p, only opts = Some p ∧ p ≠ []) ∧ ∀ c, c ∈ cs → selected opts c = false)
  ∧ (code = EXIT_FAIL ↔ answers Fail)
  ∧ (code = EXIT_DRIFT ↔ ¬ answers Fail ∧ answers Warn)
  ∧ (code = EXIT_OK ∨ code = EXIT_FAIL ∨ code = EXIT_USAGE ∨ code = EXIT_DRIFT).
Proof.
  cbn zeta. assert (∀ s, (∃ c, c ∈ cs ∧ selected opts c = true ∧ status (run_check c h) = s)
    ↔ Exists (λ r, status r = s) (checks (run cs opts h))) as E.
  { intros s. rewrite Exists_exists. split.
    - intros (c & Hc & Hp & Es). exists (run_check c h). rewrite elem_of_run. eauto.
    - intros (r & (c & Hc & Hp & ->)%elem_of_run & Es). eauto. }
  rewrite !E. pose proof (elem_of_run cs opts h) as Hin.
  assert (checks (run cs opts h) = [] ↔ ∀ c, c ∈ cs → selected opts c = false) as Hnone.
  { split.
    - intros Hn c Hc. rewrite Hn in Hin. destruct (selected opts c) eqn:Es; [|done]. exfalso.
      by apply (not_elem_of_nil (run_check c h)), Hin; eauto.
    - intros Hn. destruct (checks (run cs opts h)) as [|r l]; [done|]. exfalso.
      destruct (proj1 (Hin r)) as (c & Hc & Es & _); [by rewrite elem_of_cons; left|]. by rewrite (Hn c Hc) in Es. }
  rewrite <- Hnone. clear E Hin Hnone.
  assert ((∃ p, only opts = Some p ∧ p ≠ []) ∧ checks (run cs opts h) = [] ∧ (dispatch pretty cs opts h).2 = EXIT_USAGE
          ∨ ¬ ((∃ p, only opts = Some p ∧ p ≠ []) ∧ checks (run cs opts h) = [])
            ∧ (dispatch pretty cs opts h).2 = exit_code (run cs opts h)) as [(Hp & Hn & ->)|[Hu ->]].
  { unfold dispatch. destruct (only opts) as [p|]; cbn [andb]; [|right; split; [by intros [(? & ? & _) _]|done]].
    destruct (bool_decide_reflect (p = [])) as [->|Hp]; cbn [negb andb].
    - right. split; [|done]. by intros [(p & [= <-] & ?) _].
    - case_bool_decide as Hn; [left; eauto 6|right]. split; [|done]. by intros [_ ?]. }
  - rewrite Hn, !Exists_nil. unfold EXIT_OK, EXIT_FAIL, EXIT_USAGE, EXIT_DRIFT. split_and!; try tauto; split; (done || lia || tauto).
  - unfold run in *. rewrite exit_code_worst. cbn [checks from_checks] in *.
    set (F := Exists _ _). set (W := Exists (λ r, status r = Warn) _). unfold EXIT_OK, EXIT_FAIL, EXIT_USAGE, EXIT_DRIFT.
    destruct (bool_decide_reflect F); [|destruct (bool_decide_reflect W)]; split_and!; try tauto; split; (done || lia || tauto).
Qed.
End Report.

(** ** The host *)

Module Host.

(** How a program ended: it is not there, it could not be run, or it ran with
    this exit code ([None]: by a signal) and standard output. *)
Inductive Output : Type := NotFound | NotRun (e : text) | Ran (code : option Z) (stdout : list Z).
(** A connection to a socket: the failures of connecting and of setting its two
    timeouts, of the writes in order, the bytes the peer sends, and the failure of
    reading past them ([None]: the peer closed, which ends [read_to_end]). *)
Record Stream : Type := mkStream {
  connect : option text; read_timeout : option text; write_timeout : option text; writes : list (option text);
  sent : list Z; broken : option text
}.

Record Host : Type := mkHost {
  exists_ : list Z → bool; is_file : list Z → bool; is_dir : list Z → bool; lexists : list Z → bool;
  read_link : list Z → option (list Z); read_dir : list Z → option (list text);
  read_to_string : list Z → result text text; create_dir_all : list Z → option text;
  create : list Z → option text; write_all : list Z → option text;
  var : string → option text; getuid : Z; command : list string → Output;
  tcp : text → option text; http : text → option text; stream : list Z → Stream
}.

(** [format!] with [{:.k}] of an [f64]: the exact value, to the nearest, halves to
    the even digit. *)
Definition half_even (n d : Z) : Z :=
  let q := (n / d)%Z in
  let r := (2 * (n - q * d))%Z in
  if (r <? d)%Z then q else if (d <? r)%Z then (q + 1)%Z else if Z.even q then q else (q + 1)%Z.
Definition pad (k : nat) (s : text) : text := replicate (k - length s) 48%Z ++ s.
Definition point (k : nat) (n : Z) : text :=
  let s := pad (S k) (lit (pretty n)) in
  match k with O => s | _ => take (length s - k) s ++ DOT :: drop (length s - k) s end.
Definition fixed (k : nat) (x : f64) : text :=
  let minus (s : bool) := if s then [45%Z] else [] in
  match x with
  | S754_nan => lit "NaN"
  | S754_infinity s => minus s ++ lit "inf"
  | S754_zero s => minus s ++ point k 0
  | S754_finite s m e =>
      let n := (Z.pos m * 10 ^ Z.of_nat k)%Z in
      minus s ++ point k (if (0 <=? e)%Z then (n * 2 ^ e)%Z else half_even n (2 ^ (- e)))
  end.
Example fixed_ex :
  fixed 1 (div64 (f64_of_Z 25) (f64_of_Z 2)) = lit "12.5" ∧ fixed 1 (div64 (f64_of_Z 1) (f64_of_Z 4)) = lit "0.2"
  ∧ fixed 0 (f64_of_Z 90) = lit "90" ∧ fixed 1 (f64_of_Z 10) = lit "10.0".
Proof. by vm_compute. Qed.

(** [str::parse::<f64>]: the nearest value of the decimal. *)
Definition nearest64 (neg : bool) (n : Z) (e10 : Z) : f64 :=
  if (n =? 0)%Z then S754_zero neg
  else
    let s := if neg then (-1)%Z else 1%Z in
    if (0 <=? e10)%Z then binary_normalize 53 1024 (s * (n * 10 ^ e10))%Z 0%Z neg
    else
      let d := (10 ^ (- e10))%Z in
      let k := (Z.log2 d + 64)%Z in
      let q := (n * 2 ^ k / d)%Z in
      binary_normalize 53 1024 (s * (2 * q + if (n * 2 ^ k mod d =? 0)%Z then 0 else 1))%Z (- k - 1)%Z neg.
Definition parse_f64 (s : text) : option f64 :=
  let '(neg, r) := split_sign s in
  if is_word r "inf" || is_word r "infinity" then Some (S754_infinity neg)
  else if is_word r "nan" then Some S754_nan
  else
    let '(i, r) := take_digits r in
    let '(f, r) := match r with c :: r' => if (c =? 46)%Z then take_digits r' else ([], r) | [] => ([], r) end in
    match i ++ f with
    | [] => None
    | _ => e ← parse_exponent r; Some (nearest64 neg (read_nat (i ++ f)) (e - Z.of_nat (length f)))
    end.
End Host.

(** ** The checks of [sy doctor] *)

Module Checks.
Import Report Host.

Definition res (n : string) (s : Status) (m : text) (f : option text) (d : option value) : CheckResult :=
  mkResult n s (Some m) f d.
Definition VMaybe {A} (f : A → value) (o : option A) : value := match o with Some a => f a | None => VNull end.
Fixpoint join_sep (sep : text) (l : list text) : text :=
  match l with [] => [] | [p] => p | p :: l => p ++ sep ++ join_sep sep l end.

Section checks.
(** [serde_json::from_slice] and [to_vec], and the random part of a request. *)
Context (from_slice : list Z → result value text) (to_vec : value → list Z) (ulid : text).
Variable h : Host.

Definition NPU_DEVICE_PATH : text := lit "/dev/accel/accel0".
Definition NpuDevice : CheckResult :=
  let n := "aiplane.npu.device" in
  if exists_ h NPU_DEVICE_PATH then res n Pass (NPU_DEVICE_PATH ++ lit " present") None None
  else res n Fail (NPU_DEVICE_PATH ++ lit " missing") (Some (lit "load the amdxdna kernel module and ensure firmware is installed")) None.

(** *** Artifacts of the workloads *)

(** [ArtifactSet]; [kind] by its name. The list is the argument [sets]. *)
Record ArtifactSet : Type := mkSet {
  kind : text; model : list Z; fallback_model : option (list Z); tokenizer : list Z; prep : text; indexing_critical : bool
}.
Definition model_dirs (sets : list ArtifactSet) : list (list Z) := omap (λ s, parent (model s)) sets.
Definition is_rai (name : text) : bool := bool_decide (ext_of name = Some (lit "rai")).
Definition holds_rai (p : list Z) : bool := match read_dir h p with Some inner => existsb is_rai inner | None => false end.
Definition compiled_in (dir : list Z) : list (list Z) :=
  match read_dir h dir with
  | None => []
  | Some names =>
      List.filter holds_rai
        (map (join dir) (List.filter (λ n, is_dir h (join dir n) && starts_with n (lit "compiled_")) names))
  end.
Definition compiled_partitions (dirs : list (list Z)) : list (list Z) := flat_map compiled_in dirs.
Definition PREP_FIX : text :=
  lit "source /opt/AMD/ryzenai/venv/bin/activate && python ~/sources/sy/scripts/prep_npu_workload.py --workload embed".
Definition VitisaiCachePresent (sets : list ArtifactSet) : CheckResult :=
  let n := "aiplane.vitisai.cache_present" in
  let dirs := model_dirs sets in
  let partitions := compiled_partitions dirs in
  let d := Some (VObj [(lit "partitions", VArr (map VStr partitions)); (lit "model_dirs", VArr (map VStr dirs))]) in
  match partitions with
  | _ :: _ => res n Pass (show_nat (Z.of_nat (length partitions)) ++ lit " compiled vitisai partition(s) cached") None d
  | [] =>
      if existsb (is_dir h) dirs
      then res n Warn (lit "model dirs exist but hold no compiled partition; the first                                dispatch pays a full AIE codegen (minutes)") (Some PREP_FIX) d
      else res n Skip (lit "no workload model dirs yet (prep_npu_workload.py has never run)") None d
  end.

Inductive ArtifactVerdict : Type := Ready | CpuOnly | Absent (gaps : list text).
Definition describe_missing (p : list Z) : text :=
  if lexists h p && negb (exists_ h p)
  then p ++ lit " (dangling symlink -> " ++ default (lit "?") (read_link h p) ++ lit ")"
  else p.
Definition classify_artifact (model : list Z) (fallback : option (list Z)) (tokenizer : list Z) : ArtifactVerdict :=
  if negb (is_file h tokenizer) then Absent [lit "tokenizer.json missing at " ++ describe_missing tokenizer]
  else if is_file h model then Ready
  else if match fallback with Some fb => is_file h fb | None => false end then CpuOnly
  else Absent ((lit "no model graph at " ++ describe_missing model)
               :: match fallback with Some fb => [lit "no CPU-fallback graph at " ++ describe_missing fb] | None => [] end).

(** What the loop of [ModelArtifacts::run] gathers. *)
Record Gaps : Type := mkGaps { hard : list text; soft : list text; preps : list text; ready : Z }.
Definition soft_or_hard (critical : bool) (g : Gaps) (m : text) : Gaps :=
  if critical then mkGaps (hard g ++ [m]) (soft g) (preps g) (ready g) else mkGaps (hard g) (soft g ++ [m]) (preps g) (ready g).
Definition with_prep (p : text) (g : Gaps) : Gaps := mkGaps (hard g) (soft g) (preps g ++ [p]) (ready g).
Definition inspect (g : Gaps) (s : ArtifactSet) : Gaps :=
  match classify_artifact (model s) (fallback_model s) (tokenizer s) with
  | Ready => mkGaps (hard g) (soft g) (preps g) (ready g + 1)
  | CpuOnly =>
      with_prep (prep s) (mkGaps (hard g)
        (soft g ++ [kind s ++ lit ": bf16 export missing at " ++ model s ++ lit " (CPU EP fallback available)"]) (preps g) (ready g))
  | Absent paths =>
      with_prep (prep s)
        (soft_or_hard (indexing_critical s) g (kind s ++ lit ": not loadable (" ++ join_sep (lit "; ") paths ++ lit ")"))
  end%Z.
Definition verdict_report (g : Gaps) (total : Z) : CheckResult :=
  let n := "aiplane.model_artifacts" in
  let d := Some (VObj [(lit "ready", VInt (ready g)); (lit "total", VInt total)]) in
  let f := match preps g with
           | [] => None
           | ps => Some (lit "source /opt/AMD/ryzenai/venv/bin/activate && " ++ join_sep (lit " && ") ps
                         ++ lit " (then `systemctl --user restart sy-aiplane.service`)")
           end in
  match hard g, soft g with
  | _ :: _, _ => res n Fail (join_sep (lit "; ") (hard g)) f d
  | [], _ :: _ => res n Warn (join_sep (lit "; ") (soft g)) f d
  | [], [] => res n Pass (show_nat (ready g) ++ lit "/" ++ show_nat total ++ lit " workload artifact sets present") None d
  end.
Definition ModelArtifacts (sets : list ArtifactSet) : CheckResult :=
  verdict_report (foldl inspect (mkGaps [] [] [] 0) sets) (Z.of_nat (length sets)).

(** *** The vector store *)

Definition QDRANT : text := lit "127.0.0.1:6333".
Definition START_QDRANT : text := lit "start qdrant: `systemctl --user start sy-qdrant.service`".
(** The address is a constant that parses. *)
Definition QdrantReachable : CheckResult :=
  let n := "knowledge.qdrant_reachable" in
  match tcp h QDRANT with
  | None => res n Pass (lit "tcp reachable on " ++ QDRANT) None
              (Some (VObj [(lit "note", VStr (lit "tcp reachable")); (lit "addr", VStr QDRANT)]))
  | Some e => res n Fail (lit "connect " ++ QDRANT ++ lit ": " ++ e) (Some START_QDRANT) None
  end.
(** [parse_version] of the body. *)
Definition body_version (body : text) : option (Z * Z) :=
  match from_slice (as_bytes body) with
  | Ok v => KDaemon.parse_version (vget "version" v ≫= vstr)
  | Err _ => None
  end.
Definition classify (root_body : option text) : CheckResult :=
  let n := "knowledge.qdrant.version_min_1_16" in
  let min := show_nat (KDaemon.MIN_HYBRID_VERSION.1) ++ lit "." ++ show_nat (KDaemon.MIN_HYBRID_VERSION.2) in
  match root_body ≫= body_version with
  | Some v =>
      let shown := lit "qdrant " ++ show_nat v.1 ++ lit "." ++ show_nat v.2 in
      let d := Some (VObj [(lit "major", VInt v.1); (lit "minor", VInt v.2)]) in
      if KDaemon.meets_min_version v KDaemon.MIN_HYBRID_VERSION
      then res n Pass (shown ++ [32; 8805; 32]%Z ++ min ++ lit " (hybrid RRF k ok)") None d
      else res n Fail (shown ++ lit " < " ++ min ++ lit "; hybrid RRF k silently ignored") (Some (lit "run `sy apply` to upgrade qdrant")) d
  | None => res n Warn (lit "qdrant not running or version unreadable") (Some START_QDRANT) None
  end.
Definition QdrantVersionMin : CheckResult := classify (http h (lit "http://127.0.0.1:6333/")).

(** *** Sockets *)

Definition runtime_dir : list Z :=
  match var h "XDG_RUNTIME_DIR" with
  | Some (c :: d) => c :: d
  | _ => lit "/run/user/" ++ show_nat (getuid h)
  end.
Definition for_endpoint (name : string) : option (list Z) :=
  if String.eqb name "knowledge" then Some (join runtime_dir (lit "sy-knowledge.sock"))
  else if String.eqb name "aiplane" then Some (join runtime_dir (lit "sy-aiplane.sock"))
  else if String.eqb name "agt" then Some (join runtime_dir (lit "sy-agentd.sock"))
  else if String.eqb name "stack" then Some (join (join runtime_dir (lit "sy")) (lit "stackbar.sock"))
  else None.

Record IpcEndpoint : Type := mkEndpoint { ep_name : string; endpoint : string }.
Definition knowledge : IpcEndpoint := mkEndpoint "ipc.knowledge_sock" "knowledge".
Definition aiplane : IpcEndpoint := mkEndpoint "ipc.aiplane_sock" "aiplane".
Definition agt : IpcEndpoint := mkEndpoint "ipc.agt_sock" "agt".
Definition stack : IpcEndpoint := mkEndpoint "ipc.stack_sock" "stack".
Definition unit_ (e : IpcEndpoint) : option string :=
  if String.eqb (endpoint e) "knowledge" then Some "sy-knowledge.service"
  else if String.eqb (endpoint e) "aiplane" then Some "sy-aiplane.service"
  else if String.eqb (endpoint e) "agt" then Some "sy-agentd.service"
  else if String.eqb (endpoint e) "stack" then Some "sy-stack-bar.service"
  else None.
Definition fix_for_unit (e : IpcEndpoint) : option text :=
  (λ u, lit "start it: `systemctl --user restart " ++ lit u ++ lit "`; diagnose: `journalctl --user -u " ++ lit u ++ lit " -n 50`")
    <$> unit_ e.
Definition user_unit_enabled (u : string) : option bool :=
  match command h ["systemctl"; "--user"; "is-enabled"; u] with
  | Ran code _ => Some (bool_decide (code = Some 0%Z))
  | NotFound | NotRun _ => None
  end.
Definition classify_missing (e : IpcEndpoint) (sock : list Z) (unit_enabled : option bool) : CheckResult :=
  let '(s, note) :=
    match unit_enabled with
    | Some true => (Warn, lit "unit is enabled but the socket is absent" ++ EM_DASH ++ lit "the daemon is failing to start")
    | Some false => (Skip, lit "unit is disabled on this host")
    | None => (Skip, lit "unit state unknown (no user bus?)")
    end in
  res (ep_name e) s (sock ++ lit " not present" ++ EM_DASH ++ note) (fix_for_unit e)
    (Some (VObj [(lit "socket", VStr sock); (lit "unit", VMaybe (λ u, VStr (lit u)) (unit_ e));
                 (lit "unit_enabled", VMaybe VBool unit_enabled)])).

(** *** The health of a daemon *)

Definition IPC_SYSTEM_HEALTH_TIMEOUT_MS : Z := 1500.
Definition health_request : value :=
  VObj [(lit "schema_version", VInt 1); (lit "request_id", VStr ulid); (lit "method", VStr (lit "system.health"));
        (lit "params", VObj []); (lit "priority", VStr (lit "Interactive"));
        (lit "deadline_ms", VInt IPC_SYSTEM_HEALTH_TIMEOUT_MS)].
Definition or_err {A} (pre : string) (o : option text) (k : result A text) : result A text :=
  match o with Some e => Err (lit pre ++ lit ": " ++ e) | None => k end.
(** [read_exact]; past the end of a closed stream it fails as well. *)
Definition read_exact (s : Stream) (bytes : list Z) (n : Z) : result (list Z * list Z) text :=
  if (n <=? Z.of_nat (length bytes))%Z then Ok (take (Z.to_nat n) bytes, drop (Z.to_nat n) bytes)
  else Err (default (lit "failed to fill whole buffer") (broken s)).
Definition labelled {A} (pre : string) (r : result A text) : result A text :=
  match r with Ok a => Ok a | Err e => Err (lit pre ++ lit ": " ++ e) end.
Definition be32 (b : list Z) : Z := foldl (λ n x, n * 256 + x)%Z 0%Z b.
Definition state_of (v : value) : result text text :=
  match (vget "result" v ≫= vget "state") ≫= vstr with Some s => Ok s | None => Err (lit "missing result.state") end.
Definition probe_system_health (sock : list Z) : result text text :=
  let s := stream h sock in
  or_err "connect" (connect s) (or_err "set_read_timeout" (read_timeout s) (or_err "set_write_timeout" (write_timeout s)
  (if (U32_MOD <=? Z.of_nat (length (to_vec health_request)))%Z then Err (lit "request too large")
   else
   or_err "write len" (default None (writes s !! 0)) (or_err "write body" (default None (writes s !! 1))
   (match labelled "read len" (read_exact s (sent s) 4) with
    | Err e => Err e
    | Ok (len_buf, rest) =>
        match labelled "read body" (read_exact s rest (be32 len_buf)) with
        | Err e => Err e
        | Ok (resp, _) =>
            match labelled "decode" (from_slice resp) with Err e => Err e | Ok v => state_of v end
        end
    end))))).
Definition run_endpoint (e : IpcEndpoint) : CheckResult :=
  match for_endpoint (endpoint e) with
  | None => res (ep_name e) Fail (lit "unknown ipc endpoint " ++ [34%Z] ++ lit (endpoint e) ++ [34%Z]) None None
  | Some sock =>
      if negb (exists_ h sock) then classify_missing e sock (unit_ e ≫= user_unit_enabled)
      else match probe_system_health sock with
           | Ok st => res (ep_name e) (if bool_decide (st = lit "ready") then Pass else Warn) (lit "state=" ++ st) None
                        (Some (VObj [(lit "socket", VStr sock); (lit "state", VStr st)]))
           | Err er => res (ep_name e) Fail (sock ++ lit ": " ++ er) (fix_for_unit e) None
           end
  end.

(** *** Units, scopes and the kernel *)

Definition user_systemd_dir : option (list Z) := (λ home, join home (lit ".config/systemd/user")) <$> var h "HOME".
Definition UserUnitsPresent : CheckResult :=
  let n := "supervision.user_units_present" in
  match user_systemd_dir with
  | None => res n Skip (lit "HOME unset; cannot resolve user systemd dir") None None
  | Some dir =>
      if negb (is_dir h dir) then res n Skip (dir ++ lit " does not exist") None None
      else let target := join dir (lit "sy.target") in
           if exists_ h target then res n Pass (target ++ lit " present") None None
           else res n Fail (target ++ lit " missing") (Some (lit "run `sy apply` to install the user systemd units")) None
  end.

Definition parse_scope_count (stdout : list Z) : Z :=
  match from_utf8 stdout with
  | Some s => Z.of_nat (length (List.filter (λ l, negb (bool_decide (trim l = []))) (lines s)))
  | None => 0
  end.
Definition ActiveSandboxScopes : CheckResult :=
  let n := "agent.sandbox.active_scopes" in
  match command h ["systemctl"; "--user"; "list-units"; "--type=scope"; "--no-legend"] with
  | NotFound => res n Skip (lit "systemctl not on PATH") None None
  | NotRun e => res n Skip (lit "systemctl failed: " ++ e) None None
  | Ran code stdout =>
      if bool_decide (code = Some 0%Z)
      then let c := parse_scope_count stdout in
           res n Pass (show_nat c ++ lit " active scope unit(s)") None (Some (VObj [(lit "count", VInt c)]))
      else res n Warn (lit "systemctl --user list-units exited " ++ lit (pretty (default (-1)%Z code)))
             (Some (lit "check `systemctl --user status` for a healthy user manager")) None
  end.

Definition LSM_PATH : text := lit "/sys/kernel/security/lsm".
Definition landlock_token (lsm : text) : option text :=
  if existsb (λ t, bool_decide (trim t = lit "landlock")) (split_on 44 (trim lsm)) then Some (lit "landlock") else None.
Definition LandlockVersion : CheckResult :=
  let n := "kernel.landlock_version" in
  match read_to_string h LSM_PATH with
  | Ok s =>
      match landlock_token s with
      | Some tok => res n Pass (LSM_PATH ++ lit " reports landlock present") None
                      (Some (VObj [(lit "lsm", VStr (trim s)); (lit "token", VStr tok)]))
      | None => res n Warn (LSM_PATH ++ lit " has no `landlock` entry")
                  (Some (lit "kernel " ++ [8805%Z] ++ lit " 5.13 with CONFIG_SECURITY_LANDLOCK=y required"))
                  (Some (VObj [(lit "lsm", VStr (trim s))]))
      end
  | Err e => res n Skip (LSM_PATH ++ lit ": " ++ e) None None
  end.

Definition SystemdUserSession : CheckResult :=
  let n := "kernel.systemd_user_session" in
  let bad := res n Fail (lit "XDG_RUNTIME_DIR unset or not a directory")
               (Some (lit "ensure `loginctl enable-linger $USER` and a fresh login")) None in
  match var h "XDG_RUNTIME_DIR" with
  | Some dir => if negb (bool_decide (dir = [])) && is_dir h dir
                then res n Pass (lit "XDG_RUNTIME_DIR=" ++ dir ++ lit " present") None None
                else bad
  | None => bad
  end.

Definition parse_coredumpctl_count (stdout : list Z) : Z :=
  match from_slice stdout with Ok (VArr a) => Z.of_nat (length a) | _ => 0 end.
Definition CoredumpRecentCount : CheckResult :=
  let n := "coredump.recent_count" in
  let d c := Some (VObj [(lit "count", VInt c); (lit "since", VStr (lit "-1day"))]) in
  match command h ["coredumpctl"; "list"; "--json=pretty"; "--since"; "-1day"] with
  | NotFound => res n Skip (lit "coredumpctl not on PATH") None None
  | NotRun e => res n Skip (lit "coredumpctl failed: " ++ e) None None
  | Ran code stdout =>
      if bool_decide (code = Some 0%Z)
      then let c := parse_coredumpctl_count stdout in
           res n (if (0 <? c)%Z then Warn else Pass) (show_nat c ++ lit " cores in last 24h")
             (if (0 <? c)%Z then Some (lit "run `sy crash list` to investigate") else None) (d c)
      else res n Pass (lit "no cores in last 24h") None (d 0%Z)
  end.

(** *** Memory cgroups *)

Record MemoryEvents : Type := mkEvents { high : Z; max : Z; oom : Z; oom_kill : Z }.
Definition no_events : MemoryEvents := mkEvents 0 0 0 0.
Definition is_quiet (e : MemoryEvents) : bool := ((high e =? 0) && (max e =? 0) && (oom e =? 0) && (oom_kill e =? 0))%Z.
(** The last component split off at a slash. *)
Fixpoint trim_end_slashes (s : text) : text :=
  match s with
  | [] => []
  | c :: s => match trim_end_slashes s with [] => if (c =? SLASH)%Z then [] else [c] | t => c :: t end
  end.
Definition user_cgroup_slice (runtime_dir : text) : option text :=
  let uid := default [] (last (split_on SLASH (trim_end_slashes runtime_dir))) in
  if bool_decide (uid = []) || negb (forallb Float.is_digit uid) then None
  else Some (lit "/sys/fs/cgroup/user.slice/user-" ++ uid ++ lit ".slice/user@" ++ uid ++ lit ".service").
Definition unit_cgroup_dir (slice : text) (u : text) : list Z := join (join slice (lit "app.slice")) u.
Definition set_event (ev : MemoryEvents) (key : text) (n : Z) : MemoryEvents :=
  if bool_decide (key = lit "high") then mkEvents n (max ev) (oom ev) (oom_kill ev)
  else if bool_decide (key = lit "max") then mkEvents (high ev) n (oom ev) (oom_kill ev)
  else if bool_decide (key = lit "oom") then mkEvents (high ev) (max ev) n (oom_kill ev)
  else if bool_decide (key = lit "oom_kill") then mkEvents (high ev) (max ev) (oom ev) n
  else ev.
Definition event_line (ev : MemoryEvents) (line : text) : MemoryEvents :=
  match split_whitespace line with
  | key :: val :: _ => match parse_usize val with Some n => set_event ev key n | None => ev end
  | _ => ev
  end.
Definition parse_memory_events (t : text) : MemoryEvents := foldl event_line no_events (lines t).
(** [str::trim_start_matches] on a string. *)
Fixpoint trim_start_matches (fuel : nat) (pat s : text) : text :=
  match fuel with
  | O => s
  | S fuel => match strip_prefix pat s with Some r => trim_start_matches fuel pat r | None => s end
  end.
Definition parse_pressure_full_avg10 (t : text) : option f64 :=
  l ← List.find (λ l, starts_with (trim_start l) (lit "full ")) (lines t);
  f ← List.find (λ f, starts_with f (lit "avg10=")) (split_whitespace l);
  parse_f64 (trim_start_matches (length f) (lit "avg10=") f).
Definition parse_cgroup_limit (t : text) : option Z := parse_usize (trim t).
Definition read_or_empty (p : list Z) : text := match read_to_string h p with Ok s => s | Err _ => [] end.
Definition status_rank (s : Status) : nat := match s with Pass => 0 | Skip => 1 | Warn => 2 | Fail => 3 end.

(** [0.90] and [10.0]. *)
Definition CGROUP_PEAK_HEADROOM_WARN : f64 := div64 (f64_of_Z 9) (f64_of_Z 10).
Definition CGROUP_PRESSURE_FULL_WARN : f64 := f64_of_Z 10.
Definition stalled (full_avg10 : option f64) : bool :=
  match full_avg10 with Some p => SFleb CGROUP_PRESSURE_FULL_WARN p | None => false end.
Definition near_cap (high peak : option Z) : option (Z * Z) :=
  match high, peak with
  | Some hi, Some pk =>
      if (0 <? hi)%Z && SFleb (mul64 (f64_of_Z hi) CGROUP_PEAK_HEADROOM_WARN) (f64_of_Z pk) then Some (hi, pk) else None
  | _, _ => None
  end.
Definition throttle_verdict (ev : MemoryEvents) (full_avg10 : option f64) (hi pk : option Z) : Status * text :=
  if (0 <? oom_kill ev)%Z then (Fail, show_nat (oom_kill ev) ++ lit " process(es) OOM-killed in the unit cgroup")
  else if (0 <? oom ev)%Z then (Fail, show_nat (oom ev) ++ lit " OOM occurrence(s) in the unit cgroup")
  else if (0 <? high ev)%Z then
    (Warn, lit "MemoryHigh reached " ++ show_nat (high ev) ++ lit " time(s) since unit start; workers parked by the kernel")
  else if (0 <? max ev)%Z then (Warn, lit "MemoryMax reached " ++ show_nat (max ev) ++ lit " time(s) since unit start")
  else if stalled full_avg10 then
    (Warn, lit "memory pressure full avg10 " ++ fixed 1 (default (S754_zero false) full_avg10) ++ lit "% (>= "
           ++ fixed 0 CGROUP_PRESSURE_FULL_WARN ++ lit "%)")
  else match near_cap hi pk with
       | Some (hi, pk) =>
           (Warn, lit "peak " ++ show_nat (pk / 1024 / 1024) ++ lit " MiB is within "
                  ++ fixed 0 (mul64 CGROUP_PEAK_HEADROOM_WARN (f64_of_Z 100)) ++ lit "% of MemoryHigh "
                  ++ show_nat (hi / 1024 / 1024) ++ lit " MiB")
       | None => (Pass, if is_quiet ev then lit "no throttling since unit start" else lit "cgroup quiet")
       end.

(** What a unit's cgroup says: [None] when it is not running. *)
Record UnitMemory : Type := mkUnitMemory {
  events : MemoryEvents; full : option f64; cap : option Z; peak : option Z; current : option Z
}.
Definition read_cgroup (cgroup : list Z) : option UnitMemory :=
  if is_file h (join cgroup (lit "memory.events"))
  then let limit f := parse_cgroup_limit (read_or_empty (join cgroup (lit f))) in
       Some (mkUnitMemory (parse_memory_events (read_or_empty (join cgroup (lit "memory.events"))))
               (parse_pressure_full_avg10 (read_or_empty (join cgroup (lit "memory.pressure"))))
               (limit "memory.high") (limit "memory.peak") (limit "memory.current"))
  else None.
Definition judge (m : UnitMemory) : Status * text := throttle_verdict (events m) (full m) (cap m) (peak m).
Definition status_text (s : Status) : text :=
  match s with Pass => lit "pass" | Warn => lit "warn" | Fail => lit "fail" | Skip => lit "skip" end.
(** A float in [json!]: a non-finite one is [null]. *)
Definition VF64 (x : f64) : value := match x with S754_nan | S754_infinity _ => VNull | _ => VFloat end.
Definition unit_json (m : UnitMemory) : value :=
  let '(s, reason) := judge m in
  VObj [(lit "status", VStr (status_text s)); (lit "reason", VStr reason);
        (lit "memory_events", VObj [(lit "high", VInt (high (events m))); (lit "max", VInt (max (events m)));
                                    (lit "oom", VInt (oom (events m))); (lit "oom_kill", VInt (oom_kill (events m)))]);
        (lit "psi_full_avg10", VMaybe VF64 (full m)); (lit "memory_high_bytes", VMaybe VInt (cap m));
        (lit "memory_peak_bytes", VMaybe VInt (peak m)); (lit "memory_current_bytes", VMaybe VInt (current m))].

(** The loop of [CgroupMemoryThrottle::run]. *)
Record Sweep : Type := mkSweep { inspected : Z; worst : Status; offenders : list text; per_unit : list (text * value) }.
Definition sweep_unit (slice : text) (w : Sweep) (u : text) : Sweep :=
  match read_cgroup (unit_cgroup_dir slice u) with
  | None => w
  | Some m =>
      let '(s, reason) := judge m in
      mkSweep (inspected w + 1) (if (status_rank (worst w) <? status_rank s)%nat then s else worst w)
        (if bool_decide (s = Pass) then offenders w else offenders w ++ [u ++ lit ": " ++ reason])
        (per_unit w ++ [(u, unit_json m)])
  end%Z.
Definition is_sy_service (n : text) : bool := starts_with n (lit "sy-") && ends_with n (lit ".service").
(** [String]'s order: by the bytes. *)
Fixpoint bytes_leb (a b : list Z) : bool :=
  match a, b with
  | [], _ => true
  | _ :: _, [] => false
  | x :: a, y :: b => (x <? y)%Z || ((x =? y)%Z && bytes_leb a b)
  end.
Definition sy_services (names : list text) : list text :=
  sort_by (λ a b, bytes_leb (as_bytes a) (as_bytes b)) (List.filter is_sy_service names).
Definition CgroupMemoryThrottle : CheckResult :=
  let n := "supervision.cgroup_memory_throttle" in
  let skip why := res n Skip why None None in
  let runtime_dir := default [] (var h "XDG_RUNTIME_DIR") in
  match user_cgroup_slice runtime_dir with
  | None => skip (lit "cannot derive the uid from XDG_RUNTIME_DIR=" ++ runtime_dir)
  | Some slice =>
      match read_dir h (default [] user_systemd_dir) with
      | None => skip (lit "no user systemd dir to enumerate units from")
      | Some names =>
          let w := foldl (sweep_unit slice) (mkSweep 0 Pass [] []) (sy_services names) in
          if (inspected w =? 0)%Z then skip (lit "no running sy unit exposes a memory cgroup")
          else res n (worst w)
                 (match offenders w with
                  | [] => show_nat (inspected w) ++ lit " supervised unit(s) free of memory throttling"
                  | o => join_sep (lit "; ") o
                  end)
                 (if bool_decide (worst w = Pass) then None
                  else Some (lit "raise MemoryHigh=/MemoryMax= for the unit in configs/systemd/user and run                  `sy apply` (rationale + the measured peak belong in the unit comment; see                  specs/bugs/BUG-20260927-0910.md)"))
                 (Some (VObj [(lit "inspected", VInt (inspected w)); (lit "units", VObj (per_unit w))]))
      end
  end.
End checks.

(** [default_checks], but for the monitor's. *)
Definition own_checks (from_slice : list Z → result value text) (to_vec : value → list Z) (ulid : text) (sets : list ArtifactSet)
  : list (Check Host) :=
  let ipc e := mkCheck (ep_name e) (λ h, run_endpoint from_slice to_vec ulid h e) in
  [mkCheck "aiplane.npu.device" NpuDevice; mkCheck "aiplane.vitisai.cache_present" (λ h, VitisaiCachePresent h sets);
   mkCheck "aiplane.model_artifacts" (λ h, ModelArtifacts h sets); mkCheck "knowledge.qdrant_reachable" QdrantReachable;
   mkCheck "knowledge.qdrant.version_min_1_16" (QdrantVersionMin from_slice);
   ipc knowledge; ipc aiplane; ipc agt; ipc stack;
   mkCheck "supervision.user_units_present" UserUnitsPresent; mkCheck "agent.sandbox.active_scopes" ActiveSandboxScopes;
   mkCheck "kernel.landlock_version" LandlockVersion; mkCheck "kernel.systemd_user_session" SystemdUserSession;
   mkCheck "coredump.recent_count" (CoredumpRecentCount from_slice);
   mkCheck "supervision.cgroup_memory_throttle" CgroupMemoryThrottle].

(** *** What the checks promise *)
Lemma Forall_lsnoc {A} (P : A → Prop) l x : Forall P (l ++ [x]) ↔ Forall P l ∧ P x.
Proof. by rewrite Forall_app, Forall_singleton. Qed.

(** Every check answers under the name it is selected by. *)
Lemma own_checks_named fs tv u sets h :
  Forall (λ c, name (run_check c h) = check_name c) (own_checks fs tv u sets).
Proof.
  unfold own_checks. repeat constructor; cbn [run_check check_name];
    unfold NpuDevice, VitisaiCachePresent, ModelArtifacts, verdict_report, QdrantReachable, QdrantVersionMin, classify, run_endpoint,
      classify_missing, UserUnitsPresent, ActiveSandboxScopes, LandlockVersion, SystemdUserSession, CoredumpRecentCount,
      CgroupMemoryThrottle; repeat (case_match; try done).
Qed.

(** The branch of an unknown endpoint is dead: the four endpoints resolve. *)
Lemma endpoints_resolve h e : e ∈ [knowledge; aiplane; agt; stack] → is_Some (for_endpoint h (endpoint e)) ∧ is_Some (unit_ e).
Proof. intros H. repeat apply elem_of_cons in H as [->|H]; try (split; eexists; reflexivity). by apply not_elem_of_nil in H. Qed.

Section endpoint.
Context (from_slice : list Z → result value text) (to_vec : value → list Z) (ulid : text) (h : Host).
Notation run_endpoint := (run_endpoint from_slice to_vec ulid h).
Notation probe := (probe_system_health from_slice to_vec ulid h).

(** A socket's check by its socket, its unit and its health. *)
Lemma endpoint_verdict e sock :
  for_endpoint h (endpoint e) = Some sock →
  status (run_endpoint e) =
  if exists_ h sock
  then match probe sock with Ok st => if bool_decide (st = lit "ready") then Pass else Warn | Err _ => Fail end
  else if bool_decide (unit_ e ≫= user_unit_enabled h = Some true) then Warn else Skip.
Proof.
  intros He. unfold Checks.run_endpoint. rewrite He. destruct (exists_ h sock); cbn [negb].
  - destruct (probe sock); done.
  - unfold classify_missing. by destruct (unit_ e ≫= user_unit_enabled h) as [[]|].
Qed.
End endpoint.

(** *** The artifacts *)

(** The verdict of a set by the files that are there. *)
Lemma classify_artifact_spec h s :
  let v := classify_artifact h (model s) (fallback_model s) (tokenizer s) in
  (v = Ready ↔ is_file h (tokenizer s) = true ∧ is_file h (model s) = true)
  ∧ (v = CpuOnly ↔ is_file h (tokenizer s) = true ∧ is_file h (model s) = false
                    ∧ ∃ fb, fallback_model s = Some fb ∧ is_file h fb = true).
Proof.
  cbn zeta. unfold classify_artifact. destruct (is_file h (tokenizer s)); cbn [negb]; [|naive_solver].
  destruct (is_file h (model s)); [naive_solver|]. destruct (fallback_model s) as [fb|]; [|naive_solver].
  destruct (is_file h fb) eqn:E; split; split; try (intros; destruct_and?; congruence).
  - intros _. split_and!; [done..|by exists fb].
  - intros (_ & _ & fb' & [= <-] & H). congruence.
Qed.

(** A workload of these artifacts can be loaded. *)
Definition loadable (h : Host) (s : ArtifactSet) : bool :=
  is_file h (tokenizer s) && (is_file h (model s) || match fallback_model s with Some fb => is_file h fb | None => false end).
Definition complete (h : Host) (s : ArtifactSet) : bool := is_file h (tokenizer s) && is_file h (model s).
Lemma inspect_spec h g s :
  (hard (inspect h g s) = [] ↔ hard g = [] ∧ (indexing_critical s = true → loadable h s = true))
  ∧ (hard (inspect h g s) = [] ∧ soft (inspect h g s) = [] ↔ hard g = [] ∧ soft g = [] ∧ complete h s = true).
Proof.
  unfold inspect, loadable, complete, classify_artifact.
  destruct (is_file h (tokenizer s)), (is_file h (model s)), (fallback_model s) as [fb|]; cbn [negb andb orb];
    try destruct (is_file h fb); unfold with_prep, soft_or_hard; destruct (indexing_critical s); cbn [hard soft];
    rewrite ?app_nil; naive_solver.
Qed.
Lemma inspect_all h sets g :
  (hard (foldl (inspect h) g sets) = [] ↔ hard g = [] ∧ Forall (λ s, indexing_critical s = true → loadable h s = true) sets)
  ∧ (hard (foldl (inspect h) g sets) = [] ∧ soft (foldl (inspect h) g sets) = []
     ↔ hard g = [] ∧ soft g = [] ∧ Forall (λ s, complete h s = true) sets).
Proof.
  revert g. induction sets as [|s sets IH]; intros g; cbn [foldl]; [rewrite !Forall_nil; naive_solver|].
  destruct (IH (inspect h g s)) as [IH1 IH2], (inspect_spec h g s) as [S1 S2]. rewrite !Forall_cons.
  split; [rewrite IH1, S1; split; [intros [[? ?] ?]|intros [? [? ?]]]; auto|].
  rewrite IH2. destruct S2 as [Sa Sb]. split.
  - intros (A & B & F). destruct (Sa (conj A B)) as (? & ? & ?). auto.
  - intros (A & B & C & F). destruct (Sb (conj A (conj B C))). auto.
Qed.

(** The artifacts fail the check exactly when a set that indexing needs cannot be
    loaded, and pass it exactly when every set is complete. *)
Theorem artifacts_verdict h sets :
  let c := ModelArtifacts h sets in
  (status c = Fail ↔ ∃ s, s ∈ sets ∧ indexing_critical s = true ∧ loadable h s = false)
  ∧ (status c = Pass ↔ Forall (λ s, complete h s = true) sets) ∧ status c ≠ Skip.
Proof.
  cbn zeta. unfold ModelArtifacts. destruct (inspect_all h sets (mkGaps [] [] [] 0)) as [H1 H2].
  generalize dependent (foldl (inspect h) (mkGaps [] [] [] 0) sets). intros g H1 H2. cbn [hard soft] in H1, H2.
  assert ((∃ s, s ∈ sets ∧ indexing_critical s = true ∧ loadable h s = false) ↔ hard g ≠ []) as ->.
  { rewrite H1. clear H1 H2. split.
    - intros (s & Hs & Hc & Hl) [_ H]. rewrite Forall_forall in H. specialize (H s Hs Hc). congruence.
    - intros H. assert (¬ Forall (λ s, indexing_critical s = true → loadable h s = true) sets) as H' by auto.
      apply not_Forall_Exists in H'; [|apply _]. apply Exists_exists in H' as (s & Hs & Hn). exists s. cbn in Hn.
      destruct (indexing_critical s), (loadable h s); split_and!; try done; exfalso; apply Hn; done. }
  assert (Forall (λ s, complete h s = true) sets ↔ hard g = [] ∧ soft g = []) as ->.
  { rewrite H2. clear. split; [auto|]. by intros (_ & _ & H). }
  clear. unfold verdict_report. destruct (hard g) as [|x l]; [destruct (soft g)|]; cbn [status res]; naive_solver.
Qed.

(** *** Throttling *)

#[local] Ltac branch := cbn [fst]; split_and!; try split; intros; destruct_and?; destruct_or?; try done; try lia; auto.
(** The verdict on a unit by what its cgroup counted: it fails when a process was
    killed or ran out of memory, warns on a reached limit, on pressure and on a
    peak near the limit, and is never skipped. *)
Lemma throttle_verdict_spec ev f hi pk :
  let s := (throttle_verdict ev f hi pk).1 in
  (s = Fail ↔ (0 < oom_kill ev)%Z ∨ (0 < oom ev)%Z)
  ∧ (s = Pass ↔ (oom_kill ev <= 0)%Z ∧ (oom ev <= 0)%Z ∧ (high ev <= 0)%Z ∧ (max ev <= 0)%Z
                ∧ stalled f = false ∧ near_cap hi pk = None)
  ∧ s ≠ Skip.
Proof.
  cbn zeta. unfold throttle_verdict.
  destruct (Z.ltb_spec 0 (oom_kill ev)); [by branch|]. destruct (Z.ltb_spec 0 (oom ev)); [by branch|].
  destruct (Z.ltb_spec 0 (high ev)); [by branch|]. destruct (Z.ltb_spec 0 (max ev)); [by branch|].
  destruct (stalled f); [by branch|]. by destruct (near_cap hi pk) as [[? ?]|]; branch.
Qed.

Section sweep.
Context (h : Host) (slice : text).
(** The statuses of the running units among these. *)
Definition judged (us : list text) : list Status := omap (λ u, (λ m, (judge m).1) <$> read_cgroup h (unit_cgroup_dir slice u)) us.
Definition worst_of (s : Status) (ss : list Status) : Status :=
  foldl (λ w s, if status_rank w <? status_rank s then s else w) s ss.
Lemma sweep_judged us w :
  let w' := foldl (sweep_unit h slice) w us in
  inspected w' = (inspected w + Z.of_nat (length (judged us)))%Z
  ∧ worst w' = worst_of (worst w) (judged us)
  ∧ (offenders w' = [] ↔ offenders w = [] ∧ Forall (λ s, s = Pass) (judged us)).
Proof.
  revert w. induction us as [|u us IH]; intros w; cbn zeta; cbn [foldl judged omap list_omap].
  - cbn. split_and!; [lia|done|]. split; [auto|by intros [? _]].
  - fold (judged us). destruct (IH (sweep_unit h slice w u)) as (H1 & H2 & H3). rewrite H1, H2. clear H1 H2 IH.
    unfold sweep_unit in *. destruct (read_cgroup h _) as [m|]; cbn [fmap option_fmap option_map]; [|done].
    destruct (judge m) as [s reason]. cbn [inspected worst offenders fst length] in *. split_and!; [lia|done|].
    rewrite H3. rewrite Forall_cons. case_bool_decide; [tauto|]. split; [|tauto].
    intros [E _]. by apply app_nil in E as [_ E].
Qed.
Lemma worst_of_fail s ss : worst_of s ss = Fail ↔ s = Fail ∨ Fail ∈ ss.
Proof.
  revert s. induction ss as [|x ss IH]; intros s; cbn [worst_of foldl].
  - split; [auto|]. intros [|H]; [done|]. by apply not_elem_of_nil in H.
  - fold (worst_of (if status_rank s <? status_rank x then x else s) ss). rewrite IH, elem_of_cons.
    destruct s, x; cbn; clear; intuition discriminate.
Qed.
Lemma worst_of_pass s ss : worst_of s ss = Pass ↔ s = Pass ∧ Forall (λ x, x = Pass) ss.
Proof.
  revert s. induction ss as [|x ss IH]; intros s; cbn [worst_of foldl].
  - split; [auto|by intros [? _]].
  - fold (worst_of (if status_rank s <? status_rank x then x else s) ss). rewrite IH, Forall_cons.
    destruct s, x; cbn; clear; split; intros H; destruct_and?; auto; discriminate.
Qed.
End sweep.

(** The units the check looks at, and what their cgroups say. *)
Definition running_units (h : Host) : list Status :=
  match user_cgroup_slice (default [] (var h "XDG_RUNTIME_DIR")), read_dir h (default [] (user_systemd_dir h)) with
  | Some slice, Some names => judged h slice (sy_services names)
  | _, _ => []
  end.
(** The check is skipped exactly when no unit runs, fails exactly when a running
    unit fails, passes exactly when units run and all of them pass. *)
Theorem throttle_is_the_worst (h : Host) :
  let s := status (CgroupMemoryThrottle h) in
  (s = Skip ↔ running_units h = [])
  ∧ (s = Fail ↔ Fail ∈ running_units h)
  ∧ (s = Pass ↔ running_units h ≠ [] ∧ Forall (λ s, s = Pass) (running_units h)).
Proof.
  cbn zeta. unfold CgroupMemoryThrottle, running_units.
  assert (∀ why, let s := status (res "supervision.cgroup_memory_throttle" Skip why None None) in
    (s = Skip ↔ @nil Status = []) ∧ (s = Fail ↔ Fail ∈ @nil Status) ∧ (s = Pass ↔ @nil Status ≠ [] ∧ Forall (λ s, s = Pass) [])) as Hskip.
  { intros why. cbn [status res]. split_and!; try done; split; try done; [|by intros [? _]].
    intros H. by apply not_elem_of_nil in H. }
  destruct (user_cgroup_slice _) as [slice|]; [|apply Hskip].
  destruct (read_dir h _) as [names|]; [|apply Hskip].
  destruct (sweep_judged h slice (sy_services names) (mkSweep 0 Pass [] [])) as (H1 & H2 & _).
  cbn [inspected worst] in H1, H2. rewrite Z.add_0_l in H1. rewrite H1, H2.
  assert (Skip ∉ judged h slice (sy_services names)) as Hns.
  { intros (u & _ & H)%list_elem_of_omap. destruct (read_cgroup h _) as [m|]; [|done]. injection H as H.
    by apply (throttle_verdict_spec (events m) (full m) (cap m) (peak m)) in H. }
  destruct (judged h slice (sy_services names)) as [|x l] eqn:Ej; [apply Hskip|].
  assert (worst_of Pass (x :: l) ≠ Skip) as Hw.
  { clear -Hns. assert (∀ ss s, s ≠ Skip → Skip ∉ ss → worst_of s ss ≠ Skip) as W; [|by apply W].
    induction ss as [|y ss IH]; intros s Hs Hn; [done|]. rewrite not_elem_of_cons in Hn. destruct Hn as [Hy Hn].
    cbn [worst_of foldl]. apply IH; [|done]. destruct (_ <? _); auto. }
  destruct (Z.eqb_spec (Z.of_nat (length (x :: l))) 0) as [E|_]; [cbn in E; lia|]. cbn [status res].
  split_and!; [done|by rewrite worst_of_fail; split; [intros [?|?]|auto]|].
  rewrite worst_of_pass. split; [by intros [_ ?]|by intros [_ ?]].
Qed.

End Checks.

(** ** The monitor's doctor *)

Module MonDoctor.
Import Host.
Import Report (EM_DASH, NL, human_line).

Inductive Status : Type := Pass | Warn | Fail.
#[export] Instance MonStatus_eq_dec : EqDecision Status.
Proof. solve_decision. Defined.
Record CheckResult : Type := mkResult {
  name : string; status : Status; message : option text; fix_ : option text; details : option value
}.
Record Check : Type := mkCheck { check_name : string; run_check : Host → CheckResult }.
Record DoctorReport : Type := mkReport { version : Z; summary : Report.Summary; checks : list CheckResult }.
Definition exit_code (r : DoctorReport) : Z :=
  if (0 <? Report.fail (summary r))%Z then 1%Z else if (0 <? Report.warn (summary r))%Z then 3%Z else 0%Z.
Definition tally (s : Report.Summary) (c : CheckResult) : Report.Summary :=
  match status c with
  | Pass => Report.mkSummary (Report.pass s + 1) (Report.warn s) (Report.fail s) (Report.skip s)
  | Warn => Report.mkSummary (Report.pass s) (Report.warn s + 1) (Report.fail s) (Report.skip s)
  | Fail => Report.mkSummary (Report.pass s) (Report.warn s) (Report.fail s + 1) (Report.skip s)
  end%Z.
Definition run (cs : list Check) (only : option text) (h : Host) : DoctorReport :=
  let prefix := default [] only in
  let results := map (λ c, run_check c h) (List.filter (λ c, starts_with (lit (check_name c)) prefix) cs) in
  mkReport 1 (foldl tally (Report.mkSummary 0 0 0 0) results) results.
Definition tag (s : Status) : text := match s with Pass => lit "PASS" | Warn => lit "WARN" | Fail => lit "FAIL" end.
Definition write_human_public (r : DoctorReport) : text :=
  concat (map (λ c, human_line (tag (status c)) (lit (name c)) (message c) (fix_ c)) (checks r)) ++ Report.summary_line (summary r).

Definition res (n : string) (s : Status) (m : text) (f : option text) (d : option value) : CheckResult := mkResult n s (Some m) f d.
Definition AGGREGATOR_UNIT : text := lit "sy-mon-collect.service".
Definition START : text := lit "start `systemctl --user start " ++ AGGREGATOR_UNIT ++ lit "`".

Section checks.
(** [serde_json] on a request and a response, a fresh ULID, the parser of
    [prometheus_parse] and the message of [str::from_utf8]'s error. *)
Context (to_vec : Wire.Request → list Z) (from_slice : list Z → result Wire.Response text) (ulid : N).
Context {Sample : Type} (prometheus : list text → result (list Sample) text) (utf8_error : list Z → text).
Variable h : Host.

Definition under_runtime (names : list string) : option (list Z) :=
  (λ root, foldl (λ p n, join p (lit n)) root names) <$> var h "XDG_RUNTIME_DIR".
Definition PROBE_TIMEOUT_MS : Z := 800.
(** [sy_ipc::blocking::build_request]. *)
Definition build_request (method : string) (params : Wire.json) (priority : Priority.Priority) (deadline_ms : option Z)
    (request_id : option N) (trace_id parent_span_id : option string) : Wire.Request :=
  Wire.mkRequest Wire.SCHEMA_VERSION (default ulid request_id) trace_id parent_span_id deadline_ms priority method params.
Definition io {A} (o : option text) (k : result A text) : result A text := match o with Some e => Err e | None => k end.
(** [sy_ipc::blocking::read_frame] on the stream. *)
Definition read_frame (s : Stream) : result (list Z) text :=
  match Checks.read_exact s (sent s) 4 with
  | Err e => Err e
  | Ok (header, rest) =>
      match Checks.read_exact s rest (Checks.be32 header) with Err e => Err e | Ok (payload, _) => Ok payload end
  end.
Definition health_of (r : Wire.Response) : result text text :=
  match r with
  | Wire.ROk _ _ result _ =>
      match Wire.jget "state" result ≫= Wire.json_str with Some s => Ok (lit s) | None => Err (lit "missing result.state") end
  | Wire.RErr _ _ error => Err (lit (Wire.err_message error))
  end.
Definition probe_system_health (sock : list Z) : result text text :=
  let s := stream h sock in
  Checks.or_err "connect" (connect s) (io (read_timeout s) (io (write_timeout s)
  (let request := build_request "system.health" (Wire.JObj []) Priority.Interactive (Some PROBE_TIMEOUT_MS) None None None in
   if (U32_MOD <=? Z.of_nat (length (to_vec request)))%Z then Err (lit "out of range integral type conversion attempted")
   else io (default None (writes s !! 0)) (io (default None (writes s !! 1))
   (match read_frame s with
    | Err e => Err e
    | Ok payload => match from_slice payload with Err e => Err e | Ok r => health_of r end
    end))))).

Definition socket_json (sock : list Z) : list (text * value) := [(lit "socket", VStr sock)].
Definition MonCollectRunning : CheckResult :=
  let n := "mon.collect.running" in
  match under_runtime ["sy"; "mon.sock"] with
  | None => res n Fail (lit "XDG_RUNTIME_DIR unset; cannot resolve mon.sock")
              (Some (lit "ensure systemd user session is live and " ++ START)) None
  | Some sock =>
      if negb (exists_ h sock) then res n Fail (sock ++ lit " not present") (Some START) (Some (VObj (socket_json sock)))
      else match probe_system_health sock with
           | Ok state => res n (if bool_decide (state = lit "ready") then Pass else Warn) (lit "state=" ++ state) None
                           (Some (VObj (socket_json sock ++ [(lit "state", VStr state)])))
           | Err e => res n Fail (sock ++ lit ": " ++ e) (Some START) (Some (VObj (socket_json sock)))
           end
  end.

(** [read_to_end]. *)
Definition read_to_end (s : Stream) : result (list Z) text := match broken s with Some e => Err e | None => Ok (sent s) end.
Definition probe_metrics_socket (sock : list Z) : result Z text :=
  let s := stream h sock in
  Checks.or_err "connect" (connect s) (Checks.or_err "set_read_timeout" (read_timeout s)
  (Checks.or_err "set_write_timeout" (write_timeout s) (Checks.or_err "write request" (default None (writes s !! 0))
  (match Checks.labelled "read response" (read_to_end s) with
   | Err e => Err e
   | Ok buf =>
       match Collect.body_of buf with
       | Err e => Err (lit e)
       | Ok body =>
           match from_utf8 body with
           | None => Err (lit "non-UTF8 body: " ++ utf8_error body)
           | Some t => match Checks.labelled "prometheus_parse" (prometheus (lines t)) with
                       | Err e => Err e
                       | Ok samples => Ok (Z.of_nat (length samples))
                       end
           end
       end
   end)))).
Definition plane_json (plane : string) (sock : list Z) : list (text * value) :=
  [(lit "plane", VStr (lit plane)); (lit "socket", VStr sock)].
Definition metrics_name (plane : string) : string := ("mon.metrics_socket." ++ plane)%string.
Definition MonMetricsSocket (plane : string) : CheckResult :=
  let n := metrics_name plane in
  match under_runtime ["sy"; plane; "metrics.sock"] with
  | None => res n Warn (lit "XDG_RUNTIME_DIR unset; cannot resolve " ++ lit plane ++ lit " metrics.sock") None None
  | Some sock =>
      if negb (exists_ h sock)
      then res n Warn (sock ++ lit " not present (plane " ++ [34%Z] ++ lit plane ++ [34%Z] ++ lit " likely not running)")
             (Some (lit "start the plane daemon (e.g. `systemctl --user start sy-" ++ lit plane ++ lit ".service`)"))
             (Some (VObj (plane_json plane sock)))
      else match probe_metrics_socket sock with
           | Ok k => res n Pass (show_nat k ++ lit " samples") None
                       (Some (VObj (plane_json plane sock ++ [(lit "samples", VInt k)])))
           | Err e => res n Warn (sock ++ lit ": " ++ e)
                        (Some (lit "check the " ++ lit plane ++ lit " exporter (was it restarted?)")) (Some (VObj (plane_json plane sock)))
           end
  end.

Definition MonHistoryWritable : CheckResult :=
  let n := "mon.history.writable" in
  match under_runtime ["sy"; "mon"; "history.bin"] with
  | None => res n Fail (lit "XDG_RUNTIME_DIR unset; cannot resolve history.bin path")
              (Some (lit "ensure systemd user session is live (loginctl enable-linger)")) None
  | Some path =>
      match parent path with
      | None => res n Fail (path ++ lit " has no parent directory") None None
      | Some dir =>
          let d := Some (VObj [(lit "parent", VStr dir)]) in
          match create_dir_all h dir with
          | Some e => res n Fail (lit "create_dir_all " ++ dir ++ lit ": " ++ e)
                        (Some (lit "verify XDG_RUNTIME_DIR is writable for the current user")) d
          | None =>
              let sentinel := join dir (lit ".sy-mon-doctor-probe") in
              match create h sentinel with
              | None => let _ := write_all h sentinel in
                        res n Pass (dir ++ lit " writable") None
                          (Some (VObj [(lit "history_path", VStr path); (lit "parent", VStr dir)]))
              | Some e => res n Fail (lit "write probe " ++ sentinel ++ lit ": " ++ e)
                            (Some (lit "verify the parent directory is writable by the current user")) d
              end
          end
      end
  end.
End checks.

(** [mon_doctor_checks], and its checks as the desktop doctor registers them
    ([src/src/mon/doctor.rs]). *)
Section registered.
Context (to_vec : Wire.Request → list Z) (from_slice : list Z → result Wire.Response text) (ulid : N).
Context {Sample : Type} (prometheus : list text → result (list Sample) text) (utf8_error : list Z → text).
Definition mon_doctor_checks : list Check :=
  mkCheck "mon.collect.running" (MonCollectRunning to_vec from_slice ulid)
  :: map (λ p, mkCheck (metrics_name p) (λ h, MonMetricsSocket prometheus utf8_error h p)) Collect.KNOWN_PLANES
  ++ [mkCheck "mon.history.writable" MonHistoryWritable].

Lemma mon_checks_named h : Forall (λ c, name (run_check c h) = check_name c) mon_doctor_checks.
Proof.
  unfold mon_doctor_checks, Collect.KNOWN_PLANES. cbn [map app]. repeat constructor; cbn [run_check check_name];
    unfold MonCollectRunning, MonMetricsSocket, MonHistoryWritable; repeat (case_match; try done).
Qed.

Lemma metrics_never_fail h p : status (MonMetricsSocket prometheus utf8_error h p) ≠ Fail.
Proof. unfold MonMetricsSocket. repeat (case_match; try done). Qed.

End registered.
End MonDoctor.

(** ** The file manager's doctor *)

Module FileDoctor.
Import Host.

Inductive CheckStatus : Type := Ok_ | Warn | Fail.
#[export] Instance CheckStatus_eq_dec : EqDecision CheckStatus.
Proof. solve_decision. Defined.
Definition as_str (s : CheckStatus) : text := match s with Ok_ => lit "ok" | Warn => lit "warn" | Fail => lit "fail" end.
Record DoctorCheck : Type := mkCheck { name : string; status : CheckStatus; detail : text; fix_hint : option text }.
Record DoctorOpts : Type := mkOpts {
  sock_path : option (list Z); fonts_dir : option (list Z); niri_config : option (list Z);
  systemd_user_unit_dir : option (list Z); bookmarks_dir : option (list Z); discovered_plugin_ids : option (list text)
}.
Definition no_opts : DoctorOpts := mkOpts None None None None None None.

Definition has (s : CheckStatus) (cs : list DoctorCheck) : bool := existsb (λ c, bool_decide (status c = s)) cs.
Definition overall_status (cs : list DoctorCheck) : CheckStatus := if has Fail cs then Fail else if has Warn cs then Warn else Ok_.
Definition exit_code_for (cs : list DoctorCheck) : Z := match overall_status cs with Ok_ => 0 | Fail => 1 | Warn => 2 end.
Definition check_json (c : DoctorCheck) : value :=
  VObj ([(lit "name", VStr (lit (name c))); (lit "status", VStr (as_str (status c))); (lit "detail", VStr (detail c))]
        ++ match fix_hint c with Some f => [(lit "fix_hint", VStr f)] | None => [] end).
Definition render_json (cs : list DoctorCheck) : value :=
  VObj [(lit "schema", VStr (lit "sy.file.doctor/v1")); (lit "status", VStr (as_str (overall_status cs)));
        (lit "checks", VArr (map check_json cs))].
Definition tag (s : CheckStatus) : text := match s with Ok_ => lit "OK  " | Warn => lit "WARN" | Fail => lit "FAIL" end.
Definition render_human (cs : list DoctorCheck) : text :=
  concat (map (λ c, Report.human_line (tag (status c)) (lit (name c)) (Some (detail c)) (fix_hint c)) cs)
  ++ [10%Z] ++ lit "sy file doctor: " ++ as_str (overall_status cs) ++ [10%Z].

Section checks.
Context (debug : text → text) (debug_list : list text → text).
(** [registry::discover]: the ids of the plugins. *)
Context (discover : result (list text) text).
Variable h : Host.

Definition nonempty (o : option text) : option text := match o with Some (c :: s) => Some (c :: s) | _ => None end.
Definition default_sock_path : list Z :=
  match nonempty (var h "SY_FILE_SOCK"), nonempty (var h "XDG_RUNTIME_DIR") with
  | Some p, _ => p
  | None, Some d => join d (lit "sy-file.sock")
  | None, None => lit "/run/user/" ++ show_nat (getuid h) ++ lit "/sy-file.sock"
  end.
Definition check_daemon (o : DoctorOpts) : DoctorCheck :=
  let sock := default default_sock_path (sock_path o) in
  match connect (stream h sock) with
  | None => mkCheck "file.daemon.reachable" Ok_ (lit "daemon socket " ++ sock ++ lit " accepts connections") None
  | Some _ => mkCheck "file.daemon.reachable" Fail (lit "daemon socket " ++ sock ++ lit " not accepting")
                (Some (lit "systemctl --user start sy-file.socket"))
  end.

Definition is_nerd (s : text) : bool := contains s (lit "JetBrainsMono") && contains s (lit "Nerd").
Definition walk_for_font (dir : list Z) : option (list Z) :=
  match read_dir h dir with
  | None => None
  | Some names => (λ n, join dir n) <$> List.find is_nerd names
  end.
Definition INSTALL_FONT : text := lit "dnf install jetbrainsmono-nerd-fonts".
Definition check_fonts (o : DoctorOpts) : DoctorCheck :=
  let n := "file.fonts.jetbrainsmono_nerd" in
  match match fonts_dir o with Some d => Some d | None => var h "SY_FILE_FONTS_DIR" end with
  | Some dir =>
      match walk_for_font dir with
      | Some path => mkCheck n Ok_ (lit "found " ++ path) None
      | None => mkCheck n Fail (lit "no JetBrainsMono Nerd Font under " ++ dir) (Some INSTALL_FONT)
      end
  | None =>
      match command h ["fc-list"] with
      | Ran (Some 0%Z) stdout =>
          if existsb is_nerd (lines (from_utf8_lossy stdout))
          then mkCheck n Ok_ (lit "fc-list reports JetBrainsMono Nerd Font present") None
          else mkCheck n Fail (lit "fc-list does not list JetBrainsMono Nerd Font") (Some INSTALL_FONT)
      | _ => mkCheck n Warn (lit "fc-list missing; cannot probe fonts on this host")
               (Some (lit "install fontconfig + jetbrainsmono-nerd-fonts"))
      end
  end.

(** *** The key bindings of the compositor *)

(** [str::find] and [str::rfind] of a character. *)
Fixpoint find_char (c : Z) (s : text) : option nat :=
  match s with [] => None | d :: s => if (c =? d)%Z then Some 0 else S <$> find_char c s end.
Fixpoint rfind_char (c : Z) (s : text) : option nat :=
  match s with
  | [] => None
  | d :: s => match rfind_char c s with Some i => Some (S i) | None => if (c =? d)%Z then Some 0 else None end
  end.
Definition OPEN : Z := 123.
Definition CLOSE : Z := 125.
(** A line of the loop of [find_bind_target]. *)
Definition bind_on_line (bind line : text) : option text :=
  let trimmed := trim_start line in
  if starts_with trimmed (lit "//") || starts_with trimmed (lit "#") then None
  else
    match strip_prefix bind trimmed with
    | None => None
    | Some after =>
        if match after with c :: _ => is_whitespace c || (c =? OPEN)%Z | [] => false end
        then match find_char OPEN trimmed, rfind_char CLOSE trimmed with
             | Some open, Some close => if close <=? open then None else Some (trim (drop (S open) (take close trimmed)))
             | _, _ => None
             end
        else None
    end.
Definition find_bind_target (body bind : text) : option text := head (omap (bind_on_line bind) (lines body)).
Definition Q : text := [34%Z].
Definition target_dispatches_sy_file (t : text) : bool :=
  let has_sy := contains t (Q ++ lit "sy" ++ Q) || contains t (Q ++ lit "sy ") || contains t (lit " sy ")
                || contains t (lit "/bin/sy" ++ Q) || contains t (lit "/bin/sy ") in
  let has_file := contains t (Q ++ lit "file" ++ Q) || contains t (lit " file" ++ Q) || contains t (lit " file ")
                  || contains t (Q ++ lit "file ") in
  has_sy && has_file.
Definition base_dir (xdg : string) (home_parts : list string) : list Z :=
  match var h xdg with
  | Some d => d
  | None => foldl (λ p n, join p (lit n)) (default (lit ".") (var h "HOME")) home_parts
  end.
Definition default_niri_config_path : list Z := join (join (base_dir "XDG_CONFIG_HOME" [".config"]) (lit "niri")) (lit "config.kdl").
Definition REQUIRED_NIRI_BINDS : list text := [lit "Mod+E"; lit "Mod+Shift+E"; lit "Mod+Slash"].
(** The loop over the required bindings: the missing ones, and the ones bound to
    something else with what. *)
Definition bind_step (body : text) (acc : list text * list (text * text)) (bind : text) : list text * list (text * text) :=
  match find_bind_target body bind with
  | None => (acc.1 ++ [bind], acc.2)
  | Some t => if target_dispatches_sy_file t then acc else (acc.1, acc.2 ++ [(bind, t)])
  end.
Definition check_niri_binds (o : DoctorOpts) : DoctorCheck :=
  let n := "file.niri.binds" in
  let path := default default_niri_config_path (niri_config o) in
  let apply_ := Some (lit "sy apply") in
  match read_to_string h path with
  | Err _ => mkCheck n Fail (lit "niri config not found at " ++ path) apply_
  | Ok body =>
      match foldl (bind_step body) ([], []) REQUIRED_NIRI_BINDS with
      | (_, (bind, t) :: _) => mkCheck n Fail (bind ++ lit " collides with " ++ t) apply_
      | (m :: ms, []) => mkCheck n Fail (lit "missing niri binds: " ++ Checks.join_sep (lit ", ") (m :: ms)) apply_
      | ([], []) => mkCheck n Ok_ (lit "Mod+E / Mod+Shift+E / Mod+Slash all dispatch to `sy file`") None
      end
  end.

(** *** Units, bookmarks and plugins *)

Definition default_systemd_user_unit_dir : list Z := join (join (base_dir "XDG_CONFIG_HOME" [".config"]) (lit "systemd")) (lit "user").
Definition check_systemd_unit (o : DoctorOpts) : DoctorCheck :=
  let n := "file.systemd.unit_installed" in
  let dir := default default_systemd_user_unit_dir (systemd_user_unit_dir o) in
  match List.filter (λ p, negb (exists_ h p)) [join dir (lit "sy-file.service"); join dir (lit "sy-file.socket")] with
  | [] => mkCheck n Ok_ (lit "sy-file.service + sy-file.socket present under " ++ dir) None
  | missing => mkCheck n Fail (lit "missing unit files: " ++ Checks.join_sep (lit ", ") missing) (Some (lit "sy apply"))
  end.

Definition default_bookmarks_dir : list Z := join (join (base_dir "XDG_STATE_HOME" [".local"; "state"]) (lit "sy")) (lit "file").
Definition check_bookmarks_writable (o : DoctorOpts) : DoctorCheck :=
  let n := "file.bookmarks.writable" in
  let dir := default default_bookmarks_dir (bookmarks_dir o) in
  match create_dir_all h dir with
  | Some e => mkCheck n Fail (lit "create_dir_all " ++ dir ++ lit ": " ++ e)
                (Some (lit "verify $XDG_STATE_HOME is writable for the current user"))
  | None =>
      let probe := join dir (lit ".sy-file-doctor-probe") in
      (* [fs::write] creates the file and then writes it. *)
      match match create h probe with Some e => Some e | None => write_all h probe end with
      | None => mkCheck n Ok_ (dir ++ lit " writable") None
      | Some e => mkCheck n Fail (lit "write probe " ++ probe ++ lit ": " ++ e)
                    (Some (lit "verify the directory is writable by the current user"))
      end
  end.

Definition CANARY_PLUGIN_ID : text := lit "sy-plugin-md".
Definition INSTALL_PLUGIN : text := lit "sy plugin install ./crates/sy-plugin-md".
Definition check_plugin_registry (o : DoctorOpts) : DoctorCheck :=
  let n := "file.plugins.registry" in
  match match discovered_plugin_ids o with Some ids => Ok ids | None => discover end with
  | Err e => mkCheck n Fail (lit "registry discover failed: " ++ e) (Some (lit "sy plugin doctor --json"))
  | Ok [] => mkCheck n Fail (lit "registry discovered no plugins") (Some INSTALL_PLUGIN)
  | Ok ids =>
      if bool_decide (CANARY_PLUGIN_ID ∈ ids)
      then mkCheck n Ok_ (show_nat (Z.of_nat (length ids)) ++ lit " plugin(s) discovered including " ++ CANARY_PLUGIN_ID) None
      else mkCheck n Warn (lit "canary plugin " ++ debug CANARY_PLUGIN_ID ++ lit " absent; found: " ++ debug_list ids) (Some INSTALL_PLUGIN)
  end.

Definition file_doctor_checks (o : DoctorOpts) : list DoctorCheck :=
  [check_daemon o; check_fonts o; check_niri_binds o; check_systemd_unit o; check_bookmarks_writable o; check_plugin_registry o].

(** *** What it promises *)
Lemma has_spec s cs : has s cs = true ↔ ∃ c, c ∈ cs ∧ status c = s.
Proof.
  unfold has. rewrite existsb_exists. split; intros (c & Hc & E); exists c; rewrite <- list_elem_of_In in *;
    rewrite ?bool_decide_eq_true in *; done.
Qed.
Definition dispatches (body bind : text) : Prop :=
  ∃ t, find_bind_target body bind = Some t ∧ target_dispatches_sy_file t = true.
Lemma bind_steps body bs acc :
  foldl (bind_step body) acc bs = ([], []) ↔ acc = ([], []) ∧ Forall (dispatches body) bs.
Proof.
  revert acc. induction bs as [|b bs IH]; intros acc; cbn [foldl]; [rewrite Forall_nil; tauto|].
  rewrite IH, Forall_cons. unfold bind_step, dispatches.
  destruct (find_bind_target body b) as [t|] eqn:E; [destruct (target_dispatches_sy_file t) eqn:Et|].
  - split; [intros [-> ?]; eauto 6|intros (-> & _ & ?); auto].
  - split; [intros [[= _ H] _]; by apply app_nil in H as [_ H]|intros (_ & (t' & [= <-] & H) & _); congruence].
  - split; [intros [[= H _] _]; by apply app_nil in H as [_ H]|intros (_ & (t' & H & _) & _); congruence].
Qed.

(** The bindings pass exactly when each of the three is bound, on the first line
    that binds it, to a command that names [sy file]. *)
Lemma binds_verdict o :
  status (check_niri_binds o) = Ok_ ↔
  ∃ body, read_to_string h (default default_niri_config_path (niri_config o)) = Ok body
          ∧ Forall (dispatches body) REQUIRED_NIRI_BINDS.
Proof.
  unfold check_niri_binds. destruct (read_to_string h _) as [body|e]; [|split; [done|by intros (? & ? & _)]].
  transitivity (foldl (bind_step body) ([], []) REQUIRED_NIRI_BINDS = ([], [])).
  - destruct (foldl _ _ _) as [[|m ms] [|[b t] cs]]; done.
  - rewrite bind_steps. split; [intros [_ H]; eauto|]. by intros (b & [= <-] & H).
Qed.

(** The doctor exits with 0 exactly when the daemon's socket takes connections,
    the font is there, the three keys start the file manager, both units are
    installed, bookmarks can be written and the sample plugin is found; with 2
    only when what is wrong is at most a missing [fc-list] or sample plugin. *)
Theorem file_doctor_exit o :
  let cs := file_doctor_checks o in
  (exit_code_for cs = 0%Z ↔ Forall (λ c, status c = Ok_) cs)
  ∧ (exit_code_for cs = 1%Z ↔ Exists (λ c, status c = Fail) cs)
  ∧ (exit_code_for cs = 2%Z →
       status (check_fonts o) = Warn ∨ status (check_plugin_registry o) = Warn).
Proof.
  cbn zeta. unfold exit_code_for, overall_status.
  pose proof (has_spec Fail (file_doctor_checks o)) as Hf. pose proof (has_spec Warn (file_doctor_checks o)) as Hw.
  assert (∀ s, (∃ c, c ∈ file_doctor_checks o ∧ status c = s) ↔ Exists (λ c, status c = s) (file_doctor_checks o)) as E.
  { intros s. by rewrite Exists_exists. }
  rewrite E in Hf, Hw. clear E. split_and!.
  - rewrite Forall_forall. destruct (has Fail _); [|destruct (has Warn _)].
    + split; [done|]. intros H. destruct (proj1 (Exists_exists _ _) (proj1 Hf eq_refl)) as (c & Hc & Es).
      rewrite (H c Hc) in Es. done.
    + split; [done|]. intros H. destruct (proj1 (Exists_exists _ _) (proj1 Hw eq_refl)) as (c & Hc & Es).
      rewrite (H c Hc) in Es. done.
    + split; [|done]. intros _ c Hc. destruct (status c) eqn:Es; [done|exfalso..].
      * assert (false = true) by (apply Hw, Exists_exists; eauto). done.
      * assert (false = true) by (apply Hf, Exists_exists; eauto). done.
  - rewrite <- Hf. destruct (has Fail _), (has Warn _); done.
  - destruct (has Fail _); [done|]. destruct (has Warn _); [|done]. intros _.
    pose proof (proj1 Hw eq_refl) as H. unfold file_doctor_checks in H. rewrite !Exists_cons, Exists_nil in H.
    destruct H as [H|[H|[H|[H|[H|[H|[]]]]]]]; [exfalso|by left|exfalso..|by right]; revert H;
      unfold check_daemon, check_niri_binds, check_systemd_unit, check_bookmarks_writable; repeat (case_match; try done).
Qed.
End checks.

(** A commented binding and a longer key do not count, and neither does a command
    that only ends in the name. *)
Example binds :
  let body := lit "binds {" ++ [10%Z] ++ lit "  // Mod+E { spawn x; }" ++ [10%Z] ++ lit "  Mod+E { spawn " ++ Q ++ lit "sy" ++ Q ++ [32%Z]
              ++ Q ++ lit "file" ++ Q ++ lit "; }" ++ [10%Z] in
  (target_dispatches_sy_file <$> find_bind_target body (lit "Mod+E")) = Some true
  ∧ find_bind_target body (lit "Mod+Shift+E") = None
  ∧ target_dispatches_sy_file (lit "spawn " ++ Q ++ lit "nosy" ++ Q ++ lit " " ++ Q ++ lit "file" ++ Q) = false.
Proof. by vm_compute. Qed.
End FileDoctor.

(** ** A host *)

(** A machine with nothing but a session: no devices, programs or files. *)
Definition bare : Host.Host :=
  Host.mkHost (λ _, false) (λ _, false) (λ _, true) (λ _, false) (λ _, None) (λ _, None) (λ _, Err (lit "not found"))
    (λ _, None) (λ _, None) (λ _, Some (lit "No space left on device"))
    (λ v, if String.eqb v "XDG_RUNTIME_DIR" then Some (lit "/run/user/1000") else None) 1000 (λ _, Host.NotFound)
    (λ _, Some (lit "refused")) (λ _, None) (λ _, Host.mkStream (Some (lit "refused")) None None [] [] None).

(** The monitor's checks as the desktop doctor registers them
    ([src/src/mon/doctor.rs]), and [default_checks]. *)
Definition MonitorCheck (c : MonDoctor.Check) : Report.Check Host.Host :=
  Report.mkCheck (MonDoctor.check_name c) (λ h,
    let r := MonDoctor.run_check c h in
    let s := match MonDoctor.status r with
             | MonDoctor.Pass => Report.Pass | MonDoctor.Warn => Report.Warn | MonDoctor.Fail => Report.Fail
             end in
    Report.mkResult (MonDoctor.name r) s (MonDoctor.message r) (MonDoctor.fix_ r) (MonDoctor.details r)).
Definition default_checks (from_slice : list Z → result value text) (to_vec : value → list Z) (ulid : text)
    (sets : list Checks.ArtifactSet) (mon : list MonDoctor.Check) : list (Report.Check Host.Host) :=
  Checks.own_checks from_slice to_vec ulid sets ++ map MonitorCheck mon.

(** No two checks of the desktop doctor share a name. *)
Lemma names_are_distinct fs tv u sets tv' fs' u' {S} (prom : list text → result (list S) text) ue :
  NoDup (map Report.check_name (default_checks fs tv u sets (MonDoctor.mon_doctor_checks tv' fs' u' prom ue))).
Proof. apply (bool_decide_unpack _). by vm_compute. Qed.

(** A full disk passes the monitor's check of its history, which drops the outcome
    of the write it tries; the file manager's check of its bookmarks does not. *)
Example full_disk_passes :
  MonDoctor.status (MonDoctor.MonHistoryWritable bare) = MonDoctor.Pass
  ∧ FileDoctor.status (FileDoctor.check_bookmarks_writable bare FileDoctor.no_opts) = FileDoctor.Fail.
Proof. by vm_compute. Qed.

(** A warning is 3 to one doctor and 2 to the other. *)
Example warnings_exit :
  Report.exit_code (Report.from_checks [Report.mkResult "a" Report.Warn None None None]) = 3%Z
  ∧ FileDoctor.exit_code_for [FileDoctor.mkCheck "a" FileDoctor.Warn [] None] = 2%Z.
Proof. by vm_compute. Qed.

(** ** Crash records

    [src/src/crash/mod.rs] and [show.rs]. The dates of [chrono] and JSON text are
    parameters. *)

Module Crash.
Import Host.

Definition PREVIEW_MAX : nat := 160.
Definition EXIT_NOT_FOUND : Z := 4.
Inductive Source : Type := SPanic | SCoredump.
Definition source_name (s : Source) : text := match s with SPanic => lit "panic" | SCoredump => lit "coredump" end.
Record CrashSummary : Type := mkCrash { ts : text; pid : Z; source : Source; payload_preview : text }.

(** [str::len]. *)
Definition byte_len (s : text) : nat := length (as_bytes s).
(** The characters before the last boundary at [n] bytes or less. *)
Fixpoint within (n : nat) (s : text) : text :=
  match s with
  | [] => []
  | c :: s => let k := length (encode_char c) in if k <=? n then c :: within (n - k) s else []
  end.
Definition truncate (s : text) : text := if byte_len s <=? PREVIEW_MAX then s else within PREVIEW_MAX s ++ [8230%Z].

(** [Value::as_u64]. *)
Definition vu64 (v : value) : option Z :=
  match v with VInt n => if ((0 <=? n) && (n <? U64_MOD))%Z then Some n else None | _ => None end.
(** [as u32] and [as i64]. *)
Definition as_u32 (n : Z) : Z := (n mod U32_MOD)%Z.
Definition as_i64 (n : Z) : Z := if (n <? 2 ^ 63)%Z then n else (n - U64_MOD)%Z.
Definition or_else {A} (a b : option A) : option A := match a with Some x => Some x | None => b end.
Definition number (v : value) : option Z := or_else (vu64 v) (vstr v ≫= parse_usize).

Section crash.
Context (from_str : text → option value) (from_slice : list Z → option value) (to_rfc3339 : Z → option text).
Variable h : Host.

Definition read_one_panic (path : list Z) : option CrashSummary :=
  match read_to_string h path with
  | Err _ => None
  | Ok raw =>
      v ← from_str raw; t ← vget "ts" v ≫= vstr;
      Some (mkCrash t (as_u32 (default 0%Z (vget "pid" v ≫= vu64))) SPanic (truncate (default [] (vget "payload" v ≫= vstr))))
  end.
(** The records of a directory: its files whose extension is [json]. *)
Definition records (dir : list Z) : list (list Z) :=
  match read_dir h dir with
  | None => []
  | Some names => List.filter (λ p, bool_decide (extension p = Some (lit "json"))) (map (join dir) names)
  end.
Definition read_panic_records (dir : list Z) : list CrashSummary := omap read_one_panic (records dir).
Definition parse_coredumpctl_entry (e : value) : option CrashSummary :=
  t ← or_else (vget "_SOURCE_REALTIME_TIMESTAMP" e) (vget "_TIMESTAMP" e);
  ts_us ← number t;
  shown ← to_rfc3339 (as_i64 ts_us);
  let pid := as_u32 (default 0%Z (vget "_PID" e ≫= number)) in
  let comm := default (lit "unknown") (vget "_COMM" e ≫= vstr) in
  let signal := default (lit "?") (or_else (vget "COREDUMP_SIGNAL_NAME" e) (vget "COREDUMP_SIGNAL" e) ≫= vstr) in
  Some (mkCrash shown pid SCoredump (truncate (comm ++ lit ": " ++ signal))).
Definition parse_coredumpctl (raw : list Z) : list CrashSummary :=
  match from_slice raw with Some (VArr l) => omap parse_coredumpctl_entry l | _ => [] end.
Definition ts_leb (a b : CrashSummary) : bool := Checks.bytes_leb (as_bytes (ts a)) (as_bytes (ts b)).
Definition list_with_inputs (dir : list Z) (coredumpctl_output : option (list Z)) : list CrashSummary :=
  sort_by ts_leb (read_panic_records dir ++ match coredumpctl_output with Some raw => parse_coredumpctl raw | None => [] end).
Definition run_coredumpctl_list : option (list Z) :=
  match command h ["coredumpctl"; "list"; "--json=pretty"; "--since"; "-1day"] with
  | Ran (Some 0%Z) stdout => Some stdout
  | _ => None
  end.
Definition list_ (dir : list Z) : list CrashSummary := list_with_inputs dir run_coredumpctl_list.

Definition has_ts (t : text) (path : list Z) : bool :=
  match read_to_string h path with
  | Err _ => false
  | Ok raw => match from_str raw with Some v => bool_decide (vget "ts" v ≫= vstr = Some t) | None => false end
  end.
Definition find_panic_by_ts (dir : list Z) (t : text) : option (list Z) := List.find (has_ts t) (records dir).
Definition print_human_panic (v : value) : text :=
  let str k d := default (lit d) (vget k v ≫= vstr) in
  let line k s := lit k ++ s ++ [10%Z] in
  line "ts:       " (str "ts" "?") ++ line "pid:      " (show_nat (default 0%Z (vget "pid" v ≫= vu64)))
  ++ line "thread:   " (str "thread" "?") ++ line "location: " (str "location" "?")
  ++ (if bool_decide (str "trace_id" "" = []) then [] else line "trace_id: " (str "trace_id" ""))
  ++ line "payload:  " (str "payload" "?").
(** What [show::run] prints and exits with; [Err] is its error. *)
Definition show_run (to_string_pretty : value → text) (info : text → option text) (dir : list Z) (t : text) (as_json : bool)
  : result (text * Z) text :=
  match find_panic_by_ts dir t with
  | Some path =>
      match read_to_string h path with
      | Err e => Err e
      | Ok raw => match from_str raw with
                  | None => Err (lit "invalid JSON")
                  | Some v => Ok (if as_json then to_string_pretty v ++ [10%Z] else print_human_panic v, 0%Z)
                  end
      end
  | None => match info t with Some output => Ok (output, 0%Z) | None => Ok ([], EXIT_NOT_FOUND) end
  end.

(** *** What it promises *)
Lemma within_spec n s : within n s `prefix_of` s ∧ byte_len (within n s) <= n.
Proof.
  revert n. induction s as [|c s IH]; intros n; cbn [within]; [split; [done|cbn; lia]|].
  destruct (Nat.leb_spec (length (encode_char c)) n); [|split; [apply prefix_nil|cbn; lia]].
  destruct (IH (n - length (encode_char c))) as [Hp Hl]. split; [by apply prefix_cons|].
  unfold byte_len, as_bytes in *. cbn [map concat]. rewrite length_app. lia.
Qed.
(** A preview is the payload, or a beginning of it with an ellipsis, of at most
    163 bytes. *)
Lemma truncate_spec s :
  (truncate s = s ∨ ∃ p, p `prefix_of` s ∧ truncate s = p ++ [8230%Z]) ∧ byte_len (truncate s) <= PREVIEW_MAX + 3.
Proof.
  unfold truncate. destruct (Nat.leb_spec (byte_len s) PREVIEW_MAX); [split; [by left|unfold PREVIEW_MAX in *; lia]|].
  destruct (within_spec PREVIEW_MAX s) as [Hp Hl]. split; [right; eauto|].
  unfold byte_len, as_bytes in *. rewrite map_app, concat_app, length_app. cbn. unfold PREVIEW_MAX in *. lia.
Qed.

(** Every panic of the listing can be shown: its time stamp finds a record that
    reads. *)
Theorem listed_panics_can_be_shown pretty info dir as_json c :
  c ∈ list_ dir → source c = SPanic →
  ∃ out, show_run pretty info dir (ts c) as_json = Ok (out, 0%Z).
Proof.
  unfold list_, list_with_inputs. rewrite elem_of_sort_by, elem_of_app. intros [Hc|Hc] Hs; cycle 1.
  { exfalso. destruct run_coredumpctl_list as [raw|]; [|by apply not_elem_of_nil in Hc]. unfold parse_coredumpctl in Hc.
    destruct (from_slice raw) as [[]|]; try by apply not_elem_of_nil in Hc. apply list_elem_of_omap in Hc as (e & _ & He).
    unfold parse_coredumpctl_entry in He. repeat (apply bind_Some in He as (? & _ & He)). by injection He as <-. }
  unfold read_panic_records in Hc. apply list_elem_of_omap in Hc as (p & Hp & Hr).
  assert (has_ts (ts c) p = true) as Hts.
  { unfold read_one_panic in Hr. unfold has_ts. destruct (read_to_string h p) as [raw|]; [|done].
    apply bind_Some in Hr as (v & -> & Hr). apply bind_Some in Hr as (t & Ht & [= <-]). by apply bool_decide_eq_true. }
  unfold show_run, find_panic_by_ts. destruct (List.find (has_ts (ts c)) (records dir)) as [q|] eqn:Eq.
  - apply find_some in Eq as [_ Hq]. unfold has_ts in Hq. destruct (read_to_string h q) as [raw|]; [|done].
    destruct (from_str raw); [|done]. eauto.
  - apply list_elem_of_In in Hp. pose proof (find_none _ _ Eq p Hp). congruence.
Qed.
End crash.

(** A preview can be longer than its limit, by the ellipsis. *)
Example preview_exceeds_its_limit : byte_len (truncate (replicate 161 65%Z)) = 163.
Proof. by vm_compute. Qed.
End Crash.
