(* ===== verification/McpServers.v ===== *)
(** * The MCP servers

    [McpServer] is the line-delimited JSON-RPC loop that the four servers of the
    workspace share word for word ([sy-knowledge/src/knowledge/mcp.rs],
    [sy-filemanager/src/file/mcp.rs], [sy-monitor/src/mon/mcp.rs],
    [sy-desktop-shell/src/stack/mcp.rs]); [MonMcp], [StackMcp], [FileMcp] and
    [KnowMcp] are their tools. Descriptors are modelled without their
    descriptions. JSON text is a parameter, and so are the calls of a daemon; the
    tools of the stack work on the disk of [Stack]. *)

From S2P Require Import Prelude Lists Text Paths Lines Utf8 Store Vocab KnowText Stack KnowIndex KnowSearch.
Import Lists Text Paths Lines Utf8 Value.
Local Open Scope string_scope.
Local Open Scope nat_scope.
Local Open Scope list_scope.

Module McpServer.

Definition PROTOCOL_VERSION : text := lit "2024-11-05".
Definition ERR_DAEMON_UNREACHABLE : Z := -32000.

Record Req : Type := mkReq { jsonrpc : text; id : option value; method : text; params : value }.
(** The derived decoder of [Req]: a map, or a sequence of the fields in order. *)
Definition some_id (v : option value) : option value := match v with Some VNull => None | _ => v end.
Definition decode (v : value) : option Req :=
  match v with
  | VObj _ =>
      j ← vget "jsonrpc" v ≫= vstr; m ← vget "method" v ≫= vstr;
      Some (mkReq j (some_id (vget "id" v)) m (default VNull (vget "params" v)))
  | VArr [VStr j; i; VStr m] => Some (mkReq j (some_id (Some i)) m VNull)
  | VArr [VStr j; i; VStr m; p] => Some (mkReq j (some_id (Some i)) m p)
  | _ => None
  end.

(** [Resp] as it is serialised. *)
Definition response (id : value) (r : result value text) : value :=
  VObj ([(lit "jsonrpc", VStr (lit "2.0")); (lit "id", id)]
        ++ match r with
           | Ok v => [(lit "result", v)]
           | Err e => [(lit "error", VObj [(lit "code", VInt ERR_DAEMON_UNREACHABLE); (lit "message", VStr e)])]
           end).

Section server.
(** [serde_json] on a line, and the rest of a server: its name and version, its
    descriptors, and the call of a tool, on a state. *)
Context {S : Type} (from_str : text → option value).
Context (server version : text) (tools : value) (call_tool : value → S → S * result value text).

Definition handle (m : text) (p : value) (s : S) : S * result value text :=
  if bool_decide (m = lit "initialize") then
    (s, Ok (VObj [(lit "protocolVersion", VStr PROTOCOL_VERSION); (lit "capabilities", VObj [(lit "tools", VObj [])]);
                  (lit "serverInfo", VObj [(lit "name", VStr server); (lit "version", VStr version)])]))
  else if bool_decide (m = lit "tools/list") then (s, Ok (VObj [(lit "tools", tools)]))
  else if bool_decide (m = lit "tools/call") then call_tool p s
  else (s, Err (lit "method not implemented: " ++ m)).

(** The request on a line that is to be answered, with its id. *)
Definition request_of (line : text) : option (value * Req) :=
  match trim line with
  | [] => None
  | t => v ← from_str t; r ← decode v;
         if bool_decide (jsonrpc r = lit "2.0") then i ← id r; Some (i, r) else None
  end.
Definition on_line (line : text) (s : S) : S * list value :=
  match request_of line with
  | None => (s, [])
  | Some (i, r) => let '(s, a) := handle (method r) (params r) s in (s, [response i a])
  end.
(** [run] on what the reads of its input give, [None] for a read that fails,
    which ends it: the state, the responses written, and whether it ends well. *)
Fixpoint run (input : list (option text)) (s : S) : S * list value * bool :=
  match input with
  | [] => (s, [], true)
  | None :: _ => (s, [], false)
  | Some line :: input =>
      let '(s, out) := on_line line s in
      let '(s, outs, fine) := run input s in (s, out ++ outs, fine)
  end.

(** The lines before the first read that fails. *)
Fixpoint heard (input : list (option text)) : list text :=
  match input with Some l :: input => l :: heard input | _ => [] end.
Definition well_formed (i resp : value) : Prop := ∃ r, resp = response i r.

(** Every request with an id is answered once, in order and under its own id, and
    nothing else is written. *)
Theorem requests_are_answered_in_order input s :
  Forall2 well_formed (map fst (omap request_of (heard input))) (run input s).1.2.
Proof.
  revert s. induction input as [|[line|] input IH]; intros s; cbn [run heard omap list_omap map fst snd]; [constructor| |constructor].
  unfold on_line. destruct (request_of line) as [[i r]|].
  - destruct (handle (method r) (params r) s) as [s' a]. specialize (IH s').
    destruct (run input s') as [[s'' outs] fine]. cbn [map fst snd app] in *. constructor; [by exists a|done].
  - specialize (IH s). destruct (run input s) as [[s'' outs] fine]. cbn [map fst snd app] in *. done.
Qed.
Lemma response_id i r : vget "id" (response i r) = Some i.
Proof. by vm_compute. Qed.
Lemma response_has_one i r : is_Some (vget "result" (response i r)) ↔ vget "error" (response i r) = None.
Proof. destruct r; vm_compute; split; try done; eauto; by intros [? ?]. Qed.

(** Only a call of a tool changes the state. *)
Lemma others_change_nothing m p s : m ≠ lit "tools/call" → (handle m p s).1 = s.
Proof. intros H. unfold handle. repeat case_bool_decide; done. Qed.
End server.

(** A descriptor, without its descriptions: the properties by their types, and the
    required ones. *)
Record Tool : Type := mkTool { tool_name : string; properties : list (string * string); required : list string }.
Definition tool_json (t : Tool) : value :=
  VObj [(lit "name", VStr (lit (tool_name t)));
        (lit "inputSchema",
          VObj ([(lit "type", VStr (lit "object"));
                 (lit "properties", VObj (map (λ kt, (lit kt.1, VObj [(lit "type", VStr (lit kt.2))])) (properties t)))]
                ++ match required t with [] => [] | r => [(lit "required", VArr (map (λ k, VStr (lit k)) r))] end))].
Definition tools_json (ts : list Tool) : value := VArr (map tool_json ts).
(** The beginning of each [call_tool]: the tool, and its arguments. *)
Definition tool_args (p : value) : value := default (VObj []) (vget "arguments" p).
Definition unknown_tool (n : text) : text := lit "unknown tool: " ++ n.
(** A tool by its name among the arms of a [match]. *)
Fixpoint arm {A} (arms : list (string * A)) (n : text) : option A :=
  match arms with
  | [] => None
  | (k, a) :: arms => if bool_decide (lit k = n) then Some a else arm arms n
  end.
Lemma arm_None {A} (arms : list (string * A)) n : arm arms n = None ↔ n ∉ map (λ ka, lit ka.1) arms.
Proof.
  induction arms as [|[k a] arms IH]; cbn [arm map fst]; [split; [intros _; apply not_elem_of_nil|done]|].
  rewrite not_elem_of_cons. case_bool_decide as E; [split; [done|intros [H _]; congruence]|].
  rewrite IH. split; [intros H; split; [by apply not_eq_sym|done]|by intros [_ ?]].
Qed.
(** The text block that the servers but the file manager's wrap a payload in. *)
Definition text_content (payload : text) (is_error : bool) : list (text * value) :=
  [(lit "content", VArr [VObj [(lit "type", VStr (lit "text")); (lit "text", VStr payload)]]); (lit "isError", VBool is_error)].
Section call.
Context {S : Type} (arms : list (string * (value → S → S * result text text))).
Definition call_tool (p : value) (s : S) : S * result value text :=
  match vget "name" p ≫= vstr with
  | None => (s, Err (lit "tools/call missing name"))
  | Some n =>
      match arm arms n with
      | None => (s, Err (unknown_tool n))
      | Some tool =>
          match tool (tool_args p) s with
          | (s, Ok payload) => (s, Ok (VObj (text_content payload false)))
          | (s, Err e) => (s, Err e)
          end
      end
  end.
(** A name that no tool has is refused, and changes nothing. *)
Lemma unknown_is_refused p s n :
  vget "name" p ≫= vstr = Some n → n ∉ map (λ ka, lit ka.1) arms → call_tool p s = (s, Err (unknown_tool n)).
Proof. intros Hn Ha. unfold call_tool. rewrite Hn. by apply arm_None in Ha as ->. Qed.
End call.
End McpServer.

(** ** The monitor *)

Module MonMcp.
Import McpServer.

Definition TOOL_SNAPSHOT : string := "system.mon.snapshot".
Definition TOOL_HISTORY : string := "system.mon.history".
Definition tools : list Tool :=
  [mkTool TOOL_SNAPSHOT [] []; mkTool TOOL_HISTORY [("metric", "string"); ("seconds", "integer")] ["metric"; "seconds"]].
Definition KNOWN_METRICS : list text := map lit ["sy_cpu_util"; "sy_mem_used_mib"; "sy_swap_used_mib"; "sy_load_avg_1m"].

(** The inner loop of [levenshtein]: [curr] from its left neighbour [left], the
    row before from [diag] on, and the characters of [b]. *)
Fixpoint row_rest (ca : Z) (left diag : nat) (b : text) (prev : list nat) : list nat :=
  match b, prev with
  | cb :: b, up :: prev =>
      let cost := if (ca =? cb)%Z then 0 else 1 in
      let v := Nat.min (Nat.min (left + 1) (up + 1)) (diag + cost) in
      v :: row_rest ca v up b prev
  | _, _ => []
  end.
Definition row (i : nat) (ca : Z) (b : text) (prev : list nat) : list nat :=
  match prev with [] => [] | diag :: prev => (i + 1) :: row_rest ca (i + 1) diag b prev end.
Fixpoint rows (i : nat) (a b : text) (prev : list nat) : list nat :=
  match a with [] => prev | ca :: a => rows (S i) a b (row i ca b prev) end.
Definition levenshtein (a b : text) : nat :=
  match a, b with
  | [], _ => length b
  | _, [] => length a
  | _, _ => default 0 (rows 0 a b (seq 0 (S (length b))) !! length b)
  end.

(** [Iterator::min_by_key]: the first of the least. *)
Fixpoint min_by_key {A} (f : A → nat) (l : list A) : option A :=
  match l with
  | [] => None
  | x :: l => match min_by_key f l with Some y => if f x <=? f y then Some x else Some y | None => Some x end
  end.
Fixpoint join_comma (l : list text) : text := match l with [] => [] | [p] => p | p :: l => p ++ lit ", " ++ join_comma l end.

Section mon.
(** The debug form of a string, and the calls of the aggregator. *)
Context (debug : text → text) (snapshot : result text text) (history : text → Z → result text text) (to_string : value → text).
Context (from_str : text → option value).

Definition validate_metric (metric : text) : result unit text :=
  if existsb (λ k, bool_decide (k = metric)) KNOWN_METRICS then Ok tt
  else
    let known := join_comma KNOWN_METRICS in
    Err (match min_by_key (levenshtein metric) KNOWN_METRICS with
         | Some s => lit "unknown metric " ++ debug metric ++ lit "; did you mean " ++ debug s ++ lit "? known: " ++ known
         | None => lit "unknown metric " ++ debug metric ++ lit "; known: " ++ known
         end).
Definition vu64 (v : value) : option Z :=
  match v with VInt n => if ((0 <=? n) && (n <? U64_MOD))%Z then Some n else None | _ => None end.
(** The samples of an answer are JSON text here, put where they go. *)
Definition tool_history (samples : text → value) (args : value) : result text text :=
  match vget "metric" args ≫= vstr with
  | None => Err (lit "missing metric")
  | Some metric =>
      match vget "seconds" args ≫= vu64 with
      | None => Err (lit "missing seconds")
      | Some n =>
          let seconds := (n mod U32_MOD)%Z in
          rbind (validate_metric metric) (λ _,
          rbind (history metric seconds) (λ s,
            Ok (to_string (VObj [(lit "metric", VStr metric); (lit "samples", samples s)]))))
      end
  end.
Definition arms (samples : text → value) : list (string * (value → unit → unit * result text text)) :=
  [(TOOL_SNAPSHOT, λ _ s, (s, snapshot)); (TOOL_HISTORY, λ a s, (s, tool_history samples a))].
End mon.

(** *** The distance *)

(** The recursive definition, on the letters from the left. *)
Fixpoint dist (a : text) : text → nat :=
  fix go (b : text) : nat :=
    match a, b with
    | [], _ => length b
    | _, [] => length a
    | x :: a', y :: b' =>
        Nat.min (Nat.min (S (dist a' b)) (S (go b'))) (dist a' b' + if (x =? y)%Z then 0 else 1)
    end.
(** Turning one text into another by keeping, changing, dropping and adding
    letters, with the number of those changed, dropped and added. *)
Inductive edits : text → text → nat → Prop :=
| Done : edits [] [] 0
| Keep c a b n : edits a b n → edits (c :: a) (c :: b) n
| Change c d a b n : edits a b n → edits (c :: a) (d :: b) (S n)
| Drop c a b n : edits a b n → edits (c :: a) b (S n)
| Add c a b n : edits a b n → edits a (c :: b) (S n).
#[local] Hint Constructors edits : core.

Lemma dist_nil_l b : dist [] b = length b.
Proof. by destruct b. Qed.
Lemma dist_nil_r a : dist a [] = length a.
Proof. by destruct a. Qed.
Lemma dist_cons x a y b :
  dist (x :: a) (y :: b) =
  Nat.min (Nat.min (S (dist a (y :: b))) (S (dist (x :: a) b))) (dist a b + if (x =? y)%Z then 0 else 1).
Proof. done. Qed.

Lemma edits_all_dropped a : edits a [] (length a).
Proof. induction a; cbn; auto. Qed.
Lemma edits_all_added b : edits [] b (length b).
Proof. induction b; cbn; auto. Qed.
Lemma dist_edits a b : edits a b (dist a b).
Proof.
  revert b. induction a as [|x a IHa]; intros b; [rewrite dist_nil_l; apply edits_all_added|].
  induction b as [|y b IHb]; [rewrite dist_nil_r; apply edits_all_dropped|]. rewrite dist_cons.
  assert (edits (x :: a) (y :: b) (dist a b + if (x =? y)%Z then 0 else 1)) as Hd.
  { destruct (Z.eqb_spec x y) as [->|]; [rewrite Nat.add_0_r; auto|rewrite Nat.add_1_r; auto]. }
  apply (Nat.min_case_strong _ _ (edits (x :: a) (y :: b))); intros _; [|done].
  apply (Nat.min_case_strong _ _ (edits (x :: a) (y :: b))); intros _; auto.
Qed.
Lemma dist_least a b n : edits a b n → dist a b <= n.
Proof.
  induction 1 as [|c a b n _ IH|c d a b n _ IH|c a b n _ IH|c a b n _ IH]; [done| | | |].
  - rewrite dist_cons, Z.eqb_refl. lia.
  - rewrite dist_cons. destruct (c =? d)%Z; lia.
  - destruct b as [|y b]; [rewrite dist_nil_r in *; cbn; lia|]. rewrite dist_cons. lia.
  - destruct a as [|x a]; [rewrite dist_nil_l in *; cbn; lia|]. rewrite dist_cons. lia.
Qed.

Lemma edits_app a b n a' b' n' : edits a b n → edits a' b' n' → edits (a ++ a') (b ++ b') (n + n').
Proof. intros H H'. induction H; cbn [app Nat.add]; auto. Qed.
Lemma edits_reverse a b n : edits a b n → edits (reverse a) (reverse b) n.
Proof.
  induction 1 as [|c a b n _ IH|c d a b n _ IH|c a b n _ IH|c a b n _ IH]; rewrite ?reverse_cons; [done| | | |].
  - rewrite <- (Nat.add_0_r n). by apply edits_app; auto.
  - rewrite <- Nat.add_1_r. by apply edits_app; auto.
  - rewrite <- Nat.add_1_r, <- (app_nil_r (reverse b)). by apply edits_app; auto.
  - rewrite <- Nat.add_1_r, <- (app_nil_r (reverse a)). by apply edits_app; auto.
Qed.

(** The values of a function on the reversed prefixes of [b] after [rb]. *)
Fixpoint scan (f : text → nat) (rb b : text) : list nat :=
  match b with [] => [] | c :: b => f (c :: rb) :: scan f (c :: rb) b end.
Lemma scan_length rb b : scan length rb b = seq (S (length rb)) (length b).
Proof. revert rb. induction b as [|c b IH]; intros rb; [done|]. cbn [scan seq length]. by rewrite IH. Qed.
Lemma scan_ext f g rb b : (∀ x, f x = g x) → scan f rb b = scan g rb b.
Proof. intros E. revert rb. induction b as [|c b IH]; intros rb; [done|]. cbn [scan]. by rewrite E, IH. Qed.
Lemma scan_last f rb b : (f rb :: scan f rb b) !! length b = Some (f (reverse b ++ rb)).
Proof.
  revert rb. induction b as [|c b IH]; intros rb; [done|]. cbn [scan length lookup list_lookup]. rewrite IH.
  by rewrite reverse_cons, <- app_assoc.
Qed.
Lemma row_rest_scan ca rp rb b :
  row_rest ca (dist (ca :: rp) rb) (dist rp rb) b (scan (dist rp) rb b) = scan (dist (ca :: rp)) rb b.
Proof.
  revert rb. induction b as [|cb b IH]; intros rb; [done|]. cbn [scan row_rest].
  assert (Nat.min (Nat.min (dist (ca :: rp) rb + 1) (dist rp (cb :: rb) + 1)) (dist rp rb + (if (ca =? cb)%Z then 0 else 1))
          = dist (ca :: rp) (cb :: rb)) as ->.
  { rewrite dist_cons. f_equal. lia. }
  f_equal. apply IH.
Qed.
Lemma rows_scan a rp b :
  rows (length rp) a b (dist rp [] :: scan (dist rp) [] b)
  = dist (reverse a ++ rp) [] :: scan (dist (reverse a ++ rp)) [] b.
Proof.
  revert rp. induction a as [|c a IH]; intros rp; [done|]. cbn [rows row].
  assert (length rp + 1 = dist (c :: rp) []) as -> by (rewrite dist_nil_r; cbn; lia).
  rewrite row_rest_scan. specialize (IH (c :: rp)). cbn [length] in IH. rewrite IH. by rewrite reverse_cons, <- app_assoc.
Qed.
Lemma levenshtein_dist a b : levenshtein a b = dist (reverse a) (reverse b).
Proof.
  unfold levenshtein. destruct a as [|x a]; [rewrite dist_nil_l, length_reverse; done|].
  destruct b as [|y b]; [rewrite dist_nil_r, length_reverse; done|].
  generalize (x :: a) (y :: b). clear. intros a b.
  assert (seq 0 (S (length b)) = dist [] [] :: scan (dist []) [] b) as ->.
  { rewrite (scan_ext (dist []) length) by apply dist_nil_l. by rewrite scan_length. }
  pose proof (rows_scan a [] b) as R. cbn [length] in R. rewrite R, scan_last. cbn [default]. by rewrite !app_nil_r.
Qed.

Lemma levenshtein_edits a b : edits a b (levenshtein a b).
Proof.
  rewrite levenshtein_dist. pose proof (edits_reverse _ _ _ (dist_edits (reverse a) (reverse b))) as H.
  by rewrite !reverse_involutive in H.
Qed.
Lemma levenshtein_least a b n : edits a b n → levenshtein a b <= n.
Proof. intros H. rewrite levenshtein_dist. apply dist_least. by apply edits_reverse. Qed.

(** The rolling row computes the edit distance: so many edits turn one text into
    the other, and no fewer do. *)
Theorem levenshtein_is_the_edit_distance a b :
  edits a b (levenshtein a b) ∧ ∀ n, edits a b n → levenshtein a b <= n.
Proof.
  split; [apply levenshtein_edits|apply levenshtein_least].
Qed.

Lemma min_by_key_spec {A} (f : A → nat) l x : min_by_key f l = Some x → x ∈ l ∧ ∀ y, y ∈ l → f x <= f y.
Proof.
  revert x. induction l as [|z l IH]; intros x; [done|]. cbn [min_by_key]. destruct (min_by_key f l) as [y|] eqn:E.
  - destruct (IH y eq_refl) as [Hy Hm]. destruct (Nat.leb_spec (f z) (f y)); intros [= <-]; (split; [rewrite elem_of_cons; auto|]);
      intros w [->|Hw]%elem_of_cons; try lia; specialize (Hm w Hw); lia.
  - destruct l as [|z' l]; [|cbn in E; by destruct (min_by_key f l); [case_match|]]. intros [= <-]. split; [by apply list_elem_of_singleton|].
    by intros y ->%list_elem_of_singleton.
Qed.

(** A metric that is not known is answered with a known one that needs the fewest
    edits. *)
Lemma suggestion_is_closest metric s :
  min_by_key (levenshtein metric) KNOWN_METRICS = Some s →
  s ∈ KNOWN_METRICS ∧ ∀ k n, k ∈ KNOWN_METRICS → edits metric k n → levenshtein metric s <= n.
Proof.
  intros [Hs Hm]%min_by_key_spec. split; [done|]. intros k n Hk He.
  pose proof (levenshtein_least metric k n He). specialize (Hm k Hk). lia.
Qed.

Example kitten : levenshtein (lit "kitten") (lit "sitting") = 3.
Proof. by vm_compute. Qed.
(** The seconds are cut to 32 bits before anything looks at them. *)
Example seconds_wrap :
  tool_history (λ t, t) (λ _ s, Ok (show_nat s)) (λ v, default [] (vget "samples" v ≫= vstr)) VStr
    (VObj [(lit "metric", VStr (lit "sy_cpu_util")); (lit "seconds", VInt 4294967301)]) = Ok (lit "5").
Proof. by vm_compute. Qed.
End MonMcp.

(** ** The stack *)

Module StackMcp.
Import McpServer Store Stack.

Definition tools : list Tool :=
  [mkTool "stack_push" [("kind", "string"); ("name", "string"); ("content", "string"); ("path", "string")] [];
   mkTool "stack_list" [] []; mkTool "stack_get" [("id", "string")] ["id"]; mkTool "stack_remove" [("id", "string")] ["id"]].

Section stack.
(** [serde_json], [fs::canonicalize], and what the calls in order draw: an id, a
    time, and whether the list can be written. *)
Context (from_str : text → result (list Item) text) (to_pretty to_string : list Item → text) (value_text : value → text).
Context (canonicalize : store → path → option path).
Record Draw : Type := mkDraw { new_id : text; now : Z; saved : bool }.
Context (draw : nat → Draw).
Record St : Type := mkSt { disk : Disk; calls : nat }.

Definition parse_kind (t : text) : result Kind text :=
  if bool_decide (t = lit "app") then Ok App else if bool_decide (t = lit "user") then Ok User
  else Err (lit "unknown stack kind: " ++ t ++ lit " (expected app|user)").
Definition obj_text (k : string) (t : text) : text := [123; 34]%Z ++ lit k ++ [34; 58; 34]%Z ++ t ++ [34; 125]%Z.
Definition first_line (content : text) : text := take 40 (default (lit "(content)") (head (lines content))).

(** The item a push makes, before it is added. *)
Definition pushed_item (args : value) (k : Kind) (w : Draw) (d : Disk) : result (Item * Disk) text :=
  let n := vget "name" args ≫= vstr in
  match vget "content" args ≫= vstr with
  | Some content => Ok (push_content k (default (first_line content) n) (as_bytes content) "text" (new_id w) (now w) d)
  | None =>
      match vget "path" args ≫= vstr with
      | Some p =>
          if negb (exists_ (files d) p) then Err (lit "path not found: " ++ p)
          else rbind (push_file canonicalize k (default (default (lit "(file)") (file_name p)) n) p (new_id w) (now w) d)
                 (λ it, Ok (it, d))
      | None => Err (lit "stack_push requires `content` or `path`")
      end
  end.
Definition tool_push (args : value) (s : St) : St * result text text :=
  let w := draw (calls s) in
  let next d := mkSt d (Datatypes.S (calls s)) in
  match parse_kind (default (lit "app") (vget "kind" args ≫= vstr)) with
  | Err e => (next (disk s), Err e)
  | Ok k =>
      match pushed_item args k w (disk s) with
      | Err e => (next (disk s), Err e)
      | Ok (it, d) =>
          match add_item from_str to_pretty (saved w) it d with
          | (Ok (i, _), d) => (next d, Ok (obj_text "id" i))
          | (Err e, d) => (next d, Err e)
          end
      end
  end.
Definition tool_list (_ : value) (s : St) : St * result text text :=
  (s, rbind (load from_str (disk s)) (λ items, Ok (to_string items))).
Definition VPath (p : option path) : value := match p with Some p => VStr p | None => VNull end.
Definition body_of (it : Item) (d : Disk) : text :=
  match ipath it with
  | Some p => match Store.read_to_string (files d) p with Ok t => t | Err _ => lit "(binary file at " ++ p ++ lit ")" end
  | None => from_utf8_lossy (match read_payload (id it) d with Ok b => b | Err _ => [] end)
  end.
Definition item_json (it : Item) (body : text) : value :=
  VObj [(lit "id", VStr (id it)); (lit "kind", VStr (lit (kind_str (kind it)))); (lit "name", VStr (name it));
        (lit "content_kind", VStr (lit (content_kind it))); (lit "size", VInt (size it)); (lit "path", VPath (ipath it));
        (lit "content", VStr body)].
Definition tool_get (args : value) (s : St) : St * result text text :=
  (s, match vget "id" args ≫= vstr with
      | None => Err (lit "missing id")
      | Some i =>
          rbind (load from_str (disk s)) (λ items, rbind (find items i) (λ it,
            Ok (value_text (item_json it (body_of it (disk s))))))
      end).
Definition tool_remove (args : value) (s : St) : St * result text text :=
  let w := draw (calls s) in
  match vget "id" args ≫= vstr with
  | None => (s, Err (lit "missing id"))
  | Some i =>
      match remove from_str to_pretty (saved w) i (disk s) with
      | (Ok _, d) => (mkSt d (Datatypes.S (calls s)), Ok (obj_text "removed" i))
      | (Err e, d) => (mkSt d (Datatypes.S (calls s)), Err e)
      end
  end.
Definition arms : list (string * (value → St → St * result text text)) :=
  [("stack_push", tool_push); ("stack_list", tool_list); ("stack_get", tool_get); ("stack_remove", tool_remove)].
End stack.

(** What is advertised is what is answered. *)
Lemma stack_tools_are_the_arms fs tp ts vt can draw :
  map tool_name tools = map fst (arms fs tp ts vt can draw).
Proof. done. Qed.

Section laws.
Context (from_str : text → result (list Item) text) (to_pretty to_string : list Item → text) (value_text : value → text).
Context (canonicalize : store → path → option path) (draw : nat → Draw).
Context (serde_items : ∀ items, trim (to_pretty items) ≠ [] ∧ from_str (to_pretty items) = Ok items).
Notation tool_push := (tool_push from_str to_pretty canonicalize draw).
Notation tool_get := (tool_get from_str value_text).

Lemma find_elem items it : NoDup (map id items) → it ∈ items → find items (id it) = Ok it.
Proof.
  intros Hn Hi. unfold find. destruct (List.find _ items) as [x|] eqn:E.
  - apply find_some in E as [Hx E]. apply bool_decide_eq_true in E. f_equal. apply list_elem_of_In in Hx.
    by eapply NoDup_id_inj.
  - exfalso. apply list_elem_of_In in Hi. pose proof (find_none _ _ E it Hi) as H. by rewrite bool_decide_eq_false in H.
Qed.

(** A text that a client pushes is the text it gets back under the id it was
    given, with its name and kind, as long as fewer than eight items of the pool
    are as new. *)
Theorem pushed_text_is_got args content items (s : St) :
  let w := draw (calls s) in
  let k := default (lit "app") (vget "kind" args ≫= vstr) in
  tidy from_str items (disk s) → new_id w ∉ map id items → saved w = true →
  vget "content" args ≫= vstr = Some content → Forall is_char content →
  ∀ kd, parse_kind k = Ok kd →
  let it := mkItem (new_id w) kd None (default (first_line content) (vget "name" args ≫= vstr)) (now w) "text"
              (Z.of_nat (length (as_bytes content))) in
  length (rivals it items) < 8 →
  ∃ s', tool_push args s = (s', Ok (obj_text "id" (new_id w)))
    ∧ tool_get (VObj [(lit "id", VStr (new_id w))]) s' = (s', Ok (value_text (item_json it content))).
Proof.
  cbn zeta. intros (Hl & Hn & Hb) Hf Hs Hc Hch kd Hk Hr. unfold StackMcp.tool_push. rewrite Hk. unfold pushed_item. rewrite Hc, Hs.
  cbn [push_content]. set (it := mkItem _ kd None _ _ _ _) in *. set (d1 := set_blobs _ (disk s)).
  destruct (add_item_eq from_str to_pretty it items d1 Hl) as (items' & out & -> & Ho & _ & _ & Hp).
  assert (id it ∉ map id out) as Hio by (rewrite Ho, pushed_is_dropped by done; lia).
  eexists. split; [done|]. unfold StackMcp.tool_get. cbn [disk]. f_equal.
  assert (vget "id" (VObj [(lit "id", VStr (new_id (draw (calls s))))]) ≫= vstr = Some (id it)) as -> by (by vm_compute).
  rewrite (load_saved from_str to_pretty serde_items). cbn [rbind].
  assert (NoDup (map id (items ++ [it]))) as Hn2.
  { rewrite map_app. apply NoDup_app. split_and!; [done| |apply NoDup_singleton].
    intros x Hx ->%list_elem_of_singleton. done. }
  assert (it ∈ items') as Hi.
  { assert (it ∈ out ++ items') as H by (rewrite <- Hp; apply elem_of_app; right; by apply list_elem_of_singleton).
    apply elem_of_app in H as [H|H]; [|done]. destruct Hio. by apply list_elem_of_fmap_2. }
  rewrite Hp, map_app in Hn2. apply NoDup_app in Hn2 as (_ & _ & Hn2). rewrite (find_elem items' it Hn2 Hi). cbn [rbind].
  do 2 f_equal. unfold body_of. cbn [ipath]. unfold read_payload, set_items. cbn [blobs].
  rewrite blobs_deleted_lookup, decide_False by done. unfold d1, set_blobs. cbn [blobs id it]. rewrite lookup_insert_eq.
  by rewrite from_utf8_as_bytes.
Qed.
End laws.
End StackMcp.

(** ** The file manager *)

Module FileMcp.
Import McpServer.

Definition CONFLICT : list (string * string) := [("sources", "array"); ("dest", "string"); ("conflict", "string")].
Definition tools : list Tool :=
  [mkTool "file_list" [("path", "string"); ("include_hidden", "boolean"); ("limit", "integer"); ("offset", "integer")] ["path"];
   mkTool "file_open" [("path", "string")] ["path"];
   mkTool "file_copy" CONFLICT ["sources"; "dest"]; mkTool "file_move" CONFLICT ["sources"; "dest"];
   mkTool "file_trash" [("paths", "array")] ["paths"]; mkTool "file_restore" [("trashed_path", "string")] ["trashed_path"];
   mkTool "file_search" [("query", "string"); ("root", "string"); ("knowledge", "boolean")] ["query"; "root"];
   mkTool "file_preview" [("path", "string"); ("max_width", "integer"); ("max_height", "integer")] ["path"];
   mkTool "file_select" [("paths", "array"); ("mode", "string")] ["paths"; "mode"];
   mkTool "file_ops_list" [] []; mkTool "file_op_cancel" [("op_id", "integer")] ["op_id"]].

(** [FileDaemonClient], on the state of the daemon. *)
Class FileDaemonClient (S : Type) : Type := call : string → value → S → S * result value text.

Section file.
Context {S : Type} `{!FileDaemonClient S} (to_string : value → text).

Definition forward (m : string) (args : value) (s : S) : S * result value text := call m args s.
Definition path_param (p : value) : value := VObj [(lit "path", p)].
(** The second half of [tool_list], when the daemon has no [file.list]. *)
Definition list_by_state (p : value) (s : S) : S * result value text :=
  match call "file.open" (path_param p) s with
  | (s, Err e) => (s, Err e)
  | (s, Ok _) =>
      let '(s, _) := call "file.cd" (path_param p) s in
      match call "file.state" (VObj []) s with
      | (s, Err e) => (s, Err e)
      | (s, Ok state) => (s, Ok (VObj [(lit "entries", default (VArr []) (vget "entries" state))]))
      end
  end.
Definition tool_list (args : value) (s : S) : S * result value text :=
  match vget "path" args with
  | None => (s, Err (lit "file_list: missing path"))
  | Some p =>
      match call "file.list" (path_param p) s with
      | (s, Ok r) => match vget "entries" r with Some _ => (s, Ok r) | None => list_by_state p s end
      | (s, Err _) => list_by_state p s
      end
  end.
Definition arms : list (string * (value → S → S * result value text)) :=
  [("file_list", tool_list); ("file_open", forward "file.open"); ("file_copy", forward "file.copy");
   ("file_move", forward "file.move"); ("file_trash", forward "file.trash"); ("file_restore", forward "file.restore");
   ("file_search", forward "file.search"); ("file_preview", forward "file.preview"); ("file_select", forward "file.select");
   ("file_ops_list", forward "file.ops_list"); ("file_op_cancel", forward "file.op_cancel")].
Definition wrap_ok (payload : value) : value :=
  VObj (text_content (to_string payload) false ++ [(lit "structuredContent", payload)]).
Definition wrap_err (m : text) : value := VObj (text_content m true).
Definition call_tool (p : value) (s : S) : S * result value text :=
  match vget "name" p ≫= vstr with
  | None => (s, Err (lit "tools/call missing name"))
  | Some n =>
      match arm arms n with
      | None => (s, Err (unknown_tool n))
      | Some tool =>
          match tool (tool_args p) s with
          | (s, Ok payload) => (s, Ok (wrap_ok payload))
          | (s, Err e) => (s, Ok (wrap_err e))
          end
      end
  end.

Lemma advertised_tools_are_the_arms : map tool_name tools = map fst arms.
Proof. done. Qed.
(** An error frame says that the call itself was wrong: a failure of the daemon
    comes back as the answer of the tool. *)
Lemma errors_are_of_the_protocol p s e :
  (call_tool p s).2 = Err e ↔
  match vget "name" p ≫= vstr with
  | None => e = lit "tools/call missing name"
  | Some n => n ∉ map (λ t, lit (tool_name t)) tools ∧ e = unknown_tool n
  end.
Proof.
  unfold call_tool. destruct (vget "name" p ≫= vstr) as [n|]; cbn [snd]; [|split; [by intros [= <-]|by intros ->]].
  pose proof (arm_None arms n) as Ha. rewrite <- (map_map fst lit), <- advertised_tools_are_the_arms, map_map in Ha.
  destruct (arm arms n) as [tool|]; cbn [snd].
  - destruct (tool _ s) as [s' [v|e']]; cbn [snd]; (split; [done|]); intros [Hn _]; apply Ha in Hn; done.
  - split; [intros [= <-]; split; [by apply Ha|done]|by intros [_ ->]].
Qed.

(** Of a daemon that does not know [file.list], and whose state names no entries,
    a listing that succeeds has none, whatever the directory holds. *)
Theorem listings_are_empty args s r s' :
  (∀ p s, ∃ e, (call "file.list" p s).2 = Err e) →
  (∀ s v, (call "file.state" (VObj []) s).2 = Ok v → vget "entries" v = None) →
  tool_list args s = (s', Ok r) → r = VObj [(lit "entries", VArr [])].
Proof.
  intros Hl Hs. unfold tool_list. destruct (vget "path" args) as [p|]; [|done].
  destruct (call "file.list" _ s) as [s1 d] eqn:El.
  assert (∃ e, d = Err e) as [e ->] by (destruct (Hl (path_param p) s) as [e H]; rewrite El in H; by exists e).
  unfold list_by_state. destruct (call "file.open" _ s1) as [s2 [o|o]]; [|done].
  destruct (call "file.cd" _ s2) as [s3 c]. destruct (call "file.state" _ s3) as [s4 [v|v]] eqn:Ev; [|done].
  intros [= _ <-]. rewrite (Hs s3 v) by (by rewrite Ev). done.
Qed.
End file.

(** The daemon of this repository is such a one: its twelve methods lack
    [file.list], and its state is a directory, a selection and a mode
    ([file/ipc.rs]). It is a state here, the directory it is in. *)
#[local] Instance daemon : FileDaemonClient text := λ m p s,
  if String.eqb m "file.state" then (s, Ok (VObj [(lit "cwd", VStr s); (lit "selection", VArr []); (lit "mode", VStr (lit "normal"))]))
  else if existsb (String.eqb m) ["file.open"; "file.cd"]
  then (default s (vget "path" p ≫= vstr), Ok (VObj [(lit "ok", VBool true)]))
  else (s, Err (lit "unknown method")).
Lemma listings_are_empty_witness :
  tool_list (VObj [(lit "path", VStr (lit "/etc"))]) (lit "/") = (lit "/etc", Ok (VObj [(lit "entries", VArr [])]))
  ∧ VObj [(lit "entries", VArr [])] = VObj [(lit "entries", VArr [])].
Proof.
  assert (tool_list (VObj [(lit "path", VStr (lit "/etc"))]) (lit "/") = (lit "/etc", Ok (VObj [(lit "entries", VArr [])]))) as H
    by (by vm_compute).
  split; [exact H|]. refine (listings_are_empty _ _ _ _ _ _ H).
  - intros p s. by exists (lit "unknown method").
  - intros s v [= <-]. done.
Defined.
End FileMcp.

(** ** Knowledge *)

Module KnowMcp.
Import McpServer KIndex KFilter KSearch Sources KState.

Definition MAX_LIMIT : Z := 20.
Definition MAX_CANDIDATES : Z := 64.
Definition MAX_CHUNK_CHARS : nat := 2000.
Definition ABSTAIN_REASON : text := lit "no high-confidence match".
Definition tools : list Tool :=
  [mkTool "knowledge_search"
     [("query", "string"); ("limit", "integer"); ("source", "string"); ("rerank", "boolean"); ("candidates", "integer");
      ("date_from", "string"); ("date_to", "string"); ("from", "array"); ("kind", "array"); ("include_sources", "array");
      ("exclude_sources", "array"); ("abstain_threshold", "number")] ["query"];
   mkTool "knowledge_get_chunk" [("chunk_id", "string")] ["chunk_id"]; mkTool "knowledge_list_sources" [] [];
   mkTool "knowledge_index" [("source", "string")] []].

Definition filled (t : text) : option text := match t with [] => None | _ => Some t end.
Definition str_list (args : value) (key : string) : list text :=
  match vget key args with
  | Some (VArr a) => omap (λ v, vstr v ≫= filled) a
  | Some (VStr s) => match s with [] => [] | _ => [s] end
  | _ => []
  end.
(** What [sources::load] gives is the argument [section]. *)
Definition search_filter_from_args (section : option KnowledgeSection) (args : value) : SearchFilter :=
  let opt_str k := (vget k args ≫= vstr) ≫= filled in
  let include := str_list args "include_sources" in
  build_search_filter (opt_str "date_from") (opt_str "date_to") (str_list args "from") (str_list args "kind") include
    (str_list args "exclude_sources") (include_opts_into_excluded_kinds section include).

(** The request of a search, and what comes back. *)
Record Query : Type := mkQuery {
  query : text; limit : Z; prefix : option text; rerank : bool; candidates : Z; filter_ : SearchFilter; abstain_threshold : option Z
}.
Record Outcome : Type := mkOutcome { hits : list HitRow; confidence : Z; abstained : bool }.
Inductive Reply : Type :=
| RSearch (hits : list HitRow) (confidence : Z) (abstained : bool)
| RError (msg : text)
| ROther (shown : text)
| RDown
| RWire (e : text).

Definition LEADS : list text :=
  map lit ["what "; "who "; "whom "; "whose "; "where "; "when "; "why "; "how "; "which "; "should "; "could "; "would "; "can i";
           "can you"; "do i"; "do you"; "does "; "is there"; "are there"; "tell me"; "find out"; "help me"; "i want to know";
           "i need to know"].
(** [truncate_chars]. *)
Definition truncate_chars (s : text) (max : nat) : text * bool :=
  if max <? length s then (take max s ++ [8230%Z], true) else (s, false).
(** [cli::ChunkRow]. *)
Record ChunkRow : Type := mkChunk {
  chunk_id : text; file_path : text; chunk_index : Z; ckind : text; source_name : text; ctext : text
}.

Section know.
(** [str::to_lowercase], [serde_json], [Value::as_f64] with [as f32], and the
    directories of the paths. *)
Context (to_lowercase : text → text) (to_string : value → text) (as_f32 : value → option Z) (vf32 : Z → value) (home cwd : option path).
Context (QUERY_HINT : text).

(** [cli::search_outcome_filtered]: [alive] is whether the daemon's status is
    fresh and it runs, [request] its answer. *)
Definition search_outcome_filtered (alive : bool) (request : Query → Reply) (q : Query) : result Outcome text :=
  if negb alive then
    Err (lit "sy-knowledge daemon is not running " ++ [8212%Z] ++ lit " start it with `systemctl --user start sy-knowledge.service` (or `sy knowledge install-service` for first-time setup)")
  else
    match request q with
    | RSearch h c a => Ok (mkOutcome h c a)
    | RError m => Err (lit "daemon: " ++ m)
    | ROther s => Err (lit "daemon: unexpected response " ++ s)
    | RDown => Err (lit "daemon socket disappeared between liveness probe and request")
    | RWire _ => Err (lit "ipc request")
    end.

Definition query_of (section : option KnowledgeSection) (args : value) : result Query text :=
  match vget "query" args ≫= vstr with
  | None => Err (lit "missing query")
  | Some q =>
      Ok (mkQuery q (Z.min (default 8 (vget "limit" args ≫= MonMcp.vu64)) MAX_LIMIT)
            (match vget "source" args ≫= vstr with
             | Some s => match expand home cwd s with Ok p => Some p | Err _ => None end
             | None => None
             end)
            (default true (vget "rerank" args ≫= (λ v, match v with VBool b => Some b | _ => None end)))
            (Z.min (default 30 (vget "candidates" args ≫= MonMcp.vu64)) MAX_CANDIDATES)
            (search_filter_from_args section args) (vget "abstain_threshold" args ≫= as_f32))%Z
  end.
Definition looks_like_raw_question (q : text) : bool :=
  match trim q with
  | [] => false
  | t => ends_with t [63%Z] || existsb (starts_with (to_lowercase t)) LEADS
  end.
Definition hint_field (h : option text) : list (text * value) :=
  match h with Some t => [(lit "query_hint", VStr t)] | None => [] end.
(** A row of the envelope. *)
Definition hit_json (h : HitRow) : value :=
  let '(t, cut) := truncate_chars (row_text h) MAX_CHUNK_CHARS in
  VObj ([(lit "chunk_id", VStr (lit (row_id h))); (lit "score", vf32 (score h)); (lit "file_path", VStr (row_file h));
         (lit "chunk_index", VInt (row_chunk h)); (lit "chunk_text", VStr t)]
        ++ (if cut then [(lit "truncated", VBool true); (lit "chunk_chars", VInt (Z.of_nat (length (row_text h))))] else [])
        ++ match embed_score h with Some e => [(lit "embed_score", vf32 e)] | None => [] end).
Definition envelope (hs : list HitRow) (conf : Z) (hint : option text) : value :=
  VObj ([(lit "confidence", vf32 conf); (lit "abstained", VBool false); (lit "total", VInt (Z.of_nat (length hs)));
         (lit "results", VArr (map hit_json hs))] ++ hint_field hint).
Definition search_envelope (hs : list HitRow) (conf : Z) (hint : option text) : text := to_string (envelope hs conf hint).
Definition abstain_envelope (conf : Z) (hint : option text) : value :=
  VObj ([(lit "results", VArr []); (lit "abstained", VBool true); (lit "reason", VStr ABSTAIN_REASON); (lit "confidence", vf32 conf)]
        ++ hint_field hint).
Definition tool_search (section : option KnowledgeSection) (outcome : Query → result Outcome text) (args : value) : result text text :=
  rbind (query_of section args) (λ q,
  rbind (outcome q) (λ o,
    let hint := if looks_like_raw_question (query q) then Some QUERY_HINT else None in
    Ok (if abstained o then to_string (abstain_envelope (confidence o) hint) else search_envelope (hits o) (confidence o) hint))).

Definition chunk_json (c : ChunkRow) : value :=
  let k := (lit "kind", VStr (ckind c)) in
  let n := (lit "source_name", VStr (source_name c)) in
  VObj [(lit "chunk_id", VStr (chunk_id c)); (lit "file_path", VStr (file_path c)); (lit "chunk_index", VInt (chunk_index c));
        k; n; (lit "payload", VObj [k; n]); (lit "text", VStr (ctext c))].
Definition tool_get_chunk (get_chunk_row : text → result (option ChunkRow) text) (args : value) : result text text :=
  match (vget "chunk_id" args ≫= vstr) ≫= filled with
  | None => Err (lit "missing chunk_id")
  | Some i =>
      rbind (get_chunk_row i) (λ c,
        Ok (to_string (match c with None => VObj [(lit "chunk", VNull)] | Some c => chunk_json c end)))
  end.

Definition resolved (s : Source) : text := match expand home cwd (spath s) with Ok p => p | Err _ => spath s end.
(** The latest of the files whose path begins with a text, 0 when there is none. *)
Definition last_indexed (idx : Index) (r : text) : Z :=
  foldr Z.max 0%Z (omap (λ kx : text * FileEntry, if starts_with kx.1 r then Some (mtime kx.2) else None) (map_to_list (KState.files idx))).
Definition source_json (idx : Index) (s : Source) : value :=
  VObj [(lit "path", VStr (spath s)); (lit "resolved", VStr (resolved s)); (lit "enabled", VBool (enabled s));
        (lit "last_indexed_unix", VInt (last_indexed idx (resolved s)))].
Definition tool_list (section : result KnowledgeSection text) (idx : Index) (points : option Z) : result text text :=
  rbind section (λ k,
    Ok (to_string (VObj [(lit "qdrant_points", VInt (default 0%Z points)); (lit "sources", VArr (map (source_json idx) (sources k)))]))).

(** [tool_index]: what the daemon is sent, or what a pass made here reports, with
    the milliseconds it took. *)
Definition NOTE : text :=
  lit "incremental index running on the knowledge daemon; poll `knowledge_list_sources` or `sy knowledge status` for progress".
Definition tool_index (daemon_running : bool) (send_index_now : result unit text) (inline : option path → result (IndexReport * Z) text)
    (args : value) : result text text :=
  let src := match vget "source" args ≫= vstr with
             | Some s => match expand home cwd s with Ok p => Some p | Err _ => None end
             | None => None
             end in
  if negb (bool_decide (is_Some src)) && daemon_running then
    match send_index_now with
    | Err _ => Err (lit "send IndexNow to daemon")
    | Ok _ => Ok (to_string (VObj [(lit "queued", VBool true); (lit "daemon", VBool true); (lit "note", VStr NOTE)]))
    end
  else
    rbind (inline src) (λ '(r, ms),
      let n k x := (lit k, VInt (Z.of_nat x)) in
      Ok (to_string (VObj [(lit "queued", VBool false); n "scanned" (scanned r); n "indexed" (indexed r); n "skipped" (skipped r);
                           n "deleted" (deleted r); (lit "elapsed_ms", VInt ms)]))).

(** *** What it promises *)
Lemma truncate_chars_spec t n :
  let '(r, cut) := truncate_chars t n in
  length r <= n + 1 ∧ (cut = false → r = t) ∧ (cut = true → n < length t ∧ take n t `prefix_of` t ∧ r = take n t ++ [8230%Z]).
Proof.
  unfold truncate_chars. destruct (Nat.ltb_spec n (length t)); split_and!; try done; try lia.
  - rewrite length_app, length_take. cbn. lia.
  - intros _. split_and!; [done|apply prefix_take|done].
Qed.

(** The text of a row as the client sees it. *)
Definition shown_text (row : value) : option text := vget "chunk_text" row ≫= vstr.
Lemma shown_text_hit h : shown_text (hit_json h) = Some (truncate_chars (row_text h) MAX_CHUNK_CHARS).1.
Proof.
  unfold hit_json, shown_text. destruct (truncate_chars _ _) as [t cut]. generalize (vf32 (score h)). intros v. by vm_compute.
Qed.
Definition rows_of (env : value) : list value := match vget "results" env with Some (VArr l) => l | _ => [] end.
Lemma rows_of_envelope hs c hint : rows_of (envelope hs c hint) = map hit_json hs.
Proof. unfold rows_of, envelope. generalize (map hit_json hs), (vf32 c). intros l v. by vm_compute. Qed.

(** Whatever a client asks for, the daemon is asked for at most twenty rows out of
    at most sixty-four candidates, and the answer shows one row per hit, each with
    at most two thousand characters and a mark; a chunk that fits is shown whole. *)
Theorem responses_are_bounded section args q hs c hint :
  query_of section args = Ok q →
  (limit q <= 20 ∧ candidates q <= 64)%Z
  ∧ length (rows_of (envelope hs c hint)) = length hs
  ∧ ∀ row, row ∈ rows_of (envelope hs c hint) →
      ∃ h t, h ∈ hs ∧ row = hit_json h ∧ shown_text row = Some t ∧ length t <= 2001
             ∧ (length (row_text h) <= 2000 → t = row_text h).
Proof.
  unfold query_of. destruct (vget "query" args ≫= vstr) as [s|]; [|done]. intros [= <-]. cbn [limit candidates].
  split_and!; [unfold MAX_LIMIT; lia|unfold MAX_CANDIDATES; lia|by rewrite rows_of_envelope, length_map|].
  rewrite rows_of_envelope. intros row (h & -> & Hh)%list_elem_of_fmap. exists h, (truncate_chars (row_text h) MAX_CHUNK_CHARS).1.
  pose proof (truncate_chars_spec (row_text h) MAX_CHUNK_CHARS) as H.
  destruct (truncate_chars (row_text h) MAX_CHUNK_CHARS) as [t cut] eqn:E. destruct H as (H1 & H2 & H3).
  split_and!; [done|done|by rewrite shown_text_hit, E|exact H1|]. intros Hl. cbn [fst]. destruct cut; [|by apply H2].
  destruct (H3 eq_refl) as [Hlt _]. unfold MAX_CHUNK_CHARS in Hlt. lia.
Qed.

(** Without a kind or a source to bring them back, a search leaves both kinds of
    the agents' own records out. *)
Lemma agents_are_out_by_default section args q :
  query_of section args = Ok q → vget "kind" args = None → vget "include_sources" args = None →
  exclude_kinds (filter_ q) = DEFAULT_EXCLUDED_KINDS.
Proof.
  unfold query_of. destruct (vget "query" args ≫= vstr) as [s|]; [|done]. intros [= <-] Hk Hi. cbn [filter_].
  unfold search_filter_from_args, str_list. by rewrite Hk, Hi.
Qed.
End know.

(** The search is documented to take eight candidates by default; it takes 30. *)
Example thirty_candidates :
  candidates <$> (match query_of (λ _, None) None None None (VObj [(lit "query", VStr (lit "x"))]) with Ok q => Some q | Err _ => None end)
  = Some 30%Z.
Proof. by vm_compute. Qed.

(** A source is shown as indexed when only a directory whose name begins with its
    own was. *)
Example sibling_counts :
  last_indexed (set_files {[lit "/home/u/notes-old/a" := mkEntry 7 "h" []]} default_index) (lit "/home/u/notes") = 7%Z.
Proof. by vm_compute. Qed.
End KnowMcp.
