(* ===== verification/Markdown.v ===== *)
(** * Markdown previews

    [crates/sy-plugin-md/src/render.rs]: the reduction of a document to the blocks
    of its preview ([parse_blocks]), the size of the image, and the writing of its
    pixels. The parser is [pulldown_cmark]'s, whose events are the input and whose
    list numbers have at most nine digits; the shaping of text is [cosmic_text]'s,
    and the layout in floating point, which hands the drawing its corners, is left
    out. *)

From S2P Require Import Prelude Text Paths.
Import Text Paths.
Local Open Scope string_scope.
Local Open Scope list_scope.
Local Open Scope Z_scope.

Module Md.

Inductive InlineStyle : Type := Plain | Bold | Code | Link.
#[export] Instance InlineStyle_eq_dec : EqDecision InlineStyle.
Proof. solve_decision. Defined.
Record InlineSpan : Type := mkSpan { text_ : text; style : InlineStyle }.
Inductive Block : Type :=
| BHeading (level : Z) (t : text)
| BParagraph (spans : list InlineSpan)
| BCode (body : text)
| BListItem (ordinal : option Z) (spans : list InlineSpan)
| BQuote (spans : list InlineSpan)
| BRule
| BImage (alt : text).

(** The tags that the code tells apart, and the events. *)
Inductive HeadingLevel : Type := H1 | H2 | H3 | H4 | H5 | H6.
Definition heading_level_to_u8 (l : HeadingLevel) : Z :=
  match l with H1 => 1 | H2 => 2 | H3 => 3 | H4 => 4 | H5 => 5 | H6 => 6 end.
Inductive Tag : Type :=
| THeading (l : HeadingLevel) | TParagraph | TCodeBlock | TList (start : option Z) | TItem | TBlockQuote | TEmphasis | TStrong
| TLink | TImage | TOther.
Inductive Event : Type :=
| Start (t : Tag) | End_ (t : Tag) | Text_ (t : text) | ECode (t : text) | SoftBreak | HardBreak | ERule | EOther.

(** The variables of [parse_blocks]. *)
Record State : Type := mkState {
  blocks : list Block; inlines : list InlineSpan; style_stack : list InlineStyle; in_code_block : bool; code_buf : text;
  heading_level : option Z; heading_text : text; in_list_item : bool; list_ordinal : option Z; in_blockquote : bool;
  in_image : bool; image_alt : text
}.
Definition initial : State := mkState [] [] [Plain] false [] None [] false None false false [].
Definition push (b : Block) (s : State) : State :=
  mkState (blocks s ++ [b]) (inlines s) (style_stack s) (in_code_block s) (code_buf s) (heading_level s) (heading_text s)
    (in_list_item s) (list_ordinal s) (in_blockquote s) (in_image s) (image_alt s).
Definition set_inlines (l : list InlineSpan) (s : State) : State :=
  mkState (blocks s) l (style_stack s) (in_code_block s) (code_buf s) (heading_level s) (heading_text s)
    (in_list_item s) (list_ordinal s) (in_blockquote s) (in_image s) (image_alt s).
Definition set_styles (l : list InlineStyle) (s : State) : State :=
  mkState (blocks s) (inlines s) l (in_code_block s) (code_buf s) (heading_level s) (heading_text s)
    (in_list_item s) (list_ordinal s) (in_blockquote s) (in_image s) (image_alt s).
Definition set_code (b : bool) (t : text) (s : State) : State :=
  mkState (blocks s) (inlines s) (style_stack s) b t (heading_level s) (heading_text s)
    (in_list_item s) (list_ordinal s) (in_blockquote s) (in_image s) (image_alt s).
Definition set_heading (l : option Z) (t : text) (s : State) : State :=
  mkState (blocks s) (inlines s) (style_stack s) (in_code_block s) (code_buf s) l t
    (in_list_item s) (list_ordinal s) (in_blockquote s) (in_image s) (image_alt s).
Definition set_list (item : bool) (o : option Z) (s : State) : State :=
  mkState (blocks s) (inlines s) (style_stack s) (in_code_block s) (code_buf s) (heading_level s) (heading_text s)
    item o (in_blockquote s) (in_image s) (image_alt s).
Definition set_quote (b : bool) (s : State) : State :=
  mkState (blocks s) (inlines s) (style_stack s) (in_code_block s) (code_buf s) (heading_level s) (heading_text s)
    (in_list_item s) (list_ordinal s) b (in_image s) (image_alt s).
Definition set_image (b : bool) (t : text) (s : State) : State :=
  mkState (blocks s) (inlines s) (style_stack s) (in_code_block s) (code_buf s) (heading_level s) (heading_text s)
    (in_list_item s) (list_ordinal s) (in_blockquote s) b t.

(** The stack's end is its list's head. *)
Definition current_style (s : State) : InlineStyle := default Plain (head (style_stack s)).
Definition add_span (t : text) (st : InlineStyle) (s : State) : State := set_inlines (inlines s ++ [mkSpan t st]) s.
(** [str::trim_end_matches] on line ends. *)
Fixpoint trim_end_nl (t : text) : text :=
  match t with
  | [] => []
  | c :: t => match trim_end_nl t with [] => if c =? 10 then [] else [c] | r => c :: r end
  end.
Definition in_heading (s : State) : bool := bool_decide (is_Some (heading_level s)).

(** One turn of the loop. *)
Definition on_event (s : State) (e : Event) : State :=
  match e with
  | Start (THeading l) => set_heading (Some (heading_level_to_u8 l)) [] s
  | End_ (THeading _) =>
      match heading_level s with
      | Some l => push (BHeading l (heading_text s)) (set_heading None [] s)
      | None => s
      end
  | Start TParagraph => set_inlines [] s
  | End_ TParagraph =>
      if in_blockquote s then push (BQuote (inlines s)) (set_inlines [] s)
      else if negb (in_list_item s) then push (BParagraph (inlines s)) (set_inlines [] s)
      else s
  | Start TCodeBlock => set_code true [] s
  | End_ TCodeBlock => push (BCode (trim_end_nl (code_buf s))) (set_code false [] s)
  | Start (TList start) => set_list (in_list_item s) start s
  | End_ (TList _) => set_list (in_list_item s) None s
  | Start TItem => set_inlines [] (set_list true (list_ordinal s) s)
  | End_ TItem =>
      push (BListItem (list_ordinal s) (inlines s)) (set_inlines [] (set_list false ((λ o, o + 1) <$> list_ordinal s) s))
  | Start TBlockQuote => set_quote true s
  | End_ TBlockQuote => set_quote false s
  | Start TEmphasis | Start TStrong => set_styles (Bold :: style_stack s) s
  | End_ TEmphasis | End_ TStrong => set_styles (tail (style_stack s)) s
  | Start TLink => set_styles (Link :: style_stack s) s
  | End_ TLink => set_styles (tail (style_stack s)) s
  | Start TImage => set_image true [] s
  | End_ TImage => push (BImage (image_alt s)) (set_image false [] s)
  | Text_ t =>
      if in_image s then set_image true (image_alt s ++ t) s
      else if in_code_block s then set_code true (code_buf s ++ t) s
      else if in_heading s then set_heading (heading_level s) (heading_text s ++ t) s
      else add_span t (current_style s) s
  | ECode t =>
      if in_heading s then set_heading (heading_level s) (heading_text s ++ t) s
      else if in_image s then set_image true (image_alt s ++ t) s
      else add_span t Code s
  | SoftBreak | HardBreak =>
      if in_code_block s then set_code true (code_buf s ++ [10]) s
      else if in_heading s then set_heading (heading_level s) (heading_text s ++ [32]) s
      else if negb (in_image s) then add_span [32] (current_style s) s
      else s
  | ERule => push BRule s
  | Start TOther | End_ TOther | EOther => s
  end.
Definition parse_blocks (es : list Event) : list Block := blocks (foldl on_event initial es).

(** ** The size of the image *)

Definition CONTENT_WIDTH_PX : Z := 800.
Definition MARGIN_PX : Z := 32.
Definition SCROLL_LINE_PX : Z := 24.
(** [BODY_FONT_PX as u32]. *)
Definition BODY_FONT : Z := 16.
Record RenderOpts : Type := mkOpts { scroll_skip : Z; width_px : Z; max_height_px : Z }.
Definition default_opts : RenderOpts := mkOpts 0 CONTENT_WIDTH_PX 4096.
Definition u32_max : Z := U32_MOD - 1.
Definition scroll_y (o : RenderOpts) : Z := Z.min u32_max (scroll_skip o * SCROLL_LINE_PX).
(** The content's width, and the height shown of a document of this height. *)
Definition content_width (o : RenderOpts) : Z := Z.max 64 (Z.max 0 (width_px o - MARGIN_PX * 2)).
Definition visible_height (total_height : Z) (o : RenderOpts) : Z :=
  Z.max (BODY_FONT * 2) (Z.min (max_height_px o) (Z.max 0 (total_height - scroll_y o))).

(** The corners of [fill_rect] as integers, cut to the image; the index of the
    first byte of a pixel; the pixels of a rectangle by rows. *)
Definition clip (lo hi bound : Z) : Z * Z := (Z.max 0 lo, Z.min hi bound).
Definition pixel_index (width x y : Z) : Z := y * (width * 4) + x * 4.
Definition cells (x0 x1 y0 y1 : Z) : list (Z * Z) := flat_map (λ y, map (λ x, (x, y)) (seqZ x0 (x1 - x0))) (seqZ y0 (y1 - y0)).
Record Rgba : Type := mkRgba { cr : Z; cg : Z; cb : Z; ca : Z }.
(** The change of a pixel's bytes, and of each pixel of a list. *)
Definition channel (data : list Z) (i : nat) : Z := nth i data 0.
Definition write_pixel (f : nat → Z → Z) (data : list Z) (i : nat) : list Z :=
  foldl (λ data k, <[i + k := f k (channel data (i + k))]>%nat data) data [0; 1; 2; 3]%nat.
Definition write_cells (f : nat → Z → Z) (width : Z) (l : list (Z * Z)) (data : list Z) : list Z :=
  foldl (λ data xy, write_pixel f data (Z.to_nat (pixel_index width xy.1 xy.2))) data l.
Definition pick (c : Rgba) (k : nat) : Z := match k with 0%nat => cr c | 1%nat => cg c | 2%nat => cb c | _ => ca c end.
Definition fill_rect (w h x0 y0 x1 y1 : Z) (r g b : Z) (data : list Z) : list Z :=
  let '(x0, x1) := clip x0 x1 w in
  let '(y0, y1) := clip y0 y1 h in
  if (x1 <=? x0) || (y1 <=? y0) then data else write_cells (λ k _, pick (mkRgba r g b 255) k) w (cells x0 x1 y0 y1) data.

(** A channel under a colour of this coverage. *)
Definition over (c d af : Z) : Z := (c * af + d * (255 - af)) / 255.
Definition blend (c : Rgba) (k : nat) (d : Z) : Z := if (k <? 3)%nat then over (pick c k) d (ca c) else Z.min 255 (d + ca c).
(** [x + w] does not leave [i32]: both are within a page. *)
Definition blit_glyph (pw ph x y w h : Z) (c : Rgba) (data : list Z) : list Z :=
  if (pw <=? x) || (ph <=? y) || (x + w <=? 0) || (y + h <=? 0) then data
  else if ca c =? 0 then data
  else write_cells (blend c) pw
         (List.filter (λ xy, (0 <=? xy.1) && (xy.1 <? pw) && (0 <=? xy.2) && (xy.2 <? ph)) (cells x (x + w) y (y + h))) data.

Lemma visible_height_bounds h o :
  32 <= max_height_px o → 32 <= visible_height h o <= max_height_px o.
Proof. unfold visible_height, BODY_FONT. lia. Qed.
(** A write inside the image is inside its bytes. *)
Lemma cell_in_bounds w h x y :
  0 <= x < w → 0 <= y < h → 0 <= pixel_index w x y ∧ pixel_index w x y + 3 < w * h * 4.
Proof. unfold pixel_index. intros Hx Hy. nia. Qed.
Lemma elem_of_cells x0 x1 y0 y1 p : In p (cells x0 x1 y0 y1) ↔ x0 <= p.1 < x1 ∧ y0 <= p.2 < y1.
Proof.
  unfold cells. rewrite in_flat_map. split.
  - intros (y & Hy & H). apply in_map_iff in H as (x & <- & Hx). apply list_elem_of_In, elem_of_seqZ in Hy, Hx. cbn. lia.
  - destruct p as [x y]. cbn. intros [Hx Hy]. exists y. split; [apply list_elem_of_In, elem_of_seqZ; lia|].
    apply in_map_iff. exists x. split; [done|]. apply list_elem_of_In, elem_of_seqZ. lia.
Qed.

(** The bytes of an image: as many as it needs, each of eight bits. *)
Definition pix_ok (w h : Z) (data : list Z) : Prop := Z.of_nat (length data) = w * h * 4 ∧ Forall (λ b, 0 <= b <= 255) data.
Definition byte_map (f : nat → Z → Z) : Prop := ∀ k d, 0 <= d <= 255 → 0 <= f k d <= 255.
Lemma channel_ok w h data i : pix_ok w h data → 0 <= channel data i <= 255.
Proof.
  intros [_ Hf]. unfold channel. destruct (nth_in_or_default i data 0) as [Hi| ->]; [|lia].
  rewrite List.Forall_forall in Hf. by apply Hf.
Qed.
Lemma write_pixel_ok f w h data i : byte_map f → pix_ok w h data → pix_ok w h (write_pixel f data i).
Proof.
  intros Hf. unfold write_pixel. generalize [0; 1; 2; 3]%nat. intros ks. revert data.
  induction ks as [|k ks IH]; intros data Hd; [done|]. cbn [foldl]. apply IH. split; cbv beta.
  - rewrite length_insert. apply Hd.
  - apply Forall_insert; [apply Hd|]. by eapply Hf, channel_ok.
Qed.
Lemma write_cells_ok f w h l data : byte_map f → pix_ok w h data → pix_ok w h (write_cells f w l data).
Proof.
  intros Hf. unfold write_cells. revert data. induction l as [|p l IH]; intros data Hd; [done|]. cbn [foldl].
  by apply IH, write_pixel_ok.
Qed.
(** Coverage moves a channel from what is there towards the colour. *)
Lemma over_between c d af : 0 <= af <= 255 → Z.min c d <= over c d af <= Z.max c d.
Proof. intros H. unfold over. split; [apply Z.div_le_lower_bound|apply Z.div_le_upper_bound]; nia. Qed.
Lemma over_opaque c d : over c d 255 = c.
Proof. unfold over. rewrite Z.sub_diag, Z.mul_0_r, Z.add_0_r. by apply Z.div_mul. Qed.

Definition rgba_ok (c : Rgba) : Prop := ∀ k, 0 <= pick c k <= 255.
Lemma blend_byte_map c : rgba_ok c → byte_map (blend c).
Proof.
  intros Hc k d Hd. unfold blend. pose proof (Hc 3%nat) as Ha. cbn in Ha. case_match; [|lia].
  pose proof (over_between (pick c k) d (ca c) Ha). specialize (Hc k). lia.
Qed.
(** Drawing keeps an image an image: its length, and every channel in eight bits,
    so no [as u8] drops anything. *)
Lemma drawing_keeps_bytes w h x0 y0 x1 y1 c data :
  rgba_ok c → pix_ok w h data →
  pix_ok w h (blit_glyph w h x0 y0 x1 y1 c data) ∧ pix_ok w h (fill_rect w h x0 y0 x1 y1 (cr c) (cg c) (cb c) data).
Proof.
  intros Hc Hd. unfold blit_glyph, fill_rect, clip. split; repeat case_match; try done; apply write_cells_ok; try done.
  - by apply blend_byte_map.
  - intros k d _. destruct k as [|[|[|k]]]; cbn; [apply (Hc 0%nat)|apply (Hc 1%nat)|apply (Hc 2%nat)|lia].
Qed.

(** A byte outside of the cells is left alone. *)
Lemma write_cells_elsewhere f w l data j :
  (∀ p k, In p l → (k < 4)%nat → j ≠ (Z.to_nat (pixel_index w p.1 p.2) + k)%nat) →
  write_cells f w l data !! j = data !! j.
Proof.
  unfold write_cells. revert data. induction l as [|p l IH]; intros data Hj; [done|]. cbn [foldl].
  rewrite IH; [|intros q k Hq; apply Hj; by right]. unfold write_pixel. cbn [foldl].
  rewrite !list_lookup_insert_ne; [done|..]; symmetry; apply Hj; (by left) || lia.
Qed.
(** What [fill_rect] and [blit_glyph] write is inside their rectangle and inside
    the image: every other pixel keeps its bytes. *)
Lemma drawing_stays_inside w h x0 y0 x1 y1 c data x y k :
  0 <= x < w → 0 <= y < h → (k < 4)%nat →
  let j := (Z.to_nat (pixel_index w x y) + k)%nat in
  (¬ (x0 <= x < x1 ∧ y0 <= y < y1) → fill_rect w h x0 y0 x1 y1 (cr c) (cg c) (cb c) data !! j = data !! j)
  ∧ (¬ (x0 <= x < x0 + x1 ∧ y0 <= y < y0 + y1) → blit_glyph w h x0 y0 x1 y1 c data !! j = data !! j).
Proof.
  intros Hx Hy Hk j. assert (∀ p i, 0 <= p.1 < w → 0 <= p.2 < h → (i < 4)%nat → j = (Z.to_nat (pixel_index w p.1 p.2) + i)%nat →
    p = (x, y)) as Hinj.
  { intros [a b] i. cbn [fst snd]. subst j. unfold pixel_index. intros Ha Hb Hi E. assert (b = y) as -> by nia. f_equal. nia. }
  split; intros Ho; unfold fill_rect, blit_glyph, clip; repeat case_match; try done; apply write_cells_elsewhere; intros p i Hp Hi Ej.
  - apply elem_of_cells in Hp. apply (Hinj p i) in Ej; [subst p; cbn in Hp; lia|lia|lia|done].
  - apply filter_In in Hp as [Hp E]. apply elem_of_cells in Hp. apply (Hinj p i) in Ej; [subst p; cbn in Hp; lia|lia|lia|done].
Qed.

(** ** What is kept of a document *)

(** The documents without nesting: their events, and the blocks they stand for. *)
Inductive Doc : Type :=
| DHeading (l : HeadingLevel) (ts : list text)
| DParagraph (spans : list InlineSpan)
| DCode (ts : list text)
| DList (start : option Z) (items : list (list InlineSpan))
| DQuote (spans : list InlineSpan)
| DRule
| DImage (alt : text).
Definition span_events (x : InlineSpan) : list Event :=
  match style x with
  | Plain => [Text_ (text_ x)]
  | Bold => [Start TStrong; Text_ (text_ x); End_ TStrong]
  | Link => [Start TLink; Text_ (text_ x); End_ TLink]
  | Code => [ECode (text_ x)]
  end.
Definition para_events (l : list InlineSpan) : list Event := Start TParagraph :: flat_map span_events l ++ [End_ TParagraph].
Definition item_events (l : list InlineSpan) : list Event := Start TItem :: flat_map span_events l ++ [End_ TItem].
Definition events (d : Doc) : list Event :=
  match d with
  | DHeading l ts => Start (THeading l) :: map Text_ ts ++ [End_ (THeading l)]
  | DParagraph l => para_events l
  | DCode ts => Start TCodeBlock :: map Text_ ts ++ [End_ TCodeBlock]
  | DList o items => Start (TList o) :: flat_map item_events items ++ [End_ (TList o)]
  | DQuote l => Start TBlockQuote :: para_events l ++ [End_ TBlockQuote]
  | DRule => [ERule]
  | DImage alt => [Start TImage; Text_ alt; End_ TImage]
  end.
Fixpoint numbered (o : option Z) (items : list (list InlineSpan)) : list Block :=
  match items with [] => [] | l :: items => BListItem o l :: numbered ((λ o, o + 1) <$> o) items end.
Definition blocks_of (d : Doc) : list Block :=
  match d with
  | DHeading l ts => [BHeading (heading_level_to_u8 l) (concat ts)]
  | DParagraph l => [BParagraph l]
  | DCode ts => [BCode (trim_end_nl (concat ts))]
  | DList o items => numbered o items
  | DQuote l => [BQuote l]
  | DRule => [BRule]
  | DImage alt => [BImage alt]
  end.

(** Between two blocks. *)
Definition idle (s : State) : Prop :=
  style_stack s = [Plain] ∧ in_code_block s = false ∧ heading_level s = None ∧ in_list_item s = false ∧ list_ordinal s = None
  ∧ in_blockquote s = false ∧ in_image s = false.
(** Where a span is taken as it is. *)
Definition inline_ready (s : State) : Prop :=
  head (style_stack s) = Some Plain ∧ in_code_block s = false ∧ heading_level s = None ∧ in_image s = false.

Lemma span_kept x s : inline_ready s → foldl on_event s (span_events x) = set_inlines (inlines s ++ [x]) s.
Proof.
  destruct s as [bs il [|st0 ss] cb cbuf hl ht li lo bq im ia]; intros (Hst & Hc & Hh & Hi); cbn in Hst; [done|].
  cbn in *. simplify_eq. destruct x as [t []]; reflexivity.
Qed.
Lemma spans_kept l s : inline_ready s → foldl on_event s (flat_map span_events l) = set_inlines (inlines s ++ l) s.
Proof.
  revert s. induction l as [|x l IH]; intros s Hs; [rewrite app_nil_r; by destruct s|].
  cbn [flat_map]. rewrite foldl_app, span_kept, IH by done. cbn [inlines set_inlines]. by rewrite <- app_assoc.
Qed.
Lemma headings_kept ts s l t :
  heading_level s = Some l → heading_text s = t → in_code_block s = false → in_image s = false →
  foldl on_event s (map Text_ ts) = set_heading (Some l) (t ++ concat ts) s.
Proof.
  revert s t. induction ts as [|u ts IH]; intros [bs il ss cb cbuf hl ht li lo bq im ia] t; cbn; intros -> -> -> ->;
    [by rewrite app_nil_r|]. rewrite (IH _ (t ++ u)) by done. cbn. by rewrite <- app_assoc.
Qed.
Lemma code_kept ts s t :
  in_code_block s = true → code_buf s = t → in_image s = false →
  foldl on_event s (map Text_ ts) = set_code true (t ++ concat ts) s.
Proof.
  revert s t. induction ts as [|u ts IH]; intros [bs il ss cb cbuf hl ht li lo bq im ia] t; cbn; intros -> -> ->;
    [by rewrite app_nil_r|]. rewrite (IH _ (t ++ u)) by done. cbn. by rewrite <- app_assoc.
Qed.
Lemma items_kept items s o :
  style_stack s = [Plain] → in_code_block s = false → heading_level s = None → in_image s = false → list_ordinal s = o →
  in_list_item s = false →
  ∃ il o', foldl on_event s (flat_map item_events items)
           = mkState (blocks s ++ numbered o items) il [Plain] false (code_buf s) None (heading_text s) false o' (in_blockquote s)
               false (image_alt s).
Proof.
  revert s o. induction items as [|l items IH]; intros [bs il ss cb cbuf hl ht li lo bq im ia] o; cbn [style_stack in_code_block
    heading_level in_image list_ordinal in_list_item blocks code_buf heading_text in_blockquote image_alt]; intros -> -> -> -> -> ->.
  - cbn. rewrite app_nil_r. by eexists _, _.
  - cbn [flat_map]. unfold item_events at 1. rewrite <- app_comm_cons, <- app_assoc. cbn [foldl on_event]. rewrite foldl_app.
    rewrite spans_kept by done. cbn [app foldl on_event].
    destruct (IH (push (BListItem o l) (mkState bs [] [Plain] false cbuf None ht false ((λ o, o + 1) <$> o) bq false ia))
                ((λ o, o + 1) <$> o)) as (il' & o' & E); try done.
    exists il', o'. etransitivity; [exact E|]. cbn. by rewrite <- app_assoc.
Qed.

Lemma doc_kept d s : idle s → idle (foldl on_event s (events d)) ∧ blocks (foldl on_event s (events d)) = blocks s ++ blocks_of d.
Proof.
  destruct s as [bs il ss cb cbuf hl ht li lo bq im ia]. unfold idle. cbn [style_stack in_code_block
    heading_level in_image list_ordinal in_list_item in_blockquote]. intros (-> & -> & -> & -> & -> & -> & ->).
  destruct d as [l ts|l|ts|o items|l| |alt]; cbn [events].
  - cbn [foldl on_event]. rewrite foldl_app, (headings_kept ts _ (heading_level_to_u8 l) []) by done. by cbn.
  - unfold para_events. cbn [foldl on_event]. rewrite foldl_app, spans_kept by done. by cbn.
  - cbn [foldl on_event]. rewrite foldl_app, (code_kept ts _ []) by done. by cbn.
  - cbn [foldl on_event]. rewrite foldl_app.
    match goal with |- context [foldl on_event ?s0 (flat_map _ _)] =>
      destruct (items_kept items s0 o) as (il' & o' & ->); try done end.
  - unfold para_events. rewrite <- app_comm_cons, <- app_assoc. cbn [foldl on_event]. rewrite foldl_app, spans_kept by done. by cbn.
  - by cbn.
  - by cbn.
Qed.

(** A document without nested blocks is shown whole: a block for each of its own,
    in order, with its text, the style of each run and the numbers of its lists. *)
Theorem flat_documents_are_kept (ds : list Doc) :
  parse_blocks (flat_map events ds) = flat_map blocks_of ds.
Proof.
  unfold parse_blocks. assert (∀ s, idle s → blocks (foldl on_event s (flat_map events ds)) = blocks s ++ flat_map blocks_of ds) as H.
  { induction ds as [|d ds IH]; intros s Hs; cbn [flat_map]; [by rewrite app_nil_r|].
    destruct (doc_kept d s Hs) as [Hi Hb]. rewrite foldl_app, IH by done. by rewrite Hb, <- app_assoc. }
  by rewrite H.
Qed.

(** The text of an item before a list nested in it is lost, and so is the number
    of the item itself and of those after it. *)
Example nested_list_loses_text :
  parse_blocks [Start (TList (Some 1)); Start TItem; Text_ (lit "outer"); Start (TList None); Start TItem; Text_ (lit "inner");
                End_ TItem; End_ (TList None); End_ TItem; Start TItem; Text_ (lit "second"); End_ TItem; End_ (TList (Some 1))]
  = [BListItem None [mkSpan (lit "inner") Plain]; BListItem None []; BListItem None [mkSpan (lit "second") Plain]].
Proof. by vm_compute. Qed.
(** A paragraph after a quote's inner quote is shown as a plain one. *)
Example inner_quote_ends_the_outer :
  parse_blocks [Start TBlockQuote; Start TBlockQuote; Start TParagraph; Text_ (lit "a"); End_ TParagraph; End_ TBlockQuote;
                Start TParagraph; Text_ (lit "b"); End_ TParagraph; End_ TBlockQuote]
  = [BQuote [mkSpan (lit "a") Plain]; BParagraph [mkSpan (lit "b") Plain]].
Proof. by vm_compute. Qed.
(** The cells of a table are no tag the code knows: their text is never shown. *)
Example table_text_is_lost :
  parse_blocks [Start TOther; Text_ (lit "cell"); End_ TOther; Start TParagraph; Text_ (lit "after"); End_ TParagraph]
  = [BParagraph [mkSpan (lit "after") Plain]].
Proof. by vm_compute. Qed.
(** A pixel under half coverage, and one outside of the image. *)
Example blitted :
  blit_glyph 2 1 1 0 4 4 (mkRgba 255 0 0 128) [0; 0; 0; 255; 40; 40; 40; 255] = [0; 0; 0; 255; 147; 19; 19; 255].
Proof. by vm_compute. Qed.
End Md.
