(* ===== verification/Bluetooth.v ===== *)
(** * The Bluetooth tile and menu

    [crates/sy-desktop-shell/src/bt.rs]: what is read of [bluetoothctl]'s
    listings, its device sheets and a scan, the tile of the bar, the menu with
    what each of its rows does, and pairing. The program and the picker enter by
    their output. *)

From S2P Require Import Prelude Lists Text Paths Lines Utf8.
Import Lists Text Paths Lines.
Local Open Scope string_scope.
Local Open Scope nat_scope.
Local Open Scope list_scope.

Module Bt.

(** ** Reading *)

(** [str::split_once] and [str::find] of a text. *)
Fixpoint split_once (c : Z) (s : text) : option (text * text) :=
  match s with
  | [] => None
  | d :: s => if (d =? c)%Z then Some ([], s) else match split_once c s with Some (a, b) => Some (d :: a, b) | None => None end
  end.
Fixpoint split_at_text (pat s : text) : option (text * text) :=
  match strip_prefix pat s with
  | Some r => Some ([], r)
  | None => match s with
            | [] => None
            | c :: s => match split_at_text pat s with Some (a, b) => Some (c :: a, b) | None => None end
            end
  end.
Definition SPACE : Z := 32.
Definition COLON : Z := 58.
Definition DASH : Z := 45.

Definition is_powered (show : option text) : bool := match show with Some o => contains o (lit "Powered: yes") | None => false end.
Definition parse_device (line : text) : option (text * text) :=
  rest ← strip_prefix (lit "Device ") line; split_once SPACE rest.
(** [devices], on the output of the command. *)
Definition devices (out : option text) : list (text * text) :=
  match out with Some o => omap parse_device (lines o) | None => [] end.

Record Device : Type := mkDevice { mac : text; name : text; rssi : option Z }.
#[export] Instance Device_eq_dec : EqDecision Device.
Proof. solve_decision. Defined.

(** [str::parse::<i32>], and [u32::from_str_radix] with 16 and [as i32]. *)
Definition parse_i32 (s : text) : option Z :=
  let '(neg, d) := match s with c :: r => if (c =? DASH)%Z then (true, r) else if (c =? 43)%Z then (false, r) else (false, s) | [] => (false, s) end in
  match d with
  | [] => None
  | _ => n ← parse_digits 0 d;
         let n := if neg : bool then (- n)%Z else n in
         if ((- 2 ^ 31 <=? n) && (n <? 2 ^ 31))%Z then Some n else None
  end.
Definition hex_digit (c : Z) : option Z :=
  if ((48 <=? c) && (c <=? 57))%Z then Some (c - 48)%Z
  else if ((97 <=? c) && (c <=? 102))%Z then Some (c - 87)%Z
  else if ((65 <=? c) && (c <=? 70))%Z then Some (c - 55)%Z else None.
Fixpoint hex_digits (acc : Z) (s : text) : option Z :=
  match s with
  | [] => Some acc
  | c :: s => d ← hex_digit c; let acc := (acc * 16 + d)%Z in if (acc <? U32_MOD)%Z then hex_digits acc s else None
  end.
Definition parse_hex32 (s : text) : option Z :=
  match match s with c :: r => if (c =? 43)%Z then r else s | [] => s end with [] => None | d => hex_digits 0 d end.
Definition as_i32 (n : Z) : Z := if (n <? 2 ^ 31)%Z then n else (n - U32_MOD)%Z.
Definition parse_rssi (line : text) : option Z :=
  v ← strip_prefix (lit "RSSI:") (trim line);
  let v := trim v in
  match split_once 40 v with
  | Some (_, r) => parse_i32 (trim (match split_once 41 r with Some (a, _) => a | None => r end))
  | None =>
      match strip_prefix (lit "0x") v with
      | Some hex => as_i32 <$> parse_hex32 hex
      | None => w ← head (split_whitespace v); parse_i32 w
      end
  end.

Definition is_hex_pair (p : text) : bool :=
  match p with [a; b] => bool_decide (is_Some (hex_digit a)) && bool_decide (is_Some (hex_digit b)) | _ => false end.
Definition is_mac_with (s : text) (sep : Z) : bool :=
  let parts := split_on sep s in (length parts =? 6) && forallb is_hex_pair parts.
Definition is_mac_like (s : text) : bool := is_mac_with s COLON || is_mac_with s DASH.
Definition good_name (v : text) : bool := negb (bool_decide (v = [])) && negb (is_mac_like v).
Definition or_else {A} (a b : option A) : option A := match a with Some x => Some x | None => b end.

(** A line of the loop of [parse_info] on the name, the alias and the signal. *)
Definition info_line (acc : option text * option text * option Z) (line : text) : option text * option text * option Z :=
  let '(n, a, r) := acc in
  let t := trim line in
  match strip_prefix (lit "Alias:") t with
  | Some v => if good_name (trim v) then (n, Some (trim v), r) else acc
  | None =>
      match strip_prefix (lit "Name:") t with
      | Some v => if good_name (trim v) then (Some (trim v), a, r) else acc
      | None => if starts_with t (lit "RSSI:") then (n, a, or_else (parse_rssi t) r) else acc
      end
  end.
Definition parse_info (body : text) : option text * option Z :=
  let '(n, a, r) := foldl info_line (None, None, None) (lines body) in (or_else a n, r).
Definition fetch_info (out : option text) : option text * option Z := match out with Some o => parse_info o | None => (None, None) end.

Definition mac_tail_name (m : text) : text :=
  let parts := split_on COLON m in
  let tail := match drop (length parts - 2) parts with [a; b] => a ++ COLON :: b | [a] => a | _ => [] end in
  match tail with [] => lit "device" | _ => lit "device " ++ tail end.
Definition display_name (info : text → option text) (m raw : text) : text :=
  if negb (is_mac_like raw) && negb (bool_decide (raw = [])) then raw
  else default (mac_tail_name m) (fetch_info (info m)).1.
Definition resolve (info : text → option text) (mr : text * text) : Device :=
  let '(m, raw) := mr in
  let good := if good_name raw then Some raw else None in
  let '(n, r) := fetch_info (info m) in
  mkDevice m (default (mac_tail_name m) (or_else good n)) r.

(** [Option::cmp] reversed on the signal, then the names by their bytes. *)
Definition rssi_le (a b : option Z) : bool :=
  match a, b with None, _ => true | Some _, None => false | Some x, Some y => (x <=? y)%Z end.
Fixpoint text_leb (a b : list Z) : bool :=
  match a, b with
  | [], _ => true
  | _ :: _, [] => false
  | x :: a, y :: b => (x <? y)%Z || ((x =? y)%Z && text_leb a b)
  end.
Definition stronger (a b : Device) : bool :=
  if bool_decide (rssi a = rssi b) then text_leb (Utf8.as_bytes (name a)) (Utf8.as_bytes (name b)) else rssi_le (rssi b) (rssi a).
Definition sort_by_signal (l : list Device) : list Device := sort_by stronger l.
Definition resolved_sorted (info : text → option text) (raw : list (text * text)) : list Device :=
  sort_by_signal (map (resolve info) raw).

(** [▰] and [▱]. *)
Definition bars (n : nat) : text := replicate n 9648%Z ++ replicate (4 - n) 9649%Z.
Definition signal_glyph (r : option Z) : text :=
  match r with
  | Some r => if (-50 <=? r)%Z then bars 4 else if (-65 <=? r)%Z then bars 3 else if (-78 <=? r)%Z then bars 2 else bars 1
  | None => bars 0
  end.

(** ** A scan *)

Definition is_ascii_alphabetic (c : Z) : bool := (((65 <=? c) && (c <=? 90)) || ((97 <=? c) && (c <=? 122)))%Z.
(** [strip_ansi]; [esc] is whether an escape is being skipped. *)
Fixpoint strip_ansi (esc : bool) (s : text) : text :=
  match s with
  | [] => []
  | c :: s => if esc then strip_ansi (negb (is_ascii_alphabetic c)) s
              else if (c =? 27)%Z then strip_ansi true s else c :: strip_ansi false s
  end.
Record Scan : Type := mkScan { order : list text; names : gmap text text; aliases : gmap text text; rssis : gmap text Z }.
Definition see (m : text) (s : Scan) : Scan :=
  mkScan (if bool_decide (m ∈ order s) then order s else order s ++ [m]) (names s) (aliases s) (rssis s).
Definition set_name (m n : text) (s : Scan) : Scan := mkScan (order s) (<[m := n]> (names s)) (aliases s) (rssis s).
Definition set_alias (m n : text) (s : Scan) : Scan := mkScan (order s) (names s) (<[m := n]> (aliases s)) (rssis s).
Definition set_rssi (m : text) (r : Z) (s : Scan) : Scan := mkScan (order s) (names s) (aliases s) (<[m := r]> (rssis s)).
Definition first_name (m n : text) (s : Scan) : Scan := match names s !! m with Some _ => s | None => set_name m n s end.
Definition scan_line (s : Scan) (raw : text) : Scan :=
  match split_at_text (lit "Device ") (strip_ansi false raw) with
  | None => s
  | Some (before, after) =>
      match split_once SPACE after with
      | None => s
      | Some (m, rest) =>
          if negb (is_mac_with m COLON) then s
          else
            let s := see m s in
            let t := trim rest in
            if starts_with t (lit "RSSI:") then match parse_rssi t with Some r => set_rssi m r s | None => s end
            else match strip_prefix (lit "Alias:") t with
                 | Some v => if good_name (trim v) then set_alias m (trim v) s else s
                 | None =>
                     match strip_prefix (lit "Name:") t with
                     | Some v => if good_name (trim v) then set_name m (trim v) s else s
                     | None => if contains before (lit "[NEW]") && good_name t then first_name m t s else s
                     end
                 end
      end
  end.
Definition device_of (s : Scan) (m : text) : Device :=
  mkDevice m (default (mac_tail_name m) (or_else (aliases s !! m) (names s !! m))) (rssis s !! m).
Definition scan (out : text) : Scan := foldl scan_line (mkScan [] ∅ ∅ ∅) (lines out).
Definition parse_scan (out : text) : list Device := map (device_of (scan out)) (order (scan out)).

(** ** The tile *)

Definition two_words (s : text) : text := join_space (take 2 (split_whitespace s)).
Definition truncate (s : text) (max : nat) : text := if length s <=? max then s else take (max - 1) s ++ [8230%Z].
Definition Q : text := [34%Z].
Definition field (k : string) (v : text) : text := Q ++ lit k ++ Q ++ [COLON] ++ Q ++ v ++ Q.
Definition tile_json (t c tip : text) : text :=
  [123%Z] ++ field "text" t ++ [44%Z] ++ field "class" c ++ [44%Z] ++ field "tooltip" tip ++ [125%Z].
(** The two characters of an escaped line end. *)
Definition NL2 : text := [92; 110]%Z.
Definition waybar_out (show connected : option text) (info : text → option text) : text :=
  if negb (is_powered show) then tile_json (lit "BT:off") (lit "off") (lit "Bluetooth off" ++ NL2 ++ lit "click: open menu")
  else
    let '(t, c, tip) :=
      match devices connected with
      | (m, raw) :: _ =>
          let full := display_name info m raw in
          (lit "BT:" ++ truncate (two_words full) 16, lit "connected", lit "Connected: " ++ full)
      | [] => (lit "BT:on", lit "on", lit "Bluetooth on, no device connected")
      end in
    tile_json t c (tip ++ NL2 ++ lit "click: menu " ++ [183%Z] ++ lit " right-click: toggle").

(** ** The menu *)

Inductive Action : Type := Noop | Toggle | Connect (m : text) | Disconnect (m : text) | Forget (m : text) | ScanPair.
#[export] Instance Action_eq_dec : EqDecision Action.
Proof. solve_decision. Defined.
Definition rule : text := [9472; 9472]%Z.
Definition menu_items (powered : bool) (connected paired : list Device) : list (text * Action) :=
  if negb powered then [(lit "bt power: off  " ++ [8594%Z] ++ lit " enable", Toggle)]
  else
    let other := List.filter (λ d, negb (existsb (λ c, bool_decide (mac c = mac d)) connected)) paired in
    [(lit "bt power: on   " ++ [8594%Z] ++ lit " disable", Toggle)]
    ++ (match connected with
        | [] => []
        | _ => (rule ++ lit " connected " ++ rule, Noop)
               :: map (λ d, ([9679; 32]%Z ++ signal_glyph (rssi d) ++ [SPACE] ++ name d, Disconnect (mac d))) connected
        end)
    ++ (match other with
        | [] => []
        | _ => (rule ++ lit " paired (signal: strong " ++ [8594%Z] ++ lit " weak) " ++ rule, Noop)
               :: map (λ d, ([9675; 32]%Z ++ signal_glyph (rssi d) ++ [SPACE] ++ name d, Connect (mac d))) other
        end)
    ++ [(rule, Noop); (lit "scan & pair new" ++ [8230%Z], ScanPair); (rule, Noop)]
    ++ map (λ d, (lit "forget: " ++ name d, Forget (mac d))) paired.
(** The row the picker gives back, and what it does. *)
Definition picked_action (items : list (text * Action)) (picked : text) : Action :=
  match trim picked with
  | [] => Noop
  | p => match List.find (λ la : text * Action, bool_decide (la.1 = p)) items with Some la => la.2 | None => Noop end
  end.

(** The commands of an action, in order; the outcome of [connect] decides nothing
    but a notice. *)
Definition btctl (args : list text) : list text := lit "bluetoothctl" :: args.
Definition connect_commands (m : text) : list (list text) := [btctl [lit "trust"; m]; btctl [lit "connect"; m]].
Definition dispatch (powered_now : bool) (pair_pick : option text) (a : Action) : list (list text) :=
  match a with
  | Noop => []
  | Toggle => [btctl [lit "show"]; btctl [lit "power"; if powered_now then lit "off" else lit "on"]]
  | Connect m => connect_commands m
  | Disconnect m => [btctl [lit "disconnect"; m]]
  | Forget m => [btctl [lit "remove"; m]]
  | ScanPair =>
      btctl [lit "--timeout"; lit "12"; lit "scan"; lit "on"] :: btctl [lit "devices"; lit "Paired"]
      :: match pair_pick with Some m => btctl [lit "pair"; m] :: btctl [lit "trust"; m] :: connect_commands m | None => [] end
  end.
(** [scan_and_pair]: the devices offered, and the address of the one picked. *)
Definition offered (scan_text : text) (paired : list (text * text)) : list Device :=
  sort_by_signal (List.filter (λ d, negb (existsb (λ p : text * text, bool_decide (p.1 = mac d)) paired)) (parse_scan scan_text)).
Definition offer_line (d : Device) : text := signal_glyph (rssi d) ++ [SPACE] ++ name d ++ lit "  [" ++ mac d ++ lit "]".
Definition pick_pair (offers : list Device) (picked : text) : option text :=
  match trim picked with [] => None | p => mac <$> List.find (λ d, contains p (mac d)) offers end.

(** ** What it promises *)

Definition scan_ok (s : Scan) : Prop := NoDup (order s) ∧ Forall (λ m, is_mac_with m COLON = true) (order s).
Lemma see_ok m s : is_mac_with m COLON = true → scan_ok s → scan_ok (see m s).
Proof.
  intros Hm [Hn Hf]. unfold scan_ok, see. cbn [order]. destruct (bool_decide_reflect (m ∈ order s)) as [E|E]; [done|]. split.
  - apply NoDup_app. split_and!; [done| |apply NoDup_singleton]. by intros x Hx ->%list_elem_of_singleton.
  - apply Forall_app_2; [done|by constructor].
Qed.
Lemma scan_line_ok s raw : scan_ok s → scan_ok (scan_line s raw).
Proof.
  intros Hs. unfold scan_line. destruct (split_at_text _ _) as [[before after]|]; [|done].
  destruct (split_once SPACE after) as [[m rest]|]; [|done]. destruct (is_mac_with m COLON) eqn:E; cbn [negb]; [|done].
  pose proof (see_ok m s E Hs) as H. unfold first_name. repeat case_match; apply H.
Qed.

(** A scan lists each address once, in the order of their first lines, and only
    well-formed ones; each device has the last alias given, or else a name, or
    else the tail of its address. *)
Theorem scan_lists_each_device_once out :
  NoDup (map mac (parse_scan out)) ∧ Forall (λ d, is_mac_with (mac d) COLON = true) (parse_scan out).
Proof.
  assert (scan_ok (scan out)) as [Hn Hf].
  { unfold scan. generalize (lines out). intros ls. assert (∀ s, scan_ok s → scan_ok (foldl scan_line s ls)) as H.
    { induction ls as [|l ls IH]; intros s Hs; [done|]. apply IH. by apply scan_line_ok. }
    apply H. split; [apply NoDup_nil_2|constructor]. }
  unfold parse_scan. split.
  - rewrite map_map. cbn [device_of mac]. by rewrite map_id.
  - apply Forall_fmap. eapply Forall_impl; [exact Hf|]. done.
Qed.

(** What is offered for pairing is seen in the scan and not paired yet. *)
Lemma offered_is_new out paired d :
  d ∈ offered out paired ↔ d ∈ parse_scan out ∧ mac d ∉ map fst paired.
Proof.
  unfold offered, sort_by_signal. rewrite elem_of_sort_by, !list_elem_of_In, filter_In, negb_true_iff.
  split; intros [Hd H]; (split; [done|]).
  - intros Hin. rewrite <- not_true_iff_false in H. apply H, existsb_exists.
    apply in_map_iff in Hin as (p & E & Hp). exists p. split; [done|]. by apply bool_decide_eq_true.
  - apply not_true_iff_false. intros (p & Hp & E%bool_decide_eq_true)%existsb_exists. apply H. rewrite <- E.
    by apply in_map.
Qed.

(** Picking a row that appears once among the rows does what the row is for. *)
Lemma picked_row_acts items l a :
  NoDup (map fst items) → (l, a) ∈ items → trim l = l → l ≠ [] → picked_action items l = a.
Proof.
  intros Hn Hi Ht Hl. unfold picked_action. rewrite Ht. destruct l as [|c l]; [done|].
  destruct (List.find _ items) as [[l' a']|] eqn:E.
  - apply find_some in E as [H E]. apply bool_decide_eq_true in E. cbn in E. subst l'. apply list_elem_of_In in H. cbn.
    apply list_elem_of_lookup in Hi as [i Hi], H as [j Hj].
    assert (i = j) as ->; [|congruence]. eapply NoDup_lookup; [exact Hn| |]; rewrite list_lookup_fmap; [by rewrite Hi|by rewrite Hj].
  - exfalso. apply list_elem_of_In in Hi. pose proof (find_none _ _ E _ Hi) as H. cbn in H. by rewrite bool_decide_eq_false in H.
Qed.

(** Of two devices of one name, forgetting the second forgets the first. *)
Example wrong_device_is_forgotten :
  let d m := mkDevice (lit m) (lit "Buds") None in
  picked_action (menu_items true [] [d "AA:AA:AA:AA:AA:AA"; d "BB:BB:BB:BB:BB:BB"]) (lit "forget: Buds") = Forget (lit "AA:AA:AA:AA:AA:AA").
Proof. by vm_compute. Qed.

(** A quote in a device's name goes into the JSON of the tile as it is. *)
Example name_is_not_escaped :
  contains (waybar_out (Some (lit "Powered: yes")) (Some (lit "Device AA:AA:AA:AA:AA:AA a" ++ Q ++ lit "b")) (λ _, None))
    (lit "BT:a" ++ Q ++ lit "b") = true.
Proof. by vm_compute. Qed.

Example scanned :
  parse_scan (lit "[NEW] Device AA:AA:AA:AA:AA:AA Phone" ++ [10%Z] ++ lit "[CHG] Device AA:AA:AA:AA:AA:AA RSSI: 0xffffffcb (-53)" ++ [10%Z])
  = [mkDevice (lit "AA:AA:AA:AA:AA:AA") (lit "Phone") (Some (-53)%Z)]
  ∧ parse_rssi (lit "RSSI: 0xffffffcb") = Some (-53)%Z.
Proof. by vm_compute. Qed.
End Bt.
